(* ===== verification/_CoqProject ===== *)
-Q . S2P
Prelude.v
CohDefs.v
CohCache.v
CohLru.v
CohProto.v
CohMesi.v
CohSmart.v
CohMoesi.v
CohMesif.v
CohDragon.v
CohSim.v
CohSimInv.v
CohSimRun.v
CohMain.v
Chains.v
Misc.v
Memory.v
MemorySpec.v
Cache.v
CacheInv.v
CacheSpec.v
CacheFlush.v
CacheCreate.v
CacheMain.v
Bpred.v
BpredBtb.v
BpredInv.v
BpredMain.v
EventQ.v
EventQInv.v
EventQSpec.v
EventQMain.v
Resource.v
ResourceSpec.v
Ruu.v
RuuStages.v
RuuSched.v
RuuFront.v
Pool.v
RuuPool.v
RuuInv.v
RuuSched1.v
RuuGood.v
RuuWriteback.v
RuuSquash.v
RuuRecover.v
RuuUnits.v
RuuCore.v
RuuComplete.v
RuuCommit.v
RuuIssue.v
RuuFill.v
RuuWire.v
RuuEnter.v
RuuResolve.v
RuuFetch.v
RuuRun.v
RuuPath.v
RuuTransparent.v
OooMain.v
SpecState.v
SpecInv.v
SpecAccess.v
SpecRegs.v
SpecMain.v
Isa.v
Floats.v
Pisa.v
Hier.v
HierSpec.v
OooHier.v
PisaOk.v
PisaMain.v
PisaDeps.v
Options.v
OptionsOk.v
OooMachine.v
PisaMachine.v
Eval.v
EvalMain.v
