(* ===== verification/Prelude.v ===== *)
(** * A verification library for two multicore architecture projects

    The repository holds two programs.  The first is a trace-driven simulator of
    cache coherence protocols (src/cache_coherence_protocols_research_PARSEC_benchmarks/main),
    a C++ discrete event simulation over five protocols.  The second is the
    SimpleScalar 3.0 tool set with a SPEC95 benchmark
    (src/superscalar_pipeline_optimisation_SPEC95_benchmark/simplesim-3.0), written in C.

    ** Layout

    - Prelude: machine integers, the [result] type of fallible computations,
      vectors that fault out of range, tactics and hint databases.

    The coherence simulator:

    - CohDefs (coherence_defs.h): transaction types, responses, statistics, and
      the abstract class [CoherenceProtocol] as a type class, with the laws the
      simulator is verified against.
    - CohCache (the cache classes of the protocol headers): [LRUCacheSet] and the
      set-associative cache, once for all state enumerations.
    - CohLru: the same sets as a refinement of a bounded recency list.
    - CohProto: the skeleton the protocols share (object, processor request,
      snooping loop) and the general facts of one served transaction.
    - CohMesi, CohSmart, CohMoesi, CohMesif, CohDragon: one protocol each
      (mesi_protocol.h, mesi_smart.h, moesi_protocol.h, mesif_protocol.h,
      dragon_protocol.h), its invariant and its instance of the interface.
    - CohSim (coherence_simulator.cpp): events, queue, arbiter and main loop.
    - CohSimInv: the simulator's invariant, kept by every event.
    - CohSimRun: the arbiter's order, termination and accounting of runs.
    - CohMain: the properties of whole simulations and single transactions.

    SimpleScalar:

    - Chains: singly linked chains through arrays, as a predicate on their members;
      Misc (misc.c, bitmap.h): logarithms, bit counts and the words of bitmaps.
    - Memory (memory.c, memory.h): the page table with its chained buckets, byte
      accesses, and the copy routines over an abstract memory function.  MemorySpec
      refines it to a map from addresses to bytes and states the properties.
    - Cache (cache.c, cache.h): creation, access on all three paths, probing and
      flushing, with the way list and the hash chains at the level of pointers.
      CacheInv is the invariant of a set and of a cache, CacheSpec the refinement of an
      access, CacheFlush and CacheCreate the other operations, CacheMain the properties.
    - Bpred (bpred.c, bpred.h): predictors, branch target buffer, return stack.
      BpredBtb is the buffer's recency list, BpredInv the invariant and the lookup,
      BpredMain the properties.
    - EventQ (eventq.c, eventq.h): the event queue with its free list of descriptors;
      EventQInv its invariant, EventQSpec its refinement to a sorted list, EventQMain
      the properties.
    - Resource (resource.c) with the functional units of sim-outorder.c, and
      ResourceSpec, with the properties.

    The out-of-order core (sim-outorder.c):

    - Ruu, RuuStages, RuuSched, RuuFront: its data; commit and recovery; write-back,
      refresh of the load/store queue, issue; fetch, dispatch and the cycle.  They are
      over the class [Environment]: caches, instruction set and wrong-path state.
    - Pool: the pool of station links as abstract lists, one per root (free list, event
      queue, ready queue, the list being walked, the consumers of each output).
      RuuPool: the queues of the core over it.
    - RuuInv, RuuSched1, RuuGood: the invariant of the core (shape of the two buffers,
      what the lists of links say of the instructions in flight, create vectors).
      RuuUnits, RuuCore: what the core relies on, and the invariant between stages.
    - One file per step that keeps it: RuuWriteback and RuuComplete (write-back),
      RuuSquash and RuuRecover (recovery), RuuCommit, RuuIssue (refresh and issue),
      RuuFill, RuuWire, RuuEnter and RuuResolve (dispatch), RuuFetch; RuuRun: the
      initial state, a cycle and whole runs.
    - RuuPath, RuuTransparent: the core against the functional simulation.
    - OooMain: the properties of the core, on a small machine of five instructions.
    - SpecState: the copies that a wrong path writes to, registers and the hash table of
      stores.  SpecInv, SpecAccess, SpecRegs: the table as a finite map over the memory,
      the registers as a view; SpecMain: the properties.
    - Hier: the six caches and TLBs with their miss handlers; HierSpec: every access is
      answered.  OooHier: the core over them, an instance of [Environment].
    - Options: sim_check_options, with the reading of cache descriptions; OptionsOk: what
      it accepts is well formed.

    The instruction set, and the whole:

    - Isa: an instruction as a sequence of accesses to registers and memory.
    - Floats: the floating point types of a host with IEEE arithmetic.
    - Pisa (machine.def, machine.h and the decoder of machine.c): the 119 instructions
      of PISA, their table and the fields of their words.  PisaOk: they are what the
      core relies on; PisaMain, PisaDeps: their properties.
    - OooMachine: a core with the parts that the options describe; PisaMachine: with
      PISA, and a loop to evaluate it on.
    - Eval (eval.c, and the conversions of misc.c): the expression evaluator; EvalMain:
      its properties.

    ** How the model corresponds to the code

    A definition has the name of the function it models; a part of a function that is a
    definition of its own has a name of its own, and the function composes the parts in
    the order of the code.  Pointers into arrays, caches and pools are positions, a null
    pointer is [None]; references to statistics are threaded.  Virtual calls of the
    coherence simulator go through the class [CoherenceProtocol]; function pointers of
    SimpleScalar (the miss handler of a cache, the memory function of the copy routines,
    the evaluator of identifiers) are arguments.  What the core uses of the caches, of the
    instruction set and of the wrong-path state is the class [Environment]; OooHier gives
    the instance made of cache.c's caches, machine.def's instructions and the speculative
    state, and PisaMachine fills it in.  Integers wrap at their width where they can
    overflow, signed ones as compiled; what else C leaves undefined is a fault, or a field
    of the record [host] where the instructions of PISA reach it, as is the system call
    proxy.  An index out of range, a null dereference or another undefined step is
    a [Fault], and so are [panic], [fatal] and failed assertions; allocation of memory
    does not fail.  Trace files are the
    lists of the pairs the stream extractions read.  The priority queue of the coherence
    simulator leaves the order of equal events unspecified, so a step may take any
    minimal event; the executable loop takes the first.

    ** Fuel

    Loops over linked lists take fuel: the number of blocks of a set, of descriptors, of
    links.  A list has no more members than its array, so the fuel is enough, and the
    theorems state that the operations return.  The main loop of the coherence simulator
    takes five iterations per trace item and one per core.  The evaluator of expressions
    takes three calls per character and three; a cycle of the core takes the bounds of its
    buffers, and a run of the core the number of cycles it is observed for.

    ** What the theorems show

    Coherence simulator, for every protocol that satisfies the interface: a simulation
    terminates, never faults or deadlocks, accounts for every trace item exactly once,
    and its 64-bit clock never wraps.  The bound on traces (fewer than 2^32 items in all,
    32-bit values) is what makes the clock argument go through.  For the five protocols:
    the coherence invariants in every reachable state, the states, latency and
    write-backs of single transactions, and the replacement policies.

    Caches: an access keeps the invariant and refines an ordered list of blocks per set
    under each replacement policy; what is written is read back; probing agrees with
    accessing; flushing empties the cache; the hash chains find what a linear search
    finds.  Branch prediction: an update refines a map from branches to targets kept in
    order of recency, the return stack returns calls in order.  Memory: an access refines
    a map of bytes, block copies and strings round-trip.  Event queue: servicing runs the
    due events in order and ends; queueing and removing are inverse.  Functional units:
    the table holds every unit of a class, and the first free one is chosen.
    Out-of-order core: from its first state a run of fewer than 2^31 cycles ends only
    with the program or for one of the reasons core_never_panics lists; instructions
    retire in program order (commit_in_order); recovery squashes exactly what is younger
    than the branch (recovery_precise); its event queue delivers completions in order of
    time to instances that are still in their station (event_order).  Wrong paths: their
    stores are a finite map over the memory (spec_mem_access_refines) and leave no trace
    (wrong_path_no_trace).  Together: whatever is fetched, predicted and squashed, the
    core computes what the functional simulation computes (core_simulates_program), for
    programs that stay in their text and never write it, and so does the machine with the
    caches of accepted options in bounds and the instructions of PISA (machine_simulates,
    pisa_simulates); its runs may also end with a completion in the past, as latencies
    are added without a check.  PISA: unaligned accesses compose, the bit by bit
    multiplications and shifts are what they stand for, the overflow tests are exact but
    at the least word, the named dependences order all but six instructions and the system
    call, and the
    decoder inverts the table.

    Expressions: evaluation of a string that fits the buffers ends with a value of its
    type or an error, sums and products
    have the type that C's conversions give, and the parser implements the grammar whose
    sums and products associate to the right.

    ** Not modelled

    Reports and other printing, trace files and argument parsing of the coherence
    simulator; the experiment scripts.  Of SimpleScalar: the loader, the symbol tables and
    the system calls, which act on the host (a system call is a parameter of the
    instruction set); the debugger; the traces of external events, with their generated
    lexer; the registration and printing of options and statistics; ranges; the other
    simulators, which drive the components modelled here; the disassembler and the Alpha
    target; probes of the host and scripts.  Of sim-outorder.c: pipeline traces,
    statistics by address, and the texts of reports.  *)

From stdpp Require Export base option list gmap sorting strings.
From Stdlib Require Export ZArith Lia.

Open Scope Z_scope.

(** ** Machine integers *)

(** Unsigned and two's complement wrap-around at the widths the sources use. *)
Definition u8 (z : Z) : Z := z mod 2 ^ 8.
Definition u16 (z : Z) : Z := z mod 2 ^ 16.
Definition u32 (z : Z) : Z := z mod 2 ^ 32.
Definition u64 (z : Z) : Z := z mod 2 ^ 64.
Definition i32 (z : Z) : Z := (z + 2 ^ 31) mod 2 ^ 32 - 2 ^ 31.
Definition i64 (z : Z) : Z := (z + 2 ^ 63) mod 2 ^ 64 - 2 ^ 63.

#[global] Arguments u8 : simpl never.
#[global] Arguments u16 : simpl never.
#[global] Arguments u32 : simpl never.
#[global] Arguments u64 : simpl never.
#[global] Arguments i32 : simpl never.
#[global] Arguments i64 : simpl never.

(** C's conversions between [_Bool]/[int] conditions and truth values. *)
Definition c_bool (b : bool) : Z := if b then 1 else 0.

Lemma u32_small z : 0 ≤ z < 2 ^ 32 → u32 z = z.
Proof. apply Z.mod_small. Qed.

Lemma u64_small z : 0 ≤ z < 2 ^ 64 → u64 z = z.
Proof. apply Z.mod_small. Qed.

Lemma i32_small z : - 2 ^ 31 ≤ z < 2 ^ 31 → i32 z = z.
Proof. intros. unfold i32. rewrite Z.mod_small; lia. Qed.

Lemma i64_small z : - 2 ^ 63 ≤ z < 2 ^ 63 → i64 z = z.
Proof. intros. unfold i64. rewrite Z.mod_small; lia. Qed.

Lemma u32_range z : 0 ≤ u32 z < 2 ^ 32.
Proof. apply Z.mod_pos_bound; lia. Qed.

Lemma u64_range z : 0 ≤ u64 z < 2 ^ 64.
Proof. apply Z.mod_pos_bound; lia. Qed.

Lemma i32_range z : - 2 ^ 31 ≤ i32 z < 2 ^ 31.
Proof. unfold i32. pose proof (Z.mod_pos_bound (z + 2 ^ 31) (2 ^ 32)); lia. Qed.

Lemma i64_range z : - 2 ^ 63 ≤ i64 z < 2 ^ 63.
Proof. unfold i64. pose proof (Z.mod_pos_bound (z + 2 ^ 63) (2 ^ 64)); lia. Qed.

(** Wrapping twice is wrapping once: nested sums need a single wrap. *)
Lemma i32_add_l a b : i32 (i32 a + b) = i32 (a + b).
Proof.
  unfold i32.
  replace ((a + 2 ^ 31) mod 2 ^ 32 - 2 ^ 31 + b + 2 ^ 31)
    with ((a + 2 ^ 31) mod 2 ^ 32 + b) by lia.
  rewrite Zplus_mod_idemp_l. do 2 f_equal. lia.
Qed.

Lemma i32_add_r a b : i32 (a + i32 b) = i32 (a + b).
Proof. rewrite Z.add_comm, i32_add_l. f_equal; lia. Qed.

Lemma i64_add_l a b : i64 (i64 a + b) = i64 (a + b).
Proof.
  unfold i64.
  replace ((a + 2 ^ 63) mod 2 ^ 64 - 2 ^ 63 + b + 2 ^ 63)
    with ((a + 2 ^ 63) mod 2 ^ 64 + b) by lia.
  rewrite Zplus_mod_idemp_l. do 2 f_equal. lia.
Qed.

Lemma u64_add_l a b : u64 (u64 a + b) = u64 (a + b).
Proof. apply Zplus_mod_idemp_l. Qed.

Lemma u64_add_r a b : u64 (a + u64 b) = u64 (a + b).
Proof. apply Zplus_mod_idemp_r. Qed.

(** A mask bounds what it selects. *)
Lemma land_mask a m : 0 ≤ a → 0 ≤ m → 0 ≤ Z.land a m ≤ m.
Proof.
  intros Ha Hm. rewrite <- (Z2N.id a), <- (Z2N.id m) by done.
  rewrite <- N2Z.inj_land. pose proof (N.land_le_r (Z.to_N a) (Z.to_N m)). lia.
Qed.

(** Bits put above [k] do not overlap what is below. *)
Lemma lor_add a b k : 0 ≤ k → 0 ≤ b < 2 ^ k → Z.lor (a * 2 ^ k) b = a * 2 ^ k + b.
Proof.
  intros Hk Hb. assert (Z.land (a * 2 ^ k) b = 0) as H0.
  { apply Z.bits_inj'. intros n Hn. rewrite Z.land_spec, Z.testbit_0_l.
    destruct (decide (n < k)).
    - by rewrite Z.mul_pow2_bits_low.
    - replace (Z.testbit b n) with false; [apply andb_false_r|].
      rewrite <- (Z.mod_small b (2 ^ k)) by done. by rewrite Z.mod_pow2_bits_high by lia. }
  rewrite <- Z.lxor_lor by done. symmetry. by apply Z.add_nocarry_lxor.
Qed.

(** Masking low bits off a 32-bit word. *)
Lemma land_u32_lnot a k :
  0 ≤ a < 2 ^ 32 → 0 ≤ k → Z.land a (u32 (Z.lnot (2 ^ k - 1))) = (a / 2 ^ k) * 2 ^ k.
Proof.
  intros Ha Hk. unfold u32. rewrite <- Z.land_ones by done.
  rewrite (Z.land_comm (Z.lnot _)), Z.land_assoc.
  rewrite (Z.land_ones a 32), Z.mod_small by done.
  replace (2 ^ k - 1) with (Z.ones k) by (rewrite Z.ones_equiv; lia).
  rewrite <- Z.ldiff_land, Z.ldiff_ones_r by done.
  by rewrite Z.shiftl_mul_pow2, Z.shiftr_div_pow2 by done.
Qed.

Lemma u64_le z : 0 ≤ z → u64 z ≤ z.
Proof. intros. unfold u64. apply Z.mod_le; lia. Qed.

(** ** Failing computations *)

(** What stops a C or C++ function other than returning. *)
Inductive fault :=
  | NullDeref
  | OutOfBounds
  | DivByZero
  | Undefined
  | AssertFail
  | Fatal (msg : string)
  | Panic (msg : string)
  | OutOfFuel.

Inductive result (A : Type) :=
  | Ok (a : A)
  | Fault (f : fault).
Arguments Ok {A} a.
Arguments Fault {A} f.

#[export] Instance fault_eq_dec : EqDecision fault.
Proof. solve_decision. Defined.

#[export] Instance result_ret : MRet result := λ A a, Ok a.
#[export] Instance result_bind : MBind result :=
  λ A B k m, match m with Ok a => k a | Fault f => Fault f end.
#[export] Instance result_fmap : FMap result :=
  λ A B g m, match m with Ok a => Ok (g a) | Fault f => Fault f end.

#[export] Instance Ok_inj {A} : Inj (=) (=) (@Ok A).
Proof. by intros a b [= ->]. Qed.

Lemma bind_Ok {A B} (m : result A) (k : A → result B) b :
  m ≫= k = Ok b ↔ ∃ a, m = Ok a ∧ k a = Ok b.
Proof. destruct m; simpl; naive_solver. Qed.

Lemma bind_ret_l {A B} (a : A) (k : A → result B) : Ok a ≫= k = k a.
Proof. done. Qed.

(** A pointer that the code dereferences without a test. *)
Definition deref {A} (o : option A) : result A :=
  match o with Some a => Ok a | None => Fault NullDeref end.

(** [v[i]] on a vector: reading or writing past the end is a fault. *)
Definition vget {A} (l : list A) (i : nat) : result A :=
  match l !! i with Some a => Ok a | None => Fault OutOfBounds end.

Definition vset {A} (l : list A) (i : nat) (a : A) : result (list A) :=
  match l !! i with Some _ => Ok (<[i := a]> l) | None => Fault OutOfBounds end.

(** [v[i] = f(v[i])], the shape of every [v[i].field++]. *)
Definition vupd {A} (l : list A) (i : nat) (f : A → A) : result (list A) :=
  a ← vget l i; Ok (<[i := f a]> l).

Lemma vget_Ok {A} (l : list A) i a : vget l i = Ok a ↔ l !! i = Some a.
Proof. unfold vget. destruct (l !! i); naive_solver. Qed.

Lemma vset_Ok {A} (l : list A) i a l' :
  vset l i a = Ok l' ↔ is_Some (l !! i) ∧ l' = <[i := a]> l.
Proof. unfold vset. destruct (l !! i); naive_solver. Qed.

Lemma vupd_Ok {A} (l : list A) i f l' :
  vupd l i f = Ok l' ↔ ∃ a, l !! i = Some a ∧ l' = <[i := f a]> l.
Proof. unfold vupd. rewrite bind_Ok. setoid_rewrite vget_Ok. naive_solver. Qed.

Lemma deref_Ok {A} (o : option A) a : deref o = Ok a ↔ o = Some a.
Proof. destruct o; naive_solver. Qed.

(** ** Tactics *)

(** Decompose an equation [computation = Ok r] into its steps. *)
Ltac inv_ok :=
  repeat match goal with
  | H : Ok _ = Ok _ |- _ => injection H as H; subst
  | H : Fault _ = Ok _ |- _ => discriminate H
  | H : Ok _ = Fault _ |- _ => discriminate H
  | H : _ ≫= _ = Ok _ |- _ => apply bind_Ok in H as (? & ? & ?)
  | H : vget _ _ = Ok _ |- _ => apply vget_Ok in H
  | H : vset _ _ _ = Ok _ |- _ => apply vset_Ok in H as [? ->]
  | H : vupd _ _ _ = Ok _ |- _ => apply vupd_Ok in H as (? & ? & ->)
  | H : deref _ = Ok _ |- _ => apply deref_Ok in H
  | H : (let '(_, _) := ?p in _) = Ok _ |- _ => destruct p eqn:?
  end; simplify_eq/=.

(** Split the conditionals the sources branch on. *)
Ltac split_if :=
  match goal with
  | |- context [if ?b then _ else _] => destruct b eqn:?
  | H : context [if ?b then _ else _] |- _ => destruct b eqn:?
  end.

(** Evaluate the tests on constructors that the context decides. *)
Ltac bd_simpl :=
  repeat match goal with
  | |- context [bool_decide ?P] =>
      (rewrite (bool_decide_true P) by done) || (rewrite (bool_decide_false P) by done)
  end; cbn.

Create HintDb model.
#[export] Hint Resolve u32_range u64_range i32_range i64_range : model.
#[export] Hint Rewrite i32_add_l i32_add_r i64_add_l u64_add_l u64_add_r : wrap.

(** ** Lists *)

Lemma elem_of_insert {A} (l : list A) i x y :
  y ∈ <[i := x]> l → y = x ∨ y ∈ l.
Proof.
  intros [j Hj]%list_elem_of_lookup.
  destruct (decide (i = j)) as [->|Hne].
  - apply list_lookup_insert_Some in Hj. naive_solver eauto using list_elem_of_lookup_2.
  - rewrite list_lookup_insert_ne in Hj by done. eauto using list_elem_of_lookup_2.
Qed.

Lemma Forall_insert' {A} (P : A → Prop) (l : list A) i x :
  Forall P l → P x → Forall P (<[i := x]> l).
Proof.
  rewrite !Forall_forall. intros Hl Hx y [->|?]%elem_of_insert; auto.
Qed.

Lemma filter_all {A} (P : A → Prop) `{∀ x, Decision (P x)} (l : list A) :
  (∀ x, x ∈ l → P x) → base.filter P l = l.
Proof.
  induction l as [|x l IH]; intros Hl; [done|].
  rewrite filter_cons_True by (apply Hl, list_elem_of_here).
  f_equal. apply IH. intros y Hy. by apply Hl, list_elem_of_further.
Qed.

(** ** Options *)

(** Overwriting an entry keeps it present. *)
Lemma is_Some_overwrite {A} (P : Prop) `{Decision P} (x : A) (o : option A) :
  is_Some o → is_Some (if decide P then Some x else o).
Proof. destruct (decide P); eauto. Qed.
#[export] Hint Resolve is_Some_overwrite : model.
