(* ===== verification/CohDefs.v ===== *)
(** * coherence_defs.h: data shared by the simulator and the protocols

    The bus transaction types, the protocol's answer to a processor request,
    the statistics the simulator and the protocols both update, and the
    abstract class [CoherenceProtocol] as a type class whose laws are what the
    simulator relies on. *)

From S2P Require Import Prelude.

(** ** Enumerations and records *)

Inductive BusTransactionType := BUS_RD | BUS_RDX | BUS_UPGR | WRITEBACK | NONE.

#[export] Instance BusTransactionType_eq_dec : EqDecision BusTransactionType.
Proof. solve_decision. Defined.

Record ProtocolResponse := mkResponse {
  is_hit : bool;
  bus_action : BusTransactionType
}.

(** Per-core counters; [compute_cycles] is a [uint64_t], the others are [int]. *)
Record Statistics := mkStatistics {
  compute_cycles : Z;
  load_count : Z;
  store_count : Z;
  cache_hits : Z;
  cache_misses : Z;
  invalidations_sent : Z;
  invalidations_received : Z;
  private_accesses : Z;
  shared_accesses : Z
}.

Definition Statistics_init : Statistics := mkStatistics 0 0 0 0 0 0 0 0 0.

(** Counters of the bus; [total_data_traffic_bytes] is a [uint64_t]. *)
Record GlobalStatistics := mkGlobalStatistics {
  total_data_traffic_bytes : Z;
  total_invalidations : Z;
  bus_reads : Z;
  bus_readx : Z;
  bus_upgrades : Z;
  bus_writebacks : Z;
  cache_to_cache_transfers : Z
}.

Definition GlobalStatistics_init : GlobalStatistics :=
  mkGlobalStatistics 0 0 0 0 0 0 0.

(** The simulator owns both and hands the protocols references to them. *)
Record Stats := mkStats {
  g_stats : GlobalStatistics;
  c_stats : list Statistics
}.

(** ** Increments of single counters *)

Definition add_compute_cycles (v : Z) (s : Statistics) : Statistics :=
  mkStatistics (u64 (compute_cycles s + v)) (load_count s) (store_count s)
    (cache_hits s) (cache_misses s) (invalidations_sent s)
    (invalidations_received s) (private_accesses s) (shared_accesses s).

Definition inc_load_count (s : Statistics) : Statistics :=
  mkStatistics (compute_cycles s) (i32 (load_count s + 1)) (store_count s)
    (cache_hits s) (cache_misses s) (invalidations_sent s)
    (invalidations_received s) (private_accesses s) (shared_accesses s).

Definition inc_store_count (s : Statistics) : Statistics :=
  mkStatistics (compute_cycles s) (load_count s) (i32 (store_count s + 1))
    (cache_hits s) (cache_misses s) (invalidations_sent s)
    (invalidations_received s) (private_accesses s) (shared_accesses s).

Definition inc_cache_hits (s : Statistics) : Statistics :=
  mkStatistics (compute_cycles s) (load_count s) (store_count s)
    (i32 (cache_hits s + 1)) (cache_misses s) (invalidations_sent s)
    (invalidations_received s) (private_accesses s) (shared_accesses s).

Definition inc_cache_misses (s : Statistics) : Statistics :=
  mkStatistics (compute_cycles s) (load_count s) (store_count s)
    (cache_hits s) (i32 (cache_misses s + 1)) (invalidations_sent s)
    (invalidations_received s) (private_accesses s) (shared_accesses s).

Definition inc_invalidations_sent (s : Statistics) : Statistics :=
  mkStatistics (compute_cycles s) (load_count s) (store_count s)
    (cache_hits s) (cache_misses s) (i32 (invalidations_sent s + 1))
    (invalidations_received s) (private_accesses s) (shared_accesses s).

Definition inc_invalidations_received (s : Statistics) : Statistics :=
  mkStatistics (compute_cycles s) (load_count s) (store_count s)
    (cache_hits s) (cache_misses s) (invalidations_sent s)
    (i32 (invalidations_received s + 1)) (private_accesses s) (shared_accesses s).

Definition inc_private_accesses (s : Statistics) : Statistics :=
  mkStatistics (compute_cycles s) (load_count s) (store_count s)
    (cache_hits s) (cache_misses s) (invalidations_sent s)
    (invalidations_received s) (i32 (private_accesses s + 1)) (shared_accesses s).

Definition inc_shared_accesses (s : Statistics) : Statistics :=
  mkStatistics (compute_cycles s) (load_count s) (store_count s)
    (cache_hits s) (cache_misses s) (invalidations_sent s)
    (invalidations_received s) (private_accesses s) (i32 (shared_accesses s + 1)).

Definition add_traffic (v : Z) (g : GlobalStatistics) : GlobalStatistics :=
  mkGlobalStatistics (u64 (total_data_traffic_bytes g + v)) (total_invalidations g)
    (bus_reads g) (bus_readx g) (bus_upgrades g) (bus_writebacks g)
    (cache_to_cache_transfers g).

Definition inc_total_invalidations (g : GlobalStatistics) : GlobalStatistics :=
  mkGlobalStatistics (total_data_traffic_bytes g) (i32 (total_invalidations g + 1))
    (bus_reads g) (bus_readx g) (bus_upgrades g) (bus_writebacks g)
    (cache_to_cache_transfers g).

Definition inc_bus_reads (g : GlobalStatistics) : GlobalStatistics :=
  mkGlobalStatistics (total_data_traffic_bytes g) (total_invalidations g)
    (i32 (bus_reads g + 1)) (bus_readx g) (bus_upgrades g) (bus_writebacks g)
    (cache_to_cache_transfers g).

Definition inc_bus_readx (g : GlobalStatistics) : GlobalStatistics :=
  mkGlobalStatistics (total_data_traffic_bytes g) (total_invalidations g)
    (bus_reads g) (i32 (bus_readx g + 1)) (bus_upgrades g) (bus_writebacks g)
    (cache_to_cache_transfers g).

Definition inc_bus_upgrades (g : GlobalStatistics) : GlobalStatistics :=
  mkGlobalStatistics (total_data_traffic_bytes g) (total_invalidations g)
    (bus_reads g) (bus_readx g) (i32 (bus_upgrades g + 1)) (bus_writebacks g)
    (cache_to_cache_transfers g).

Definition inc_bus_writebacks (g : GlobalStatistics) : GlobalStatistics :=
  mkGlobalStatistics (total_data_traffic_bytes g) (total_invalidations g)
    (bus_reads g) (bus_readx g) (bus_upgrades g) (i32 (bus_writebacks g + 1))
    (cache_to_cache_transfers g).

Definition inc_cache_to_cache (g : GlobalStatistics) : GlobalStatistics :=
  mkGlobalStatistics (total_data_traffic_bytes g) (total_invalidations g)
    (bus_reads g) (bus_readx g) (bus_upgrades g) (bus_writebacks g)
    (i32 (cache_to_cache_transfers g + 1)).

(** Updates through the two references. *)
Definition on_core (i : nat) (f : Statistics → Statistics) (w : Stats) : result Stats :=
  cs ← vupd (c_stats w) i f; Ok (mkStats (g_stats w) cs).

Definition on_global (f : GlobalStatistics → GlobalStatistics) (w : Stats) : Stats :=
  mkStats (f (g_stats w)) (c_stats w).

(** ** What a protocol leaves alone

    The counters the simulator itself maintains: a protocol operation keeps
    them, and the number of cores. *)
Definition sim_fields (s : Statistics) : Z * Z * Z * Z * Z :=
  (compute_cycles s, load_count s, store_count s, cache_hits s, cache_misses s).

Definition stats_frame (w w' : Stats) : Prop :=
  sim_fields <$> c_stats w' = sim_fields <$> c_stats w.

#[export] Instance stats_frame_equiv : Equivalence stats_frame.
Proof. unfold stats_frame. split; red; congruence. Qed.

Lemma stats_frame_length w w' :
  stats_frame w w' → length (c_stats w') = length (c_stats w).
Proof. intros H%(f_equal length). by rewrite !length_fmap in H. Qed.

Lemma on_global_frame f w : stats_frame w (on_global f w).
Proof. done. Qed.

Lemma on_core_Ok i f w :
  (i < length (c_stats w))%nat → ∃ w', on_core i f w = Ok w'.
Proof.
  intros [s Hs]%lookup_lt_is_Some_2. unfold on_core, vupd, vget.
  rewrite Hs. simpl. eauto.
Qed.

Lemma on_core_frame i f w w' :
  (∀ s, sim_fields (f s) = sim_fields s) → on_core i f w = Ok w' → stats_frame w w'.
Proof.
  unfold on_core, stats_frame. intros Hf H. inv_ok.
  rewrite list_fmap_insert, Hf. apply list_insert_id.
  by rewrite list_lookup_fmap, H.
Qed.

Lemma on_core_spec i f w :
  (∀ s, sim_fields (f s) = sim_fields s) → (i < length (c_stats w))%nat →
  ∃ w', on_core i f w = Ok w' ∧ stats_frame w w'.
Proof.
  intros Hf Hi. destruct (on_core_Ok i f w Hi) as [w' H]. eauto using on_core_frame.
Qed.

(** The protocol-owned counters satisfy the side condition by computation. *)
#[export] Hint Extern 1 (sim_fields _ = sim_fields _) => reflexivity : model.
#[export] Hint Resolve on_global_frame on_core_frame on_core_spec : model.

(** What snooping leaves alone: besides the above, every bus counter but the
    one of invalidations. *)
Definition bus_counters (g : GlobalStatistics) : Z * Z * Z * Z * Z * Z :=
  (total_data_traffic_bytes g, bus_reads g, bus_readx g, bus_upgrades g,
   bus_writebacks g, cache_to_cache_transfers g).

Definition snoop_frame (w w' : Stats) : Prop :=
  stats_frame w w' ∧ bus_counters (g_stats w') = bus_counters (g_stats w).

#[export] Instance snoop_frame_equiv : Equivalence snoop_frame.
Proof.
  unfold snoop_frame. split; red.
  - done.
  - intros x y [H ?]. split; [by symmetry|done].
  - intros x y z [H1 ?] [H2 ?]. split; [by etrans|congruence].
Qed.

Lemma snoop_frame_stats w w' : snoop_frame w w' → stats_frame w w'.
Proof. by intros []. Qed.
#[export] Hint Resolve snoop_frame_stats : model.

Lemma on_core_snoop_frame i f w :
  (∀ s, sim_fields (f s) = sim_fields s) → (i < length (c_stats w))%nat →
  ∃ w', on_core i f w = Ok w' ∧ snoop_frame w w'.
Proof.
  intros Hf Hi. destruct (on_core_spec i f w Hf Hi) as (w' & H & Hw). exists w'.
  split_and!; [done|]. split; [done|]. unfold on_core in H. by inv_ok.
Qed.

(** The three counters of one invalidation, bumped together by the write
    transactions of the invalidation protocols. *)
Lemma invalidate_stats_spec n i req w :
  length (c_stats w) = n → (i < n)%nat → (req < n)%nat →
  ∃ w1 w2, on_core i inc_invalidations_received w = Ok w1 ∧
    on_core req inc_invalidations_sent w1 = Ok w2 ∧
    snoop_frame w (on_global inc_total_invalidations w2).
Proof.
  intros <- Hi Hr.
  destruct (on_core_snoop_frame i inc_invalidations_received w)
    as (w1 & H1 & Hf1); [auto..|].
  destruct (on_core_snoop_frame req inc_invalidations_sent w1)
    as (w2 & H2 & Hf2); [done| |].
  { by rewrite (stats_frame_length _ _ (proj1 Hf1)). }
  exists w1, w2. split_and!; [done|done|]. etrans; [done|]. by etrans.
Qed.

(** ** The abstract class [CoherenceProtocol]

    [handle_processor_request p w id addr is_write] and
    [handle_bus_transaction p w id type addr]; [print_report] only prints. *)
Class CoherenceProtocol (P : Type) := {
  handle_processor_request :
    P → Stats → nat → Z → bool → result (ProtocolResponse * P * Stats);
  handle_bus_transaction :
    P → Stats → nat → BusTransactionType → Z → result (Z * P * Stats)
}.

(** The [int] block size of a configuration, and what it bounds: the latency of
    a transaction leaves the [uint64_t] clock room for many of them. *)
Definition block_ok (b : Z) : Prop := 0 ≤ b < 2 ^ 31.
Definition latency_ok (l : Z) : Prop := 0 ≤ l < 2 ^ 32.

Lemma block_latency b : block_ok b → 0 ≤ Z.quot b 4 < 2 ^ 30.
Proof.
  intros [Hb Hb']. rewrite Z.quot_div_nonneg by lia.
  split; [apply Z.div_pos|apply Z.div_lt_upper_bound]; lia.
Qed.

(** What the simulator relies on.  [proto_ok n] is a protocol's own invariant
    for [n] cores; [pending id type addr] says that a bus request of core [id]
    that waits in the queue can still be served. *)
Class CoherenceProtocolLaws (P : Type) `{!CoherenceProtocol P} := {
  proto_ok : nat → P → Prop;
  pending : P → nat → BusTransactionType → Z → Prop;
  hpr_law n p w id addr wr :
    proto_ok n p → length (c_stats w) = n → (id < n)%nat → 0 ≤ addr < 2 ^ 32 →
    ∃ r p' w',
      handle_processor_request p w id addr wr = Ok (r, p', w') ∧
      proto_ok n p' ∧ stats_frame w w' ∧
      (is_hit r = true → bus_action r = NONE) ∧
      (is_hit r = false →
        bus_action r ≠ NONE ∧ bus_action r ≠ WRITEBACK ∧
        pending p' id (bus_action r) addr) ∧
      (∀ j t a, j ≠ id → pending p j t a → pending p' j t a);
  hbt_law n p w id t addr :
    proto_ok n p → length (c_stats w) = n → (id < n)%nat → 0 ≤ addr < 2 ^ 32 →
    t ≠ NONE → t ≠ WRITEBACK → pending p id t addr →
    ∃ lat p' w',
      handle_bus_transaction p w id t addr = Ok (lat, p', w') ∧
      proto_ok n p' ∧ stats_frame w w' ∧ latency_ok lat ∧
      (∀ j t a, j ≠ id → pending p j t a → pending p' j t a)
}.
#[global] Arguments on_core : simpl never.
