(* ===== verification/CohCache.v ===== *)
(** * The set-associative LRU caches of the coherence protocols

    Every protocol header declares its own [CacheLine], [LRUCacheSet] and
    [...Cache], identical up to the state enumeration; they are modelled once,
    over the enumeration [St] and its [INVALID].  A [CacheLine *] is the set
    index and the tag of the line it points into. *)

From S2P Require Import Prelude CohDefs.

(** [__builtin_ctz]: the number of trailing zero bits of a non-zero [unsigned]. *)
Definition ctz (x : Z) : Z := Z.log2 (Z.land (u32 x) (u32 (- x))).

(** A pointer to a line: the set it is in and its key in [lines]. *)
Definition LinePtr : Type := nat * Z.

Record CacheLine (St : Type) := mkLine { tag : Z; state : St }.
Arguments mkLine {St} _ _.
Arguments tag {St} _.
Arguments state {St} _.

Record LRUCacheSet (St : Type) := mkSet {
  assoc : Z;
  lru_order : list Z;
  lines : gmap Z (CacheLine St)
}.
Arguments mkSet {St} _ _ _.
Arguments assoc {St} _.
Arguments lru_order {St} _.
Arguments lines {St} _.

Record Cache (St : Type) := mkCache {
  sets : list (LRUCacheSet St);
  set_bits : Z;
  offset_bits : Z;
  cblock_size : Z
}.
Arguments mkCache {St} _ _ _ _.
Arguments sets {St} _.
Arguments set_bits {St} _.
Arguments offset_bits {St} _.
Arguments cblock_size {St} _.

Section Lines.
Context {St : Type} `{EqDecision St} (INVALID : St).

(** ** LRUCacheSet *)

(** [std::list::remove]: drops every element equal to [t]. *)
Definition list_remove_all (t : Z) (l : list Z) : list Z :=
  base.filter (λ x, x ≠ t) l.

(** [find]: null when the tag is absent, else the line becomes the most
    recently used one. *)
Definition find (t : Z) (s : LRUCacheSet St) : option Z * LRUCacheSet St :=
  match lines s !! t with
  | None => (None, s)
  | Some _ =>
      (Some t,
       mkSet (assoc s) (t :: list_remove_all t (lru_order s)) (lines s))
  end.

(** [lines[t]] inserts a value-initialised line when [t] is absent. *)
Definition lines_at (m : gmap Z (CacheLine St)) (t : Z) : CacheLine St :=
  default (mkLine 0 INVALID) (m !! t).

(** The line is installed in front whatever was evicted. *)
Definition install (t : Z) (a : Z) (lru : list Z) (m : gmap Z (CacheLine St))
    : LRUCacheSet St :=
  mkSet a (t :: lru) (<[t := mkLine t INVALID]> m).

(** [allocate]: evicts the least recently used tag when the set is full.
    [back] of an empty list is undefined behaviour. *)
Definition set_allocate (t : Z) (s : LRUCacheSet St)
    : result (option (CacheLine St) * LRUCacheSet St) :=
  if bool_decide (u64 (assoc s) ≤ Z.of_nat (size (lines s))) then
    match last (lru_order s) with
    | None => Fault Undefined
    | Some victim_tag =>
        let evicted := lines_at (lines s) victim_tag in
        Ok (Some evicted,
            install t (assoc s) (removelast (lru_order s))
              (delete victim_tag (lines s)))
    end
  else Ok (None, install t (assoc s) (lru_order s) (lines s)).

(** ** The cache: an array of sets *)

(** The constructor; a zero divisor or [ctz] of zero is undefined. *)
Definition newCache (size assoc bsize : Z) : result (Cache St) :=
  if bool_decide (i32 (assoc * bsize) = 0) then Fault DivByZero else
  let num_sets := Z.quot size (i32 (assoc * bsize)) in
  if bool_decide (num_sets = 0 ∨ bsize = 0) then Fault Undefined else
  Ok (mkCache (replicate (Z.to_nat num_sets) (mkSet assoc [] ∅))
        (ctz num_sets) (ctz bsize) bsize).

(** The set index and the tag of an address. *)
Definition locate (c : Cache St) (addr : Z) : LinePtr :=
  (Z.to_nat (Z.land (Z.shiftr addr (offset_bits c))
               (u64 (Z.of_nat (length (sets c)) - 1))),
   Z.shiftr addr (offset_bits c + set_bits c)).

Definition with_set (c : Cache St) (k : nat) (s : LRUCacheSet St) : Cache St :=
  mkCache (<[k := s]> (sets c)) (set_bits c) (offset_bits c) (cblock_size c).

(** [get_line]: the lookup reorders the set. *)
Definition get_line (addr : Z) (c : Cache St) : result (option LinePtr * Cache St) :=
  let '(set_idx, t) := locate c addr in
  s ← vget (sets c) set_idx;
  let '(o, s') := find t s in
  Ok ((λ t, (set_idx, t)) <$> o, with_set c set_idx s').

Section Allocate.
(** The replacement routine of the set class the cache is built from. *)
Variable set_alloc :
  Z → LRUCacheSet St → result (option (CacheLine St) * LRUCacheSet St).

Definition allocate_with (addr : Z) (c : Cache St)
    : result (LinePtr * option (CacheLine St) * Cache St) :=
  let '(set_idx, t) := locate c addr in
  s ← vget (sets c) set_idx;
  '(evicted, s') ← set_alloc t s;
  Ok ((set_idx, t), evicted, with_set c set_idx s').
End Allocate.

Definition allocate := allocate_with set_allocate.

(** [evicted->state], when something was evicted. *)
Definition evicted_state (evicted : option (CacheLine St)) : option St :=
  state <$> evicted.

(** Reading and writing [line->state]. *)
Definition load_state (c : Cache St) (l : LinePtr) : result St :=
  s ← vget (sets c) l.1; ln ← deref (lines s !! l.2); Ok (state ln).

Definition store_state (c : Cache St) (l : LinePtr) (st : St) : result (Cache St) :=
  s ← vget (sets c) l.1;
  ln ← deref (lines s !! l.2);
  Ok (with_set c l.1
        (mkSet (assoc s) (lru_order s) (<[l.2 := mkLine (tag ln) st]> (lines s)))).

(** ** Geometry and well-formedness *)

(** What an address's location depends on. *)
Definition geom : Type := nat * Z * Z.

Definition geom_of (c : Cache St) : geom :=
  (length (sets c), set_bits c, offset_bits c).

Definition locate_g (g : geom) (addr : Z) : LinePtr :=
  (Z.to_nat (Z.land (Z.shiftr addr g.2) (u64 (Z.of_nat g.1.1 - 1))),
   Z.shiftr addr (g.2 + g.1.2)).

(** Every line is on the replacement list, and the set has room for one. *)
Definition set_wf (s : LRUCacheSet St) : Prop :=
  1 ≤ u64 (assoc s) ∧ ∀ t, is_Some (lines s !! t) → t ∈ lru_order s.

Definition cache_wf (g : geom) (c : Cache St) : Prop :=
  geom_of c = g ∧ (0 < g.1.1)%nat ∧ Forall set_wf (sets c).

Definition line_st (c : Cache St) (k : LinePtr) : option St :=
  s ← sets c !! k.1; state <$> lines s !! k.2.

(** What a replacement routine must do for the protocols to be right: the new
    line is INVALID, every other line is kept but for a victim, whose line is the
    one reported. *)
Definition alloc_ok
    (set_alloc : Z → LRUCacheSet St → result (option (CacheLine St) * LRUCacheSet St))
    : Prop :=
  ∀ t s, set_wf s → ∃ ev s',
    set_alloc t s = Ok (ev, s') ∧ set_wf s' ∧
    lines s' !! t = Some (mkLine t INVALID) ∧
    ∃ victim, ev = lines_at (lines s) <$> victim ∧
      ∀ t', t' ≠ t → lines s' !! t' = if decide (victim = Some t') then None else lines s !! t'.

Lemma locate_g_lt g addr :
  (0 < g.1.1)%nat → 0 ≤ addr → ((locate_g g addr).1 < g.1.1)%nat.
Proof.
  intros Hg Ha. unfold locate_g. simpl.
  pose proof (u64_le (Z.of_nat g.1.1 - 1)) as Hu.
  pose proof (u64_range (Z.of_nat g.1.1 - 1)) as [Hu0 _].
  pose proof (land_mask (Z.shiftr addr g.2) _
                (proj2 (Z.shiftr_nonneg _ _) Ha) Hu0).
  lia.
Qed.

Lemma list_remove_all_elem t t' l :
  t' ∈ list_remove_all t l ↔ t' ≠ t ∧ t' ∈ l.
Proof. unfold list_remove_all. by rewrite list_elem_of_filter. Qed.

Lemma find_wf t s : set_wf s → set_wf (find t s).2.
Proof.
  unfold find. intros [Ha Hl]. destruct (lines s !! t) eqn:E; [|done].
  split; [done|]. simpl. intros t' Ht'. rewrite elem_of_cons, list_remove_all_elem.
  destruct (decide (t' = t)); auto.
Qed.

Lemma find_lines t s : lines (find t s).2 = lines s.
Proof. unfold find. by destruct (lines s !! t). Qed.

Lemma find_ptr t s : (find t s).1 = (λ _, t) <$> lines s !! t.
Proof. unfold find. by destruct (lines s !! t). Qed.

Lemma elem_of_removelast (l : list Z) v t :
  last l = Some v → t ∈ l → t ≠ v → t ∈ removelast l.
Proof.
  intros [l' ->]%last_Some Ht Hv. rewrite removelast_last.
  apply elem_of_app in Ht as [|]; [done|]. set_solver.
Qed.

Lemma install_lines t a lru m t' :
  lines (install t a lru m) !! t'
  = if decide (t = t') then Some (mkLine t INVALID) else m !! t'.
Proof. apply lookup_insert. Qed.

(** Evicting [v] from anywhere of the list leaves the other lines listed. *)
Lemma evict_ok t a (l l' : list Z) m v :
  1 ≤ u64 a → (∀ t', is_Some (m !! t') → t' ∈ l) →
  (∀ t', t' ∈ l → t' ≠ v → t' ∈ l') →
  let s' := install t a l' (delete v m) in
  set_wf s' ∧ lines s' !! t = Some (mkLine t INVALID) ∧
  ∃ victim, Some (lines_at m v) = lines_at m <$> victim ∧
    ∀ t', t' ≠ t → lines s' !! t' = if decide (victim = Some t') then None else m !! t'.
Proof.
  intros Ha Hl Hl' s'. split_and!.
  - split; [done|]. intros t' Ht'. simpl in *. rewrite elem_of_cons.
    destruct (decide (t' = t)) as [|Hne]; [by left|right].
    rewrite lookup_insert_ne in Ht' by done.
    destruct (decide (t' = v)) as [->|Hv].
    { rewrite lookup_delete_eq in Ht'. by destruct Ht'. }
    rewrite lookup_delete_ne in Ht' by done. auto.
  - unfold s'. by rewrite install_lines, decide_True.
  - exists (Some v). split; [done|]. intros t' Hne. unfold s'. rewrite install_lines, decide_False by done.
    case_decide as Hv; [simplify_eq; by rewrite lookup_delete_eq|]. rewrite lookup_delete_ne by congruence. done.
Qed.

Lemma set_allocate_ok : alloc_ok set_allocate.
Proof.
  intros t s [Ha Hl]. unfold set_allocate. case_bool_decide as Hfull.
  - destruct (last (lru_order s)) as [v|] eqn:Hlast.
    + edestruct (evict_ok t (assoc s) (lru_order s) (removelast (lru_order s)))
        as (H1 & H2 & H3); [done|done| |eexists _, _; split_and!; [done|exact H1|exact H2|exact H3]].
      intros t' Ht' Hv. by eapply elem_of_removelast.
    + exfalso. apply last_None in Hlast.
      destruct (map_choose (lines s)) as (t' & x & Hx).
      { intros H. rewrite H, map_size_empty in Hfull. lia. }
      assert (t' ∈ lru_order s) as Hin by eauto. rewrite Hlast in Hin. set_solver.
  - eexists _, _. split; [done|]. split; [|split].
    + split; [done|]. intros t' Ht'. simpl in *. rewrite elem_of_cons.
      destruct (decide (t' = t)) as [|Hne]; [by left|right].
      rewrite lookup_insert_ne in Ht' by done. auto.
    + rewrite install_lines. by rewrite decide_True.
    + exists None. split; [done|]. intros t' Hne. by rewrite install_lines, decide_False by done.
Qed.

(** ** Caches *)

Lemma cache_wf_set g c k : cache_wf g c → (k < g.1.1)%nat → is_Some (sets c !! k).
Proof. intros (<- & _ & _) Hk. by apply lookup_lt_is_Some_2. Qed.

Lemma with_set_wf g c k s : cache_wf g c → set_wf s → cache_wf g (with_set c k s).
Proof.
  intros (Hg & ? & Hf) Hs. split_and!; [|done|by apply Forall_insert'].
  rewrite <- Hg. unfold geom_of. simpl. by rewrite length_insert.
Qed.

Lemma line_st_with_set c k s k' :
  is_Some (sets c !! k) →
  line_st (with_set c k s) k'
  = if decide (k = k'.1) then state <$> lines s !! k'.2 else line_st c k'.
Proof.
  intros Hk. unfold line_st. simpl. case_decide as Hd.
  - subst. rewrite list_lookup_insert_eq; [done|]. by apply lookup_lt_is_Some.
  - by rewrite list_lookup_insert_ne.
Qed.

Lemma locate_of g c addr : cache_wf g c → locate c addr = locate_g g addr.
Proof. by intros [<- _]. Qed.

Lemma get_line_spec g c addr :
  cache_wf g c → 0 ≤ addr →
  ∃ c', get_line addr c
        = Ok ((λ _, locate_g g addr) <$> line_st c (locate_g g addr), c') ∧
        cache_wf g c' ∧ ∀ k, line_st c' k = line_st c k.
Proof.
  intros Hwf Ha. unfold get_line. rewrite (locate_of _ _ _ Hwf).
  destruct (locate_g g addr) as [k t] eqn:Hloc.
  assert (k < g.1.1)%nat as Hk.
  { pose proof (locate_g_lt g addr (proj1 (proj2 Hwf)) Ha). by rewrite Hloc in *. }
  destruct (cache_wf_set _ _ _ Hwf Hk) as [s Hs].
  assert (set_wf s) as Hsw by (eapply Forall_lookup_1; [apply Hwf|done]).
  exists (with_set c k (find t s).2). split_and!.
  - unfold vget. rewrite Hs. simpl. destruct (find t s) as [o s'] eqn:Hf.
    assert (o = (find t s).1) as -> by by rewrite Hf.
    rewrite find_ptr. unfold line_st. simpl. rewrite Hs. simpl.
    by destruct (lines s !! t).
  - apply with_set_wf; [done|]. by apply find_wf.
  - intros k'. rewrite line_st_with_set by eauto. case_decide; [|done].
    subst. unfold line_st. rewrite Hs. simpl. by rewrite find_lines.
Qed.

Lemma load_state_spec c k st : line_st c k = Some st → load_state c k = Ok st.
Proof.
  unfold line_st, load_state, vget. destruct (sets c !! k.1) as [s|]; [|done].
  simpl. destruct (lines s !! k.2); naive_solver.
Qed.

Lemma store_state_spec g c k st :
  cache_wf g c → is_Some (line_st c k) →
  ∃ c', store_state c k st = Ok c' ∧ cache_wf g c' ∧
        ∀ k', line_st c' k' = if decide (k = k') then Some st else line_st c k'.
Proof.
  intros Hwf [x Hx]. unfold line_st in Hx. unfold store_state, vget.
  destruct (sets c !! k.1) as [s|] eqn:Hs; [|done]. simpl in *.
  destruct (lines s !! k.2) as [ln|] eqn:Hln; [|done]. simpl.
  assert (set_wf s) as [Ha Hl] by (eapply Forall_lookup_1; [apply Hwf|done]).
  eexists. split_and!; [done| |].
  - apply with_set_wf; [done|]. split; [done|]. simpl. intros t Ht. apply Hl.
    destruct (decide (t = k.2)) as [->|]; [eauto|]. by rewrite lookup_insert_ne in Ht.
  - intros k'. rewrite line_st_with_set by eauto. simpl. rewrite lookup_insert.
    destruct k as [k t], k' as [k' t']. simpl in *.
    case_decide; [subst|]; repeat case_decide; simplify_eq; try done.
    unfold line_st. simpl. by rewrite Hs.
Qed.

Lemma allocate_spec set_alloc g c addr :
  alloc_ok set_alloc → cache_wf g c → 0 ≤ addr →
  ∃ ev c' victim, allocate_with set_alloc addr c = Ok (locate_g g addr, ev, c') ∧
    cache_wf g c' ∧ line_st c' (locate_g g addr) = Some INVALID ∧
    evicted_state ev = (λ v, default INVALID (line_st c v)) <$> victim ∧
    (∀ v, victim = Some v → v.1 = (locate_g g addr).1) ∧
    ∀ k, k ≠ locate_g g addr → line_st c' k = if decide (victim = Some k) then None else line_st c k.
Proof.
  intros Hal Hwf Ha. unfold allocate_with. rewrite (locate_of _ _ _ Hwf).
  destruct (locate_g g addr) as [k t] eqn:Hloc.
  assert (k < g.1.1)%nat as Hk.
  { pose proof (locate_g_lt g addr (proj1 (proj2 Hwf)) Ha). by rewrite Hloc in *. }
  destruct (cache_wf_set _ _ _ Hwf Hk) as [s Hs].
  assert (set_wf s) as Hsw by (eapply Forall_lookup_1; [apply Hwf|done]).
  destruct (Hal t s Hsw) as (ev & s' & He & Hs' & Ht & victim & Hev & Hother).
  exists ev, (with_set c k s'), (pair k <$> victim). split_and!.
  - unfold vget. rewrite Hs. simpl. by rewrite He.
  - by apply with_set_wf.
  - rewrite line_st_with_set by eauto. simpl. by rewrite decide_True, Ht.
  - rewrite Hev. destruct victim as [v|]; [|done]. unfold evicted_state, line_st, lines_at. simpl. rewrite Hs. simpl.
    by destruct (lines s !! v).
  - intros v. by destruct victim; intros [= <-].
  - intros [k' t'] Hne. rewrite line_st_with_set by eauto. simpl. case_decide as Hk'.
    + subst k'. rewrite Hother by naive_solver. unfold line_st. simpl. rewrite Hs. simpl.
      repeat case_decide; destruct victim; naive_solver.
    + rewrite decide_False; [done|]. destruct victim; naive_solver.
Qed.

(** ** Construction *)

Lemma newCache_spec size as_ bs :
  0 < as_ → 0 < bs → as_ * bs ≤ size < 2 ^ 31 →
  ∃ c, newCache size as_ bs = Ok c ∧
    cache_wf (Z.to_nat (Z.quot size (as_ * bs)), ctz (Z.quot size (as_ * bs)), ctz bs) c ∧
    ∀ k, line_st c k = None.
Proof.
  intros Ha Hb Hs. assert (1 ≤ Z.quot size (as_ * bs)) as Hq.
  { rewrite Z.quot_div_nonneg by nia. apply Z.div_le_lower_bound; nia. }
  unfold newCache. rewrite i32_small by nia.
  rewrite !bool_decide_false by nia. eexists. split; [done|].
  split; [split; [|split]|].
  - unfold geom_of. simpl. by rewrite length_replicate.
  - simpl. lia.
  - simpl. apply Forall_replicate. split; simpl.
    + rewrite u64_small by nia. lia.
    + intros t. rewrite lookup_empty. by intros [].
  - intros [k t]. unfold line_st. simpl.
    destruct (replicate _ _ !! k) as [s|] eqn:E; [|done].
    apply lookup_replicate in E as [-> _]. simpl. by rewrite lookup_empty.
Qed.

End Lines.

#[export] Hint Resolve set_allocate_ok : model.

(** Proofs rewrite with the specifications above, never by unfolding. *)
#[global] Arguments get_line : simpl never.
#[global] Arguments load_state : simpl never.
#[global] Arguments store_state : simpl never.
#[global] Arguments allocate_with : simpl never.
#[global] Arguments allocate : simpl never.
#[global] Arguments locate_g : simpl never.
