(* ===== verification/CohLru.v ===== *)
(** * The cache sets against an abstract LRU list

    [LRUCacheSet] keeps a hash map of lines and a list of tags; abstractly it is
    one bounded list of tagged states, most recently used first.  The
    representation invariant and the refinement hold as long as the protocol
    only allocates tags that are absent, which the update protocol guarantees;
    an invalidation protocol re-allocates tags that are present but INVALID,
    with the consequences shown at the end. *)

From S2P Require Import Prelude CohDefs CohCache.

Section Lru.
Context {St : Type} `{EqDecision St} (INVALID : St).
Implicit Types (s : LRUCacheSet St) (l : list (Z * St)).

(** ** The abstract set *)

(** Using a tag moves its entry to the front. *)
Definition touch (t : Z) (l : list (Z * St)) : list (Z * St) :=
  match base.filter (λ e, e.1 = t) l with
  | [] => l
  | e :: _ => e :: base.filter (λ e, e.1 ≠ t) l
  end.

(** A new tag goes to the front and pushes the last entry out of a full list. *)
Definition insert_new (a : nat) (t : Z) (l : list (Z * St)) : option (Z * St) * list (Z * St) :=
  (if decide (a ≤ length l)%nat then last l else None, (t, INVALID) :: take (a - 1) l).

(** ** The representation *)

Definition entries s : list (Z * St) :=
  (λ t, (t, state (lines_at INVALID (lines s) t))) <$> lru_order s.

Record lru_wf s : Prop := {
  lru_nodup : NoDup (lru_order s);
  lru_listed : ∀ t, t ∈ lru_order s ↔ is_Some (lines s !! t);
  lru_tags : ∀ t ln, lines s !! t = Some ln → tag ln = t;
  lru_assoc : 1 ≤ assoc s < 2 ^ 31;
  lru_room : Z.of_nat (length (lru_order s)) ≤ assoc s
}.

Lemma lru_size s : lru_wf s → size (lines s) = length (lru_order s).
Proof.
  intros Hs. rewrite <- size_dom, <- (size_list_to_set (C := gset Z)) by apply Hs.
  f_equal. apply set_eq. intros t. rewrite elem_of_list_to_set, elem_of_dom.
  symmetry. apply Hs.
Qed.

Lemma list_remove_all_fmap s t (m : gmap Z (CacheLine St)) k :
  (λ u, (u, state (lines_at INVALID m u))) <$> list_remove_all t k
  = base.filter (λ e, e.1 ≠ t) ((λ u, (u, state (lines_at INVALID m u))) <$> k).
Proof.
  unfold list_remove_all. induction k as [|u k IH]; [done|].
  rewrite fmap_cons, !filter_cons. simpl. destruct (decide (u ≠ t)); [|done].
  rewrite fmap_cons. by f_equal.
Qed.

Lemma filter_tag s t : NoDup (lru_order s) → t ∈ lru_order s →
  base.filter (λ e, e.1 = t) (entries s) = [(t, state (lines_at INVALID (lines s) t))].
Proof.
  unfold entries. generalize (lru_order s). intros k Hnd Ht.
  induction k as [|u k IH]; [by apply elem_of_nil in Ht|].
  apply NoDup_cons in Hnd as [Hu Hnd]. rewrite fmap_cons, filter_cons. simpl.
  destruct (decide (u = t)) as [->|Hne].
  - f_equal. apply elem_of_nil_inv. intros e [He Hin]%list_elem_of_filter.
    apply list_elem_of_fmap in Hin as (u & -> & Hin). simpl in He. by subst.
  - apply IH; [done|]. set_solver.
Qed.

Lemma filter_no_tag s t : t ∉ lru_order s → base.filter (λ e, e.1 = t) (entries s) = [].
Proof.
  intros Ht. apply elem_of_nil_inv. intros e [He Hin]%list_elem_of_filter.
  apply list_elem_of_fmap in Hin as (u & -> & Hin). simpl in He. by subst.
Qed.

(** ** Refinement *)

Lemma find_refines t s :
  lru_wf s → lru_wf (find t s).2 ∧ entries (find t s).2 = touch t (entries s).
Proof.
  intros Hs. unfold find. destruct (lines s !! t) as [ln|] eqn:Hln.
  - assert (t ∈ lru_order s) as Hin by (apply Hs; eauto). simpl. split; [split; simpl|].
    + apply NoDup_cons. rewrite list_remove_all_elem. split; [tauto|].
      apply NoDup_filter, Hs.
    + intros u. rewrite elem_of_cons, list_remove_all_elem, (lru_listed s Hs u).
      destruct (decide (u = t)) as [->|]; naive_solver.
    + apply Hs.
    + apply Hs.
    + pose proof (lru_room s Hs). pose proof (length_filter_lt (λ x, x ≠ t) (lru_order s) t Hin).
      unfold list_remove_all. lia.
    + unfold touch. rewrite filter_tag by (done || apply Hs).
      unfold entries. simpl. f_equal. by apply list_remove_all_fmap.
  - simpl. split; [done|]. unfold touch. rewrite filter_no_tag; [done|].
    rewrite (lru_listed s Hs), Hln. by intros [].
Qed.

Lemma entries_ext s s' (k : list Z) :
  (∀ t, t ∈ k → lines s' !! t = lines s !! t) →
  (λ t, (t, state (lines_at INVALID (lines s') t))) <$> k
  = (λ t, (t, state (lines_at INVALID (lines s) t))) <$> k.
Proof.
  intros H. apply list_fmap_ext. intros i t Hi%list_elem_of_lookup_2.
  unfold lines_at. by rewrite H.
Qed.

Lemma install_wf t a k m :
  1 ≤ a < 2 ^ 31 → Z.of_nat (length k) < a → NoDup k → t ∉ k →
  (∀ u, u ∈ k ↔ is_Some (m !! u)) → (∀ u ln, m !! u = Some ln → tag ln = u) →
  lru_wf (install INVALID t a k m).
Proof.
  intros Ha Hl Hnd Ht Hk Htag. split; simpl; [|..|done|lia].
  - by apply NoDup_cons.
  - intros u. rewrite elem_of_cons, Hk. destruct (decide (u = t)) as [->|Hne].
    + rewrite lookup_insert_eq. naive_solver.
    + rewrite lookup_insert_ne by done. naive_solver.
  - intros u ln. destruct (decide (u = t)) as [->|Hne].
    + rewrite lookup_insert_eq. by intros [= <-].
    + rewrite lookup_insert_ne by done. apply Htag.
Qed.

Lemma allocate_refines t s :
  lru_wf s → lines s !! t = None →
  ∃ ev s', set_allocate INVALID t s = Ok (ev, s') ∧ lru_wf s' ∧
    ((λ ln, (tag ln, state ln)) <$> ev, entries s')
    = insert_new (Z.to_nat (assoc s)) t (entries s).
Proof.
  intros Hs Ht. pose proof (lru_room s Hs) as Hroom. pose proof (lru_assoc s Hs) as Ha.
  assert (t ∉ lru_order s) as Htn.
  { rewrite (lru_listed s Hs), Ht. by intros []. }
  assert (length (entries s) = length (lru_order s)) as Hlen by apply length_fmap.
  unfold set_allocate, insert_new. rewrite (lru_size s Hs), u64_small, Hlen by lia.
  destruct (bool_decide _) eqn:Hfull;
    [apply bool_decide_eq_true in Hfull|apply bool_decide_eq_false in Hfull].
  - rewrite decide_True by lia.
    destruct (last (lru_order s)) as [v|] eqn:Hv; last first.
    { apply last_None in Hv. rewrite Hv in Hfull. simpl in Hfull. lia. }
    apply last_Some in Hv as [k Hv]. rewrite Hv, removelast_last.
    pose proof (lru_nodup s Hs) as Hnd. rewrite Hv in Hnd.
    apply NoDup_app in Hnd as (Hk & Hkv & _).
    assert (v ∉ k) as Hvk. { intros Hin. apply (Hkv v Hin). by left. }
    assert (is_Some (lines s !! v)) as [ln Hln].
    { apply (lru_listed s Hs). rewrite Hv. set_solver. }
    rewrite Hv in Htn. eexists _, _. split; [done|]. split.
    + apply install_wf; [done| |done|set_solver|..].
      * rewrite Hv, length_app in Hroom. simpl in Hroom. lia.
      * intros u. destruct (decide (u = v)) as [->|Hne].
        { rewrite lookup_delete_eq. split; [done|by intros []]. }
        rewrite lookup_delete_ne by done. rewrite <- (lru_listed s Hs), Hv. set_solver.
      * intros u l0 Hu. apply lookup_delete_Some in Hu as [_ Hu]. by apply (lru_tags s Hs).
    + unfold entries at 2. rewrite Hv, fmap_app, fmap_cons, fmap_nil, last_snoc. simpl.
      unfold lines_at. rewrite Hln. simpl. rewrite (lru_tags s Hs v ln Hln). f_equal.
      unfold entries. simpl. unfold lines_at at 1. rewrite lookup_insert_eq. simpl. f_equal.
      rewrite Hv, fmap_app, take_app_length'.
      * apply (entries_ext s (install INVALID t (assoc s) k (delete v (lines s)))).
        intros u Hu. simpl. rewrite lookup_insert_ne by set_solver.
        by rewrite lookup_delete_ne by set_solver.
      * rewrite length_fmap. rewrite Hv, length_app in Hroom, Hfull. simpl in *. lia.
  - rewrite decide_False by lia. eexists _, _. split; [done|]. split.
    + apply install_wf; [done|lia|apply Hs|done|apply Hs|apply Hs].
    + simpl. f_equal. unfold entries. simpl. unfold lines_at at 1. rewrite lookup_insert_eq.
      simpl. f_equal. rewrite take_ge by (rewrite length_fmap; lia).
      apply (entries_ext s (install INVALID t (assoc s) (lru_order s) (lines s))).
      intros u Hu. simpl. rewrite lookup_insert_ne; [done|]. by intros ->.
Qed.
End Lru.
