(* ===== verification/CohProto.v ===== *)
(** * The skeleton the five coherence protocols share

    The protocol object (one private cache per core), a processor's request,
    the snooping loop and the effect of one bus transaction, over the protocol's
    state enumeration; the facts about them that every protocol's invariants
    are proved from. *)

From S2P Require Import Prelude CohDefs CohCache.

(** The data members of a protocol object but for the two references. *)
Record Protocol (St : Type) := mkProtocol {
  caches : list (Cache St);
  num_cores : nat;
  block_size : Z
}.
Arguments mkProtocol {St} _ _ _.
Arguments caches {St} _.
Arguments num_cores {St} _.
Arguments block_size {St} _.

Section Protocols.
Context {St : Type} `{EqDecision St} (INVALID : St).

(** ** The protocol object *)

Fixpoint build_caches (n : nat) (cs as_ bs : Z) : result (list (Cache St)) :=
  match n with
  | O => Ok []
  | S n => c ← newCache cs as_ bs; l ← build_caches n cs as_ bs; Ok (c :: l)
  end.

Definition newProtocol (n : nat) (cs as_ bs : Z) : result (Protocol St) :=
  l ← build_caches n cs as_ bs; Ok (mkProtocol l n bs).

Definition with_cache (p : Protocol St) (i : nat) (c : Cache St) : Protocol St :=
  mkProtocol (<[i := c]> (caches p)) (num_cores p) (block_size p).

(** The snooping loop: every core but the requester looks the block up, and
    [react] is the body for a line that is present and not INVALID; [F] is
    what the loop accumulates in local variables. *)
Section Snoop.
Context {F : Type}.
Variable react : nat → St → Stats * F → result (St * (Stats * F)).

Definition snoop_one (req_id : nat) (addr : Z) (i : nat)
    (x : Protocol St * (Stats * F)) : result (Protocol St * (Stats * F)) :=
  let '(p, acc) := x in
  if bool_decide (i = req_id) then Ok x else
  c ← vget (caches p) i;
  '(snoop_line, c1) ← get_line addr c;
  match snoop_line with
  | None => Ok (with_cache p i c1, acc)
  | Some l =>
      st ← load_state c1 l;
      if bool_decide (st = INVALID) then Ok (with_cache p i c1, acc) else
      '(st', acc') ← react i st acc;
      c2 ← store_state c1 l st';
      Ok (with_cache p i c2, acc')
  end.

Fixpoint snoop_loop (req_id : nat) (addr : Z) (cores : list nat)
    (x : Protocol St * (Stats * F)) : result (Protocol St * (Stats * F)) :=
  match cores with
  | [] => Ok x
  | i :: rest => x' ← snoop_one req_id addr i x; snoop_loop req_id addr rest x'
  end.
End Snoop.


(** ** A processor request

    [shared] are the states a write may not hit in, [on_write] is the silent
    transition of a write hit, and [write_miss] the transaction of a write
    miss. *)
Section Request.
Variable shared : St → bool.
Variable on_write : St → St.
Variable write_miss : BusTransactionType.

(** Hit distribution: hits in a shared state against the others. *)
Definition count_hit (id : nat) (st : St) (w : Stats) : result Stats :=
  if shared st then on_core id inc_shared_accesses w
  else on_core id inc_private_accesses w.

Definition processor_request (p : Protocol St) (w : Stats) (id : nat) (addr : Z)
    (is_write : bool) : result (ProtocolResponse * Protocol St * Stats) :=
  c ← vget (caches p) id;
  '(line, c1) ← get_line addr c;
  let miss := Ok (mkResponse false (if is_write then write_miss else BUS_RD),
                  with_cache p id c1, w) in
  match line with
  | None => miss
  | Some l =>
      st ← load_state c1 l;
      if bool_decide (st = INVALID) then miss
      else if is_write && shared st then
        Ok (mkResponse false BUS_UPGR, with_cache p id c1, w)
      else if is_write then
        c2 ← store_state c1 l (on_write st);
        w' ← count_hit id (on_write st) w;
        Ok (mkResponse true NONE, with_cache p id c2, w')
      else
        w' ← count_hit id st w;
        Ok (mkResponse true NONE, with_cache p id c1, w')
  end.
End Request.

(** ** The protocol object *)

Definition proto_wf (g : geom) (n : nat) (p : Protocol St) : Prop :=
  num_cores p = n ∧ length (caches p) = n ∧ (0 < g.1.1)%nat ∧
  Forall (cache_wf g) (caches p).

(** The state in which core [i] holds line [k], if it has the line at all. *)
Definition pst (p : Protocol St) (i : nat) (k : LinePtr) : option St :=
  c ← caches p !! i; line_st c k.

(** A line that is absent or INVALID: the core has no copy. *)
Definition no_copy (o : option St) : Prop := o = None ∨ o = Some INVALID.

#[export] Instance no_copy_dec o : Decision (no_copy o).
Proof. unfold no_copy. apply _. Defined.

Lemma proto_wf_cache g n p i :
  proto_wf g n p → (i < n)%nat → ∃ c, caches p !! i = Some c ∧ cache_wf g c.
Proof.
  intros (_ & Hl & _ & Hf) Hi. rewrite <- Hl in Hi.
  apply lookup_lt_is_Some_2 in Hi as [c Hc]. exists c. split; [done|].
  by eapply Forall_lookup_1.
Qed.

Lemma with_cache_wf g n p i c :
  proto_wf g n p → cache_wf g c → proto_wf g n (with_cache p i c).
Proof.
  intros (Hn & Hl & ? & Hf) Hc. split_and!; [done| |done|].
  - simpl. by rewrite length_insert.
  - by apply Forall_insert'.
Qed.

Lemma pst_with_cache g n p i c j k :
  proto_wf g n p → (i < n)%nat →
  pst (with_cache p i c) j k = if decide (i = j) then line_st c k else pst p j k.
Proof.
  intros (_ & Hl & _) Hi. unfold pst. simpl. case_decide as Hij.
  - subst. by rewrite list_lookup_insert_eq by lia.
  - by rewrite list_lookup_insert_ne.
Qed.

Lemma pst_cache p i c k : caches p !! i = Some c → pst p i k = line_st c k.
Proof. unfold pst. by intros ->. Qed.

Section SnoopFacts.
Context {F : Type} (react : nat → St → Stats * F → result (St * (Stats * F))).
Context (f : St → St) (upd : St → F → F) (g : geom) (n : nat) (req : nat).

(** The body of the loop rewrites the state by [f], the local variables by
    [upd], and only counts what the simulator does not count. *)
Hypothesis react_spec : ∀ i st w fl,
  (i < n)%nat → length (c_stats w) = n →
  ∃ w', react i st (w, fl) = Ok (f st, (w', upd st fl)) ∧ snoop_frame w w'.

(** The states the loop finds, in the order of the cores. *)
Definition snooped (p : Protocol St) (k : LinePtr) (cores : list nat) : list St :=
  omap (λ i, if decide (i = req) then None else
             st ← pst p i k; if decide (st = INVALID) then None else Some st) cores.

Definition snoop_state (o : option St) : option St :=
  (λ st, if decide (st = INVALID) then INVALID else f st) <$> o.

Lemma snoop_one_spec p w fl addr i :
  proto_wf g n p → length (c_stats w) = n → (i < n)%nat → 0 ≤ addr →
  let k := locate_g g addr in
  ∃ p' w',
    snoop_one react req addr i (p, (w, fl))
    = Ok (p', (w', foldl (λ fl st, upd st fl) fl (snooped p k [i]))) ∧
    proto_wf g n p' ∧ snoop_frame w w' ∧ block_size p' = block_size p ∧
    ∀ j k', pst p' j k' =
      if decide (j = i ∧ i ≠ req ∧ k' = k) then snoop_state (pst p j k') else pst p j k'.
Proof.
  intros Hwf Hw Hi Ha k. unfold snoop_one, snooped. simpl.
  destruct (decide (i = req)) as [->|Hne].
  { rewrite bool_decide_true by done. eexists _, _. split_and!; try done.
    intros j k'. rewrite decide_False; [done|]. naive_solver. }
  rewrite bool_decide_false by done.
  destruct (proto_wf_cache _ _ _ _ Hwf Hi) as (c & Hc & Hcw).
  destruct (get_line_spec _ _ _ Hcw Ha) as (c1 & Hg & Hc1 & Hst1). fold k in Hg.
  rewrite (pst_cache p i c k Hc).
  unfold vget. rewrite Hc. simpl. rewrite Hg. simpl.
  assert (∀ (c' : Cache St) st', (∀ k', line_st c' k'
              = if decide (k = k') then st' else line_st c k') →
    ∀ j k', pst (with_cache p i c') j k'
      = if decide (j = i ∧ k' = k) then st' else pst p j k') as Hframe.
  { intros c' st' Hc' j k'. rewrite (pst_with_cache g n) by done.
    destruct (decide (i = j)) as [<-|].
    - rewrite Hc', (pst_cache p i c k' Hc). repeat case_decide; naive_solver.
    - rewrite decide_False; [done|]. naive_solver. }
  destruct (line_st c k) as [st|] eqn:Hst; simpl.
  - rewrite (load_state_spec c1 k st) by (by rewrite Hst1). simpl.
    case_decide as Hinv.
    + rewrite bool_decide_true by done. eexists _, _. split_and!; [done|..].
      * by apply with_cache_wf.
      * done.
      * done.
      * intros j k'. rewrite (Hframe c1 (Some st)).
        { case_decide as Hd; [|rewrite decide_False; [done|naive_solver]].
          destruct Hd as [-> ->].
          rewrite decide_True by done. rewrite (pst_cache p i c k Hc), Hst. simpl.
          by rewrite decide_True; subst. }
        intros k''. rewrite Hst1. case_decide; [congruence|done].
    + rewrite bool_decide_false by done.
      destruct (react_spec i st w fl Hi Hw) as (w' & Hr & Hfr). rewrite Hr. simpl.
      destruct (store_state_spec g c1 k (f st) Hc1) as (c2 & Hs & Hc2 & Hst2).
      { rewrite Hst1, Hst. eauto. }
      rewrite Hs. simpl. eexists _, _. split_and!; [done|..].
      * by apply with_cache_wf.
      * done.
      * done.
      * intros j k'. rewrite (Hframe c2 (Some (f st))).
        { case_decide as Hd; [|rewrite decide_False; [done|naive_solver]].
          destruct Hd as [-> ->].
          rewrite decide_True by done. rewrite (pst_cache p i c k Hc), Hst. simpl.
          by rewrite decide_False. }
        intros k''. by rewrite Hst2, Hst1.
  - eexists _, _. split_and!; [done|..].
    + by apply with_cache_wf.
    + done.
    + done.
    + intros j k'. rewrite (Hframe c1 None).
      { case_decide as Hd; [|rewrite decide_False; [done|naive_solver]].
        destruct Hd as [-> ->].
        rewrite decide_True by done. by rewrite (pst_cache p i c k Hc), Hst. }
      intros k''. rewrite Hst1. case_decide; [congruence|done].
Qed.

Lemma snooped_cons p k i cores :
  snooped p k (i :: cores) = snooped p k [i] ++ snooped p k cores.
Proof. unfold snooped. simpl. by destruct (if decide _ then _ else _). Qed.

Lemma snooped_ext p p' k cores :
  (∀ i, i ∈ cores → i ≠ req → pst p' i k = pst p i k) →
  snooped p' k cores = snooped p k cores.
Proof.
  induction cores as [|i cores IH]; intros H; [done|].
  rewrite (snooped_cons p' k i cores), (snooped_cons p k i cores).
  rewrite IH by (intros; apply H; [rewrite elem_of_cons; auto|assumption]). f_equal.
  unfold snooped. cbn. destruct (decide (i = req)) as [|Hi]; [reflexivity|].
  rewrite (H i); [reflexivity| |assumption]. rewrite elem_of_cons. auto.
Qed.

Lemma snoop_loop_list p w fl addr cores :
  proto_wf g n p → length (c_stats w) = n → 0 ≤ addr →
  NoDup cores → Forall (λ i, i < n)%nat cores →
  let k := locate_g g addr in
  ∃ p' w',
    snoop_loop react req addr cores (p, (w, fl))
    = Ok (p', (w', foldl (λ fl st, upd st fl) fl (snooped p k cores))) ∧
    proto_wf g n p' ∧ snoop_frame w w' ∧ block_size p' = block_size p ∧
    ∀ j k', pst p' j k' =
      if decide (j ∈ cores ∧ j ≠ req ∧ k' = k)
      then snoop_state (pst p j k') else pst p j k'.
Proof.
  intros Hwf Hw Ha Hnd Hlt k. revert p w fl Hwf Hw.
  induction cores as [|i cores IH]; intros p w fl Hwf Hw; cbn [snoop_loop].
  { eexists _, _. by split_and!. }
  apply NoDup_cons in Hnd as [Hnin Hnd]. apply Forall_cons in Hlt as [Hi Hlt].
  destruct (snoop_one_spec p w fl addr i Hwf Hw Hi Ha)
    as (p1 & w1 & H1 & Hwf1 & Hfr1 & Hb1 & Hst1).
  fold k in H1, Hst1. rewrite H1, bind_ret_l.
  destruct (IH Hnd Hlt p1 w1 (foldl (λ fl st, upd st fl) fl (snooped p k [i])) Hwf1)
    as (p2 & w2 & H2 & Hwf2 & Hfr2 & Hb2 & Hst2).
  { by rewrite (stats_frame_length _ _ (proj1 Hfr1)). }
  rewrite H2. exists p2, w2. split_and!.
  - do 3 f_equal. rewrite (snooped_ext p p1 k cores).
    + by rewrite (snooped_cons p k i cores), foldl_app.
    + intros j Hj Hjr. rewrite Hst1, decide_False; [done|]. naive_solver.
  - done.
  - by etrans.
  - congruence.
  - intros j k'. rewrite Hst2, Hst1.
    destruct (decide (j = i)) as [->|Hji].
    + rewrite (decide_False (P := i ∈ cores ∧ _)) by naive_solver.
      repeat case_decide; try done; set_solver.
    + rewrite (decide_False (P := j = i ∧ _)) by naive_solver.
      repeat case_decide; try done; set_solver.
Qed.

Lemma snoop_loop_spec p w fl addr :
  proto_wf g n p → length (c_stats w) = n → 0 ≤ addr →
  let k := locate_g g addr in
  ∃ p' w',
    snoop_loop react req addr (seq 0 n) (p, (w, fl))
    = Ok (p', (w', foldl (λ fl st, upd st fl) fl (snooped p k (seq 0 n)))) ∧
    proto_wf g n p' ∧ snoop_frame w w' ∧ block_size p' = block_size p ∧
    ∀ j k', pst p' j k' =
      if decide (j ≠ req ∧ k' = k) then snoop_state (pst p j k') else pst p j k'.
Proof.
  intros Hwf Hw Ha k.
  destruct (snoop_loop_list p w fl addr (seq 0 n) Hwf Hw Ha)
    as (p' & w' & H & Hwf' & Hfr & Hb & Hst).
  { apply NoDup_ListNoDup, seq_NoDup. }
  { apply Forall_forall. intros i Hi%elem_of_seq. lia. }
  exists p', w'. split_and!; try done. intros j k'. rewrite Hst. fold k.
  destruct (decide (j < n)%nat) as [Hj|Hj].
  - apply decide_ext. rewrite elem_of_seq. split; [naive_solver|].
    intros [? ?]. split; [lia|done].
  - assert (pst p j k' = None) as ->.
    { unfold pst. rewrite lookup_ge_None_2; [done|]. destruct Hwf as (_ & -> & _). lia. }
    by repeat case_decide.
Qed.
End SnoopFacts.

(** ** A processor's look-up and the requester's half of a bus transaction *)

Lemma proto_lookup g n p i addr :
  proto_wf g n p → (i < n)%nat → 0 ≤ addr →
  let k := locate_g g addr in
  ∃ c c1, caches p !! i = Some c ∧
    get_line addr c = Ok ((λ _, k) <$> pst p i k, c1) ∧
    proto_wf g n (with_cache p i c1) ∧
    (∀ j k', pst (with_cache p i c1) j k' = pst p j k') ∧
    (∀ st, pst p i k = Some st → load_state c1 k = Ok st) ∧
    (∀ st', is_Some (pst p i k) → ∃ c2, store_state c1 k st' = Ok c2 ∧
      proto_wf g n (with_cache p i c2) ∧
      ∀ j k', pst (with_cache p i c2) j k'
        = if decide (j = i ∧ k' = k) then Some st' else pst p j k').
Proof.
  intros Hwf Hi Ha k. destruct (proto_wf_cache _ _ _ _ Hwf Hi) as (c & Hc & Hcw).
  destruct (get_line_spec _ _ _ Hcw Ha) as (c1 & Hg & Hc1 & Hst1). fold k in Hg.
  exists c, c1. rewrite (pst_cache p i c k Hc). split_and!; try done.
  - by apply with_cache_wf.
  - intros j k'. rewrite (pst_with_cache g n) by done. case_decide; [subst|done].
    by rewrite Hst1, (pst_cache p j c k').
  - intros st Hst. apply load_state_spec. by rewrite Hst1.
  - intros st' Hsome. destruct (store_state_spec g c1 k st' Hc1) as (c2 & H2 & Hc2 & Hst2).
    { by rewrite Hst1. }
    exists c2. split_and!; [done|by apply with_cache_wf|].
    intros j k'. rewrite (pst_with_cache g n) by done. case_decide.
    + subst. rewrite Hst2, Hst1, (pst_cache p j c k') by done.
      by repeat case_decide; naive_solver.
    + rewrite decide_False; naive_solver.
Qed.

(** ** Coherence *)

(** Single writer: a core that holds a line in a state of [excl] is the only
    one with a copy. *)
Definition swmr (excl : St → Prop) (p : Protocol St) : Prop :=
  ∀ i j k st, i ≠ j → pst p i k = Some st → excl st → no_copy (pst p j k).

(** At most one core holds a line in a state of [own]. *)
Definition unique_owner (own : St → Prop) (p : Protocol St) : Prop :=
  ∀ i j k st st', pst p i k = Some st → own st → pst p j k = Some st' → own st' → i = j.

(** A transaction leaves the other lines alone, evictions apart. *)
Definition others_shrink (k : LinePtr) (p p' : Protocol St) : Prop :=
  ∀ j k', k' ≠ k → pst p' j k' = pst p j k' ∨ pst p' j k' = None.

(** The shared line of the bus: some other core answered. *)
Lemma snooped_elem req p k cores st :
  st ∈ snooped req p k cores ↔
  ∃ i, i ∈ cores ∧ i ≠ req ∧ pst p i k = Some st ∧ st ≠ INVALID.
Proof.
  unfold snooped. rewrite list_elem_of_omap. split.
  - intros (i & Hi & H). destruct (decide (i = req)); [done|].
    destruct (pst p i k) as [st'|] eqn:E; [|done]. simpl in H.
    destruct (decide (st' = INVALID)); [done|]. exists i. naive_solver.
  - intros (i & Hi & Hr & Hp & Hs). exists i. split; [done|].
    rewrite decide_False, Hp by done. simpl. by rewrite decide_False.
Qed.

Lemma not_snooped_no_copy g n req p k :
  proto_wf g n p → snooped req p k (seq 0 n) = [] →
  ∀ j, j ≠ req → no_copy (pst p j k).
Proof.
  intros (_ & Hl & _) H j Hj. destruct (pst p j k) as [st|] eqn:E; [|by left].
  destruct (decide (st = INVALID)) as [->|Hne]; [by right|].
  assert (st ∈ snooped req p k (seq 0 n)) as Hin.
  { apply snooped_elem. exists j. split; [|done]. apply elem_of_seq.
    unfold pst in E. destruct (caches p !! j) eqn:Hc; [|done].
    apply lookup_lt_Some in Hc. lia. }
  rewrite H in Hin. by apply not_elem_of_nil in Hin.
Qed.

(** The two accumulators the protocols use. *)
Lemma foldl_shared (fl : bool) (l : list St) :
  foldl (λ _ _, true) fl l = fl || bool_decide (l ≠ []).
Proof.
  destruct l as [|a l]; simpl; [by destruct fl|].
  rewrite orb_true_r. by induction l.
Qed.

Lemma foldl_flag (f : St → bool) (fl : bool) (l : list St) :
  foldl (λ b st, f st || b) fl l = existsb f l || fl.
Proof.
  revert fl. induction l as [|a l IH]; intros fl; simpl; [done|].
  rewrite IH. destruct (f a), (existsb f l), fl; done.
Qed.

Lemma foldl_flags (f : St → bool) (l : list St) :
  foldl (λ fl st, (true, f st || fl.2)) (false, false) l
  = (bool_decide (l ≠ []), existsb f l).
Proof.
  assert (∀ l b, foldl (λ (fl : bool * bool) st, (true, f st || fl.2)) (true, b) l
                 = (true, existsb f l || b)) as H.
  { clear l. induction l as [|a l IH]; intros b; simpl; [done|].
    rewrite IH. by destruct (f a), (existsb f l), b. }
  destruct l as [|a l]; [done|]. simpl. rewrite H.
  by destruct (f a), (existsb f l).
Qed.

(** ** A served bus transaction

    What one transaction of core [req] on line [k] does: the other cores react
    by [f], the requester ends up in [st], and at most one other line of the
    requester is lost, the evicted one, whose state was [lost]. *)
Definition served (f : St → St) (req : nat) (k : LinePtr) (st : St) (lost : option St)
    (p p' : Protocol St) : Prop :=
  block_size p' = block_size p ∧
  (∀ j, j ≠ req → pst p' j k = snoop_state f (pst p j k)) ∧
  pst p' req k = Some st ∧
  (∀ j k', k' ≠ k → pst p' j k' = pst p j k' ∨
     j = req ∧ pst p' j k' = None ∧ lost = pst p j k').

(** The same, with the line that is lost: every other line stays. *)
Definition served_victim (f : St → St) (req : nat) (k : LinePtr) (st : St) (victim : option LinePtr)
    (p p' : Protocol St) : Prop :=
  block_size p' = block_size p ∧
  (∀ j, j ≠ req → pst p' j k = snoop_state f (pst p j k)) ∧
  pst p' req k = Some st ∧
  (∀ j k', k' ≠ k → pst p' j k' = if decide (j = req ∧ victim = Some k') then None else pst p j k').

(** The state of the line that was evicted, INVALID if the map had none. *)
Definition victim_state (p : Protocol St) (req : nat) (victim : option LinePtr) : option St :=
  (λ v, default INVALID (pst p req v)) <$> victim.

Lemma served_of_victim f req k st victim p p' :
  served_victim f req k st victim p p' → served f req k st (victim_state p req victim) p p'.
Proof.
  intros (H1 & H2 & H3 & H4). split_and!; [done..|]. intros j k' Hk'. rewrite H4 by done.
  case_decide as Hd; [|by left]. destruct Hd as [-> ->]. simpl. destruct (pst p req k'); [by right|by left].
Qed.

(** A victim that is another line the requester has. *)
Definition real_line (k : LinePtr) (p : Protocol St) (req : nat) (v : LinePtr) : option LinePtr :=
  if decide (v ≠ k ∧ is_Some (pst p req v)) then Some v else None.

Lemma served_real f req k st victim p p' :
  served_victim f req k st victim p p' → served_victim f req k st (victim ≫= real_line k p req) p p'.
Proof.
  intros (H1 & H2 & H3 & H4). split_and!; [done..|]. intros j k' Hk'. rewrite H4 by done.
  destruct victim as [v|]; [|done]. simpl. unfold real_line. destruct (decide (v ≠ k ∧ _)) as [Hv|Hv]; [done|].
  rewrite (decide_False (P := _ ∧ None = _)) by (by intros []). case_decide as Hd; [|done]. destruct Hd as [-> [= ->]].
  destruct (pst p req k') eqn:Hp; [|done]. destruct Hv. by split.
Qed.

Lemma served_none f req k st p p' : served f req k st None p p' → served_victim f req k st None p p'.
Proof. intros (H1 & H2 & H3 & H4). split_and!; [done..|]. intros j k' Hk'. rewrite decide_False by (by intros [_ [=]]).
  by destruct (H4 j k' Hk') as [|(_ & -> & <-)].
Qed.

Section Serve.
Context {F : Type} (react : nat → St → Stats * F → result (St * (Stats * F))).
Context (f : St → St) (upd : St → F → F) (g : geom) (n : nat) (req : nat).
Hypothesis react_spec : ∀ i st w fl,
  (i < n)%nat → length (c_stats w) = n →
  ∃ w', react i st (w, fl) = Ok (f st, (w', upd st fl)) ∧ snoop_frame w w'.
Hypothesis Hreq : (req < n)%nat.
Context (p : Protocol St) (w : Stats) (fl : F) (addr : Z).
Hypothesis Hwf : proto_wf g n p.
Hypothesis Hw : length (c_stats w) = n.
Hypothesis Ha : 0 ≤ addr.

Let k := locate_g g addr.

(** Snooping followed by an update of the line the requester holds. *)
Lemma serve_upgrade :
  is_Some (pst p req k) →
  ∃ p1 w1,
    snoop_loop react req addr (seq 0 n) (p, (w, fl))
    = Ok (p1, (w1, foldl (λ fl st, upd st fl) fl (snooped req p k (seq 0 n)))) ∧
    snoop_frame w w1 ∧
    ∃ c c1, caches p1 !! req = Some c ∧ get_line addr c = Ok (Some k, c1) ∧
      ∀ st, ∃ c2, store_state c1 k st = Ok c2 ∧
        proto_wf g n (with_cache p1 req c2) ∧
        served f req k st None p (with_cache p1 req c2).
Proof.
  intros [st0 Hst0].
  destruct (snoop_loop_spec react f upd g n req react_spec p w fl addr Hwf Hw Ha)
    as (p1 & w1 & Hloop & Hwf1 & Hfr1 & Hb1 & Hst1).
  exists p1, w1. split_and!; [done|done|].
  destruct (proto_lookup g n p1 req addr Hwf1 Hreq Ha)
    as (c & c1 & Hc & Hg & _ & _ & _ & Hstore). fold k in Hst1, Hg, Hstore.
  assert (pst p1 req k = Some st0) as Hk.
  { rewrite Hst1, decide_False; [done|naive_solver]. }
  exists c, c1. rewrite Hk in *. split_and!; [done..|]. intros st.
  destruct (Hstore st) as (c2 & H2 & Hwf2 & Hst2); [eauto|].
  exists c2. split_and!; [done..|]. split_and!.
  - done.
  - intros j Hj. rewrite Hst2, Hst1, decide_False, decide_True by naive_solver. done.
  - by rewrite Hst2, decide_True.
  - intros j k' Hk'. left.
    by rewrite Hst2, Hst1, !decide_False by naive_solver.
Qed.

(** Snooping followed by the allocation of the line. *)
Lemma serve_fill_victim set_alloc :
  alloc_ok INVALID set_alloc →
  ∃ p1 w1,
    snoop_loop react req addr (seq 0 n) (p, (w, fl))
    = Ok (p1, (w1, foldl (λ fl st, upd st fl) fl (snooped req p k (seq 0 n)))) ∧
    snoop_frame w w1 ∧
    ∃ c ev c1 victim, caches p1 !! req = Some c ∧
      allocate_with set_alloc addr c = Ok (k, ev, c1) ∧
      evicted_state ev = victim_state p req victim ∧ (∀ v, victim = Some v → v.1 = k.1) ∧
      ∀ st, ∃ c2, store_state c1 k st = Ok c2 ∧
        proto_wf g n (with_cache p1 req c2) ∧
        served_victim f req k st victim p (with_cache p1 req c2).
Proof.
  intros Hal.
  destruct (snoop_loop_spec react f upd g n req react_spec p w fl addr Hwf Hw Ha)
    as (p1 & w1 & Hloop & Hwf1 & Hfr1 & Hb1 & Hst1).
  exists p1, w1. split_and!; [done|done|].
  destruct (proto_wf_cache _ _ _ _ Hwf1 Hreq) as (c & Hc & Hcw).
  destruct (allocate_spec INVALID _ _ _ _ Hal Hcw Ha) as (ev & c1 & victim & H1 & Hc1 & Hk1 & Hev & Hvs & Hoth).
  fold k in Hst1, H1, Hk1, Hvs, Hoth.
  assert (∀ k', k' ≠ k → pst p1 req k' = line_st c k' ∧ pst p1 req k' = pst p req k') as Hreq1.
  { intros k' Hk'. split; [by apply pst_cache|]. by rewrite Hst1, decide_False by naive_solver. }
  assert (pst p1 req k = pst p req k) as Hreqk by (by rewrite Hst1, decide_False by naive_solver).
  exists c, ev, c1, victim. split_and!; [done..| |done|].
  { rewrite Hev. unfold victim_state. destruct victim as [v|]; [|done]. simpl. do 2 f_equal.
    rewrite <- (pst_cache p1 req c v Hc). destruct (decide (v = k)) as [->|Hv]; [done|by apply Hreq1]. }
  intros st. destruct (store_state_spec g c1 k st Hc1) as (c2 & H2 & Hc2 & Hst2); [eauto|].
  exists c2. split_and!; [done|by apply with_cache_wf|]. split_and!.
  - done.
  - intros j Hj. rewrite (pst_with_cache g n), decide_False, Hst1, decide_True by naive_solver. done.
  - by rewrite (pst_with_cache g n), decide_True, Hst2, decide_True by done.
  - intros j k' Hk'. rewrite (pst_with_cache g n) by done. destruct (decide (j = req)) as [->|Hj].
    + rewrite Hst2, (decide_False (P := k = k')) by congruence. rewrite Hoth by done. destruct (Hreq1 k' Hk') as [<- ->]. repeat case_decide; naive_solver.
    + rewrite Hst1, !decide_False by naive_solver. done.
Qed.

Lemma serve_fill set_alloc :
  alloc_ok INVALID set_alloc →
  ∃ p1 w1,
    snoop_loop react req addr (seq 0 n) (p, (w, fl))
    = Ok (p1, (w1, foldl (λ fl st, upd st fl) fl (snooped req p k (seq 0 n)))) ∧
    snoop_frame w w1 ∧
    ∃ c ev c1, caches p1 !! req = Some c ∧
      allocate_with set_alloc addr c = Ok (k, ev, c1) ∧
      ∀ st, ∃ c2, store_state c1 k st = Ok c2 ∧
        proto_wf g n (with_cache p1 req c2) ∧
        served f req k st (evicted_state ev) p (with_cache p1 req c2).
Proof.
  intros Hal. destruct (serve_fill_victim _ Hal) as (p1 & w1 & H1 & H2 & c & ev & c1 & victim & H3 & H4 & Hev & _ & H5).
  exists p1, w1. split_and!; [done..|]. exists c, ev, c1. split_and!; [done..|]. intros st.
  destruct (H5 st) as (c2 & ? & ? & ?). exists c2. rewrite Hev. split_and!; [done..|]. by apply served_of_victim.
Qed.
End Serve.

Lemma served_others f req k st lost p p' :
  served f req k st lost p p' → others_shrink k p p'.
Proof. intros (_ & _ & _ & H) j k' Hk. naive_solver. Qed.

(** Single writer is kept when the requester's new state is exclusive only if
    no copy is left elsewhere, and when reacting never makes a copy exclusive. *)
Lemma served_swmr excl f req k st lost p p' :
  swmr excl p → served f req k st lost p p' → ¬ excl INVALID →
  (∀ st, ¬ excl (f st)) →
  (excl st → ∀ j, j ≠ req → no_copy (snoop_state f (pst p j k))) →
  swmr excl p'.
Proof.
  intros Hsw Hs Hinv Hf Hreq i j k' st' Hij Hi He.
  destruct (decide (k' = k)) as [->|Hne].
  - destruct Hs as (_ & Hoth & Hst & _).
    destruct (decide (i = req)) as [->|Hir].
    + rewrite (Hoth j) by done. apply Hreq; [|done]. congruence.
    + rewrite (Hoth i) in Hi by done. exfalso. unfold snoop_state in Hi.
      destruct (pst p i k) as [sti|]; simpl in Hi; [|done].
      case_decide; simplify_eq; naive_solver.
  - apply served_others in Hs. destruct (Hs j k' Hne) as [-> | ->]; [|by left].
    destruct (Hs i k' Hne) as [Heq|Heq]; rewrite Heq in Hi; [|done]. eauto.
Qed.

(** At most one owner, when reacting gives ownership up or the requester does
    not become an owner and reacting creates none. *)
Lemma served_unique_owner own f req k st lost p p' :
  unique_owner own p → served f req k st lost p p' → ¬ own INVALID →
  (∀ j, j ≠ req → ∀ st', snoop_state f (pst p j k) = Some st' → ¬ own st') ∨
  (¬ own st ∧ ∀ j st', j ≠ req → snoop_state f (pst p j k) = Some st' → own st' →
     ∃ st0, pst p j k = Some st0 ∧ own st0) →
  unique_owner own p'.
Proof.
  intros Hu Hs Hinv Hk. pose proof (served_others _ _ _ _ _ _ _ Hs) as Hoth.
  destruct Hs as (_ & Hj & Hst & _).
  intros i j k' sti stj Hi Hoi Hj' Hoj. destruct (decide (k' = k)) as [->|Hne].
  - destruct (decide (i = req)) as [->|Hir], (decide (j = req)) as [->|Hjr]; [done|..].
    + rewrite Hj in Hj' by done. naive_solver.
    + rewrite Hj in Hi by done. naive_solver.
    + rewrite Hj in Hi, Hj' by done. destruct Hk as [Hk|[_ Hk]]; [naive_solver|].
      destruct (Hk i sti) as (? & ? & ?); [done..|].
      destruct (Hk j stj) as (? & ? & ?); [done..|]. eauto.
  - destruct (Hoth j k' Hne) as [E|E]; rewrite E in Hj'; [|done].
    destruct (Hoth i k' Hne) as [E'|E']; rewrite E' in Hi; [|done]. eauto.
Qed.

(** The core has an entry for the address, whatever its state: what a waiting
    upgrade needs for [caches[req_id].get_line(addr)->state]. *)
Definition held (p : Protocol St) (id : nat) (addr : Z) : Prop :=
  ∃ c, caches p !! id = Some c ∧ is_Some (line_st c (locate c addr)).

Lemma held_iff g n p id addr :
  proto_wf g n p → held p id addr ↔ is_Some (pst p id (locate_g g addr)).
Proof.
  intros (_ & _ & _ & Hf). unfold held, pst. split.
  - intros (c & Hc & Hl). rewrite Hc. simpl.
    by rewrite <- (locate_of g c) by by eapply Forall_lookup_1.
  - destruct (caches p !! id) as [c|] eqn:Hc; simpl; [|by intros []].
    intros Hl. exists c. split; [done|].
    by rewrite (locate_of g c) by by eapply Forall_lookup_1.
Qed.

(** A transaction of another core keeps what a core holds. *)
Lemma served_held f g n req k st lost p p' j addr :
  proto_wf g n p → proto_wf g n p' → served f req k st lost p p' → j ≠ req →
  held p j addr → held p' j addr.
Proof.
  intros Hwf Hwf' (_ & Hj & _ & Ho) Hjr. rewrite (held_iff g n p), (held_iff g n p') by done.
  destruct (decide (locate_g g addr = k)) as [->|Hne].
  - rewrite Hj by done. unfold snoop_state. by rewrite fmap_is_Some.
  - destruct (Ho j _ Hne) as [-> | [? _]]; done.
Qed.

(** ** Construction *)

Lemma newProtocol_spec n size as_ bs :
  0 < as_ → 0 < bs → as_ * bs ≤ size < 2 ^ 31 →
  ∃ p g, newProtocol n size as_ bs = Ok p ∧ proto_wf g n p ∧
    block_size p = bs ∧ ∀ i k, pst p i k = None.
Proof.
  intros Ha Hb Hs. destruct (newCache_spec (St := St) size as_ bs Ha Hb Hs) as (c & Hc & Hwf & Hst).
  assert (build_caches n size as_ bs = Ok (replicate n c)) as Hbuild.
  { induction n as [|n IH]; [done|]. simpl. by rewrite Hc, IH. }
  unfold newProtocol. rewrite Hbuild. eexists _, _. split_and!; [done|..].
  - split_and!; simpl; [done|by rewrite length_replicate| |by apply Forall_replicate].
    apply Hwf.
  - done.
  - intros i k. unfold pst. simpl.
    destruct (replicate n c !! i) as [c'|] eqn:E; [|done].
    apply lookup_replicate in E as [-> _]. apply Hst.
Qed.

(** ** Processor requests *)

Section RequestFacts.
Context (shared : St → bool) (on_write : St → St) (write_miss : BusTransactionType).

Lemma count_hit_spec n id st w :
  length (c_stats w) = n → (id < n)%nat →
  ∃ w', count_hit shared id st w = Ok w' ∧ stats_frame w w'.
Proof.
  intros <- Hid. unfold count_hit. destruct (shared st); auto with model.
Qed.

(** The answer, by the state of the line. *)
Definition request_response (o : option St) (wr : bool) : ProtocolResponse :=
  match o with
  | Some st =>
      if decide (st = INVALID) then mkResponse false (if wr then write_miss else BUS_RD)
      else if wr && shared st then mkResponse false BUS_UPGR
      else mkResponse true NONE
  | None => mkResponse false (if wr then write_miss else BUS_RD)
  end.

(** A request touches one line of one core, and only when a write hits. *)
Definition request_effect (k : LinePtr) (id : nat) (wr : bool) (r : ProtocolResponse)
    (p p' : Protocol St) : Prop :=
  r = request_response (pst p id k) wr ∧
  ∀ j k', pst p' j k' =
    if decide (j = id ∧ k' = k ∧ is_hit r = true ∧ wr = true)
    then on_write <$> pst p j k' else pst p j k'.

Lemma processor_request_spec g n p w id addr wr :
  proto_wf g n p → length (c_stats w) = n → (id < n)%nat → 0 ≤ addr →
  ∃ r p' w',
    processor_request shared on_write write_miss p w id addr wr = Ok (r, p', w') ∧
    proto_wf g n p' ∧ block_size p' = block_size p ∧ stats_frame w w' ∧
    request_effect (locate_g g addr) id wr r p p'.
Proof.
  intros Hwf Hw Hid Ha. unfold processor_request, request_effect.
  destruct (proto_lookup g n p id addr Hwf Hid Ha)
    as (c & c1 & Hc & Hg & Hwf1 & Hst1 & Hload & Hstore).
  set (k := locate_g g addr) in *.
  unfold vget. rewrite Hc. cbn. rewrite Hg. cbn.
  destruct (pst p id k) as [st|] eqn:Hst; cbn; last first.
  { eexists _, _, _. split_and!; try done. intros j k'.
    rewrite Hst1, decide_False; [done|]. naive_solver. }
  rewrite (Hload _ eq_refl). cbn.
  destruct (decide (st = INVALID)) as [|Hinv].
  { rewrite bool_decide_true by done. eexists _, _, _. split_and!; try done. intros j k'.
    rewrite Hst1, decide_False; [done|]. naive_solver. }
  rewrite bool_decide_false by done.
  destruct (Hstore (on_write st)) as (c2 & H2 & Hwf2 & Hst2); [eauto|].
  destruct (count_hit_spec n id (on_write st) w Hw Hid) as (wM & HwM & HfM).
  destruct (count_hit_spec n id st w Hw Hid) as (wS & HwS & HfS).
  destruct wr; cbn; [destruct (shared st) eqn:Hsh; cbn|];
    rewrite ?H2, ?HwM, ?HwS; cbn; eexists _, _, _;
    (split_and!; [done|done|done|done|done|]); intros j k'; cbn.
  - rewrite Hst1, decide_False; [done|]. naive_solver.
  - rewrite Hst2. destruct (decide (j = id ∧ k' = k)) as [[-> ->]|Hd].
    + rewrite decide_True by done. by rewrite Hst.
    + rewrite decide_False by naive_solver. done.
  - rewrite Hst1, decide_False; [done|]. naive_solver.
Qed.

Lemma request_held g n p p' id wr r addr j a :
  proto_wf g n p → proto_wf g n p' → request_effect (locate_g g addr) id wr r p p' →
  held p j a → held p' j a.
Proof.
  intros Hwf Hwf' [_ Hst]. rewrite (held_iff g n p), (held_iff g n p') by done.
  rewrite Hst. by destruct (decide _); rewrite ?fmap_is_Some.
Qed.

Lemma request_upgrade_held g n p p' id wr r addr :
  proto_wf g n p' → request_effect (locate_g g addr) id wr r p p' →
  write_miss ≠ BUS_UPGR → bus_action r = BUS_UPGR → held p' id addr.
Proof.
  intros Hwf' [Hr Hst] Hwm Hup. rewrite (held_iff g n p'), Hst by done.
  subst r. unfold request_response in *.
  destruct (pst p id _) as [st|]; [|by destruct wr].
  destruct (decide (id = id ∧ _)); simpl; by eexists.
Qed.

Lemma request_response_cases o wr :
  let r := request_response o wr in
  r = mkResponse true NONE ∨
  ∃ t, r = mkResponse false t ∧ (t = BUS_RD ∨ t = write_miss ∨ t = BUS_UPGR).
Proof using Type.
  clear on_write. unfold request_response.
  destruct wr, o as [st|]; simpl; try (right; eexists; split; [done|tauto]);
    (destruct (decide _); [right; eexists; split; [done|tauto]|]); auto.
  destruct (shared st); [right; eexists; split; [done|tauto]|auto].
Qed.

(** A write hits silently only in an exclusive state, which it keeps. *)
Lemma request_swmr excl k id wr r p p' :
  swmr excl p → request_effect k id wr r p p' → ¬ excl INVALID →
  (∀ st, st ≠ INVALID → shared st = false → excl st) →
  swmr excl p'.
Proof.
  intros Hsw [Hr Hst] Hinv Hexcl i j k' st Hij Hi He.
  assert (is_hit r = true → wr = true → ∃ st0, pst p id k = Some st0 ∧ excl st0) as Hhit.
  { subst r. unfold request_response. destruct (pst p id k) as [st0|]; [|done].
    destruct (decide (st0 = INVALID)); [done|]. intros Hh ->.
    destruct (shared st0) eqn:E; [done|]. eauto. }
  rewrite Hst in Hi. rewrite Hst.
  destruct (decide (i = id ∧ _)) as [(-> & -> & Hh & Hwr)|Hd].
  - rewrite decide_False by naive_solver. destruct (Hhit Hh Hwr) as (st0 & H0 & He0). eauto.
  - destruct (decide (j = id ∧ _)) as [(-> & -> & Hh & Hwr)|Hd']; [|by eapply Hsw].
    destruct (Hhit Hh Hwr) as (st0 & H0 & He0).
    destruct (Hsw id i k st0 (not_eq_sym Hij) H0 He0) as [E|E]; naive_solver.
Qed.

Lemma request_unique_owner own k id wr r p p' :
  unique_owner own p → request_effect k id wr r p p' →
  (∀ st, st ≠ INVALID → shared st = false → own st) →
  unique_owner own p'.
Proof.
  intros Hu [Hr Hst] Hown.
  assert (∀ i k' st, pst p' i k' = Some st → own st →
            ∃ st0, pst p i k' = Some st0 ∧ own st0) as Hback.
  { intros i k' st Hi Ho. rewrite Hst in Hi.
    destruct (decide (i = id ∧ _)) as [(-> & -> & Hh & Hwr)|Hd]; [|eauto].
    subst r. unfold request_response in Hh. destruct (pst p id k) as [st0|]; [|done].
    destruct (decide (st0 = INVALID)); [done|]. exists st0. split; [done|].
    apply Hown; [done|]. subst wr. by destruct (shared st0). }
  intros i j k' st st' Hi Hoi Hj Hoj.
  destruct (Hback i k' st Hi Hoi) as (? & ? & ?).
  destruct (Hback j k' st' Hj Hoj) as (? & ? & ?). eauto.
Qed.
End RequestFacts.

(** ** The interface from a protocol's invariant

    A protocol that answers requests by the common skeleton implements the
    interface once its invariant is kept by requests and by served bus
    transactions; a waiting upgrade is servable while the line is held. *)
Section Interface.
Context (shared : St → bool) (on_write : St → St) (write_miss : BusTransactionType).
Context (bus : Protocol St → Stats → nat → BusTransactionType → Z →
               result (Z * Protocol St * Stats)).
Context (ok : geom → nat → Protocol St → Prop).
Hypothesis write_miss_kind : write_miss = BUS_RD ∨ write_miss = BUS_RDX.
Hypothesis ok_wf : ∀ g n p, ok g n p → proto_wf g n p.
Hypothesis ok_request : ∀ g n k id wr r p p',
  ok g n p → proto_wf g n p' → block_size p' = block_size p →
  request_effect shared on_write write_miss k id wr r p p' → ok g n p'.
Hypothesis ok_bus : ∀ g n p w req type addr,
  ok g n p → length (c_stats w) = n → (req < n)%nat → 0 ≤ addr →
  type = BUS_RD ∨ type = write_miss ∨ type = BUS_UPGR ∧ held p req addr →
  ∃ lat p' w', bus p w req type addr = Ok (lat, p', w') ∧
    ok g n p' ∧ stats_frame w w' ∧ latency_ok lat ∧
    (∀ j a, j ≠ req → held p j a → held p' j a).

Definition protocol_of : CoherenceProtocol (Protocol St) := {|
  CohDefs.handle_processor_request := processor_request shared on_write write_miss;
  CohDefs.handle_bus_transaction := bus
|}.

Lemma protocol_laws : @CoherenceProtocolLaws (Protocol St) protocol_of.
Proof using All.
  refine (@Build_CoherenceProtocolLaws _ protocol_of (λ n p, ∃ g, ok g n p)
            (λ p id t addr, t = BUS_RD ∨ t = write_miss ∨ t = BUS_UPGR ∧ held p id addr)
            _ _).
  - intros n p w id addr wr [g Hok] Hw Hid [Ha _].
    destruct (processor_request_spec shared on_write write_miss g n p w id addr wr
                (ok_wf _ _ _ Hok) Hw Hid Ha) as (r & p' & w' & H & Hwf' & Hb & Hfr & Heff).
    assert (ok g n p') as Hok' by eauto.
    destruct (request_response_cases shared write_miss (pst p id (locate_g g addr)) wr)
      as [Hr|(t & Hr & Ht)]; rewrite <- (proj1 Heff) in Hr;
      exists r, p', w'; (split_and!; [done|eauto|done|by rewrite Hr|..]).
    + by rewrite Hr.
    + intros j t a _ [|[|[? Hp]]]; auto. do 2 right. split; [done|].
      eapply request_held; [| |exact Heff|done]; eauto.
    + intros _. rewrite Hr. simpl. split_and!; [naive_solver..|].
      destruct Ht as [|[|Ht]]; auto. do 2 right. split; [done|].
      eapply request_upgrade_held; [done|done| |by rewrite Hr]. naive_solver.
    + intros j t' a _ [|[|[? Hp]]]; auto. do 2 right. split; [done|].
      eapply request_held; [| |exact Heff|done]; eauto.
  - intros n p w id t addr [g Hok] Hw Hid [Ha _] _ _ Hp.
    destruct (ok_bus g n p w id t addr Hok Hw Hid Ha Hp)
      as (lat & p' & w' & H & Hok' & Hfr & Hl & Hheld).
    exists lat, p', w'. split_and!; [done|eauto|done|done|].
    intros j t' a Hj [|[|[? Hh]]]; auto.
Defined.
End Interface.

End Protocols.

(** Proofs rewrite with the specifications above, never by unfolding. *)
#[global] Arguments snoop_loop : simpl never.
#[global] Arguments processor_request : simpl never.
#[global] Arguments pst : simpl never.
