(* ===== verification/CohMesi.v ===== *)
(** * mesi_protocol.h: the MESI protocol

    Processor requests and bus transactions of [MESIProtocol], the single
    writer invariant they keep, and the instance of the interface the
    simulator is verified against. *)

From S2P Require Import Prelude CohDefs CohCache CohProto.

Module MESI.

Inductive MESIState := INVALID | SHARED | EXCLUSIVE | MODIFIED.

#[global] Instance MESIState_eq_dec : EqDecision MESIState.
Proof. solve_decision. Defined.

Abbreviation MESICache := (Cache MESIState).
Abbreviation MESIProtocol := (Protocol MESIState).

Definition new (n : nat) (cs as_ bs : Z) : result MESIProtocol :=
  newProtocol n cs as_ bs.

(** A write needs the bus when the line is SHARED; a SHARED hit counts as a
    shared access, one in M or E as private. *)
Definition is_shared (st : MESIState) : bool := bool_decide (st = SHARED).

Definition handle_processor_request : MESIProtocol → Stats → nat → Z → bool →
    result (ProtocolResponse * MESIProtocol * Stats) :=
  processor_request INVALID is_shared (λ _, MODIFIED) BUS_RDX.

(** The body of the snooping loop; the flag is [shared_signal]. *)
Definition snoop_body (req_id : nat) (type : BusTransactionType) (i : nat)
    (st : MESIState) (acc : Stats * bool) : result (MESIState * (Stats * bool)) :=
  let '(w, _) := acc in
  match type with
  | BUS_RDX | BUS_UPGR =>
      w1 ← on_core i inc_invalidations_received w;
      w2 ← on_core req_id inc_invalidations_sent w1;
      Ok (INVALID, (on_global inc_total_invalidations w2, true))
  | BUS_RD =>
      Ok (if bool_decide (st = MODIFIED ∨ st = EXCLUSIVE) then SHARED else st, (w, true))
  | _ => Ok (st, (w, true))
  end.

(** The transaction over the replacement routine of the cache sets, the only
    thing in which MESISmartProtocol differs. *)
Definition bus_transaction_with
    (set_alloc : Z → LRUCacheSet MESIState →
                 result (option (CacheLine MESIState) * LRUCacheSet MESIState))
    (p : MESIProtocol) (w : Stats) (req_id : nat)
    (type : BusTransactionType) (addr : Z) : result (Z * MESIProtocol * Stats) :=
  '(p1, (w1, shared_signal)) ←
    snoop_loop INVALID (snoop_body req_id type) req_id addr (seq 0 (num_cores p))
      (p, (w, false));
  match type with
  | WRITEBACK =>
      Ok (100, p1, on_global (add_traffic (block_size p)) (on_global inc_bus_writebacks w1))
  | BUS_UPGR =>
      c ← vget (caches p1) req_id;
      '(line, c1) ← get_line addr c;
      l ← deref line;
      c2 ← store_state c1 l MODIFIED;
      Ok (0, with_cache p1 req_id c2, on_global inc_bus_upgrades w1)
  | _ =>
      let latency := if (shared_signal : bool) then 1 + 2 * Z.quot (block_size p) 4 else 101 in
      let w2 := if shared_signal then on_global inc_cache_to_cache w1 else w1 in
      let w3 := on_global (add_traffic (block_size p)) w2 in
      let w4 := if bool_decide (type = BUS_RD) then on_global inc_bus_reads w3
                else on_global inc_bus_readx w3 in
      c ← vget (caches p1) req_id;
      '(l, evicted, c1) ← allocate_with set_alloc addr c;
      let wb := bool_decide (evicted_state evicted = Some MODIFIED) in
      let latency := if wb then latency + 100 else latency in
      let w5 := if wb then on_global (add_traffic (block_size p))
                             (on_global inc_bus_writebacks w4) else w4 in
      c2 ← store_state c1 l
             (if bool_decide (type = BUS_RD) && shared_signal then SHARED
              else if bool_decide (type = BUS_RD) then EXCLUSIVE else MODIFIED);
      Ok (latency, with_cache p1 req_id c2, w5)
  end.

Definition handle_bus_transaction : MESIProtocol → Stats → nat →
    BusTransactionType → Z → result (Z * MESIProtocol * Stats) :=
  bus_transaction_with (set_allocate INVALID).

#[global] Instance protocol : CoherenceProtocol MESIProtocol :=
  protocol_of INVALID is_shared (λ _, MODIFIED) BUS_RDX handle_bus_transaction.

(** ** Invariants *)

(** Exclusive states: a write may hit silently in them. *)
Definition exclusive (st : MESIState) : Prop := st = EXCLUSIVE ∨ st = MODIFIED.

(** What the snooping loop does to another core's copy. *)
Definition snoop_to (type : BusTransactionType) (st : MESIState) : MESIState :=
  match type with
  | BUS_RDX | BUS_UPGR => INVALID
  | BUS_RD => if bool_decide (st = MODIFIED ∨ st = EXCLUSIVE) then SHARED else st
  | _ => st
  end.

Definition ok (g : geom) (n : nat) (p : MESIProtocol) : Prop :=
  proto_wf g n p ∧ block_ok (block_size p) ∧ swmr INVALID exclusive p.

Lemma mesi_exclusive_not_invalid : ¬ exclusive INVALID.
Proof. by intros [|]. Qed.

Lemma mesi_snoop_body_spec n req type i st w fl :
  (req < n)%nat → (i < n)%nat → length (c_stats w) = n →
  ∃ w', snoop_body req type i st (w, fl) = Ok (snoop_to type st, (w', true)) ∧
        snoop_frame w w'.
Proof.
  intros Hr Hi Hw. unfold snoop_body, snoop_to.
  destruct type; try (eexists; done);
    destruct (invalidate_stats_spec n i req w Hw Hi Hr) as (w1 & w2 & H1 & H2 & Hf);
    rewrite H1; cbn; rewrite H2; eauto.
Qed.

(** The state in which the requester ends up. *)
Definition fill_state (type : BusTransactionType) (shared : bool) : MESIState :=
  match type with
  | BUS_RD => if shared then SHARED else EXCLUSIVE
  | _ => MODIFIED
  end.

(** A served request: every other core reacts, the requester gets the line in
    the protocol's state, and a dirty victim costs a write-back. *)
Lemma mesi_hbt_spec set_alloc g n p w req type addr :
  alloc_ok INVALID set_alloc →
  ok g n p → length (c_stats w) = n → (req < n)%nat → 0 ≤ addr →
  type ≠ NONE → type ≠ WRITEBACK →
  let k := locate_g g addr in
  (type = BUS_UPGR → is_Some (pst p req k)) →
  let shared := bool_decide (snooped INVALID req p k (seq 0 n) ≠ []) in
  ∃ lat p' w' victim,
    let wb := bool_decide (victim_state INVALID p req victim = Some MODIFIED) in
    bus_transaction_with set_alloc p w req type addr = Ok (lat, p', w') ∧
    proto_wf g n p' ∧ stats_frame w w' ∧
    served_victim INVALID (snoop_to type) req k (fill_state type shared) victim p p' ∧
    (∀ v, victim = Some v → type ≠ BUS_UPGR ∧ v.1 = k.1) ∧
    lat = (if bool_decide (type = BUS_UPGR) then 0
           else (if shared then 1 + 2 * Z.quot (block_size p) 4 else 101)
                + (if wb then 100 else 0)) ∧
    bus_writebacks (g_stats w')
    = (if wb then i32 (bus_writebacks (g_stats w) + 1) else bus_writebacks (g_stats w)).
Proof.
  intros Halloc (Hwf & Hb & _) Hw Hreq Ha Hnone Hwbk k Hup shared.
  unfold bus_transaction_with. rewrite (proj1 Hwf).
  assert (∀ i st w fl, (i < n)%nat → length (c_stats w) = n →
    ∃ w', snoop_body req type i st (w, fl) = Ok (snoop_to type st, (w', true)) ∧
          snoop_frame w w') as Hreact by (intros; by eapply mesi_snoop_body_spec).
  destruct (decide (type = BUS_UPGR)) as [->|Htype].
  - destruct (serve_upgrade INVALID _ _ (λ _ _, true) g n req Hreact Hreq p w false addr
                Hwf Hw Ha (Hup eq_refl))
      as (p1 & w1 & Hloop & Hfr & c & c1 & Hc & Hg & Hstore).
    destruct (Hstore MODIFIED) as (c2 & H2 & Hwf2 & Hsv).
    rewrite Hloop. cbn. unfold vget. rewrite Hc. cbn. rewrite Hg. cbn. rewrite H2. cbn.
    eexists _, _, _, None. apply served_none in Hsv. split_and!; try done.
    + etrans; [apply Hfr|]. auto with model.
    + destruct Hfr as [_ Hc0]. by injection Hc0.
  - destruct (serve_fill_victim INVALID _ _ (λ _ _, true) g n req Hreact Hreq p w false addr
                Hwf Hw Ha _ Halloc)
      as (p1 & w1 & Hloop & Hfr & c & ev & c1 & victim & Hc & Hal & Hvi & Hvs & Hstore).
    destruct (Hstore (fill_state type shared)) as (c2 & H2 & Hwf2 & Hsv).
    assert (bus_writebacks (g_stats w1) = bus_writebacks (g_stats w)) as Hwb1.
    { destruct Hfr as [_ Hc0]. by injection Hc0. }
    rewrite Hloop, foldl_shared. cbn [orb]. fold k. fold shared.
    fold k in Hal, H2, Hsv, Hvs. clearbody shared k. unfold vget. cbn.
    exists (if bool_decide (evicted_state ev = Some MODIFIED)
            then (if shared then 1 + 2 * Z.quot (block_size p) 4 else 101) + 100
            else (if shared then 1 + 2 * Z.quot (block_size p) 4 else 101)).
    destruct type; try done; rewrite Hc; cbn; rewrite Hal; bd_simpl;
      destruct shared, (bool_decide (evicted_state ev = Some MODIFIED)) eqn:Hev;
      cbn in *; rewrite H2; cbn; eexists _, _, victim; rewrite <- ?Hvi;
      (split_and!; [done|done|etrans; [apply Hfr|done]|done|by auto|
                    rewrite ?Hev; bd_simpl; lia|rewrite Hev; cbn; by rewrite Hwb1]).
Qed.

(** ** The interface *)

Lemma mesi_shared_or_exclusive st : st ≠ INVALID → is_shared st = false → exclusive st.
Proof. unfold exclusive. destruct st; try done; auto. Qed.

Lemma mesi_ok_request g n k id wr r p p' :
  ok g n p → proto_wf g n p' → block_size p' = block_size p →
  request_effect INVALID is_shared (λ _, MODIFIED) BUS_RDX k id wr r p p' → ok g n p'.
Proof.
  intros (Hwf & Hb & Hsw) Hwf' Hb' Heff. split_and!; [done|by rewrite Hb'|].
  by eapply request_swmr; eauto using mesi_exclusive_not_invalid, mesi_shared_or_exclusive.
Qed.

Lemma mesi_bus_ok set_alloc g n p w req type addr :
  alloc_ok INVALID set_alloc →
  ok g n p → length (c_stats w) = n → (req < n)%nat → 0 ≤ addr →
  type = BUS_RD ∨ type = BUS_RDX ∨ type = BUS_UPGR ∧ held p req addr →
  ∃ lat p' w',
    bus_transaction_with set_alloc p w req type addr = Ok (lat, p', w') ∧
    ok g n p' ∧ stats_frame w w' ∧ latency_ok lat ∧
    (∀ j a, j ≠ req → held p j a → held p' j a).
Proof.
  intros Halloc Hok Hw Hreq Ha Htype.
  assert (type ≠ NONE ∧ type ≠ WRITEBACK) as [Hn Hwb] by naive_solver.
  destruct (mesi_hbt_spec set_alloc g n p w req type addr Halloc Hok Hw Hreq Ha Hn Hwb)
    as (lat & p' & w' & victim & H & Hwf' & Hfr & Hsv & _ & Hlat & _).
  { intros Ht. apply (held_iff g n p); [apply Hok|]. destruct Htype as [|[|[_ ?]]]; [congruence..|done]. }
  apply served_of_victim in Hsv. destruct Hok as (Hwf & Hb & Hsw). exists lat, p', w'. split_and!; [done| |done|..].
  - split_and!; [done|by rewrite (proj1 Hsv)|].
    eapply served_swmr; [done..|apply mesi_exclusive_not_invalid| |].
    + unfold snoop_to. intros st. destruct type, st; try done; bd_simpl; by intros [].
    + intros He j Hj. unfold snoop_state.
      destruct type; try done; simpl in He.
      * case_bool_decide as Hs; [by destruct He|].
        destruct (not_snooped_no_copy INVALID g n req p _ Hwf Hs j Hj) as [-> | ->];
          [by left|by right].
      * destruct (pst p j _) as [st|]; [right; by destruct st|by left].
      * destruct (pst p j _) as [st|]; [right; by destruct st|by left].
  - subst lat. pose proof (block_latency _ Hb). unfold latency_ok.
    repeat case_bool_decide; lia.
  - intros j a Hj. by eapply served_held.
Qed.

(** Both MESI protocols implement the interface. *)
Lemma laws_with set_alloc (Halloc : alloc_ok INVALID set_alloc) :
  @CoherenceProtocolLaws MESIProtocol
    (protocol_of INVALID is_shared (λ _, MODIFIED) BUS_RDX (bus_transaction_with set_alloc)).
Proof.
  apply (protocol_laws INVALID is_shared (λ _, MODIFIED) BUS_RDX _ ok);
    [by right|by intros ??? []|apply mesi_ok_request|].
  intros g n p w req type addr. by apply mesi_bus_ok.
Defined.

#[global] Instance laws : CoherenceProtocolLaws MESIProtocol :=
  laws_with _ (set_allocate_ok INVALID).

Lemma mesi_new_ok n size as_ bs :
  0 < as_ → 0 < bs → as_ * bs ≤ size < 2 ^ 31 →
  ∃ p, new n size as_ bs = Ok p ∧ proto_ok n p.
Proof.
  intros Ha Hb Hs. assert (bs < 2 ^ 31) as Hbs31 by nia.
  destruct (newProtocol_spec (St := MESIState) n size as_ bs Ha Hb Hs) as (p & g & H & Hwf & Hbs & Hst).
  exists p. split; [done|]. exists g. split_and!; [done|unfold block_ok; lia|].
  intros i j k st _ Hi. by rewrite Hst in Hi.
Qed.

End MESI.
