(* ===== verification/CohSmart.v ===== *)
(** * mesi_smart.h: MESI with clean-preferred eviction

    [SmartCacheSet::allocate] looks for a clean victim from the least recently
    used end; everything else of [MESISmartProtocol] repeats MESI's text. *)

From S2P Require Import Prelude CohDefs CohCache CohProto CohMesi.

Module MESI_SMART.
Import MESI.

Abbreviation MESISmartCache := (Cache MESIState).
Abbreviation MESISmartProtocol := (Protocol MESIState).

(** The scan from the back: the tags passed over, the victim, and the tags
    still in front of it.  [lines[tag]] of a stale tag yields a fresh INVALID
    line, which makes that tag the victim and is erased with it. *)
Fixpoint scan_clean (m : gmap Z (CacheLine MESIState)) (from_back : list Z)
    : option (list Z * Z * list Z) :=
  match from_back with
  | [] => None
  | t :: rest =>
      if bool_decide (state (lines_at INVALID m t) = MODIFIED) then
        '(skipped, victim, rest') ← scan_clean m rest; Some (t :: skipped, victim, rest')
      else Some ([], t, rest)
  end.

Definition set_allocate (t : Z) (s : LRUCacheSet MESIState)
    : result (option (CacheLine MESIState) * LRUCacheSet MESIState) :=
  if bool_decide (u64 (assoc s) ≤ Z.of_nat (size (lines s))) then
    match scan_clean (lines s) (reverse (lru_order s)) with
    | Some (skipped, victim, rest) =>
        Ok (Some (lines_at INVALID (lines s) victim),
            install INVALID t (assoc s) (reverse (skipped ++ rest))
              (delete victim (lines s)))
    | None =>
        match last (lru_order s) with
        | None => Fault Undefined
        | Some victim =>
            Ok (Some (lines_at INVALID (lines s) victim),
                install INVALID t (assoc s) (removelast (lru_order s))
                  (delete victim (lines s)))
        end
    end
  else Ok (None, install INVALID t (assoc s) (lru_order s) (lines s)).

Definition new (n : nat) (cs as_ bs : Z) : result MESISmartProtocol :=
  newProtocol n cs as_ bs.

(** "(Same as MESI)". *)
Definition handle_processor_request : MESISmartProtocol → Stats → nat → Z → bool →
    result (ProtocolResponse * MESISmartProtocol * Stats) :=
  MESI.handle_processor_request.

Definition handle_bus_transaction : MESISmartProtocol → Stats → nat →
    BusTransactionType → Z → result (Z * MESISmartProtocol * Stats) :=
  bus_transaction_with set_allocate.

Definition protocol : CoherenceProtocol MESISmartProtocol :=
  protocol_of INVALID is_shared (λ _, MODIFIED) BUS_RDX handle_bus_transaction.

(** ** Replacement *)

Lemma scan_clean_Some m l sk v rest :
  scan_clean m l = Some (sk, v, rest) →
  l = sk ++ v :: rest ∧ state (lines_at INVALID m v) ≠ MODIFIED ∧
  Forall (λ t, state (lines_at INVALID m t) = MODIFIED) sk.
Proof.
  revert sk v rest. induction l as [|t l IH]; intros sk v rest H; simpl in H; [done|].
  case_bool_decide as Hm; [|by simplify_eq].
  destruct (scan_clean m l) as [[[sk' v'] rest']|]; simplify_eq/=.
  destruct (IH _ _ _ eq_refl) as (-> & ? & ?). auto.
Qed.

Lemma scan_clean_None m l :
  scan_clean m l = None → Forall (λ t, state (lines_at INVALID m t) = MODIFIED) l.
Proof.
  induction l as [|t l IH]; intros H; simpl in H; [done|].
  case_bool_decide as Hm; [|done].
  destruct (scan_clean m l) as [[[]]|]; simplify_eq/=. auto.
Qed.

Lemma smart_set_allocate_ok : alloc_ok INVALID set_allocate.
Proof.
  intros t s Hwf. unfold set_allocate. destruct (Hwf) as [Ha Hl].
  destruct (bool_decide _) eqn:Hfull.
  - destruct (scan_clean _ _) as [[[sk v] rest]|] eqn:Hscan.
    + apply scan_clean_Some in Hscan as (Hrev & _ & _).
      edestruct (evict_ok INVALID t (assoc s) (lru_order s)) as (H1 & H2 & H3);
        [done|done| |eexists _, _; split_and!; [done|exact H1|exact H2|exact H3]].
      intros t' Ht' Hv. rewrite <- (reverse_involutive (lru_order s)), Hrev in Ht'.
      rewrite elem_of_reverse in *. set_solver.
    + destruct (CohCache.set_allocate_ok INVALID t s Hwf) as (ev & s' & H & Hrest).
      unfold CohCache.set_allocate in H. rewrite Hfull in H.
      destruct (last (lru_order s)); simplify_eq. by eexists _, _.
  - destruct (CohCache.set_allocate_ok INVALID t s Hwf) as (ev & s' & H & Hrest).
    unfold CohCache.set_allocate in H. rewrite Hfull in H. simplify_eq. by eexists _, _.
Qed.

Definition laws : @CoherenceProtocolLaws MESISmartProtocol protocol :=
  laws_with set_allocate smart_set_allocate_ok.

Lemma smart_new_ok n size as_ bs :
  0 < as_ → 0 < bs → as_ * bs ≤ size < 2 ^ 31 →
  ∃ p, new n size as_ bs = Ok p ∧ @proto_ok _ _ laws n p.
Proof. apply MESI.mesi_new_ok. Qed.

End MESI_SMART.
