(* ===== verification/CohMoesi.v ===== *)
(** * moesi_protocol.h: the MOESI protocol

    A dirty line is supplied by its owner (OWNED) without a write-back; only a
    supplier (M, E or O) makes a miss a cache-to-cache transfer. *)

From S2P Require Import Prelude CohDefs CohCache CohProto.

Module MOESI.

Inductive MOESIState := INVALID | SHARED | EXCLUSIVE | MODIFIED | OWNED.

#[global] Instance MOESIState_eq_dec : EqDecision MOESIState.
Proof. solve_decision. Defined.

Abbreviation MOESICache := (Cache MOESIState).
Abbreviation MOESIProtocol := (Protocol MOESIState).

Definition new (n : nat) (cs as_ bs : Z) : result MOESIProtocol :=
  newProtocol n cs as_ bs.

(** Writes to SHARED or OWNED require an upgrade, and hits in them count as
    shared. *)
Definition is_shared (st : MOESIState) : bool :=
  bool_decide (st = SHARED ∨ st = OWNED).

Definition handle_processor_request : MOESIProtocol → Stats → nat → Z → bool →
    result (ProtocolResponse * MOESIProtocol * Stats) :=
  processor_request INVALID is_shared (λ _, MODIFIED) BUS_RDX.

(** A snooped line in one of these states sets [supplier_found]. *)
Definition supplies (st : MOESIState) : bool :=
  bool_decide (st = MODIFIED ∨ st = EXCLUSIVE ∨ st = OWNED).

(** The body of the snooping loop; the flags are [shared_signal] and
    [supplier_found]. *)
Definition snoop_body (req_id : nat) (type : BusTransactionType) (i : nat)
    (st : MOESIState) (acc : Stats * (bool * bool))
    : result (MOESIState * (Stats * (bool * bool))) :=
  let '(w, (_, supplier_found)) := acc in
  let fl := (true, supplies st || supplier_found) in
  match type with
  | BUS_RDX | BUS_UPGR =>
      w1 ← on_core i inc_invalidations_received w;
      w2 ← on_core req_id inc_invalidations_sent w1;
      Ok (INVALID, (on_global inc_total_invalidations w2, fl))
  | BUS_RD =>
      Ok (if bool_decide (st = MODIFIED) then OWNED
          else if bool_decide (st = EXCLUSIVE) then SHARED else st, (w, fl))
  | _ => Ok (st, (w, fl))
  end.

(** Evicting one of these costs a write-back. *)
Definition dirty (st : option MOESIState) : bool :=
  bool_decide (st = Some MODIFIED ∨ st = Some OWNED).

Definition handle_bus_transaction (p : MOESIProtocol) (w : Stats) (req_id : nat)
    (type : BusTransactionType) (addr : Z) : result (Z * MOESIProtocol * Stats) :=
  '(p1, (w1, (shared_signal, supplier_found))) ←
    snoop_loop INVALID (snoop_body req_id type) req_id addr (seq 0 (num_cores p))
      (p, (w, (false, false)));
  match type with
  | WRITEBACK =>
      Ok (100, p1, on_global (add_traffic (block_size p)) (on_global inc_bus_writebacks w1))
  | BUS_UPGR =>
      c ← vget (caches p1) req_id;
      '(line, c1) ← get_line addr c;
      l ← deref line;
      c2 ← store_state c1 l MODIFIED;
      Ok (0, with_cache p1 req_id c2, on_global inc_bus_upgrades w1)
  | _ =>
      let latency := if (supplier_found : bool) then 1 + 2 * Z.quot (block_size p) 4
                     else 101 in
      let w2 := if supplier_found then on_global inc_cache_to_cache w1 else w1 in
      let w3 := on_global (add_traffic (block_size p)) w2 in
      let w4 := if bool_decide (type = BUS_RD) then on_global inc_bus_reads w3
                else on_global inc_bus_readx w3 in
      c ← vget (caches p1) req_id;
      '(l, evicted, c1) ← allocate INVALID addr c;
      let wb := dirty (evicted_state evicted) in
      let latency := if wb then latency + 100 else latency in
      let w5 := if wb then on_global (add_traffic (block_size p))
                             (on_global inc_bus_writebacks w4) else w4 in
      c2 ← store_state c1 l
             (if bool_decide (type = BUS_RD) then
                if (shared_signal : bool) then SHARED else EXCLUSIVE
              else MODIFIED);
      Ok (latency, with_cache p1 req_id c2, w5)
  end.

#[global] Instance protocol : CoherenceProtocol MOESIProtocol :=
  protocol_of INVALID is_shared (λ _, MODIFIED) BUS_RDX handle_bus_transaction.

(** ** Invariants *)

Definition exclusive (st : MOESIState) : Prop := st = EXCLUSIVE ∨ st = MODIFIED.

(** The states of which at most one copy exists. *)
Definition owner (st : MOESIState) : Prop :=
  st = EXCLUSIVE ∨ st = MODIFIED ∨ st = OWNED.

Definition snoop_to (type : BusTransactionType) (st : MOESIState) : MOESIState :=
  match type with
  | BUS_RDX | BUS_UPGR => INVALID
  | BUS_RD => if bool_decide (st = MODIFIED) then OWNED
              else if bool_decide (st = EXCLUSIVE) then SHARED else st
  | _ => st
  end.

Definition ok (g : geom) (n : nat) (p : MOESIProtocol) : Prop :=
  proto_wf g n p ∧ block_ok (block_size p) ∧ swmr INVALID exclusive p ∧ unique_owner owner p.

(** The state in which the requester ends up. *)
Definition fill_state (type : BusTransactionType) (shared : bool) : MOESIState :=
  match type with
  | BUS_RD => if shared then SHARED else EXCLUSIVE
  | _ => MODIFIED
  end.

Lemma moesi_exclusive_not_invalid : ¬ exclusive INVALID.
Proof. by intros [|]. Qed.

Lemma moesi_owner_not_invalid : ¬ owner INVALID.
Proof. by intros [|[|]]. Qed.

Lemma moesi_shared_or_exclusive st : st ≠ INVALID → is_shared st = false → exclusive st.
Proof. unfold exclusive. destruct st; try done; auto. Qed.

Lemma moesi_shared_or_owner st : st ≠ INVALID → is_shared st = false → owner st.
Proof. unfold owner. destruct st; try done; auto. Qed.

Lemma moesi_snoop_body_spec n req type i st w fl :
  (req < n)%nat → (i < n)%nat → length (c_stats w) = n →
  ∃ w', snoop_body req type i st (w, fl)
        = Ok (snoop_to type st, (w', (true, supplies st || fl.2))) ∧
        snoop_frame w w'.
Proof.
  intros Hr Hi Hw. unfold snoop_body, snoop_to. destruct fl as [sh sup].
  destruct type; try (eexists; done);
    destruct (invalidate_stats_spec n i req w Hw Hi Hr) as (w1 & w2 & H1 & H2 & Hf);
    rewrite H1; cbn; rewrite H2; eauto.
Qed.

Lemma moesi_ok_request g n k id wr r p p' :
  ok g n p → proto_wf g n p' → block_size p' = block_size p →
  request_effect INVALID is_shared (λ _, MODIFIED) BUS_RDX k id wr r p p' → ok g n p'.
Proof.
  intros (Hwf & Hb & Hsw & Hu) Hwf' Hb' Heff.
  split_and!; [done|by rewrite Hb'|..].
  - by eapply request_swmr; eauto using moesi_exclusive_not_invalid, moesi_shared_or_exclusive.
  - by eapply request_unique_owner; eauto using moesi_shared_or_owner.
Qed.

(** A served request: the other cores react, the requester gets the line, the
    data comes from a supplier or from memory, and a dirty victim costs a
    write-back. *)
Lemma moesi_hbt_spec g n p w req type addr :
  ok g n p → length (c_stats w) = n → (req < n)%nat → 0 ≤ addr →
  type ≠ NONE → type ≠ WRITEBACK →
  let k := locate_g g addr in
  (type = BUS_UPGR → is_Some (pst p req k)) →
  let others := snooped INVALID req p k (seq 0 n) in
  ∃ lat p' w' lost,
    handle_bus_transaction p w req type addr = Ok (lat, p', w') ∧
    proto_wf g n p' ∧ stats_frame w w' ∧
    served INVALID (snoop_to type) req k
      (fill_state type (bool_decide (others ≠ []))) lost p p' ∧
    lat = (if bool_decide (type = BUS_UPGR) then 0
           else (if existsb supplies others then 1 + 2 * Z.quot (block_size p) 4 else 101)
                + (if dirty lost then 100 else 0)) ∧
    bus_writebacks (g_stats w')
    = (if dirty lost then i32 (bus_writebacks (g_stats w) + 1)
       else bus_writebacks (g_stats w)).
Proof.
  intros (Hwf & Hb & _) Hw Hreq Ha Hnone Hwbk k Hup others.
  unfold handle_bus_transaction. rewrite (proj1 Hwf).
  assert (∀ i st w fl, (i < n)%nat → length (c_stats w) = n →
    ∃ w', snoop_body req type i st (w, fl)
          = Ok (snoop_to type st, (w', (true, supplies st || fl.2))) ∧
          snoop_frame w w') as Hreact by (intros; by eapply moesi_snoop_body_spec).
  destruct (decide (type = BUS_UPGR)) as [->|Htype].
  - destruct (serve_upgrade INVALID _ _ (λ st fl, (true, supplies st || fl.2)) g n req
                Hreact Hreq p w (false, false) addr Hwf Hw Ha (Hup eq_refl))
      as (p1 & w1 & Hloop & Hfr & c & c1 & Hc & Hg & Hstore).
    destruct (Hstore MODIFIED) as (c2 & H2 & Hwf2 & Hsv).
    rewrite Hloop, foldl_flags. cbn. unfold vget. rewrite Hc. cbn. rewrite Hg. cbn.
    rewrite H2. cbn. eexists _, _, _, None. split_and!; try done.
    + etrans; [apply Hfr|]. auto with model.
    + destruct Hfr as [_ Hc0]. by injection Hc0.
  - destruct (serve_fill INVALID _ _ (λ st fl, (true, supplies st || fl.2)) g n req
                Hreact Hreq p w (false, false) addr Hwf Hw Ha _ (set_allocate_ok INVALID))
      as (p1 & w1 & Hloop & Hfr & c & ev & c1 & Hc & Hal & Hstore).
    destruct (Hstore (fill_state type (bool_decide (others ≠ [])))) as (c2 & H2 & Hwf2 & Hsv).
    assert (bus_writebacks (g_stats w1) = bus_writebacks (g_stats w)) as Hwb1.
    { destruct Hfr as [_ Hc0]. by injection Hc0. }
    rewrite Hloop, foldl_flags. fold k. fold others. fold k in Hal, H2, Hsv. unfold allocate.
    revert H2 Hsv. generalize (bool_decide (others ≠ [])) (existsb supplies others).
    intros sh sup H2 Hsv. clearbody k. cbn.
    exists (if dirty (evicted_state ev)
            then (if sup then 1 + 2 * Z.quot (block_size p) 4 else 101) + 100
            else (if sup then 1 + 2 * Z.quot (block_size p) 4 else 101)).
    unfold vget. destruct type; try done; rewrite Hc; cbn; rewrite Hal; bd_simpl;
      cbn in H2; rewrite H2; cbn;
      destruct sup, (dirty (evicted_state ev)) eqn:Hev;
      eexists _, _, (evicted_state ev);
      (split_and!; [done|done|etrans; [apply Hfr|done]|done|
                    rewrite ?Hev; bd_simpl; lia|rewrite Hev; cbn; by rewrite Hwb1]).
Qed.

Lemma moesi_bus_ok g n p w req type addr :
  ok g n p → length (c_stats w) = n → (req < n)%nat → 0 ≤ addr →
  type = BUS_RD ∨ type = BUS_RDX ∨ type = BUS_UPGR ∧ held p req addr →
  ∃ lat p' w',
    handle_bus_transaction p w req type addr = Ok (lat, p', w') ∧
    ok g n p' ∧ stats_frame w w' ∧ latency_ok lat ∧
    (∀ j a, j ≠ req → held p j a → held p' j a).
Proof.
  intros Hok Hw Hreq Ha Htype.
  assert (type ≠ NONE ∧ type ≠ WRITEBACK) as [Hn Hwb] by naive_solver.
  destruct (moesi_hbt_spec g n p w req type addr Hok Hw Hreq Ha Hn Hwb)
    as (lat & p' & w' & lost & H & Hwf' & Hfr & Hsv & Hlat & _).
  { intros Ht. apply (held_iff g n p); [apply Hok|]. destruct Htype as [|[|[_ ?]]]; [congruence..|done]. }
  destruct Hok as (Hwf & Hb & Hsw & Hu). exists lat, p', w'.
  set (k := locate_g g addr) in *.
  assert (snooped INVALID req p k (seq 0 n) = [] ∨ type ≠ BUS_RD →
    ∀ j, j ≠ req → no_copy INVALID (snoop_state INVALID (snoop_to type) (pst p j k)))
    as Hnone.
  { intros [Hs|Ht] j Hj.
    - destruct (not_snooped_no_copy INVALID g n req p _ Hwf Hs j Hj) as [-> | ->];
        [by left|by right].
    - unfold snoop_state. destruct (pst p j k) as [st|]; [right|by left].
      by destruct type, st. }
  split_and!; [done| |done|..].
  - split_and!; [done|by rewrite (proj1 Hsv)|..].
    + eapply served_swmr; [done..|apply moesi_exclusive_not_invalid| |].
      * unfold snoop_to. intros st. destruct type, st; try done; bd_simpl; by intros [].
      * intros He. apply Hnone. destruct type; try by right.
        simpl in He. case_bool_decide; [by destruct He|by left].
    + eapply served_unique_owner; [done..|apply moesi_owner_not_invalid|].
      destruct (decide (snooped INVALID req p k (seq 0 n) = [] ∨ type ≠ BUS_RD))
        as [Hd|Hd].
      * left. intros j Hj st' Hst'. destruct (Hnone Hd j Hj) as [E|E];
          rewrite E in Hst'; simplify_eq. apply moesi_owner_not_invalid.
      * right. assert (type = BUS_RD) as ->.
        { destruct type; [done|exfalso; apply Hd; by right..]. }
        split.
        { simpl. rewrite bool_decide_true; [by intros [|[]]|]. intros E. apply Hd. by left. }
        intros j st' Hj Hst' Ho. unfold snoop_state in Hst'.
        destruct (pst p j k) as [st|]; [|done]. exists st. split; [done|].
        unfold owner in *. destruct st; simpl in Hst'; bd_simpl;
          simplify_eq/=; naive_solver.
  - subst lat. pose proof (block_latency _ Hb). unfold latency_ok.
    repeat case_match; lia.
  - intros j a Hj. by eapply served_held.
Qed.

#[global] Instance laws : CoherenceProtocolLaws MOESIProtocol.
Proof.
  apply (protocol_laws INVALID is_shared (λ _, MODIFIED) BUS_RDX handle_bus_transaction ok);
    [by right|by intros ??? []|apply moesi_ok_request|apply moesi_bus_ok].
Defined.

Lemma moesi_new_ok n size as_ bs :
  0 < as_ → 0 < bs → as_ * bs ≤ size < 2 ^ 31 →
  ∃ p, new n size as_ bs = Ok p ∧ proto_ok n p.
Proof.
  intros Ha Hb Hs. assert (bs < 2 ^ 31) as Hbs31 by nia.
  destruct (newProtocol_spec (St := MOESIState) n size as_ bs Ha Hb Hs)
    as (p & g & H & Hwf & Hbs & Hst).
  exists p. split; [done|]. exists g. split_and!; [done|unfold block_ok; lia|..].
  - intros i j k st _ Hi. by rewrite Hst in Hi.
  - intros i j k st st' Hi. by rewrite Hst in Hi.
Qed.

End MOESI.
