(* ===== verification/CohDragon.v ===== *)
(** * dragon_protocol.h: the Dragon update protocol

    Writes to shared lines broadcast an update ([BUS_UPGR]) instead of
    invalidating; the last writer of a shared line is its owner
    (SHARED_MODIFIED). *)

From S2P Require Import Prelude CohDefs CohCache CohProto.

Module Dragon.

Inductive DragonState := INVALID | SHARED_CLEAN | SHARED_MODIFIED | EXCLUSIVE | MODIFIED.

#[global] Instance DragonState_eq_dec : EqDecision DragonState.
Proof. solve_decision. Defined.

Abbreviation DragonCache := (Cache DragonState).
Abbreviation DragonProtocol := (Protocol DragonState).

Definition new (n : nat) (cs as_ bs : Z) : result DragonProtocol :=
  newProtocol n cs as_ bs.

(** A write to one of these needs a bus update. *)
Definition is_shared (st : DragonState) : bool :=
  bool_decide (st = SHARED_CLEAN ∨ st = SHARED_MODIFIED).

(** A write to a private line: EXCLUSIVE becomes MODIFIED. *)
Definition on_write (st : DragonState) : DragonState :=
  if bool_decide (st = EXCLUSIVE) then MODIFIED else st.

(** A miss always reads, a write miss too. *)
Definition handle_processor_request : DragonProtocol → Stats → nat → Z → bool →
    result (ProtocolResponse * DragonProtocol * Stats) :=
  processor_request INVALID is_shared on_write BUS_RD.

(** The body of the snooping loop; the flag is [shared_signal], and the
    invalidation counters track updates. *)
Definition snoop_body (type : BusTransactionType) (i : nat)
    (st : DragonState) (acc : Stats * bool) : result (DragonState * (Stats * bool)) :=
  let '(w, _) := acc in
  match type with
  | BUS_UPGR =>
      w1 ← on_core i inc_invalidations_received w;
      Ok (if bool_decide (st = SHARED_MODIFIED) then SHARED_CLEAN else st,
          (on_global inc_total_invalidations w1, true))
  | BUS_RD =>
      Ok (if bool_decide (st = EXCLUSIVE) then SHARED_CLEAN
          else if bool_decide (st = MODIFIED) then SHARED_MODIFIED else st, (w, true))
  | _ => Ok (st, (w, true))
  end.

(** MODIFIED and SHARED_MODIFIED lines are dirty. *)
Definition dirty (st : option DragonState) : bool :=
  bool_decide (st = Some MODIFIED ∨ st = Some SHARED_MODIFIED).

Definition handle_bus_transaction (p : DragonProtocol) (w : Stats) (req_id : nat)
    (type : BusTransactionType) (addr : Z) : result (Z * DragonProtocol * Stats) :=
  '(p1, (w1, shared_signal)) ←
    snoop_loop INVALID (snoop_body type) req_id addr (seq 0 (num_cores p)) (p, (w, false));
  match type with
  | WRITEBACK =>
      Ok (100, p1, on_global (add_traffic (block_size p)) (on_global inc_bus_writebacks w1))
  | BUS_UPGR =>
      c ← vget (caches p1) req_id;
      '(line, c1) ← get_line addr c;
      l ← deref line;
      c2 ← store_state c1 l (if (shared_signal : bool) then SHARED_MODIFIED else MODIFIED);
      Ok (2, with_cache p1 req_id c2, on_global (add_traffic 4) (on_global inc_bus_upgrades w1))
  | _ =>
      let latency := if (shared_signal : bool) then 1 + 2 * Z.quot (block_size p) 4
                     else 101 in
      let w2 := if shared_signal then on_global inc_cache_to_cache w1 else w1 in
      let w3 := on_global inc_bus_reads (on_global (add_traffic (block_size p)) w2) in
      c ← vget (caches p1) req_id;
      '(l, evicted, c1) ← allocate INVALID addr c;
      let wb := dirty (evicted_state evicted) in
      let latency := if wb then latency + 100 else latency in
      let w5 := if wb then on_global (add_traffic (block_size p))
                             (on_global inc_bus_writebacks w3) else w3 in
      c2 ← store_state c1 l (if shared_signal then SHARED_CLEAN else EXCLUSIVE);
      Ok (latency, with_cache p1 req_id c2, w5)
  end.

#[global] Instance protocol : CoherenceProtocol DragonProtocol :=
  protocol_of INVALID is_shared on_write BUS_RD handle_bus_transaction.

(** ** Invariants *)

Definition exclusive (st : DragonState) : Prop := st = EXCLUSIVE ∨ st = MODIFIED.

(** The states of which at most one copy exists. *)
Definition owner (st : DragonState) : Prop :=
  st = EXCLUSIVE ∨ st = MODIFIED ∨ st = SHARED_MODIFIED.

(** An update protocol invalidates nothing. *)
Definition never_invalid (p : DragonProtocol) : Prop := ∀ i k, pst p i k ≠ Some INVALID.

Definition snoop_to (type : BusTransactionType) (st : DragonState) : DragonState :=
  match type with
  | BUS_UPGR => if bool_decide (st = SHARED_MODIFIED) then SHARED_CLEAN else st
  | BUS_RD => if bool_decide (st = EXCLUSIVE) then SHARED_CLEAN
              else if bool_decide (st = MODIFIED) then SHARED_MODIFIED else st
  | _ => st
  end.

Definition ok (g : geom) (n : nat) (p : DragonProtocol) : Prop :=
  proto_wf g n p ∧ block_ok (block_size p) ∧ swmr INVALID exclusive p ∧
  unique_owner owner p ∧ never_invalid p.

(** The state in which the requester ends up. *)
Definition fill_state (type : BusTransactionType) (shared : bool) : DragonState :=
  match type with
  | BUS_UPGR => if shared then SHARED_MODIFIED else MODIFIED
  | _ => if shared then SHARED_CLEAN else EXCLUSIVE
  end.

Lemma dragon_exclusive_not_invalid : ¬ exclusive INVALID.
Proof. by intros [|]. Qed.

Lemma dragon_owner_not_invalid : ¬ owner INVALID.
Proof. by intros [|[|]]. Qed.

Lemma dragon_shared_or_exclusive st : st ≠ INVALID → is_shared st = false → exclusive st.
Proof. unfold exclusive. destruct st; try done; auto. Qed.

Lemma dragon_shared_or_owner st : st ≠ INVALID → is_shared st = false → owner st.
Proof. unfold owner. destruct st; try done; auto. Qed.

Lemma dragon_snoop_body_spec n type i st w fl :
  (i < n)%nat → length (c_stats w) = n →
  ∃ w', snoop_body type i st (w, fl) = Ok (snoop_to type st, (w', true)) ∧
        snoop_frame w w'.
Proof.
  intros Hi <-. unfold snoop_body, snoop_to.
  destruct type; try (eexists; done).
  destruct (on_core_snoop_frame i inc_invalidations_received w) as (w1 & H1 & Hf1);
    [done|done|].
  rewrite H1. cbn. eexists. split; [done|]. by etrans.
Qed.

Lemma dragon_ok_request g n k id wr r p p' :
  ok g n p → proto_wf g n p' → block_size p' = block_size p →
  request_effect INVALID is_shared on_write BUS_RD k id wr r p p' → ok g n p'.
Proof.
  intros (Hwf & Hb & Hsw & Hu & Hni) Hwf' Hb' Heff.
  split_and!; [done|by rewrite Hb'|..].
  - by eapply request_swmr; eauto using dragon_exclusive_not_invalid, dragon_shared_or_exclusive.
  - by eapply request_unique_owner; eauto using dragon_shared_or_owner.
  - intros i k'. destruct Heff as [_ ->]. destruct (decide _); [|done].
    specialize (Hni i k'). by destruct (pst p i k') as [[]|].
Qed.

Lemma dragon_hbt_spec g n p w req type addr :
  ok g n p → length (c_stats w) = n → (req < n)%nat → 0 ≤ addr →
  type = BUS_RD ∨ type = BUS_UPGR →
  let k := locate_g g addr in
  (type = BUS_UPGR → is_Some (pst p req k)) →
  let shared := bool_decide (snooped INVALID req p k (seq 0 n) ≠ []) in
  ∃ lat p' w' lost,
    handle_bus_transaction p w req type addr = Ok (lat, p', w') ∧
    proto_wf g n p' ∧ stats_frame w w' ∧
    served INVALID (snoop_to type) req k (fill_state type shared) lost p p' ∧
    lat = (if bool_decide (type = BUS_UPGR) then 2
           else (if shared then 1 + 2 * Z.quot (block_size p) 4 else 101)
                + (if dirty lost then 100 else 0)) ∧
    bus_writebacks (g_stats w')
    = (if dirty lost then i32 (bus_writebacks (g_stats w) + 1)
       else bus_writebacks (g_stats w)).
Proof.
  intros (Hwf & Hb & _) Hw Hreq Ha Htype k Hup shared.
  unfold handle_bus_transaction. rewrite (proj1 Hwf).
  assert (∀ i st w fl, (i < n)%nat → length (c_stats w) = n →
    ∃ w', snoop_body type i st (w, fl) = Ok (snoop_to type st, (w', true)) ∧
          snoop_frame w w') as Hreact by (intros; by eapply dragon_snoop_body_spec).
  destruct Htype as [-> | ->].
  - destruct (serve_fill INVALID _ _ (λ _ _, true) g n req Hreact Hreq p w false addr
                Hwf Hw Ha _ (set_allocate_ok INVALID))
      as (p1 & w1 & Hloop & Hfr & c & ev & c1 & Hc & Hal & Hstore).
    destruct (Hstore (fill_state BUS_RD shared)) as (c2 & H2 & Hwf2 & Hsv).
    assert (bus_writebacks (g_stats w1) = bus_writebacks (g_stats w)) as Hwb1.
    { destruct Hfr as [_ Hc0]. by injection Hc0. }
    rewrite Hloop, foldl_shared. cbn [orb]. fold k. fold shared. unfold allocate.
    fold k in Hal, H2, Hsv. clearbody shared k. unfold vget. cbn.
    rewrite Hc. cbn. rewrite Hal. bd_simpl. cbn in H2. rewrite H2. cbn.
    destruct shared, (dirty (evicted_state ev)) eqn:Hev;
      eexists _, _, _, (evicted_state ev);
      (split_and!; [done|done|etrans; [apply Hfr|done]|done|
                    rewrite ?Hev; bd_simpl; lia|rewrite Hev; cbn; by rewrite Hwb1]).
  - destruct (serve_upgrade INVALID _ _ (λ _ _, true) g n req Hreact Hreq p w false addr
                Hwf Hw Ha (Hup eq_refl))
      as (p1 & w1 & Hloop & Hfr & c & c1 & Hc & Hg & Hstore).
    destruct (Hstore (fill_state BUS_UPGR shared)) as (c2 & H2 & Hwf2 & Hsv).
    rewrite Hloop, foldl_shared. cbn [orb]. fold k. fold shared.
    fold k in Hg, H2, Hsv. clearbody shared k. unfold vget. cbn.
    rewrite Hc. cbn. rewrite Hg. cbn. cbn in H2. rewrite H2. cbn.
    eexists _, _, _, None. split_and!; try done.
    + etrans; [apply Hfr|done].
    + destruct Hfr as [_ Hc0]. by injection Hc0.
Qed.

Lemma dragon_bus_ok g n p w req type addr :
  ok g n p → length (c_stats w) = n → (req < n)%nat → 0 ≤ addr →
  type = BUS_RD ∨ type = BUS_RD ∨ type = BUS_UPGR ∧ held p req addr →
  ∃ lat p' w',
    handle_bus_transaction p w req type addr = Ok (lat, p', w') ∧
    ok g n p' ∧ stats_frame w w' ∧ latency_ok lat ∧
    (∀ j a, j ≠ req → held p j a → held p' j a).
Proof.
  intros Hok Hw Hreq Ha Htype.
  set (k := locate_g g addr).
  assert (type = BUS_UPGR → is_Some (pst p req k)) as Hheld.
  { intros Ht. apply (held_iff g n p); [apply Hok|].
    destruct Htype as [|[|[_ ?]]]; [congruence..|done]. }
  destruct (dragon_hbt_spec g n p w req type addr Hok Hw Hreq Ha)
    as (lat & p' & w' & lost & H & Hwf' & Hfr & Hsv & Hlat & _);
    [naive_solver|done|]. fold k in Hsv, Hlat.
  destruct Hok as (Hwf & Hb & Hsw & Hu & Hni). exists lat, p', w'.
  (* a requester that holds the line excludes exclusive copies elsewhere *)
  assert (∀ j st, type = BUS_UPGR → j ≠ req → pst p j k = Some st → ¬ exclusive st)
    as Hup.
  { intros j st Ht Hj Hst He. destruct (Hheld Ht) as [st0 Hst0].
    destruct (Hsw j req k st Hj Hst He) as [E|E]; [congruence|]. by apply (Hni req k). }
  assert (snooped INVALID req p k (seq 0 n) = [] → ∀ j, j ≠ req → pst p j k = None)
    as Hnone.
  { intros Hs j Hj. destruct (not_snooped_no_copy INVALID g n req p _ Hwf Hs j Hj)
      as [E|E]; [done|]. by apply Hni in E. }
  assert (∀ j st', j ≠ req → pst p' j k = Some st' → ∃ st, pst p j k = Some st ∧
            st' = snoop_to type st ∧ st ≠ INVALID) as Hother.
  { intros j st' Hj Hst'. destruct Hsv as (_ & Hoth & _). rewrite Hoth in Hst' by done.
    unfold snoop_state in Hst'. destruct (pst p j k) as [st|] eqn:E; [|done].
    exists st. simpl in Hst'.
    destruct (decide (st = INVALID)) as [->|]; [by apply Hni in E|]. by simplify_eq. }
  assert (type = BUS_RD ∨ type = BUS_UPGR) as Htype' by naive_solver.
  split_and!; [done| |done| |].
  - split_and!; [done|by rewrite (proj1 Hsv)|..].
    + (* single writer *)
      intros i j k' st Hij Hi He. destruct (decide (k' = k)) as [->|Hk]; last first.
      { destruct (served_others _ _ _ _ _ _ _ _ Hsv j k' Hk) as [-> | ->]; [|by left].
        destruct (served_others _ _ _ _ _ _ _ _ Hsv i k' Hk) as [E|E];
          rewrite E in Hi; [by eapply Hsw|done]. }
      destruct (decide (i = req)) as [->|Hir].
      * destruct (pst p' j k) as [stj|] eqn:Hj; [|by left].
        destruct (Hother j stj (not_eq_sym Hij) Hj) as (st0 & H0 & _ & _).
        destruct Hsv as (_ & _ & Hreq' & _). rewrite Hreq' in Hi. simplify_eq.
        exfalso. unfold fill_state in He.
        case_bool_decide as Hs.
        { destruct Htype' as [-> | ->]; by destruct He. }
        rewrite (Hnone Hs j) in H0 by done. done.
      * exfalso. destruct (Hother i st Hir Hi) as (st0 & H0 & -> & _).
        destruct Htype' as [-> | ->].
        { destruct st0; simpl in He; bd_simpl; destruct He as [He|He]; try done;
            by rewrite ?bool_decide_true, ?bool_decide_false in He by done. }
        apply (Hup i st0 eq_refl Hir H0). destruct st0; try done; by destruct He.
    + (* one owner *)
      eapply served_unique_owner; [done..|apply dragon_owner_not_invalid|].
      destruct Htype' as [-> | ->].
      * destruct (decide (snooped INVALID req p k (seq 0 n) = [])) as [Hs|Hs].
        { left. intros j Hj st'. by rewrite (Hnone Hs j Hj). }
        right. split; [rewrite bool_decide_true by done; by intros [|[|]]|].
        intros j st' Hj Hst' Ho. unfold snoop_state in Hst'.
        destruct (pst p j k) as [st|] eqn:E; [|done]. exists st. split; [done|].
        unfold owner in *. destruct st; simpl in Hst'; simplify_eq; naive_solver.
      * left. intros j Hj st' Hst'. unfold snoop_state in Hst'.
        destruct (pst p j k) as [st|] eqn:E; [|done].
        pose proof (Hup j st eq_refl Hj E) as Hne. unfold owner, exclusive in *.
        destruct st; simpl in Hst'; simplify_eq; naive_solver.
    + intros i k' Hi. destruct (decide (k' = k)) as [->|Hk]; last first.
      { destruct (served_others _ _ _ _ _ _ _ _ Hsv i k' Hk) as [E|E];
          rewrite E in Hi; [by apply Hni in Hi|done]. }
      destruct (decide (i = req)) as [->|Hir].
      * destruct Hsv as (_ & _ & Hreq' & _). rewrite Hreq' in Hi.
        destruct Htype' as [-> | ->]; simpl in Hi; by case_bool_decide.
      * destruct (Hother i INVALID Hir Hi) as (st0 & _ & H1 & H2).
        destruct Htype' as [-> | ->], st0; done.
  - subst lat. pose proof (block_latency _ Hb). unfold latency_ok.
    repeat case_match; lia.
  - intros j a Hj. by eapply served_held.
Qed.

#[global] Instance laws : CoherenceProtocolLaws DragonProtocol.
Proof.
  apply (protocol_laws INVALID is_shared on_write BUS_RD handle_bus_transaction ok);
    [by left|by intros ??? []|apply dragon_ok_request|apply dragon_bus_ok].
Defined.

Lemma dragon_new_ok n size as_ bs :
  0 < as_ → 0 < bs → as_ * bs ≤ size < 2 ^ 31 →
  ∃ p, new n size as_ bs = Ok p ∧ proto_ok n p.
Proof.
  intros Ha Hb Hs. assert (bs < 2 ^ 31) as Hbs31 by nia.
  destruct (newProtocol_spec (St := DragonState) n size as_ bs Ha Hb Hs)
    as (p & g & H & Hwf & Hbs & Hst).
  exists p. split; [done|]. exists g. split_and!; [done|unfold block_ok; lia|..].
  - intros i j k st _ Hi. by rewrite Hst in Hi.
  - intros i j k st st' Hi. by rewrite Hst in Hi.
  - intros i k. by rewrite Hst.
Qed.

End Dragon.
