(* ===== verification/CohSim.v ===== *)
(** * coherence_simulator.cpp: the discrete event simulator

    The events, the event queue, the bus arbiter and the main loop, over any
    protocol that implements [CoherenceProtocol].  The priority queue of the
    source orders events by time stamp and event priority and leaves ties
    unspecified, so one iteration of the loop is a step relation that may take
    any minimal event; [run_loop] is the executable loop, which takes the first.

    A trace file is the list of the (label, value) pairs that the stream
    extractions of [FetchEvent::execute] would read from it. *)

From S2P Require Import Prelude CohDefs.

(** ** Events *)

(** [core_id] is only meaningful for the last two; the sources set it to -1 in
    the others. *)
Inductive Event :=
  | BusReleaseEvent (timestamp : Z)
  | BusArbitrationEvent (timestamp : Z)
  | CoreUnblockEvent (timestamp : Z) (core_id : nat)
  | FetchEvent (timestamp : Z) (core_id : nat).

Definition timestamp (e : Event) : Z :=
  match e with
  | BusReleaseEvent t | BusArbitrationEvent t
  | CoreUnblockEvent t _ | FetchEvent t _ => t
  end.

Definition get_priority (e : Event) : Z :=
  match e with
  | BusReleaseEvent _ => 0
  | BusArbitrationEvent _ => 1
  | CoreUnblockEvent _ _ => 2
  | FetchEvent _ _ => 3
  end.

(** [EventComparator(a, b)]: [a] comes out of the queue after [b]. *)
Definition EventComparator (a b : Event) : bool :=
  if bool_decide (timestamp a ≠ timestamp b) then timestamp b <? timestamp a
  else get_priority b <? get_priority a.

(** ** Bus requests *)

Record BusRequest := mkRequest {
  core_id : nat;
  type : BusTransactionType;
  addr : Z;
  arrival_time : Z
}.

(** The comparison of the arbiter; [read_priority] is the macro READ_PRIORITY. *)
Definition request_before (read_priority : bool) (a b : BusRequest) : bool :=
  let a_is_read := bool_decide (type a = BUS_RD) in
  let b_is_read := bool_decide (type b = BUS_RD) in
  if read_priority && negb (Bool.eqb a_is_read b_is_read) then a_is_read
  else if bool_decide (arrival_time a ≠ arrival_time b)
       then arrival_time a <? arrival_time b
       else (core_id a <? core_id b)%nat.

(** [std::min_element]: the position of the first smallest element. *)
Fixpoint min_element_from (lt : BusRequest → BusRequest → bool) (it smallest : nat)
    (best : BusRequest) (l : list BusRequest) : nat * BusRequest :=
  match l with
  | [] => (smallest, best)
  | r :: l =>
      if lt r best then min_element_from lt (S it) it r l
      else min_element_from lt (S it) smallest best l
  end.

Definition min_element (lt : BusRequest → BusRequest → bool) (l : list BusRequest)
    : option (nat * BusRequest) :=
  match l with
  | [] => None
  | r :: l => Some (min_element_from lt 1 0 r l)
  end.

Definition erase {A} (i : nat) (l : list A) : list A := take i l ++ drop (S i) l.

(** ** The simulator *)

Record Simulator (P : Type) := mkSim {
  events : list Event;
  current_time : Z;
  protocol : P;
  blocked : list bool;
  traces : list (list (Z * Z));
  trace_exhausted : list bool;
  bus_queue : list BusRequest;
  bus_busy : bool;
  stats : Stats;
  num_cores : nat
}.
Arguments mkSim {P} _ _ _ _ _ _ _ _ _ _.
Arguments events {P} _.
Arguments current_time {P} _.
Arguments protocol {P} _.
Arguments blocked {P} _.
Arguments traces {P} _.
Arguments trace_exhausted {P} _.
Arguments bus_queue {P} _.
Arguments bus_busy {P} _.
Arguments stats {P} _.
Arguments num_cores {P} _.

Section Simulator.
Context {P : Type} `{CoherenceProtocol P} (read_priority : bool).

(** [event_queue.schedule]. *)
Definition schedule (e : Event) (s : Simulator P) : Simulator P :=
  mkSim (e :: events s) (current_time s) (protocol s) (blocked s) (traces s)
    (trace_exhausted s) (bus_queue s) (bus_busy s) (stats s) (num_cores s).

Definition set_queue (q : list BusRequest) (s : Simulator P) : Simulator P :=
  mkSim (events s) (current_time s) (protocol s) (blocked s) (traces s)
    (trace_exhausted s) q (bus_busy s) (stats s) (num_cores s).

Definition set_busy (b : bool) (s : Simulator P) : Simulator P :=
  mkSim (events s) (current_time s) (protocol s) (blocked s) (traces s)
    (trace_exhausted s) (bus_queue s) b (stats s) (num_cores s).

Definition set_blocked (bl : list bool) (s : Simulator P) : Simulator P :=
  mkSim (events s) (current_time s) (protocol s) bl (traces s)
    (trace_exhausted s) (bus_queue s) (bus_busy s) (stats s) (num_cores s).

Definition set_traces (t : list (list (Z * Z))) (s : Simulator P) : Simulator P :=
  mkSim (events s) (current_time s) (protocol s) (blocked s) t
    (trace_exhausted s) (bus_queue s) (bus_busy s) (stats s) (num_cores s).

Definition set_exhausted (x : list bool) (s : Simulator P) : Simulator P :=
  mkSim (events s) (current_time s) (protocol s) (blocked s) (traces s)
    x (bus_queue s) (bus_busy s) (stats s) (num_cores s).

Definition set_protocol (p : P) (w : Stats) (s : Simulator P) : Simulator P :=
  mkSim (events s) (current_time s) p (blocked s) (traces s)
    (trace_exhausted s) (bus_queue s) (bus_busy s) w (num_cores s).

(** [BusReleaseEvent::execute]. *)
Definition execute_release (ts : Z) (s : Simulator P) : result (Simulator P) :=
  let s := set_busy false s in
  Ok (match bus_queue s with
      | [] => s
      | _ => schedule (BusArbitrationEvent ts) s
      end).

(** [BusArbitrationEvent::execute]. *)
Definition execute_arbitration (ts : Z) (s : Simulator P) : result (Simulator P) :=
  if bus_busy s then Ok s else
  match min_element (request_before read_priority) (bus_queue s) with
  | None => Ok s
  | Some (it, req) =>
      let s := set_busy true (set_queue (erase it (bus_queue s)) s) in
      '(latency, p, w) ←
        handle_bus_transaction (protocol s) (stats s) (core_id req) (type req) (addr req);
      let s := schedule (BusReleaseEvent (u64 (ts + latency))) (set_protocol p w s) in
      Ok (if bool_decide (type req ≠ WRITEBACK)
          then schedule (CoreUnblockEvent (u64 (ts + latency)) (core_id req)) s else s)
  end.

(** [CoreUnblockEvent::execute]. *)
Definition execute_unblock (ts : Z) (core : nat) (s : Simulator P)
    : result (Simulator P) :=
  bl ← vset (blocked s) core false;
  Ok (schedule (FetchEvent ts core) (set_blocked bl s)).

(** A memory access: the part of [FetchEvent::execute] for labels other than 2. *)
Definition execute_access (ts : Z) (core : nat) (label val : Z) (s : Simulator P)
    : result (Simulator P) :=
  let is_write := bool_decide (label = 1) in
  w ← on_core core (if is_write then inc_store_count else inc_load_count) (stats s);
  '(resp, p, w) ← handle_processor_request (protocol s) w core val is_write;
  let s := set_protocol p w s in
  if is_hit resp && bool_decide (bus_action resp = NONE) then
    w ← on_core core inc_cache_hits (stats s);
    Ok (schedule (FetchEvent (u64 (ts + 1)) core) (set_protocol (protocol s) w s))
  else
    w ← on_core core inc_cache_misses (stats s);
    bl ← vset (blocked s) core true;
    let s := set_blocked bl (set_protocol (protocol s) w s) in
    let s := set_queue (bus_queue s ++ [mkRequest core (bus_action resp) val ts]) s in
    Ok (if bus_busy s then s else schedule (BusArbitrationEvent ts) s).

(** [FetchEvent::execute]. *)
Definition execute_fetch (ts : Z) (core : nat) (s : Simulator P)
    : result (Simulator P) :=
  b ← vget (blocked s) core;
  if (b : bool) then Ok s else
  trace ← vget (traces s) core;
  match trace with
  | [] =>
      x ← vset (trace_exhausted s) core true;
      Ok (set_exhausted x s)
  | (label, val) :: rest =>
      tr ← vset (traces s) core rest;
      let s := set_traces tr s in
      if bool_decide (label = 2) then
        w ← on_core core (add_compute_cycles val) (stats s);
        Ok (schedule (FetchEvent (u64 (ts + val)) core) (set_protocol (protocol s) w s))
      else execute_access ts core label val s
  end.

(** [event->execute(sim)]. *)
Definition execute (e : Event) (s : Simulator P) : result (Simulator P) :=
  match e with
  | BusReleaseEvent ts => execute_release ts s
  | BusArbitrationEvent ts => execute_arbitration ts s
  | CoreUnblockEvent ts core => execute_unblock ts core s
  | FetchEvent ts core => execute_fetch ts core s
  end.

(** [process_next] once the event [e] is taken, [rest] being left. *)
Definition dispatch (e : Event) (rest : list Event) (s : Simulator P)
    : result (Simulator P) :=
  execute e (mkSim rest (timestamp e) (protocol s) (blocked s) (traces s)
               (trace_exhausted s) (bus_queue s) (bus_busy s) (stats s) (num_cores s)).

(** The condition under which the loop of [run] breaks. *)
Definition finished (s : Simulator P) : bool :=
  forallb (λ b, b) (trace_exhausted s) && forallb negb (blocked s) &&
  negb (bus_busy s) && bool_decide (bus_queue s = []).

(** An event the priority queue may deliver. *)
Definition minimal (e : Event) (rest : list Event) : Prop :=
  Forall (λ e', EventComparator e e' = false) rest.

(** One iteration of the loop of [run]: it goes on from a state in which the
    condition did not hold.  Before the first iteration the source does not
    test it, and it is false as soon as there is a core. *)
Inductive step (s s' : Simulator P) : Prop :=
  | step_event e rest :
      finished s = false →
      events s ≡ₚ e :: rest → minimal e rest → dispatch e rest s = Ok s' → step s s'.

(** The first minimal event of the list, and the others. *)
Fixpoint pop (l : list Event) : option (Event * list Event) :=
  match l with
  | [] => None
  | e :: l =>
      match pop l with
      | None => Some (e, [])
      | Some (e', l') =>
          if EventComparator e e' then Some (e', e :: l') else Some (e, e' :: l')
      end
  end.

Fixpoint run_loop (fuel : nat) (s : Simulator P) : result (Simulator P) :=
  match fuel with
  | O => Fault OutOfFuel
  | S fuel =>
      match pop (events s) with
      | None => Ok s
      | Some (e, rest) =>
          s' ← dispatch e rest s;
          if finished s' then Ok s' else run_loop fuel s'
      end
  end.

(** The constructor and the fetches [run] schedules before its loop. *)
Definition initial (n : nat) (p : P) (tr : list (list (Z * Z))) : Simulator P :=
  mkSim (FetchEvent 0 <$> reverse (seq 0 n)) 0 p (replicate n false) tr
    (replicate n false) [] false
    (mkStats GlobalStatistics_init (replicate n Statistics_init)) n.

Definition run (fuel : nat) (n : nat) (p : P) (tr : list (list (Z * Z)))
    : result (Simulator P) :=
  run_loop fuel (initial n p tr).

End Simulator.
