(* ===== verification/CohSimInv.v ===== *)
(** * The simulator's invariant

    Every core is in exactly one place: a pending fetch, a request waiting for
    the bus, a pending unblock, or done; exactly the cores that wait are marked
    blocked; the bus is busy exactly while one release is pending, and a free
    bus with waiting requests has an arbitration scheduled.  The invariant is
    kept by every event, whichever minimal event the queue delivers, and under
    it no event faults. *)

From S2P Require Import Prelude CohDefs CohSim.

(** ** Classification of events *)

Definition event_core (e : Event) : option nat :=
  match e with
  | CoreUnblockEvent _ c | FetchEvent _ c => Some c
  | _ => None
  end.

Definition unblock_core (e : Event) : option nat :=
  match e with CoreUnblockEvent _ c => Some c | _ => None end.

Definition release_token (e : Event) : option unit :=
  match e with BusReleaseEvent _ => Some tt | _ => None end.

Definition is_arbitration (e : Event) : Prop :=
  match e with BusArbitrationEvent _ => True | _ => False end.

(** ** The queue of requests *)

Lemma min_element_from_spec lt l0 it smallest best l :
  l0 !! smallest = Some best → drop it l0 = l →
  ∃ i b, min_element_from lt it smallest best l = (i, b) ∧ l0 !! i = Some b.
Proof.
  revert it smallest best. induction l as [|r l IH]; intros it sm best Hs Hd; simpl.
  { eauto. }
  assert (l0 !! it = Some r) as Hr.
  { rewrite <- (Nat.add_0_r it), <- lookup_drop, Hd. done. }
  assert (drop (S it) l0 = l) as Hd'.
  { rewrite (drop_S l0 r it Hr) in Hd. by simplify_eq. }
  destruct (lt r best); eauto.
Qed.

Lemma min_element_Some lt l i r :
  min_element lt l = Some (i, r) → l !! i = Some r.
Proof.
  destruct l as [|r0 l]; intros H; simplify_eq/=.
  destruct (min_element_from_spec lt (r0 :: l) 1 0 r0 l) as (i' & b & H' & Hi); [done..|].
  rewrite H' in H. by simplify_eq.
Qed.

Lemma erase_perm {A} (l : list A) i x : l !! i = Some x → l ≡ₚ x :: erase i l.
Proof.
  intros H. rewrite <- (take_drop_middle l i x H) at 1. unfold erase.
  by rewrite Permutation_middle.
Qed.

(** What the pending events carry: their cores, or their release tokens. *)
Definition carried {B} (f : Event → option B) (l : list Event) : list B := omap f l.
#[global] Arguments carried : simpl never.

Lemma carried_cons {B} (f : Event → option B) e l :
  carried f (e :: l)
  = match f e with Some b => b :: carried f l | None => carried f l end.
Proof. done. Qed.

Lemma elem_of_carried {B} (f : Event → option B) l b :
  b ∈ carried f l ↔ ∃ e, e ∈ l ∧ f e = Some b.
Proof. apply list_elem_of_omap. Qed.

Section Invariant.
Context {P : Type} `{HP : !CoherenceProtocol P} `{HL : !CoherenceProtocolLaws P}.
Context (rp : bool) (n : nat) (total : Z).
Hypothesis total_small : total < 2 ^ 32.

(** The cores whose trace is used up. *)
Definition exhausted_cores (x : list bool) : list nat :=
  base.filter (λ i, x !! i = Some true) (seq 0 n).

(** Where the cores are, and which of them wait for the bus. *)
Definition tokens (s : Simulator P) : list nat :=
  carried event_core (events s) ++ (core_id <$> bus_queue s)
    ++ exhausted_cores (trace_exhausted s).

Definition waiting (s : Simulator P) : list nat :=
  carried unblock_core (events s) ++ (core_id <$> bus_queue s).

Definition request_ok (p : P) (r : BusRequest) : Prop :=
  (0 ≤ addr r < 2 ^ 32) ∧ type r ≠ NONE ∧ type r ≠ WRITEBACK ∧
  pending p (core_id r) (type r) (addr r).

(** Trace items and requests still to be served. *)
Definition work (s : Simulator P) : Z :=
  Z.of_nat (sum_list (length <$> traces s) + length (bus_queue s)).

(** No pending event lies in the past, and the clock has room for the work
    that is left: each item costs less than 2^32 cycles. *)
Definition time_ok (w now : Z) (e : Event) : Prop :=
  now ≤ timestamp e ∧ timestamp e + 2 ^ 32 * w ≤ 2 ^ 32 * total.

Record Inv (s : Simulator P) : Prop := {
  inv_cores : num_cores s = n;
  inv_blocked_len : length (blocked s) = n;
  inv_traces_len : length (traces s) = n;
  inv_exhausted_len : length (trace_exhausted s) = n;
  inv_stats_len : length (c_stats (stats s)) = n;
  inv_protocol : proto_ok n (protocol s);
  inv_tokens : tokens s ≡ₚ seq 0 n;
  inv_blocked : ∀ i b, blocked s !! i = Some b → b = bool_decide (i ∈ waiting s);
  inv_queue : Forall (request_ok (protocol s)) (bus_queue s);
  inv_release : length (carried release_token (events s)) = if bus_busy s then 1%nat else 0%nat;
  inv_arbitration : bus_busy s = false → bus_queue s ≠ [] →
    Exists is_arbitration (events s);
  inv_exhausted : ∀ i, trace_exhausted s !! i = Some true → traces s !! i = Some [];
  inv_values : Forall (Forall (λ x, 0 ≤ x.2 < 2 ^ 32)) (traces s);
  inv_now : 0 ≤ current_time s;
  inv_time : Forall (time_ok (work s) (current_time s)) (events s)
}.

(** The invariant sees the event queue as a multiset. *)
Lemma Inv_events s l :
  events s ≡ₚ l → Inv s →
  Inv (mkSim l (current_time s) (protocol s) (blocked s) (traces s)
         (trace_exhausted s) (bus_queue s) (bus_busy s) (stats s) (num_cores s)).
Proof.
  intros Hl [? ? ? ? ? ? Ht Hb ? Hr Ha ? ? ? Htm].
  assert (∀ {B} (f : Event → option B), carried f (events s) ≡ₚ carried f l) as Hom.
  { intros B f. unfold carried. by rewrite Hl. }
  split; try done; simpl.
  - unfold tokens in *. simpl. by rewrite <- Hom.
  - intros i b Hi. rewrite (Hb i b Hi). apply bool_decide_ext. unfold waiting. simpl.
    by rewrite Hom.
  - by rewrite <- Hr, Hom.
  - intros ??. rewrite <- Hl. auto.
  - unfold work in *. simpl in *. by rewrite <- Hl.
Qed.

Lemma tokens_NoDup s : Inv s → NoDup (tokens s).
Proof.
  intros Hi. rewrite (inv_tokens s Hi). apply NoDup_ListNoDup, seq_NoDup.
Qed.

Lemma token_lt s i : Inv s → i ∈ tokens s → (i < n)%nat.
Proof. intros Hi. rewrite (inv_tokens s Hi), elem_of_seq. lia. Qed.

Lemma waiting_token s i : i ∈ waiting s → i ∈ tokens s.
Proof.
  unfold waiting, tokens. rewrite !elem_of_app, !elem_of_carried.
  intros [(e & He & H)|]; [|auto]. left. exists e. split; [done|].
  by destruct e; simplify_eq/=.
Qed.

Lemma trace_work l i x (rest : list (Z * Z)) :
  l !! i = Some (x :: rest) →
  (sum_list (length <$> <[i := rest]> l) + 1 = sum_list (length <$> l))%nat.
Proof.
  revert i. induction l as [|t l IH]; intros [|i] H; simplify_eq/=; [lia|].
  rewrite <- (IH i H). lia.
Qed.

(** ** Delivering an event *)

Lemma comparator_time e e' : EventComparator e e' = false → timestamp e ≤ timestamp e'.
Proof.
  unfold EventComparator. case_bool_decide; [|lia]. intros ?%Z.ltb_ge. lia.
Qed.

Lemma minimal_time_ok w now e rest :
  minimal e rest → Forall (time_ok w now) rest → Forall (time_ok w (timestamp e)) rest.
Proof.
  unfold minimal. rewrite !Forall_forall. intros Hm Ht e' He'.
  destruct (Ht e' He') as [_ ?]. split; [|done]. by apply comparator_time, Hm.
Qed.

Lemma time_ok_weaken w w' now l :
  w' ≤ w → Forall (time_ok w now) l → Forall (time_ok w' now) l.
Proof.
  intros Hw Hl. eapply Forall_impl; [exact Hl|]. intros e [? ?]. split; [done|lia].
Qed.

(** Scheduling after a delay that one unit of work pays for. *)
Lemma time_ok_delay w now d :
  0 ≤ now → 0 ≤ d < 2 ^ 32 → now + 2 ^ 32 * (w + 1) ≤ 2 ^ 32 * total → 0 ≤ w →
  u64 (now + d) = now + d ∧ now ≤ now + d ∧ now + d + 2 ^ 32 * w ≤ 2 ^ 32 * total.
Proof. intros. rewrite u64_small; lia. Qed.

Lemma work_nonneg s : 0 ≤ work s.
Proof. unfold work. lia. Qed.

(** The state from which an event is executed. *)
Definition popped (s : Simulator P) (t : Z) (rest : list Event) : Simulator P :=
  mkSim rest t (protocol s) (blocked s) (traces s)
    (trace_exhausted s) (bus_queue s) (bus_busy s) (stats s) (num_cores s).

Definition pushed (s : Simulator P) (l : list Event) : Simulator P :=
  mkSim l (current_time s) (protocol s) (blocked s) (traces s)
    (trace_exhausted s) (bus_queue s) (bus_busy s) (stats s) (num_cores s).

Lemma carried_unblock l c : c ∈ carried unblock_core l → c ∈ carried event_core l.
Proof.
  rewrite !elem_of_carried. intros (e & He & Hc). exists e. split; [done|].
  by destruct e; simplify_eq/=.
Qed.

(** Marking one core. *)
Lemma blocked_insert (bl : list bool) (W W' : list nat) c (v : bool) :
  (∀ i b, bl !! i = Some b → b = bool_decide (i ∈ W)) →
  (∀ i, i ≠ c → i ∈ W' ↔ i ∈ W) → (c ∈ W' ↔ v = true) →
  ∀ i b, <[c := v]> bl !! i = Some b → b = bool_decide (i ∈ W').
Proof.
  intros Hb Hne Hc i b Hi. destruct (decide (i = c)) as [->|Hic].
  - apply list_lookup_insert_Some in Hi as [(_ & -> & _)|[? _]]; [|done].
    destruct b; case_bool_decide; naive_solver.
  - rewrite list_lookup_insert_ne in Hi by done. rewrite (Hb i b Hi).
    apply bool_decide_ext. by rewrite Hne.
Qed.

Lemma release_step s t rest :
  Inv (pushed s (BusReleaseEvent t :: rest)) → minimal (BusReleaseEvent t) rest →
  ∃ s', execute_release t (popped s t rest) = Ok s' ∧ Inv s'.
Proof.
  intros [? ? ? ? ? ? Ht Hb Hq Hr Ha ? ? Hn Htm] Hm; simpl in *.
  apply Forall_cons in Htm as [[Ht1 Ht2] Htm]. simpl in *.
  pose proof (minimal_time_ok _ _ _ _ Hm Htm) as Htm'. simpl in Htm'.
  assert (length (carried release_token rest) = 0%nat) as Hr0.
  { destruct (bus_busy s); lia. }
  unfold execute_release. eexists. split; [done|].
  destruct (bus_queue s) as [|r q] eqn:Hqueue; simpl; rewrite Hqueue;
    split; try done; simpl; rewrite ?Hqueue in *; try done; try lia.
  - intros _ _. by constructor.
  - by constructor.
Qed.

Lemma unblock_step s t c rest :
  Inv (pushed s (CoreUnblockEvent t c :: rest)) → minimal (CoreUnblockEvent t c) rest →
  ∃ s', execute_unblock t c (popped s t rest) = Ok s' ∧ Inv s'.
Proof.
  intros Hinv Hm. pose proof (tokens_NoDup _ Hinv) as Hnd.
  assert (c < n)%nat as Hc.
  { apply (token_lt _ _ Hinv). unfold tokens. simpl. set_solver. }
  destruct Hinv as [? Hbl ? ? ? ? Ht Hb Hq Hr Ha ? ? Hn Htm]; simpl in *.
  apply Forall_cons in Htm as [[Ht1 Ht2] Htm]. simpl in *.
  pose proof (minimal_time_ok _ _ _ _ Hm Htm) as Htm'. simpl in Htm'.
  destruct (lookup_lt_is_Some_2 (blocked s) c) as [b Hbc]; [lia|].
  unfold execute_unblock, vset. simpl. rewrite Hbc. simpl. eexists. split; [done|].
  split; try done; simpl; rewrite ?length_insert; try done; try lia.
  - apply (blocked_insert _ _ _ c false Hb); unfold waiting; simpl.
    + intros i Hi. rewrite !elem_of_app, !carried_cons. simpl. set_solver.
    + unfold tokens in Hnd. simpl in Hnd. 
      apply NoDup_cons in Hnd as [Hnd _]. rewrite ?carried_cons. simpl.
      split; [|done]. intros Hin. exfalso. apply Hnd.
      rewrite elem_of_app in Hin. rewrite !elem_of_app.
      destruct Hin as [Hin|]; [left; by apply carried_unblock|auto].
  - intros Hbusy Hqueue. specialize (Ha Hbusy Hqueue). inversion Ha; [done|by constructor].
  - by constructor.
Qed.

(** A waiting request is one the protocol can serve, for an existing core. *)
Lemma queued_request s i r :
  Inv s → bus_queue s !! i = Some r → request_ok (protocol s) r ∧ (core_id r < n)%nat.
Proof.
  intros Hinv Hr. split; [eapply Forall_lookup_1; [apply Hinv|done]|].
  apply (token_lt s); [done|]. unfold tokens. rewrite !elem_of_app. right. left.
  apply list_elem_of_fmap_2. by eapply list_elem_of_lookup_2.
Qed.

Lemma arbitration_step s t rest :
  Inv (pushed s (BusArbitrationEvent t :: rest)) → minimal (BusArbitrationEvent t) rest →
  ∃ s', execute_arbitration rp t (popped s t rest) = Ok s' ∧ Inv s'.
Proof.
  intros Hinv Hm. pose proof (tokens_NoDup _ Hinv) as Hnd.
  pose proof (λ i r, queued_request _ i r Hinv) as Hserve.
  destruct Hinv as [? Hbl ? ? Hstats Hproto Ht Hb Hq Hr Ha ? ? Hn Htm]; simpl in *.
  apply Forall_cons in Htm as [[Ht1 Ht2] Htm]. simpl in *.
  pose proof (minimal_time_ok _ _ _ _ Hm Htm) as Htm'. simpl in Htm'.
  unfold execute_arbitration. simpl.
  destruct (bus_busy s) eqn:Hbusy.
  { eexists. split; [done|]. split; try done; simpl; rewrite ?Hbusy; try done; lia. }
  destruct (min_element _ (bus_queue s)) as [[it req]|] eqn:Hmin; last first.
  { destruct (bus_queue s) eqn:Hqueue; [|done]. eexists. split; [done|].
    split; try done; simpl; rewrite ?Hbusy, ?Hqueue in *; try done; lia. }
  apply min_element_Some in Hmin. pose proof (erase_perm _ _ _ Hmin) as Hperm.
  destruct (Hserve _ _ Hmin) as [(Haddr & Hnone & Hwb & Hpend) Hcore].
  destruct (hbt_law n (protocol s) (stats s) (core_id req) (type req) (addr req))
    as (lat & p' & w' & Hbus & Hp' & Hfr & Hlat & Hkeep); [done..|].
  rewrite Hbus. simpl. rewrite bool_decide_true by done. eexists. split; [done|].
  set (q' := erase it (bus_queue s)) in *.
  assert (Hwork : work (pushed s (BusArbitrationEvent t :: rest))
                  = work (set_queue q' (popped s t rest)) + 1).
  { unfold work. simpl. rewrite (Permutation_length Hperm). simpl. lia. }
  pose proof (work_nonneg (set_queue q' (popped s t rest))) as Hw0.
  rewrite Hwork in *.
  destruct (time_ok_delay (work (set_queue q' (popped s t rest))) t lat) as (-> & Hd1 & Hd2);
    [lia|apply Hlat|lia|done|].
  assert (NoDup (core_id <$> bus_queue s)) as Hndq.
  { unfold tokens in Hnd. simpl in Hnd.
    apply NoDup_app in Hnd as (_ & _ & Hnd). by apply NoDup_app in Hnd as (Hnd & _ & _). }
  rewrite Hperm in Hndq. simpl in Hndq. apply NoDup_cons in Hndq as [Hnreq _].
  split; try done; simpl; try lia.
  - by rewrite (stats_frame_length _ _ Hfr).
  - rewrite <- Ht. unfold tokens. simpl. rewrite Hperm. simpl.
    rewrite ?carried_cons. simpl. apply Permutation_middle.
  - intros i b Hi. rewrite (Hb i b Hi). apply bool_decide_ext. unfold waiting. simpl.
    rewrite Hperm. rewrite ?carried_cons. simpl. set_solver.
  - rewrite Hperm in Hq. apply Forall_cons in Hq as [_ Hq].
    rewrite Forall_forall in Hq |- *. intros r Hr'. destruct (Hq r Hr') as (? & ? & ? & ?).
    do 3 (split; [done|]). apply Hkeep; [|done]. intros Heq. apply Hnreq.
    rewrite <- Heq. by apply list_elem_of_fmap_2.
  - rewrite ?carried_cons in *. simpl in *. by rewrite Hr.
  - constructor; [done|]. constructor; [done|].
    eapply time_ok_weaken; [|exact Htm']. unfold work. simpl. lia.
Qed.

Lemma item_range s c x tl :
  Inv s → traces s !! c = Some (x :: tl) → 0 ≤ x.2 < 2 ^ 32.
Proof.
  intros Hinv Htr. pose proof (inv_values s Hinv) as Hval. rewrite Forall_forall in Hval.
  apply list_elem_of_lookup_2 in Htr. by apply Hval, Forall_cons in Htr as [? _].
Qed.

(** ** Fetching *)

Section Fetch.
Context (s : Simulator P) (t : Z) (c : nat) (rest : list Event).
Hypothesis Hinv : Inv (pushed s (FetchEvent t c :: rest)).
Hypothesis Hmin : minimal (FetchEvent t c) rest.

Lemma fetch_core : (c < n)%nat.
Proof. apply (token_lt _ _ Hinv). unfold tokens. simpl. set_solver. Qed.

Lemma fetch_unique :
  (c ∉ carried event_core rest) ∧ (c ∉ core_id <$> bus_queue s) ∧
  trace_exhausted s !! c ≠ Some true.
Proof.
  pose proof fetch_core as Hc.
  pose proof (tokens_NoDup _ Hinv) as Hnd. unfold tokens in Hnd. simpl in Hnd.
  apply NoDup_cons in Hnd as [Hnd _]. rewrite !not_elem_of_app in Hnd.
  destruct Hnd as (? & ? & Hx). split_and!; [done..|]. intros Hxc. apply Hx.
  apply list_elem_of_filter. split; [done|]. apply elem_of_seq. lia.
Qed.

Lemma fetch_waiting l i :
  i ∈ waiting (pushed s (FetchEvent l c :: rest)) ↔ i ∈ waiting (pushed s rest).
Proof. unfold waiting. simpl. by rewrite ?carried_cons. Qed.

Lemma fetch_not_waiting : c ∉ waiting (pushed s rest).
Proof.
  destruct fetch_unique as (H1 & H2 & _). unfold waiting. simpl.
  rewrite not_elem_of_app. split; [|done]. intros H. by apply H1, carried_unblock.
Qed.

Lemma fetch_blocked : blocked s !! c = Some false.
Proof.
  destruct (lookup_lt_is_Some_2 (blocked s) c) as [b Hb].
  { pose proof fetch_core. pose proof (inv_blocked_len _ Hinv). simpl in *. lia. }
  rewrite Hb. f_equal. rewrite (inv_blocked _ Hinv c b Hb). apply bool_decide_false.
  rewrite fetch_waiting. apply fetch_not_waiting.
Qed.

Lemma fetch_time :
  0 ≤ t ∧ t + 2 ^ 32 * work (pushed s rest) ≤ 2 ^ 32 * total ∧
  Forall (time_ok (work (pushed s rest)) t) rest.
Proof.
  destruct Hinv as [_ _ _ _ _ _ _ _ _ _ _ _ _ Hn Htm]. simpl in *.
  apply Forall_cons in Htm as [[Ht1 Ht2] Htm]. simpl in *.
  pose proof (minimal_time_ok _ _ _ _ Hmin Htm) as Htm'. simpl in Htm'.
  split_and!; [lia|done|done].
Qed.

Lemma fetch_release :
  length (carried release_token rest) = if bus_busy s then 1%nat else 0%nat.
Proof. apply (inv_release _ Hinv). Qed.

Lemma fetch_arbitration :
  bus_busy s = false → bus_queue s ≠ [] → Exists is_arbitration rest.
Proof.
  intros Hb Hq. pose proof (inv_arbitration _ Hinv Hb Hq) as H. simpl in H.
  by apply Exists_cons in H as [|].
Qed.

(** The core's next event is a fetch: it computed, or it hit. *)
Lemma Inv_reschedule x tl p' w' d :
  traces s !! c = Some (x :: tl) →
  proto_ok n p' → Forall (request_ok p') (bus_queue s) →
  length (c_stats w') = n → 0 ≤ d < 2 ^ 32 →
  Inv (mkSim (FetchEvent (u64 (t + d)) c :: rest) t p' (blocked s) (<[c := tl]> (traces s))
         (trace_exhausted s) (bus_queue s) (bus_busy s) w' (num_cores s)).
Proof.
  intros Htr Hp' Hq' Hw' Hd. destruct fetch_time as (Ht0 & Ht2 & Htm).
  pose proof fetch_unique as (_ & _ & Hx). pose proof fetch_arbitration as Harb.
  pose proof fetch_release as Hrel.
  pose proof (trace_work _ _ _ _ Htr) as Hwork.
  set (s' := mkSim _ _ _ _ _ _ _ _ _ _).
  assert (work (pushed s rest) = work s' + 1) as Hws.
  { unfold work. simpl. lia. }
  pose proof (work_nonneg s') as Hw0. rewrite Hws in *.
  destruct (time_ok_delay (work s') t d) as (Hu & Hd1 & Hd2); [done|done|lia|done|].
  destruct Hinv as [? ? ? ? ? ? Htok Hb ? ? ? Hexh Hval ? ?]. simpl in *.
  split; try done; simpl.
  - by rewrite length_insert.
  - intros Hbusy Hqueue. by apply Exists_cons_tl, Harb.
  - intros i Hi. rewrite list_lookup_insert_ne; [auto|]. intros <-. done.
  - apply Forall_insert'; [done|]. rewrite Forall_forall in Hval.
    apply list_elem_of_lookup_2 in Htr. by apply Hval, Forall_cons in Htr as [_ ?].
  - rewrite Hu. constructor; [done|]. eapply time_ok_weaken; [|exact Htm]. lia.
Qed.

(** The core waits for the bus: a miss, or an upgrade. *)
Lemma Inv_enqueue x tl p' w' r :
  traces s !! c = Some (x :: tl) →
  proto_ok n p' → Forall (request_ok p') (bus_queue s) → request_ok p' r →
  core_id r = c → length (c_stats w') = n →
  Inv (mkSim (if bus_busy s then rest else BusArbitrationEvent t :: rest) t p'
         (<[c := true]> (blocked s)) (<[c := tl]> (traces s))
         (trace_exhausted s) (bus_queue s ++ [r]) (bus_busy s) w' (num_cores s)).
Proof.
  intros Htr Hp' Hq' Hr Hrc Hw'. destruct fetch_time as (Ht0 & Ht2 & Htm).
  pose proof fetch_unique as (_ & _ & Hx). pose proof fetch_release as Hrel.
  pose proof (trace_work _ _ _ _ Htr) as Hwork.
  set (s' := mkSim _ _ _ _ _ _ _ _ _ _).
  assert (work s' = work (pushed s rest)) as Hws.
  { unfold work. simpl. rewrite length_app. simpl. lia. }
  destruct Hinv as [? ? ? ? ? ? Htok Hb ? ? ? Hexh Hval ? ?]. simpl in *.
  split; try done; simpl.
  - by rewrite length_insert.
  - by rewrite length_insert.
  - rewrite <- Htok. unfold tokens. simpl. rewrite fmap_app, ?carried_cons. simpl. rewrite Hrc.
    destruct (bus_busy s); rewrite ?carried_cons; simpl; solve_Permutation.
  - apply (blocked_insert _ _ _ c true Hb); unfold waiting; simpl.
    + intros i Hi. rewrite fmap_app. simpl. rewrite Hrc.
      destruct (bus_busy s); rewrite ?carried_cons; simpl; set_solver.
    + rewrite fmap_app. simpl. rewrite Hrc. split; [done|]. intros _. set_solver.
  - apply Forall_app. split; [done|]. by constructor.
  - destruct (bus_busy s); [done|]. by rewrite carried_cons.
  - intros Hbusy _. rewrite Hbusy. by constructor.
  - intros i Hi. rewrite list_lookup_insert_ne; [auto|]. intros <-. done.
  - apply Forall_insert'; [done|]. rewrite Forall_forall in Hval.
    apply list_elem_of_lookup_2 in Htr. by apply Hval, Forall_cons in Htr as [_ ?].
  - rewrite Hws. destruct (bus_busy s); [done|]. by constructor.
Qed.
End Fetch.

Lemma exhausted_cores_insert x c :
  (c < n)%nat → length x = n → x !! c ≠ Some true →
  exhausted_cores (<[c := true]> x) ≡ₚ c :: exhausted_cores x.
Proof.
  intros Hc Hl Hx. unfold exhausted_cores.
  apply NoDup_Permutation.
  - apply NoDup_filter, NoDup_ListNoDup, seq_NoDup.
  - apply NoDup_cons. rewrite list_elem_of_filter. split; [naive_solver|].
    apply NoDup_filter, NoDup_ListNoDup, seq_NoDup.
  - intros i. rewrite elem_of_cons, !list_elem_of_filter, !elem_of_seq.
    destruct (decide (i = c)) as [->|Hi].
    + rewrite list_lookup_insert_eq by lia. split; [by left|]. intros _. split; [done|lia].
    + rewrite list_lookup_insert_ne by done. naive_solver.
Qed.

Lemma requests_keep (p p' : P) q c :
  Forall (request_ok p) q → c ∉ (core_id <$> q) →
  (∀ j t a, j ≠ c → pending p j t a → pending p' j t a) → Forall (request_ok p') q.
Proof.
  rewrite !Forall_forall. intros Hq Hc Hkeep r Hr.
  destruct (Hq r Hr) as (? & ? & ? & ?). do 3 (split; [done|]).
  apply Hkeep; [|done]. intros <-. by apply Hc, list_elem_of_fmap_2.
Qed.

Lemma sim_counter_Ok i f w :
  (i < length (c_stats w))%nat →
  ∃ w', on_core i f w = Ok w' ∧ length (c_stats w') = length (c_stats w).
Proof.
  intros Hi. destruct (on_core_Ok i f w Hi) as [w' H]. exists w'. split; [done|].
  unfold on_core in H. inv_ok. apply length_insert.
Qed.

Lemma access_step s t c rest label val tl :
  Inv (pushed s (FetchEvent t c :: rest)) → minimal (FetchEvent t c) rest →
  traces s !! c = Some ((label, val) :: tl) →
  ∃ s', execute_access t c label val (set_traces (<[c := tl]> (traces s)) (popped s t rest))
        = Ok s' ∧ Inv s'.
Proof.
  intros Hinv Hm Htr. pose proof (fetch_core s t c rest Hinv Hm) as Hc.
  pose proof (fetch_unique s t c rest Hinv Hm) as (_ & Hcq & _).
  pose proof (fetch_blocked s t c rest Hinv Hm) as Hbl.
  pose proof (inv_stats_len _ Hinv) as Hw. pose proof (inv_protocol _ Hinv) as Hp.
  pose proof (inv_queue _ Hinv) as Hq.
  simpl in *.
  pose proof (item_range (pushed s (FetchEvent t c :: rest)) c _ _ Hinv Htr) as Hv. simpl in Hv.
  unfold execute_access. simpl.
  destruct (sim_counter_Ok c (if bool_decide (label = 1) then inc_store_count
                              else inc_load_count) (stats s)) as (w1 & H1 & Hl1); [lia|].
  rewrite H1. simpl.
  destruct (hpr_law n (protocol s) w1 c val (bool_decide (label = 1)))
    as (r & p' & w2 & H2 & Hp' & Hfr & Hhit & Hmiss & Hkeep); [done|lia|done|done|].
  rewrite H2. simpl. pose proof (stats_frame_length _ _ Hfr) as Hl2.
  pose proof (requests_keep _ _ _ _ Hq Hcq Hkeep) as Hq'.
  destruct (is_hit r) eqn:Hr; simpl.
  - rewrite (Hhit eq_refl), bool_decide_true by done.
    destruct (sim_counter_Ok c inc_cache_hits w2) as (w3 & H3 & Hl3); [by rewrite Hl2, Hl1, Hw|].
    rewrite H3. simpl. eexists. split; [done|].
    apply (Inv_reschedule s t c rest Hinv Hm (label, val)); [done..|simpl; congruence|done].
  - destruct (Hmiss eq_refl) as (Hn1 & Hn2 & Hpend).
    destruct (sim_counter_Ok c inc_cache_misses w2) as (w3 & H3 & Hl3); [by rewrite Hl2, Hl1, Hw|].
    rewrite H3. unfold vset. simpl. rewrite Hbl. simpl.
    eapply (Inv_enqueue s t c rest Hinv Hm _ _ p' w3 (mkRequest c (bus_action r) val t))
      in Htr; [|done..|simpl; congruence].
    eexists. split; [done|]. simpl.
    cbv [schedule set_queue set_blocked set_protocol set_traces popped]. simpl.
    by destruct (bus_busy s).
Qed.

Lemma fetch_step s t c rest :
  Inv (pushed s (FetchEvent t c :: rest)) → minimal (FetchEvent t c) rest →
  ∃ s', execute_fetch t c (popped s t rest) = Ok s' ∧ Inv s'.
Proof.
  intros Hinv Hm. pose proof (fetch_core s t c rest Hinv Hm) as Hc.
  pose proof (fetch_blocked s t c rest Hinv Hm) as Hbl.
  unfold execute_fetch, vget. simpl. rewrite Hbl. simpl.
  destruct (lookup_lt_is_Some_2 (traces s) c) as [tr Htr].
  { pose proof (inv_traces_len _ Hinv). simpl in *. lia. }
  rewrite Htr. simpl. destruct tr as [|[label val] tl].
  - pose proof (fetch_unique s t c rest Hinv Hm) as (_ & _ & Hx).
    pose proof (fetch_time s t c rest Hinv Hm) as (Ht0 & _ & Htm).
    pose proof (fetch_release s t c rest Hinv) as Hrel.
    pose proof (fetch_arbitration s t c rest Hinv) as Harb.
    destruct Hinv as [? ? ? Hxl ? ? Htok Hb ? ? ? Hexh ? ? ?]. simpl in *.
    destruct (lookup_lt_is_Some_2 (trace_exhausted s) c) as [x Hxc]; [lia|].
    unfold vset. rewrite Hxc. simpl. eexists. split; [done|].
    split; try done; simpl.
    + by rewrite length_insert.
    + rewrite <- Htok. unfold tokens. simpl. rewrite ?carried_cons. simpl.
      rewrite exhausted_cores_insert by done. solve_Permutation.
    + intros i. destruct (decide (i = c)) as [->|]; [done|].
      rewrite list_lookup_insert_ne by done. auto.
  - unfold vset. rewrite Htr. simpl.
    destruct (bool_decide (label = 2)) eqn:Hlabel; [|by eapply access_step].
    pose proof (item_range (pushed s (FetchEvent t c :: rest)) c _ _ Hinv Htr) as Hv. simpl in Hv.
    destruct (sim_counter_Ok c (add_compute_cycles val) (stats s)) as (w' & H & Hl).
    { pose proof (inv_stats_len _ Hinv). simpl in *. lia. }
    rewrite H. simpl. eexists. split; [done|].
    eapply (Inv_reschedule s t c rest Hinv Hm); try done; [apply Hinv|apply Hinv|].
    simpl. rewrite Hl. apply Hinv.
Qed.

(** No event faults, and every event keeps the invariant. *)
Lemma dispatch_Inv s e rest :
  Inv s → events s ≡ₚ e :: rest → minimal e rest →
  ∃ s', dispatch rp e rest s = Ok s' ∧ Inv s'.
Proof.
  intros Hinv Hev Hm. pose proof (Inv_events s _ Hev Hinv) as Hinv'.
  unfold dispatch. destruct e as [t|t|t c|t c]; simpl.
  - by eapply release_step.
  - by eapply arbitration_step.
  - by eapply unblock_step.
  - by eapply fetch_step.
Qed.

Lemma step_Inv s s' : Inv s → step rp s s' → Inv s'.
Proof.
  intros Hinv [e rest _ Hev Hm Hd].
  destruct (dispatch_Inv s e rest Hinv Hev Hm) as (s'' & Hd' & Hinv'). congruence.
Qed.

Lemma steps_Inv s s' : Inv s → rtc (step rp) s s' → Inv s'.
Proof. intros Hinv. induction 1; eauto using step_Inv. Qed.

End Invariant.
