(* ===== verification/CohSimRun.v ===== *)
(** * Complete runs of the coherence simulator

    The executable loop refines the step relation, terminates on every trace,
    and ends with every trace read and every access accounted for. *)

From S2P Require Import Prelude CohDefs CohSim CohSimInv.

(** ** The priority queue *)

Lemma comparator_refl e : EventComparator e e = false.
Proof. unfold EventComparator. rewrite bool_decide_false by tauto. apply Z.ltb_irrefl. Qed.

(** "[a] does not come out after [b]" is transitive. *)
Lemma comparator_trans a b c :
  EventComparator a b = false → EventComparator b c = false → EventComparator a c = false.
Proof.
  unfold EventComparator. repeat case_bool_decide; rewrite ?Z.ltb_ge; lia.
Qed.

Lemma comparator_asym a b : EventComparator a b = true → EventComparator b a = false.
Proof.
  unfold EventComparator. repeat case_bool_decide; rewrite ?Z.ltb_ge, ?Z.ltb_lt; lia.
Qed.

Lemma pop_spec l e rest : pop l = Some (e, rest) → l ≡ₚ e :: rest ∧ minimal e rest.
Proof.
  unfold minimal. revert e rest. induction l as [|x l IH]; intros e rest H; simpl in H; [done|].
  destruct (pop l) as [[e' l']|] eqn:Hp.
  - destruct (IH e' l' eq_refl) as [Hperm Hmin].
    destruct (EventComparator x e') eqn:Hc; simplify_eq.
    + split; [rewrite Hperm; constructor|]. constructor; [by apply comparator_asym|done].
    + split; [by rewrite Hperm|]. constructor; [done|].
      eapply Forall_impl; [exact Hmin|]. intros y Hy. by eapply comparator_trans.
  - destruct l as [|y l]; simplify_eq; [done|].
    simpl in Hp. destruct (pop l) as [[]|]; [by split_if|done].
Qed.

Lemma pop_None l : pop l = None → l = [].
Proof.
  destruct l as [|x l]; simpl; [done|]. destruct (pop l) as [[]|]; [|done].
  by split_if.
Qed.

(** ** The arbiter *)

(** The arbiter's order is a strict weak order. *)
Lemma request_before_trans rp a b c :
  request_before rp a b = false → request_before rp b c = false →
  request_before rp a c = false.
Proof.
  unfold request_before. destruct rp; simpl;
    destruct (bool_decide (type a = BUS_RD)), (bool_decide (type b = BUS_RD)),
      (bool_decide (type c = BUS_RD)); simpl; try done;
    repeat case_bool_decide; rewrite ?Z.ltb_ge, ?Nat.ltb_ge; lia.
Qed.

Lemma request_before_asym rp a b :
  request_before rp a b = true → request_before rp b a = false.
Proof.
  unfold request_before. destruct rp; simpl;
    destruct (bool_decide (type a = BUS_RD)), (bool_decide (type b = BUS_RD)); simpl; try done;
    repeat case_bool_decide; rewrite ?Z.ltb_ge, ?Nat.ltb_ge, ?Z.ltb_lt, ?Nat.ltb_lt; lia.
Qed.

Lemma request_before_mono rp a b c :
  request_before rp a b = true → request_before rp c b = false →
  request_before rp a c = true.
Proof.
  intros H1 H2. destruct (request_before rp a c) eqn:H3; [done|].
  by rewrite (request_before_trans rp a c b H3 H2) in H1.
Qed.

Lemma min_element_from_least rp l0 it sm best l i r :
  drop it l0 = l → (sm < it)%nat →
  (∀ j r', (j < it)%nat → l0 !! j = Some r' →
     request_before rp r' best = false ∧ ((j < sm)%nat → request_before rp best r' = true)) →
  min_element_from (request_before rp) it sm best l = (i, r) →
  ∀ j r', l0 !! j = Some r' →
    request_before rp r' r = false ∧ ((j < i)%nat → request_before rp r r' = true).
Proof.
  revert it sm best. induction l as [|x l IH]; intros it sm best Hd Hs Hall H j r' Hj; simpl in H.
  { simplify_eq. apply Hall; [|done]. apply lookup_lt_Some in Hj.
    apply (f_equal length) in Hd. rewrite length_drop in Hd. simpl in Hd. lia. }
  assert (l0 !! it = Some x) as Hx by by rewrite <- (Nat.add_0_r it), <- lookup_drop, Hd.
  assert (drop (S it) l0 = l) as Hd'.
  { rewrite (drop_S l0 x it Hx) in Hd. by simplify_eq. }
  destruct (request_before rp x best) eqn:Hc.
  - eapply (IH (S it) it x Hd'); [lia| |done|done]. intros k rk Hk Hrk.
    destruct (decide (k = it)) as [->|Hne].
    { rewrite Hx in Hrk. injection Hrk as <-. split; [|lia]. destruct (request_before rp x x) eqn:E; [|done].
      by rewrite (request_before_asym _ _ _ E) in E. }
    destruct (Hall k rk) as [H1 _]; [lia|done|].
    pose proof (request_before_mono rp x best rk Hc H1) as H2.
    split; [by apply request_before_asym|done].
  - eapply (IH (S it) sm best Hd'); [lia| |done|done]. intros k rk Hk Hrk.
    destruct (decide (k = it)) as [->|Hne]; [|by apply Hall; [lia|]].
    rewrite Hx in Hrk. injection Hrk as <-. split; [done|lia].
Qed.

Lemma min_element_least rp l i r :
  min_element (request_before rp) l = Some (i, r) →
  ∀ j r', l !! j = Some r' →
    request_before rp r' r = false ∧ ((j < i)%nat → request_before rp r r' = true).
Proof.
  destruct l as [|x l]; intros H; [done|]. injection H as H.
  eapply (min_element_from_least rp (x :: l) 1 0 x l); [done|lia| |done].
  intros j r' Hj Hr'. destruct j; [|lia]. simplify_eq/=. split; [|lia].
  destruct (request_before rp r' r') eqn:E; [|done].
  by rewrite (request_before_asym _ _ _ E) in E.
Qed.

(** ** Termination *)

Section Termination.
Context {P : Type} `{HP : !CoherenceProtocol P} (rp : bool).

(** What an event may still cause: a release can schedule an arbitration, an
    unblock schedules a fetch. *)
Definition event_weight (e : Event) : nat :=
  match e with
  | BusReleaseEvent _ | CoreUnblockEvent _ _ => 2
  | BusArbitrationEvent _ | FetchEvent _ _ => 1
  end.

Definition total_weight (l : list Event) : nat := sum_list (event_weight <$> l).
Arguments total_weight : simpl never.

Lemma total_weight_cons e l : total_weight (e :: l) = (event_weight e + total_weight l)%nat.
Proof. done. Qed.

(** An upper bound on the iterations that are left: a trace item may cost a
    fetch, an arbitration, a release with its arbitration and an unblock. *)
Definition iterations_left (s : Simulator P) : nat :=
  5 * sum_list (length <$> traces s) + 4 * length (bus_queue s) + total_weight (events s).

Lemma erase_length {A} (l : list A) i x :
  l !! i = Some x → length l = S (length (erase i l)).
Proof. intros H. by rewrite (Permutation_length (erase_perm l i x H)). Qed.

Lemma dispatch_decreases e rest s s' :
  dispatch rp e rest s = Ok s' →
  (iterations_left s' < iterations_left (pushed s (e :: rest)))%nat.
Proof.
  unfold dispatch, iterations_left. simpl events. rewrite total_weight_cons.
  intros H. destruct e as [t|t|t c|t c]; simpl in H.
  - unfold execute_release in H. inv_ok.
    destruct (bus_queue s) eqn:E; simpl; rewrite ?E, ?total_weight_cons; simpl; lia.
  - unfold execute_arbitration in H. simpl in H. destruct (bus_busy s); [inv_ok; lia|].
    destruct (min_element _ (bus_queue s)) as [[it req]|] eqn:Hm; [|inv_ok; lia].
    apply min_element_Some, erase_length in Hm.
    inv_ok. split_if; inv_ok; rewrite ?total_weight_cons; simpl; lia.
  - unfold execute_unblock in H. inv_ok. rewrite ?total_weight_cons. simpl. lia.
  - unfold execute_fetch in H. apply bind_Ok in H as ([] & _ & H); [inv_ok; lia|].
    apply bind_Ok in H as ([|[label val] tl] & Htr%vget_Ok & H); simpl in Htr; [inv_ok; lia|].
    pose proof (trace_work _ _ _ _ Htr) as Hw.
    apply bind_Ok in H as (tr & [_ ->]%vset_Ok & H); simpl in H.
    destruct (bool_decide (label = 2)); [inv_ok; rewrite ?total_weight_cons; simpl; lia|].
    unfold execute_access in H. apply bind_Ok in H as (w1 & _ & H).
    apply bind_Ok in H as ([[r p'] w2] & _ & H). simpl in H. split_if; inv_ok.
    + rewrite ?total_weight_cons; simpl; lia.
    + destruct (bus_busy s); simpl; rewrite ?total_weight_cons, length_app; simpl; lia.
Qed.

Lemma dispatch_time e rest s s' :
  dispatch rp e rest s = Ok s' → current_time s' = timestamp e.
Proof.
  unfold dispatch. intros H. destruct e as [t|t|t c|t c]; simpl in H.
  - unfold execute_release in H. inv_ok. by destruct (bus_queue s).
  - unfold execute_arbitration in H. simpl in H. destruct (bus_busy s); [by inv_ok|].
    destruct (min_element _ (bus_queue s)) as [[it req]|]; [|by inv_ok].
    inv_ok. by split_if.
  - unfold execute_unblock in H. by inv_ok.
  - unfold execute_fetch in H. apply bind_Ok in H as ([] & _ & H); [by inv_ok|].
    apply bind_Ok in H as ([|[label val] tl] & _ & H); [by inv_ok|].
    apply bind_Ok in H as (tr & _ & H); simpl in H.
    destruct (bool_decide (label = 2)); [by inv_ok|].
    unfold execute_access in H. apply bind_Ok in H as (w1 & _ & H).
    apply bind_Ok in H as ([[r p'] w2] & _ & H). simpl in H. split_if; inv_ok; [done|].
    by destruct (bus_busy s).
Qed.

(** What the loop returns, the step relation reaches. *)
Lemma run_loop_reaches fuel s s' :
  finished s = false → run_loop rp fuel s = Ok s' → rtc (step rp) s s'.
Proof.
  revert s. induction fuel as [|fuel IH]; intros s Hf H; simpl in H; [done|].
  destruct (pop (events s)) as [[e rest]|] eqn:Hp; [|simplify_eq; constructor].
  apply pop_spec in Hp as [Hev Hm]. apply bind_Ok in H as (s1 & Hd & H).
  eapply rtc_l; [by econstructor|]. destruct (finished s1) eqn:Hf1; [|by apply IH].
  simplify_eq. constructor.
Qed.

End Termination.

(** ** Initial states *)

Section Runs.
Context {P : Type} `{HP : !CoherenceProtocol P} `{HL : !CoherenceProtocolLaws P}.
Context (rp : bool) (n : nat) (p : P) (tr : list (list (Z * Z))).

Definition items : Z := Z.of_nat (sum_list (length <$> tr)).

(** One trace per core, whose values are 32-bit words, and fewer than 2^32
    items in all. *)
Definition traces_ok : Prop :=
  length tr = n ∧ Forall (Forall (λ x, 0 ≤ x.2 < 2 ^ 32)) tr ∧ items < 2 ^ 32.

Definition reachable (s : Simulator P) : Prop := rtc (step rp) (initial n p tr) s.

Lemma carried_fetches l : carried event_core (FetchEvent 0 <$> l) = l.
Proof. induction l as [|c l IH]; [done|]. rewrite fmap_cons, carried_cons. simpl. by rewrite IH. Qed.

Lemma carried_nothing {B} (f : Event → option B) l :
  (∀ c, f (FetchEvent 0 c) = None) → carried f (FetchEvent 0 <$> l) = [].
Proof.
  intros Hf. induction l as [|c l IH]; [done|]. by rewrite fmap_cons, carried_cons, Hf.
Qed.

Lemma no_exhausted m k :
  base.filter (λ i, replicate k false !! i = Some true) (seq 0 m) = [].
Proof.
  apply elem_of_nil_inv. intros i [H _]%list_elem_of_filter.
  by apply lookup_replicate in H as [? _].
Qed.

Lemma initial_Inv : proto_ok n p → traces_ok → Inv n items (initial n p tr).
Proof.
  intros Hp (Hl & Hv & Hi). split; simpl; rewrite ?length_replicate; try done.
  - unfold tokens, exhausted_cores. simpl.
    rewrite carried_fetches, no_exhausted, app_nil_r. by rewrite reverse_Permutation.
  - intros i b Hb. apply lookup_replicate in Hb as [-> _]. symmetry.
    apply bool_decide_false. unfold waiting. simpl.
    rewrite carried_nothing by done. rewrite app_nil_r. by intros ?%elem_of_nil.
  - by rewrite carried_nothing.
  - intros i H. by apply lookup_replicate in H as [? _].
  - apply Forall_forall. intros e [c [-> _]]%list_elem_of_fmap.
    split; simpl; [done|]. unfold work, items. simpl. lia.
Qed.

Lemma reachable_Inv s : proto_ok n p → traces_ok → reachable s → Inv n items s.
Proof.
  intros Hp Ht Hs. eapply steps_Inv; [apply Ht|by apply initial_Inv|done].
Qed.

(** ** The loop *)

(** The executable loop follows the step relation and stops within the bound. *)
Lemma run_loop_steps fuel s :
  items < 2 ^ 32 → Inv n items s → finished s = false → (iterations_left s < fuel)%nat →
  ∃ s', run_loop rp fuel s = Ok s' ∧ rtc (step rp) s s' ∧
        (events s' = [] ∨ finished s' = true).
Proof.
  intros Hi. revert s. induction fuel as [|fuel IH]; intros s Hinv Hfin Hm; [lia|]. simpl.
  destruct (pop (events s)) as [[e rest]|] eqn:Hp; last first.
  { apply pop_None in Hp. exists s. auto using rtc_refl. }
  apply pop_spec in Hp as [Hperm Hmin].
  destruct (dispatch_Inv rp n items Hi s e rest Hinv Hperm Hmin) as (s1 & Hd & Hinv1).
  assert (step rp s s1) as Hstep by by econstructor.
  rewrite Hd. simpl. destruct (finished s1) eqn:Hf1.
  { exists s1. eauto using rtc_once. }
  apply dispatch_decreases in Hd.
  destruct (IH s1 Hinv1 Hf1) as (s2 & H2 & Hsteps & Hend).
  { unfold iterations_left in *. simpl in *. unfold total_weight in *. rewrite Hperm in Hm. lia. }
  exists s2. split; [done|]. split; [by eapply rtc_l|done].
Qed.

Lemma forallb_lookup {A} (f : A → bool) l i x : forallb f l = true → l !! i = Some x → f x = true.
Proof. rewrite forallb_forall. intros H Hx. by eapply H, list_elem_of_In, list_elem_of_lookup_2. Qed.

Lemma exhausted_all s i : Inv n items s → events s = [] ∨ finished s = true →
  (i < n)%nat → trace_exhausted s !! i = Some true.
Proof.
  intros Hinv Hend Hi. destruct Hend as [He|Hf].
  - pose proof (inv_release _ _ s Hinv) as Hr. pose proof (inv_arbitration _ _ s Hinv) as Ha.
    rewrite He in Hr, Ha. destruct (bus_busy s) eqn:Hb; [done|].
    destruct (bus_queue s) as [|r q] eqn:Hq.
    + pose proof (inv_tokens _ _ s Hinv) as Ht. unfold tokens in Ht. rewrite He, Hq in Ht.
      assert (i ∈ exhausted_cores n (trace_exhausted s)) as Hin.
      { simpl in Ht. unfold carried in Ht. simpl in Ht. rewrite Ht. apply elem_of_seq. lia. }
      by apply list_elem_of_filter in Hin as [? _].
    + destruct (proj1 (Exists_nil is_arbitration) (Ha eq_refl ltac:(done))).
  - unfold finished in Hf. rewrite !andb_true_iff in Hf. destruct Hf as [[[Hx _] _] _].
    destruct (lookup_lt_is_Some_2 (trace_exhausted s) i) as [x Hxi].
    { by rewrite (inv_exhausted_len _ _ _ Hinv). }
    rewrite Hxi. f_equal. by apply (forallb_lookup _ _ _ _ Hx Hxi).
Qed.

Lemma final_tokens s : Inv n items s → events s = [] ∨ finished s = true →
  carried event_core (events s) = [] ∧ bus_queue s = [].
Proof.
  intros Hinv Hend. pose proof (inv_tokens _ _ s Hinv) as Ht.
  assert (exhausted_cores n (trace_exhausted s) = seq 0 n) as Hx.
  { unfold exhausted_cores. apply filter_all.
    intros i Hi%elem_of_seq. apply exhausted_all; [done..|lia]. }
  unfold tokens in Ht. rewrite Hx in Ht. apply Permutation_length in Ht.
  rewrite !length_app in Ht. rewrite length_fmap in Ht.
  split; apply length_zero_iff_nil; lia.
Qed.

(** ** Accounting *)

(** What a stretch of a trace asks for. *)
Definition computes (l : list (Z * Z)) : Z :=
  foldr (λ x a, (if bool_decide (x.1 = 2) then x.2 else 0) + a) 0 l.
Definition stores (l : list (Z * Z)) : Z :=
  foldr (λ x a, (if bool_decide (x.1 = 1) then 1 else 0) + a) 0 l.
Definition loads (l : list (Z * Z)) : Z :=
  foldr (λ x a, (if bool_decide (x.1 = 1 ∨ x.1 = 2) then 0 else 1) + a) 0 l.

(** The counters of a core that has read [done] so far. *)
Definition accounted (read : list (Z * Z)) (st : Statistics) : Prop :=
  compute_cycles st = u64 (computes read) ∧
  load_count st = i32 (loads read) ∧ store_count st = i32 (stores read) ∧
  i32 (cache_hits st + cache_misses st) = i32 (loads read + stores read).

(** Core [i]'s computing is behind the clock, or behind its next event. *)
Definition clocked (s : Simulator P) (i : nat) (c : Z) : Prop :=
  c ≤ current_time s ∨
  ∃ e, e ∈ events s ∧ event_core e = Some i ∧ c ≤ timestamp e.

Definition Acc (s : Simulator P) : Prop :=
  ∀ i, (i < n)%nat → ∃ read left st,
    tr !! i = Some (read ++ left) ∧ traces s !! i = Some left ∧
    c_stats (stats s) !! i = Some st ∧ accounted read st ∧
    0 ≤ computes read ≤ 2 ^ 32 * Z.of_nat (length read) ∧
    clocked s i (computes read).

Lemma accounted_frame read st st' :
  sim_fields st' = sim_fields st → accounted read st → accounted read st'.
Proof. unfold sim_fields, accounted. intros H. injection H as -> -> -> -> ->. done. Qed.

Lemma stats_frame_lookup w w' i st :
  stats_frame w w' → c_stats w !! i = Some st →
  ∃ st', c_stats w' !! i = Some st' ∧ sim_fields st' = sim_fields st.
Proof.
  unfold stats_frame. intros H Hi. apply (f_equal (lookup i)) in H.
  rewrite !list_lookup_fmap, Hi in H. simpl in H.
  destruct (c_stats w' !! i) as [st'|]; simpl in H; [|done].
  exists st'. split; [done|congruence].
Qed.

Lemma computes_snoc l x :
  computes (l ++ [x]) = computes l + (if bool_decide (x.1 = 2) then x.2 else 0).
Proof. induction l as [|y l IH]; simpl; [lia|]. unfold computes in *. lia. Qed.

Lemma stores_snoc l x :
  stores (l ++ [x]) = stores l + (if bool_decide (x.1 = 1) then 1 else 0).
Proof. induction l as [|y l IH]; simpl; [lia|]. unfold stores in *. lia. Qed.

Lemma loads_snoc l x :
  loads (l ++ [x]) = loads l + (if bool_decide (x.1 = 1 ∨ x.1 = 2) then 0 else 1).
Proof. induction l as [|y l IH]; simpl; [lia|]. unfold loads in *. lia. Qed.

Lemma initial_Acc : traces_ok → Acc (initial n p tr).
Proof.
  intros (Hl & _ & _) i Hi. destruct (lookup_lt_is_Some_2 tr i) as [l Hli]; [lia|].
  exists [], l, Statistics_init. simpl. split_and!; try done.
  - by apply lookup_replicate.
  - by left.
Qed.

(** An event that leaves the traces and the simulator's counters alone. *)
Lemma Acc_frame s s' e rest :
  Acc (pushed s (e :: rest)) → minimal e rest → current_time s ≤ timestamp e →
  current_time s' = timestamp e → rest ⊆ events s' →
  traces s' = traces s → stats_frame (stats s) (stats s') → Acc s'.
Proof.
  intros HA Hm Ht Ht' Hsub Htr Hfr i Hi.
  destruct (HA i Hi) as (read & left & st & H1 & H2 & H3 & H4 & H5 & H6).
  destruct (stats_frame_lookup _ _ _ _ Hfr H3) as (st' & H3' & Hsf).
  exists read, left, st'. rewrite Htr. split_and!; try done; try apply H5.
  - by eapply accounted_frame.
  - unfold clocked in *. rewrite Ht'. simpl in H6.
    destruct H6 as [?|(e' & [->|He']%elem_of_cons & Hc & ?)]; [left; lia|by left|].
    right. exists e'. split; [by apply Hsub|done].
Qed.

Lemma on_core_lookup i f w w' :
  on_core i f w = Ok w' → ∀ j, c_stats w' !! j =
    if decide (j = i) then f <$> c_stats w !! j else c_stats w !! j.
Proof.
  unfold on_core. intros H j. inv_ok. destruct (decide (j = i)) as [->|Hj].
  - rewrite list_lookup_insert_eq by (by eapply lookup_lt_Some). by rewrite H.
  - by rewrite list_lookup_insert_ne.
Qed.

(** Core [c] has read one more item. *)
Lemma Acc_fetch s s' t c rest x tl :
  Acc (pushed s (FetchEvent t c :: rest)) → minimal (FetchEvent t c) rest →
  current_time s ≤ t → 0 ≤ x.2 < 2 ^ 32 → (c < n)%nat → c ∉ carried event_core rest → length (traces s) = n →
  traces s !! c = Some (x :: tl) →
  current_time s' = t → rest ⊆ events s' → traces s' = <[c := tl]> (traces s) →
  (∀ i st, i ≠ c → c_stats (stats s) !! i = Some st →
     ∃ st', c_stats (stats s') !! i = Some st' ∧ sim_fields st' = sim_fields st) →
  (∀ st, c_stats (stats s) !! c = Some st →
     ∃ st', c_stats (stats s') !! c = Some st' ∧
            ∀ read, accounted read st → accounted (read ++ [x]) st') →
  (∀ v, v ≤ t → clocked s' c (v + if bool_decide (x.1 = 2) then x.2 else 0)) →
  Acc s'.
Proof.
  intros HA Hm Ht Hx Hc Huniq Hl Hxc Ht' Hsub Htr Hother Hcore Hclock i Hi.
  destruct (HA i Hi) as (read & left & st & H1 & H2 & H3 & H4 & H5 & H6).
  simpl in H2, H3. rewrite Htr.
  destruct (decide (i = c)) as [->|Hic].
  - rewrite list_lookup_insert_eq by lia. simplify_eq.
    destruct (Hcore st H3) as (st' & H3' & Hacc).
    exists (read ++ [x]), tl, st'. split_and!; try done.
    + by rewrite <- app_assoc.
    + by apply Hacc.
    + rewrite computes_snoc. case_bool_decide; lia.
    + rewrite computes_snoc, length_app. simpl. case_bool_decide; lia.
    + rewrite computes_snoc. apply Hclock. unfold clocked in H6. simpl in H6.
      destruct H6 as [?|(e & [->|He]%elem_of_cons & Hec & ?)]; [lia|done|].
      exfalso. apply Huniq. apply elem_of_carried. eauto.
  - rewrite list_lookup_insert_ne by done.
    destruct (Hother i st Hic H3) as (st' & H3' & Hsf).
    exists read, left, st'. split_and!; try done; try apply H5.
    + by eapply accounted_frame.
    + unfold clocked in *. rewrite Ht'. simpl in H6.
      destruct H6 as [?|(e' & [->|He']%elem_of_cons & He & ?)]; [left; lia|simplify_eq/=|].
      right. exists e'. split; [by apply Hsub|done].
Qed.

(** One more memory access, counted by its kind and by its outcome. *)
Lemma accounted_access read st label val st1 st2 st3 :
  label ≠ 2 →
  sim_fields st1 = sim_fields ((if bool_decide (label = 1) then inc_store_count
                                else inc_load_count) st) →
  sim_fields st2 = sim_fields st1 →
  sim_fields st3 = sim_fields (inc_cache_hits st2) ∨
  sim_fields st3 = sim_fields (inc_cache_misses st2) →
  accounted read st → accounted (read ++ [(label, val)]) st3.
Proof.
  unfold accounted. rewrite computes_snoc, stores_snoc, loads_snoc. simpl.
  intros Hl H1 H2 H3 (Hc & Hld & Hst & Hhm).
  rewrite (bool_decide_false (label = 2)) by done. rewrite Z.add_0_r.
  assert (i32 (cache_hits st + cache_misses st + 1) = i32 (loads read + stores read + 1))
    as Hsum by by rewrite <- i32_add_l, Hhm, i32_add_l.
  assert (∀ a b, a = cache_hits st + cache_misses st + 1 → b = loads read + stores read + 1 →
                 i32 a = i32 b) as Hcount by by intros ?? -> ->.
  clear Hsum Hhm. unfold sim_fields in *.
  destruct st, st1, st2, st3.
  destruct (bool_decide (label = 1)) eqn:Hl1;
    [apply bool_decide_eq_true in Hl1; rewrite bool_decide_true by tauto
    |apply bool_decide_eq_false in Hl1; rewrite bool_decide_false by tauto];
    injection H1 as ????; injection H2 as ?????;
    destruct H3 as [H3|H3]; injection H3 as ?????; simplify_eq/=;
    (split_and!; rewrite ?i32_add_l, ?i32_add_r, ?Z.add_0_r; [done..|]; apply Hcount; lia).
Qed.

Lemma arbitration_Acc s s' t rest :
  Inv n items (pushed s (BusArbitrationEvent t :: rest)) →
  minimal (BusArbitrationEvent t) rest → current_time s ≤ t →
  Acc (pushed s (BusArbitrationEvent t :: rest)) →
  execute_arbitration rp t (popped s t rest) = Ok s' → Acc s'.
Proof.
  intros Hinv Hm Ht HA H. unfold execute_arbitration in H. simpl in H.
  destruct (bus_busy s); [simplify_eq; by eapply Acc_frame|].
  destruct (min_element _ _) as [[it req]|] eqn:Hmin; [|simplify_eq; by eapply Acc_frame].
  apply min_element_Some in Hmin.
  destruct (queued_request _ _ _ _ _ Hinv Hmin) as [(Ha & H1 & H2 & Hpend) Hcore].
  destruct (hbt_law n (protocol s) (stats s) (core_id req) (type req) (addr req))
    as (lat & p' & w' & Hb & _ & Hfr & _); [apply Hinv|apply Hinv|done..|].
  rewrite Hb in H. simpl in H. rewrite bool_decide_true in H by done. simplify_eq.
  eapply Acc_frame; try done. simpl. set_solver.
Qed.

(** The counters of one access, through the protocol's own updates. *)
Lemma access_counters c label val f w w1 w2 w3 :
  label ≠ 2 →
  on_core c (if bool_decide (label = 1) then inc_store_count else inc_load_count) w = Ok w1 →
  stats_frame w1 w2 → on_core c f w2 = Ok w3 → f = inc_cache_hits ∨ f = inc_cache_misses →
  (∀ i st, i ≠ c → c_stats w !! i = Some st →
     ∃ st', c_stats w3 !! i = Some st' ∧ sim_fields st' = sim_fields st) ∧
  (∀ st, c_stats w !! c = Some st →
     ∃ st', c_stats w3 !! c = Some st' ∧
            ∀ read, accounted read st → accounted (read ++ [(label, val)]) st').
Proof.
  intros Hl H1 Hfr H3 Hf.
  pose proof (on_core_lookup _ _ _ _ H1) as Hw1. pose proof (on_core_lookup _ _ _ _ H3) as Hw3.
  split.
  - intros i st Hi Hst. specialize (Hw1 i). specialize (Hw3 i).
    rewrite decide_False in Hw1, Hw3 by done. rewrite Hst in Hw1.
    destruct (stats_frame_lookup _ _ _ _ Hfr Hw1) as (st2 & Hst2 & Hsf).
    exists st2. by rewrite Hw3.
  - intros st Hst. specialize (Hw1 c). specialize (Hw3 c).
    rewrite decide_True in Hw1, Hw3 by done. rewrite Hst in Hw1. simpl in Hw1.
    destruct (stats_frame_lookup _ _ _ _ Hfr Hw1) as (st2 & Hst2 & Hsf).
    rewrite Hst2 in Hw3. simpl in Hw3. eexists. split; [done|]. intros read Hacc.
    eapply (accounted_access _ st _ _ _ st2); [done|reflexivity|done| |done].
    destruct Hf as [-> | ->]; auto.
Qed.

Lemma access_Acc s s' t c rest label val tl :
  Inv n items (pushed s (FetchEvent t c :: rest)) → minimal (FetchEvent t c) rest →
  items < 2 ^ 32 → current_time s ≤ t → label ≠ 2 →
  traces s !! c = Some ((label, val) :: tl) →
  Acc (pushed s (FetchEvent t c :: rest)) →
  execute_access t c label val (set_traces (<[c := tl]> (traces s)) (popped s t rest))
  = Ok s' → Acc s'.
Proof.
  intros Hinv Hm Hit Ht Hlabel Htr HA H.
  pose proof (fetch_core n items Hit s t c rest Hinv Hm) as Hc.
  destruct (fetch_unique n items Hit s t c rest Hinv Hm) as (Huniq & _).
  pose proof (item_range n items (pushed s (FetchEvent t c :: rest)) c _ _ Hinv Htr) as Hv.
  unfold execute_access in H. apply bind_Ok in H as (w1 & H1 & H). simpl in H, H1.
  apply bind_Ok in H as ([[r p'] w2] & H2 & H). simpl in Hv.
  assert (stats_frame w1 w2) as Hfr.
  { destruct (hpr_law n (protocol s) w1 c val (bool_decide (label = 1)))
      as (r' & p'' & w'' & H2' & _ & Hfr & _); [apply Hinv| |done..|congruence].
    unfold on_core in H1. inv_ok. rewrite length_insert. apply Hinv. }
  assert (∃ f w3, on_core c f w2 = Ok w3 ∧ (f = inc_cache_hits ∨ f = inc_cache_misses) ∧
    stats s' = w3 ∧ current_time s' = t ∧ rest ⊆ events s' ∧
    traces s' = <[c := tl]> (traces s)) as (f & w3 & H3 & Hf & Hw & Hct & Hsub & Htr').
  { split_if; apply bind_Ok in H as (w3 & H3 & H);
      [|apply bind_Ok in H as (bl & _ & H); destruct (bus_busy s); simpl in H];
      eexists _, w3; (split; [exact H3|]); simplify_eq/=; (split; [auto|]);
      (split_and!; [done|done|set_solver|done]). }
  destruct (access_counters c label val f _ _ _ _ Hlabel H1 Hfr H3 Hf) as [Hother Hcore].
  subst w3. eapply Acc_fetch; try done; try apply Hinv; [exact Hv|].
  intros v Hvt. left. simpl. rewrite bool_decide_false by done. lia.
Qed.

Lemma dispatch_Acc s s' e rest :
  Inv n items s → items < 2 ^ 32 → events s ≡ₚ e :: rest → minimal e rest →
  dispatch rp e rest s = Ok s' → Acc s → Acc s'.
Proof.
  intros Hinv Hit Hev Hm H HA. apply (Inv_events _ _ _ _ Hev) in Hinv.
  assert (Acc (pushed s (e :: rest))) as HA'.
  { intros i Hi. destruct (HA i Hi) as (read & left & st & H1 & H2 & H3 & H4 & H5 & H6).
    exists read, left, st. split_and!; try done; try apply H5. unfold clocked in *.
    simpl. by setoid_rewrite <- Hev. }
  assert (current_time s ≤ timestamp e) as Ht.
  { pose proof (inv_time _ _ _ Hinv) as Htm. simpl in Htm.
    by apply Forall_cons in Htm as [[? _] _]. }
  unfold dispatch in H. destruct e as [t|t|t c|t c]; simpl in H.
  - unfold execute_release in H. simplify_eq/=.
    destruct (bus_queue s); eapply Acc_frame; try done. simpl. set_solver.
  - by eapply arbitration_Acc.
  - unfold execute_unblock in H. inv_ok. eapply Acc_frame; try done. simpl. set_solver.
  - pose proof (fetch_core n items Hit s t c rest Hinv Hm) as Hc.
    destruct (fetch_unique n items Hit s t c rest Hinv Hm) as (Huniq & _).
    unfold execute_fetch in H. apply bind_Ok in H as ([] & _ & H).
    { simplify_eq. by eapply Acc_frame. }
    apply bind_Ok in H as ([|[label val] tl] & Htr%vget_Ok & H); simpl in Htr.
    { inv_ok. by eapply Acc_frame. }
    apply bind_Ok in H as (tr' & [_ ->]%vset_Ok & H); simpl in H.
    destruct (bool_decide (label = 2)) eqn:Hl.
    + apply bool_decide_eq_true in Hl as ->.
      pose proof (item_range n items (pushed s (FetchEvent t c :: rest)) c _ _ Hinv Htr) as Hv.
      simpl in Hv. apply bind_Ok in H as (w' & Hw & H). simplify_eq/=.
      destruct (fetch_time n items s t c rest Hinv Hm) as (Ht0 & Ht2 & _).
      pose proof (on_core_lookup _ _ _ _ Hw) as Hwl.
      eapply Acc_fetch; try done; try apply Hinv; [exact Hv|simpl; set_solver|..].
      * intros i st Hi Hst. simpl. rewrite Hwl, decide_False by done. eauto.
      * intros st Hst. simpl. rewrite Hwl, decide_True, Hst by done. eexists. split; [done|].
        intros read (Hc1 & Hld & Hst1 & Hhm). unfold accounted.
        rewrite computes_snoc, loads_snoc, stores_snoc. simpl. rewrite !Z.add_0_r.
        by rewrite Hc1, u64_add_l.
      * intros v Hvt. right. eexists. split; [by left|]. simpl. split; [done|].
        pose proof (work_nonneg (pushed s rest)). rewrite u64_small; lia.
    + apply bool_decide_eq_false in Hl. by eapply access_Acc.
Qed.

Lemma reachable_Acc s : proto_ok n p → traces_ok → reachable s → Acc s.
Proof.
  intros Hp Ht Hs.
  cut (Inv n items s ∧ Acc s); [tauto|]. assert (items < 2 ^ 32) as Hi by apply Ht.
  assert (Inv n items (initial n p tr) ∧ Acc (initial n p tr)) as H0
    by auto using initial_Inv, initial_Acc.
  unfold reachable in Hs. revert H0. induction Hs as [|s1 s2 s3 H12 _ IH]; [done|].
  intros [H1 H2]. apply IH. destruct H12 as [e rest _ Hev Hm Hd].
  split; [|by eapply dispatch_Acc].
  destruct (dispatch_Inv rp n items Hi s1 e rest H1 Hev Hm) as (s' & Hd' & Hinv'). congruence.
Qed.

(** ** The run *)

Lemma initial_bound :
  iterations_left (initial n p tr) = (5 * sum_list (length <$> tr) + n)%nat.
Proof.
  assert (∀ l, total_weight (FetchEvent 0 <$> l) = length l) as Hw.
  { induction l as [|c l IH]; [done|]. rewrite fmap_cons, total_weight_cons, IH. done. }
  unfold iterations_left. simpl. rewrite Hw, length_reverse, length_seq. lia.
Qed.

Lemma finished_initial : (0 < n)%nat → finished (initial n p tr) = false.
Proof. destruct n; [lia|done]. Qed.

(** What is true of the state in which the loop stops. *)
Lemma final_state s :
  proto_ok n p → traces_ok → reachable s → events s = [] ∨ finished s = true →
  (∀ i l, tr !! i = Some l → ∃ st,
     traces s !! i = Some [] ∧ c_stats (stats s) !! i = Some st ∧ accounted l st ∧
     compute_cycles st = computes l ∧ computes l ≤ current_time s) ∧
  bus_queue s = [].
Proof.
  intros Hp Ht Hs Hend. pose proof (reachable_Inv s Hp Ht Hs) as Hinv.
  destruct (final_tokens s Hinv Hend) as [Hcore Hq]. split; [|done]. intros i l Hl.
  assert (i < n)%nat as Hi. { apply lookup_lt_Some in Hl. destruct Ht as [<- _]. done. }
  destruct (reachable_Acc s Hp Ht Hs i Hi) as (read & left & st & H1 & H2 & H3 & H4 & H5 & H6).
  pose proof (inv_exhausted _ _ _ Hinv i (exhausted_all s i Hinv Hend Hi)) as Hx.
  rewrite Hx in H2.
  injection H2 as <-. rewrite app_nil_r in H1. simplify_eq. exists st. split_and!; try done.
  - destruct H4 as [-> _]. apply u64_small. split; [lia|].
    assert (Z.of_nat (length l) ≤ items) as Hle.
    { unfold items. rewrite <- (take_drop_middle tr i l Hl).
      rewrite fmap_app, fmap_cons, sum_list_with_app. cbn. lia. }
    destruct Ht as (_ & _ & Hit). nia.
  - destruct H6 as [?|(e & He & Hc & _)]; [done|].
    assert (i ∈ carried event_core (events s)) as Hin by (apply elem_of_carried; eauto).
    rewrite Hcore in Hin. by apply elem_of_nil in Hin.
Qed.

End Runs.
