(* ===== verification/CohMain.v ===== *)
(** * The coherence simulator, end to end

    The properties of whole simulations: for every protocol that implements the
    interface, and for the five protocols of the sources. *)

From S2P Require Import Prelude CohDefs CohCache CohLru CohProto CohMesi CohSmart.
From S2P Require Import CohMoesi CohMesif CohDragon CohSim CohSimInv CohSimRun.

(** ** A small simulation *)

(** Two cores that share a block, write it, and compute. *)
Definition demo_traces : list (list (Z * Z)) :=
  [[(0, 64); (2, 5); (1, 64); (0, 128)]; [(0, 68); (1, 64); (2, 3); (0, 192)]].

Lemma demo_ok : traces_ok 2 demo_traces.
Proof. split; [done|]. split; [|done]. repeat constructor; simpl; lia. Qed.

(** The state a run of 128-byte 2-way caches with 16-byte blocks ends in. *)
Definition demo {St} `{CoherenceProtocol (Protocol St)} (new : result (Protocol St))
    : result (Protocol St * Simulator (Protocol St)) :=
  p ← new; s ← run false 50 2 p demo_traces; Ok (p, s).

Lemma demo_reachable {St} `{CoherenceProtocol (Protocol St)} new p s :
  demo new = Ok (p, s) → new = Ok p ∧ reachable false 2 p demo_traces s.
Proof.
  unfold demo. destruct new as [q|]; simpl; [|done]. intros H1. inv_ok. split; [done|].
  by eapply run_loop_reaches.
Qed.

(** ** Whole runs *)

Section AnyProtocol.
Context {P : Type} `{HP : !CoherenceProtocol P} `{HL : !CoherenceProtocolLaws P}.
Implicit Types (s : Simulator P).

(** C3: a simulation always completes.  Whatever protocol implements the
    interface, the loop stops within five iterations per trace item and one per
    core, without a fault; every trace has been read to its end, no request
    waits, and each core's counters say exactly what its trace asked for: the
    computing cycles, the loads and stores, and that each access was counted
    once, as a hit or as a miss.  The final clock covers every core's
    computing. *)
Theorem run_completes rp n (p : P) tr fuel :
  proto_ok n p → traces_ok n tr → (5 * sum_list (length <$> tr) + n < fuel)%nat →
  ∃ s, run rp fuel n p tr = Ok s ∧ bus_queue s = [] ∧
    ∀ i l, tr !! i = Some l → ∃ st,
      traces s !! i = Some [] ∧ c_stats (stats s) !! i = Some st ∧
      compute_cycles st = computes l ∧ load_count st = i32 (loads l) ∧
      store_count st = i32 (stores l) ∧
      i32 (cache_hits st + cache_misses st) = i32 (loads l + stores l) ∧
      computes l ≤ current_time s.
Proof.
  intros Hp Ht Hf. unfold run.
  assert (∃ s, run_loop rp fuel (initial n p tr) = Ok s ∧ reachable rp n p tr s ∧
               (events s = [] ∨ finished s = true)) as (s & H & Hs & Hend).
  { destruct (decide (n = 0%nat)) as [->|Hn].
    { destruct fuel; [lia|]. eexists. split; [done|]. split; [by constructor|by left]. }
    apply (run_loop_steps rp n tr); [apply Ht|by apply initial_Inv| |].
    - apply finished_initial. lia.
    - rewrite initial_bound. lia. }
  destruct (final_state rp n p tr s Hp Ht Hs Hend) as [Hfin Hq].
  exists s. split; [done|]. split; [done|]. intros i l Hl.
  destruct (Hfin i l Hl) as (st & H1 & H2 & (_ & H3 & H4 & H5) & H6 & H7).
  by exists st.
Qed.

(** C13: no simulation faults or deadlocks.  In every reachable state, whichever
    of the minimal events the priority queue delivers, its handler returns (in
    particular an upgrade that waited for the bus still finds its line), and
    when no event is left every trace has been read. *)
Theorem simulation_progress rp n (p : P) tr s :
  proto_ok n p → traces_ok n tr → reachable rp n p tr s →
  (∀ e rest, events s ≡ₚ e :: rest → minimal e rest → ∃ s', dispatch rp e rest s = Ok s') ∧
  (events s = [] → ∀ i l, traces s !! i = Some l → l = []).
Proof.
  intros Hp Ht Hs. pose proof (reachable_Inv rp n p tr s Hp Ht Hs) as Hinv. split.
  - intros e rest He Hm.
    destruct (dispatch_Inv rp n (items tr) (proj2 (proj2 Ht)) s e rest Hinv He Hm)
      as (s' & H & _). eauto.
  - intros He i l Hl. assert (i < n)%nat as Hi.
    { rewrite <- (inv_traces_len _ _ _ Hinv). by eapply lookup_lt_Some. }
    rewrite (inv_exhausted _ _ _ Hinv i) in Hl; [by simplify_eq|].
    eapply exhausted_all; eauto.
Qed.

(** Every core is in exactly one place (a pending fetch or unblock, the bus
    queue, or done), the blocked cores are exactly those that wait for the bus
    or for its answer, the bus is busy exactly while one release is pending,
    and a free bus with waiting requests has an arbitration scheduled. *)
Theorem core_in_one_place rp n (p : P) tr s :
  proto_ok n p → traces_ok n tr → reachable rp n p tr s →
  tokens n s ≡ₚ seq 0 n ∧
  (∀ i b, blocked s !! i = Some b → b = bool_decide (i ∈ waiting s)) ∧
  length (carried release_token (events s)) = (if bus_busy s then 1 else 0)%nat ∧
  (bus_busy s = false → bus_queue s ≠ [] → Exists is_arbitration (events s)).
Proof.
  intros Hp Ht Hs. pose proof (reachable_Inv rp n p tr s Hp Ht Hs) as Hinv.
  split_and!; apply Hinv.
Qed.

(** C14: time never runs backwards and never wraps.  A step goes to the time of
    the event it takes, which is not before the current time, and every event
    still pending lies at or after it and below 2^64. *)
Theorem time_monotone rp n (p : P) tr s s' :
  proto_ok n p → traces_ok n tr → reachable rp n p tr s → step rp s s' →
  current_time s ≤ current_time s' ∧
  Forall (λ e, current_time s' ≤ timestamp e < 2 ^ 64) (events s').
Proof.
  intros Hp Ht Hs Hstep. pose proof (reachable_Inv rp n p tr s Hp Ht Hs) as Hinv.
  pose proof (step_Inv rp n (items tr) (proj2 (proj2 Ht)) s s' Hinv Hstep) as Hinv'.
  split.
  - destruct Hstep as [e rest _ He _ Hd]. rewrite (dispatch_time rp e rest s s' Hd).
    pose proof (inv_time _ _ _ Hinv) as Htm. rewrite He in Htm.
    by apply Forall_cons in Htm as [[? _] _].
  - eapply Forall_impl; [apply (inv_time _ _ _ Hinv')|]. intros e [H1 H2].
    pose proof (work_nonneg s'). destruct Ht as (_ & _ & Hit). split; [done|lia].
Qed.
End AnyProtocol.

(** The arbiter serves a best request.  The chosen one is in the queue, no
    other precedes it (reads first when READ_PRIORITY is set, then by arrival,
    then by core), and it precedes every request queued before it. *)
Theorem arbiter_order rp (l : list BusRequest) i r :
  min_element (request_before rp) l = Some (i, r) →
  l !! i = Some r ∧
  ∀ j r', l !! j = Some r' →
    request_before rp r' r = false ∧ ((j < i)%nat → request_before rp r r' = true).
Proof.
  intros H. split; [by apply min_element_Some in H|]. by apply min_element_least.
Qed.

(** ** The five protocols *)

(** C8: MESI is coherent.  In every state a simulation reaches, a core that
    holds a line EXCLUSIVE or MODIFIED is the only one with a valid copy. *)
Theorem mesi_single_writer rp n size assoc bsize p tr s :
  0 < assoc → 0 < bsize → assoc * bsize ≤ size < 2 ^ 31 →
  MESI.new n size assoc bsize = Ok p → traces_ok n tr → reachable rp n p tr s →
  swmr MESI.INVALID MESI.exclusive (protocol s).
Proof.
  intros Ha Hb Hs Hp Ht Hr. destruct (MESI.mesi_new_ok n size assoc bsize Ha Hb Hs) as (p' & Hp' & Hok).
  assert (p' = p) as -> by congruence.
  destruct (inv_protocol _ _ _ (reachable_Inv rp n p tr s Hok Ht Hr)) as (g & H).
  apply H.
Qed.

(** C12: the clean-preferred replacement of MESI_SMART keeps MESI coherent. *)
Theorem mesi_smart_single_writer rp n size assoc bsize p tr s :
  0 < assoc → 0 < bsize → assoc * bsize ≤ size < 2 ^ 31 →
  MESI_SMART.new n size assoc bsize = Ok p → traces_ok n tr →
  reachable (HP := MESI_SMART.protocol) rp n p tr s →
  swmr MESI.INVALID MESI.exclusive (protocol s).
Proof.
  intros Ha Hb Hs Hp Ht Hr.
  destruct (MESI_SMART.smart_new_ok n size assoc bsize Ha Hb Hs) as (p' & Hp' & Hok).
  assert (p' = p) as -> by congruence.
  destruct (inv_protocol _ _ _
    (reachable_Inv (HL := MESI_SMART.laws) rp n p tr s Hok Ht Hr)) as (g & H).
  apply H.
Qed.

(** C9: MOESI is coherent, and every line has at most one owner (EXCLUSIVE,
    MODIFIED or OWNED), the only one that may have to supply or write it back. *)
Theorem moesi_coherent rp n size assoc bsize p tr s :
  0 < assoc → 0 < bsize → assoc * bsize ≤ size < 2 ^ 31 →
  MOESI.new n size assoc bsize = Ok p → traces_ok n tr → reachable rp n p tr s →
  swmr MOESI.INVALID MOESI.exclusive (protocol s) ∧ unique_owner MOESI.owner (protocol s).
Proof.
  intros Ha Hb Hs Hp Ht Hr. destruct (MOESI.moesi_new_ok n size assoc bsize Ha Hb Hs) as (p' & Hp' & Hok).
  assert (p' = p) as -> by congruence.
  destruct (inv_protocol _ _ _ (reachable_Inv rp n p tr s Hok Ht Hr)) as (g & H).
  split; apply H.
Qed.

(** C10: MESIF is coherent, and every line has at most one designated responder
    (EXCLUSIVE, MODIFIED or FORWARD). *)
Theorem mesif_coherent rp n size assoc bsize p tr s :
  0 < assoc → 0 < bsize → assoc * bsize ≤ size < 2 ^ 31 →
  MESIF.new n size assoc bsize = Ok p → traces_ok n tr → reachable rp n p tr s →
  swmr MESIF.INVALID MESIF.exclusive (protocol s) ∧ unique_owner MESIF.owner (protocol s).
Proof.
  intros Ha Hb Hs Hp Ht Hr. destruct (MESIF.mesif_new_ok n size assoc bsize Ha Hb Hs) as (p' & Hp' & Hok).
  assert (p' = p) as -> by congruence.
  destruct (inv_protocol _ _ _ (reachable_Inv rp n p tr s Hok Ht Hr)) as (g & H).
  split; apply H.
Qed.

(** C11: Dragon is coherent: exclusive copies are alone, a shared line has at
    most one SHARED_MODIFIED owner, and, the protocol being update based, no
    line is ever INVALID. *)
Theorem dragon_coherent rp n size assoc bsize p tr s :
  0 < assoc → 0 < bsize → assoc * bsize ≤ size < 2 ^ 31 →
  Dragon.new n size assoc bsize = Ok p → traces_ok n tr → reachable rp n p tr s →
  swmr Dragon.INVALID Dragon.exclusive (protocol s) ∧
  unique_owner Dragon.owner (protocol s) ∧ Dragon.never_invalid (protocol s).
Proof.
  intros Ha Hb Hs Hp Ht Hr. destruct (Dragon.dragon_new_ok n size assoc bsize Ha Hb Hs) as (p' & Hp' & Hok).
  assert (p' = p) as -> by congruence.
  destruct (inv_protocol _ _ _ (reachable_Inv rp n p tr s Hok Ht Hr)) as (g & H).
  split_and!; apply H.
Qed.

(** ** Single transactions *)

Lemma real_victim k (p : MESI.MESIProtocol) req type victim :
  (if bool_decide (type = BUS_UPGR) then is_Some (pst p req k) else pst p req k = None ∨ pst p req k = Some MESI.INVALID) →
  (∀ v, victim = Some v → type ≠ BUS_UPGR ∧ v.1 = k.1) →
  ((victim ≫= real_line k p req) ≫= pst p req = Some MESI.MODIFIED ↔ victim_state MESI.INVALID p req victim = Some MESI.MODIFIED) ∧
  ∀ v, victim ≫= real_line k p req = Some v → type ≠ BUS_UPGR ∧ v.1 = k.1 ∧ v ≠ k ∧ is_Some (pst p req v).
Proof.
  intros Hk Hv. destruct victim as [v|]; [|done]. destruct (Hv v eq_refl) as [Ht Hs]. rewrite bool_decide_false in Hk by done.
  unfold real_line, victim_state. simpl. destruct (decide _) as [[H1 H2]|Hd]; simpl.
  - split; [destruct (pst p req v); naive_solver|]. naive_solver.
  - split; [|done]. split; [done|]. intros [= Hm]. destruct Hd. destruct (pst p req v) eqn:Hp; [|done]. simpl in Hm. subst.
    split; [|done]. intros ->. naive_solver.
Qed.

(** C16: one MESI transaction, on a read or write miss or an upgrade.  The requester's line
    ends MODIFIED, or after a read SHARED or EXCLUSIVE as another core answered or not;
    the other copies are invalidated by writes and demoted by reads; every other line of
    every core stays but for the victim of a miss, a line of the requester in the same
    set that is then gone; the bus is held for a cache-to-cache or a memory transfer, 100 cycles
    longer exactly when there is a victim and it was MODIFIED, which is then counted as
    written back. *)
Theorem mesi_transaction g n p w req type addr :
  MESI.ok g n p → length (c_stats w) = n → (req < n)%nat → 0 ≤ addr →
  type ≠ NONE → type ≠ WRITEBACK →
  let k := locate_g g addr in
  (if bool_decide (type = BUS_UPGR) then is_Some (pst p req k)
   else pst p req k = None ∨ pst p req k = Some MESI.INVALID) →
  let shared := bool_decide (snooped MESI.INVALID req p k (seq 0 n) ≠ []) in
  ∃ lat p' w' victim,
    let wb := bool_decide (victim ≫= pst p req = Some MESI.MODIFIED) in
    MESI.handle_bus_transaction p w req type addr = Ok (lat, p', w') ∧
    served_victim MESI.INVALID (MESI.snoop_to type) req k (MESI.fill_state type shared) victim p p' ∧
    (∀ v, victim = Some v → type ≠ BUS_UPGR ∧ v.1 = k.1 ∧ v ≠ k ∧ is_Some (pst p req v)) ∧
    lat = (if bool_decide (type = BUS_UPGR) then 0
           else (if shared then 1 + 2 * Z.quot (block_size p) 4 else 101)
                + (if wb then 100 else 0)) ∧
    bus_writebacks (g_stats w')
    = (if wb then i32 (bus_writebacks (g_stats w) + 1) else bus_writebacks (g_stats w)).
Proof.
  intros Hok Hw Hr Ha Hn Hb k Hup shared.
  destruct (MESI.mesi_hbt_spec _ g n p w req type addr (set_allocate_ok MESI.INVALID)
              Hok Hw Hr Ha Hn Hb) as (lat & p' & w' & vo & H & _ & _ & Hsv & Hvo & Hrest).
  { intros ->. exact Hup. }
  fold k in Hsv, Hvo. fold shared in Hsv, Hrest. destruct (real_victim k p req type vo Hup Hvo) as (Hmod & Hreal).
  exists lat, p', w', (vo ≫= real_line k p req). split; [done|]. split; [by apply served_real|].
  split; [exact Hreal|]. rewrite (bool_decide_ext _ _ Hmod). exact Hrest.
Qed.

(** One MOESI transaction: as in MESI, but a MODIFIED copy that is read
    becomes OWNED, the data comes from a cache only when one owns the line, and
    OWNED victims are written back too. *)
Theorem moesi_transaction g n p w req type addr :
  MOESI.ok g n p → length (c_stats w) = n → (req < n)%nat → 0 ≤ addr →
  type ≠ NONE → type ≠ WRITEBACK →
  let k := locate_g g addr in
  (type = BUS_UPGR → is_Some (pst p req k)) →
  let others := snooped MOESI.INVALID req p k (seq 0 n) in
  ∃ lat p' w' lost,
    MOESI.handle_bus_transaction p w req type addr = Ok (lat, p', w') ∧
    served MOESI.INVALID (MOESI.snoop_to type) req k
      (MOESI.fill_state type (bool_decide (others ≠ []))) lost p p' ∧
    lat = (if bool_decide (type = BUS_UPGR) then 0
           else (if existsb MOESI.supplies others then 1 + 2 * Z.quot (block_size p) 4 else 101)
                + (if MOESI.dirty lost then 100 else 0)) ∧
    bus_writebacks (g_stats w')
    = (if MOESI.dirty lost then i32 (bus_writebacks (g_stats w) + 1)
       else bus_writebacks (g_stats w)).
Proof.
  intros Hok Hw Hr Ha Hn Hb k Hup others.
  destruct (MOESI.moesi_hbt_spec g n p w req type addr Hok Hw Hr Ha Hn Hb Hup)
    as (lat & p' & w' & lost & H & _ & _ & Hrest).
  exists lat, p', w', lost. by split.
Qed.

(** One MESIF transaction: a reader of a shared line takes over the FORWARD
    role from the previous responder, and the data comes from a cache only when
    one is the line's responder. *)
Theorem mesif_transaction g n p w req type addr :
  MESIF.ok g n p → length (c_stats w) = n → (req < n)%nat → 0 ≤ addr →
  type ≠ NONE → type ≠ WRITEBACK →
  let k := locate_g g addr in
  (type = BUS_UPGR → is_Some (pst p req k)) →
  let others := snooped MESIF.INVALID req p k (seq 0 n) in
  ∃ lat p' w' lost,
    MESIF.handle_bus_transaction p w req type addr = Ok (lat, p', w') ∧
    served MESIF.INVALID (MESIF.snoop_to type) req k
      (MESIF.fill_state type (bool_decide (others ≠ []))) lost p p' ∧
    lat = (if bool_decide (type = BUS_UPGR) then 0
           else (if existsb MESIF.supplies others then 1 + 2 * Z.quot (block_size p) 4 else 101)
                + (if MESIF.dirty lost then 100 else 0)) ∧
    bus_writebacks (g_stats w')
    = (if MESIF.dirty lost then i32 (bus_writebacks (g_stats w) + 1)
       else bus_writebacks (g_stats w)).
Proof.
  intros Hok Hw Hr Ha Hn Hb k Hup others.
  destruct (MESIF.mesif_hbt_spec g n p w req type addr Hok Hw Hr Ha Hn Hb Hup)
    as (lat & p' & w' & lost & H & _ & _ & Hrest).
  exists lat, p', w', lost. by split.
Qed.

(** One Dragon transaction: an update keeps every copy and makes the
    writer the owner; a fill ends clean, shared or exclusive. *)
Theorem dragon_transaction g n p w req type addr :
  Dragon.ok g n p → length (c_stats w) = n → (req < n)%nat → 0 ≤ addr →
  type = BUS_RD ∨ type = BUS_UPGR →
  let k := locate_g g addr in
  (type = BUS_UPGR → is_Some (pst p req k)) →
  let shared := bool_decide (snooped Dragon.INVALID req p k (seq 0 n) ≠ []) in
  ∃ lat p' w' lost,
    Dragon.handle_bus_transaction p w req type addr = Ok (lat, p', w') ∧
    served Dragon.INVALID (Dragon.snoop_to type) req k (Dragon.fill_state type shared)
      lost p p' ∧
    lat = (if bool_decide (type = BUS_UPGR) then 2
           else (if shared then 1 + 2 * Z.quot (block_size p) 4 else 101)
                + (if Dragon.dirty lost then 100 else 0)) ∧
    bus_writebacks (g_stats w')
    = (if Dragon.dirty lost then i32 (bus_writebacks (g_stats w) + 1)
       else bus_writebacks (g_stats w)).
Proof.
  intros Hok Hw Hr Ha Htype k Hup shared.
  destruct (Dragon.dragon_hbt_spec g n p w req type addr Hok Hw Hr Ha Htype Hup)
    as (lat & p' & w' & lost & H & _ & _ & Hrest).
  exists lat, p', w', lost. by split.
Qed.

(** ** Replacement *)

(** MESI_SMART's victim.  A full set evicts the line that is clean and
    least recently used among the clean ones, every line used less recently
    being MODIFIED; when all are, it evicts the least recently used one. *)
Theorem smart_victim t s ev s' :
  MESI_SMART.set_allocate t s = Ok (ev, s') →
  u64 (assoc s) ≤ Z.of_nat (size (lines s)) →
  let dirty u := state (lines_at MESI.INVALID (lines s) u) = MESI.MODIFIED in
  ∃ l1 v l2, lru_order s = l1 ++ v :: l2 ∧
    ev = Some (lines_at MESI.INVALID (lines s) v) ∧
    lru_order s' = t :: l1 ++ l2 ∧
    lines s' = <[t := mkLine t MESI.INVALID]> (delete v (lines s)) ∧
    (¬ dirty v ∧ Forall dirty l2 ∨ Forall dirty (lru_order s) ∧ l2 = []).
Proof.
  intros H Hfull dirty. unfold MESI_SMART.set_allocate in H.
  rewrite bool_decide_true in H by done.
  destruct (MESI_SMART.scan_clean _ _) as [[[sk v] rest]|] eqn:Hscan.
  - apply MESI_SMART.scan_clean_Some in Hscan as (Hrev & Hv & Hsk). simplify_eq.
    exists (reverse rest), v, (reverse sk). split_and!; [|done| |done|].
    + rewrite <- (reverse_involutive (lru_order s)), Hrev, reverse_app, reverse_cons.
      by rewrite <- app_assoc.
    + simpl. by rewrite reverse_app.
    + left. split; [done|]. by apply Forall_reverse.
  - apply MESI_SMART.scan_clean_None in Hscan. rewrite Forall_reverse in Hscan.
    destruct (last (lru_order s)) as [v|] eqn:Hl; [|done]. simplify_eq.
    apply last_Some in Hl as [l1 Hl]. exists l1, v, [].
    rewrite Hl, removelast_last, app_nil_r in *. split_and!; auto.
Qed.

(** C15: a cache set is a bounded LRU list.  Looking a tag up moves its entry to
    the front; allocating an absent tag puts it in front, INVALID, and when the
    set is full evicts exactly the least recently used entry; the map and the
    list of tags stay consistent and within the associativity. *)
Theorem lru_set_refines {St} `{EqDecision St} (INVALID : St) t s :
  lru_wf s →
  (lru_wf (find t s).2 ∧ entries INVALID (find t s).2 = touch t (entries INVALID s)) ∧
  (lines s !! t = None → ∃ ev s', set_allocate INVALID t s = Ok (ev, s') ∧ lru_wf s' ∧
     ((λ ln, (tag ln, state ln)) <$> ev, entries INVALID s')
     = insert_new INVALID (Z.to_nat (assoc s)) t (entries INVALID s)).
Proof. intros Hs. split; [by apply find_refines|]. by apply allocate_refines. Qed.

(** ** What the sources do not handle *)

(** The contents of a cache set, by tag. *)
Definition set_contents {St} (s : LRUCacheSet St) : list Z * list (Z * St) :=
  (lru_order s, (λ '(t, ln), (t, state ln)) <$> map_to_list (lines s)).

(** The same allocations one after the other. *)
Fixpoint allocate_all {St} (INVALID : St) (ts : list Z) (s : LRUCacheSet St)
    : result (LRUCacheSet St) :=
  match ts with
  | [] => Ok s
  | t :: ts => '(_, s') ← set_allocate INVALID t s; allocate_all INVALID ts s'
  end.

(** [allocate] does not reuse the entry of a tag that is present but INVALID:
    the tag is listed twice, a valid line is evicted for nothing, and once the
    stale copies have become victims the set holds more lines than its
    associativity. *)
Theorem reallocation_overflows :
  let s := mkSet 2 [1; 2] {[1 := mkLine 1 MESI.INVALID; 2 := mkLine 2 MESI.MODIFIED]} in
  set_contents <$> allocate_all MESI.INVALID [1] s = Ok ([1; 1], [(1, MESI.INVALID)]) ∧
  (λ s', size (lines s')) <$> allocate_all MESI.INVALID [1; 3; 5; 7] s = Ok 3%nat.
Proof. by split; vm_compute. Qed.

(** The transactions of a list of requests, with their latencies. *)
Fixpoint serve_all {St} `{CoherenceProtocol (Protocol St)} (p : Protocol St) (w : Stats)
    (l : list (nat * BusTransactionType * Z)) : result (list Z * Protocol St * Stats) :=
  match l with
  | [] => Ok ([], p, w)
  | (id, type, addr) :: l =>
      '(lat, p1, w1) ← handle_bus_transaction p w id type addr;
      '(lats, p2, w2) ← serve_all p1 w1 l;
      Ok (lat :: lats, p2, w2)
  end.

(** Two sharers that upgrade at the same time: the second request is still an
    upgrade although its copy is INVALID by then.  It gets the line MODIFIED in
    no time, without any transfer, and the other core's MODIFIED copy is
    dropped without being written back. *)
Theorem stale_upgrade :
  (λ '(lats, p, w), (lats, pst p 0 (0%nat, 1), pst p 1 (0%nat, 1),
                     bus_writebacks (g_stats w), total_data_traffic_bytes (g_stats w)))
  <$> (p ← MESI.new 2 128 2 16;
       serve_all p (mkStats GlobalStatistics_init [Statistics_init; Statistics_init])
         [(0%nat, BUS_RD, 64); (1%nat, BUS_RD, 64);
          (0%nat, BUS_UPGR, 64); (1%nat, BUS_UPGR, 64)])
  = Ok ([101; 9; 0; 0], Some MESI.INVALID, Some MESI.MODIFIED, 0, 32).
Proof. by vm_compute. Qed.

(** A Dragon write miss ends in a clean state: the request is a plain read and
    the store itself is never applied. *)
Theorem dragon_write_miss_clean :
  (p ← Dragon.new 1 128 2 16;
   '(r, p1, w1) ← handle_processor_request p
                     (mkStats GlobalStatistics_init [Statistics_init]) 0 64 true;
   '(_, p2, _) ← handle_bus_transaction p1 w1 0 (bus_action r) 64;
   Ok (bus_action r, pst p2 0 (0%nat, 1)))
  = Ok (BUS_RD, Some Dragon.EXCLUSIVE).
Proof. by vm_compute. Qed.

(** ** Witnesses *)

Lemma demo_state {St} `{HP : CoherenceProtocol (Protocol St)}
    `{HL : !CoherenceProtocolLaws (Protocol St)} (new : result (Protocol St)) t :
  (∃ p, new = Ok p ∧ proto_ok 2 p) → (λ '(_, s), current_time s) <$> demo new = Ok t →
  ∃ p s, new = Ok p ∧ proto_ok 2 p ∧ reachable false 2 p demo_traces s ∧ current_time s = t.
Proof.
  intros (p & Hn & Hok) Ht. destruct (demo new) as [[p' s]|] eqn:E; [|done].
  destruct (demo_reachable _ _ _ E) as [Hn' Hr]. simplify_eq/=. by exists p', s.
Qed.

Lemma mesi_demo : ∃ p (s : Simulator MESI.MESIProtocol), MESI.new 2 128 2 16 = Ok p ∧ proto_ok 2 p ∧
  reachable false 2 p demo_traces s ∧ current_time s = 324.
Proof. apply demo_state; [by apply MESI.mesi_new_ok|by vm_compute]. Qed.

Lemma run_completes_witness : ∃ p (s : Simulator MESI.MESIProtocol), MESI.new 2 128 2 16 = Ok p ∧
  run false 43 2 p demo_traces = Ok s ∧ bus_queue s = [].
Proof.
  destruct (MESI.mesi_new_ok 2 128 2 16) as (p & Hp & Hok); [done..|].
  destruct (run_completes (P := MESI.MESIProtocol) false 2 p demo_traces 43 Hok demo_ok) as (s & Hr & Hq & _);
    [vm_compute; lia|]. by exists p, s.
Defined.

Lemma simulation_progress_witness : ∃ p (s : Simulator MESI.MESIProtocol), MESI.new 2 128 2 16 = Ok p ∧
  current_time s = 324 ∧
  (∀ e rest, events s ≡ₚ e :: rest → minimal e rest → ∃ s', dispatch false e rest s = Ok s').
Proof.
  destruct mesi_demo as (p & s & Hp & Hok & Hr & Ht). exists p, s. split_and!; [done..|].
  by apply (simulation_progress (P := MESI.MESIProtocol) false 2 p demo_traces s Hok demo_ok Hr).
Defined.

Lemma core_in_one_place_witness : ∃ p (s : Simulator MESI.MESIProtocol), MESI.new 2 128 2 16 = Ok p ∧
  current_time s = 324 ∧ tokens 2 s ≡ₚ [0; 1]%nat.
Proof.
  destruct mesi_demo as (p & s & Hp & Hok & Hr & Ht). exists p, s. split_and!; [done..|].
  by apply (core_in_one_place (P := MESI.MESIProtocol) false 2 p demo_traces s Hok demo_ok Hr).
Defined.

Lemma time_monotone_witness : ∃ p (s : Simulator MESI.MESIProtocol), MESI.new 2 128 2 16 = Ok p ∧
  step false (initial 2 p demo_traces) s ∧ 0 ≤ current_time s.
Proof.
  destruct (MESI.mesi_new_ok 2 128 2 16) as (p & Hp & Hok); [done..|].
  assert (∃ s, step false (initial 2 p demo_traces) s) as [s Hs].
  { assert (Inv 2 (items demo_traces) (initial 2 p demo_traces)) as Hinv
      by (apply initial_Inv; [done|apply demo_ok]).
    destruct (dispatch_Inv (P := MESI.MESIProtocol) false 2 (items demo_traces) ltac:(done) (initial 2 p demo_traces)
                (FetchEvent 0 1) [FetchEvent 0 0] Hinv) as (s & Hd & _); [done|by repeat constructor|].
    exists s. by eapply step_event; [..|exact Hd]; [|done|repeat constructor]. }
  exists p, s. split_and!; [done..|].
  by destruct (time_monotone (P := MESI.MESIProtocol) false 2 p demo_traces _ s Hok demo_ok
              (rtc_refl _ _) Hs) as [H _].
Defined.

Lemma arbiter_order_witness :
  let q := [mkRequest 1 BUS_RDX 0 5; mkRequest 0 BUS_RD 0 7] in
  request_before true (mkRequest 1 BUS_RDX 0 5) (mkRequest 0 BUS_RD 0 7) = false ∧
  request_before true (mkRequest 0 BUS_RD 0 7) (mkRequest 1 BUS_RDX 0 5) = true.
Proof.
  destruct (arbiter_order true [mkRequest 1 BUS_RDX 0 5; mkRequest 0 BUS_RD 0 7] 1
              (mkRequest 0 BUS_RD 0 7)) as [_ H]; [done|].
  destruct (H 0%nat (mkRequest 1 BUS_RDX 0 5)) as [H1 H2]; [done|].
  split; [done|]. apply H2. lia.
Defined.

Lemma mesi_single_writer_witness : ∃ p (s : Simulator MESI.MESIProtocol), MESI.new 2 128 2 16 = Ok p ∧
  current_time s = 324 ∧ swmr MESI.INVALID MESI.exclusive (protocol s).
Proof.
  destruct mesi_demo as (p & s & Hp & Hok & Hr & Ht). exists p, s. split_and!; [done..|].
  by apply (mesi_single_writer false 2 128 2 16 p demo_traces s); [..|apply demo_ok|].
Defined.

Lemma mesi_smart_single_writer_witness : ∃ p (s : Simulator MESI.MESIProtocol), MESI_SMART.new 2 128 2 16 = Ok p ∧
  current_time s = 324 ∧ swmr MESI.INVALID MESI.exclusive (protocol s).
Proof.
  destruct (demo_state (HL := MESI_SMART.laws) (MESI_SMART.new 2 128 2 16) 324)
    as (p & s & Hp & Hok & Hr & Ht); [by apply MESI_SMART.smart_new_ok|by vm_compute|].
  exists p, s. split_and!; [done..|].
  by apply (mesi_smart_single_writer false 2 128 2 16 p demo_traces s); [..|apply demo_ok|].
Defined.

Lemma moesi_coherent_witness : ∃ p (s : Simulator MOESI.MOESIProtocol), MOESI.new 2 128 2 16 = Ok p ∧
  current_time s = 324 ∧ unique_owner MOESI.owner (protocol s).
Proof.
  destruct (demo_state (MOESI.new 2 128 2 16) 324) as (p & s & Hp & Hok & Hr & Ht);
    [by apply MOESI.moesi_new_ok|by vm_compute|].
  exists p, s. split_and!; [done..|].
  by apply (moesi_coherent false 2 128 2 16 p demo_traces s); [..|apply demo_ok|].
Defined.

Lemma mesif_coherent_witness : ∃ p (s : Simulator MESIF.MESIFProtocol), MESIF.new 2 128 2 16 = Ok p ∧
  current_time s = 324 ∧ unique_owner MESIF.owner (protocol s).
Proof.
  destruct (demo_state (MESIF.new 2 128 2 16) 324) as (p & s & Hp & Hok & Hr & Ht);
    [by apply MESIF.mesif_new_ok|by vm_compute|].
  exists p, s. split_and!; [done..|].
  by apply (mesif_coherent false 2 128 2 16 p demo_traces s); [..|apply demo_ok|].
Defined.

Lemma dragon_coherent_witness : ∃ p (s : Simulator Dragon.DragonProtocol), Dragon.new 2 128 2 16 = Ok p ∧
  current_time s = 319 ∧ unique_owner Dragon.owner (protocol s).
Proof.
  destruct (demo_state (Dragon.new 2 128 2 16) 319) as (p & s & Hp & Hok & Hr & Ht);
    [by apply Dragon.dragon_new_ok|by vm_compute|].
  exists p, s. split_and!; [done..|].
  by apply (dragon_coherent false 2 128 2 16 p demo_traces s); [..|apply demo_ok|].
Defined.

Lemma mesi_transaction_witness : ∃ (p p' : MESI.MESIProtocol) g lat w',
  MESI.new 2 128 2 16 = Ok p ∧
  MESI.handle_bus_transaction p (stats (initial 2 p demo_traces)) 1 BUS_RDX 64 = Ok (lat, p', w') ∧
  is_Some (pst p' 1 (locate_g g 64)).
Proof.
  destruct (MESI.mesi_new_ok 2 128 2 16) as (p & Hp & g & Hok); [done..|].
  assert (∀ k, pst p 1 k = None) as Hnew.
  { clear Hok. vm_compute in Hp. injection Hp as <-. intros [i t]. do 4 (destruct i as [|i]; [by vm_compute|]). by vm_compute. }
  destruct (mesi_transaction g 2 p (stats (initial 2 p demo_traces)) 1 BUS_RDX 64 Hok)
    as (lat & p' & w' & victim & H & (_ & _ & Hst & _) & _); [done|lia|done|done|done|by left; apply Hnew|].
  exists p, p', g, lat, w'. split_and!; [done|done|eauto].
Defined.

Lemma moesi_transaction_witness : ∃ (p p' : MOESI.MOESIProtocol) g lat w',
  MOESI.new 2 128 2 16 = Ok p ∧
  MOESI.handle_bus_transaction p (stats (initial 2 p demo_traces)) 1 BUS_RDX 64 = Ok (lat, p', w') ∧
  is_Some (pst p' 1 (locate_g g 64)).
Proof.
  destruct (MOESI.moesi_new_ok 2 128 2 16) as (p & Hp & g & Hok); [done..|].
  destruct (moesi_transaction g 2 p (stats (initial 2 p demo_traces)) 1 BUS_RDX 64 Hok)
    as (lat & p' & w' & lost & H & (_ & _ & Hst & _) & _); [done|lia|done|done|done|done|].
  exists p, p', g, lat, w'. split_and!; [done|done|eauto].
Defined.

Lemma mesif_transaction_witness : ∃ (p p' : MESIF.MESIFProtocol) g lat w',
  MESIF.new 2 128 2 16 = Ok p ∧
  MESIF.handle_bus_transaction p (stats (initial 2 p demo_traces)) 1 BUS_RDX 64 = Ok (lat, p', w') ∧
  is_Some (pst p' 1 (locate_g g 64)).
Proof.
  destruct (MESIF.mesif_new_ok 2 128 2 16) as (p & Hp & g & Hok); [done..|].
  destruct (mesif_transaction g 2 p (stats (initial 2 p demo_traces)) 1 BUS_RDX 64 Hok)
    as (lat & p' & w' & lost & H & (_ & _ & Hst & _) & _); [done|lia|done|done|done|done|].
  exists p, p', g, lat, w'. split_and!; [done|done|eauto].
Defined.

Lemma dragon_transaction_witness : ∃ (p p' : Dragon.DragonProtocol) g lat w',
  Dragon.new 2 128 2 16 = Ok p ∧
  Dragon.handle_bus_transaction p (stats (initial 2 p demo_traces)) 1 BUS_RD 64 = Ok (lat, p', w') ∧
  is_Some (pst p' 1 (locate_g g 64)).
Proof.
  destruct (Dragon.dragon_new_ok 2 128 2 16) as (p & Hp & g & Hok); [done..|].
  destruct (dragon_transaction g 2 p (stats (initial 2 p demo_traces)) 1 BUS_RD 64 Hok)
    as (lat & p' & w' & lost & H & (_ & _ & Hst & _) & _); [done|lia|done|by left|done|].
  exists p, p', g, lat, w'. split_and!; [done|done|eauto].
Defined.

Lemma smart_victim_witness :
  let s := mkSet 2 [7; 5] {[5 := mkLine 5 MESI.MODIFIED; 7 := mkLine 7 MESI.SHARED]} in
  ∃ ev s', MESI_SMART.set_allocate 9 s = Ok (ev, s') ∧ lru_order s' = [9; 5] ∧
  ∃ l1 v l2, [7; 5] = l1 ++ v :: l2 ∧ ev = Some (lines_at MESI.INVALID (lines s) v).
Proof.
  eexists _, _. split; [by vm_compute|]. split; [by vm_compute|].
  edestruct (smart_victim 9 (mkSet 2 [7; 5]
    {[5 := mkLine 5 MESI.MODIFIED; 7 := mkLine 7 MESI.SHARED]})) as (l1 & v & l2 & H1 & H2 & _);
    [by vm_compute|by vm_compute|]. by exists l1, v, l2.
Defined.

Lemma lru_set_refines_witness :
  let s := mkSet 2 [7; 5] {[5 := mkLine 5 MESI.MODIFIED; 7 := mkLine 7 MESI.SHARED]} in
  lru_wf s ∧ entries MESI.INVALID (find 5 s).2 = [(5, MESI.MODIFIED); (7, MESI.SHARED)].
Proof.
  intros s. assert (lru_wf s) as Hs.
  { split; simpl; [|..|done|done].
    - apply (bool_decide_unpack _). by vm_compute.
    - intros t. rewrite !elem_of_cons. unfold s. simpl.
      destruct (decide (t = 5)) as [->|]; [rewrite lookup_insert_eq; naive_solver|].
      rewrite lookup_insert_ne by done.
      destruct (decide (t = 7)) as [->|]; [rewrite lookup_singleton_eq; naive_solver|].
      rewrite lookup_singleton_ne by done. split; [|by intros []].
      intros [|[|?%elem_of_nil]]; done.
    - intros t ln [[<- <-]|[_ [<- <-]%lookup_singleton_Some]]%lookup_insert_Some; done. }
  split; [done|]. destruct (lru_set_refines MESI.INVALID 5 s Hs) as [[_ H] _]. by rewrite H.
Defined.
