(* ===== verification/Chains.v ===== *)
(** * Singly linked chains

    The list of nodes that a [next] function spells from a node on, with the
    pointer updates that insert and remove nodes; the cache's hash chains, the
    event queue and the lists of the pipeline are such chains. *)

From S2P Require Import Prelude.

Fixpoint chain (nx : nat → option nat) (p : option nat) (bs : list nat) : Prop :=
  match bs with
  | [] => p = None
  | b :: bs => p = Some b ∧ chain nx (nx b) bs
  end.

Lemma chain_ext nx nx' p bs :
  (∀ b, b ∈ bs → nx' b = nx b) → chain nx p bs → chain nx' p bs.
Proof.
  revert p. induction bs as [|b bs IH]; intros p Hn; simpl; [done|].
  intros [-> Hc]. split; [done|]. rewrite Hn by set_solver. apply IH; [set_solver|done].
Qed.

(** The chain from a block of a chain on. *)
Lemma chain_split nx p bs1 b bs2 :
  chain nx p (bs1 ++ b :: bs2) → chain nx (Some b) (b :: bs2).
Proof.
  revert p. induction bs1 as [|c bs1 IH]; intros p; simpl.
  - intros [-> H]. done.
  - intros [-> H]. by eapply IH.
Qed.

(** Dropping a node from the middle of a chain. *)
Lemma chain_remove nx p q b bs1 bs2 :
  chain nx p (bs1 ++ q :: b :: bs2) → NoDup (bs1 ++ q :: b :: bs2) →
  chain (λ c, if decide (c = q) then nx b else nx c) p (bs1 ++ q :: bs2).
Proof.
  revert p. induction bs1 as [|c bs1 IH]; intros p; simpl.
  - intros [-> [_ Hc]] Hnd. split; [done|]. rewrite decide_True by done.
    apply NoDup_cons in Hnd as [Hq _]. eapply chain_ext; [|exact Hc]. intros c Hin.
    rewrite decide_False; [done|]. intros ->. set_solver.
  - intros [-> Hc] [Hq Hnd]%NoDup_cons. split; [done|].
    rewrite decide_False by (intros ->; set_solver). by apply IH.
Qed.

Lemma elem_split_nodup (bs : list nat) b :
  b ∈ bs → ∃ bs1 bs2, bs = bs1 ++ b :: bs2.
Proof. apply list_elem_of_split. Qed.

Lemma nodup_lt_length (l : list nat) n :
  NoDup l → Forall (λ c, c < n)%nat l → (length l ≤ n)%nat.
Proof.
  intros Hnd Hl. rewrite <- (length_seq n 0). apply submseteq_length, NoDup_submseteq; [done|].
  intros c Hc. rewrite Forall_forall in Hl. apply elem_of_seq. specialize (Hl c Hc). lia.
Qed.

(** Inserting a node in front of a chain. *)
Lemma chain_push nx nx' p bs new :
  new ∉ bs → chain nx p bs → nx' new = p → (∀ c, c ≠ new → nx' c = nx c) →
  chain nx' (Some new) (new :: bs).
Proof.
  intros Hn Hc Hnew Hne. split; [done|]. rewrite Hnew. eapply chain_ext; [|exact Hc].
  intros c Hin. apply Hne. by intros ->.
Qed.

(** Inserting a node after a node of a chain. *)
Lemma chain_insert nx nx' p bs1 q bs2 new :
  NoDup (bs1 ++ q :: bs2) → new ∉ bs1 ++ q :: bs2 → chain nx p (bs1 ++ q :: bs2) →
  nx' new = nx q → nx' q = Some new → (∀ c, c ≠ new → c ≠ q → nx' c = nx c) →
  chain nx' p (bs1 ++ q :: new :: bs2).
Proof.
  revert p. induction bs1 as [|c bs1 IH]; intros p Hnd Hn Hc Hnew Hq Hne; simpl in *.
  - destruct Hc as [-> Hc]. split; [done|]. split; [done|]. rewrite Hnew.
    apply NoDup_cons in Hnd as [Hqn _].
    eapply chain_ext; [|exact Hc]. intros c Hin. apply Hne; [set_solver|by intros ->].
  - destruct Hc as [-> Hc]. split; [done|]. apply NoDup_cons in Hnd as [Hcn Hnd].
    rewrite Hne by set_solver. apply IH; [done|set_solver|done..].
Qed.

(** The nodes of a chain are where it leads. *)
Lemma chain_fun nx p bs bs' : chain nx p bs → chain nx p bs' → bs = bs'.
Proof.
  revert p bs'. induction bs as [|b bs IH]; intros p [|b' bs'] H H'; simpl in *;
    [done|by destruct H'; subst|by destruct H; subst|].
  destruct H as [-> H], H' as [[= <-] H']. f_equal. by eapply IH.
Qed.
