(* ===== verification/Misc.v ===== *)
(** * misc.c: helper routines of the tool set

    The arithmetic helper the caches and predictors size their tables with. *)

From S2P Require Import Prelude.

(** The loop [while (n >>= 1) power++;]; a positive [int] has at most 31 bits. *)
Fixpoint log_base2_loop (fuel : nat) (n power : Z) : result Z :=
  match fuel with
  | O => Fault OutOfFuel
  | S fuel =>
      let n := Z.shiftr n 1 in
      if bool_decide (n = 0) then Ok power else log_base2_loop fuel n (power + 1)
  end.

(** [log_base2]. *)
Definition log_base2 (n : Z) : result Z :=
  if bool_decide (n ≤ 0 ∨ Z.land n (n - 1) ≠ 0)
  then Fault (Panic "log2() only works for positive power of two values")
  else log_base2_loop 32 n 0.

(** [(n & (n-1)) != 0] singles out the powers of two. *)
Lemma land_pred_pow2 k : 0 ≤ k → Z.land (2 ^ k) (2 ^ k - 1) = 0.
Proof.
  intros Hk. replace (2 ^ k - 1) with (Z.ones k) by (rewrite Z.ones_equiv; lia).
  rewrite Z.land_ones by done.
  apply Z_mod_same_full.
Qed.

Lemma pow2_of_land n : 0 < n → Z.land n (n - 1) = 0 → n = 2 ^ Z.log2 n.
Proof.
  intros Hn Hl. pose proof (Z.log2_spec n Hn) as [H1 H2].
  destruct (decide (n = 2 ^ Z.log2 n)) as [|Hne]; [done|exfalso].
  assert (n ≠ 1) by (intros ->; done).
  assert (Z.testbit (n - 1) (Z.log2 n) = true) as Hb.
  { replace (Z.log2 n) with (Z.log2 (n - 1)).
    - apply Z.bit_log2. lia.
    - apply Z.log2_unique; [apply Z.log2_nonneg|]. lia. }
  assert (Z.testbit (Z.land n (n - 1)) (Z.log2 n) = true) as Hc.
  { rewrite Z.land_spec, Hb, Z.bit_log2 by done. done. }
  rewrite Hl, Z.testbit_0_l in Hc. done.
Qed.

Lemma log_base2_loop_spec fuel k p :
  (Z.of_nat fuel > k) → 0 ≤ k → log_base2_loop fuel (2 ^ k) p = Ok (p + k).
Proof.
  revert k p. induction fuel as [|fuel IH]; intros k p Hf Hk; [lia|]. cbn [log_base2_loop].
  rewrite Z.shiftr_div_pow2 by lia. destruct (decide (k = 0)) as [->|Hk0].
  - rewrite bool_decide_true by done. f_equal. lia.
  - replace (2 ^ k) with (2 ^ (k - 1) * 2 ^ 1)
      by (rewrite <- Z.pow_add_r by lia; f_equal; lia).
    rewrite Z.div_mul by done. pose proof (Z.pow_pos_nonneg 2 (k - 1)).
    rewrite bool_decide_false by lia. rewrite IH by lia. f_equal. lia.
Qed.

Lemma log_base2_pow2 k : 0 ≤ k < 32 → log_base2 (2 ^ k) = Ok k.
Proof.
  intros Hk. unfold log_base2. rewrite bool_decide_false.
  - by rewrite log_base2_loop_spec by lia.
  - pose proof (Z.pow_pos_nonneg 2 k). intros [|Hn]; [lia|]. apply Hn, land_pred_pow2. lia.
Qed.
