(* ===== verification/Memory.v ===== *)
(** * memory.c: the simulated memory

    An inverted page table of 4096-byte pages, allocated on the first write, with
    move-to-front buckets; accesses of power-of-two size, and the string and block
    copies over an access function.  A page pointer is an index in the list of the
    pages allocated so far.  [mem_reg_stats] only registers counters. *)

From S2P Require Import Prelude Misc.

(** ** Data *)

Definition MEM_PTAB_SIZE : Z := 32768.
Definition MEM_LOG_PTAB_SIZE : Z := 15.
Definition MD_PAGE_SIZE : Z := 4096.
Definition MD_LOG_PAGE_SIZE : Z := 12.

Inductive mem_cmd := Read | Write.

#[global] Instance mem_cmd_eq_dec : EqDecision mem_cmd.
Proof. solve_decision. Defined.

Inductive md_fault_type :=
  | md_fault_none | md_fault_access | md_fault_alignment | md_fault_overflow
  | md_fault_div0 | md_fault_break | md_fault_unimpl | md_fault_internal.

#[global] Instance md_fault_type_eq_dec : EqDecision md_fault_type.
Proof. solve_decision. Defined.

Record mem_pte_t := mkPte { pte_tag : Z; pte_page : nat }.

(** The bucket lists of [ptab], empty where absent, and the pages. *)
Record mem_t := mkMem {
  ptab : gmap Z (list mem_pte_t);
  pages : list (list Z);
  page_count : Z;
  ptab_misses : Z;
  ptab_accesses : Z
}.

(** ** Address translation *)

Definition MEM_PTAB_SET (addr : Z) : Z :=
  Z.land (Z.shiftr addr MD_LOG_PAGE_SIZE) (MEM_PTAB_SIZE - 1).
Definition MEM_PTAB_TAG (addr : Z) : Z :=
  Z.shiftr addr (MD_LOG_PAGE_SIZE + MEM_LOG_PTAB_SIZE).
Definition MEM_PTE_ADDR (pte : mem_pte_t) (idx : Z) : Z :=
  Z.lor (u32 (Z.shiftl (pte_tag pte) (MD_LOG_PAGE_SIZE + MEM_LOG_PTAB_SIZE)))
    (u32 (Z.shiftl idx MD_LOG_PAGE_SIZE)).
Definition MEM_OFFSET (addr : Z) : Z := Z.land addr (MD_PAGE_SIZE - 1).

#[global] Arguments MEM_PTAB_SET : simpl never.
#[global] Arguments MEM_PTAB_TAG : simpl never.
#[global] Arguments MEM_OFFSET : simpl never.

(** [mem->ptab[set]]. *)
Definition ptab_at (m : mem_t) (set : Z) : list mem_pte_t := default [] (ptab m !! set).

Definition set_ptab (m : mem_t) (set : Z) (l : list mem_pte_t) : mem_t :=
  mkMem (<[set := l]> (ptab m)) (pages m) (page_count m) (ptab_misses m) (ptab_accesses m).

(** [mem->ptab_misses++] and [mem->ptab_accesses++]. *)
Definition count_ptab (miss : bool) (m : mem_t) : mem_t :=
  mkMem (ptab m) (pages m) (page_count m)
    (if miss then i64 (ptab_misses m + 1) else ptab_misses m) (i64 (ptab_accesses m + 1)).

Definition mem_create : mem_t := mkMem ∅ [] 0 0 0.

(** [mem_init]: the pages already allocated are no longer reachable. *)
Definition mem_init (m : mem_t) : mem_t := mkMem ∅ (pages m) 0 0 0.

(** The search of a bucket, which unlinks the entry it finds. *)
Fixpoint pte_find (l : list mem_pte_t) (tag : Z) : option (mem_pte_t * list mem_pte_t) :=
  match l with
  | [] => None
  | pte :: l =>
      if bool_decide (pte_tag pte = tag) then Some (pte, l) else
      match pte_find l tag with
      | Some (p, rest) => Some (p, pte :: rest)
      | None => None
      end
  end.

(** [mem_translate]: the entry is moved to the head of its bucket. *)
Definition mem_translate (m : mem_t) (addr : Z) : option nat * mem_t :=
  let m := count_ptab true m in
  match pte_find (ptab_at m (MEM_PTAB_SET addr)) (MEM_PTAB_TAG addr) with
  | Some (pte, rest) => (Some (pte_page pte), set_ptab m (MEM_PTAB_SET addr) (pte :: rest))
  | None => (None, m)
  end.

(** [MEM_PAGE]: the page of an address, null if unallocated. *)
Definition MEM_PAGE (m : mem_t) (addr : Z) : option nat * mem_t :=
  match ptab_at m (MEM_PTAB_SET addr) with
  | pte :: _ =>
      if bool_decide (pte_tag pte = MEM_PTAB_TAG addr)
      then (Some (pte_page pte), count_ptab false m)
      else mem_translate m addr
  | [] => mem_translate m addr
  end.

(** [mem_newpage]: a zeroed page at the head of its bucket. *)
Definition mem_newpage (m : mem_t) (addr : Z) : mem_t :=
  let pte := mkPte (MEM_PTAB_TAG addr) (length (pages m)) in
  mkMem (<[MEM_PTAB_SET addr := pte :: ptab_at m (MEM_PTAB_SET addr)]> (ptab m))
    (pages m ++ [replicate (Z.to_nat MD_PAGE_SIZE) 0])
    (i64 (page_count m + 1)) (ptab_misses m) (ptab_accesses m).

Definition MEM_TICKLE (m : mem_t) (addr : Z) : mem_t :=
  match MEM_PAGE m addr with
  | (None, m) => mem_newpage m addr
  | (Some _, m) => m
  end.

(** [MEM_READ_BYTE] and [MEM_WRITE_BYTE]; the page is looked up twice. *)
Definition MEM_READ_BYTE (m : mem_t) (addr : Z) : result (Z * mem_t) :=
  match MEM_PAGE m addr with
  | (None, m) => Ok (0, m)
  | (Some _, m) =>
      let '(o, m) := MEM_PAGE m addr in
      pg ← deref o;
      page ← vget (pages m) pg;
      b ← vget page (Z.to_nat (MEM_OFFSET addr));
      Ok (b, m)
  end.

Definition MEM_WRITE_BYTE (m : mem_t) (addr val : Z) : result mem_t :=
  let '(o, m) := MEM_PAGE (MEM_TICKLE m addr) addr in
  pg ← deref o;
  page ← vget (pages m) pg;
  page ← vset page (Z.to_nat (MEM_OFFSET addr)) val;
  Ok (mkMem (ptab m) (<[pg := page]> (pages m)) (page_count m) (ptab_misses m)
        (ptab_accesses m)).

(** ** Accesses *)

(** The copying loops of [mem_access]; [k] bytes of the buffer are done. *)
Fixpoint access_loop (n : nat) (m : mem_t) (cmd : mem_cmd) (addr : Z) (p : list Z) (k : nat)
    : result (list Z * mem_t) :=
  match n with
  | O => Ok (p, m)
  | S n =>
      match cmd with
      | Read =>
          '(b, m) ← MEM_READ_BYTE m addr;
          p ← vset p k b;
          access_loop n m cmd (u32 (addr + 1)) p (S k)
      | Write =>
          b ← vget p k;
          m ← MEM_WRITE_BYTE m addr b;
          access_loop n m cmd (u32 (addr + 1)) p (S k)
      end
  end.

(** [mem_access]: the fault, the buffer and the memory. *)
Definition mem_access (m : mem_t) (cmd : mem_cmd) (addr : Z) (p : list Z) (nbytes : Z)
    : result (md_fault_type * list Z * mem_t) :=
  if bool_decide (Z.land nbytes (nbytes - 1) ≠ 0 ∨ MD_PAGE_SIZE < nbytes)
  then Ok (md_fault_access, p, m)
  else if bool_decide (Z.land addr (u32 (nbytes - 1)) ≠ 0)
  then Ok (md_fault_alignment, p, m)
  else
    '(p, m) ← access_loop (Z.to_nat nbytes) m cmd addr p 0;
    Ok (md_fault_none, p, m).

(** [mem_dump]: the lines it prints, each an address and a word. *)
Fixpoint dump_loop (len : nat) (m : mem_t) (addr : Z)
    : result (md_fault_type * list (Z * list Z) * mem_t) :=
  match len with
  | O => Ok (md_fault_none, [], m)
  | S len =>
      '(fault, w, m) ← mem_access m Read addr [0; 0; 0; 0] 4;
      if bool_decide (fault ≠ md_fault_none) then Ok (fault, [], m) else
      '(fault, lines, m) ← dump_loop len m (u32 (addr + 4));
      Ok (fault, (addr, w) :: lines, m)
  end.

Definition mem_dump (m : mem_t) (addr len : Z)
    : result (md_fault_type * list (Z * list Z) * mem_t) :=
  dump_loop (Z.to_nat (i32 (Z.land (u64 (len + 3)) (u64 (Z.lnot 4))))) m
    (Z.land addr (u64 (Z.lnot 4))).

(** ** Copies over an access function *)

Section Copies.
Context {M : Type}.
(** [mem_fn]: memory, command, address, buffer, size. *)
Variable mem_fn : M → mem_cmd → Z → list Z → Z → result (md_fault_type * list Z * M).

(** [mem_strcpy], reading: the bytes copied up to the terminator.  The loop runs
    until a zero byte, so it has fuel. *)
Fixpoint strcpy_read (fuel : nat) (m : M) (addr : Z)
    : result (md_fault_type * list Z * M) :=
  match fuel with
  | O => Fault OutOfFuel
  | S fuel =>
      '(fault, buf, m) ← mem_fn m Read addr [0] 1;
      if bool_decide (fault ≠ md_fault_none) then Ok (fault, [], m) else
      c ← vget buf 0;
      if bool_decide (c = 0) then Ok (md_fault_none, [c], m) else
      '(fault, s, m) ← strcpy_read fuel m (u32 (addr + 1));
      Ok (fault, c :: s, m)
  end.

(** [mem_strcpy], writing the host string [s], whose end is out of bounds. *)
Fixpoint strcpy_write (m : M) (addr : Z) (s : list Z) : result (md_fault_type * M) :=
  match s with
  | [] => Fault OutOfBounds
  | c :: s =>
      '(fault, _, m) ← mem_fn m Write addr [c] 1;
      if bool_decide (fault ≠ md_fault_none) then Ok (fault, m) else
      if bool_decide (c = 0) then Ok (md_fault_none, m) else
      strcpy_write m (u32 (addr + 1)) s
  end.

(** [mem_bcopy] and [mem_bcopy4]: [n] accesses of [size] bytes. *)
Fixpoint bcopy_loop (n : nat) (size : Z) (m : M) (cmd : mem_cmd) (addr : Z) (p : list Z)
    (k : nat) : result (md_fault_type * list Z * M) :=
  match n with
  | O => Ok (md_fault_none, p, m)
  | S n =>
      '(fault, buf, m) ← mem_fn m cmd addr (drop k p) size;
      let p := take k p ++ buf in
      if bool_decide (fault ≠ md_fault_none) then Ok (fault, p, m) else
      bcopy_loop n size m cmd (u32 (addr + size)) p (k + Z.to_nat size)
  end.

Definition mem_bcopy (m : M) (cmd : mem_cmd) (addr : Z) (p : list Z) (nbytes : Z)
    : result (md_fault_type * list Z * M) :=
  bcopy_loop (Z.to_nat nbytes) 1 m cmd addr p 0.

Definition mem_bcopy4 (m : M) (cmd : mem_cmd) (addr : Z) (p : list Z) (nbytes : Z)
    : result (md_fault_type * list Z * M) :=
  bcopy_loop (Z.to_nat (Z.shiftr nbytes 2)) 4 m cmd addr p 0.

(** [mem_bzero]. *)
Fixpoint bzero_loop (n : nat) (m : M) (addr : Z) : result (md_fault_type * M) :=
  match n with
  | O => Ok (md_fault_none, m)
  | S n =>
      '(fault, _, m) ← mem_fn m Write addr [0] 1;
      if bool_decide (fault ≠ md_fault_none) then Ok (fault, m) else
      bzero_loop n m (u32 (addr + 1))
  end.

Definition mem_bzero (m : M) (addr nbytes : Z) : result (md_fault_type * M) :=
  bzero_loop (Z.to_nat nbytes) m addr.
End Copies.
