(* ===== verification/MemorySpec.v ===== *)
(** * memory.c: the memory as a map from addresses to bytes

    The page table, its move-to-front buckets and the lazily allocated pages
    implement one byte per address, zero until written; accesses and copies in those terms. *)

From S2P Require Import Prelude Misc Memory.

(** ** Addresses *)

Lemma mem_set_eq addr : 0 ≤ addr → MEM_PTAB_SET addr = (addr / 2 ^ 12) mod 2 ^ 15.
Proof.
  intros Ha. unfold MEM_PTAB_SET. change (MEM_PTAB_SIZE - 1) with (Z.ones 15).
  by rewrite Z.land_ones, Z.shiftr_div_pow2.
Qed.

Lemma mem_tag_eq addr : MEM_PTAB_TAG addr = addr / 2 ^ 27.
Proof. unfold MEM_PTAB_TAG. by rewrite Z.shiftr_div_pow2. Qed.

Lemma mem_offset_eq addr : MEM_OFFSET addr = addr mod 2 ^ 12.
Proof. unfold MEM_OFFSET. change (MD_PAGE_SIZE - 1) with (Z.ones 12). by rewrite Z.land_ones. Qed.

Lemma mem_offset_range addr : 0 ≤ MEM_OFFSET addr < 2 ^ 12.
Proof. rewrite mem_offset_eq. by apply Z.mod_pos_bound. Qed.

(** Set, tag and offset determine an address. *)
Lemma mem_addr_inj a b :
  0 ≤ a → 0 ≤ b → MEM_PTAB_SET a = MEM_PTAB_SET b → MEM_PTAB_TAG a = MEM_PTAB_TAG b →
  MEM_OFFSET a = MEM_OFFSET b → a = b.
Proof.
  intros Ha Hb. rewrite !mem_set_eq, !mem_tag_eq, !mem_offset_eq by done. intros Hs Ht Ho.
  rewrite (Z.div_mod a (2 ^ 12)), (Z.div_mod b (2 ^ 12)), Ho by lia. do 2 f_equal.
  rewrite (Z.div_mod (a / 2 ^ 12) (2 ^ 15)), (Z.div_mod (b / 2 ^ 12) (2 ^ 15)), Hs by lia.
  do 2 f_equal. rewrite !Z.div_div by lia. exact Ht.
Qed.

(** ** Buckets *)

(** The page of a tag. *)
Definition page_of (l : list mem_pte_t) (t : Z) : option nat :=
  match pte_find l t with Some (pte, _) => Some (pte_page pte) | None => None end.

Lemma pte_find_Some l t pte rest :
  pte_find l t = Some (pte, rest) → pte_tag pte = t ∧ pte :: rest ≡ₚ l.
Proof.
  revert rest. induction l as [|q l IH]; intros rest; simpl; [done|].
  case_bool_decide as Hq; [by intros [= <- <-]|].
  destruct (pte_find l t) as [[p r]|]; [|done]. intros [= <- <-].
  destruct (IH r eq_refl) as [Ht Hp]. split; [done|]. rewrite <- Hp. constructor.
Qed.

Lemma pte_find_None l t : pte_find l t = None → ∀ pte, pte ∈ l → pte_tag pte ≠ t.
Proof.
  induction l as [|q l IH]; simpl; [set_solver|]. case_bool_decide as Hq; [done|].
  destruct (pte_find l t) as [[p r]|]; [done|]. intros _ pte [->|Hin]%elem_of_cons; [done|].
  by apply IH.
Qed.

Definition tags_ok (l : list mem_pte_t) : Prop := NoDup (pte_tag <$> l).

Lemma tags_unique l p q : tags_ok l → p ∈ l → q ∈ l → pte_tag p = pte_tag q → p = q.
Proof.
  unfold tags_ok. induction l as [|r l IH]; intros Hnd Hp Hq He; [set_solver|].
  rewrite fmap_cons in Hnd. apply NoDup_cons in Hnd as [Hr Hnd].
  assert (∀ x, x ∈ l → pte_tag x ≠ pte_tag r) as Hne.
  { intros x Hx Hxr. apply Hr. rewrite <- Hxr. by apply list_elem_of_fmap_2. }
  apply elem_of_cons in Hp as [->|Hp], Hq as [->|Hq]; [done| | |by apply IH].
  - by destruct (Hne q Hq).
  - by destruct (Hne p Hp).
Qed.

Lemma page_of_elem l t pg :
  tags_ok l → page_of l t = Some pg ↔ mkPte t pg ∈ l.
Proof.
  intros Hl. unfold page_of. split.
  - destruct (pte_find l t) as [[p r]|] eqn:Hf; [|done]. intros [= <-].
    apply pte_find_Some in Hf as [<- Hp]. destruct p as [t p]. simpl. rewrite <- Hp. by left.
  - intros Hin. destruct (pte_find l t) as [[p r]|] eqn:Hf.
    + apply pte_find_Some in Hf as [Ht Hp].
      assert (p = mkPte t pg) as ->; [|done].
      eapply tags_unique; [exact Hl| |done|done]. rewrite <- Hp. by left.
    + by destruct (pte_find_None _ _ Hf _ Hin).
Qed.

Lemma tags_perm l l' : l' ≡ₚ l → tags_ok l → tags_ok l'.
Proof. unfold tags_ok. by intros ->. Qed.

Lemma page_of_perm l l' t : l' ≡ₚ l → tags_ok l → page_of l' t = page_of l t.
Proof.
  intros Hp Hl. apply option_eq. intros pg.
  rewrite (page_of_elem l' t pg (tags_perm l l' Hp Hl)), (page_of_elem l t pg Hl). by rewrite Hp.
Qed.

(** ** Memories *)

Record mem_ok (m : mem_t) : Prop := {
  mo_tags : ∀ s, tags_ok (ptab_at m s);
  mo_page : ∀ s pte, pte ∈ ptab_at m s → (pte_page pte < length (pages m))%nat;
  mo_inj : ∀ s s' p p', p ∈ ptab_at m s → p' ∈ ptab_at m s' → pte_page p = pte_page p' →
             s = s' ∧ p = p';
  mo_len : Forall (λ pg, length pg = Z.to_nat MD_PAGE_SIZE) (pages m)
}.

(** Memories that differ by the order of buckets and by the statistics. *)
Definition mem_equiv (m m' : mem_t) : Prop :=
  pages m' = pages m ∧ ∀ s, ptab_at m' s ≡ₚ ptab_at m s.

#[export] Instance mem_equiv_equivalence : Equivalence mem_equiv.
Proof.
  split; [done| |].
  - intros m m' [Hp Hb]. split; [done|]. intros s. by rewrite Hb.
  - intros m1 m2 m3 [H1 H2] [H3 H4]. split; [congruence|]. intros s. by rewrite H4, H2.
Qed.

Lemma mem_ok_equiv m m' : mem_equiv m m' → mem_ok m → mem_ok m'.
Proof.
  intros [Hp Hb] [Ht Hpg Hi Hl]. split; rewrite ?Hp; try done.
  - intros s. apply (tags_perm (ptab_at m s)); [apply Hb|apply Ht].
  - intros s pte. rewrite Hb. apply Hpg.
  - intros s s' p p'. rewrite !Hb. apply Hi.
Qed.

(** The byte at an address. *)
Definition mem_byte (m : mem_t) (addr : Z) : Z :=
  match page_of (ptab_at m (MEM_PTAB_SET addr)) (MEM_PTAB_TAG addr) with
  | Some pg => default 0 (pages m !! pg ≫= λ page, page !! Z.to_nat (MEM_OFFSET addr))
  | None => 0
  end.

Lemma mem_byte_equiv m m' addr : mem_ok m → mem_equiv m m' → mem_byte m' addr = mem_byte m addr.
Proof.
  intros Hm [Hp Hb]. unfold mem_byte. rewrite Hp.
  by rewrite (page_of_perm _ _ _ (Hb _) (mo_tags _ Hm _)).
Qed.

Lemma ptab_at_set m s l s' : ptab_at (set_ptab m s l) s' = if decide (s' = s) then l else ptab_at m s'.
Proof.
  unfold ptab_at, set_ptab. cbn [ptab]. case_decide as Hs.
  - subst. by rewrite lookup_insert_eq.
  - by rewrite lookup_insert_ne.
Qed.

Lemma MEM_PAGE_spec m addr :
  ∃ m', MEM_PAGE m addr = (page_of (ptab_at m (MEM_PTAB_SET addr)) (MEM_PTAB_TAG addr), m') ∧
        mem_equiv m m'.
Proof.
  assert (∃ m', mem_translate m addr
    = (page_of (ptab_at m (MEM_PTAB_SET addr)) (MEM_PTAB_TAG addr), m') ∧ mem_equiv m m') as Htr.
  { unfold mem_translate, page_of. change (ptab_at (count_ptab true m)) with (ptab_at m).
    destruct (pte_find _ _) as [[p r]|] eqn:Hf; [|by eexists].
    eexists. split; [reflexivity|]. split; [done|]. intros s. rewrite ptab_at_set.
    apply pte_find_Some in Hf as [_ Hp]. case_decide; [by subst|done]. }
  unfold MEM_PAGE. destruct (ptab_at m (MEM_PTAB_SET addr)) as [|pte l] eqn:Hl; [done|].
  case_bool_decide as Ht; [|done]. exists (count_ptab false m). split; [|done].
  unfold page_of. simpl. by rewrite bool_decide_true.
Qed.

(** ** Pages *)

Lemma ptab_at_newpage m addr s :
  ptab_at (mem_newpage m addr) s
  = if decide (s = MEM_PTAB_SET addr)
    then mkPte (MEM_PTAB_TAG addr) (length (pages m)) :: ptab_at m s else ptab_at m s.
Proof.
  unfold mem_newpage, ptab_at. cbn [ptab]. case_decide as Hs.
  - subst. by rewrite lookup_insert_eq.
  - by rewrite lookup_insert_ne.
Qed.

Lemma page_of_none l t pte : page_of l t = None → pte ∈ l → pte_tag pte ≠ t.
Proof.
  unfold page_of. destruct (pte_find l t) as [[p r]|] eqn:Hf; [done|]. intros _.
  by apply pte_find_None.
Qed.

Lemma mem_newpage_ok m addr :
  mem_ok m → page_of (ptab_at m (MEM_PTAB_SET addr)) (MEM_PTAB_TAG addr) = None →
  mem_ok (mem_newpage m addr).
Proof.
  intros [Ht Hpg Hi Hl] Hn.
  assert (∀ s p, p ∈ ptab_at (mem_newpage m addr) s →
    p ∈ ptab_at m s ∨ s = MEM_PTAB_SET addr ∧ p = mkPte (MEM_PTAB_TAG addr) (length (pages m))) as Hin.
  { intros s p. rewrite ptab_at_newpage. case_decide as Hs; [|by left]. subst.
    intros [->|Hp]%elem_of_cons; [by right|by left]. }
  split.
  - intros s. rewrite ptab_at_newpage. case_decide as Hs; [|apply Ht]. subst.
    unfold tags_ok. rewrite fmap_cons. apply NoDup_cons. split; [|apply Ht].
    intros (p & Hp & Hin')%list_elem_of_fmap. by eapply page_of_none.
  - intros s p [Hp|[_ ->]]%Hin; cbn [pages mem_newpage]; rewrite length_app; simpl.
    + specialize (Hpg s p Hp). lia.
    + lia.
  - intros s s' p p' [Hp|[-> ->]]%Hin [Hp'|[-> ->]]%Hin; simpl; [by apply Hi| | |done].
    + intros He. specialize (Hpg s p Hp). lia.
    + intros He. specialize (Hpg s' p' Hp'). lia.
  - cbn [pages mem_newpage]. apply Forall_app. split; [done|]. constructor; [|done].
    by rewrite length_replicate.
Qed.

(** A memory where the page of an address exists, with the same bytes. *)
Lemma MEM_TICKLE_spec m addr :
  mem_ok m →
  ∃ m' pg, MEM_TICKLE m addr = m' ∧ mem_ok m' ∧
    page_of (ptab_at m' (MEM_PTAB_SET addr)) (MEM_PTAB_TAG addr) = Some pg ∧
    ∀ a, mem_byte m' a = mem_byte m a.
Proof.
  intros Hm. unfold MEM_TICKLE. destruct (MEM_PAGE_spec m addr) as (m1 & -> & He).
  pose proof (mem_ok_equiv _ _ He Hm) as Hm1.
  pose proof (λ s, page_of_perm _ _ (MEM_PTAB_TAG addr) (proj2 He s) (mo_tags _ Hm s)) as Hpo.
  destruct (page_of (ptab_at m (MEM_PTAB_SET addr)) (MEM_PTAB_TAG addr)) as [pg|] eqn:Hp.
  - exists m1, pg. split_and!; [done|done|by rewrite Hpo|]. intros a. by apply mem_byte_equiv.
  - eexists _, (length (pages m1)). split; [reflexivity|].
    assert (page_of (ptab_at m1 (MEM_PTAB_SET addr)) (MEM_PTAB_TAG addr) = None) as Hp1
      by by rewrite Hpo.
    split; [by apply mem_newpage_ok|]. split.
    + rewrite ptab_at_newpage, decide_True by done. unfold page_of.
      cbn [pte_find pte_tag pte_page]. by rewrite bool_decide_true.
    + intros a. rewrite <- (mem_byte_equiv m m1 a Hm He). unfold mem_byte.
      rewrite ptab_at_newpage.
      assert (∀ l pg, page_of l (MEM_PTAB_TAG a) = Some pg → (∀ p, p ∈ l →
        (pte_page p < length (pages m1))%nat) →
        pages (mem_newpage m1 addr) !! pg = pages m1 !! pg) as Hpages.
      { intros l pg Hpl Hlt. cbn [pages mem_newpage]. apply lookup_app_l.
        unfold page_of in Hpl. destruct (pte_find l _) as [[p r]|] eqn:Hf; [|done].
        injection Hpl as <-. apply Hlt. apply pte_find_Some in Hf as [_ <-]. by left. }
      case_decide as Hs.
      * unfold page_of at 1. cbn [pte_find pte_tag pte_page]. case_bool_decide as Ht.
        -- rewrite Hs, <- Ht, Hp1. cbn [pages mem_newpage].
           rewrite lookup_app_r, Nat.sub_diag by done.
           cbn [lookup list_lookup option_bind mbind].
           rewrite lookup_replicate_2; [done|]. pose proof (mem_offset_range a).
           unfold MD_PAGE_SIZE. lia.
        -- rewrite Hs. unfold page_of.
           pose proof (Hpages (ptab_at m1 (MEM_PTAB_SET addr))) as Hpg. unfold page_of in Hpg.
           destruct (pte_find (ptab_at m1 (MEM_PTAB_SET addr)) (MEM_PTAB_TAG a)) as [[p r]|]; [|done].
           rewrite Hpg; [done|done|]. apply (mo_page _ Hm1).
      * destruct (page_of (ptab_at m1 (MEM_PTAB_SET a)) (MEM_PTAB_TAG a)) as [pg|] eqn:Hpa; [|done].
        rewrite (Hpages _ pg Hpa); [done|]. apply (mo_page _ Hm1).
Qed.

Lemma page_lookup m s t pg :
  mem_ok m → page_of (ptab_at m s) t = Some pg →
  ∃ page, pages m !! pg = Some page ∧ length page = Z.to_nat MD_PAGE_SIZE.
Proof.
  intros Hm Hp. apply page_of_elem in Hp; [|apply Hm].
  destruct (lookup_lt_is_Some_2 (pages m) pg) as [page Hpage]; [by apply (mo_page _ Hm) in Hp|].
  exists page. split; [done|]. by apply (Forall_lookup_1 _ _ _ _ (mo_len _ Hm) Hpage).
Qed.

Lemma page_byte (page : list Z) addr :
  length page = Z.to_nat MD_PAGE_SIZE → ∃ b, page !! Z.to_nat (MEM_OFFSET addr) = Some b.
Proof.
  intros Hl. apply lookup_lt_is_Some_2. rewrite Hl. pose proof (mem_offset_range addr).
  unfold MD_PAGE_SIZE. lia.
Qed.

Lemma MEM_READ_BYTE_spec m addr :
  mem_ok m → ∃ m', MEM_READ_BYTE m addr = Ok (mem_byte m addr, m') ∧ mem_equiv m m'.
Proof.
  intros Hm. unfold MEM_READ_BYTE. destruct (MEM_PAGE_spec m addr) as (m1 & -> & He1).
  assert (mem_byte m1 addr = mem_byte m addr) as Hb by by apply mem_byte_equiv.
  unfold mem_byte in Hb |- *.
  destruct (page_of (ptab_at m (MEM_PTAB_SET addr)) (MEM_PTAB_TAG addr)) as [pg|] eqn:Hp;
    [|by exists m1].
  destruct (MEM_PAGE_spec m1 addr) as (m2 & -> & He2).
  rewrite (page_of_perm _ _ _ (proj2 He1 _) (mo_tags _ Hm _)), Hp. cbn [deref mbind result_bind].
  assert (mem_equiv m m2) as He by (by etrans).
  destruct (page_lookup _ _ _ _ Hm Hp) as (page & Hpage & Hlen).
  destruct (page_byte page addr Hlen) as [b Hbyte].
  unfold vget. rewrite (proj1 He), Hpage. cbn [mbind result_bind]. rewrite Hbyte.
  cbn [mbind result_bind option_bind]. exists m2. rewrite Hbyte. done.
Qed.

Lemma MEM_WRITE_BYTE_spec m addr v :
  mem_ok m → 0 ≤ addr →
  ∃ m', MEM_WRITE_BYTE m addr v = Ok m' ∧ mem_ok m' ∧
    ∀ a, 0 ≤ a → mem_byte m' a = if decide (a = addr) then v else mem_byte m a.
Proof.
  intros Hm Ha. unfold MEM_WRITE_BYTE.
  destruct (MEM_TICKLE_spec m addr Hm) as (m1 & pg & -> & Hm1 & Hp1 & Hb1).
  destruct (MEM_PAGE_spec m1 addr) as (m2 & -> & He). rewrite Hp1. cbn [deref mbind result_bind].
  pose proof (mem_ok_equiv _ _ He Hm1) as Hm2.
  pose proof (λ s t, page_of_perm _ _ t (proj2 He s) (mo_tags _ Hm1 s)) as Hpo.
  destruct (page_lookup _ _ _ _ Hm1 Hp1) as (page & Hpage & Hlen).
  destruct (page_byte page addr Hlen) as [b Hbyte].
  unfold vget, vset. rewrite (proj1 He), Hpage. cbn [mbind result_bind]. rewrite Hbyte.
  cbn [mbind result_bind]. eexists. split; [reflexivity|]. split.
  - destruct Hm2 as [Ht Hpg Hi Hl]. split; try done.
    + intros s p Hp. cbn [pages]. rewrite length_insert. rewrite <- (proj1 He). by apply (Hpg s).
    + cbn [pages]. rewrite (proj1 He) in Hl. apply Forall_insert'; [done|]. by rewrite length_insert.
  - intros a Ha'. rewrite <- Hb1. unfold mem_byte. cbn [pages].
    change (ptab_at (mkMem (ptab m2) _ _ _ _)) with (ptab_at m2). rewrite Hpo.
    destruct (page_of (ptab_at m1 (MEM_PTAB_SET a)) (MEM_PTAB_TAG a)) as [pg'|] eqn:Hpa.
    + destruct (decide (pg' = pg)) as [->|Hne].
      * apply page_of_elem in Hpa, Hp1; try apply Hm1.
        destruct (mo_inj _ Hm1 _ _ _ _ Hpa Hp1 eq_refl) as [Hs Ht]. injection Ht as Ht.
        rewrite list_lookup_insert_eq by (by eapply lookup_lt_Some). rewrite Hpage.
        cbn [option_bind mbind]. case_decide as Hd.
        -- subst a. by rewrite list_lookup_insert_eq by (by eapply lookup_lt_Some).
        -- rewrite list_lookup_insert_ne; [done|]. intros Ho. apply Hd.
           apply mem_addr_inj; try done.
           pose proof (mem_offset_range a). pose proof (mem_offset_range addr). lia.
      * rewrite list_lookup_insert_ne by done. case_decide; [|done]. subst. congruence.
    + case_decide; [|done]. subst. congruence.
Qed.

(** ** Regions of bytes *)

(** The [n] bytes from [addr] on, with the wrap-around of addresses. *)
Definition region (f : Z → Z) (addr : Z) (n : nat) : list Z :=
  (λ i, f (u32 (addr + Z.of_nat i))) <$> seq 0 n.

(** The bytes [bs] stored from [addr] on. *)
Definition upd_bytes (f : Z → Z) (addr : Z) (bs : list Z) (a : Z) : Z :=
  default (f a) (bs !! Z.to_nat (u32 (a - addr))).

Lemma length_region f addr n : length (region f addr n) = n.
Proof. unfold region. by rewrite length_fmap, length_seq. Qed.

Lemma region_lookup f addr n i :
  (i < n)%nat → region f addr n !! i = Some (f (u32 (addr + Z.of_nat i))).
Proof. intros Hi. unfold region. by rewrite list_lookup_fmap, lookup_seq_lt. Qed.

Lemma u32_add_l a b : u32 (u32 a + b) = u32 (a + b).
Proof. apply Zplus_mod_idemp_l. Qed.
Lemma u32_sub_r a b : u32 (a - u32 b) = u32 (a - b).
Proof. apply Zminus_mod_idemp_r. Qed.

Lemma region_app f addr n m :
  region f addr (n + m) = region f addr n ++ region f (u32 (addr + Z.of_nat n)) m.
Proof.
  apply list_eq. intros i. destruct (decide (i < n)%nat).
  - rewrite lookup_app_l by (by rewrite length_region). by rewrite !region_lookup by lia.
  - rewrite lookup_app_r by (rewrite length_region; lia). rewrite length_region.
    destruct (decide (i < n + m)%nat).
    + rewrite !region_lookup by lia. rewrite u32_add_l. do 3 f_equal. lia.
    + rewrite !lookup_ge_None_2; [done|rewrite length_region; lia..].
Qed.

Lemma region_ext f g addr n :
  (∀ a, 0 ≤ a < 2 ^ 32 → f a = g a) → region f addr n = region g addr n.
Proof. intros H. unfold region. apply list_fmap_ext. intros i x _. apply H, u32_range. Qed.

Lemma upd_bytes_ext f g addr bs a : f a = g a → upd_bytes f addr bs a = upd_bytes g addr bs a.
Proof. unfold upd_bytes. by intros ->. Qed.

Lemma upd_bytes_nil f addr a : upd_bytes f addr [] a = f a.
Proof. done. Qed.

(** Storing two adjacent blocks is storing their concatenation. *)
Lemma upd_bytes_app f addr b1 b2 a :
  0 ≤ a < 2 ^ 32 → Z.of_nat (length b1 + length b2) ≤ 2 ^ 32 →
  upd_bytes (upd_bytes f addr b1) (u32 (addr + Z.of_nat (length b1))) b2 a
  = upd_bytes f addr (b1 ++ b2) a.
Proof.
  intros Ha Hl. unfold upd_bytes. rewrite u32_sub_r.
  pose proof (u32_range (a - addr)) as Hx.
  assert (u32 (a - (addr + Z.of_nat (length b1))) = u32 (u32 (a - addr) - Z.of_nat (length b1))) as ->.
  { unfold u32. rewrite Zminus_mod_idemp_l. f_equal. lia. }
  set (x := u32 (a - addr)) in *.
  destruct (decide (x < Z.of_nat (length b1))).
  - rewrite (lookup_app_l b1) by lia.
    assert (u32 (x - Z.of_nat (length b1)) = x - Z.of_nat (length b1) + 2 ^ 32) as ->.
    { unfold u32. symmetry. apply Zmod_unique with (-1); lia. }
    by rewrite (lookup_ge_None_2 b2) by lia.
  - rewrite (u32_small (x - _)) by lia. rewrite (lookup_ge_None_2 b1) by lia.
    rewrite (lookup_app_r b1) by lia. do 2 f_equal. lia.
Qed.

(** What was stored is read back. *)
Lemma region_upd f addr bs n :
  0 ≤ addr < 2 ^ 32 → n = length bs → Z.of_nat n ≤ 2 ^ 32 →
  region (upd_bytes f addr bs) addr n = bs.
Proof.
  intros Ha -> Hl. apply list_eq. intros i. destruct (decide (i < length bs)%nat) as [Hi|Hi].
  - rewrite region_lookup by done. unfold upd_bytes.
    assert (u32 (u32 (addr + Z.of_nat i) - addr) = Z.of_nat i) as ->.
    { unfold u32. rewrite Zminus_mod_idemp_l.
      replace (addr + Z.of_nat i - addr) with (Z.of_nat i) by lia. apply Z.mod_small. lia. }
    rewrite Nat2Z.id. destruct (lookup_lt_is_Some_2 bs i Hi) as [b ->]. done.
  - rewrite !lookup_ge_None_2; [done|lia|rewrite length_region; lia].
Qed.

(** ** Accesses *)

Lemma access_read_spec n m addr p k :
  mem_ok m → (k + n ≤ length p)%nat → 0 ≤ addr < 2 ^ 32 →
  ∃ m', access_loop n m Read addr p k
    = Ok (take k p ++ region (mem_byte m) addr n ++ drop (k + n) p, m') ∧ mem_equiv m m'.
Proof.
  revert m addr p k. induction n as [|n IH]; intros m addr p k Hm Hl Ha.
  { exists m. split; [|done]. cbn [access_loop]. do 2 f_equal. rewrite Nat.add_0_r.
    symmetry. apply take_drop. }
  cbn [access_loop]. destruct (MEM_READ_BYTE_spec m addr Hm) as (m1 & -> & He).
  cbn [mbind result_bind]. unfold vset.
  destruct (lookup_lt_is_Some_2 p k) as [x Hx]; [lia|]. rewrite Hx. cbn [mbind result_bind].
  destruct (IH m1 (u32 (addr + 1)) (<[k := mem_byte m addr]> p) (S k)) as (m' & -> & He');
    [by eapply mem_ok_equiv|rewrite length_insert; lia|apply u32_range|].
  exists m'. split; [|by etrans]. do 2 f_equal.
  rewrite (region_ext (mem_byte m1) (mem_byte m)) by (intros a _; by apply mem_byte_equiv).
  change (S n) with (1 + n)%nat. rewrite region_app, drop_insert_lt by lia.
  rewrite (take_S_r _ _ (mem_byte m addr)) by (apply list_lookup_insert_eq; lia).
  rewrite take_insert_ge by lia. rewrite <- !app_assoc. do 2 f_equal.
  - unfold region. simpl. rewrite Z.add_0_r, u32_small by lia. done.
  - do 2 f_equal. lia.
Qed.

Lemma access_write_spec n m addr p k :
  mem_ok m → (k + n ≤ length p)%nat → 0 ≤ addr < 2 ^ 32 → Z.of_nat n ≤ 2 ^ 32 →
  ∃ m', access_loop n m Write addr p k = Ok (p, m') ∧ mem_ok m' ∧
    ∀ a, 0 ≤ a < 2 ^ 32 → mem_byte m' a = upd_bytes (mem_byte m) addr (take n (drop k p)) a.
Proof.
  revert m addr k. induction n as [|n IH]; intros m addr k Hm Hl Ha Hn.
  { exists m. split; [done|]. by split. }
  cbn [access_loop]. destruct (lookup_lt_is_Some_2 p k) as [x Hx]; [lia|].
  unfold vget. rewrite Hx. cbn [mbind result_bind].
  destruct (MEM_WRITE_BYTE_spec m addr x Hm) as (m1 & -> & Hm1 & Hb1); [lia|].
  cbn [mbind result_bind].
  destruct (IH m1 (u32 (addr + 1)) (S k)) as (m' & -> & Hm' & Hb');
    [done|lia|apply u32_range|lia|].
  exists m'. split; [done|]. split; [done|]. intros a Ha'. rewrite Hb' by done.
  rewrite (drop_S p x k Hx). cbn [take]. change (x :: take n (drop (S k) p)) with ([x] ++ take n (drop (S k) p)).
  rewrite <- upd_bytes_app; [|done|rewrite length_take; simpl; lia].
  change (Z.of_nat (length [x])) with 1. apply upd_bytes_ext. rewrite Hb1 by lia.
  unfold upd_bytes. case_decide as Hd.
  - subst a. by rewrite Z.sub_diag.
  - rewrite lookup_ge_None_2; [done|]. simpl.
    assert (u32 (a - addr) ≠ 0); [|pose proof (u32_range (a - addr)); lia].
    unfold u32. intros [q Hq]%Z.mod_divide; [|done]. assert (-1 < q < 1) by (split; nia). lia.
Qed.

(** The specification of an access: fault, buffer and bytes of memory. *)
Definition access_spec (f : Z → Z) (cmd : mem_cmd) (addr : Z) (p : list Z) (nbytes : Z)
    : md_fault_type * list Z * (Z → Z) :=
  if bool_decide (Z.land nbytes (nbytes - 1) ≠ 0 ∨ MD_PAGE_SIZE < nbytes)
  then (md_fault_access, p, f)
  else if bool_decide (Z.land addr (u32 (nbytes - 1)) ≠ 0) then (md_fault_alignment, p, f)
  else match cmd with
       | Read => (md_fault_none, region f addr (Z.to_nat nbytes) ++ drop (Z.to_nat nbytes) p, f)
       | Write => (md_fault_none, p, upd_bytes f addr (take (Z.to_nat nbytes) p))
       end.

Lemma mem_access_spec m cmd addr p nbytes :
  mem_ok m → 0 ≤ addr < 2 ^ 32 → nbytes ≤ Z.of_nat (length p) →
  ∃ m', mem_access m cmd addr p nbytes
      = Ok ((access_spec (mem_byte m) cmd addr p nbytes).1, m') ∧ mem_ok m' ∧
    ∀ a, 0 ≤ a < 2 ^ 32 → mem_byte m' a = (access_spec (mem_byte m) cmd addr p nbytes).2 a.
Proof.
  intros Hm Ha Hl. unfold mem_access, access_spec.
  case_bool_decide as H1; [by exists m|]. case_bool_decide as H2; [by exists m|].
  destruct cmd.
  - destruct (access_read_spec (Z.to_nat nbytes) m addr p 0 Hm) as (m' & -> & He); [lia|done|].
    cbn [mbind result_bind fst snd]. exists m'. split; [done|].
    split; [by eapply mem_ok_equiv|]. intros a _. by apply mem_byte_equiv.
  - destruct (access_write_spec (Z.to_nat nbytes) m addr p 0 Hm) as (m' & -> & Hm' & Hb);
      [lia|done|unfold MD_PAGE_SIZE in H1; lia|].
    cbn [mbind result_bind fst snd]. by exists m'.
Qed.

(** ** Copies *)

Lemma pow2_fits s : 0 ≤ s ≤ 12 → 0 < 2 ^ s ≤ 4096.
Proof.
  intros Hs. pose proof (Z.pow_pos_nonneg 2 s). assert (2 ^ s ≤ 2 ^ 12) by (apply Z.pow_le_mono_r; lia).
  lia.
Qed.

(** A naturally aligned access of [2 ^ s] bytes has no fault. *)
Lemma access_spec_aligned f cmd addr p s :
  0 ≤ s ≤ 12 → 0 ≤ addr → addr mod 2 ^ s = 0 →
  access_spec f cmd addr p (2 ^ s)
  = match cmd with
    | Read => (md_fault_none, region f addr (Z.to_nat (2 ^ s)) ++ drop (Z.to_nat (2 ^ s)) p, f)
    | Write => (md_fault_none, p, upd_bytes f addr (take (Z.to_nat (2 ^ s)) p))
    end.
Proof.
  intros Hs Ha Hm. pose proof (pow2_fits s Hs). unfold access_spec.
  rewrite bool_decide_false by (rewrite land_pred_pow2 by lia; unfold MD_PAGE_SIZE; lia).
  rewrite bool_decide_false; [done|]. rewrite u32_small by lia.
  replace (2 ^ s - 1) with (Z.ones s) by (rewrite Z.ones_equiv; lia).
  rewrite Z.land_ones by lia. lia.
Qed.

Lemma aligned_next s addr : 0 ≤ s ≤ 12 → addr mod 2 ^ s = 0 → u32 (addr + 2 ^ s) mod 2 ^ s = 0.
Proof.
  intros Hs Hm. pose proof (pow2_fits s Hs). unfold u32.
  rewrite Z.mod_mod_divide.
  2: { exists (2 ^ (32 - s)). rewrite <- Z.pow_add_r by lia. f_equal. lia. }
  rewrite <- Zplus_mod_idemp_r, Z_mod_same_full.
  by rewrite Z.add_0_r.
Qed.

Lemma bcopy_read_spec n s m addr p k :
  mem_ok m → 0 ≤ s ≤ 12 → 0 ≤ addr < 2 ^ 32 → addr mod 2 ^ s = 0 →
  (k + n * Z.to_nat (2 ^ s) ≤ length p)%nat →
  ∃ m', bcopy_loop mem_access n (2 ^ s) m Read addr p k
      = Ok (md_fault_none, take k p ++ region (mem_byte m) addr (n * Z.to_nat (2 ^ s)) ++
              drop (k + n * Z.to_nat (2 ^ s)) p, m') ∧ mem_ok m' ∧
    ∀ a, 0 ≤ a < 2 ^ 32 → mem_byte m' a = mem_byte m a.
Proof.
  intros Hm Hs. pose proof (pow2_fits s Hs) as Hp. revert m addr p k Hm.
  set (w := Z.to_nat (2 ^ s)). assert (Z.of_nat w = 2 ^ s) as Hw by lia.
  induction n as [|n IH]; intros m addr p k Hm Ha Hal Hl.
  { exists m. split; [|done]. cbn [bcopy_loop]. do 3 f_equal. simpl. rewrite Nat.add_0_r.
    symmetry. apply take_drop. }
  cbn [bcopy_loop].
  destruct (mem_access_spec m Read addr (drop k p) (2 ^ s) Hm Ha) as (m1 & -> & Hm1 & Hb1);
    [rewrite length_drop; lia|].
  rewrite access_spec_aligned in Hb1 |- * by (done || lia). cbn [fst snd mbind result_bind] in *.
  fold w. rewrite bool_decide_false by tauto.
  set (p1 := take k p ++ region (mem_byte m) addr w ++ drop w (drop k p)).
  assert (length p1 = length p) as Hl1.
  { unfold p1. rewrite !length_app, length_region, length_take, !length_drop. lia. }
  destruct (IH m1 (u32 (addr + 2 ^ s)) p1 (k + w)%nat) as (m' & -> & Hm' & Hb');
    [done|apply u32_range|by apply aligned_next|lia|].
  exists m'. split; [|split; [done|intros a Ha'; by rewrite Hb', Hb1]].
  do 3 f_equal. change (S n * w)%nat with (w + n * w)%nat. rewrite region_app, Hw.
  rewrite (region_ext (mem_byte m1) (mem_byte m)) by done.
  unfold p1. rewrite (app_assoc (take k p)), (take_app_length' (take k p ++ _))
    by (rewrite length_app, length_take, length_region; lia).
  rewrite <- !app_assoc. do 3 f_equal.
  rewrite app_assoc, drop_app_ge by (rewrite length_app, length_take, length_region; lia).
  rewrite length_app, length_take, length_region, !drop_drop. f_equal. lia.
Qed.

Lemma bcopy_write_spec n s m addr p k :
  mem_ok m → 0 ≤ s ≤ 12 → 0 ≤ addr < 2 ^ 32 → addr mod 2 ^ s = 0 →
  (k + n * Z.to_nat (2 ^ s) ≤ length p)%nat → Z.of_nat (n * Z.to_nat (2 ^ s)) ≤ 2 ^ 32 →
  ∃ m', bcopy_loop mem_access n (2 ^ s) m Write addr p k = Ok (md_fault_none, p, m') ∧ mem_ok m' ∧
    ∀ a, 0 ≤ a < 2 ^ 32 →
      mem_byte m' a = upd_bytes (mem_byte m) addr (take (n * Z.to_nat (2 ^ s)) (drop k p)) a.
Proof.
  intros Hm Hs. pose proof (pow2_fits s Hs) as Hp. revert m addr k Hm.
  set (w := Z.to_nat (2 ^ s)). assert (Z.of_nat w = 2 ^ s) as Hw by lia.
  induction n as [|n IH]; intros m addr k Hm Ha Hal Hl Hn.
  { exists m. split; [done|]. by split. }
  cbn [bcopy_loop].
  destruct (mem_access_spec m Write addr (drop k p) (2 ^ s) Hm Ha) as (m1 & -> & Hm1 & Hb1);
    [rewrite length_drop; lia|].
  rewrite access_spec_aligned in Hb1 |- * by (done || lia). cbn [fst snd mbind result_bind] in *.
  fold w in Hb1 |- *. rewrite bool_decide_false by tauto. rewrite take_drop.
  destruct (IH m1 (u32 (addr + 2 ^ s)) (k + w)%nat) as (m' & -> & Hm' & Hb');
    [done|apply u32_range|by apply aligned_next|lia|lia|].
  exists m'. split; [done|]. split; [done|]. intros a Ha'. rewrite Hb' by done.
  change (S n * w)%nat with (w + n * w)%nat.
  rewrite <- (take_take_drop (drop k p) w (n * w)), drop_drop.
  assert (length (take w (drop k p)) = w) as Hlw by (rewrite length_take, length_drop; lia).
  rewrite <- upd_bytes_app, Hlw, Hw; [|done|rewrite Hlw, length_take, length_drop; lia].
  apply upd_bytes_ext. by apply Hb1.
Qed.

(** [mem_strcpy] on a string with its terminator. *)
Lemma strcpy_write_spec str m addr junk :
  mem_ok m → 0 ≤ addr < 2 ^ 32 → Z.of_nat (S (length str)) ≤ 2 ^ 32 → Forall (λ c, c ≠ 0) str →
  ∃ m', strcpy_write mem_access m addr (str ++ 0 :: junk) = Ok (md_fault_none, m') ∧ mem_ok m' ∧
    ∀ a, 0 ≤ a < 2 ^ 32 → mem_byte m' a = upd_bytes (mem_byte m) addr (str ++ [0]) a.
Proof.
  revert m addr. induction str as [|c str IH]; intros m addr Hm Ha Hl Hc; cbn [app strcpy_write].
  - destruct (mem_access_spec m Write addr [0] 1 Hm Ha) as (m1 & -> & Hm1 & Hb1); [simpl; lia|].
    change 1 with (2 ^ 0) in *. rewrite access_spec_aligned in Hb1 |- * by (lia || apply Z.mod_1_r).
    cbn [fst snd mbind result_bind] in *. rewrite bool_decide_false by tauto.
    rewrite bool_decide_true by done. by exists m1.
  - apply Forall_cons in Hc as [Hc0 Hc].
    destruct (mem_access_spec m Write addr [c] 1 Hm Ha) as (m1 & -> & Hm1 & Hb1); [simpl; lia|].
    change 1 with (2 ^ 0) in *. rewrite access_spec_aligned in Hb1 |- * by (lia || apply Z.mod_1_r).
    cbn [fst snd mbind result_bind] in *. rewrite bool_decide_false by tauto.
    rewrite bool_decide_false by done.
    destruct (IH m1 (u32 (addr + 2 ^ 0))) as (m' & -> & Hm' & Hb');
      [done|apply u32_range|simpl in Hl; lia|done|].
    exists m'. split; [done|]. split; [done|]. intros a Ha'. rewrite Hb' by done.
    change (c :: str ++ [0]) with ([c] ++ (str ++ [0])).
    rewrite <- (upd_bytes_app _ _ [c] (str ++ [0])); [|done|].
    + apply upd_bytes_ext. by apply Hb1.
    + rewrite (length_app str). simpl in *. lia.
Qed.

Lemma strcpy_read_spec str fuel m addr :
  mem_ok m → 0 ≤ addr < 2 ^ 32 → Forall (λ c, c ≠ 0) str → (length str < fuel)%nat →
  region (mem_byte m) addr (S (length str)) = str ++ [0] →
  ∃ m', strcpy_read mem_access fuel m addr = Ok (md_fault_none, str ++ [0], m') ∧ mem_ok m' ∧
    ∀ a, 0 ≤ a < 2 ^ 32 → mem_byte m' a = mem_byte m a.
Proof.
  revert fuel m addr. induction str as [|c str IH]; intros fuel m addr Hm Ha Hc Hf Hr;
    (destruct fuel as [|fuel]; [lia|]); cbn [strcpy_read].
  all: destruct (mem_access_spec m Read addr [0] 1 Hm Ha) as (m1 & -> & Hm1 & Hb1); [simpl; lia|];
    change 1 with (2 ^ 0) in *; rewrite access_spec_aligned in Hb1 |- * by (lia || apply Z.mod_1_r);
    cbn [fst snd mbind result_bind] in *; rewrite bool_decide_false by tauto.
  all: assert (∀ n, region (mem_byte m) addr (S n)
    = mem_byte m addr :: region (mem_byte m) (u32 (addr + 1)) n) as Hrs
    by (intros n; change (S n) with (1 + n)%nat; rewrite region_app;
        unfold region at 1; simpl; by rewrite Z.add_0_r, u32_small by lia).
  all: change (Z.to_nat (2 ^ 0)) with 1%nat; rewrite Hrs in Hr |- *; cbn [app] in *;
    unfold vget; cbn [lookup list_lookup mbind result_bind].
  - injection Hr as Hr0. rewrite Hr0. rewrite bool_decide_true by done. by exists m1.
  - injection Hr as Hr0 Hr. rewrite Hr0.
    apply Forall_cons in Hc as [Hc0 Hc]. rewrite bool_decide_false by done.
    destruct (IH fuel m1 (u32 (addr + 2 ^ 0))) as (m' & -> & Hm' & Hb');
      [done|apply u32_range|done|simpl in Hf; lia| |].
    { rewrite (region_ext (mem_byte m1) (mem_byte m)) by done. exact Hr. }
    exists m'. split; [done|]. split; [done|]. intros a Ha'. by rewrite Hb', Hb1.
Qed.

Lemma bzero_spec n m addr :
  mem_ok m → 0 ≤ addr < 2 ^ 32 → Z.of_nat n ≤ 2 ^ 32 →
  ∃ m', bzero_loop mem_access n m addr = Ok (md_fault_none, m') ∧ mem_ok m' ∧
    ∀ a, 0 ≤ a < 2 ^ 32 → mem_byte m' a = upd_bytes (mem_byte m) addr (replicate n 0) a.
Proof.
  revert m addr. induction n as [|n IH]; intros m addr Hm Ha Hl; cbn [bzero_loop].
  { by exists m. }
  destruct (mem_access_spec m Write addr [0] 1 Hm Ha) as (m1 & -> & Hm1 & Hb1); [simpl; lia|].
  change 1 with (2 ^ 0) in *. rewrite access_spec_aligned in Hb1 |- * by (lia || apply Z.mod_1_r).
  cbn [fst snd mbind result_bind] in *. rewrite bool_decide_false by tauto.
  destruct (IH m1 (u32 (addr + 2 ^ 0))) as (m' & -> & Hm' & Hb'); [done|apply u32_range|lia|].
  exists m'. split; [done|]. split; [done|]. intros a Ha'. rewrite Hb' by done.
  change (replicate (S n) 0) with ([0] ++ replicate n 0).
  rewrite <- (upd_bytes_app _ _ [0] (replicate n 0)); [|done|].
  - apply upd_bytes_ext. by apply Hb1.
  - rewrite length_replicate. simpl. lia.
Qed.

(** ** Memory as a map of bytes *)

Lemma mem_create_good : mem_ok mem_create.
Proof.
  assert (∀ s, ptab_at mem_create s = []) as He
    by (intros s; unfold ptab_at, mem_create; cbn [ptab]; by rewrite lookup_empty).
  split.
  - intros s. rewrite He. constructor.
  - intros s pte. rewrite He. set_solver.
  - intros s s' p p'. rewrite He. set_solver.
  - constructor.
Qed.

(** ** Properties *)

(** C25: [mem_access] implements a flat memory of bytes: it refuses sizes that are
    not powers of two or exceed a page and misaligned addresses, leaving the buffer
    and the bytes alone; it reads the bytes of the region, or stores them and no
    other byte.  The page table stays good. *)
Theorem mem_access_refines m cmd addr p nbytes :
  mem_ok m → 0 ≤ addr < 2 ^ 32 → nbytes ≤ Z.of_nat (length p) →
  ∃ m', mem_access m cmd addr p nbytes
      = Ok ((access_spec (mem_byte m) cmd addr p nbytes).1, m') ∧ mem_ok m' ∧
    ∀ a, 0 ≤ a < 2 ^ 32 → mem_byte m' a = (access_spec (mem_byte m) cmd addr p nbytes).2 a.
Proof. apply mem_access_spec. Qed.

(** A block written by [mem_bcopy], byte by byte, is read back the same by
    [mem_bcopy] at any address, and by [mem_bcopy4], four bytes at a time, at a
    multiple of four. *)
Theorem mem_bcopy_roundtrip m addr p q nbytes :
  mem_ok m → 0 ≤ addr < 2 ^ 32 → 0 ≤ nbytes < 2 ^ 31 →
  Z.of_nat (length p) = nbytes → Z.of_nat (length q) = nbytes →
  ∃ m1, mem_bcopy mem_access m Write addr p nbytes = Ok (md_fault_none, p, m1) ∧ mem_ok m1 ∧
    (∃ m2, mem_bcopy mem_access m1 Read addr q nbytes = Ok (md_fault_none, p, m2)) ∧
    (nbytes mod 4 = 0 → addr mod 4 = 0 →
     ∃ m2, mem_bcopy4 mem_access m1 Read addr q nbytes = Ok (md_fault_none, p, m2)).
Proof.
  intros Hm Ha Hn Hp Hq. unfold mem_bcopy, mem_bcopy4.
  destruct (bcopy_write_spec (Z.to_nat nbytes) 0 m addr p 0 Hm) as (m1 & Hw & Hm1 & Hb1);
    [lia|done|apply Z.mod_1_r|simpl; lia|simpl; lia|].
  change (2 ^ 0) with 1 in *. exists m1. split; [done|]. split; [done|].
  assert (region (mem_byte m1) addr (length p) = p) as Hr.
  { rewrite (region_ext _ (upd_bytes (mem_byte m) addr p)); [by apply region_upd; lia|].
    intros a Ha'. rewrite Hb1 by done. f_equal. rewrite drop_0. apply take_ge. simpl. lia. }
  split.
  - destruct (bcopy_read_spec (Z.to_nat nbytes) 0 m1 addr q 0 Hm1) as (m2 & Hrd & _);
      [lia|done|apply Z.mod_1_r|simpl; lia|].
    exists m2. change (2 ^ 0) with 1 in Hrd. rewrite Hrd. do 3 f_equal.
    change (Z.to_nat 1) with 1%nat. rewrite Nat.mul_1_r. replace (Z.to_nat nbytes) with (length p) by lia.
    rewrite Hr, drop_ge by (simpl; lia). by rewrite app_nil_r.
  - intros Hn4 Ha4. rewrite Z.shiftr_div_pow2 by lia. change (2 ^ 2) with 4.
    assert ((Z.to_nat (nbytes / 4) * Z.to_nat (2 ^ 2))%nat = length p) as Hlen.
    { change (Z.to_nat (2 ^ 2)) with 4%nat. pose proof (Z.div_mod nbytes 4). lia. }
    destruct (bcopy_read_spec (Z.to_nat (nbytes / 4)) 2 m1 addr q 0 Hm1) as (m2 & Hrd & _);
      [lia|done|exact Ha4|rewrite Hlen; simpl; lia|].
    exists m2. change (2 ^ 2) with 4 in Hrd, Hlen. rewrite Hrd, Hlen. do 3 f_equal.
    rewrite Hr, drop_ge by (simpl; lia). by rewrite app_nil_r.
Qed.

(** A string written by [mem_strcpy] with its terminator is read back by
    [mem_strcpy], terminator included, and the loop ends after as many steps. *)
Theorem mem_strcpy_roundtrip m addr str junk fuel :
  mem_ok m → 0 ≤ addr < 2 ^ 32 → Z.of_nat (length str) < 2 ^ 32 → Forall (λ c, c ≠ 0) str →
  (length str < fuel)%nat →
  ∃ m1 m2, strcpy_write mem_access m addr (str ++ 0 :: junk) = Ok (md_fault_none, m1) ∧
    strcpy_read mem_access fuel m1 addr = Ok (md_fault_none, str ++ [0], m2) ∧ mem_ok m2.
Proof.
  intros Hm Ha Hl Hs Hf.
  destruct (strcpy_write_spec str m addr junk Hm Ha) as (m1 & Hw & Hm1 & Hb1); [lia|done|].
  destruct (strcpy_read_spec str fuel m1 addr Hm1 Ha Hs Hf) as (m2 & Hr & Hm2 & _).
  - rewrite (region_ext _ (upd_bytes (mem_byte m) addr (str ++ [0]))) by done.
    apply region_upd; [done|rewrite length_app; simpl; lia|lia].
  - by exists m1, m2.
Qed.

(** ** Observations *)

(** [mem_dump] masks its address with the complement of 4, not of 3, and counts
    its rounded length in words: four bytes at address 4 come out as three words from
    address 0 on. *)
Lemma mem_dump_wrong_words :
  match mem_dump mem_create 4 4 with
  | Ok (_, lines, _) => fst <$> lines = [0; 4; 8]
  | Fault _ => False
  end.
Proof. vm_compute. reflexivity. Qed.

(** ** Witnesses *)

Lemma mem_access_refines_witness : ∃ m',
  mem_access mem_create Write 4096 [1; 2; 3; 4] 4 = Ok (md_fault_none, [1; 2; 3; 4], m') ∧
  mem_ok m' ∧ mem_byte m' 4098 = 3.
Proof.
  destruct (mem_access_refines mem_create Write 4096 [1; 2; 3; 4] 4 mem_create_good)
    as (m' & Hrun & Hm & Hb); [lia|simpl; lia|].
  exists m'. split; [exact Hrun|]. split; [exact Hm|]. rewrite Hb by lia. by vm_compute.
Defined.

Lemma mem_bcopy_roundtrip_witness : ∃ m1 m2,
  mem_bcopy mem_access mem_create Write 4092 [1; 2; 3; 4; 5; 6; 7; 8] 8
  = Ok (md_fault_none, [1; 2; 3; 4; 5; 6; 7; 8], m1) ∧
  mem_bcopy4 mem_access m1 Read 4092 (replicate 8 0) 8
  = Ok (md_fault_none, [1; 2; 3; 4; 5; 6; 7; 8], m2).
Proof.
  destruct (mem_bcopy_roundtrip mem_create 4092 [1; 2; 3; 4; 5; 6; 7; 8] (replicate 8 0) 8
    mem_create_good) as (m1 & Hw & _ & _ & H4); [lia|lia|done|done|].
  destruct H4 as [m2 H4]; [done|done|]. exists m1, m2. split; [exact Hw|exact H4].
Defined.

Lemma mem_strcpy_roundtrip_witness : ∃ m1 m2,
  strcpy_write mem_access mem_create 100 [72; 105; 0; 99] = Ok (md_fault_none, m1) ∧
  strcpy_read mem_access 3 m1 100 = Ok (md_fault_none, [72; 105; 0], m2) ∧ mem_ok m2.
Proof.
  apply (mem_strcpy_roundtrip mem_create 100 [72; 105] [99] 3 mem_create_good);
    [lia|simpl; lia|by repeat constructor|simpl; lia].
Defined.
