(* ===== verification/Cache.v ===== *)
(** * cache.c: the SimpleScalar cache module

    Caches at the level of the sources: each set owns its blocks, and the way
    list and the hash chains are the blocks' own [way_next], [way_prev] and
    [hash_next] pointers, positions in the set's block array.  The miss handler
    [blk_access_fn] and [myrand] are function parameters over the state [W] of
    whatever they act on.  [cache_config], [cache_reg_stats] and [cache_stats]
    only print or register counters. *)

From Stdlib Require Import Ascii.
From S2P Require Import Prelude Misc Memory.

(** ** Data *)

Inductive cache_policy := LRU | Random | FIFO.

#[global] Instance cache_policy_eq_dec : EqDecision cache_policy.
Proof. solve_decision. Defined.

Definition CACHE_BLK_VALID : Z := 1.
Definition CACHE_BLK_DIRTY : Z := 2.

(** A block; pointers to blocks are positions in the set, and [user_data] is
    the contents of the separately allocated user data, if any. *)
Record cache_blk_t := mkBlk {
  way_next : option nat;
  way_prev : option nat;
  hash_next : option nat;
  tag : Z;
  status : Z;
  ready : Z;
  user_data : option (list Z);
  data : list Z
}.

Record cache_set_t := mkSet {
  hash : list (option nat);
  way_head : option nat;
  way_tail : option nat;
  blks : list cache_blk_t
}.

(** The parameters and the data derived from them, fixed at creation. *)
Record cache_conf := mkConf {
  nsets : Z;
  bsize : Z;
  balloc : bool;
  usize : Z;
  assoc : Z;
  policy : cache_policy;
  hit_latency : Z;
  hsize : Z;
  blk_mask : Z;
  set_shift : Z;
  set_mask : Z;
  tag_shift : Z;
  tag_mask : Z;
  tagset_mask : Z
}.

Record cache_t := mkCache {
  conf : cache_conf;
  bus_free : Z;
  hits : Z;
  misses : Z;
  replacements : Z;
  writebacks : Z;
  invalidations : Z;
  last_tagset : Z;
  last_blk : option (nat * nat);
  sets : list cache_set_t
}.

(** ** Address arithmetic *)

Definition CACHE_TAG (cp : cache_conf) (addr : Z) : Z := Z.shiftr addr (tag_shift cp).
Definition CACHE_SET (cp : cache_conf) (addr : Z) : Z :=
  Z.land (Z.shiftr addr (set_shift cp)) (set_mask cp).
Definition CACHE_BLK (cp : cache_conf) (addr : Z) : Z := Z.land addr (blk_mask cp).
Definition CACHE_TAGSET (cp : cache_conf) (addr : Z) : Z := Z.land addr (tagset_mask cp).
Definition CACHE_BADDR (cp : cache_conf) (addr : Z) : Z :=
  Z.land addr (u32 (Z.lnot (blk_mask cp))).
Definition CACHE_MK_BADDR (cp : cache_conf) (tag set : Z) : Z :=
  Z.lor (u32 (Z.shiftl tag (tag_shift cp))) (u32 (Z.shiftl set (set_shift cp))).
Definition CACHE_HASH (hsize key : Z) : Z :=
  Z.land (Z.lxor (Z.lxor (Z.lxor (Z.shiftr key 24) (Z.shiftr key 16)) (Z.shiftr key 8)) key)
    (u32 (hsize - 1)).

#[global] Arguments CACHE_TAG : simpl never.
#[global] Arguments CACHE_SET : simpl never.
#[global] Arguments CACHE_BLK : simpl never.
#[global] Arguments CACHE_TAGSET : simpl never.
#[global] Arguments CACHE_BADDR : simpl never.
#[global] Arguments CACHE_MK_BADDR : simpl never.
#[global] Arguments CACHE_HASH : simpl never.

(** [CACHE_HIGHLY_ASSOC]. *)
Definition CACHE_HIGHLY_ASSOC (assoc : Z) : bool := bool_decide (4 < assoc).

Definition BOUND_POS (n : Z) : Z := Z.min (Z.max 0 n) 2147483647.

Definition blk_valid (b : cache_blk_t) : bool :=
  negb (bool_decide (Z.land (status b) CACHE_BLK_VALID = 0)).
Definition blk_dirty (b : cache_blk_t) : bool :=
  negb (bool_decide (Z.land (status b) CACHE_BLK_DIRTY = 0)).

(** ** Field updates *)

Definition set_way_next (x : option nat) (b : cache_blk_t) : cache_blk_t :=
  mkBlk x (way_prev b) (hash_next b) (tag b) (status b) (ready b) (user_data b) (data b).
Definition set_way_prev (x : option nat) (b : cache_blk_t) : cache_blk_t :=
  mkBlk (way_next b) x (hash_next b) (tag b) (status b) (ready b) (user_data b) (data b).
Definition set_hash_next (x : option nat) (b : cache_blk_t) : cache_blk_t :=
  mkBlk (way_next b) (way_prev b) x (tag b) (status b) (ready b) (user_data b) (data b).
Definition set_tag_status (t st : Z) (b : cache_blk_t) : cache_blk_t :=
  mkBlk (way_next b) (way_prev b) (hash_next b) t st (ready b) (user_data b) (data b).
Definition set_status (st : Z) (b : cache_blk_t) : cache_blk_t := set_tag_status (tag b) st b.
Definition set_ready (r : Z) (b : cache_blk_t) : cache_blk_t :=
  mkBlk (way_next b) (way_prev b) (hash_next b) (tag b) (status b) r (user_data b) (data b).
Definition set_contents (c : option (list Z) * list Z) (b : cache_blk_t) : cache_blk_t :=
  mkBlk (way_next b) (way_prev b) (hash_next b) (tag b) (status b) (ready b) c.1 c.2.
Definition set_data (d : list Z) (b : cache_blk_t) : cache_blk_t :=
  set_contents (user_data b, d) b.

Definition with_blks (s : cache_set_t) (l : list cache_blk_t) : cache_set_t :=
  mkSet (hash s) (way_head s) (way_tail s) l.
Definition with_head (s : cache_set_t) (h : option nat) : cache_set_t :=
  mkSet (hash s) h (way_tail s) (blks s).
Definition with_tail (s : cache_set_t) (t : option nat) : cache_set_t :=
  mkSet (hash s) (way_head s) t (blks s).
Definition with_hash (s : cache_set_t) (h : list (option nat)) : cache_set_t :=
  mkSet h (way_head s) (way_tail s) (blks s).

(** [p->field = ...] through a pointer that is not tested. *)
Definition upd_blk (s : cache_set_t) (p : option nat) (f : cache_blk_t → cache_blk_t)
    : result cache_set_t :=
  b ← deref p; l ← vupd (blks s) b f; Ok (with_blks s l).

(** ** The hash chains *)

(** The search for [blk] in its bucket chain: the block before it, if any. *)
Fixpoint find_prev (fuel : nat) (l : list cache_blk_t) (prev ent : option nat) (blk : nat)
    : result (option nat) :=
  match ent with
  | None => Fault AssertFail
  | Some e =>
      if bool_decide (e = blk) then Ok prev else
      match fuel with
      | O => Fault OutOfFuel
      | S fuel => b ← vget l e; find_prev fuel l (Some e) (hash_next b) blk
      end
  end.

Definition unlink_htab_ent (hsize : Z) (s : cache_set_t) (blk : nat) : result cache_set_t :=
  b ← vget (blks s) blk;
  let index := Z.to_nat (CACHE_HASH hsize (tag b)) in
  h ← vget (hash s) index;
  prev ← find_prev (length (blks s)) (blks s) None h blk;
  s1 ← match prev with
       | None => l ← vset (hash s) index (hash_next b); Ok (with_hash s l)
       | Some p => upd_blk s (Some p) (set_hash_next (hash_next b))
       end;
  upd_blk s1 (Some blk) (set_hash_next None).

Definition link_htab_ent (hsize : Z) (s : cache_set_t) (blk : nat) : result cache_set_t :=
  b ← vget (blks s) blk;
  let index := Z.to_nat (CACHE_HASH hsize (tag b)) in
  h ← vget (hash s) index;
  s1 ← upd_blk s (Some blk) (set_hash_next h);
  l ← vset (hash s1) index (Some blk);
  Ok (with_hash s1 l).

(** ** The way list *)

Inductive list_loc_t := Head | Tail.

#[global] Instance list_loc_t_eq_dec : EqDecision list_loc_t.
Proof. solve_decision. Defined.

Definition c_assert (b : bool) : result unit := if b then Ok tt else Fault AssertFail.

(** The first half of [update_way_list]: unlinks [blk] unless it is already in
    place, in which case the result is [None]. *)
Definition unlink_way (s : cache_set_t) (blk : nat) (where_ : list_loc_t)
    : result (option cache_set_t) :=
  b ← vget (blks s) blk;
  let at_head := bool_decide (way_head s = Some blk) in
  let at_tail := bool_decide (way_tail s = Some blk) in
  match way_prev b, way_next b with
  | None, None => _ ← c_assert (at_head && at_tail); Ok None
  | None, Some n =>
      _ ← c_assert (at_head && negb at_tail);
      if bool_decide (where_ = Head) then Ok None else
      s1 ← upd_blk (with_head s (Some n)) (Some n) (set_way_prev None); Ok (Some s1)
  | Some p, None =>
      _ ← c_assert (negb at_head && at_tail);
      if bool_decide (where_ = Tail) then Ok None else
      s1 ← upd_blk (with_tail s (Some p)) (Some p) (set_way_next None); Ok (Some s1)
  | Some p, Some n =>
      _ ← c_assert (negb at_head && negb at_tail);
      s1 ← upd_blk s (Some p) (set_way_next (Some n));
      s2 ← upd_blk s1 (Some n) (set_way_prev (Some p)); Ok (Some s2)
  end.

(** The second half: links [blk] at one end. *)
Definition link_way (s : cache_set_t) (blk : nat) (where_ : list_loc_t)
    : result cache_set_t :=
  match where_ with
  | Head =>
      s1 ← upd_blk s (Some blk) (set_way_next (way_head s));
      s2 ← upd_blk s1 (Some blk) (set_way_prev None);
      s3 ← upd_blk s2 (way_head s2) (set_way_prev (Some blk));
      Ok (with_head s3 (Some blk))
  | Tail =>
      s1 ← upd_blk s (Some blk) (set_way_prev (way_tail s));
      s2 ← upd_blk s1 (Some blk) (set_way_next None);
      s3 ← upd_blk s2 (way_tail s2) (set_way_next (Some blk));
      Ok (with_tail s3 (Some blk))
  end.

Definition update_way_list (s : cache_set_t) (blk : nat) (where_ : list_loc_t)
    : result cache_set_t :=
  o ← unlink_way s blk where_;
  match o with None => Ok s | Some s1 => link_way s1 blk where_ end.

(** ** Looking a tag up *)

(** A chain of blocks from [p] on: the first valid block with the tag. *)
Fixpoint find_chain (next : cache_blk_t → option nat) (fuel : nat) (l : list cache_blk_t)
    (p : option nat) (t : Z) : result (option nat) :=
  match p with
  | None => Ok None
  | Some b =>
      blk ← vget l b;
      if bool_decide (tag blk = t) && blk_valid blk then Ok (Some b) else
      match fuel with
      | O => Fault OutOfFuel
      | S fuel => find_chain next fuel l (next blk) t
      end
  end.

(** The search of [cache_access], [cache_probe] and [cache_flush_addr]: through
    the hash table of a highly associative cache, else along the way list. *)
Definition find_blk (hsize : Z) (s : cache_set_t) (t : Z) : result (option nat) :=
  if bool_decide (hsize ≠ 0) then
    h ← vget (hash s) (Z.to_nat (CACHE_HASH hsize t));
    find_chain hash_next (length (blks s)) (blks s) h t
  else find_chain way_next (length (blks s)) (blks s) (way_head s) t.

(** ** Block data *)

(** Copying [n] bytes from [src] at [so] to [dst] at [d]. *)
Definition copy_bytes (n so : nat) (src : list Z) (d : nat) (dst : list Z)
    : result (list Z) :=
  if decide (so + n ≤ length src ∧ d + n ≤ length dst)%nat
  then Ok (take d dst ++ take n (drop so src) ++ drop (d + n) dst)
  else Fault OutOfBounds.

(** One typed access of [n] bytes: the block's data and the buffer after it. *)
Definition bcopy_unit (cmd : mem_cmd) (n bofs : nat) (blk : list Z) (pofs : nat) (p : list Z)
    : result (list Z * list Z) :=
  match cmd with
  | Read => p' ← copy_bytes n bofs blk pofs p; Ok (blk, p')
  | Write => blk' ← copy_bytes n pofs p bofs blk; Ok (blk', p)
  end.

(** The loop over words of the default case. *)
Fixpoint bcopy_words (words : nat) (cmd : mem_cmd) (bofs : nat) (blk : list Z) (pofs : nat)
    (p : list Z) : result (list Z * list Z) :=
  match words with
  | O => Ok (blk, p)
  | S words =>
      '(blk1, p1) ← bcopy_unit cmd 4 bofs blk pofs p;
      bcopy_words words cmd (bofs + 4) blk1 (pofs + 4) p1
  end.

Definition CACHE_BCOPY (cmd : mem_cmd) (blk : list Z) (bofs : Z) (p : list Z) (nbytes : Z)
    : result (list Z * list Z) :=
  if bool_decide (nbytes = 1 ∨ nbytes = 2 ∨ nbytes = 4)
  then bcopy_unit cmd (Z.to_nat nbytes) (Z.to_nat bofs) blk 0 p
  else bcopy_words (Z.to_nat (Z.shiftr nbytes 2)) cmd (Z.to_nat bofs) blk 0 p.

(** The copy, if blocks have data, and the dirty bit of a write. *)
Definition access_blk (cp : cache_conf) (cmd : mem_cmd) (bofs : Z) (p : list Z) (nbytes : Z)
    (blk : cache_blk_t) : result (cache_blk_t * list Z) :=
  '(d, p') ← (if balloc cp then CACHE_BCOPY cmd (data blk) bofs p nbytes
              else Ok (data blk, p));
  let blk := set_data d blk in
  Ok (if bool_decide (cmd = Write)
      then set_status (Z.lor (status blk) CACHE_BLK_DIRTY) blk else blk, p').

(** ** Creation *)

(** The iteration of the inner loop for block [j]. *)
Definition create_blk (hsize : Z) (s : cache_set_t) (j : nat) : result cache_set_t :=
  s1 ← (if bool_decide (hsize ≠ 0) then link_htab_ent hsize s j else Ok s);
  s2 ← upd_blk s1 (Some j) (set_way_next (way_head s1));
  s3 ← upd_blk s2 (Some j) (set_way_prev None);
  s4 ← (match way_head s3 with
        | Some h => upd_blk s3 (Some h) (set_way_prev (Some j))
        | None => Ok s3
        end);
  let s5 := with_head s4 (Some j) in
  Ok (match way_tail s5 with None => with_tail s5 (Some j) | Some _ => s5 end).

Fixpoint create_blks (hsize : Z) (js : list nat) (s : cache_set_t) : result cache_set_t :=
  match js with
  | [] => Ok s
  | j :: js => s' ← create_blk hsize s j; create_blks hsize js s'
  end.

(** One set: its blocks are zeroed by [calloc] and then invalidated. *)
Definition create_set (cp : cache_conf) : result cache_set_t :=
  let blk := mkBlk None None None 0 0 0
               (if bool_decide (usize cp ≠ 0)
                then Some (replicate (Z.to_nat (usize cp)) 0) else None)
               (if balloc cp then replicate (Z.to_nat (bsize cp)) 0 else []) in
  create_blks (hsize cp) (seq 0 (Z.to_nat (assoc cp)))
    (mkSet (replicate (Z.to_nat (hsize cp)) None) None None
       (replicate (Z.to_nat (assoc cp)) blk)).

(** The checks of the parameters, the derived parameters, and the sets, all
    initialised alike; the shift in [tag_mask] is undefined when the offset and
    index bits exceed an address. *)
Definition cache_create (nsets bsize : Z) (balloc : bool) (usize assoc : Z)
    (policy : cache_policy) (hit_latency : Z) : result cache_t :=
  if bool_decide (nsets ≤ 0) then Fault (Fatal "cache size (in sets) must be non-zero")
  else if bool_decide (Z.land nsets (nsets - 1) ≠ 0)
  then Fault (Fatal "cache size (in sets) is not a power of two")
  else if bool_decide (bsize < 8)
  then Fault (Fatal "cache block size (in bytes) must be 8 or greater")
  else if bool_decide (Z.land bsize (bsize - 1) ≠ 0)
  then Fault (Fatal "cache block size (in bytes) must be a power of two")
  else if bool_decide (usize < 0)
  then Fault (Fatal "user data size (in bytes) must be a positive value")
  else if bool_decide (assoc ≤ 0)
  then Fault (Fatal "cache associativity must be non-zero and positive")
  else if bool_decide (Z.land assoc (assoc - 1) ≠ 0)
  then Fault (Fatal "cache associativity must be a power of two")
  else
  set_shift ← log_base2 bsize;
  set_bits ← log_base2 nsets;
  let tag_shift := set_shift + set_bits in
  if bool_decide (32 < tag_shift) then Fault Undefined else
  let blk_mask := bsize - 1 in
  let cp := mkConf nsets bsize balloc usize assoc policy hit_latency
              (if CACHE_HIGHLY_ASSOC assoc then Z.shiftr assoc 2 else 0)
              blk_mask set_shift (nsets - 1) tag_shift
              (u32 (i32 (Z.shiftl 1 (32 - tag_shift)) - 1)) (u32 (Z.lnot blk_mask)) in
  if bool_decide (2 ^ 31 ≤ nsets * assoc) then Fault Undefined else
  s ← create_set cp;
  Ok (mkCache cp 0 0 0 0 0 0 0 None (replicate (Z.to_nat nsets) s)).

(** [cache_char2policy]. *)
Definition cache_char2policy (c : ascii) : result cache_policy :=
  if bool_decide (c = "l"%char) then Ok LRU
  else if bool_decide (c = "r"%char) then Ok Random
  else if bool_decide (c = "f"%char) then Ok FIFO
  else Fault (Fatal "bogus replacement policy").

(** ** Access *)

Definition set_sets (cp : cache_t) (l : list cache_set_t) : cache_t :=
  mkCache (conf cp) (bus_free cp) (hits cp) (misses cp) (replacements cp) (writebacks cp)
    (invalidations cp) (last_tagset cp) (last_blk cp) l.
Definition set_last (cp : cache_t) (ts : Z) (b : option (nat * nat)) : cache_t :=
  mkCache (conf cp) (bus_free cp) (hits cp) (misses cp) (replacements cp) (writebacks cp)
    (invalidations cp) ts b (sets cp).
Definition count_hit (cp : cache_t) : cache_t :=
  mkCache (conf cp) (bus_free cp) (i64 (hits cp + 1)) (misses cp) (replacements cp)
    (writebacks cp) (invalidations cp) (last_tagset cp) (last_blk cp) (sets cp).
Definition count_miss (cp : cache_t) : cache_t :=
  mkCache (conf cp) (bus_free cp) (hits cp) (i64 (misses cp + 1)) (replacements cp)
    (writebacks cp) (invalidations cp) (last_tagset cp) (last_blk cp) (sets cp).
Definition count_replacement (bf : Z) (cp : cache_t) : cache_t :=
  mkCache (conf cp) bf (hits cp) (misses cp) (i64 (replacements cp + 1))
    (writebacks cp) (invalidations cp) (last_tagset cp) (last_blk cp) (sets cp).
Definition count_writeback (cp : cache_t) : cache_t :=
  mkCache (conf cp) (bus_free cp) (hits cp) (misses cp) (replacements cp)
    (i64 (writebacks cp + 1)) (invalidations cp) (last_tagset cp) (last_blk cp) (sets cp).
Definition count_invalidation (cp : cache_t) : cache_t :=
  mkCache (conf cp) (bus_free cp) (hits cp) (misses cp) (replacements cp)
    (writebacks cp) (i64 (invalidations cp + 1)) (last_tagset cp) (last_blk cp) (sets cp).

Definition put_set (cp : cache_t) (i : nat) (s : cache_set_t) : result cache_t :=
  l ← vset (sets cp) i s; Ok (set_sets cp l).

(** What [cache_access] returns, and what it writes through its pointers: the
    buffer, [*udata] (the user data of that block, if blocks have any) and
    [*repl_addr]. *)
Record access_out := mkOut {
  out_lat : Z;
  out_p : list Z;
  out_udata : option (nat * nat);
  out_repl : Z
}.

(** The latency of both hit handlers. *)
Definition hit_lat (cp : cache_conf) (blk : cache_blk_t) (now : Z) : Z :=
  u32 (i32 (Z.max (hit_latency cp) (i64 (ready blk - now)))).

Definition udata_of (i b : nat) (blk : cache_blk_t) : option (nat * nat) :=
  (λ _, (i, b)) <$> user_data blk.

Section Access.
Context {W : Type}.
(** The latency of the operation, the new contents of the block (user data and
    data), and the new state of the next level. *)
Variable blk_access_fn :
  mem_cmd → Z → Z → cache_blk_t → Z → W → Z * (option (list Z) * list Z) * W.
Variable myrand : W → Z * W.

(** [cache_hit]: block [b] of set [i], which is not at the head of the list or
    is already there. *)
Definition cache_hit (cp : cache_t) (cmd : mem_cmd) (addr : Z) (p : list Z) (nbytes now : Z)
    (i b : nat) : result (access_out * cache_t) :=
  s ← vget (sets cp) i;
  blk ← vget (blks s) b;
  '(blk1, p1) ← access_blk (conf cp) cmd (CACHE_BLK (conf cp) addr) p nbytes blk;
  s1 ← upd_blk s (Some b) (λ _, blk1);
  s2 ← (if bool_decide (way_prev blk1 ≠ None) && bool_decide (policy (conf cp) = LRU)
        then update_way_list s1 b Head else Ok s1);
  cp1 ← put_set (count_hit cp) i s2;
  Ok (mkOut (hit_lat (conf cp) blk1 now) p1 (udata_of i b blk1) 0,
      set_last cp1 (CACHE_TAGSET (conf cp) addr) (Some (i, b))).

(** [cache_fast_hit]: no reordering. *)
Definition cache_fast_hit (cp : cache_t) (cmd : mem_cmd) (addr : Z) (p : list Z)
    (nbytes now : Z) (i b : nat) : result (access_out * cache_t) :=
  s ← vget (sets cp) i;
  blk ← vget (blks s) b;
  '(blk1, p1) ← access_blk (conf cp) cmd (CACHE_BLK (conf cp) addr) p nbytes blk;
  s1 ← upd_blk s (Some b) (λ _, blk1);
  cp1 ← put_set (count_hit cp) i s1;
  Ok (mkOut (hit_lat (conf cp) blk1 now) p1 (udata_of i b blk1) 0,
      set_last cp1 (CACHE_TAGSET (conf cp) addr) (Some (i, b))).

(** The block to replace, moved to the head of the way list by LRU and FIFO. *)
Definition select_repl (cp : cache_conf) (s : cache_set_t) (w : W)
    : result (nat * cache_set_t * W) :=
  match policy cp with
  | LRU | FIFO =>
      repl ← deref (way_tail s);
      s1 ← update_way_list s repl Head;
      Ok (repl, s1, w)
  | Random =>
      let '(r, w1) := myrand w in
      Ok (Z.to_nat (Z.land r (assoc cp - 1)), s, w1)
  end.

(** The write-back of the replaced block: the latency so far, the block, the
    replacement address and the counters. *)
Definition evict (cp : cache_t) (set : Z) (blk : cache_blk_t) (now : Z) (w : W)
    : Z * cache_blk_t * Z * cache_t * W :=
  if blk_valid blk then
    let baddr := CACHE_MK_BADDR (conf cp) (tag blk) set in
    let lat := BOUND_POS (i64 (ready blk - now)) in
    let lat := i32 (lat + BOUND_POS (i64 (bus_free cp - i64 (now + lat)))) in
    let cp1 := count_replacement (i64 (Z.max (bus_free cp) (i64 (now + lat)) + 1)) cp in
    if blk_dirty blk then
      let '(l, c, w1) :=
        blk_access_fn Write baddr (bsize (conf cp)) blk (i64 (now + lat)) w in
      (i32 (lat + l), set_contents c blk, baddr, count_writeback cp1, w1)
    else (lat, blk, baddr, cp1, w)
  else (0, blk, 0, cp, w).

(** The miss path. *)
Definition cache_miss (cp : cache_t) (cmd : mem_cmd) (addr : Z) (p : list Z) (nbytes now : Z)
    (i : nat) (w : W) : result (access_out * cache_t * W) :=
  let cf := conf cp in
  s ← vget (sets cp) i;
  '(repl, s1, w1) ← select_repl cf s w;
  s2 ← (if bool_decide (hsize cf ≠ 0) then unlink_htab_ent (hsize cf) s1 repl else Ok s1);
  blk ← vget (blks s2) repl;
  let cp1 := set_last (count_miss cp) 0 None in
  let '(lat, blk1, raddr, cp2, w2) := evict cp1 (CACHE_SET cf addr) blk now w1 in
  let blk2 := set_tag_status (CACHE_TAG cf addr) CACHE_BLK_VALID blk1 in
  let '(l, c, w3) :=
    blk_access_fn Read (CACHE_BADDR cf addr) (bsize cf) blk2 (i64 (now + lat)) w2 in
  let lat := i32 (lat + l) in
  '(blk3, p1) ← access_blk cf cmd (CACHE_BLK cf addr) p nbytes (set_contents c blk2);
  let blk4 := set_ready (i64 (now + lat)) blk3 in
  s3 ← upd_blk s2 (Some repl) (λ _, blk4);
  s4 ← (if bool_decide (hsize cf ≠ 0) then link_htab_ent (hsize cf) s3 repl else Ok s3);
  cp3 ← put_set cp2 i s4;
  Ok (mkOut (u32 lat) p1 (udata_of i repl blk4) raddr, cp3, w3).

(** [cache_access]. *)
Definition cache_access (cp : cache_t) (cmd : mem_cmd) (addr : Z) (p : list Z)
    (nbytes now : Z) (w : W) : result (access_out * cache_t * W) :=
  let cf := conf cp in
  if bool_decide (Z.land nbytes (nbytes - 1) ≠ 0 ∨ Z.land addr (u32 (nbytes - 1)) ≠ 0)
  then Fault (Fatal "cache: access error: bad size or alignment")
  else if bool_decide (u32 (CACHE_BADDR cf addr + bsize cf) < u32 (addr + nbytes))
  then Fault (Fatal "cache: access error: access spans block")
  else if bool_decide (CACHE_TAGSET cf addr = last_tagset cp) then
    '(i, b) ← deref (last_blk cp);
    '(out, cp1) ← cache_fast_hit cp cmd addr p nbytes now i b;
    Ok (out, cp1, w)
  else
    let i := Z.to_nat (CACHE_SET cf addr) in
    s ← vget (sets cp) i;
    o ← find_blk (hsize cf) s (CACHE_TAG cf addr);
    match o with
    | Some b =>
        '(out, cp1) ← cache_hit cp cmd addr p nbytes now i b;
        Ok (out, cp1, w)
    | None => cache_miss cp cmd addr p nbytes now i w
    end.

(** [cache_probe]. *)
Definition cache_probe (cp : cache_t) (addr : Z) : result bool :=
  s ← vget (sets cp) (Z.to_nat (CACHE_SET (conf cp) addr));
  o ← find_blk (hsize (conf cp)) s (CACHE_TAG (conf cp) addr);
  Ok (bool_decide (o ≠ None)).

(** ** Flushing *)

(** Invalidating one valid block, with its write-back. *)
Definition flush_blk (cp : cache_t) (set : Z) (blk : cache_blk_t) (lat now : Z) (w : W)
    : cache_blk_t * Z * cache_t * W :=
  let blk1 := set_status (Z.land (status blk) (u32 (Z.lnot CACHE_BLK_VALID))) blk in
  let cp1 := count_invalidation cp in
  if blk_dirty blk1 then
    let '(l, c, w1) :=
      blk_access_fn Write (CACHE_MK_BADDR (conf cp) (tag blk) set) (bsize (conf cp)) blk1
        (i64 (now + lat)) w in
    (set_contents c blk1, i32 (lat + l), count_writeback cp1, w1)
  else (blk1, lat, cp1, w).

(** The loop over the way list of set [i], which is put back at each step. *)
Fixpoint flush_ways (fuel : nat) (cp : cache_t) (i : nat) (p : option nat) (lat now : Z) (w : W)
    : result (Z * cache_t * W) :=
  match p with
  | None => Ok (lat, cp, w)
  | Some b =>
      s ← vget (sets cp) i;
      blk ← vget (blks s) b;
      '(lat1, cp1, w1) ←
        (if blk_valid blk then
           let '(blk1, lat1, cp1, w1) := flush_blk cp (Z.of_nat i) blk lat now w in
           s1 ← upd_blk s (Some b) (λ _, blk1);
           cp2 ← put_set cp1 i s1;
           Ok (lat1, cp2, w1)
         else Ok (lat, cp, w));
      match fuel with
      | O => Fault OutOfFuel
      | S fuel => flush_ways fuel cp1 i (way_next blk) lat1 now w1
      end
  end.

Fixpoint flush_sets (idxs : list nat) (cp : cache_t) (lat now : Z) (w : W)
    : result (Z * cache_t * W) :=
  match idxs with
  | [] => Ok (lat, cp, w)
  | i :: idxs =>
      s ← vget (sets cp) i;
      '(lat1, cp1, w1) ← flush_ways (length (blks s)) cp i (way_head s) lat now w;
      flush_sets idxs cp1 lat1 now w1
  end.

(** [cache_flush]. *)
Definition cache_flush (cp : cache_t) (now : Z) (w : W) : result (Z * cache_t * W) :=
  '(lat, cp1, w1) ← flush_sets (seq 0 (Z.to_nat (nsets (conf cp)))) (set_last cp 0 None)
                      (i32 (hit_latency (conf cp))) now w;
  Ok (u32 lat, cp1, w1).

(** [cache_flush_addr]. *)
Definition cache_flush_addr (cp : cache_t) (addr now : Z) (w : W) : result (Z * cache_t * W) :=
  let cf := conf cp in
  let i := Z.to_nat (CACHE_SET cf addr) in
  let lat := i32 (hit_latency cf) in
  s ← vget (sets cp) i;
  o ← find_blk (hsize cf) s (CACHE_TAG cf addr);
  match o with
  | None => Ok (u32 lat, cp, w)
  | Some b =>
      blk ← vget (blks s) b;
      let '(blk1, lat1, cp1, w1) :=
        flush_blk (set_last cp 0 None) (CACHE_SET cf addr) blk lat now w in
      s1 ← upd_blk s (Some b) (λ _, blk1);
      s2 ← update_way_list s1 b Tail;
      cp2 ← put_set cp1 i s2;
      Ok (u32 lat1, cp2, w1)
  end.
End Access.
