(* ===== verification/CacheInv.v ===== *)
(** * cache.c: representation invariants

    The way list is a doubly linked list through the blocks, the hash chains are
    singly linked lists through them; this file shows that the pointer
    operations of the sources implement the list operations they stand for. *)

From S2P Require Import Prelude Chains Misc Memory Cache.

(** ** Doubly linked lists

    [wn] and [wp] give the links of each block, [order] the list they spell. *)

Definition before (order : list nat) (k : nat) : option nat :=
  match k with O => None | S k => order !! k end.

Definition links (wn wp : nat → option nat) (order : list nat) : Prop :=
  ∀ k b, order !! k = Some b → wn b = order !! S k ∧ wp b = before order k.

Lemma nodup_index (l : list nat) i j x :
  NoDup l → l !! i = Some x → l !! j = Some x → i = j.
Proof. intros Hnd. by apply NoDup_lookup. Qed.

Lemma lookup_delete {A} (l : list A) k i :
  delete k l !! i = if decide (i < k)%nat then l !! i else l !! S i.
Proof.
  destruct (decide (i < k)%nat).
  - by rewrite list_lookup_delete_lt.
  - by rewrite list_lookup_delete_ge by lia.
Qed.

(** Compare two blocks by their positions. *)
Ltac by_index Hnd :=
  repeat match goal with
  | H1 : ?l !! ?i = Some ?c, H2 : ?l !! ?j = Some ?c |- _ =>
      lazymatch goal with
      | _ : i = j |- _ => fail
      | _ : j = i |- _ => fail
      | _ => first [constr_eq i j; fail 1 | pose proof (nodup_index _ _ _ _ Hnd H1 H2)]
      end
  end.

Lemma relink_head wn wp wn' wp' order k b h p :
  NoDup order → links wn wp order → order !! k = Some b → (0 < k)%nat →
  order !! 0%nat = Some h → before order k = Some p →
  (∀ c, wn' c = if decide (c = b) then Some h
                else if decide (c = p) then order !! S k else wn c) →
  (∀ c, wp' c = if decide (c = b) then None
                else if decide (c = h) then Some b
                else if decide (order !! S k = Some c) then Some p else wp c) →
  links wn' wp' (b :: delete k order).
Proof.
  intros Hnd Hl Hb Hk Hh Hp Hwn Hwp j c Hj.
  destruct k as [|k]; [lia|]. simpl in Hp.
  destruct j as [|i]; simpl in Hj |- *.
  - injection Hj as <-. rewrite Hwn, Hwp, !decide_True by done.
    rewrite lookup_delete, decide_True by lia. done.
  - rewrite lookup_delete in Hj. rewrite Hwn, Hwp.
    destruct (decide (i < S k)%nat) as [Hi|Hi].
    + destruct (Hl i c Hj) as [Hn Hv].
      rewrite !(decide_False (P := c = b)) by (intros ->; by_index Hnd; lia).
      split.
      * rewrite lookup_delete. destruct (decide (c = p)) as [->|Hcp].
        { by_index Hnd. assert (i = k) as -> by lia. by rewrite decide_False by lia. }
        assert (i ≠ k) by (intros ->; congruence). by rewrite decide_True by lia.
      * destruct (decide (c = h)) as [->|Hch].
        { by_index Hnd. assert (i = 0%nat) as -> by lia. done. }
        destruct i as [|i]; [congruence|]. simpl in *.
        rewrite decide_False by (intros ?; by_index Hnd; lia).
        by rewrite lookup_delete, decide_True by lia.
    + destruct (Hl (S i) c Hj) as [Hn Hv].
      rewrite !(decide_False (P := c = b)) by (intros ->; by_index Hnd; lia).
      rewrite !(decide_False (P := c = p)) by (intros ->; by_index Hnd; lia).
      rewrite !(decide_False (P := c = h)) by (intros ->; by_index Hnd; lia).
      split.
      * by rewrite lookup_delete, decide_False by lia.
      * destruct (decide (order !! S (S k) = Some c)) as [Hc|Hc].
        { by_index Hnd. assert (i = S k) as -> by lia. simpl.
          by rewrite lookup_delete, decide_True by lia. }
        destruct i as [|i]; [lia|]. simpl in *.
        assert (S k ≠ S i) by (intros [= ->]; done).
        by rewrite lookup_delete, decide_False by lia.
Qed.

Lemma relink_tail wn wp wn' wp' order k b t x :
  NoDup order → links wn wp order → order !! k = Some b →
  order !! S k = Some x → order !! (length order - 1)%nat = Some t →
  (∀ c, wn' c = if decide (c = b) then None
                else if decide (c = t) then Some b
                else if decide (before order k = Some c) then Some x else wn c) →
  (∀ c, wp' c = if decide (c = b) then Some t
                else if decide (c = x) then before order k else wp c) →
  links wn' wp' (delete k order ++ [b]).
Proof.
  intros Hnd Hl Hb Hx Ht Hwn Hwp j c Hj.
  pose proof (lookup_lt_Some _ _ _ Hx) as Hlen.
  assert (length (delete k order) = (length order - 1)%nat) as Hdl.
  { rewrite length_delete by eauto. lia. }
  assert (∀ i, (delete k order ++ [b]) !! i
    = if decide (i < length order - 1)%nat
      then if decide (i < k)%nat then order !! i else order !! S i
      else if decide (i = length order - 1)%nat then Some b else None) as Hlk.
  { intros i. destruct (decide (i < length order - 1)%nat).
    - rewrite lookup_app_l by lia. apply lookup_delete.
    - rewrite lookup_app_r, Hdl by lia. destruct (decide (i = _)) as [->|].
      + by rewrite Nat.sub_diag.
      + destruct (i - (length order - 1))%nat eqn:E; [lia|done]. }
  rewrite Hlk in Hj. rewrite Hlk, Hwn, Hwp.
  destruct (decide (j < length order - 1)%nat) as [Hj1|Hj1]; last first.
  { destruct (decide (j = _)) as [->|]; [|done]. injection Hj as <-.
    rewrite !(decide_True (P := b = b)) by done.
    rewrite (decide_False (P := (S _ < _)%nat)), (decide_False (P := S _ = _)) by lia.
    split; [done|]. destruct (length order) as [|[|m]]; [lia|lia|].
    replace (S (S m) - 1)%nat with (S m) in * by lia. simpl.
    by rewrite Hlk, decide_True, decide_False by lia. }
  destruct (decide (j < k)%nat) as [Hjk|Hjk].
  - destruct (Hl j c Hj) as [Hn Hv].
    rewrite !(decide_False (P := c = b)) by (intros ->; by_index Hnd; lia).
    rewrite (decide_False (P := c = t)) by (intros ->; by_index Hnd; lia).
    rewrite (decide_False (P := c = x)) by (intros ->; by_index Hnd; lia).
    rewrite (decide_True (P := (S j < length order - 1)%nat)) by lia. split.
    + destruct k as [|k]; [lia|]. simpl. destruct (decide (order !! k = Some c)) as [Hc|Hc].
      * by_index Hnd. assert (j = k) as -> by lia. by rewrite decide_False by lia.
      * assert (j ≠ k) by (intros ->; done). by rewrite decide_True by lia.
    + destruct j as [|j]; [done|]. simpl in *.
      by rewrite Hlk, !decide_True by lia.
  - destruct (Hl (S j) c Hj) as [Hn Hv].
    rewrite !(decide_False (P := c = b)) by (intros ->; by_index Hnd; lia). split.
    + destruct (decide (c = t)) as [->|Hct].
      * by_index Hnd. rewrite decide_False, decide_True by lia. done.
      * rewrite (decide_False (P := before order k = Some c)).
        { assert (S j ≠ length order - 1)%nat by (intros E; congruence).
          by rewrite decide_True, decide_False by lia. }
        intros Hc. destruct k as [|k]; [done|]. simpl in Hc. by_index Hnd. lia.
    + destruct (decide (c = x)) as [->|Hcx].
      * by_index Hnd. assert (j = k) as -> by lia. destruct k as [|k]; [done|]. simpl.
        by rewrite Hlk, !decide_True by lia.
      * assert (j ≠ k) by (intros ->; congruence). destruct j as [|j]; [lia|]. simpl in *.
        by rewrite Hlk, decide_True, decide_False by lia.
Qed.

(** ** Updates through block pointers *)

Lemma upd_blk_Ok s b f :
  (b < length (blks s))%nat → upd_blk s (Some b) f = Ok (with_blks s (alter f b (blks s))).
Proof.
  intros [blk Hb]%lookup_lt_is_Some_2. unfold upd_blk. simpl. unfold vupd, vget.
  rewrite Hb. simpl. f_equal. f_equal. apply list_eq. intros i.
  destruct (decide (i = b)) as [->|Hi].
  - rewrite list_lookup_alter_eq, Hb. simpl.
    rewrite list_lookup_insert_eq; [done|]. by apply lookup_lt_Some in Hb.
  - by rewrite list_lookup_insert_ne, list_lookup_alter_ne by done.
Qed.

(** ** The way list of a set *)

Definition wn_of (l : list cache_blk_t) (b : nat) : option nat := l !! b ≫= way_next.
Definition wp_of (l : list cache_blk_t) (b : nat) : option nat := l !! b ≫= way_prev.

(** What the way list does not touch. *)
Definition payload (blk : cache_blk_t)
    : option nat * Z * Z * Z * option (list Z) * list Z :=
  (hash_next blk, tag blk, status blk, ready blk, user_data blk, data blk).

Definition same_payload (s s' : cache_set_t) : Prop :=
  hash s' = hash s ∧ payload <$> blks s' = payload <$> blks s.

#[export] Instance same_payload_equiv : Equivalence same_payload.
Proof.
  unfold same_payload. split; red; [done|naive_solver|].
  intros x y z [? ?] [? ?]. split; congruence.
Qed.

Lemma same_payload_length s s' : same_payload s s' → length (blks s') = length (blks s).
Proof. intros [_ H%(f_equal length)]. by rewrite !length_fmap in H. Qed.

Record ways_ok (s : cache_set_t) (order : list nat) : Prop := {
  ways_nodup : NoDup order;
  ways_all : ∀ b, b ∈ order ↔ (b < length (blks s))%nat;
  ways_head : way_head s = head order;
  ways_tail : way_tail s = last order;
  ways_links : links (wn_of (blks s)) (wp_of (blks s)) order
}.

Lemma wn_set_next l b x c : (b < length l)%nat →
  wn_of (alter (set_way_next x) b l) c = if decide (c = b) then x else wn_of l c.
Proof.
  intros [blk Hb]%lookup_lt_is_Some_2. unfold wn_of. rewrite list_lookup_alter.
  case_decide; subst; [rewrite decide_True, Hb by done; done|by rewrite decide_False].
Qed.
Lemma wp_set_prev l b x c : (b < length l)%nat →
  wp_of (alter (set_way_prev x) b l) c = if decide (c = b) then x else wp_of l c.
Proof.
  intros [blk Hb]%lookup_lt_is_Some_2. unfold wp_of. rewrite list_lookup_alter.
  case_decide; subst; [rewrite decide_True, Hb by done; done|by rewrite decide_False].
Qed.
Lemma wn_set_prev l b x c : wn_of (alter (set_way_prev x) b l) c = wn_of l c.
Proof. unfold wn_of. rewrite list_lookup_alter. case_decide; [|done]. subst. by destruct (l !! _). Qed.
Lemma wp_set_next l b x c : wp_of (alter (set_way_next x) b l) c = wp_of l c.
Proof. unfold wp_of. rewrite list_lookup_alter. case_decide; [|done]. subst. by destruct (l !! _). Qed.

Lemma payload_set_next (l : list cache_blk_t) b x : payload <$> alter (set_way_next x) b l = payload <$> l.
Proof.
  apply list_eq. intros i. rewrite !list_lookup_fmap, list_lookup_alter.
  case_decide; [|done]. subst. by destruct (l !! _).
Qed.
Lemma payload_set_prev (l : list cache_blk_t) b x : payload <$> alter (set_way_prev x) b l = payload <$> l.
Proof.
  apply list_eq. intros i. rewrite !list_lookup_fmap, list_lookup_alter.
  case_decide; [|done]. subst. by destruct (l !! _).
Qed.

#[export] Hint Rewrite wn_set_prev wp_set_next payload_set_next payload_set_prev
  @length_alter : ways.

Lemma ways_lookup s order k b :
  ways_ok s order → order !! k = Some b →
  (b < length (blks s))%nat ∧ ∃ blk, blks s !! b = Some blk ∧
    way_next blk = order !! S k ∧ way_prev blk = before order k.
Proof.
  intros Hw Hb. assert (b < length (blks s))%nat as Hlt.
  { by eapply (ways_all s order Hw), list_elem_of_lookup_2. }
  split; [done|]. apply lookup_lt_is_Some_2 in Hlt as [blk Hblk]. exists blk.
  destruct (ways_links s order Hw k b Hb) as [Hn Hp].
  unfold wn_of, wp_of in *. rewrite Hblk in *. done.
Qed.

Lemma head_lookup {A} (l : list A) : head l = l !! 0%nat.
Proof. by destruct l. Qed.
Lemma last_index {A} (l : list A) : last l = l !! (length l - 1)%nat.
Proof. rewrite last_lookup. f_equal. lia. Qed.

(** Where a block of the list is, by its position. *)
Lemma ways_at_head s order k b :
  ways_ok s order → order !! k = Some b →
  bool_decide (way_head s = Some b) = bool_decide (k = 0%nat).
Proof.
  intros Hw Hb. apply bool_decide_ext. rewrite (ways_head s order Hw), head_lookup.
  split; [|by intros ->]. intros H. by eapply nodup_index; [apply Hw|..].
Qed.
Lemma ways_at_tail s order k b :
  ways_ok s order → order !! k = Some b →
  bool_decide (way_tail s = Some b) = bool_decide (S k = length order).
Proof.
  intros Hw Hb. pose proof (lookup_lt_Some _ _ _ Hb).
  apply bool_decide_ext. rewrite (ways_tail s order Hw), last_index. split.
  - intros Ht. assert (k = length order - 1)%nat by (eapply nodup_index; [apply Hw|..]; done). lia.
  - intros <-. by replace (S k - 1)%nat with k by lia.
Qed.

Lemma move_members (order : list nat) k b :
  order !! k = Some b → NoDup order →
  (∀ c, c ∈ b :: delete k order ↔ c ∈ order) ∧ NoDup (b :: delete k order).
Proof.
  intros Hb Hnd. assert (b :: delete k order ≡ₚ order) as Hp.
  { rewrite <- (take_drop_middle order k b Hb) at 2.
    rewrite delete_take_drop. by rewrite Permutation_middle. }
  split; [intros c; by rewrite Hp|by rewrite Hp].
Qed.

(** Unlinking joins the two neighbours. *)
Lemma unlink_way_spec s order k b where_ :
  ways_ok s order → order !! k = Some b →
  (where_ = Head → (0 < k)%nat) → (where_ = Tail → (S k < length order)%nat) →
  ∃ s', unlink_way s b where_ = Ok (Some s') ∧ same_payload s s' ∧
    length (blks s') = length (blks s) ∧
    way_head s' = (if decide (k = 0%nat) then order !! 1%nat else way_head s) ∧
    way_tail s' = (if decide (S k = length order) then before order k else way_tail s) ∧
    (∀ c, wn_of (blks s') c =
       if decide (before order k = Some c) then order !! S k else wn_of (blks s) c) ∧
    (∀ c, wp_of (blks s') c =
       if decide (order !! S k = Some c) then before order k else wp_of (blks s) c).
Proof.
  intros Hw Hb Hhd Htl. destruct (ways_lookup s order k b Hw Hb) as (Hlt & blk & Hblk & Hn & Hp).
  pose proof (lookup_lt_Some _ _ _ Hb) as Hk.
  unfold unlink_way, vget. rewrite Hblk. cbn [mbind result_bind].
  rewrite Hn, Hp, (ways_at_head s order k b), (ways_at_tail s order k b) by done.
  destruct (order !! S k) as [n|] eqn:Hnk.
  - pose proof (lookup_lt_Some _ _ _ Hnk).
    destruct (ways_lookup s order (S k) n Hw Hnk) as (Hnlt & _).
    rewrite (bool_decide_false (S k = length order)) by lia.
    rewrite (decide_False (P := S k = length order)) by lia.
    destruct k as [|k]; simpl.
    + rewrite bool_decide_false by (intros ->; specialize (Hhd eq_refl); lia).
      rewrite upd_blk_Ok by done. simpl. eexists. split; [done|].
      split; [split; simpl; by autorewrite with ways|]. simpl. autorewrite with ways.
      split_and!; [done|done|done|..]; intros c; autorewrite with ways;
        [done|]. rewrite wp_set_prev by done.
      apply decide_ext. naive_solver.
    + destruct (order !! k) as [p|] eqn:Hpk; [|apply lookup_ge_None in Hpk; lia].
      destruct (ways_lookup s order k p Hw Hpk) as (Hplt & _). simpl.
      rewrite upd_blk_Ok by done. simpl. rewrite upd_blk_Ok by (simpl; by rewrite length_alter).
      simpl. eexists. split; [done|].
      split; [split; simpl; by autorewrite with ways|]. simpl. autorewrite with ways.
      split_and!; [done|done|done|..]; intros c; autorewrite with ways.
      * rewrite wn_set_next by done. apply decide_ext. naive_solver.
      * rewrite wp_set_prev by (by rewrite length_alter). autorewrite with ways.
        apply decide_ext. naive_solver.
  - apply lookup_ge_None in Hnk.
    rewrite (bool_decide_true (S k = length order)) by lia.
    rewrite (decide_True (P := S k = length order)) by lia.
    destruct k as [|k]; simpl.
    + destruct where_; [specialize (Hhd eq_refl); lia|specialize (Htl eq_refl); lia].
    + destruct (order !! k) as [p|] eqn:Hpk; [|apply lookup_ge_None in Hpk; lia].
      destruct (ways_lookup s order k p Hw Hpk) as (Hplt & _). simpl.
      rewrite bool_decide_false by (intros ->; specialize (Htl eq_refl); lia).
      rewrite upd_blk_Ok by done. simpl. eexists. split; [done|].
      split; [split; simpl; by autorewrite with ways|]. simpl. autorewrite with ways.
      split_and!; [done|done|done|..]; intros c; autorewrite with ways.
      * rewrite wn_set_next by done. apply decide_ext. naive_solver.
      * done.
Qed.

Lemma update_way_list_head s order k b :
  ways_ok s order → order !! k = Some b →
  ∃ s', update_way_list s b Head = Ok s' ∧ same_payload s s' ∧
        ways_ok s' (b :: delete k order).
Proof.
  intros Hw Hb. pose proof (ways_nodup s order Hw) as Hnd.
  destruct (ways_lookup s order k b Hw Hb) as (Hlt & blk & Hblk & Hn & Hp).
  pose proof (lookup_lt_Some _ _ _ Hb) as Hk. unfold update_way_list.
  destruct (move_members order k b Hb Hnd) as [Hmem Hnd'].
  destruct (decide (k = 0%nat)) as [->|Hk0].
  { exists s. split; [|split; [done|]].
    - unfold unlink_way, vget. rewrite Hblk. simpl in *.
      rewrite Hn, Hp, (ways_at_head s order 0 b), (ways_at_tail s order 0 b) by done.
      rewrite (bool_decide_true (0%nat = 0%nat)) by done.
      destruct (order !! 1%nat) as [n|] eqn:H1.
      + pose proof (lookup_lt_Some _ _ _ H1). rewrite bool_decide_false by lia. done.
      + apply lookup_ge_None in H1. rewrite bool_decide_true by lia. done.
    - by destruct order as [|b' order]; simplify_eq/=. }
  destruct (unlink_way_spec s order k b Head Hw Hb) as
    (s1 & H1 & Hpl & Hlen & Hh & Ht & Hwn & Hwp); [lia|done|].
  destruct (lookup_lt_is_Some_2 order 0) as [h Hh0]; [lia|].
  destruct (ways_lookup s order 0 h Hw Hh0) as (Hhlt & _).
  destruct (before order k) as [p|] eqn:Hpk; last first.
  { destruct k; [done|]. apply lookup_ge_None in Hpk. lia. }
  assert (h ≠ b) as Hhb by (intros ->; by_index Hnd; lia).
  assert (p ≠ b) as Hpb.
  { intros ->. destruct k; [done|]. simpl in Hpk. by_index Hnd. lia. }
  rewrite decide_False in Hh by done. rewrite (ways_head s order Hw), head_lookup, Hh0 in Hh.
  rewrite H1. simpl. rewrite Hh.
  rewrite upd_blk_Ok by lia. simpl. rewrite upd_blk_Ok by (simpl; rewrite length_alter; lia).
  simpl. rewrite Hh. rewrite upd_blk_Ok by (simpl; rewrite !length_alter; lia). simpl.
  eexists. split; [done|]. split.
  { etrans; [exact Hpl|]. split; simpl; by autorewrite with ways. }
  split; simpl; autorewrite with ways; [done| |done| |].
  - intros c. rewrite Hmem, (ways_all s order Hw), Hlen. done.
  - rewrite last_cons. destruct (last (delete k order)) as [t|] eqn:Hlast.
    + rewrite Ht. destruct (decide (S k = length order)) as [Hkl|Hkl].
      * rewrite last_index, length_delete, lookup_delete in Hlast by eauto.
        rewrite decide_True in Hlast by lia. destruct k as [|k]; [lia|]. simpl in Hpk.
        replace (length order - 1 - 1)%nat with k in Hlast by lia. congruence.
      * rewrite (ways_tail s order Hw), last_index.
        rewrite last_index, length_delete, lookup_delete in Hlast by eauto.
        rewrite decide_False in Hlast by lia.
        replace (S (length order - 1 - 1)) with (length order - 1)%nat in Hlast by lia. done.
    + rewrite last_index, length_delete, lookup_delete in Hlast by eauto.
      exfalso. destruct (decide (_ < k)%nat); apply lookup_ge_None in Hlast; lia.
  - eapply (relink_head _ _ _ _ order k b h p Hnd (ways_links s order Hw) Hb);
      [lia|done|done|..]; intros c; autorewrite with ways.
    + rewrite wn_set_next by lia. destruct (decide (c = b)); [done|]. rewrite Hwn.
      apply decide_ext. naive_solver.
    + rewrite wp_set_prev by (rewrite !length_alter; lia).
      rewrite wp_set_prev by (rewrite !length_alter; lia). autorewrite with ways.
      rewrite Hwp. destruct (decide (c = b)) as [->|]; [by rewrite decide_False|done].
Qed.
Lemma update_way_list_tail s order k b :
  ways_ok s order → order !! k = Some b →
  ∃ s', update_way_list s b Tail = Ok s' ∧ same_payload s s' ∧
        ways_ok s' (delete k order ++ [b]).
Proof.
  intros Hw Hb. pose proof (ways_nodup s order Hw) as Hnd.
  destruct (ways_lookup s order k b Hw Hb) as (Hlt & blk & Hblk & Hn & Hp).
  pose proof (lookup_lt_Some _ _ _ Hb) as Hk. unfold update_way_list.
  destruct (move_members order k b Hb Hnd) as [Hmem Hnd'].
  assert (delete k order ++ [b] ≡ₚ b :: delete k order) as Hperm
    by by rewrite Permutation_app_comm.
  destruct (decide (S k = length order)) as [Hkl|Hkl].
  { exists s. split; [|split; [done|]].
    - unfold unlink_way, vget. rewrite Hblk. cbn [mbind result_bind].
      rewrite Hn, Hp, (ways_at_head s order k b), (ways_at_tail s order k b) by done.
      rewrite lookup_ge_None_2 by lia. rewrite (bool_decide_true (S k = _)) by done.
      destruct k as [|k]; simpl; [done|].
      destruct (order !! k) as [p|] eqn:E; [done|]. apply lookup_ge_None in E. lia.
    - rewrite <- (take_drop_middle order k b Hb) in Hw.
      rewrite delete_take_drop, <- app_assoc.
      rewrite drop_ge in Hw by lia. by rewrite drop_ge by lia. }
  destruct (unlink_way_spec s order k b Tail Hw Hb) as
    (s1 & H1 & Hpl & Hlen & Hh & Ht & Hwn & Hwp); [done|lia|].
  destruct (lookup_lt_is_Some_2 order (length order - 1)) as [t Ht0]; [lia|].
  destruct (ways_lookup s order _ t Hw Ht0) as (Htlt & _).
  destruct (lookup_lt_is_Some_2 order (S k)) as [x Hx]; [lia|].
  assert (t ≠ b) as Htb by (intros ->; by_index Hnd; lia).
  assert (x ≠ b) as Hxb by (intros ->; by_index Hnd; lia).
  rewrite decide_False in Ht by done. rewrite (ways_tail s order Hw), last_index, Ht0 in Ht.
  rewrite H1. simpl. rewrite Ht.
  rewrite upd_blk_Ok by lia. simpl. rewrite upd_blk_Ok by (simpl; rewrite length_alter; lia).
  simpl. rewrite Ht. rewrite upd_blk_Ok by (simpl; rewrite !length_alter; lia). simpl.
  eexists. split; [done|]. split.
  { etrans; [exact Hpl|]. split; simpl; by autorewrite with ways. }
  split; simpl; autorewrite with ways.
  - by rewrite Hperm.
  - intros c. rewrite Hperm, Hmem, (ways_all s order Hw), Hlen. done.
  - rewrite head_lookup, lookup_app_l, lookup_delete
      by (rewrite length_delete by eauto; lia).
    rewrite Hh, (ways_head s order Hw), head_lookup.
    destruct k as [|k]; [by rewrite decide_True|]. by rewrite decide_False, decide_True by lia.
  - by rewrite last_snoc.
  - eapply (relink_tail _ _ _ _ order k b t x Hnd (ways_links s order Hw) Hb);
      [done|done|..]; intros c; autorewrite with ways.
    + rewrite wn_set_next by (rewrite !length_alter; lia).
      rewrite wn_set_next by (rewrite !length_alter; lia). autorewrite with ways.
      rewrite Hwn, Hx. destruct (decide (c = b)) as [->|]; [by rewrite decide_False|done].
    + rewrite wp_set_prev by lia. destruct (decide (c = b)); [done|]. rewrite Hwp, Hx.
      apply decide_ext. naive_solver.
Qed.

(** ** Chains of blocks *)

Lemma chain_ways s order : ways_ok s order → chain (wn_of (blks s)) (way_head s) order.
Proof.
  intros Hw. rewrite (ways_head s order Hw), head_lookup.
  pose proof (ways_links s order Hw) as Hl. revert Hl.
  assert (∀ pre suf, order = pre ++ suf → links (wn_of (blks s)) (wp_of (blks s)) order →
    chain (wn_of (blks s)) (suf !! 0%nat) suf) as H.
  { intros pre suf. revert pre. induction suf as [|b suf IH]; intros pre Ho Hl; [done|].
    split; [done|]. destruct (Hl (length pre) b) as [-> _].
    { rewrite Ho. by apply list_lookup_middle. }
    replace (order !! S (length pre)) with (suf !! 0%nat).
    - apply (IH (pre ++ [b])); [by rewrite <- app_assoc|done].
    - rewrite Ho, lookup_app_r by lia. by replace (S (length pre) - length pre)%nat with 1%nat by lia. }
  by apply (H []).
Qed.

(** Does a lookup of [t] stop at block [b]? *)
Definition match_at (l : list cache_blk_t) (t : Z) (b : nat) : bool :=
  match l !! b with
  | Some blk => bool_decide (tag blk = t) && blk_valid blk
  | None => false
  end.

Definition first_match (l : list cache_blk_t) (t : Z) (bs : list nat) : option nat :=
  head (base.filter (λ b, match_at l t b = true) bs).

Lemma find_chain_spec next fuel l p t bs :
  chain (λ b, l !! b ≫= next) p bs → Forall (λ b, b < length l)%nat bs →
  (length bs ≤ fuel)%nat → find_chain next fuel l p t = Ok (first_match l t bs).
Proof.
  unfold first_match. revert p fuel. induction bs as [|b bs IH]; intros p fuel Hc Hb Hf.
  { simpl in Hc. subst. by destruct fuel. }
  destruct Hc as [-> Hc]. apply Forall_cons in Hb as [Hlt Hb].
  apply lookup_lt_is_Some_2 in Hlt as [blk Hblk]. rewrite Hblk in Hc. simpl in Hc, Hf.
  assert (match_at l t b = bool_decide (tag blk = t) && blk_valid blk) as Hm
    by (unfold match_at; by rewrite Hblk).
  destruct fuel as [|fuel]; [lia|]. simpl. unfold vget. rewrite Hblk. simpl.
  rewrite <- Hm, filter_cons. destruct (match_at l t b); [done|].
  apply IH; [done|done|lia].
Qed.

Lemma first_match_Some l t bs b :
  first_match l t bs = Some b → b ∈ bs ∧ match_at l t b = true.
Proof.
  unfold first_match. intros H.
  destruct (base.filter _ bs) as [|b' l'] eqn:E; [done|]. injection H as ->.
  assert (b ∈ base.filter (λ b, match_at l t b = true) bs) as Hin by (rewrite E; by left).
  apply list_elem_of_filter in Hin as [??]. done.
Qed.

Lemma first_match_None l t bs :
  first_match l t bs = None → ∀ b, b ∈ bs → match_at l t b = false.
Proof.
  unfold first_match. intros H b Hb.
  destruct (base.filter _ bs) as [|b' l'] eqn:E; [|done].
  destruct (match_at l t b) eqn:Hm; [|done].
  assert (b ∈ base.filter (λ b, match_at l t b = true) bs) as Hin
    by by apply list_elem_of_filter.
  rewrite E in Hin. by apply elem_of_nil in Hin.
Qed.

(** ** The hash chains of a set *)

Definition hn_of (l : list cache_blk_t) (b : nat) : option nat := l !! b ≫= hash_next.

(** What the hash chains do not touch. *)
Definition rest (blk : cache_blk_t)
    : option nat * option nat * Z * Z * Z * option (list Z) * list Z :=
  (way_next blk, way_prev blk, tag blk, status blk, ready blk, user_data blk, data blk).

Definition same_rest (s s' : cache_set_t) : Prop :=
  way_head s' = way_head s ∧ way_tail s' = way_tail s ∧ rest <$> blks s' = rest <$> blks s.

#[export] Instance same_rest_equiv : Equivalence same_rest.
Proof.
  unfold same_rest. split; red; [done|naive_solver|].
  intros x y z (? & ? & ?) (? & ? & ?). split_and!; congruence.
Qed.

Definition bucket (hsize : Z) (blk : cache_blk_t) : nat := Z.to_nat (CACHE_HASH hsize (tag blk)).

#[global] Arguments bucket : simpl never.

(** Every bucket's chain holds the blocks of [D] that hash to it. *)
Definition hash_rep (hsize : Z) (s : cache_set_t) (D : nat → Prop) : Prop :=
  ∀ idx, (idx < Z.to_nat hsize)%nat → ∃ h bs,
    hash s !! idx = Some h ∧ chain (hn_of (blks s)) h bs ∧ NoDup bs ∧
    ∀ b, b ∈ bs ↔ D b ∧ ∃ blk, blks s !! b = Some blk ∧ bucket hsize blk = idx.

Lemma bucket_lt hsize blk :
  0 < hsize < 2 ^ 32 → 0 ≤ tag blk → (bucket hsize blk < Z.to_nat hsize)%nat.
Proof.
  intros Hh Ht. unfold bucket, CACHE_HASH. rewrite u32_small by lia.
  assert (0 ≤ Z.lxor (Z.lxor (Z.lxor (Z.shiftr (tag blk) 24) (Z.shiftr (tag blk) 16))
                (Z.shiftr (tag blk) 8)) (tag blk)) as Hx.
  { rewrite !Z.lxor_nonneg, !Z.shiftr_nonneg. tauto. }
  pose proof (land_mask _ (hsize - 1) Hx). lia.
Qed.

Lemma hn_set_hash l b x c : (b < length l)%nat →
  hn_of (alter (set_hash_next x) b l) c = if decide (c = b) then x else hn_of l c.
Proof.
  intros [blk Hb]%lookup_lt_is_Some_2. unfold hn_of. rewrite list_lookup_alter.
  case_decide; subst; [rewrite decide_True, Hb by done; done|by rewrite decide_False].
Qed.

Lemma rest_set_hash (l : list cache_blk_t) b x : rest <$> alter (set_hash_next x) b l = rest <$> l.
Proof.
  apply list_eq. intros i. rewrite !list_lookup_fmap, list_lookup_alter.
  case_decide; [|done]. subst. by destruct (l !! _).
Qed.

(** A block's bucket depends on nothing the chains touch. *)
Lemma bucket_same hsize (l l' : list cache_blk_t) b idx :
  rest <$> l' = rest <$> l →
  (∃ blk, l' !! b = Some blk ∧ bucket hsize blk = idx) ↔
  (∃ blk, l !! b = Some blk ∧ bucket hsize blk = idx).
Proof.
  intros H. apply (f_equal (.!! b)) in H. rewrite !list_lookup_fmap in H. unfold bucket.
  destruct (l !! b) as [x|], (l' !! b) as [y|]; try done.
  assert (tag y = tag x) as Htag by (unfold rest in H; simpl in H; congruence).
  split; intros (blk & [= <-] & <-); eexists; (split; [reflexivity|]); by rewrite Htag.
Qed.

Lemma hash_rep_upd hsize s D b f :
  hash_rep hsize s D → ¬ D b → hash_rep hsize (with_blks s (alter f b (blks s))) D.
Proof.
  intros Hr Hb idx Hi. destruct (Hr idx Hi) as (h & bs & Hh & Hc & Hnd & Hm).
  assert (∀ c, c ∈ bs → alter f b (blks s) !! c = blks s !! c) as Hsame.
  { intros c Hin. apply list_lookup_alter_ne. intros ->. by apply Hb, Hm. }
  exists h, bs. split_and!; [done| |done|].
  - eapply chain_ext; [|exact Hc]. intros c Hin. unfold hn_of. simpl. by rewrite Hsame.
  - intros c. simpl. destruct (decide (c = b)) as [->|Hcb].
    + rewrite Hm. naive_solver.
    + rewrite list_lookup_alter_ne by done. apply Hm.
Qed.

Lemma hash_rep_ext hsize s D D' :
  (∀ b, D b ↔ D' b) → hash_rep hsize s D → hash_rep hsize s D'.
Proof.
  intros HD Hr idx Hi. destruct (Hr idx Hi) as (h & bs & Hh & Hc & Hnd & Hm).
  exists h, bs. split_and!; [done..|]. intros b. by rewrite <- HD.
Qed.

Lemma link_htab_spec hsize s D b blk :
  hash_rep hsize s D → ¬ D b → blks s !! b = Some blk →
  (bucket hsize blk < Z.to_nat hsize)%nat →
  ∃ s', link_htab_ent hsize s b = Ok s' ∧ same_rest s s' ∧
        hash_rep hsize s' (λ c, D c ∨ c = b).
Proof.
  intros Hr Hb Hblk Hidx. pose proof (lookup_lt_Some _ _ _ Hblk) as Hlt.
  destruct (Hr _ Hidx) as (h & bs & Hh & Hc & Hnd & Hm).
  unfold link_htab_ent, vget. rewrite Hblk. cbn [mbind result_bind].
  fold (bucket hsize blk). rewrite Hh. cbn [mbind result_bind].
  rewrite upd_blk_Ok by done. cbn [mbind result_bind]. unfold vset. cbn [hash with_blks].
  rewrite Hh. cbn [mbind result_bind].
  eexists. split; [reflexivity|]. split; [split_and!; [reflexivity|reflexivity|apply rest_set_hash]|].
  assert (b ∉ bs) as Hnin. { rewrite Hm. tauto. }
  intros idx Hi. cbn [hash blks with_hash with_blks].
  destruct (decide (idx = bucket hsize blk)) as [->|Hne].
  - exists (Some b), (b :: bs).
    rewrite list_lookup_insert_eq by (by eapply lookup_lt_Some). split_and!; [done| | |].
    + split; [done|]. rewrite hn_set_hash, decide_True by done.
      eapply chain_ext; [|exact Hc]. intros c Hin. rewrite hn_set_hash by done.
      rewrite decide_False; [done|]. by intros ->.
    + by apply NoDup_cons.
    + intros c. rewrite elem_of_cons, Hm, (bucket_same hsize (blks s) (alter _ b (blks s))) by apply rest_set_hash.
      split; [intros [->|[HD HE]]|intros [[HD | ->] HE]].
      * split; [by right|by exists blk].
      * split; [by left|done].
      * by right.
      * by left.
  - destruct (Hr idx Hi) as (h' & bs' & Hh' & Hc' & Hnd' & Hm'). exists h', bs'.
    rewrite list_lookup_insert_ne by done. split_and!; [done| |done|].
    + eapply chain_ext; [|exact Hc']. intros c Hin. rewrite hn_set_hash by done.
      rewrite decide_False; [done|]. intros ->. apply Hm' in Hin as [? _]. done.
    + intros c. rewrite Hm', (bucket_same hsize (blks s) (alter _ b (blks s))) by apply rest_set_hash.
      split; [intros [HD HE]; split; [by left|done]|].
      intros [[HD | ->] (blk' & Hb' & <-)]; [split; [done|by exists blk']|].
      rewrite Hblk in Hb'. by injection Hb' as ->.
Qed.

Lemma find_prev_spec fuel l prev p b bs1 bs2 :
  chain (hn_of l) p (bs1 ++ b :: bs2) → NoDup (bs1 ++ b :: bs2) →
  Forall (λ c, c < length l)%nat bs1 → (length bs1 ≤ fuel)%nat →
  find_prev fuel l prev p b = Ok (match last bs1 with Some q => Some q | None => prev end).
Proof.
  revert p prev fuel. induction bs1 as [|c bs1 IH]; intros p prev fuel Hc Hnd Hlt Hf.
  { destruct Hc as [-> _]. destruct fuel; simpl; by rewrite bool_decide_true. }
  destruct Hc as [-> Hc]. apply NoDup_cons in Hnd as [Hnc Hnd].
  apply Forall_cons in Hlt as [Hl Hlt]. simpl in Hf.
  destruct fuel as [|fuel]; [lia|]. cbn [find_prev].
  rewrite bool_decide_false by (intros ->; apply Hnc; set_solver).
  apply lookup_lt_is_Some_2 in Hl as [blk Hblk]. unfold vget. rewrite Hblk. simpl.
  unfold hn_of in Hc at 2. rewrite Hblk in Hc. simpl in Hc.
  rewrite (IH _ (Some c) fuel Hc Hnd Hlt) by lia. rewrite last_cons. by destruct (last bs1).
Qed.

(** The chains after [prev->hash_next = blk->hash_next], or the head update. *)
Lemma unlink_chain (l : list cache_blk_t) h bs1 b bs2 :
  chain (hn_of l) h (bs1 ++ b :: bs2) → NoDup (bs1 ++ b :: bs2) →
  Forall (λ c, c < length l)%nat (bs1 ++ b :: bs2) →
  let nx := hn_of l b in
  let l' := match last bs1 with Some q => alter (set_hash_next nx) q l | None => l end in
  let h' := match last bs1 with Some _ => h | None => nx end in
  chain (hn_of (alter (set_hash_next None) b l')) h' (bs1 ++ bs2).
Proof.
  intros Hc Hnd Hlt nx l' h'.
  assert (b < length l)%nat as Hb. { rewrite Forall_forall in Hlt. apply Hlt. set_solver. }
  assert (length l' = length l) as Hl'.
  { unfold l'. destruct (last bs1); [apply length_alter|done]. }
  assert (b ∉ bs1 ++ bs2) as Hnb.
  { rewrite <- Permutation_middle in Hnd. by apply NoDup_cons in Hnd as [? _]. }
  eapply (chain_ext (hn_of l')).
  { intros c Hin. rewrite hn_set_hash, decide_False; [done| |by rewrite Hl'].
    intros ->. by apply Hnb. }
  unfold l', h' in *. destruct (last bs1) as [q|] eqn:Hq.
  - apply last_Some in Hq as [bs0 ->]. rewrite <- app_assoc in *. simpl in *.
    assert (q < length l)%nat as Hql.
    { rewrite Forall_forall in Hlt. apply Hlt. set_solver. }
    eapply chain_ext; [|by eapply chain_remove]. intros c _.
    by rewrite hn_set_hash.
  - apply last_None in Hq as ->. simpl in *. by destruct Hc as [_ ?].
Qed.

Lemma unlink_htab_spec hsize s D b blk :
  hash_rep hsize s D → D b → blks s !! b = Some blk →
  (bucket hsize blk < Z.to_nat hsize)%nat →
  ∃ s', unlink_htab_ent hsize s b = Ok s' ∧ same_rest s s' ∧
        hash_rep hsize s' (λ c, D c ∧ c ≠ b).
Proof.
  intros Hr Hb Hblk Hidx. pose proof (lookup_lt_Some _ _ _ Hblk) as Hlt.
  destruct (Hr _ Hidx) as (h & bs & Hh & Hc & Hnd & Hm).
  assert (b ∈ bs) as Hin by (apply Hm; eauto).
  assert (Forall (λ c, c < length (blks s))%nat bs) as Hall.
  { apply Forall_forall. intros c Hcin. apply Hm in Hcin as (_ & x & Hx & _).
    by eapply lookup_lt_Some. }
  destruct (elem_split_nodup bs b Hin) as (bs1 & bs2 & ->).
  pose proof (unlink_chain (blks s) h bs1 b bs2 Hc Hnd Hall) as Hc'.
  assert (hn_of (blks s) b = hash_next blk) as Hnx by (unfold hn_of; by rewrite Hblk).
  rewrite Hnx in Hc'. cbv zeta in Hc'.
  unfold unlink_htab_ent, vget. rewrite Hblk. cbn [mbind result_bind].
  fold (bucket hsize blk). rewrite Hh. cbn [mbind result_bind].
  rewrite (find_prev_spec _ _ _ _ _ bs1 bs2 Hc Hnd); [| |].
  2:{ by apply Forall_app in Hall as [? _]. }
  2:{ pose proof (nodup_lt_length _ _ Hnd Hall) as Hl. rewrite length_app in Hl. lia. }
  cbn [mbind result_bind].
  set (l' := match last bs1 with
             | Some q => alter (set_hash_next (hash_next blk)) q (blks s)
             | None => blks s
             end) in Hc'.
  assert (length l' = length (blks s) ∧ rest <$> l' = rest <$> blks s) as [Hl' Hrest].
  { unfold l'. destruct (last bs1); [|done]. by rewrite length_alter, rest_set_hash. }
  assert (∃ s1, match match last bs1 with Some q => Some q | None => None end with
     | Some p => upd_blk s (Some p) (set_hash_next (hash_next blk))
     | None => vset (hash s) (bucket hsize blk) (hash_next blk)
                 ≫= (λ l, Ok (with_hash s l))
     end = Ok s1 ∧ blks s1 = l' ∧ way_head s1 = way_head s ∧ way_tail s1 = way_tail s ∧
     hash s1 !! bucket hsize blk
     = Some (match last bs1 with Some _ => h | None => hash_next blk end) ∧
     ∀ idx, idx ≠ bucket hsize blk → hash s1 !! idx = hash s !! idx)
    as (s1 & -> & Hb1 & Hh1 & Ht1 & Hidx1 & Hother).
  { unfold l'. destruct (last bs1) as [q|] eqn:Hq.
    - assert (q < length (blks s))%nat as Hql.
      { apply last_Some in Hq as [bs0 ->]. rewrite Forall_forall in Hall. apply Hall. clear. set_solver. }
      rewrite upd_blk_Ok by done. by eexists.
    - unfold vset. rewrite Hh. cbn [mbind result_bind]. eexists.
      split_and!; [reflexivity..| |]; cbn [hash with_hash].
      + by rewrite list_lookup_insert_eq by (by eapply lookup_lt_Some).
      + intros idx Hne. by rewrite list_lookup_insert_ne. }
  cbn [mbind result_bind]. rewrite upd_blk_Ok by (rewrite Hb1; lia).
  eexists. split; [reflexivity|].
  assert (rest <$> alter (set_hash_next None) b l' = rest <$> blks s) as Hrest'.
  { by rewrite rest_set_hash. }
  split; [split_and!; [exact Hh1|exact Ht1|cbn [blks with_blks]; rewrite Hb1; exact Hrest']|].
  intros idx Hi. cbn [hash blks with_blks]. rewrite Hb1.
  destruct (decide (idx = bucket hsize blk)) as [->|Hne].
  - eexists _, (bs1 ++ bs2). split_and!; [exact Hidx1|exact Hc'| |].
    + rewrite <- Permutation_middle in Hnd. by apply NoDup_cons in Hnd as [_ ?].
    + intros c. rewrite (bucket_same hsize (blks s) _ c _ Hrest').
      rewrite <- Permutation_middle in Hnd. apply NoDup_cons in Hnd as [Hnb _].
      assert (c ∈ bs1 ++ bs2 ↔ c ∈ bs1 ++ b :: bs2 ∧ c ≠ b) as ->.
      { clear -Hnb. split; [|set_solver]. intros Hc1. split; [set_solver|]. by intros ->. }
      rewrite Hm. tauto.
  - destruct (Hr idx Hi) as (h' & bs' & Hh' & Hch & Hnd' & Hm'). exists h', bs'.
    rewrite Hother by done. split_and!; [done| |done|].
    + eapply chain_ext; [|exact Hch]. intros c Hcin.
      assert (c ∉ bs1 ++ b :: bs2) as Hcn.
      { rewrite Hm. apply Hm' in Hcin as (_ & x & Hx & <-).
        intros (_ & y & Hy & Hbk). rewrite Hx in Hy. injection Hy as <-. done. }
      rewrite hn_set_hash, decide_False; [|intros ->; apply Hcn; clear; set_solver|by rewrite Hl'].
      unfold l'. destruct (last bs1) as [q|] eqn:Hq; [|done].
      apply last_Some in Hq as [bs0 ->].
      rewrite hn_set_hash, decide_False; [done|intros ->; apply Hcn; clear; set_solver|].
      rewrite Forall_forall in Hall. apply Hall. clear. set_solver.
    + intros c. rewrite (bucket_same hsize (blks s) _ c _ Hrest'), Hm'.
      split; [|tauto]. intros [HD (x & Hx & <-)]. split; [split; [done|]|by exists x].
      intros ->. rewrite Hblk in Hx. by injection Hx as ->.
Qed.
