(* ===== verification/CacheSpec.v ===== *)
(** * cache.c: what the cache operations do

    The invariant of a created cache and the refinement of [cache_access] and
    its companions to sets of entries kept in replacement order. *)

From S2P Require Import Prelude Chains Misc Memory Cache CacheInv.

(** ** Geometry *)

(** What [cache_create] derives from its parameters; the offset and index bits
    leave room for a tag. *)
Record conf_ok (cf : cache_conf) (ob ib : Z) : Prop := {
  cf_ob : 3 ≤ ob;
  cf_ib : 0 ≤ ib;
  cf_room : ob + ib < 32;
  cf_bsize : bsize cf = 2 ^ ob;
  cf_nsets : nsets cf = 2 ^ ib;
  cf_set_shift : set_shift cf = ob;
  cf_blk_mask : blk_mask cf = 2 ^ ob - 1;
  cf_set_mask : set_mask cf = 2 ^ ib - 1;
  cf_tag_shift : tag_shift cf = ob + ib;
  cf_tagset_mask : tagset_mask cf = u32 (Z.lnot (2 ^ ob - 1));
  cf_assoc : ∃ k, 0 ≤ k < 31 ∧ assoc cf = 2 ^ k;
  cf_hsize : hsize cf = if CACHE_HIGHLY_ASSOC (assoc cf) then Z.shiftr (assoc cf) 2 else 0;
  cf_lat : 0 ≤ hit_latency cf < 2 ^ 31
}.

Section Geometry.
Context (cf : cache_conf) (ob ib : Z) (Hcf : conf_ok cf ob ib).

Lemma tag_eq addr : 0 ≤ addr → CACHE_TAG cf addr = addr / 2 ^ (ob + ib).
Proof.
  destruct Hcf. intros. unfold CACHE_TAG. rewrite cf_tag_shift0. apply Z.shiftr_div_pow2. lia.
Qed.

Lemma set_eq addr : 0 ≤ addr → CACHE_SET cf addr = (addr / 2 ^ ob) mod 2 ^ ib.
Proof.
  destruct Hcf. intros. unfold CACHE_SET. rewrite cf_set_shift0, cf_set_mask0.
  rewrite Z.shiftr_div_pow2 by lia.
  replace (2 ^ ib - 1) with (Z.ones ib) by (rewrite Z.ones_equiv; lia).
  by apply Z.land_ones.
Qed.

Lemma blk_eq addr : 0 ≤ addr → CACHE_BLK cf addr = addr mod 2 ^ ob.
Proof.
  destruct Hcf. intros. unfold CACHE_BLK. rewrite cf_blk_mask0.
  replace (2 ^ ob - 1) with (Z.ones ob) by (rewrite Z.ones_equiv; lia).
  apply Z.land_ones. lia.
Qed.

Lemma baddr_eq addr : 0 ≤ addr < 2 ^ 32 → CACHE_BADDR cf addr = (addr / 2 ^ ob) * 2 ^ ob.
Proof.
  destruct Hcf. intros. unfold CACHE_BADDR. rewrite cf_blk_mask0. apply land_u32_lnot; lia.
Qed.

Lemma tagset_eq addr : CACHE_TAGSET cf addr = CACHE_BADDR cf addr.
Proof. destruct Hcf. unfold CACHE_TAGSET, CACHE_BADDR. by rewrite cf_tagset_mask0, cf_blk_mask0. Qed.

Lemma tag_range addr : 0 ≤ addr < 2 ^ 32 → 0 ≤ CACHE_TAG cf addr < 2 ^ (32 - (ob + ib)).
Proof.
  intros Ha. rewrite tag_eq by lia. destruct Hcf. split; [apply Z.div_pos; lia|].
  apply Z.div_lt_upper_bound; [lia|]. rewrite <- Z.pow_add_r by lia.
  replace (ob + ib + (32 - (ob + ib))) with 32 by lia. lia.
Qed.

Lemma set_range addr : 0 ≤ addr → 0 ≤ CACHE_SET cf addr < 2 ^ ib.
Proof. intros Ha. rewrite set_eq by lia. apply Z.mod_pos_bound. destruct Hcf. lia. Qed.

Lemma mk_baddr_eq t i :
  0 ≤ t < 2 ^ (32 - (ob + ib)) → 0 ≤ i < 2 ^ ib →
  CACHE_MK_BADDR cf t i = (t * 2 ^ ib + i) * 2 ^ ob.
Proof.
  intros Ht Hi. destruct Hcf. unfold CACHE_MK_BADDR. rewrite cf_tag_shift0, cf_set_shift0.
  rewrite !Z.shiftl_mul_pow2 by lia.
  assert (2 ^ (ob + ib) = 2 ^ ib * 2 ^ ob) as Hp by (rewrite <- Z.pow_add_r by lia; f_equal; lia).
  assert (2 ^ (32 - (ob + ib)) * 2 ^ (ob + ib) = 2 ^ 32) as H32.
  { rewrite <- Z.pow_add_r by lia. f_equal. lia. }
  rewrite !u32_small by nia. rewrite lor_add by nia. rewrite Hp. lia.
Qed.

(** A block address splits into its tag and set, and back. *)
Lemma mk_baddr_tag_set addr :
  0 ≤ addr < 2 ^ 32 →
  CACHE_MK_BADDR cf (CACHE_TAG cf addr) (CACHE_SET cf addr) = CACHE_BADDR cf addr.
Proof.
  intros Ha. rewrite mk_baddr_eq by (by apply tag_range || (apply set_range; lia)).
  rewrite baddr_eq, tag_eq, set_eq by lia. destruct Hcf.
  rewrite Z.pow_add_r, <- Z.div_div by lia. f_equal.
  rewrite Z.mul_comm, <- Z.div_mod by lia. done.
Qed.

Lemma mk_baddr_inj t i t' i' :
  0 ≤ t < 2 ^ (32 - (ob + ib)) → 0 ≤ i < 2 ^ ib →
  0 ≤ t' < 2 ^ (32 - (ob + ib)) → 0 ≤ i' < 2 ^ ib →
  CACHE_MK_BADDR cf t i = CACHE_MK_BADDR cf t' i' → t = t' ∧ i = i'.
Proof.
  intros ????. rewrite !mk_baddr_eq by done. destruct Hcf.
  assert (0 < 2 ^ ob) by lia. assert (0 < 2 ^ ib) by lia.
  intros He%Z.mul_reg_r; [|lia]. assert (t = t') as -> by nia. lia.
Qed.

Lemma assoc_pos : 0 < assoc cf < 2 ^ 31.
Proof.
  destruct Hcf. destruct cf_assoc0 as (k & Hk & ->). split; [lia|].
  apply Z.pow_lt_mono_r; lia.
Qed.

Lemma hsize_range : hsize cf ≠ 0 → 0 < hsize cf < 2 ^ 32.
Proof.
  pose proof assoc_pos. destruct Hcf. rewrite cf_hsize0. unfold CACHE_HIGHLY_ASSOC.
  case_bool_decide; [|done]. intros _. rewrite Z.shiftr_div_pow2 by done.
  change (2 ^ 2) with 4. split; [apply Z.div_str_pos; lia|].
  apply Z.div_lt_upper_bound; lia.
Qed.
End Geometry.

(** ** One set *)

Record set_ok (cf : cache_conf) (s : cache_set_t) (order : list nat) : Prop := {
  so_ways : ways_ok s order;
  so_len : length (blks s) = Z.to_nat (assoc cf);
  so_hash : hsize cf ≠ 0 → hash_rep (hsize cf) s (λ _, True);
  so_unique : ∀ b b' t, match_at (blks s) t b = true → match_at (blks s) t b' = true → b = b';
  so_tags : ∀ b blk, blks s !! b = Some blk → 0 ≤ tag blk < 2 ^ (32 - tag_shift cf);
  so_data : ∀ b blk, blks s !! b = Some blk →
              balloc cf = true → Z.of_nat (length (data blk)) = bsize cf
}.

Lemma match_at_Some l t b :
  match_at l t b = true ↔ ∃ blk, l !! b = Some blk ∧ tag blk = t ∧ blk_valid blk = true.
Proof.
  unfold match_at. destruct (l !! b) as [blk|]; [|naive_solver].
  rewrite andb_true_iff, bool_decide_eq_true. naive_solver.
Qed.

Definition found (l : list cache_blk_t) (t : Z) (o : option nat) : Prop :=
  match o with
  | Some b => match_at l t b = true
  | None => ∀ b, match_at l t b = false
  end.

Lemma match_at_lt l t b : match_at l t b = true → (b < length l)%nat.
Proof. intros (blk & Hb & _)%match_at_Some. by eapply lookup_lt_Some. Qed.

Lemma found_unique l t o o' :
  (∀ b b', match_at l t b = true → match_at l t b' = true → b = b') →
  found l t o → found l t o' → o = o'.
Proof.
  intros Hu. destruct o as [b|], o' as [b'|]; simpl; intros H H'; [|congruence..|done].
  f_equal. by apply Hu.
Qed.

(** The two searches find the same block: the valid one with the tag. *)
Lemma find_ways_spec s order t :
  ways_ok s order →
  ∃ o, find_chain way_next (length (blks s)) (blks s) (way_head s) t = Ok o ∧
       found (blks s) t o.
Proof.
  intros Hw. eexists. split.
  - apply (find_chain_spec _ _ _ _ _ order); [by apply chain_ways| |].
    + apply Forall_forall. intros b Hb. by apply (ways_all s order Hw).
    + apply nodup_lt_length; [apply Hw|]. apply Forall_forall. intros b Hb.
      by apply (ways_all s order Hw).
  - destruct (first_match _ _ _) as [b|] eqn:E; simpl.
    + by apply first_match_Some in E as [_ ?].
    + intros b. destruct (match_at (blks s) t b) eqn:Hm; [|done].
      rewrite (first_match_None _ _ _ E b) in Hm; [done|].
      apply (ways_all s order Hw). by eapply match_at_lt.
Qed.

Lemma find_hash_spec hs s t :
  hash_rep hs s (λ _, True) → 0 < hs < 2 ^ 32 → 0 ≤ t →
  ∃ h o, hash s !! Z.to_nat (CACHE_HASH hs t) = Some h ∧
    find_chain hash_next (length (blks s)) (blks s) h t = Ok o ∧ found (blks s) t o.
Proof.
  intros Hr Hh Ht.
  destruct (Hr (Z.to_nat (CACHE_HASH hs t))) as (h & bs & Hi & Hc & Hnd & Hm).
  { apply (bucket_lt hs (mkBlk None None None t 0 0 None []) Hh Ht). }
  exists h, (first_match (blks s) t bs). split; [done|].
  assert (Forall (λ b, b < length (blks s))%nat bs) as Hlt.
  { apply Forall_forall. intros b (_ & blk & Hb & _)%Hm. by eapply lookup_lt_Some. }
  split.
  - apply find_chain_spec; [done|done|by apply nodup_lt_length].
  - destruct (first_match _ _ _) as [b|] eqn:E; simpl.
    + by apply first_match_Some in E as [_ ?].
    + intros b. destruct (match_at (blks s) t b) eqn:Hmb; [|done].
      rewrite (first_match_None _ _ _ E b) in Hmb; [done|].
      apply match_at_Some in Hmb as (blk & Hb & <- & _). apply Hm. by eauto.
Qed.

Lemma find_blk_spec cf ob ib s order t :
  conf_ok cf ob ib → set_ok cf s order → 0 ≤ t →
  ∃ o, find_blk (hsize cf) s t = Ok o ∧ found (blks s) t o.
Proof.
  intros Hcf Hs Ht. unfold find_blk. destruct (decide (hsize cf = 0)) as [H0|H0].
  - rewrite bool_decide_false by tauto. eapply find_ways_spec, Hs.
  - rewrite bool_decide_true by done.
    destruct (find_hash_spec (hsize cf) s t (so_hash _ _ _ Hs H0)) as (h & o & Hh & Hf & Ho);
      [by eapply hsize_range|done|].
    exists o. unfold vget. rewrite Hh. done.
Qed.

(** Reordering the way list. *)
Lemma payload_lookup (s s' : cache_set_t) b blk' :
  same_payload s s' → blks s' !! b = Some blk' →
  ∃ blk, blks s !! b = Some blk ∧ payload blk' = payload blk.
Proof.
  intros [_ Hp] Hb. apply (f_equal (.!! b)) in Hp. rewrite !list_lookup_fmap, Hb in Hp.
  destruct (blks s !! b) as [blk|]; [|done]. injection Hp as Hp. exists blk.
  split; [done|]. unfold payload. congruence.
Qed.

Lemma same_payload_sym s s' : same_payload s s' → same_payload s' s.
Proof. by intros; symmetry. Qed.

Lemma payload_valid blk blk' : payload blk' = payload blk → blk_valid blk' = blk_valid blk.
Proof. unfold payload, blk_valid. by intros [= _ _ -> _ _ _]. Qed.

Lemma payload_match s s' t b :
  same_payload s s' → match_at (blks s') t b = true → match_at (blks s) t b = true.
Proof.
  intros Hp (blk' & Hb' & <- & Hv)%match_at_Some.
  destruct (payload_lookup _ _ _ _ Hp Hb') as (blk & Hb & He). apply match_at_Some.
  exists blk. rewrite <- (payload_valid _ _ He). unfold payload in He.
  injection He as ? Ht ? ? ? ?. done.
Qed.

Lemma set_ok_reorder cf s s' order order' :
  set_ok cf s order → same_payload s s' → ways_ok s' order' → set_ok cf s' order'.
Proof.
  intros Hs Hp Hw. pose proof (same_payload_length _ _ Hp) as Hl.
  split; [done|by rewrite Hl; apply Hs|..].
  - intros H0 idx Hi. destruct (so_hash _ _ _ Hs H0 idx Hi) as (h & bs & Hh & Hc & Hnd & Hm).
    exists h, bs. split_and!; [by rewrite (proj1 Hp)| |done|].
    + eapply chain_ext; [|exact Hc]. intros b _. unfold hn_of.
      destruct Hp as [_ Hp]. apply (f_equal (.!! b)) in Hp. rewrite !list_lookup_fmap in Hp.
      destruct (blks s !! b), (blks s' !! b); try done. simpl.
      unfold payload in Hp. simpl in Hp. congruence.
    + intros b. rewrite Hm. split; intros [_ (blk & Hb & Hk)]; split; try done.
      * destruct (payload_lookup _ _ _ _ (same_payload_sym _ _ Hp) Hb) as (x & Hx & He).
        exists x. split; [done|]. unfold bucket in *. unfold payload in He. congruence.
      * destruct (payload_lookup _ _ _ _ Hp Hb) as (x & Hx & He).
        exists x. split; [done|]. unfold bucket in *. unfold payload in He. congruence.
  - intros b b' t H1 H2. eapply (so_unique _ _ _ Hs); by eapply payload_match.
  - intros b blk Hb. destruct (payload_lookup _ _ _ _ Hp Hb) as (x & Hx & He).
    unfold payload in He. injection He as ? -> ? ? ? ?. by eapply (so_tags _ _ _ Hs).
  - intros b blk Hb. destruct (payload_lookup _ _ _ _ Hp Hb) as (x & Hx & He).
    unfold payload in He. injection He as ? ? ? ? ? ->. by eapply (so_data _ _ _ Hs).
Qed.

Lemma Permutation_length_of_members (l : list nat) n :
  NoDup l → (∀ b, b ∈ l ↔ (b < n)%nat) → length l = n.
Proof.
  intros Hnd Hl. rewrite <- (length_seq n 0). apply Permutation_length, NoDup_Permutation.
  - done.
  - apply NoDup_ListNoDup, seq_NoDup.
  - intros b. rewrite Hl, elem_of_seq. lia.
Qed.

(** ** Block data *)

(** Replacing [length src] elements of [l] from position [o] on. *)
Definition splice (o : nat) (src l : list Z) : list Z :=
  take o l ++ src ++ drop (o + length src) l.

Lemma length_splice o src l :
  (o + length src ≤ length l)%nat → length (splice o src l) = length l.
Proof. intros. unfold splice. rewrite !length_app, length_take, length_drop. lia. Qed.

Lemma copy_bytes_Ok n so src d dst :
  (so + n ≤ length src)%nat → (d + n ≤ length dst)%nat →
  copy_bytes n so src d dst = Ok (splice d (take n (drop so src)) dst).
Proof.
  intros. unfold copy_bytes, splice. rewrite decide_True by lia.
  rewrite length_take, length_drop. do 3 f_equal. by rewrite Nat.min_l by lia.
Qed.

(** Copying two adjacent pieces is copying both at once. *)
Lemma splice_splice n m so src d dst :
  (so + n + m ≤ length src)%nat → (d + n + m ≤ length dst)%nat →
  splice (d + n) (take m (drop (so + n) src)) (splice d (take n (drop so src)) dst)
  = splice d (take (n + m) (drop so src)) dst.
Proof.
  intros Hs Hd. unfold splice. rewrite !length_take, !length_drop, !Nat.min_l by lia.
  rewrite (take_app (take d dst)), (drop_app (take d dst)), length_take, Nat.min_l by lia.
  rewrite (take_ge (take d dst)), (drop_ge (take d dst)) by (rewrite length_take; lia).
  replace (d + n - d)%nat with n by lia. replace (d + n + m - d)%nat with (n + m)%nat by lia.
  rewrite (take_app_length' (take n (drop so src))) by (rewrite length_take, length_drop; lia).
  rewrite (drop_app (take n (drop so src))), length_take, length_drop, Nat.min_l by lia.
  rewrite (drop_ge (take n (drop so src))) by (rewrite length_take; lia).
  rewrite drop_drop. replace (n + m - n)%nat with m by lia.
  replace (d + n + m)%nat with (d + (n + m))%nat by lia.
  rewrite <- (take_take_drop (drop so src) n m), drop_drop. simpl.
  by rewrite <- !app_assoc.
Qed.

Lemma bcopy_unit_Ok cmd n bofs blk pofs p :
  (bofs + n ≤ length blk)%nat → (pofs + n ≤ length p)%nat →
  bcopy_unit cmd n bofs blk pofs p
  = Ok (match cmd with
        | Read => (blk, splice pofs (take n (drop bofs blk)) p)
        | Write => (splice bofs (take n (drop pofs p)) blk, p)
        end).
Proof. intros. unfold bcopy_unit. destruct cmd; rewrite copy_bytes_Ok by lia; done. Qed.

Lemma bcopy_words_Ok words cmd bofs blk pofs p :
  (bofs + 4 * words ≤ length blk)%nat → (pofs + 4 * words ≤ length p)%nat →
  bcopy_words words cmd bofs blk pofs p
  = Ok (match cmd with
        | Read => (blk, splice pofs (take (4 * words) (drop bofs blk)) p)
        | Write => (splice bofs (take (4 * words) (drop pofs p)) blk, p)
        end).
Proof.
  revert bofs blk pofs p. induction words as [|words IH]; intros bofs blk pofs p Hb Hp.
  { assert (∀ o (l : list Z), splice o [] l = l) as Hnil.
    { intros o l. unfold splice. simpl. rewrite Nat.add_0_r. apply take_drop. }
    simpl. destruct cmd; by rewrite Hnil. }
  cbn [bcopy_words]. rewrite bcopy_unit_Ok by lia. cbn [mbind result_bind].
  replace (4 * S words)%nat with (4 + 4 * words)%nat by lia.
  destruct cmd; rewrite IH;
    rewrite ?length_splice by (rewrite length_take, length_drop; lia); try lia;
    rewrite splice_splice by lia; done.
Qed.

(** A size the copy handles: 1, 2, 4, or a multiple of 4. *)
Definition size_ok (nbytes : Z) : Prop := nbytes = 1 ∨ nbytes = 2 ∨ 0 ≤ nbytes ∧ nbytes mod 4 = 0.

Lemma CACHE_BCOPY_Ok cmd blk bofs p nbytes :
  size_ok nbytes → 0 ≤ bofs → bofs + nbytes ≤ Z.of_nat (length blk) →
  nbytes ≤ Z.of_nat (length p) →
  CACHE_BCOPY cmd blk bofs p nbytes
  = Ok (match cmd with
        | Read => (blk, splice 0 (take (Z.to_nat nbytes) (drop (Z.to_nat bofs) blk)) p)
        | Write => (splice (Z.to_nat bofs) (take (Z.to_nat nbytes) p) blk, p)
        end).
Proof.
  intros Hn Ho Hb Hp. unfold CACHE_BCOPY. case_bool_decide as H1.
  - rewrite bcopy_unit_Ok by lia. by rewrite drop_0.
  - assert (0 ≤ nbytes ∧ nbytes mod 4 = 0) as [Hn0 Hn4] by (unfold size_ok in Hn; naive_solver).
    rewrite Z.shiftr_div_pow2 by done. change (2 ^ 2) with 4.
    assert (Z.to_nat nbytes = 4 * Z.to_nat (nbytes / 4))%nat as Hq.
    { rewrite (Z.div_mod nbytes 4) at 1 by done. rewrite Hn4.
      pose proof (Z.div_pos nbytes 4 Hn0). lia. }
    rewrite Hq, bcopy_words_Ok by lia. by rewrite drop_0.
Qed.

(** ** Writing a block *)

(** The links, tag and user data that the hit paths leave alone. *)
Definition same_links (b b' : cache_blk_t) : Prop :=
  way_next b' = way_next b ∧ way_prev b' = way_prev b ∧ hash_next b' = hash_next b ∧
  tag b' = tag b.

Lemma valid_dirty st :
  Z.land (Z.lor st CACHE_BLK_DIRTY) CACHE_BLK_VALID = Z.land st CACHE_BLK_VALID.
Proof.
  rewrite Z.land_lor_distr_l. change (Z.land CACHE_BLK_DIRTY CACHE_BLK_VALID) with 0.
  apply Z.lor_0_r.
Qed.

(** The data a block and the buffer have after the copy. *)
Definition copied (cf : cache_conf) (cmd : mem_cmd) (bofs nbytes : Z) (d p : list Z)
    : list Z * list Z :=
  if balloc cf then
    match cmd with
    | Read => (d, splice 0 (take (Z.to_nat nbytes) (drop (Z.to_nat bofs) d)) p)
    | Write => (splice (Z.to_nat bofs) (take (Z.to_nat nbytes) p) d, p)
    end
  else (d, p).

Definition buf_ok (cf : cache_conf) (bofs nbytes : Z) (p : list Z) : Prop :=
  size_ok nbytes ∧ 0 ≤ bofs ∧ bofs + nbytes ≤ bsize cf ∧ nbytes ≤ Z.of_nat (length p).

Lemma access_blk_Ok cf cmd bofs p nbytes blk :
  buf_ok cf bofs nbytes p → (balloc cf = true → Z.of_nat (length (data blk)) = bsize cf) →
  let '(d, p1) := copied cf cmd bofs nbytes (data blk) p in
  access_blk cf cmd bofs p nbytes blk
  = Ok (set_data d (set_status (if bool_decide (cmd = Write)
                                then Z.lor (status blk) CACHE_BLK_DIRTY else status blk) blk), p1) ∧
  length d = length (data blk).
Proof.
  intros (Hn & Ho & Hb & Hp) Hd. unfold copied, access_blk.
  destruct (balloc cf); [specialize (Hd eq_refl)|by destruct cmd, blk].
  rewrite CACHE_BCOPY_Ok by (done || lia).
  destruct cmd; cbn [mbind result_bind]; [by destruct blk|]. split; [by destruct blk|].
  apply length_splice. rewrite length_take. unfold size_ok in Hn. lia.
Qed.

Lemma blk_alter (l : list cache_blk_t) b blk blk1 c :
  l !! b = Some blk →
  alter (λ _, blk1) b l !! c = if decide (c = b) then Some blk1 else l !! c.
Proof.
  intros Hb. rewrite list_lookup_alter. repeat case_decide; subst; try done. by rewrite Hb.
Qed.

Lemma set_ok_block cf s order b blk blk1 :
  set_ok cf s order → blks s !! b = Some blk → same_links blk blk1 →
  (blk_valid blk1 = true → blk_valid blk = true) →
  (balloc cf = true → length (data blk1) = length (data blk)) →
  set_ok cf (with_blks s (alter (λ _, blk1) b (blks s))) order.
Proof.
  intros Hs Hb (Hn & Hp & Hh & Ht) Hv Hd.
  pose proof (blk_alter (blks s) b blk blk1) as Hlk.
  assert (∀ c (f : cache_blk_t → option nat), f blk1 = f blk →
    alter (λ _, blk1) b (blks s) !! c ≫= f = blks s !! c ≫= f) as Hlink.
  { intros c f Hf. rewrite Hlk by done. case_decide; [|done]. subst. by rewrite Hb. }
  split; cbn [blks with_blks hash way_head way_tail].
  - destruct (so_ways _ _ _ Hs) as [Hnd Hall Hhd Htl Hl]. split; try done.
    + intros c. cbn [blks with_blks]. by rewrite length_alter.
    + intros k c Hc. unfold wn_of, wp_of. cbn [blks with_blks]. rewrite !Hlink by done.
      by apply Hl.
  - rewrite length_alter. apply Hs.
  - intros H0 idx Hi. destruct (so_hash _ _ _ Hs H0 idx Hi) as (h & bs & Hh0 & Hc & Hnd & Hm).
    exists h, bs. split_and!; [done| |done|].
    + eapply chain_ext; [|exact Hc]. intros c _. unfold hn_of. cbn [blks with_blks].
      by apply Hlink.
    + intros c. rewrite Hm. cbn [blks with_blks]. rewrite Hlk by done.
      destruct (decide (c = b)) as [->|]; [|done]. rewrite Hb. unfold bucket.
      split; intros [_ (x & [= <-] & Hx)]; split; try done; eexists; (split; [done|]);
        [by rewrite Ht|by rewrite <- Ht].
  - assert (∀ t c, match_at (alter (λ _, blk1) b (blks s)) t c = true →
                   match_at (blks s) t c = true) as Hback.
    { intros t c. rewrite !match_at_Some, Hlk by done.
      destruct (decide (c = b)) as [->|]; [|done].
      intros (x & [= <-] & <- & Hx). exists blk. auto. }
    intros c c' t H1%Hback H2%Hback. by eapply (so_unique _ _ _ Hs).
  - intros c x. rewrite Hlk by done. destruct (decide (c = b)) as [->|].
    + intros [= <-]. rewrite Ht. by eapply (so_tags _ _ _ Hs).
    + apply (so_tags _ _ _ Hs).
  - intros c x. rewrite Hlk by done. destruct (decide (c = b)) as [->|].
    + intros [= <-] Ha. rewrite Hd by done. by eapply (so_data _ _ _ Hs).
    + apply (so_data _ _ _ Hs).
Qed.

(** ** Replacing a block *)

Lemma rest_lookup (l l' : list cache_blk_t) b blk' :
  rest <$> l' = rest <$> l → l' !! b = Some blk' →
  ∃ blk, l !! b = Some blk ∧ rest blk' = rest blk.
Proof.
  intros Hp Hb. apply (f_equal (.!! b)) in Hp. rewrite !list_lookup_fmap, Hb in Hp.
  destruct (l !! b) as [blk|]; [|done]. exists blk. split; [done|].
  unfold rest in *. simpl in Hp. congruence.
Qed.

Lemma rest_match l l' t b : rest <$> l' = rest <$> l → match_at l' t b = match_at l t b.
Proof.
  intros H. unfold match_at. apply (f_equal (.!! b)) in H. rewrite !list_lookup_fmap in H.
  destruct (l !! b) as [x|], (l' !! b) as [y|]; try done.
  assert (tag y = tag x ∧ status y = status x) as [-> Hs] by (unfold rest in H; simpl in H; split; congruence).
  unfold blk_valid. by rewrite Hs.
Qed.

Lemma ways_ok_links s s' order :
  ways_ok s order → way_head s' = way_head s → way_tail s' = way_tail s →
  length (blks s') = length (blks s) →
  (∀ b, wn_of (blks s') b = wn_of (blks s) b ∧ wp_of (blks s') b = wp_of (blks s) b) →
  ways_ok s' order.
Proof.
  intros [Hnd Hall Hh Ht Hl] Hh' Ht' Hlen Hlink. split; [done| |congruence..|].
  - intros b. by rewrite Hlen.
  - intros k b Hb. destruct (Hlink b) as [-> ->]. by apply Hl.
Qed.

Lemma rest_ways (l l' : list cache_blk_t) b :
  rest <$> l' = rest <$> l → wn_of l' b = wn_of l b ∧ wp_of l' b = wp_of l b.
Proof.
  intros H. unfold wn_of, wp_of. apply (f_equal (.!! b)) in H. rewrite !list_lookup_fmap in H.
  destruct (l !! b) as [x|], (l' !! b) as [y|]; try done.
  unfold rest in H; simpl in H; split; simpl; congruence.
Qed.

(** A set whose blocks are those of [s] but for [repl], which now has an
    unused tag. *)
Lemma set_ok_replace cf s s' order repl blk blk4 :
  set_ok cf s order → blks s !! repl = Some blk →
  way_head s' = way_head s → way_tail s' = way_tail s →
  rest <$> blks s' = rest <$> alter (λ _, blk4) repl (blks s) →
  way_next blk4 = way_next blk → way_prev blk4 = way_prev blk →
  0 ≤ tag blk4 < 2 ^ (32 - tag_shift cf) → (∀ b, match_at (blks s) (tag blk4) b = false) →
  (balloc cf = true → length (data blk4) = length (data blk)) →
  (hsize cf ≠ 0 → hash_rep (hsize cf) s' (λ _, True)) →
  set_ok cf s' order.
Proof.
  intros Hs Hb Hh Ht Hr Hwn Hwp Htag Hfree Hd Hhash.
  assert (length (blks s') = length (blks s)) as Hlen.
  { apply (f_equal length) in Hr. by rewrite !length_fmap, length_alter in Hr. }
  pose proof (blk_alter (blks s) repl blk blk4) as Hlk.
  split; [|rewrite Hlen; apply Hs|done|..].
  - eapply ways_ok_links; [apply Hs|done|done|done|]. intros b.
    destruct (rest_ways _ _ b Hr) as [-> ->]. unfold wn_of, wp_of. rewrite !Hlk by done.
    destruct (decide (b = repl)) as [->|]; [|done]. by rewrite Hb.
  - assert (∀ t b, match_at (blks s') t b = true →
      b = repl ∧ t = tag blk4 ∨ match_at (blks s) t b = true ∧ t ≠ tag blk4) as Hcases.
    { intros t b. rewrite (rest_match _ _ t b Hr), match_at_Some, Hlk by done.
      destruct (decide (b = repl)) as [->|].
      - intros (x & [= <-] & <- & _). by left.
      - intros Hm%match_at_Some. right. split; [done|]. intros ->. by rewrite Hfree in Hm. }
    intros b b' t [[-> ->]|[H1 Hne]]%Hcases [[-> Ht']|[H2 Hne']]%Hcases; try done.
    by eapply (so_unique _ _ _ Hs).
  - intros b x Hx. destruct (rest_lookup _ _ _ _ Hr Hx) as (y & Hy & He).
    injection He as ? ? -> ? ? ? ?. rewrite Hlk in Hy by done.
    destruct (decide (b = repl)) as [->|]; [by injection Hy as <-|by eapply (so_tags _ _ _ Hs)].
  - intros b x Hx Ha. destruct (rest_lookup _ _ _ _ Hr Hx) as (y & Hy & He).
    injection He as ? ? ? ? ? ? ->. rewrite Hlk in Hy by done.
    destruct (decide (b = repl)) as [->|]; [|by eapply (so_data _ _ _ Hs)].
    injection Hy as <-. rewrite Hd by done. by eapply (so_data _ _ _ Hs).
Qed.

(** The unlink and relink of a miss, around the update of the block. *)
Lemma miss_unlink cf ob ib s order repl blk0 :
  conf_ok cf ob ib → set_ok cf s order → blks s !! repl = Some blk0 →
  ∃ s2 blk, (if bool_decide (hsize cf ≠ 0) then unlink_htab_ent (hsize cf) s repl else Ok s)
            = Ok s2 ∧ same_rest s s2 ∧ blks s2 !! repl = Some blk ∧ rest blk = rest blk0 ∧
            (hsize cf ≠ 0 → hash_rep (hsize cf) s2 (λ c, c ≠ repl)).
Proof.
  intros Hcf Hs Hb. destruct (decide (hsize cf = 0)) as [H0|H0].
  - rewrite bool_decide_false by tauto. exists s, blk0. by split_and!.
  - rewrite bool_decide_true by done.
    destruct (unlink_htab_spec (hsize cf) s (λ _, True) repl blk0) as (s2 & H & Hr & Hh);
      [by apply Hs|done|done| |].
    { apply bucket_lt; [by eapply hsize_range|]. by eapply (so_tags _ _ _ Hs). }
    assert (length (blks s2) = length (blks s)) as Hlen.
    { destruct Hr as (_ & _ & Hr). apply (f_equal length) in Hr. by rewrite !length_fmap in Hr. }
    destruct (lookup_lt_is_Some_2 (blks s2) repl) as [blk Hblk].
    { rewrite Hlen. by eapply lookup_lt_Some. }
    destruct (rest_lookup _ _ _ _ (proj2 (proj2 Hr)) Hblk) as (x & Hx & He).
    rewrite Hb in Hx. injection Hx as <-.
    exists s2, blk. split_and!; [done..|]. intros _. eapply hash_rep_ext; [|exact Hh].
    intros c. simpl. tauto.
Qed.

Lemma miss_relink cf ob ib s s2 order repl blk0 blk blk4 :
  conf_ok cf ob ib → set_ok cf s order → blks s !! repl = Some blk0 →
  same_rest s s2 → blks s2 !! repl = Some blk → rest blk = rest blk0 →
  (hsize cf ≠ 0 → hash_rep (hsize cf) s2 (λ c, c ≠ repl)) →
  way_next blk4 = way_next blk → way_prev blk4 = way_prev blk →
  0 ≤ tag blk4 < 2 ^ (32 - tag_shift cf) → (∀ b, match_at (blks s) (tag blk4) b = false) →
  (balloc cf = true → length (data blk4) = length (data blk)) →
  ∃ s3 s4, upd_blk s2 (Some repl) (λ _, blk4) = Ok s3 ∧
    (if bool_decide (hsize cf ≠ 0) then link_htab_ent (hsize cf) s3 repl else Ok s3) = Ok s4 ∧
    set_ok cf s4 order ∧ rest <$> blks s4 = rest <$> alter (λ _, blk4) repl (blks s).
Proof.
  intros Hcf Hs Hb0 Hr Hb He Hh Hwn Hwp Htag Hfree Hd.
  rewrite upd_blk_Ok by by eapply lookup_lt_Some. eexists.
  set (s3 := with_blks s2 (alter (λ _, blk4) repl (blks s2))).
  destruct Hr as (Hhd & Htl & Hr).
  assert (rest <$> blks s3 = rest <$> alter (λ _, blk4) repl (blks s)) as Hr3.
  { unfold s3. cbn [blks with_blks]. apply list_eq. intros c.
    rewrite !list_lookup_fmap, (blk_alter _ _ _ _ _ Hb), (blk_alter _ _ _ _ _ Hb0).
    case_decide; [done|]. rewrite <- !list_lookup_fmap. by rewrite Hr. }
  assert (∃ s4, (if bool_decide (hsize cf ≠ 0) then link_htab_ent (hsize cf) s3 repl else Ok s3)
      = Ok s4 ∧ same_rest s3 s4 ∧ (hsize cf ≠ 0 → hash_rep (hsize cf) s4 (λ _, True)))
    as (s4 & H4 & (Hhd4 & Htl4 & Hr4) & Hh4).
  { destruct (decide (hsize cf = 0)) as [H0|H0].
    - rewrite bool_decide_false by tauto. by exists s3.
    - rewrite bool_decide_true by done.
      destruct (link_htab_spec (hsize cf) s3 (λ c, c ≠ repl) repl blk4) as (s4 & H & Hr4 & Hh4).
      + apply hash_rep_upd; [by apply Hh|tauto].
      + tauto.
      + change (blks s3) with (alter (λ _, blk4) repl (blks s2)).
        by rewrite (blk_alter _ _ _ _ _ Hb), decide_True.
      + apply bucket_lt; [by eapply hsize_range|lia].
      + exists s4. split_and!; [done..|]. intros _. eapply hash_rep_ext; [|exact Hh4].
        intros c. simpl. destruct (decide (c = repl)); tauto. }
  exists s4. split; [done|]. split; [done|].
  assert (rest <$> blks s4 = rest <$> alter (λ _, blk4) repl (blks s)) as Hfin by by rewrite Hr4.
  split; [|done]. injection He as Hn Hp ? ? ? ? Hdd.
  eapply (set_ok_replace cf s s4 order repl blk0 blk4); try done.
  - by rewrite Hhd4, <- Hhd.
  - by rewrite Htl4, <- Htl.
  - congruence.
  - congruence.
  - intros Ha. rewrite Hd by done. by rewrite Hdd.
Qed.

(** ** Sets as lists of entries *)

Record entry := mkEntry {
  e_tag : Z;
  e_status : Z;
  e_ready : Z;
  e_udata : option (list Z);
  e_data : list Z
}.

Definition entry_of (b : cache_blk_t) : entry :=
  mkEntry (tag b) (status b) (ready b) (user_data b) (data b).

Definition e_valid (e : entry) : bool :=
  negb (bool_decide (Z.land (e_status e) CACHE_BLK_VALID = 0)).
Definition e_dirty (e : entry) : bool :=
  negb (bool_decide (Z.land (e_status e) CACHE_BLK_DIRTY = 0)).

(** The entries of a set in replacement order, most recent first. *)
Definition entries (s : cache_set_t) (order : list nat) : list entry :=
  omap (λ b, entry_of <$> blks s !! b) order.

(** The position of the valid entry with a tag. *)
Definition e_find (t : Z) (es : list entry) : option nat :=
  fst <$> list_find (λ e, e_tag e = t ∧ e_valid e = true) es.

Lemma omap_lookup {A B} (f : A → option B) (l : list A) k :
  (∀ x, x ∈ l → is_Some (f x)) → omap f l !! k = l !! k ≫= f.
Proof.
  revert k. induction l as [|x l IH]; intros k Hf; [by destruct k|].
  destruct (Hf x) as [y Hy]; [by left|]. cbn [omap list_omap]. rewrite Hy.
  destruct k as [|k]; simpl; [by rewrite Hy|]. apply IH. intros z Hz. apply Hf. by right.
Qed.

Lemma entries_lookup s order k :
  (∀ b, b ∈ order → (b < length (blks s))%nat) →
  entries s order !! k = b ← order !! k; entry_of <$> blks s !! b.
Proof.
  intros Hall. unfold entries. apply omap_lookup. intros b Hb.
  apply fmap_is_Some, lookup_lt_is_Some_2. by apply Hall.
Qed.

Lemma entries_length s order :
  (∀ b, b ∈ order → (b < length (blks s))%nat) → length (entries s order) = length order.
Proof.
  unfold entries. induction order as [|b order IH]; intros Hall; [done|].
  destruct (lookup_lt_is_Some_2 (blks s) b) as [blk Hb]; [apply Hall; by left|].
  cbn [omap list_omap]. rewrite Hb. simpl. f_equal. apply IH. intros c Hc. apply Hall. by right.
Qed.

Lemma entries_same s s' order :
  (∀ b, b ∈ order → entry_of <$> blks s' !! b = entry_of <$> blks s !! b) →
  entries s' order = entries s order.
Proof.
  unfold entries. induction order as [|b order IH]; intros H; [done|].
  cbn [omap list_omap]. rewrite H by (by left). rewrite IH; [done|].
  intros c Hc. apply H. by right.
Qed.

Lemma payload_entries s s' order : same_payload s s' → entries s' order = entries s order.
Proof.
  intros [_ H]. apply entries_same. intros b _. apply (f_equal (.!! b)) in H.
  rewrite !list_lookup_fmap in H. destruct (blks s !! b), (blks s' !! b); try done.
  simpl in *. unfold payload in H. f_equal. unfold entry_of. congruence.
Qed.

Lemma rest_entries s l order :
  rest <$> blks s = rest <$> l → entries s order = entries (with_blks s l) order.
Proof.
  intros H. apply entries_same. intros b _. cbn [blks with_blks]. apply (f_equal (.!! b)) in H.
  rewrite !list_lookup_fmap in H. destruct (blks s !! b), (l !! b); try done.
  simpl in *. unfold rest in H. f_equal. unfold entry_of. congruence.
Qed.

(** Moving a block to the front moves its entry there. *)
Lemma entries_move s order k b blk :
  (∀ b, b ∈ order → (b < length (blks s))%nat) → order !! k = Some b → blks s !! b = Some blk →
  entries s (b :: delete k order) = entry_of blk :: delete k (entries s order).
Proof.
  intros Hall Hk Hb. unfold entries at 1. cbn [omap list_omap]. rewrite Hb. simpl. f_equal.
  fold (entries s (delete k order)). apply list_eq. intros j.
  assert (∀ c, c ∈ delete k order → (c < length (blks s))%nat) as Hall'.
  { intros c [i Hi]%list_elem_of_lookup. rewrite lookup_delete in Hi. apply Hall.
    destruct (decide _); by eapply list_elem_of_lookup_2. }
  rewrite (entries_lookup _ _ _ Hall'), !lookup_delete, !(entries_lookup _ _ _ Hall).
  by destruct (decide (j < k)%nat).
Qed.

Lemma entries_move_last s order k b blk :
  (∀ b, b ∈ order → (b < length (blks s))%nat) → order !! k = Some b → blks s !! b = Some blk →
  entries s (delete k order ++ [b]) = delete k (entries s order) ++ [entry_of blk].
Proof.
  intros Hall Hk Hb. pose proof (entries_move s order k b blk Hall Hk Hb) as H.
  unfold entries in *. rewrite omap_app. cbn [omap list_omap] in *. rewrite Hb in *.
  simpl in *. injection H as H. by rewrite H.
Qed.

(** Rewriting a block rewrites its entry. *)
Lemma entries_alter s order k b blk blk1 :
  NoDup order → (∀ b, b ∈ order → (b < length (blks s))%nat) →
  order !! k = Some b → blks s !! b = Some blk →
  entries (with_blks s (alter (λ _, blk1) b (blks s))) order
  = <[k := entry_of blk1]> (entries s order).
Proof.
  intros Hnd Hall Hk Hb. apply list_eq. intros j.
  rewrite entries_lookup by (cbn [blks with_blks]; by rewrite length_alter).
  cbn [blks with_blks]. destruct (decide (j = k)) as [->|Hjk].
  - rewrite list_lookup_insert_eq
      by (rewrite entries_length by done; by eapply lookup_lt_Some).
    rewrite Hk. simpl. by rewrite (blk_alter _ _ _ _ _ Hb), decide_True.
  - rewrite list_lookup_insert_ne, entries_lookup by done.
    destruct (order !! j) as [c|] eqn:Hj; [|done]. simpl.
    rewrite (blk_alter _ _ _ _ _ Hb), decide_False; [done|]. intros ->.
    by apply Hjk, (nodup_index order j k b).
Qed.

Lemma set_ok_all cf s order : set_ok cf s order → ∀ b, b ∈ order → (b < length (blks s))%nat.
Proof. intros Hs b Hb. by apply (ways_all _ _ (so_ways _ _ _ Hs)). Qed.

Lemma set_ok_position cf s order b :
  set_ok cf s order → (b < length (blks s))%nat → ∃ k, order !! k = Some b.
Proof. intros Hs Hb. apply list_elem_of_lookup. by apply (ways_all _ _ (so_ways _ _ _ Hs)). Qed.

(** The search of the code is the search among the entries. *)
Lemma found_find cf s order t o :
  set_ok cf s order → found (blks s) t o →
  e_find t (entries s order) = o ≫= (λ b, fst <$> list_find (λ c, c = b) order).
Proof.
  intros Hs Hf. unfold e_find. pose proof (set_ok_all _ _ _ Hs) as Hall.
  assert (∀ k e, entries s order !! k = Some e → ∃ b blk, order !! k = Some b ∧
            blks s !! b = Some blk ∧ e = entry_of blk) as Hent.
  { intros k e. rewrite entries_lookup by done. destruct (order !! k) as [b|]; [|done].
    simpl. destruct (blks s !! b) as [blk|] eqn:Hb; [|done]. intros [= <-]. eauto. }
  destruct o as [b|]; simpl in Hf |- *.
  - pose proof Hf as (blk & Hb & Ht & Hv)%match_at_Some.
    destruct (set_ok_position _ _ _ b Hs) as [k Hk]; [by eapply lookup_lt_Some|].
    assert (list_find (λ c, c = b) order = Some (k, b)) as ->.
    { apply list_find_Some. split_and!; [done..|]. intros j c Hj Hjk ->.
      pose proof (nodup_index order j k b (ways_nodup _ _ (so_ways _ _ _ Hs)) Hj Hk). lia. }
    assert (list_find (λ e, e_tag e = t ∧ e_valid e = true) (entries s order)
            = Some (k, entry_of blk)) as ->; [|done].
    apply list_find_Some. split_and!; [|done|done|].
    + rewrite entries_lookup, Hk by done. simpl. by rewrite Hb.
    + intros j e He Hjk [He1 He2]. destruct (Hent j e He) as (c & blk' & Hc & Hb' & ->).
      assert (match_at (blks s) t c = true) as Hm by (apply match_at_Some; eauto).
      pose proof (so_unique _ _ _ Hs b c t Hf Hm) as <-.
      pose proof (nodup_index order j k b (ways_nodup _ _ (so_ways _ _ _ Hs)) Hc Hk). lia.
  - assert (list_find (λ e, e_tag e = t ∧ e_valid e = true) (entries s order) = None) as ->;
      [|done].
    apply list_find_None, Forall_forall. intros e [k He]%list_elem_of_lookup [He1 He2].
    destruct (Hent k e He) as (c & blk' & Hc & Hb' & ->).
    assert (match_at (blks s) t c = true) as Hm by (apply match_at_Some; eauto).
    by rewrite Hf in Hm.
Qed.

(** ** The whole cache *)

Record cache_ok (ob ib : Z) (cp : cache_t) (ords : list (list nat)) : Prop := {
  ck_conf : conf_ok (conf cp) ob ib;
  ck_len : length (sets cp) = Z.to_nat (2 ^ ib);
  ck_ords : length ords = length (sets cp);
  ck_sets : ∀ i s order, sets cp !! i = Some s → ords !! i = Some order →
              set_ok (conf cp) s order;
  ck_last : match last_blk cp with
            | None => last_tagset cp = 0
            | Some (i, b) => ∃ s order blk,
                sets cp !! i = Some s ∧ ords !! i = Some order ∧ blks s !! b = Some blk ∧
                blk_valid blk = true ∧
                last_tagset cp = CACHE_MK_BADDR (conf cp) (tag blk) (Z.of_nat i) ∧
                (policy (conf cp) = LRU → order !! 0%nat = Some b)
            end
}.

(** The entries of set [i]. *)
Definition set_entries (cp : cache_t) (ords : list (list nat)) (i : nat) : list entry :=
  match sets cp !! i, ords !! i with
  | Some s, Some order => entries s order
  | _, _ => []
  end.

Section Ok.
Context (ob ib : Z).

Lemma cache_set cp ords addr :
  cache_ok ob ib cp ords → 0 ≤ addr →
  ∃ s order, sets cp !! Z.to_nat (CACHE_SET (conf cp) addr) = Some s ∧
             ords !! Z.to_nat (CACHE_SET (conf cp) addr) = Some order ∧
             set_ok (conf cp) s order.
Proof.
  intros Hc Ha. pose proof (set_range _ _ _ (ck_conf _ _ _ _ Hc) addr Ha) as Hr.
  destruct (lookup_lt_is_Some_2 (sets cp) (Z.to_nat (CACHE_SET (conf cp) addr))) as [s Hs].
  { rewrite (ck_len _ _ _ _ Hc). lia. }
  destruct (lookup_lt_is_Some_2 ords (Z.to_nat (CACHE_SET (conf cp) addr))) as [order Ho].
  { rewrite (ck_ords _ _ _ _ Hc), (ck_len _ _ _ _ Hc). lia. }
  exists s, order. split_and!; [done..|]. by eapply (ck_sets _ _ _ _ Hc).
Qed.

Lemma put_set_Ok cp i s0 s : sets cp !! i = Some s0 →
  put_set cp i s = Ok (set_sets cp (<[i := s]> (sets cp))).
Proof. intros Hi. unfold put_set, vset. by rewrite Hi. Qed.

(** Replacing one set by a good one, with a good last block. *)
Lemma cache_ok_put cp cp' ords i s0 s order :
  cache_ok ob ib cp ords → conf cp' = conf cp → sets cp !! i = Some s0 →
  sets cp' = <[i := s]> (sets cp) → set_ok (conf cp) s order →
  match last_blk cp' with
  | None => last_tagset cp' = 0
  | Some (j, b) => j = i ∧ ∃ blk, blks s !! b = Some blk ∧ blk_valid blk = true ∧
      last_tagset cp' = CACHE_MK_BADDR (conf cp) (tag blk) (Z.of_nat i) ∧
      (policy (conf cp) = LRU → order !! 0%nat = Some b)
  end →
  cache_ok ob ib cp' (<[i := order]> ords) ∧
  set_entries cp' (<[i := order]> ords) i = entries s order ∧
  ∀ j, j ≠ i → set_entries cp' (<[i := order]> ords) j = set_entries cp ords j.
Proof.
  intros Hc Hconf Hi Hsets Hs Hlast. pose proof (lookup_lt_Some _ _ _ Hi) as Hlt.
  assert (i < length ords)%nat as Hlt' by by rewrite (ck_ords _ _ _ _ Hc).
  split; [|split].
  - split; rewrite ?Hconf, ?Hsets, ?length_insert; try apply Hc.
    + intros j s1 o1 Hs1 Ho1. destruct (decide (j = i)) as [->|Hji].
      * rewrite list_lookup_insert_eq in Hs1 by done. rewrite list_lookup_insert_eq in Ho1 by done.
        by simplify_eq.
      * rewrite list_lookup_insert_ne in Hs1 by done. rewrite list_lookup_insert_ne in Ho1 by done.
        by eapply (ck_sets _ _ _ _ Hc).
    + destruct (last_blk cp') as [[j b]|]; [|done].
      destruct Hlast as (-> & blk & Hb & Hv & Ht & Hp). exists s, order, blk.
      rewrite !list_lookup_insert_eq by done. done.
  - unfold set_entries. by rewrite Hsets, !list_lookup_insert_eq by done.
  - intros j Hj. unfold set_entries. by rewrite Hsets, !list_lookup_insert_ne by done.
Qed.

(** What a hit does to the entry. *)
Definition hit_entry (cf : cache_conf) (cmd : mem_cmd) (addr nbytes : Z) (p : list Z) (e : entry)
    : entry :=
  mkEntry (e_tag e)
    (if bool_decide (cmd = Write) then Z.lor (e_status e) CACHE_BLK_DIRTY else e_status e)
    (e_ready e) (e_udata e)
    (copied cf cmd (CACHE_BLK cf addr) nbytes (e_data e) p).1.

(** What it does to the set: LRU moves the entry to the front. *)
Definition hit_entries (pol : cache_policy) (k : nat) (e : entry) (es : list entry)
    : list entry :=
  if bool_decide (pol = LRU) then e :: delete k es else <[k := e]> es.

Definition hit_out (cf : cache_conf) (cmd : mem_cmd) (addr nbytes now : Z) (p : list Z)
    (i b : nat) (e : entry) : access_out :=
  mkOut (u32 (i32 (Z.max (hit_latency cf) (i64 (e_ready e - now)))))
    (copied cf cmd (CACHE_BLK cf addr) nbytes (e_data e) p).2
    ((λ _, (i, b)) <$> e_udata e) 0.

Lemma blk_set_data (d : list Z) st blk :
  entry_of (set_data d (set_status st blk)) = mkEntry (tag blk) st (ready blk) (user_data blk) d.
Proof. done. Qed.

(** The common part of the two hit handlers: block [b], at position [k] of set
    [i], is written and, by LRU, moved to the front. *)
Lemma hit_update cp ords cmd addr nbytes p i s order b k blk :
  cache_ok ob ib cp ords → sets cp !! i = Some s → ords !! i = Some order →
  set_ok (conf cp) s order → order !! k = Some b → blks s !! b = Some blk →
  buf_ok (conf cp) (CACHE_BLK (conf cp) addr) nbytes p →
  ∃ blk1 p1,
    access_blk (conf cp) cmd (CACHE_BLK (conf cp) addr) p nbytes blk = Ok (blk1, p1) ∧
    way_prev blk1 = way_prev blk ∧ user_data blk1 = user_data blk ∧ ready blk1 = ready blk ∧
    tag blk1 = tag blk ∧ blk_valid blk1 = blk_valid blk ∧
    entry_of blk1 = hit_entry (conf cp) cmd addr nbytes p (entry_of blk) ∧
    p1 = (copied (conf cp) cmd (CACHE_BLK (conf cp) addr) nbytes (data blk) p).2 ∧
    let s1 := with_blks s (alter (λ _, blk1) b (blks s)) in
    upd_blk s (Some b) (λ _, blk1) = Ok s1 ∧ set_ok (conf cp) s1 order ∧
    entries s1 order = <[k := entry_of blk1]> (entries s order).
Proof.
  intros Hc Hi Ho Hs Hk Hb Hbuf.
  pose proof (access_blk_Ok (conf cp) cmd (CACHE_BLK (conf cp) addr) p nbytes blk Hbuf
                (so_data _ _ _ Hs b blk Hb)) as Hacc.
  destruct (copied _ _ _ _ (data blk) p) as [d p1] eqn:Hcop. destruct Hacc as [Hacc Hd].
  eexists _, p1. split; [exact Hacc|].
  assert (∀ st, Z.land (if bool_decide (cmd = Write) then Z.lor st CACHE_BLK_DIRTY else st)
            CACHE_BLK_VALID = Z.land st CACHE_BLK_VALID) as Hv.
  { intros st. case_bool_decide; [apply valid_dirty|done]. }
  split_and!; [done..| | |done|].
  - unfold blk_valid. cbn [status set_data set_contents set_status set_tag_status]. by rewrite Hv.
  - rewrite blk_set_data. unfold hit_entry. cbn [entry_of e_tag e_status e_ready e_udata e_data].
    by rewrite Hcop.
  - cbv zeta. split; [apply upd_blk_Ok; by eapply lookup_lt_Some|]. split.
    + eapply set_ok_block; [done|done|done| |done].
      unfold blk_valid. cbn [status set_data set_contents set_status set_tag_status]. by rewrite Hv.
    + eapply entries_alter; [apply Hs|by eapply set_ok_all|done|done].
Qed.

Definition counters (cp : cache_t) : Z * Z * Z * Z * Z :=
  (hits cp, misses cp, replacements cp, writebacks cp, invalidations cp).

Lemma delete_insert_same {A} (l : list A) k x : delete k (<[k := x]> l) = delete k l.
Proof.
  apply list_eq. intros j. rewrite !lookup_delete.
  destruct (decide (j < k)%nat); by rewrite list_lookup_insert_ne by lia.
Qed.

Lemma insert_front {A} (l : list A) x y :
  l !! 0%nat = Some y → <[0%nat := x]> l = x :: delete 0%nat l.
Proof. destruct l; [done|]. done. Qed.

Lemma hit_last cp ords addr blk :
  cache_ok ob ib cp ords → 0 ≤ addr < 2 ^ 32 → tag blk = CACHE_TAG (conf cp) addr →
  CACHE_TAGSET (conf cp) addr
  = CACHE_MK_BADDR (conf cp) (tag blk) (Z.of_nat (Z.to_nat (CACHE_SET (conf cp) addr))).
Proof.
  intros Hc Ha ->. pose proof (ck_conf _ _ _ _ Hc) as Hcf.
  pose proof (set_range _ _ _ Hcf addr (proj1 Ha)).
  rewrite Z2Nat.id by lia. rewrite (tagset_eq _ _ _ Hcf).
  by rewrite (mk_baddr_tag_set _ _ _ Hcf).
Qed.

(** What both hit handlers achieve. *)
Definition hit_result (cp : cache_t) (ords : list (list nat)) (cmd : mem_cmd)
    (addr nbytes now : Z) (p : list Z) (i b k : nat) (e : entry)
    (out : access_out) (cp' : cache_t) (ords' : list (list nat)) : Prop :=
  cache_ok ob ib cp' ords' ∧ conf cp' = conf cp ∧ bus_free cp' = bus_free cp ∧
  out = hit_out (conf cp) cmd addr nbytes now p i b e ∧
  counters cp' = (i64 (hits cp + 1), misses cp, replacements cp, writebacks cp,
                  invalidations cp) ∧
  set_entries cp' ords' i
  = hit_entries (policy (conf cp)) k (hit_entry (conf cp) cmd addr nbytes p e)
      (set_entries cp ords i) ∧
  ∀ j, j ≠ i → set_entries cp' ords' j = set_entries cp ords j.

Lemma cache_hit_spec cp ords cmd addr nbytes now p s order b k blk :
  let i := Z.to_nat (CACHE_SET (conf cp) addr) in
  cache_ok ob ib cp ords → 0 ≤ addr < 2 ^ 32 →
  sets cp !! i = Some s → ords !! i = Some order → set_ok (conf cp) s order →
  order !! k = Some b → blks s !! b = Some blk →
  tag blk = CACHE_TAG (conf cp) addr → blk_valid blk = true →
  buf_ok (conf cp) (CACHE_BLK (conf cp) addr) nbytes p →
  ∃ out cp' ords', cache_hit cp cmd addr p nbytes now i b = Ok (out, cp') ∧
    hit_result cp ords cmd addr nbytes now p i b k (entry_of blk) out cp' ords'.
Proof.
  intros i Hc Ha Hi Ho Hs Hk Hb Ht Hv Hbuf.
  destruct (hit_update cp ords cmd addr nbytes p i s order b k blk Hc Hi Ho Hs Hk Hb Hbuf)
    as (blk1 & p1 & Hacc & Hwp & Hud & Hrd & Htg & Hv1 & He & Hp1 & Hupd & Hs1 & Hent).
  cbv zeta in Hupd, Hs1, Hent. set (s1 := with_blks s (alter (λ _, blk1) b (blks s))) in *.
  assert (blks s1 !! b = Some blk1) as Hb1
    by (unfold s1; cbn [blks with_blks]; by rewrite (blk_alter _ b blk blk1 b Hb), decide_True).
  destruct (ways_lookup s order k b (so_ways _ _ _ Hs) Hk) as (_ & x & Hx & _ & Hbefore).
  assert (∃ s2 order', (if bool_decide (way_prev blk1 ≠ None) &&
      bool_decide (policy (conf cp) = LRU) then update_way_list s1 b Head else Ok s1) = Ok s2 ∧
    set_ok (conf cp) s2 order' ∧
    entries s2 order' = hit_entries (policy (conf cp)) k (entry_of blk1) (entries s order) ∧
    (∃ blk2, blks s2 !! b = Some blk2 ∧ tag blk2 = tag blk ∧ blk_valid blk2 = true) ∧
    (policy (conf cp) = LRU → order' !! 0%nat = Some b))
    as (s2 & order' & Hway & Hs2 & Hent2 & (blk2 & Hb2 & Ht2 & Hv2) & Hfront).
  { rewrite Hwp. rewrite Hb in Hx. injection Hx as <-. rewrite Hbefore.
    destruct (decide (policy (conf cp) = LRU)) as [Hpol|Hpol]; unfold hit_entries; last first.
    { rewrite !(bool_decide_false (policy _ = LRU)), andb_false_r by done.
      exists s1, order. split_and!; [done..| |done]. exists blk1. split_and!; [done..|congruence]. }
    rewrite !(bool_decide_true (policy _ = LRU)), andb_true_r by done.
    destruct k as [|k].
    - rewrite bool_decide_false by tauto. exists s1, order. split_and!; [done..| | |].
      + rewrite Hent. eapply insert_front. by rewrite entries_lookup, Hk; [simpl; rewrite Hb|eapply set_ok_all].
      + exists blk1. split_and!; [done..|congruence].
      + done.
    - cbn [before] in Hbefore. simpl before.
      destruct (order !! k) as [q|] eqn:Hq; last first.
      { apply lookup_ge_None in Hq. apply lookup_lt_Some in Hk. lia. }
      rewrite bool_decide_true by done.
      destruct (update_way_list_head s1 order (S k) b (so_ways _ _ _ Hs1) Hk)
        as (s2 & Hup & Hpl & Hw2).
      exists s2, (b :: delete (S k) order). split; [done|]. split; [by eapply set_ok_reorder|].
      split; [|split; [|done]].
      + rewrite (payload_entries _ _ _ Hpl), (entries_move s1 order (S k) b blk1);
          [|by eapply set_ok_all|done|done].
        by rewrite Hent, delete_insert_same.
      + destruct (lookup_lt_is_Some_2 (blks s2) b) as [blk2 Hb2].
        { rewrite (same_payload_length _ _ Hpl). by eapply lookup_lt_Some. }
        destruct (payload_lookup _ _ _ _ Hpl Hb2) as (y & Hy & Hye).
        rewrite Hb1 in Hy. injection Hy as <-. exists blk2. split; [done|].
        rewrite (payload_valid _ _ Hye). unfold payload in Hye. split; [|congruence].
        injection Hye as ? -> ? ? ? ?. done. }
  unfold cache_hit, vget. rewrite Hi. cbn [mbind result_bind]. rewrite Hb.
  cbn [mbind result_bind]. rewrite Hacc. cbn [mbind result_bind]. rewrite Hupd.
  cbn [mbind result_bind]. rewrite Hway. cbn [mbind result_bind].
  rewrite (put_set_Ok _ i s) by done. cbn [mbind result_bind].
  eexists _, _, (<[i := order']> ords). split; [reflexivity|].
  destruct (cache_ok_put cp
    (set_last (set_sets (count_hit cp) (<[i := s2]> (sets cp)))
       (CACHE_TAGSET (conf cp) addr) (Some (i, b)))
    ords i s s2 order' Hc) as (H1 & H2 & H3); [done..| |].
  { cbn [last_blk last_tagset set_last set_sets]. split; [done|]. exists blk2.
    split_and!; [done|done| |done]. rewrite Ht2. by apply (hit_last _ ords). }
  split_and!; [done..| |done| |done].
  - unfold hit_out, hit_lat, udata_of. cbn [entry_of e_ready e_udata e_data].
    by rewrite Hrd, Hud, Hp1.
  - etrans; [exact H2|]. rewrite Hent2, He. f_equal. unfold set_entries. by rewrite Hi, Ho.
Qed.

Lemma cache_fast_hit_spec cp ords cmd addr nbytes now p s order b k blk :
  let i := Z.to_nat (CACHE_SET (conf cp) addr) in
  cache_ok ob ib cp ords → 0 ≤ addr < 2 ^ 32 →
  sets cp !! i = Some s → ords !! i = Some order → set_ok (conf cp) s order →
  order !! k = Some b → blks s !! b = Some blk →
  tag blk = CACHE_TAG (conf cp) addr → blk_valid blk = true →
  (policy (conf cp) = LRU → k = 0%nat) →
  buf_ok (conf cp) (CACHE_BLK (conf cp) addr) nbytes p →
  ∃ out cp' ords', cache_fast_hit cp cmd addr p nbytes now i b = Ok (out, cp') ∧
    hit_result cp ords cmd addr nbytes now p i b k (entry_of blk) out cp' ords'.
Proof.
  intros i Hc Ha Hi Ho Hs Hk Hb Ht Hv Hlru Hbuf.
  destruct (hit_update cp ords cmd addr nbytes p i s order b k blk Hc Hi Ho Hs Hk Hb Hbuf)
    as (blk1 & p1 & Hacc & Hwp & Hud & Hrd & Htg & Hv1 & He & Hp1 & Hupd & Hs1 & Hent).
  cbv zeta in Hupd, Hs1, Hent. set (s1 := with_blks s (alter (λ _, blk1) b (blks s))) in *.
  assert (blks s1 !! b = Some blk1) as Hb1
    by (unfold s1; cbn [blks with_blks]; by rewrite (blk_alter _ b blk blk1 b Hb), decide_True).
  unfold cache_fast_hit, vget. rewrite Hi. cbn [mbind result_bind]. rewrite Hb.
  cbn [mbind result_bind]. rewrite Hacc. cbn [mbind result_bind]. rewrite Hupd.
  cbn [mbind result_bind]. rewrite (put_set_Ok _ i s) by done. cbn [mbind result_bind].
  eexists _, _, (<[i := order]> ords). split; [reflexivity|].
  destruct (cache_ok_put cp
    (set_last (set_sets (count_hit cp) (<[i := s1]> (sets cp)))
       (CACHE_TAGSET (conf cp) addr) (Some (i, b)))
    ords i s s1 order Hc) as (H1 & H2 & H3); [done..| |].
  { cbn [last_blk last_tagset set_last set_sets]. split; [done|]. exists blk1.
    split_and!; [done|congruence| |by intros Hp; rewrite <- (Hlru Hp)].
    rewrite Htg. by apply (hit_last _ ords). }
  split_and!; [done..| |done| |done].
  - unfold hit_out, hit_lat, udata_of. cbn [entry_of e_ready e_udata e_data].
    by rewrite Hrd, Hud, Hp1.
  - etrans; [exact H2|]. rewrite Hent, He. unfold set_entries. rewrite Hi, Ho. unfold hit_entries.
    case_bool_decide as Hpol; [|done]. rewrite (Hlru Hpol) in *.
    eapply insert_front. by rewrite entries_lookup, Hk; [simpl; rewrite Hb|eapply set_ok_all].
Qed.

(** ** Misses *)

Section Miss.
Context {W : Type}.
Context (blk_access_fn :
  mem_cmd → Z → Z → cache_blk_t → Z → W → Z * (option (list Z) * list Z) * W).
Context (myrand : W → Z * W).

(** The handler fills blocks, it does not resize them. *)
Definition handler_ok : Prop :=
  ∀ cmd a n blk now w l c w',
    blk_access_fn cmd a n blk now w = (l, c, w') → length c.2 = length (data blk).
Hypothesis fn_ok : handler_ok.

(** The write-back of the victim of a miss: a dirty one goes to the next level, which
    answers with the user data, before the new block is read. *)
Definition written_back (cf : cache_conf) (set : Z) (victim : entry) (w w2 : W)
    (ud : option (list Z)) : Prop :=
  if e_valid victim && e_dirty victim
  then ∃ blk t l c, entry_of blk = victim ∧ ud = c.1 ∧
    blk_access_fn Write (CACHE_MK_BADDR cf (e_tag victim) set) (bsize cf) blk t w = (l, c, w2)
  else w2 = w ∧ ud = e_udata victim.

Lemma evict_spec cp set blk now w lat blk1 raddr cp2 w2 :
  evict blk_access_fn cp set blk now w = (lat, blk1, raddr, cp2, w2) →
  same_links blk blk1 ∧ status blk1 = status blk ∧ length (data blk1) = length (data blk) ∧
  conf cp2 = conf cp ∧ sets cp2 = sets cp ∧ last_blk cp2 = last_blk cp ∧
  last_tagset cp2 = last_tagset cp ∧
  raddr = (if blk_valid blk then CACHE_MK_BADDR (conf cp) (tag blk) set else 0) ∧
  counters cp2
  = (hits cp, misses cp,
     (if blk_valid blk then i64 (replacements cp + 1) else replacements cp),
     (if blk_valid blk && blk_dirty blk then i64 (writebacks cp + 1) else writebacks cp),
     invalidations cp) ∧
  written_back (conf cp) set (entry_of blk) w w2 (user_data blk1).
Proof.
  unfold evict, written_back, e_valid, e_dirty. cbn [entry_of e_status e_tag e_udata].
  fold (blk_valid blk). fold (blk_dirty blk). destruct (blk_valid blk); [|by intros [= <- <- <- <- <-]].
  destruct (blk_dirty blk); [|by intros [= <- <- <- <- <-]].
  destruct (blk_access_fn _ _ _ _ _ _) as [[l c] w1] eqn:Hfn.
  intros [= <- <- <- <- <-]. pose proof (fn_ok _ _ _ _ _ _ _ _ _ Hfn) as Hl.
  split_and!; [done..|exact Hl|done|done|done|done|done|done|].
  exists blk, (i64 (now + i32 (BOUND_POS (i64 (ready blk - now))
    + BOUND_POS (i64 (bus_free cp - i64 (now + BOUND_POS (i64 (ready blk - now)))))))), l, c. by split_and!.
Qed.

Lemma rand_index r k : 0 ≤ k → 0 ≤ Z.land r (2 ^ k - 1) < 2 ^ k.
Proof.
  intros Hk. replace (2 ^ k - 1) with (Z.ones k) by (rewrite Z.ones_equiv; lia).
  rewrite Z.land_ones by done. apply Z.mod_pos_bound. lia.
Qed.

(** The victim, and the way list after it was chosen. *)
Lemma select_repl_spec cf s order w :
  conf_ok cf ob ib → set_ok cf s order →
  ∃ repl s1 w1 order1 k, select_repl myrand cf s w = Ok (repl, s1, w1) ∧
    same_payload s s1 ∧ set_ok cf s1 order1 ∧ order !! k = Some repl ∧
    (policy cf = Random → order1 = order ∧ w1 = (myrand w).2 ∧
       repl = Z.to_nat (Z.land (myrand w).1 (assoc cf - 1))) ∧
    (policy cf ≠ Random → S k = length order ∧ order1 = repl :: delete k order ∧ w1 = w).
Proof.
  intros Hcf Hs. pose proof (assoc_pos _ _ _ Hcf) as Ha. unfold select_repl.
  assert (length order = Z.to_nat (assoc cf)) as Hlen.
  { rewrite <- (so_len _ _ _ Hs). apply Permutation_length_of_members; [apply Hs|].
    apply (so_ways _ _ _ Hs). }
  assert (∃ repl s1 order1 k,
    (repl ← deref (way_tail s); s1 ← update_way_list s repl Head; Ok (repl, s1, w))
    = Ok (repl, s1, w) ∧ same_payload s s1 ∧ set_ok cf s1 order1 ∧ order !! k = Some repl ∧
    S k = length order ∧ order1 = repl :: delete k order) as (r & s1 & o1 & k & H & Hrest).
  { destruct (lookup_lt_is_Some_2 order (length order - 1)) as [repl Hr]; [lia|].
    rewrite (ways_tail _ _ (so_ways _ _ _ Hs)), last_index, Hr. simpl.
    destruct (update_way_list_head s order _ repl (so_ways _ _ _ Hs) Hr) as (s1 & -> & Hp & Hw).
    simpl. eexists _, s1, _, _. split; [done|]. split_and!; [done|by eapply set_ok_reorder|done|lia|done]. }
  destruct (policy cf) eqn:Hpol.
  - exists r, s1, w, o1, k. rewrite H. destruct Hrest as (?&?&?&?&?). by split_and!.
  - destruct (myrand w) as [x w1] eqn:Hx. simpl.
    destruct (cf_assoc _ _ _ Hcf) as (m & Hm & Hma).
    pose proof (rand_index x m (proj1 Hm)) as Hri. rewrite <- Hma in Hri.
    destruct (set_ok_position _ _ _ (Z.to_nat (Z.land x (assoc cf - 1))) Hs) as [k' Hk'].
    { rewrite (so_len _ _ _ Hs). lia. }
    eexists _, s, w1, order, k'. by split_and!.
  - exists r, s1, w, o1, k. rewrite H. destruct Hrest as (?&?&?&?&?). by split_and!.
Qed.

(** What a miss puts in the set: the new entry in the place of the victim, or at
    the front. *)
Definition miss_entries (pol : cache_policy) (k : nat) (e : entry) (es : list entry)
    : list entry :=
  if bool_decide (pol = Random) then <[k := e]> es else e :: delete k es.

(** The entries after the replacement, in the order the victim was moved to. *)
Lemma replaced_entries cf s s1 order order1 k repl blk0 blk4 l4 :
  set_ok cf s order → set_ok cf s1 order1 → same_payload s s1 →
  order !! k = Some repl → blks s1 !! repl = Some blk0 →
  (policy cf = Random → order1 = order) →
  (policy cf ≠ Random → order1 = repl :: delete k order) →
  rest <$> blks l4 = rest <$> alter (λ _, blk4) repl (blks s1) →
  entries l4 order1 = miss_entries (policy cf) k (entry_of blk4) (entries s order).
Proof.
  intros Hs Hs1 Hpl Hk Hb0 Hr Hl Hrest. rewrite (rest_entries _ _ _ Hrest).
  change (entries (with_blks l4 ?l) order1) with (entries (with_blks s1 l) order1).
  pose proof (ways_nodup _ _ (so_ways _ _ _ Hs1)) as Hnd.
  pose proof (set_ok_all _ _ _ Hs1) as Hall.
  unfold miss_entries. case_bool_decide as Hp.
  - rewrite (Hr Hp) in *. rewrite (entries_alter s1 order k repl blk0) by done.
    by rewrite (payload_entries _ _ _ Hpl).
  - rewrite (Hl Hp) in *. rewrite (entries_alter s1 _ 0%nat repl blk0) by done.
    rewrite (payload_entries _ _ _ Hpl).
    destruct (payload_lookup _ _ _ _ Hpl Hb0) as (blkv & Hbv & _).
    by rewrite (entries_move s order k repl blkv (set_ok_all _ _ _ Hs) Hk Hbv).
Qed.

(** The entry a miss installs holds what the next level answered to a read of the
    whole block, after the access itself. *)
Definition miss_entry (cf : cache_conf) (cmd : mem_cmd) (addr nbytes r : Z) (p : list Z)
    (c : option (list Z) * list Z) : entry :=
  mkEntry (CACHE_TAG cf addr)
    (if bool_decide (cmd = Write) then Z.lor CACHE_BLK_VALID CACHE_BLK_DIRTY
     else CACHE_BLK_VALID)
    r c.1 (copied cf cmd (CACHE_BLK cf addr) nbytes c.2 p).1.

Definition miss_result (cp : cache_t) (ords : list (list nat)) (cmd : mem_cmd)
    (addr nbytes now : Z) (p : list Z) (w : W) (i k : nat) (victim : entry)
    (out : access_out) (cp' : cache_t) (w' : W) (ords' : list (list nat)) : Prop :=
  cache_ok ob ib cp' ords' ∧ conf cp' = conf cp ∧
  last_blk cp' = None ∧ last_tagset cp' = 0 ∧
  out_repl out = (if e_valid victim
                  then CACHE_MK_BADDR (conf cp) (e_tag victim) (CACHE_SET (conf cp) addr)
                  else 0) ∧
  counters cp'
  = (hits cp, i64 (misses cp + 1),
     (if e_valid victim then i64 (replacements cp + 1) else replacements cp),
     (if e_valid victim && e_dirty victim then i64 (writebacks cp + 1) else writebacks cp),
     invalidations cp) ∧
  (∃ blk t w2 l c r,
     written_back (conf cp) (CACHE_SET (conf cp) addr) victim
       (if bool_decide (policy (conf cp) = Random) then (myrand w).2 else w) w2 (user_data blk) ∧
     blk_access_fn Read (CACHE_BADDR (conf cp) addr) (bsize (conf cp)) blk t w2 = (l, c, w') ∧
     tag blk = CACHE_TAG (conf cp) addr ∧ status blk = CACHE_BLK_VALID ∧
     (balloc (conf cp) = true → Z.of_nat (length c.2) = bsize (conf cp)) ∧
     out_p out = (copied (conf cp) cmd (CACHE_BLK (conf cp) addr) nbytes c.2 p).2 ∧
     set_entries cp' ords' i
     = miss_entries (policy (conf cp)) k
         (miss_entry (conf cp) cmd addr nbytes r p c) (set_entries cp ords i)) ∧
  ∀ j, j ≠ i → set_entries cp' ords' j = set_entries cp ords j.

Lemma cache_miss_spec cp ords cmd addr nbytes now p w s order :
  let i := Z.to_nat (CACHE_SET (conf cp) addr) in
  cache_ok ob ib cp ords → 0 ≤ addr < 2 ^ 32 →
  sets cp !! i = Some s → ords !! i = Some order → set_ok (conf cp) s order →
  found (blks s) (CACHE_TAG (conf cp) addr) None →
  buf_ok (conf cp) (CACHE_BLK (conf cp) addr) nbytes p →
  ∃ out cp' w' ords' k victim,
    cache_miss blk_access_fn myrand cp cmd addr p nbytes now i w = Ok (out, cp', w') ∧
    set_entries cp ords i !! k = Some victim ∧
    (policy (conf cp) ≠ Random → S k = length (set_entries cp ords i)) ∧
    miss_result cp ords cmd addr nbytes now p w i k victim out cp' w' ords'.
Proof.
  intros i Hc Ha Hi Ho Hs Hf Hbuf. pose proof (ck_conf _ _ _ _ Hc) as Hcf.
  assert (set_entries cp ords i = entries s order) as Hse
    by (unfold set_entries; by rewrite Hi, Ho).
  destruct (select_repl_spec (conf cp) s order w Hcf Hs)
    as (repl & s1 & w1 & order1 & k & Hsel & Hpl & Hs1 & Hk & Hrand & Hlru).
  assert (repl < length (blks s))%nat as Hrl
    by (eapply set_ok_all; [done|by eapply list_elem_of_lookup_2]).
  destruct (lookup_lt_is_Some_2 (blks s1) repl) as [blk0 Hb0];
    [by rewrite (same_payload_length _ _ Hpl)|].
  destruct (payload_lookup _ _ _ _ Hpl Hb0) as (blkv & Hbv & Hpe).
  destruct (miss_unlink _ _ _ _ _ _ _ Hcf Hs1 Hb0) as (s2 & blk & Hun & Hsr & Hb & Hre & Hhr).
  unfold cache_miss, vget. rewrite Hi. cbn [mbind result_bind]. rewrite Hsel.
  cbn [mbind result_bind]. rewrite Hun. cbn [mbind result_bind]. rewrite Hb.
  cbn [mbind result_bind].
  destruct (evict blk_access_fn (set_last (count_miss cp) 0 None) (CACHE_SET (conf cp) addr) blk
              now w1) as [[[[lat blk1] raddr] cp2] w2] eqn:Hev.
  apply evict_spec in Hev as (Hl1 & Hst1 & Hd1 & Hcf2 & Hsets2 & Hlb2 & Hlt2 & Hra & Hcnt & Hwb).
  destruct (blk_access_fn Read (CACHE_BADDR (conf cp) addr) (bsize (conf cp))
    (set_tag_status (CACHE_TAG (conf cp) addr) CACHE_BLK_VALID blk1) (i64 (now + lat)) w2)
    as [[l c] w3] eqn:Hrd.
  pose proof (fn_ok _ _ _ _ _ _ _ _ _ Hrd) as Hcl. cbn [data set_tag_status] in Hcl.
  set (blk2 := set_tag_status (CACHE_TAG (conf cp) addr) CACHE_BLK_VALID blk1) in *.
  assert (balloc (conf cp) = true → length (data blk0) = Z.to_nat (bsize (conf cp))) as Hd0.
  { intros Hba. pose proof (so_data _ _ _ Hs1 repl blk0 Hb0 Hba). lia. }
  assert (data blk = data blk0) as Hdd by (unfold rest in Hre; congruence).
  pose proof (cf_bsize _ _ _ Hcf) as Hbs.
  pose proof (access_blk_Ok (conf cp) cmd (CACHE_BLK (conf cp) addr) p nbytes
    (set_contents c blk2) Hbuf) as Hacc.
  cbn [data set_contents] in Hacc.
  destruct (copied (conf cp) cmd (CACHE_BLK (conf cp) addr) nbytes c.2 p) as [d p1] eqn:Hcop.
  destruct Hacc as [Hacc Hdl].
  { intros Hba. rewrite Hcl, Hd1, Hdd, (Hd0 Hba), Hbs. pose proof (cf_ob _ _ _ Hcf). lia. }
  assert (balloc (conf cp) = true → Z.of_nat (length c.2) = bsize (conf cp)) as Hcb.
  { intros Hba. rewrite Hcl, Hd1, Hdd. by apply (so_data _ _ _ Hs1 repl). }
  rewrite Hacc. cbn [mbind result_bind].
  set (blk4 := set_ready _ _).
  destruct (miss_relink (conf cp) ob ib s1 s2 order1 repl blk0 blk blk4)
    as (s3 & s4 & Hup & Hlk & Hs4 & Hrest4); try done.
  1: apply Hl1. 1: apply Hl1.
  { unfold blk4. cbn [tag set_ready set_data set_contents set_status set_tag_status blk2].
    rewrite (cf_tag_shift _ _ _ Hcf). by apply (tag_range _ _ _ Hcf). }
  { intros b. apply not_true_is_false. intros Hm. apply (payload_match _ _ _ _ Hpl) in Hm.
    by rewrite Hf in Hm. }
  { intros Hba. change (data blk4) with d. congruence. }
  rewrite Hup. cbn [mbind result_bind]. rewrite Hlk. cbn [mbind result_bind].
  rewrite (put_set_Ok _ i s) by by rewrite Hsets2. cbn [mbind result_bind].
  exists (mkOut (u32 (i32 (lat + l))) p1 (udata_of i repl blk4) raddr),
    (set_sets cp2 (<[i := s4]> (sets cp2))), w3, (<[i := order1]> ords), k, (entry_of blkv).
  split; [done|]. split; [by rewrite Hse, (entries_lookup _ _ _ (set_ok_all _ _ _ Hs)), Hk;
    simpl; rewrite Hbv|].
  split; [intros Hp; rewrite Hse, (entries_length _ _ (set_ok_all _ _ _ Hs)); by apply Hlru|].
  destruct (cache_ok_put cp (set_sets cp2 (<[i := s4]> (sets cp2))) ords i s s4 order1 Hc)
    as (H1 & H2 & H3); try done.
  { by cbn [sets set_sets]; rewrite Hsets2. }
  { cbn [last_blk set_sets]. by rewrite Hlb2. }
  assert (tag blk = tag blkv ∧ status blk = status blkv) as [Htv Hsv].
  { unfold rest in Hre. unfold payload in Hpe. split; congruence. }
  unfold miss_result, e_valid, e_dirty.
  change (e_status (entry_of blkv)) with (status blkv). change (e_tag (entry_of blkv)) with (tag blkv).
  rewrite <- Hsv, <- Htv.
  split_and!; [done|done|done|done|done|done| |done].
  exists blk2, (i64 (now + lat)), w2, l, c, (i64 (now + i32 (lat + l))).
  split_and!; [|done|done|done|done|by rewrite Hcop|].
  { assert (entry_of blk = entry_of blkv) as Hee by (unfold entry_of, rest, payload in *; congruence).
    rewrite Hee in Hwb. destruct (bool_decide (policy (conf cp) = Random)) eqn:Hp.
    - apply bool_decide_eq_true in Hp. by destruct (Hrand Hp) as (_ & <- & _).
    - apply bool_decide_eq_false in Hp. by destruct (Hlru Hp) as (_ & _ & <-). }
  rewrite H2, Hse. unfold miss_entry. rewrite Hcop.
  rewrite (replaced_entries (conf cp) s s1 order order1 k repl blk0 blk4 s4); try done.
  all: intros Hp; first [by destruct (Hrand Hp) | by destruct (Hlru Hp) as (? & ? & ?)].
Qed.

(** ** Accesses *)

(** What the callers of [cache_access] respect. *)
Record access_ok (cf : cache_conf) (addr nbytes : Z) (p : list Z) : Prop := {
  ac_addr : 0 ≤ addr < 2 ^ 32;
  ac_size : Z.land nbytes (nbytes - 1) = 0;
  ac_align : Z.land addr (u32 (nbytes - 1)) = 0;
  ac_buf : buf_ok cf (CACHE_BLK cf addr) nbytes p;
  ac_top : CACHE_BADDR cf addr + bsize cf < 2 ^ 32
}.

Lemma addr_split cf addr :
  conf_ok cf ob ib → 0 ≤ addr < 2 ^ 32 → addr = CACHE_BADDR cf addr + CACHE_BLK cf addr.
Proof.
  intros Hcf Ha. rewrite (baddr_eq _ _ _ Hcf), (blk_eq _ _ _ Hcf) by lia.
  pose proof (cf_ob _ _ _ Hcf). pose proof (Z.div_mod addr (2 ^ ob)). lia.
Qed.

Lemma access_guards cf addr nbytes p :
  conf_ok cf ob ib → access_ok cf addr nbytes p →
  bool_decide (Z.land nbytes (nbytes - 1) ≠ 0 ∨ Z.land addr (u32 (nbytes - 1)) ≠ 0) = false ∧
  bool_decide (u32 (CACHE_BADDR cf addr + bsize cf) < u32 (addr + nbytes)) = false.
Proof.
  intros Hcf [Ha Hs Hal (Hn & Hb & Hbn & Hp) Ht]. split; apply bool_decide_eq_false; [tauto|].
  pose proof (addr_split cf addr Hcf Ha) as He.
  assert (0 ≤ nbytes) by (unfold size_ok in Hn; lia).
  assert (0 ≤ CACHE_BADDR cf addr).
  { rewrite (baddr_eq _ _ _ Hcf) by done. pose proof (cf_ob _ _ _ Hcf).
    apply Z.mul_nonneg_nonneg; [apply Z.div_pos; lia|lia]. }
  rewrite !u32_small; lia.
Qed.

(** The block the fast path uses is the one the search would find. *)
Lemma last_found cp ords addr i b :
  cache_ok ob ib cp ords → 0 ≤ addr < 2 ^ 32 →
  last_blk cp = Some (i, b) → last_tagset cp = CACHE_TAGSET (conf cp) addr →
  i = Z.to_nat (CACHE_SET (conf cp) addr) ∧ ∃ s order blk,
    sets cp !! i = Some s ∧ ords !! i = Some order ∧ set_ok (conf cp) s order ∧
    blks s !! b = Some blk ∧ tag blk = CACHE_TAG (conf cp) addr ∧ blk_valid blk = true ∧
    (policy (conf cp) = LRU → order !! 0%nat = Some b).
Proof.
  intros Hc Ha Hlb Hlt. pose proof (ck_last _ _ _ _ Hc) as Hl. rewrite Hlb in Hl.
  destruct Hl as (s & order & blk & Hi & Ho & Hb & Hv & Ht & Hp).
  pose proof (ck_conf _ _ _ _ Hc) as Hcf.
  pose proof (ck_sets _ _ _ _ Hc i s order Hi Ho) as Hs.
  pose proof (lookup_lt_Some _ _ _ Hi) as Hlen. rewrite (ck_len _ _ _ _ Hc) in Hlen.
  rewrite Hlt, (tagset_eq _ _ _ Hcf), <- (mk_baddr_tag_set _ _ _ Hcf) in Ht by done.
  pose proof (so_tags _ _ _ Hs b blk Hb) as Htr. rewrite (cf_tag_shift _ _ _ Hcf) in Htr.
  pose proof (tag_range _ _ _ Hcf addr Ha). pose proof (set_range _ _ _ Hcf addr (proj1 Ha)).
  assert (0 ≤ Z.of_nat i < 2 ^ ib) as Hir by lia.
  destruct (mk_baddr_inj _ _ _ Hcf (CACHE_TAG (conf cp) addr) (CACHE_SET (conf cp) addr)
    (tag blk) (Z.of_nat i)) as [Htt Hset]; try done.
  split; [lia|]. exists s, order, blk. by split_and!.
Qed.

(** A found block is at the position of its entry. *)
Lemma found_position cf s order t b :
  set_ok cf s order → found (blks s) t (Some b) → ∃ k blk,
    order !! k = Some b ∧ blks s !! b = Some blk ∧ tag blk = t ∧ blk_valid blk = true ∧
    e_find t (entries s order) = Some k ∧ entries s order !! k = Some (entry_of blk).
Proof.
  intros Hs Hf. pose proof (found_find _ _ _ _ _ Hs Hf) as He.
  pose proof Hf as (blk & Hb & Ht & Hv)%match_at_Some.
  destruct (set_ok_position _ _ _ b Hs) as [k Hk]; [by eapply lookup_lt_Some|].
  assert (list_find (λ c, c = b) order = Some (k, b)) as Hlf.
  { apply list_find_Some. split_and!; [done..|]. intros j c Hj Hjk ->.
    pose proof (nodup_index order j k b (ways_nodup _ _ (so_ways _ _ _ Hs)) Hj Hk). lia. }
  exists k, blk. split_and!; [done..| |].
  - rewrite He. simpl. by rewrite Hlf.
  - rewrite entries_lookup, Hk by (by eapply set_ok_all). simpl. by rewrite Hb.
Qed.

Definition access_result (cp : cache_t) (ords : list (list nat)) (cmd : mem_cmd)
    (addr nbytes now : Z) (p : list Z) (w : W)
    (out : access_out) (cp' : cache_t) (w' : W) (ords' : list (list nat)) : Prop :=
  let i := Z.to_nat (CACHE_SET (conf cp) addr) in
  let es := set_entries cp ords i in
  match e_find (CACHE_TAG (conf cp) addr) es with
  | Some k => ∃ e b, es !! k = Some e ∧ w' = w ∧
      hit_result cp ords cmd addr nbytes now p i b k e out cp' ords'
  | None => ∃ k victim, es !! k = Some victim ∧
      (policy (conf cp) ≠ Random → S k = length es) ∧
      miss_result cp ords cmd addr nbytes now p w i k victim out cp' w' ords'
  end.

Lemma cache_access_spec cp ords cmd addr nbytes now p w :
  cache_ok ob ib cp ords → access_ok (conf cp) addr nbytes p →
  (last_blk cp ≠ None ∨ CACHE_TAGSET (conf cp) addr ≠ 0) →
  ∃ out cp' w' ords',
    cache_access blk_access_fn myrand cp cmd addr p nbytes now w = Ok (out, cp', w') ∧
    access_result cp ords cmd addr nbytes now p w out cp' w' ords'.
Proof.
  intros Hc Hac Hlast. pose proof (ck_conf _ _ _ _ Hc) as Hcf.
  pose proof (ac_addr _ _ _ _ Hac) as Ha.
  destruct (access_guards _ _ _ _ Hcf Hac) as [Hg1 Hg2].
  unfold cache_access, access_result. rewrite Hg1, Hg2. clear Hg1 Hg2.
  destruct (cache_set _ _ addr Hc (proj1 Ha)) as (s & order & Hi & Ho & Hs).
  assert (set_entries cp ords (Z.to_nat (CACHE_SET (conf cp) addr)) = entries s order) as Hse
    by (unfold set_entries; by rewrite Hi, Ho).
  rewrite Hse. case_bool_decide as Hfast.
  - destruct (last_blk cp) as [[i b]|] eqn:Hlb; last first.
    { exfalso. pose proof (ck_last _ _ _ _ Hc) as Hl. rewrite Hlb in Hl. destruct Hlast; congruence. }
    destruct (last_found _ _ _ _ _ Hc Ha Hlb (eq_sym Hfast))
      as (-> & s' & o' & blk & Hi' & Ho' & _ & Hb & Ht & Hv & Hp). simplify_eq.
    assert (found (blks s) (CACHE_TAG (conf cp) addr) (Some b)) as Hf
      by (apply match_at_Some; eauto).
    destruct (found_position _ _ _ _ _ Hs Hf) as (k & blk' & Hk & Hb' & _ & _ & Hef & Hent).
    simplify_eq. rewrite Hef.
    destruct (cache_fast_hit_spec cp ords cmd addr nbytes now p s order b k blk)
      as (out & cp' & ords' & Hrun & Hres); try done; [|apply Hac|].
    { intros Hpol. eapply (nodup_index order k 0); [apply Hs|done|by apply Hp]. }
    cbn [deref mbind result_bind]. rewrite Hrun. cbn [mbind result_bind].
    exists out, cp', w, ords'. split; [done|]. by exists (entry_of blk), b.
  - unfold vget. rewrite Hi. cbn [mbind result_bind].
    destruct (find_blk_spec _ _ _ _ _ (CACHE_TAG (conf cp) addr) Hcf Hs) as (o & Hfb & Hf);
      [by apply (tag_range _ _ _ Hcf)|].
    rewrite Hfb. cbn [mbind result_bind]. destruct o as [b|].
    + destruct (found_position _ _ _ _ _ Hs Hf) as (k & blk & Hk & Hb & Ht & Hv & Hef & Hent).
      rewrite Hef.
      destruct (cache_hit_spec cp ords cmd addr nbytes now p s order b k blk)
        as (out & cp' & ords' & Hrun & Hres); try done; [apply Hac|].
      rewrite Hrun. cbn [mbind result_bind].
      exists out, cp', w, ords'. split; [done|]. by exists (entry_of blk), b.
    + rewrite (found_find _ _ _ _ _ Hs Hf). simpl.
      destruct (cache_miss_spec cp ords cmd addr nbytes now p w s order)
        as (out & cp' & w' & ords' & k & v & Hrun & Hk & Hl & Hres); try done; [apply Hac|].
      exists out, cp', w', ords'. split; [done|]. rewrite Hse in Hk, Hl. by exists k, v.
Qed.

End Miss.
End Ok.
