(* ===== verification/CacheFlush.v ===== *)
(** * cache.c: probing and flushing

    [cache_probe] answers whether a valid entry has the tag; [cache_flush] and
    [cache_flush_addr] invalidate entries and keep the invariant. *)

From S2P Require Import Prelude Chains Misc Memory Cache CacheInv CacheSpec.

(** The status of an invalidated block. *)
Definition invalid_status (st : Z) : Z := Z.land st (u32 (Z.lnot CACHE_BLK_VALID)).

Lemma invalid_status_valid st : Z.land (invalid_status st) CACHE_BLK_VALID = 0.
Proof. unfold invalid_status. rewrite <- Z.land_assoc. apply Z.land_0_r. Qed.

(** What flushing does to an entry: a valid one becomes invalid, with the same
    tag; nothing else changes but the contents, if it was written back. *)
Definition flushed (e e' : entry) : Prop :=
  if e_valid e
  then e_tag e' = e_tag e ∧ e_status e' = invalid_status (e_status e) ∧
       e_ready e' = e_ready e ∧ length (e_data e') = length (e_data e) ∧
       (e_dirty e = false → e_data e' = e_data e ∧ e_udata e' = e_udata e)
  else e' = e.

Lemma flushed_invalid e e' : flushed e e' → e_valid e' = false.
Proof.
  unfold flushed. destruct (e_valid e) eqn:Hv; [|by intros ->].
  intros (_ & Hs & _). unfold e_valid. by rewrite Hs, invalid_status_valid.
Qed.

Section Flush.
Context (ob ib : Z) {W : Type}.
Context (blk_access_fn :
  mem_cmd → Z → Z → cache_blk_t → Z → W → Z * (option (list Z) * list Z) * W).
Context (fn_ok : handler_ok blk_access_fn).

Lemma cache_probe_spec cp ords addr :
  cache_ok ob ib cp ords → 0 ≤ addr < 2 ^ 32 →
  cache_probe cp addr = Ok (bool_decide (e_find (CACHE_TAG (conf cp) addr)
    (set_entries cp ords (Z.to_nat (CACHE_SET (conf cp) addr))) ≠ None)).
Proof.
  intros Hc Ha. pose proof (ck_conf _ _ _ _ Hc) as Hcf.
  destruct (cache_set _ _ _ _ addr Hc (proj1 Ha)) as (s & order & Hi & Ho & Hs).
  unfold cache_probe, vget, set_entries. rewrite Hi, Ho. cbn [mbind result_bind].
  destruct (find_blk_spec _ _ _ _ _ (CACHE_TAG (conf cp) addr) Hcf Hs) as (o & Hfb & Hf);
    [by apply (tag_range _ _ _ Hcf)|].
  rewrite Hfb. cbn [mbind result_bind]. do 2 f_equal. destruct o as [b|].
  - destruct (found_position _ _ _ _ _ Hs Hf) as (k & blk & _ & _ & _ & _ & -> & _).
    by rewrite !bool_decide_true.
  - rewrite (found_find _ _ _ _ _ Hs Hf). by rewrite !bool_decide_false by (simpl; tauto).
Qed.

(** One block. *)
Lemma flush_blk_spec cp set blk lat now w blk1 lat1 cp1 w1 :
  blk_valid blk = true →
  flush_blk blk_access_fn cp set blk lat now w = (blk1, lat1, cp1, w1) →
  same_links blk blk1 ∧ blk_valid blk1 = false ∧ length (data blk1) = length (data blk) ∧
  flushed (entry_of blk) (entry_of blk1) ∧
  conf cp1 = conf cp ∧ sets cp1 = sets cp ∧ last_blk cp1 = last_blk cp ∧
  last_tagset cp1 = last_tagset cp ∧ invalidations cp1 = i64 (invalidations cp + 1).
Proof.
  intros Hv. unfold flush_blk, flushed.
  change (e_valid (entry_of blk)) with (blk_valid blk). rewrite Hv.
  change (Z.land (status blk) (u32 (Z.lnot CACHE_BLK_VALID))) with (invalid_status (status blk)).
  set (b0 := set_status _ blk).
  assert (∀ b, status b = invalid_status (status blk) → blk_valid b = false) as Hi.
  { intros b Hb. unfold blk_valid. by rewrite Hb, invalid_status_valid. }
  assert (blk_dirty b0 = e_dirty (entry_of blk)) as Hd.
  { unfold blk_dirty, e_dirty. do 2 f_equal. apply bool_decide_ext.
    change (status b0) with (invalid_status (status blk)). change (e_status _) with (status blk).
    unfold invalid_status. by rewrite <- Z.land_assoc. }
  destruct (blk_dirty b0) eqn:Hbd.
  - destruct (blk_access_fn _ _ _ _ _ _) as [[l c] w'] eqn:Hfn. intros [= <- <- <- <-].
    pose proof (fn_ok _ _ _ _ _ _ _ _ _ Hfn) as Hl.
    split_and!; try done; [by apply Hi|]. by rewrite <- Hd.
  - intros [= <- <- <- <-]. split_and!; try done. by apply Hi.
Qed.

Definition valid_count (es : list entry) : Z :=
  Z.of_nat (length (base.filter (λ e, e_valid e = true) es)).

Lemma valid_count_cons e es :
  valid_count (e :: es) = (if e_valid e then 1 else 0) + valid_count es.
Proof.
  unfold valid_count. destruct (e_valid e) eqn:Hv.
  - rewrite filter_cons_True by done. simpl length. lia.
  - rewrite filter_cons_False by congruence. lia.
Qed.

Lemma wn_of_block (l : list cache_blk_t) b blk blk1 c :
  l !! b = Some blk → way_next blk1 = way_next blk →
  wn_of (alter (λ _, blk1) b l) c = wn_of l c.
Proof.
  intros Hb Hn. unfold wn_of. rewrite (blk_alter _ _ _ _ _ Hb). case_decide; [|done].
  subst. by rewrite Hb.
Qed.

(** The loop over one way list, from block [p] on. *)
Lemma flush_ways_spec i order bs fuel cp p lat now w s :
  sets cp !! i = Some s → set_ok (conf cp) s order →
  chain (wn_of (blks s)) p bs → NoDup bs → (length bs ≤ fuel)%nat →
  (∀ b, b ∈ bs → (b < length (blks s))%nat) →
  ∃ lat' cp' w' s',
    flush_ways blk_access_fn fuel cp i p lat now w = Ok (lat', cp', w') ∧
    conf cp' = conf cp ∧ last_blk cp' = last_blk cp ∧ last_tagset cp' = last_tagset cp ∧
    sets cp' = <[i := s']> (sets cp) ∧ set_ok (conf cp) s' order ∧
    (∀ b, b ∉ bs → blks s' !! b = blks s !! b) ∧
    (∀ b blk, b ∈ bs → blks s !! b = Some blk →
       ∃ blk', blks s' !! b = Some blk' ∧ flushed (entry_of blk) (entry_of blk')) ∧
    i64 (invalidations cp') = i64 (invalidations cp + valid_count (entries s bs)).
Proof.
  revert fuel cp p lat w s. induction bs as [|b bs IH]; intros fuel cp p lat w s Hi Hs Hch Hnd Hf Hlt.
  { simpl in Hch. subst p. exists lat, cp, w, s.
    split_and!; [by destruct fuel|done..|by rewrite list_insert_id|done|done|set_solver|].
    by rewrite Z.add_0_r. }
  destruct Hch as [-> Hch]. apply NoDup_cons in Hnd as [Hbn Hnd].
  destruct (lookup_lt_is_Some_2 (blks s) b) as [blk Hb]; [apply Hlt; by left|].
  assert (wn_of (blks s) b = way_next blk) as Hwn by (unfold wn_of; by rewrite Hb).
  rewrite Hwn in Hch. destruct fuel as [|fuel]; [simpl in Hf; lia|]. simpl in Hf.
  assert (entries s (b :: bs) = entry_of blk :: entries s bs) as Hes.
  { unfold entries. cbn [omap list_omap]. by rewrite Hb. }
  cbn [flush_ways]. unfold vget. rewrite Hi. cbn [mbind result_bind]. rewrite Hb.
  cbn [mbind result_bind]. rewrite Hes, valid_count_cons.
  change (e_valid (entry_of blk)) with (blk_valid blk).
  destruct (blk_valid blk) eqn:Hv.
  - destruct (flush_blk _ _ _ _ _ _ _) as [[[blk1 lat1] cp1] w1] eqn:Hfl.
    apply flush_blk_spec in Hfl as (Hl & Hv1 & Hd & Hfd & Hcf1 & Hst1 & Hlb1 & Hlt1 & Hin1); [|done].
    rewrite upd_blk_Ok by by eapply lookup_lt_Some. cbn [mbind result_bind].
    set (s1 := with_blks s (alter (λ _, blk1) b (blks s))).
    rewrite (put_set_Ok cp1 i s) by by rewrite Hst1. cbn [mbind result_bind].
    assert (set_ok (conf cp) s1 order) as Hs1
      by (eapply set_ok_block; [done|done|done|by rewrite Hv1|done]).
    assert (i < length (sets cp))%nat as Hil by by eapply lookup_lt_Some.
    destruct (IH fuel (set_sets cp1 (<[i := s1]> (sets cp1))) (way_next blk) lat1 w1 s1)
      as (lat' & cp' & w' & s' & Hrun & Hcf & Hlb & Hlst & Hsets & Hs' & Hout & Hin & Hcnt);
      cbn [sets set_sets conf]; rewrite ?Hcf1, ?Hst1; try done; try lia.
    + by rewrite list_lookup_insert_eq.
    + eapply chain_ext; [|exact Hch]. intros c _. unfold s1. cbn [blks with_blks].
      by apply (wn_of_block _ _ blk); [|apply Hl].
    + intros c Hc. unfold s1. cbn [blks with_blks]. rewrite length_alter. apply Hlt. by right.
    + cbn [sets set_sets conf last_blk last_tagset invalidations] in *.
      rewrite Hst1 in Hsets, Hrun. rewrite Hcf1 in Hcf, Hs'.
      exists lat', cp', w', s'. split; [exact Hrun|].
      assert (∀ c, c ≠ b → blks s1 !! c = blks s !! c) as Hne.
      { intros c Hc. unfold s1. cbn [blks with_blks].
        by rewrite (blk_alter _ _ _ _ _ Hb), decide_False. }
      split_and!; [done|congruence|congruence| |done|..].
      * by rewrite Hsets, list_insert_insert_eq.
      * intros c Hc. apply not_elem_of_cons in Hc as [Hcb Hc]. by rewrite Hout, Hne.
      * intros c x [->|Hc]%elem_of_cons Hx.
        -- simplify_eq. exists blk1. split; [|done]. rewrite Hout by done. unfold s1.
           cbn [blks with_blks]. by rewrite (blk_alter _ _ _ _ _ Hb), decide_True.
        -- apply Hin; [done|]. rewrite Hne; [done|]. by intros ->.
      * rewrite Hcnt, Hin1, i64_add_l.
        replace (entries s1 bs) with (entries s bs); [f_equal; lia|].
        symmetry. apply entries_same. intros c Hc. rewrite Hne; [done|]. by intros ->.
  - destruct (IH fuel cp (way_next blk) lat w s)
      as (lat' & cp' & w' & s' & Hrun & Hcf & Hlb & Hlst & Hsets & Hs' & Hout & Hin & Hcnt);
      try done; [lia|intros c Hc; apply Hlt; by right|].
    exists lat', cp', w', s'. split; [exact Hrun|]. split_and!; try done.
    + intros c Hc. apply not_elem_of_cons in Hc as [_ Hc]. by apply Hout.
    + intros c x [->|Hc]%elem_of_cons Hx; [|by apply Hin]. simplify_eq.
      exists blk. split; [by rewrite Hout|]. unfold flushed.
      change (e_valid (entry_of blk)) with (blk_valid blk). by rewrite Hv.
Qed.
Lemma flushed_entries s s' order :
  (∀ b, b ∈ order → (b < length (blks s))%nat) →
  (∀ b blk, b ∈ order → blks s !! b = Some blk →
     ∃ blk', blks s' !! b = Some blk' ∧ flushed (entry_of blk) (entry_of blk')) →
  Forall2 flushed (entries s order) (entries s' order).
Proof.
  unfold entries. induction order as [|b order IH]; intros Hlt Hfl; [constructor|].
  destruct (lookup_lt_is_Some_2 (blks s) b) as [blk Hb]; [apply Hlt; by left|].
  destruct (Hfl b blk) as (blk' & Hb' & Hf); [by left|done|].
  cbn [omap list_omap]. rewrite Hb, Hb'. simpl. constructor; [done|].
  apply IH; intros; [apply Hlt|apply Hfl]; by (done || right).
Qed.

(** Number of valid entries in some sets. *)
Fixpoint valid_total (cp : cache_t) (ords : list (list nat)) (idxs : list nat) : Z :=
  match idxs with
  | [] => 0
  | i :: idxs => valid_count (set_entries cp ords i) + valid_total cp ords idxs
  end.

Lemma valid_total_ext cp cp' ords idxs :
  (∀ i, i ∈ idxs → set_entries cp' ords i = set_entries cp ords i) →
  valid_total cp' ords idxs = valid_total cp ords idxs.
Proof.
  induction idxs as [|i idxs IH]; intros H; [done|]. simpl.
  rewrite H by (by left). rewrite IH; [done|]. intros j Hj. apply H. by right.
Qed.

Lemma flush_sets_spec idxs cp ords lat now w :
  cache_ok ob ib cp ords → last_blk cp = None → NoDup idxs →
  (∀ i, i ∈ idxs → (i < length (sets cp))%nat) →
  ∃ lat' cp' w', flush_sets blk_access_fn idxs cp lat now w = Ok (lat', cp', w') ∧
    cache_ok ob ib cp' ords ∧ conf cp' = conf cp ∧
    (∀ i, i ∈ idxs → Forall2 flushed (set_entries cp ords i) (set_entries cp' ords i)) ∧
    (∀ i, i ∉ idxs → set_entries cp' ords i = set_entries cp ords i) ∧
    i64 (invalidations cp') = i64 (invalidations cp + valid_total cp ords idxs).
Proof.
  revert cp lat w. induction idxs as [|i idxs IH]; intros cp lat w Hc Hlb Hnd Hlt.
  { exists lat, cp, w. split_and!; [done..|set_solver|done|]. by rewrite Z.add_0_r. }
  apply NoDup_cons in Hnd as [Hni Hnd].
  destruct (lookup_lt_is_Some_2 (sets cp) i) as [s Hi]; [apply Hlt; by left|].
  destruct (lookup_lt_is_Some_2 ords i) as [order Ho].
  { rewrite (ck_ords _ _ _ _ Hc). apply Hlt. by left. }
  pose proof (ck_sets _ _ _ _ Hc i s order Hi Ho) as Hs.
  pose proof (set_ok_all _ _ _ Hs) as Hall.
  destruct (flush_ways_spec i order order (length (blks s)) cp (way_head s) lat now w s)
    as (lat1 & cp1 & w1 & s1 & Hrun & Hcf & Hlb1 & Hlt1 & Hsets & Hs1 & _ & Hin & Hcnt); try done.
  { apply chain_ways, Hs. }
  { apply Hs. }
  { apply nodup_lt_length; [apply Hs|by apply Forall_forall]. }
  assert (set_entries cp ords i = entries s order) as Hse
    by (unfold set_entries; by rewrite Hi, Ho).
  destruct (cache_ok_put _ _ cp cp1 ords i s s1 order Hc) as (Hc1 & He1 & Hne1); try done.
  { rewrite Hlb1, Hlb. pose proof (ck_last _ _ _ _ Hc) as Hl. rewrite Hlb in Hl. congruence. }
  rewrite list_insert_id in Hc1, Hne1 by done. rewrite list_insert_id in He1 by done.
  cbn [flush_sets]. unfold vget. rewrite Hi. cbn [mbind result_bind]. rewrite Hrun.
  cbn [mbind result_bind].
  destruct (IH cp1 lat1 w1) as (lat' & cp' & w' & Hrun' & Hc' & Hcf' & Hin' & Hout' & Hcnt');
    try done; [congruence| |].
  { intros j Hj. rewrite Hsets, length_insert. apply Hlt. by right. }
  exists lat', cp', w'. split_and!; [done|done|congruence|..].
  - intros j [->|Hj]%elem_of_cons.
    + rewrite Hout', He1, Hse by done. by apply flushed_entries.
    + rewrite <- Hne1; [by apply Hin'|]. by intros ->.
  - intros j Hj. apply not_elem_of_cons in Hj as [Hji Hj]. by rewrite Hout', Hne1.
  - rewrite Hcnt', <- i64_add_l, Hcnt, i64_add_l. cbn [valid_total]. rewrite Hse.
    rewrite (valid_total_ext cp cp1); [f_equal; lia|]. intros j Hj. apply Hne1. by intros ->.
Qed.

Lemma cache_ok_forget cp ords : cache_ok ob ib cp ords → cache_ok ob ib (set_last cp 0 None) ords.
Proof. intros [? ? ? ? ?]. by split. Qed.

Lemma cache_flush_spec cp ords now w :
  cache_ok ob ib cp ords →
  ∃ lat cp' w', cache_flush blk_access_fn cp now w = Ok (lat, cp', w') ∧
    cache_ok ob ib cp' ords ∧ conf cp' = conf cp ∧
    (∀ i, Forall2 flushed (set_entries cp ords i) (set_entries cp' ords i)) ∧
    i64 (invalidations cp')
    = i64 (invalidations cp + valid_total cp ords (seq 0 (length (sets cp)))).
Proof.
  intros Hc. unfold cache_flush. pose proof (ck_conf _ _ _ _ Hc) as Hcf.
  rewrite (cf_nsets _ _ _ Hcf), <- (ck_len _ _ _ _ Hc).
  destruct (flush_sets_spec (seq 0 (length (sets cp))) (set_last cp 0 None) ords
      (i32 (hit_latency (conf cp))) now w)
    as (lat & cp' & w' & Hrun & Hc' & Hcf' & Hin & Hout & Hcnt);
    [by apply cache_ok_forget|done|apply NoDup_seq|by intros i ?%elem_of_seq; simpl; lia|].
  rewrite Hrun. cbn [mbind result_bind]. exists (u32 lat), cp', w'. split_and!; try done;
    [|by rewrite Hcnt, (valid_total_ext cp)].
  intros i. destruct (decide (i ∈ seq 0 (length (sets cp)))) as [Hi|Hi]; [by apply Hin|].
  rewrite Hout by done. unfold set_entries. cbn [sets set_last].
  rewrite lookup_ge_None_2; [done|]. rewrite elem_of_seq in Hi. lia.
Qed.

(** [cache_flush_addr] moves the entry to the end, where it is replaced first. *)
Lemma cache_flush_addr_spec cp ords addr now w :
  cache_ok ob ib cp ords → 0 ≤ addr < 2 ^ 32 →
  let i := Z.to_nat (CACHE_SET (conf cp) addr) in
  let es := set_entries cp ords i in
  ∃ lat cp' w' ords', cache_flush_addr blk_access_fn cp addr now w = Ok (lat, cp', w') ∧
    cache_ok ob ib cp' ords' ∧ conf cp' = conf cp ∧
    (∀ j, j ≠ i → set_entries cp' ords' j = set_entries cp ords j) ∧
    match e_find (CACHE_TAG (conf cp) addr) es with
    | Some k => ∃ e e', es !! k = Some e ∧ flushed e e' ∧
        set_entries cp' ords' i = delete k es ++ [e'] ∧
        invalidations cp' = i64 (invalidations cp + 1)
    | None => cp' = cp ∧ ords' = ords ∧ w' = w
    end.
Proof.
  intros Hc Ha i es. pose proof (ck_conf _ _ _ _ Hc) as Hcf.
  destruct (cache_set _ _ _ _ addr Hc (proj1 Ha)) as (s & order & Hi & Ho & Hs).
  assert (es = entries s order) as -> by (unfold es, set_entries; unfold i; by rewrite Hi, Ho).
  unfold cache_flush_addr, vget. rewrite Hi. cbn [mbind result_bind].
  destruct (find_blk_spec _ _ _ _ _ (CACHE_TAG (conf cp) addr) Hcf Hs) as (o & Hfb & Hf);
    [by apply (tag_range _ _ _ Hcf)|].
  rewrite Hfb. cbn [mbind result_bind]. destruct o as [b|]; last first.
  { rewrite (found_find _ _ _ _ _ Hs Hf). simpl. eexists _, cp, w, ords. by split_and!. }
  destruct (found_position _ _ _ _ _ Hs Hf) as (k & blk & Hk & Hb & Ht & Hv & -> & He).
  rewrite Hb. cbn [mbind result_bind].
  destruct (flush_blk _ _ _ _ _ _ _) as [[[blk1 lat1] cp1] w1] eqn:Hfl.
  apply flush_blk_spec in Hfl as (Hl & Hv1 & Hd & Hfd & Hcf1 & Hst1 & Hlb1 & Hlt1 & Hin1); [|done].
  rewrite upd_blk_Ok by by eapply lookup_lt_Some. cbn [mbind result_bind].
  set (s1 := with_blks s (alter (λ _, blk1) b (blks s))).
  assert (set_ok (conf cp) s1 order) as Hs1
    by (eapply set_ok_block; [done|done|done|by rewrite Hv1|done]).
  assert (blks s1 !! b = Some blk1) as Hb1.
  { unfold s1. cbn [blks with_blks]. by rewrite (blk_alter _ _ _ _ _ Hb), decide_True. }
  destruct (update_way_list_tail s1 order k b (so_ways _ _ _ Hs1) Hk) as (s2 & Hup & Hpl & Hw2).
  rewrite Hup. cbn [mbind result_bind].
  rewrite (put_set_Ok cp1 _ s) by by rewrite Hst1. cbn [mbind result_bind].
  set (order' := delete k order ++ [b]).
  destruct (cache_ok_put _ _ cp (set_sets cp1 (<[i := s2]> (sets cp1))) ords i s s2 order' Hc)
    as (H1 & H2 & H3); try done.
  { cbn [sets set_sets]. by rewrite Hst1. }
  { by eapply set_ok_reorder. }
  { cbn [last_blk last_tagset set_sets]. by rewrite Hlb1, Hlt1. }
  eexists _, _, _, (<[i := order']> ords). split; [reflexivity|]. split_and!; [done..|].
  exists (entry_of blk), (entry_of blk1). split_and!; try done. etrans; [exact H2|].
  unfold order'. rewrite (payload_entries _ _ _ Hpl).
  rewrite (entries_move_last s1 order k b blk1 (set_ok_all _ _ _ Hs1) Hk Hb1).
  f_equal. unfold s1. rewrite (entries_alter s order k b blk); try done; [|apply Hs|by eapply set_ok_all].
  apply delete_insert_same.
Qed.
End Flush.
