(* ===== verification/CacheCreate.v ===== *)
(** * cache.c: creating a cache

    [cache_create] derives the geometry and builds sets whose blocks are all
    invalid, linked in one way list and hashed in their chains. *)

From Stdlib Require Import Ascii.
From S2P Require Import Prelude Chains Misc Memory Cache CacheInv CacheSpec.

(** Linking a new block in front of a way list. *)
Lemma links_push wn wp wn' wp' order j :
  NoDup order → j ∉ order → links wn wp order →
  (∀ c, wn' c = if decide (c = j) then head order else wn c) →
  (∀ c, wp' c = if decide (c = j) then None
                else if decide (head order = Some c) then Some j else wp c) →
  links wn' wp' (j :: order).
Proof.
  intros Hnd Hj Hl Hwn Hwp k b Hk. destruct k as [|k]; simpl in Hk |- *.
  - injection Hk as <-. rewrite Hwn, Hwp, !decide_True by done. by rewrite head_lookup.
  - destruct (Hl k b Hk) as [Hn Hp]. rewrite Hwn, Hwp.
    rewrite !(decide_False (P := b = j)) by (intros ->; by apply Hj, list_elem_of_lookup_2 with k).
    split; [done|]. rewrite head_lookup. destruct k as [|k].
    + by rewrite decide_True.
    + rewrite decide_False; [done|]. intros H0.
      pose proof (nodup_index _ _ _ _ Hnd Hk H0). lia.
Qed.

Lemma hash_rep_payload hsize s s' D :
  same_payload s s' → hash_rep hsize s D → hash_rep hsize s' D.
Proof.
  intros [Hh Hp] Hr idx Hi. destruct (Hr idx Hi) as (h & bs & Hh0 & Hc & Hnd & Hm).
  assert (∀ b, payload <$> blks s' !! b = payload <$> blks s !! b) as Hb.
  { intros b. rewrite <- !list_lookup_fmap. by rewrite Hp. }
  assert (∀ b idx, (∃ blk, blks s' !! b = Some blk ∧ bucket hsize blk = idx) ↔
                   (∃ blk, blks s !! b = Some blk ∧ bucket hsize blk = idx)) as Hbk.
  { intros b idx'. specialize (Hb b). unfold bucket.
    destruct (blks s !! b) as [x|], (blks s' !! b) as [y|]; try done.
    assert (tag y = tag x) as Ht by (unfold payload in Hb; simpl in Hb; congruence).
    split; intros (z & [= <-] & <-); eexists; (split; [reflexivity|]); by rewrite Ht. }
  exists h, bs. split_and!; [by rewrite Hh| |done|].
  - eapply chain_ext; [|exact Hc]. intros b _. unfold hn_of. specialize (Hb b).
    destruct (blks s !! b), (blks s' !! b); try done. unfold payload in Hb. simpl in *. congruence.
  - intros b. by rewrite Hm, Hbk.
Qed.

(** The blocks of a set under construction, of which the first [j] are linked. *)
Record built (hs : Z) (n : nat) (e0 : entry) (s : cache_set_t) (j : nat) : Prop := {
  bu_len : length (blks s) = n;
  bu_blks : ∀ b blk, blks s !! b = Some blk → entry_of blk = e0;
  bu_head : way_head s = head (reverse (seq 0 j));
  bu_tail : way_tail s = last (reverse (seq 0 j));
  bu_links : links (wn_of (blks s)) (wp_of (blks s)) (reverse (seq 0 j));
  bu_hash : hs ≠ 0 → hash_rep hs s (λ c, c < j)%nat
}.

Lemma reverse_seq_S j : reverse (seq 0 (S j)) = j :: reverse (seq 0 j).
Proof. by rewrite seq_S, reverse_snoc. Qed.

Lemma elem_reverse_seq j b : b ∈ reverse (seq 0 j) ↔ (b < j)%nat.
Proof. rewrite elem_of_reverse, elem_of_seq. lia. Qed.

Lemma NoDup_reverse_seq j : NoDup (reverse (seq 0 j)).
Proof. rewrite reverse_Permutation. apply NoDup_seq. Qed.

(** The block changes of linking block [j] in front of [h]. *)
Definition pushed (s : cache_set_t) (j : nat) (h : option nat) : list cache_blk_t :=
  let l := alter (set_way_prev None) j (alter (set_way_next h) j (blks s)) in
  match h with Some b => alter (set_way_prev (Some j)) b l | None => l end.

Lemma create_ways s j :
  (j < length (blks s))%nat → (∀ b, way_head s = Some b → (b < length (blks s))%nat) →
  (s2 ← upd_blk s (Some j) (set_way_next (way_head s));
   s3 ← upd_blk s2 (Some j) (set_way_prev None);
   s4 ← (match way_head s3 with
         | Some h => upd_blk s3 (Some h) (set_way_prev (Some j))
         | None => Ok s3
         end);
   let s5 := with_head s4 (Some j) in
   Ok (match way_tail s5 with None => with_tail s5 (Some j) | Some _ => s5 end))
  = Ok (mkSet (hash s) (Some j)
          (match way_tail s with None => Some j | Some t => Some t end)
          (pushed s j (way_head s))).
Proof.
  intros Hj Hh. rewrite upd_blk_Ok by done. cbn [mbind result_bind].
  rewrite upd_blk_Ok by (cbn [blks with_blks]; by rewrite length_alter).
  cbn [mbind result_bind way_head with_blks]. unfold pushed.
  destruct (way_head s) as [b|] eqn:Hb.
  - rewrite upd_blk_Ok by (cbn [blks with_blks]; rewrite !length_alter; by apply Hh).
    simpl. destruct (way_tail s) eqn:Ht; [|done].
    unfold with_head, with_blks. simpl. by rewrite Ht.
  - simpl. destruct (way_tail s) eqn:Ht; [|done].
    unfold with_head, with_blks. simpl. by rewrite Ht.
Qed.

Lemma pushed_payload s j h : payload <$> pushed s j h = payload <$> blks s.
Proof. unfold pushed. destruct h; by rewrite ?payload_set_prev, payload_set_next. Qed.

Lemma pushed_wn s j h c : (j < length (blks s))%nat →
  wn_of (pushed s j h) c = if decide (c = j) then h else wn_of (blks s) c.
Proof.
  intros Hj. unfold pushed. destruct h; by rewrite ?wn_set_prev, wn_set_next.
Qed.

Lemma pushed_wp s j h c : (j < length (blks s))%nat →
  (∀ b, h = Some b → (b < length (blks s))%nat ∧ b ≠ j) →
  wp_of (pushed s j h) c = if decide (c = j) then None
                           else if decide (h = Some c) then Some j else wp_of (blks s) c.
Proof.
  intros Hj Hh. unfold pushed. destruct h as [b|].
  - destruct (Hh b eq_refl) as [Hb Hbj]. rewrite wp_set_prev by (by rewrite !length_alter).
    rewrite wp_set_prev by (by rewrite length_alter). rewrite wp_set_next.
    destruct (decide (c = b)) as [->|Hcb].
    + by rewrite decide_False, decide_True.
    + destruct (decide (c = j)); [done|]. rewrite decide_False; [done|congruence].
  - rewrite wp_set_prev by (by rewrite length_alter). by rewrite wp_set_next.
Qed.

(** One iteration of the inner loop. *)
Lemma create_blk_spec hs n e0 s j :
  (hs ≠ 0 → 0 < hs < 2 ^ 32) → 0 ≤ e_tag e0 → built hs n e0 s j → (j < n)%nat →
  ∃ s', create_blk hs s j = Ok s' ∧ built hs n e0 s' (S j).
Proof.
  intros Hhs Ht [Hl Hb Hhd Htl Hlk Hh] Hj.
  assert (∃ s1, (if bool_decide (hs ≠ 0) then link_htab_ent hs s j else Ok s) = Ok s1 ∧
    same_rest s s1 ∧ (hs ≠ 0 → hash_rep hs s1 (λ c, c < S j)%nat)) as (s1 & H1 & Hr & Hh1).
  { destruct (decide (hs = 0)) as [->|H0]; [by exists s|]. rewrite bool_decide_true by done.
    destruct (lookup_lt_is_Some_2 (blks s) j) as [blk Hblk]; [lia|].
    destruct (link_htab_spec hs s (λ c, c < j)%nat j blk) as (s1 & Hs1 & Hr & Hrep);
      [by apply Hh|lia|done| |].
    - apply bucket_lt; [by apply Hhs|]. pose proof (Hb j blk Hblk) as He.
      by rewrite <- He in Ht.
    - exists s1. split_and!; [done..|]. intros _. eapply hash_rep_ext; [|exact Hrep].
      intros c. simpl. lia. }
  unfold create_blk. rewrite H1. cbn [mbind result_bind].
  destruct Hr as (Hhd1 & Htl1 & Hr).
  assert (length (blks s1) = n) as Hl1.
  { apply (f_equal length) in Hr. rewrite !length_fmap in Hr. lia. }
  assert (∀ b blk, blks s1 !! b = Some blk → ∃ x, blks s !! b = Some x ∧ rest blk = rest x) as Hrl
    by (intros b blk Hblk; destruct (rest_lookup _ _ _ _ Hr Hblk) as (x & ? & ?); eauto).
  assert (∀ b, way_head s1 = Some b → (b < j)%nat) as Hhb.
  { intros b. rewrite Hhd1, Hhd, head_lookup. intros H%list_elem_of_lookup_2.
    by apply elem_reverse_seq in H. }
  rewrite create_ways by (intros; try specialize (Hhb _ ltac:(eassumption)); lia).
  eexists. split; [reflexivity|].
  assert (∀ c, wn_of (blks s1) c = wn_of (blks s) c ∧ wp_of (blks s1) c = wp_of (blks s) c)
    as Hw by (intros c; by apply rest_ways).
  assert (length (pushed s1 j (way_head s1)) = n) as Hpl.
  { pose proof (f_equal length (pushed_payload s1 j (way_head s1))) as H.
    rewrite !length_fmap in H. lia. }
  split; cbn [blks way_head way_tail hash].
  - done.
  - intros b blk Hblk. pose proof (f_equal (.!! b) (pushed_payload s1 j (way_head s1))) as H.
    rewrite !list_lookup_fmap, Hblk in H. destruct (blks s1 !! b) as [y|] eqn:Hy; [|done].
    destruct (Hrl b y Hy) as (x & Hx & He). rewrite <- (Hb b x Hx).
    unfold payload in H. unfold rest in He. unfold entry_of. simpl in H. congruence.
  - by rewrite reverse_seq_S.
  - rewrite reverse_seq_S, Htl1, Htl. destruct (reverse (seq 0 j)) as [|y l] eqn:E; [done|].
    cbn [last]. destruct (last (y :: l)) eqn:E'; [done|]. by apply last_None in E'.
  - rewrite reverse_seq_S. eapply (links_push _ _ _ _ _ j _ _ Hlk).
    + intros c. rewrite pushed_wn by lia. by rewrite Hhd1, Hhd, (proj1 (Hw c)).
    + intros c. rewrite pushed_wp; [by rewrite Hhd1, Hhd, (proj2 (Hw c))|lia|].
      intros b Hbh. specialize (Hhb b Hbh). lia.
    Unshelve. all: [> apply NoDup_reverse_seq | rewrite elem_reverse_seq; lia].
  - intros H0. eapply hash_rep_payload; [|by apply Hh1]. split; [done|]. apply pushed_payload.
Qed.

Lemma create_blks_spec hs n e0 js j s :
  (hs ≠ 0 → 0 < hs < 2 ^ 32) → 0 ≤ e_tag e0 → built hs n e0 s j →
  js = seq j (length js) → (j + length js ≤ n)%nat →
  ∃ s', create_blks hs js s = Ok s' ∧ built hs n e0 s' (j + length js).
Proof.
  intros Hhs Ht. revert j s. induction js as [|x js IH]; intros j s Hb Hjs Hn.
  - exists s. split; [done|]. by rewrite Nat.add_0_r.
  - simpl in Hjs, Hn. injection Hjs as -> Hjs.
    destruct (create_blk_spec hs n e0 s j Hhs Ht Hb) as (s1 & H1 & Hb1); [lia|].
    destruct (IH (S j) s1 Hb1 Hjs) as (s' & H2 & Hb'); [lia|]. exists s'.
    cbn [create_blks]. rewrite H1. cbn [mbind result_bind]. split; [done|].
    simpl. by rewrite Nat.add_succ_r.
Qed.

(** The entry of a block that [calloc] zeroed and the code invalidated. *)
Definition empty_entry (cf : cache_conf) : entry :=
  mkEntry 0 0 0
    (if bool_decide (usize cf ≠ 0) then Some (replicate (Z.to_nat (usize cf)) 0) else None)
    (if balloc cf then replicate (Z.to_nat (bsize cf)) 0 else []).

(** The way list of a new set: the last block first. *)
Definition new_order (cf : cache_conf) : list nat := reverse (seq 0 (Z.to_nat (assoc cf))).

Lemma built_start hs n e0 s :
  way_head s = None → way_tail s = None → hash s = replicate (Z.to_nat hs) None →
  length (blks s) = n → (∀ b blk, blks s !! b = Some blk → entry_of blk = e0) →
  built hs n e0 s 0.
Proof.
  intros Hh Ht Hs Hn Hb. split; [done..| |].
  - intros k b Hk. by destruct k.
  - intros _ idx Hi. exists None, []. rewrite Hs. split_and!;
      [by apply lookup_replicate_2|done|constructor|].
    intros b. split; [set_solver|lia].
Qed.

Lemma create_set_spec cf ob ib :
  conf_ok cf ob ib →
  ∃ s, create_set cf = Ok s ∧
    built (hsize cf) (Z.to_nat (assoc cf)) (empty_entry cf) s (Z.to_nat (assoc cf)).
Proof.
  intros Hcf. unfold create_set. set (s0 := mkSet _ _ _ _).
  destruct (create_blks_spec (hsize cf) (Z.to_nat (assoc cf)) (empty_entry cf)
    (seq 0 (Z.to_nat (assoc cf))) 0 s0) as (s & Hs & Hb); rewrite ?length_seq; try done.
  - by apply (hsize_range _ _ _ Hcf).
  - apply built_start; [done..|apply length_replicate|].
    intros b blk. cbn [blks s0]. intros [-> _]%lookup_replicate. done.
  - exists s. by rewrite length_seq in Hb.
Qed.

Lemma empty_invalid blk cf : entry_of blk = empty_entry cf → blk_valid blk = false.
Proof. intros He. apply (f_equal e_status) in He. unfold blk_valid. simpl in He. by rewrite He. Qed.

Lemma built_set_ok cf ob ib s :
  conf_ok cf ob ib →
  built (hsize cf) (Z.to_nat (assoc cf)) (empty_entry cf) s (Z.to_nat (assoc cf)) →
  set_ok cf s (new_order cf).
Proof.
  intros Hcf [Hl Hb Hh Ht Hlk Hhash]. unfold new_order.
  assert (∀ b t, match_at (blks s) t b = false) as Hm.
  { intros b t. apply not_true_is_false. intros (blk & Hbl & _ & Hv)%match_at_Some.
    by rewrite (empty_invalid _ _ (Hb b blk Hbl)) in Hv. }
  split.
  - split; try done; [apply NoDup_reverse_seq|].
    intros b. by rewrite elem_reverse_seq, Hl.
  - done.
  - intros H0 idx Hi. destruct (Hhash H0 idx Hi) as (h & bs & ? & ? & ? & Hbs).
    exists h, bs. split_and!; [done..|]. intros b. rewrite Hbs.
    split; [by intros [_ ?]|intros [_ (x & Hx & Hk)]; split; [|eauto]].
    rewrite <- Hl. by eapply lookup_lt_Some.
  - intros b b' t. by rewrite Hm.
  - intros b blk Hbl. apply Hb, (f_equal e_tag) in Hbl. simpl in Hbl. rewrite Hbl.
    pose proof (cf_room _ _ _ Hcf). rewrite (cf_tag_shift _ _ _ Hcf). lia.
  - intros b blk Hbl Hba. apply Hb, (f_equal e_data) in Hbl. simpl in Hbl. rewrite Hbl, Hba.
    rewrite length_replicate, (cf_bsize _ _ _ Hcf). pose proof (cf_ob _ _ _ Hcf). lia.
Qed.

(** The checks of [cache_create] on good parameters. *)
Lemma cache_create_run ob ib ba us k pol lat :
  3 ≤ ob → 0 ≤ ib → ob + ib < 32 → 0 ≤ us → 0 ≤ k → ib + k < 31 → 0 ≤ lat < 2 ^ 31 →
  ∃ cf, conf_ok cf ob ib ∧ balloc cf = ba ∧ usize cf = us ∧ assoc cf = 2 ^ k ∧
    policy cf = pol ∧ hit_latency cf = lat ∧
    cache_create (2 ^ ib) (2 ^ ob) ba us (2 ^ k) pol lat
    = (s ← create_set cf;
       Ok (mkCache cf 0 0 0 0 0 0 0 None (replicate (Z.to_nat (2 ^ ib)) s))).
Proof.
  intros Hob Hib Hr Hus Hk Hik Hlat.
  assert (2 ^ 3 ≤ 2 ^ ob) by (apply Z.pow_le_mono_r; lia).
  assert (2 ^ ib * 2 ^ k < 2 ^ 31) by (rewrite <- Z.pow_add_r by lia; apply Z.pow_lt_mono_r; lia).
  pose proof (Z.pow_pos_nonneg 2 ib). pose proof (Z.pow_pos_nonneg 2 k).
  eexists. split; [|split_and!; [..|unfold cache_create;
    rewrite !bool_decide_false by (rewrite ?land_pred_pow2 by lia; lia);
    rewrite !log_base2_pow2 by lia; cbn [mbind result_bind];
    rewrite !bool_decide_false by lia; reflexivity]; done].
  split; try done; cbn; try lia. exists k. split; [lia|done].
Qed.

(** Every created cache satisfies the invariant, and is empty. *)
Lemma cache_create_spec ob ib ba us k pol lat :
  3 ≤ ob → 0 ≤ ib → ob + ib < 32 → 0 ≤ us → 0 ≤ k → ib + k < 31 → 0 ≤ lat < 2 ^ 31 →
  ∃ cp ords, cache_create (2 ^ ib) (2 ^ ob) ba us (2 ^ k) pol lat = Ok cp ∧
    cache_ok ob ib cp ords ∧
    balloc (conf cp) = ba ∧ usize (conf cp) = us ∧ assoc (conf cp) = 2 ^ k ∧
    policy (conf cp) = pol ∧ hit_latency (conf cp) = lat ∧
    last_blk cp = None ∧ last_tagset cp = 0 ∧ counters cp = (0, 0, 0, 0, 0) ∧
    ∀ i e, e ∈ set_entries cp ords i → e = empty_entry (conf cp).
Proof.
  intros Hob Hib Hr Hus Hk Hik Hlat.
  destruct (cache_create_run ob ib ba us k pol lat) as
    (cf & Hcf & Hba & Hu & Has & Hp & Hl & Hrun); try done.
  destruct (create_set_spec cf ob ib Hcf) as (s & Hs & Hb).
  rewrite Hrun, Hs. cbn [mbind result_bind].
  eexists _, (replicate (Z.to_nat (2 ^ ib)) (new_order cf)). split; [reflexivity|].
  split; [|split_and!; try done].
  - split; cbn [conf sets last_blk]; [done|apply length_replicate|by rewrite !length_replicate| |done].
    intros i s' o [-> _]%lookup_replicate [-> _]%lookup_replicate. by apply (built_set_ok cf ob ib).
  - intros i e. unfold set_entries. cbn [sets conf].
    destruct (replicate _ s !! i) as [x|] eqn:Hx; [|set_solver].
    destruct (replicate _ (new_order cf) !! i) as [o|]; [|set_solver].
    apply lookup_replicate in Hx as [-> _]. unfold entries.
    intros (b & Hb' & He)%list_elem_of_omap. destruct (blks s !! b) as [blk|] eqn:Hblk; [|done].
    simpl in He. injection He as <-. by apply (bu_blks _ _ _ _ _ Hb b).
Qed.

(** The number of blocks of a created cache is an [int]. *)
Lemma cache_create_blocks ob ib ba us k pol lat cp :
  3 ≤ ob → 0 ≤ ib → ob + ib < 32 → 0 ≤ us → 0 ≤ k →
  cache_create (2 ^ ib) (2 ^ ob) ba us (2 ^ k) pol lat = Ok cp → ib + k < 31.
Proof.
  intros Hob Hib Hr Hus Hk Hrun. unfold cache_create in Hrun. assert (2 ^ 3 ≤ 2 ^ ob) by (apply Z.pow_le_mono_r; lia).
  pose proof (Z.pow_pos_nonneg 2 ib). pose proof (Z.pow_pos_nonneg 2 k).
  do 7 (case_bool_decide; [discriminate Hrun|]). rewrite !log_base2_pow2 in Hrun by lia. cbn [mbind result_bind] in Hrun.
  case_bool_decide; [discriminate Hrun|]. case_bool_decide as Hp; [discriminate Hrun|]. rewrite <- Z.pow_add_r in Hp by lia.
  apply (Z.pow_lt_mono_r_iff 2); lia.
Qed.
