(* ===== verification/CacheMain.v ===== *)
(** * The cache module: its properties

    Accesses refine sets of entries in replacement order; creation establishes
    the invariant; probing and flushing agree with the entries; what is written
    is read back. *)

From Stdlib Require Import Ascii.
From S2P Require Import Prelude Chains Misc Memory Cache CacheInv CacheSpec CacheFlush CacheCreate.

(** ** Residence *)

Section Residence.
Context (ob ib : Z) {W : Type}.
Context (blk_access_fn :
  mem_cmd → Z → Z → cache_blk_t → Z → W → Z * (option (list Z) * list Z) * W).
Context (myrand : W → Z * W).

(** Entry [e] is the valid one of [addr]. *)
Definition resident (cp : cache_t) (ords : list (list nat)) (addr : Z) (e : entry) : Prop :=
  ∃ k, e_find (CACHE_TAG (conf cp) addr)
         (set_entries cp ords (Z.to_nat (CACHE_SET (conf cp) addr))) = Some k ∧
       set_entries cp ords (Z.to_nat (CACHE_SET (conf cp) addr)) !! k = Some e.

Lemma e_find_Some t es k : e_find t es = Some k → ∃ e, es !! k = Some e ∧ e_tag e = t ∧ e_valid e = true.
Proof.
  unfold e_find. intros ([k' e] & H & ->)%fmap_Some. apply list_find_Some in H as (? & [? ?] & _).
  eauto.
Qed.

(** Tags are unique among the valid entries of a set. *)
Lemma resident_unique cp ords addr k e :
  cache_ok ob ib cp ords → 0 ≤ addr →
  set_entries cp ords (Z.to_nat (CACHE_SET (conf cp) addr)) !! k = Some e →
  e_tag e = CACHE_TAG (conf cp) addr → e_valid e = true → resident cp ords addr e.
Proof.
  intros Hc Ha Hk Ht Hv. destruct (cache_set _ _ _ _ addr Hc Ha) as (s & order & Hi & Ho & Hs).
  unfold resident, set_entries in *. rewrite Hi, Ho in *.
  rewrite (entries_lookup _ _ _ (set_ok_all _ _ _ Hs)) in Hk.
  destruct (order !! k) as [b|] eqn:Hb; [|done]. simpl in Hk.
  destruct (blks s !! b) as [blk|] eqn:Hblk; [|done]. simpl in Hk. injection Hk as <-.
  assert (found (blks s) (CACHE_TAG (conf cp) addr) (Some b)) as Hf
    by (apply match_at_Some; eauto).
  destruct (found_position _ _ _ _ _ Hs Hf) as (k' & blk' & _ & Hb' & _ & _ & He & Hl).
  exists k'. split; [done|]. by simplify_eq.
Qed.

Lemma hit_entry_valid cf cmd addr nbytes p e :
  e_valid (hit_entry cf cmd addr nbytes p e) = e_valid e.
Proof.
  unfold e_valid, hit_entry. cbn [e_status].
  destruct cmd; [done|]. rewrite (bool_decide_true (Write = Write)) by done.
  by rewrite valid_dirty.
Qed.

Lemma hit_entries_lookup pol k e e0 es :
  es !! k = Some e0 → ∃ k', hit_entries pol k e es !! k' = Some e.
Proof.
  intros Hk. unfold hit_entries. case_bool_decide; [by exists 0%nat|]. exists k.
  apply list_lookup_insert_eq. by eapply lookup_lt_Some.
Qed.

Lemma miss_entries_lookup pol k e e0 es :
  es !! k = Some e0 → ∃ k', miss_entries pol k e es !! k' = Some e.
Proof.
  intros Hk. unfold miss_entries. case_bool_decide; [|by exists 0%nat]. exists k.
  apply list_lookup_insert_eq. by eapply lookup_lt_Some.
Qed.

Lemma miss_entry_valid cf cmd addr nbytes r p c : e_valid (miss_entry cf cmd addr nbytes r p c) = true.
Proof. unfold e_valid, miss_entry. by destruct cmd. Qed.

(** What an access leaves resident: the entry before, or what the next level
    returned, after the access. *)
Lemma access_resident cp ords cmd addr nbytes now p w out cp' w' ords' :
  cache_ok ob ib cp ords → access_ok (conf cp) addr nbytes p →
  access_result ob ib blk_access_fn myrand cp ords cmd addr nbytes now p w out cp' w' ords' →
  cache_ok ob ib cp' ords' ∧ conf cp' = conf cp ∧
  ∃ e d, resident cp' ords' addr e ∧
    (balloc (conf cp) = true → Z.of_nat (length d) = bsize (conf cp)) ∧
    e_data e = (copied (conf cp) cmd (CACHE_BLK (conf cp) addr) nbytes d p).1 ∧
    out_p out = (copied (conf cp) cmd (CACHE_BLK (conf cp) addr) nbytes d p).2.
Proof.
  intros Hc Hac Hres. unfold access_result in Hres. pose proof (proj1 (ac_addr _ _ _ _ Hac)) as Ha.
  destruct (cache_set _ _ _ _ addr Hc Ha) as (s & order & Hi & Ho & Hs).
  assert (∀ k e, balloc (conf cp) = true →
    set_entries cp ords (Z.to_nat (CACHE_SET (conf cp) addr)) !! k = Some e →
    Z.of_nat (length (e_data e)) = bsize (conf cp)) as Hlen.
  { intros k e Hba. unfold set_entries. rewrite Hi, Ho, entries_lookup by (by eapply set_ok_all).
    destruct (order !! k) as [b|]; [|done]. simpl. destruct (blks s !! b) as [blk|] eqn:Hb; [|done].
    intros [= <-]. by apply (so_data _ _ _ Hs b). }
  destruct (e_find _ _) as [k|] eqn:Hf.
  - destruct Hres as (e & b & Hk & -> & Hc' & Hcf & _ & -> & _ & Hent & _).
    assert (e_tag e = CACHE_TAG (conf cp) addr ∧ e_valid e = true) as [Ht Hv].
    { apply e_find_Some in Hf as (e' & Hk' & Ht & Hv). by simplify_eq. }
    split; [done|]. split; [done|].
    destruct (hit_entries_lookup (policy (conf cp)) k
      (hit_entry (conf cp) cmd addr nbytes p e) e _ Hk) as [k' Hk'].
    exists (hit_entry (conf cp) cmd addr nbytes p e), (e_data e). split_and!; try done.
    + eapply (resident_unique _ _ _ k'); rewrite ?Hcf; try done; [by rewrite Hent|].
      by rewrite hit_entry_valid.
    + intros Hba. by apply (Hlen k).
  - destruct Hres as (k & v & Hk & _ & Hc' & Hcf & _ & _ & _ & _ & He & _).
    destruct He as (blk & t & w2 & l & c & r & _ & _ & _ & _ & Hcl & Hp & Hent).
    split; [done|]. split; [done|].
    destruct (miss_entries_lookup (policy (conf cp)) k
      (miss_entry (conf cp) cmd addr nbytes r p c) v _ Hk) as [k' Hk'].
    exists (miss_entry (conf cp) cmd addr nbytes r p c), c.2. split_and!; try done.
    eapply (resident_unique _ _ _ k'); rewrite ?Hcf; try done; [by rewrite Hent|].
    apply miss_entry_valid.
Qed.
End Residence.

Lemma splice_read n o d p q :
  (n ≤ length p)%nat → (o + n ≤ length d)%nat → (n ≤ length q)%nat →
  take n (splice 0 (take n (drop o (splice o (take n p) d))) q) = take n p.
Proof.
  intros Hp Hd Hq. assert (take n (drop o (splice o (take n p) d)) = take n p) as ->.
  { unfold splice. rewrite (drop_app_length' (take o d)) by (rewrite length_take; lia).
    apply take_app_length'. rewrite length_take. lia. }
  unfold splice. rewrite take_0. simpl app. apply take_app_length'. rewrite length_take. lia.
Qed.

(** ** Properties *)

(** C17: A [cache_access] that its callers may make (size and alignment good, not
    in the top block, last block known or block not 0) returns, and does to the
    set of the address what an access does to a list of entries in replacement
    order: a hit updates the entry and, by LRU, moves it to the front; a miss
    replaces the last entry (any entry by the random policy) by one that holds
    what the next level returned; the entry replaced is first written to the next level
    if it is dirty, and only then.  The pointer
    lists, the hash chains, the counters and the fast path all agree. *)
Theorem cache_access_refines {W} ob ib
    (fn : mem_cmd → Z → Z → cache_blk_t → Z → W → Z * (option (list Z) * list Z) * W)
    myrand cp ords cmd addr nbytes now p w :
  handler_ok fn → cache_ok ob ib cp ords → access_ok (conf cp) addr nbytes p →
  (last_blk cp ≠ None ∨ CACHE_TAGSET (conf cp) addr ≠ 0) →
  ∃ out cp' w' ords',
    cache_access fn myrand cp cmd addr p nbytes now w = Ok (out, cp', w') ∧
    access_result ob ib fn myrand cp ords cmd addr nbytes now p w out cp' w' ords'.
Proof. intros Hfn. by apply cache_access_spec. Qed.

(** C19: On parameters that pass its checks, leave room for a tag and ask for fewer than
    2^31 blocks in all, [cache_create] returns a cache that satisfies the invariant of the module, whose
    sets hold only invalid zeroed blocks. *)
Theorem cache_create_ok ob ib ba us k pol lat :
  3 ≤ ob → 0 ≤ ib → ob + ib < 32 → 0 ≤ us → 0 ≤ k → ib + k < 31 → 0 ≤ lat < 2 ^ 31 →
  ∃ cp ords, cache_create (2 ^ ib) (2 ^ ob) ba us (2 ^ k) pol lat = Ok cp ∧
    cache_ok ob ib cp ords ∧
    balloc (conf cp) = ba ∧ usize (conf cp) = us ∧ assoc (conf cp) = 2 ^ k ∧
    policy (conf cp) = pol ∧ hit_latency (conf cp) = lat ∧
    last_blk cp = None ∧ last_tagset cp = 0 ∧ counters cp = (0, 0, 0, 0, 0) ∧
    ∀ i e, e ∈ set_entries cp ords i → e = empty_entry (conf cp).
Proof. apply cache_create_spec. Qed.

(** C18: In a cache that keeps block data ([balloc]), for an address outside of block 0 and of
    the last block, what a write access stores, whether it hits or misses and whatever
    the next level returns, the next read of the same bytes returns. *)
Theorem cache_write_read {W} ob ib
    (fn : mem_cmd → Z → Z → cache_blk_t → Z → W → Z * (option (list Z) * list Z) * W)
    myrand cp ords addr nbytes now now' p q w :
  handler_ok fn → cache_ok ob ib cp ords → balloc (conf cp) = true →
  access_ok (conf cp) addr nbytes p → access_ok (conf cp) addr nbytes q →
  CACHE_TAGSET (conf cp) addr ≠ 0 →
  ∃ out1 cp1 w1 out2 cp2 w2,
    cache_access fn myrand cp Write addr p nbytes now w = Ok (out1, cp1, w1) ∧
    cache_access fn myrand cp1 Read addr q nbytes now' w1 = Ok (out2, cp2, w2) ∧
    take (Z.to_nat nbytes) (out_p out2) = take (Z.to_nat nbytes) p ∧
    hits cp2 = i64 (hits cp1 + 1).
Proof.
  intros Hfn Hc Hba Hp Hq Hts.
  destruct (cache_access_spec ob ib fn myrand Hfn cp ords Write addr nbytes now p w Hc Hp)
    as (out1 & cp1 & w1 & ords1 & Hrun1 & Hres1); [by right|].
  destruct (access_resident ob ib fn myrand cp ords Write addr nbytes now p w out1 cp1 w1 ords1 Hc Hp Hres1)
    as (Hc1 & Hcf1 & e & d & (k & Hf & Hk) & Hd & He & _).
  rewrite <- Hcf1 in Hq, Hts.
  destruct (cache_access_spec ob ib fn myrand Hfn cp1 ords1 Read addr nbytes now' q w1 Hc1 Hq)
    as (out2 & cp2 & w2 & ords2 & Hrun2 & Hres2); [by right|].
  exists out1, cp1, w1, out2, cp2, w2. split; [done|]. split; [done|].
  unfold access_result in Hres2. rewrite Hf in Hres2.
  destruct Hres2 as (e' & b & Hk' & _ & _ & _ & _ & -> & Hcnt & _). rewrite Hk in Hk'.
  injection Hk' as <-. split; [|by injection Hcnt].
  cbn [out_p hit_out]. rewrite He, Hcf1. unfold copied. rewrite Hba. cbn [fst snd].
  destruct (ac_buf _ _ _ _ Hp) as (Hn & H0 & Hb & Hpl). destruct (ac_buf _ _ _ _ Hq) as (_ & _ & _ & Hql).
  specialize (Hd Hba). unfold size_ok in Hn. apply splice_read; lia.
Qed.

(** [cache_probe] answers true exactly when a valid entry of the address's
    set has its tag, and changes nothing; after any access that returns, the address
    is resident. *)
Theorem cache_probe_access {W} ob ib
    (fn : mem_cmd → Z → Z → cache_blk_t → Z → W → Z * (option (list Z) * list Z) * W)
    myrand cp ords cmd addr nbytes now p w :
  handler_ok fn → cache_ok ob ib cp ords → access_ok (conf cp) addr nbytes p →
  (last_blk cp ≠ None ∨ CACHE_TAGSET (conf cp) addr ≠ 0) →
  cache_probe cp addr = Ok (bool_decide (e_find (CACHE_TAG (conf cp) addr)
    (set_entries cp ords (Z.to_nat (CACHE_SET (conf cp) addr))) ≠ None)) ∧
  ∃ out cp' w', cache_access fn myrand cp cmd addr p nbytes now w = Ok (out, cp', w') ∧
    cache_probe cp' addr = Ok true.
Proof.
  intros Hfn Hc Hac Hl. pose proof (ac_addr _ _ _ _ Hac) as Ha.
  split; [by apply (cache_probe_spec ob ib)|].
  destruct (cache_access_spec ob ib fn myrand Hfn cp ords cmd addr nbytes now p w Hc Hac Hl)
    as (out & cp' & w' & ords' & Hrun & Hres).
  exists out, cp', w'. split; [done|].
  destruct (access_resident ob ib fn myrand cp ords cmd addr nbytes now p w out cp' w' ords' Hc Hac Hres)
    as (Hc' & Hcf & e & d & (k & Hf & _) & _).
  rewrite (cache_probe_spec ob ib cp' ords' addr Hc' Ha), Hf. done.
Qed.

(** [cache_flush] returns with the invariant kept and every valid entry of
    every set invalidated once, counted in [invalidations]: no address is
    resident afterwards. *)
Theorem cache_flush_empties {W} ob ib
    (fn : mem_cmd → Z → Z → cache_blk_t → Z → W → Z * (option (list Z) * list Z) * W)
    cp ords now w :
  handler_ok fn → cache_ok ob ib cp ords →
  ∃ lat cp' w', cache_flush fn cp now w = Ok (lat, cp', w') ∧
    cache_ok ob ib cp' ords ∧
    (∀ i, Forall2 flushed (set_entries cp ords i) (set_entries cp' ords i)) ∧
    i64 (invalidations cp')
    = i64 (invalidations cp + valid_total cp ords (seq 0 (length (sets cp)))) ∧
    ∀ addr, 0 ≤ addr < 2 ^ 32 → cache_probe cp' addr = Ok false.
Proof.
  intros Hfn Hc. destruct (cache_flush_spec ob ib fn Hfn cp ords now w Hc)
    as (lat & cp' & w' & Hrun & Hc' & Hcf & Hfl & Hcnt).
  exists lat, cp', w'. split_and!; try done. intros addr Ha.
  rewrite (cache_probe_spec ob ib cp' ords addr Hc' Ha), bool_decide_false; [done|].
  intros Hne. destruct (e_find _ _) as [k|] eqn:Hf; [|done].
  apply e_find_Some in Hf as (e & Hk & _ & Hv).
  destruct (Forall2_lookup_r _ _ _ _ _ (Hfl _) Hk) as (e0 & _ & H%flushed_invalid). congruence.
Qed.

(** [cache_flush_addr] invalidates exactly the entry of the address and
    moves it to the end of its set, where LRU and FIFO replace it first; when the
    address is not resident nothing changes. *)
Theorem cache_flush_addr_ok {W} ob ib
    (fn : mem_cmd → Z → Z → cache_blk_t → Z → W → Z * (option (list Z) * list Z) * W)
    cp ords addr now w :
  handler_ok fn → cache_ok ob ib cp ords → 0 ≤ addr < 2 ^ 32 →
  let i := Z.to_nat (CACHE_SET (conf cp) addr) in
  let es := set_entries cp ords i in
  ∃ lat cp' w' ords', cache_flush_addr fn cp addr now w = Ok (lat, cp', w') ∧
    cache_ok ob ib cp' ords' ∧ conf cp' = conf cp ∧
    (∀ j, j ≠ i → set_entries cp' ords' j = set_entries cp ords j) ∧
    match e_find (CACHE_TAG (conf cp) addr) es with
    | Some k => ∃ e e', es !! k = Some e ∧ flushed e e' ∧
        set_entries cp' ords' i = delete k es ++ [e'] ∧
        invalidations cp' = i64 (invalidations cp + 1)
    | None => cp' = cp ∧ ords' = ords ∧ w' = w
    end.
Proof. intros Hfn. by apply cache_flush_addr_spec. Qed.

(** C20: In a highly associative cache the hash chains find the same block as
    the search of the whole way list. *)
Theorem hash_lookup_linear ob ib cf s order t :
  conf_ok cf ob ib → set_ok cf s order → 0 ≤ t →
  find_blk (hsize cf) s t = find_blk 0 s t.
Proof.
  intros Hcf Hs Ht. destruct (find_blk_spec cf ob ib s order t Hcf Hs Ht) as (o & -> & Ho).
  unfold find_blk. rewrite bool_decide_false by tauto.
  destruct (find_ways_spec s order t (so_ways _ _ _ Hs)) as (o' & -> & Ho').
  f_equal. eapply found_unique; [|done|done]. intros b b'. apply (so_unique _ _ _ Hs).
Qed.

(** C21: The first access of a created cache dereferences a null pointer when it
    falls in block 0: [last_tagset] starts at 0, the tag and set bits of that block,
    and [last_blk] at NULL. *)
Theorem fresh_block0_faults {W} ob ib ba us k pol lat
    (fn : mem_cmd → Z → Z → cache_blk_t → Z → W → Z * (option (list Z) * list Z) * W)
    myrand cp cmd addr nbytes now p w :
  3 ≤ ob → 0 ≤ ib → ob + ib < 32 → 0 ≤ us → 0 ≤ k < 31 → 0 ≤ lat < 2 ^ 31 →
  cache_create (2 ^ ib) (2 ^ ob) ba us (2 ^ k) pol lat = Ok cp →
  access_ok (conf cp) addr nbytes p → addr < 2 ^ ob →
  cache_access fn myrand cp cmd addr p nbytes now w = Fault NullDeref.
Proof.
  intros Hob Hib Hr Hus Hk Hlat Hrun Hac Hlow.
  destruct (cache_create_spec ob ib ba us k pol lat) as
    (cp' & ords & Hrun' & Hc & _ & _ & _ & _ & _ & Hlb & Hlt & _);
    try done; [lia|apply (cache_create_blocks ob _ _ _ _ _ _ _ Hob Hib Hr Hus (proj1 Hk) Hrun)|].
  rewrite Hrun in Hrun'. injection Hrun' as <-. pose proof (ck_conf _ _ _ _ Hc) as Hcf.
  destruct (access_guards ob ib _ _ _ _ Hcf Hac) as [Hg1 Hg2].
  pose proof (ac_addr _ _ _ _ Hac) as Ha.
  unfold cache_access. rewrite Hg1, Hg2, Hlt, Hlb.
  rewrite bool_decide_true; [done|].
  by rewrite (tagset_eq _ _ _ Hcf), (baddr_eq _ _ _ Hcf), Z.div_small by lia.
Qed.

(** ** Witnesses

    A cache of two sets of eight 32-byte blocks, looked up through hash chains,
    over a next level that answers with a block of sevens. *)

Definition ex_handler (_ : mem_cmd) (_ n : Z) (blk : cache_blk_t) (_ : Z) (w : nat)
    : Z * (option (list Z) * list Z) * nat :=
  (10, (user_data blk, replicate (length (data blk)) 7), S w).

Definition ex_rand (w : nat) : Z * nat := (5, w).

Definition ex_conf : cache_conf :=
  mkConf 2 32 true 0 8 LRU 1 2 31 5 1 6 (2 ^ 26 - 1) (2 ^ 32 - 32).

Definition ex_cache : cache_t :=
  match create_set ex_conf with
  | Ok s => mkCache ex_conf 0 0 0 0 0 0 0 None [s; s]
  | Fault _ => mkCache ex_conf 0 0 0 0 0 0 0 None []
  end.

Lemma ex_create : cache_create 2 32 true 0 8 LRU 1 = Ok ex_cache.
Proof. vm_compute. reflexivity. Qed.

Lemma ex_cache_ok : ∃ ords, cache_ok 5 1 ex_cache ords.
Proof.
  destruct (cache_create_spec 5 1 true 0 3 LRU 1) as (cp & ords & Hrun & Hok & _); [lia..|].
  change (2 ^ 1) with 2 in Hrun. change (2 ^ 5) with 32 in Hrun. change (2 ^ 3) with 8 in Hrun.
  rewrite ex_create in Hrun. apply (inj Ok) in Hrun. subst cp. by exists ords.
Qed.

Lemma ex_handler_ok : handler_ok ex_handler.
Proof. intros cmd a n blk now w l c w' [= <- <- <-]. apply length_replicate. Qed.

Lemma ex_access_ok addr p :
  0 ≤ addr < 2 ^ 16 → addr mod 4 = 0 → length p = 4%nat →
  Z.land addr 3 = 0 → CACHE_BLK ex_conf addr ≤ 28 →
  CACHE_BADDR ex_conf addr ≤ 2 ^ 16 → access_ok ex_conf addr 4 p.
Proof.
  intros Ha Hm Hp Hl Hb Ht. split; [lia|done|done| |simpl; lia].
  unfold buf_ok, size_ok. rewrite Hp. change (bsize ex_conf) with 32.
  split_and!; [by right; right|apply Z.land_nonneg; lia|lia|lia].
Qed.

Lemma ex_access_100 p : length p = 4%nat → access_ok ex_conf 100 4 p.
Proof. intros Hp. by apply ex_access_ok. Qed.

Lemma cache_access_refines_witness :
  ∃ ords, cache_ok 5 1 ex_cache ords ∧ access_ok ex_conf 100 4 [0; 0; 0; 0] ∧
  ∃ out cp' w' ords',
    cache_access ex_handler ex_rand ex_cache Read 100 [0; 0; 0; 0] 4 3 0%nat
    = Ok (out, cp', w') ∧
    access_result 5 1 ex_handler ex_rand ex_cache ords Read 100 4 3 [0; 0; 0; 0] 0%nat
      out cp' w' ords'.
Proof.
  destruct ex_cache_ok as [ords Hc]. exists ords. split; [exact Hc|].
  split; [by apply ex_access_100|].
  apply cache_access_refines; [apply ex_handler_ok|exact Hc|by apply ex_access_100|].
  right. by vm_compute.
Defined.

Lemma cache_create_ok_witness :
  ∃ cp ords, cache_create 2 32 true 0 8 LRU 1 = Ok cp ∧ cache_ok 5 1 cp ords ∧
    counters cp = (0, 0, 0, 0, 0).
Proof.
  destruct (cache_create_ok 5 1 true 0 3 LRU 1) as (cp & ords & Hrun & Hok & H); [lia..|].
  exists cp, ords. split; [exact Hrun|]. split; [exact Hok|]. apply H.
Defined.

Lemma cache_write_read_witness :
  ∃ out1 cp1 w1 out2 cp2 w2,
    cache_access ex_handler ex_rand ex_cache Write 100 [1; 2; 3; 4] 4 3 0%nat
    = Ok (out1, cp1, w1) ∧
    cache_access ex_handler ex_rand cp1 Read 100 [0; 0; 0; 0] 4 9 w1 = Ok (out2, cp2, w2) ∧
    take 4 (out_p out2) = [1; 2; 3; 4] ∧ hits cp2 = i64 (hits cp1 + 1).
Proof.
  destruct ex_cache_ok as [ords Hc].
  apply (cache_write_read 5 1 ex_handler ex_rand ex_cache ords 100 4 3 9 [1; 2; 3; 4]);
    [apply ex_handler_ok|exact Hc|done|by apply ex_access_100|by apply ex_access_100|].
  by vm_compute.
Defined.

Lemma cache_probe_access_witness :
  ∃ out cp' w', cache_access ex_handler ex_rand ex_cache Read 100 [0; 0; 0; 0] 4 3 0%nat
    = Ok (out, cp', w') ∧ cache_probe cp' 100 = Ok true.
Proof.
  destruct ex_cache_ok as [ords Hc].
  refine (proj2 (cache_probe_access 5 1 ex_handler ex_rand ex_cache ords Read 100 4 3
    [0; 0; 0; 0] 0%nat ex_handler_ok Hc _ _)); [by apply ex_access_100|].
  right. by vm_compute.
Defined.

Lemma cache_flush_empties_witness :
  ∃ lat cp' w', cache_flush ex_handler ex_cache 5 0%nat = Ok (lat, cp', w') ∧
    cache_probe cp' 100 = Ok false.
Proof.
  destruct ex_cache_ok as [ords Hc].
  destruct (cache_flush_empties 5 1 ex_handler ex_cache ords 5 0%nat ex_handler_ok Hc)
    as (lat & cp' & w' & Hrun & _ & _ & _ & Hp).
  exists lat, cp', w'. split; [exact Hrun|]. apply Hp. lia.
Defined.

Lemma cache_flush_addr_ok_witness :
  ∃ ords lat cp' w' ords', cache_flush_addr ex_handler ex_cache 100 5 0%nat
    = Ok (lat, cp', w') ∧ cache_ok 5 1 ex_cache ords ∧ cache_ok 5 1 cp' ords'.
Proof.
  destruct ex_cache_ok as [ords Hc].
  destruct (cache_flush_addr_ok 5 1 ex_handler ex_cache ords 100 5 0%nat ex_handler_ok Hc)
    as (lat & cp' & w' & ords' & Hrun & Hok & _); [lia|].
  exists ords, lat, cp', w', ords'. split; [exact Hrun|]. split; [exact Hc|exact Hok].
Defined.

Lemma hash_lookup_linear_witness :
  ∃ s, sets ex_cache !! 1%nat = Some s ∧ find_blk 2 s 1 = find_blk 0 s 1.
Proof.
  destruct ex_cache_ok as [ords Hc].
  destruct (cache_set 5 1 ex_cache ords 100 Hc) as (s & order & Hi & Ho & Hs); [lia|].
  exists s. split; [exact Hi|].
  apply (hash_lookup_linear 5 1 ex_conf s order 1 (ck_conf _ _ _ _ Hc) Hs). lia.
Defined.

Lemma fresh_block0_faults_witness :
  cache_access ex_handler ex_rand ex_cache Read 8 [0; 0; 0; 0] 4 3 0%nat = Fault NullDeref.
Proof.
  apply (fresh_block0_faults 5 1 true 0 3 LRU 1); try lia; [exact ex_create|].
  by apply ex_access_ok.
Defined.
