(* ===== verification/Bpred.v ===== *)
(** * bpred.c: the branch predictors

    Direction predictors (bimodal and two-level tables of two-bit counters), the
    combined predictor, the branch target buffer with its pointer-linked LRU
    chains, and the return-address stack.  An opcode is its number with the flags
    machine.def gives it.  The configuration and statistics printers are not
    modelled. *)

From S2P Require Import Prelude Misc.

(** ** Opcodes *)

(** An opcode, the flags that MD_OP_FLAGS looks up, and whether it is JR. *)
Record md_opcode := mkOp {
  op_num : Z;
  MD_OP_FLAGS : Z;
  MD_IS_INDIR : bool
}.

Definition F_CTRL : Z := 4.
Definition F_UNCOND : Z := 8.
Definition F_COND : Z := 16.
Definition MD_BR_SHIFT : Z := 3.
(** [sizeof(md_inst_t)]. *)
Definition inst_size : Z := 8.

(** [(MD_OP_FLAGS(op) & f) == f]. *)
Definition has_flags (op : md_opcode) (f : Z) : bool :=
  bool_decide (Z.land (MD_OP_FLAGS op) f = f).
Definition is_ctrl (op : md_opcode) : bool :=
  negb (bool_decide (Z.land (MD_OP_FLAGS op) F_CTRL = 0)).
Definition is_uncond (op : md_opcode) : bool := has_flags op (Z.lor F_CTRL F_UNCOND).
Definition is_cond (op : md_opcode) : bool := has_flags op (Z.lor F_CTRL F_COND).

(** ** Data *)

Inductive bpred_class := BPredComb | BPred2Level | BPred2bit | BPredTaken | BPredNotTaken.

#[global] Instance bpred_class_eq_dec : EqDecision bpred_class.
Proof. solve_decision. Defined.

(** An entry of the BTB; [prev] and [next] are positions in [btb_data]. *)
Record btb_ent := mkBtb {
  be_addr : Z;
  be_op : option md_opcode;
  be_target : Z;
  be_prev : option nat;
  be_next : option nat
}.

(** A direction predictor: the class selects the member of the union. *)
Inductive bpred_dir_t :=
  | DirBimod (size : Z) (table : list Z)
  | DirTwo (l1size l2size shift_width xor : Z) (shiftregs l2table : list Z)
  | DirTaken
  | DirNotTaken.

(** The three components of [dirpred]. *)
Inductive component := Bimod | Twolev | Meta.

#[global] Instance component_eq_dec : EqDecision component.
Proof. solve_decision. Defined.

(** The statistics counters. *)
Inductive bstat :=
  | addr_hits | dir_hits | used_ras | used_bimod | used_2lev | jr_hits | jr_seen
  | jr_non_ras_hits | jr_non_ras_seen | bp_misses | lookups | retstack_pops
  | retstack_pushes | ras_hits.

#[global] Instance bstat_eq_dec : EqDecision bstat.
Proof. solve_decision. Defined.

Record bpred_t := mkBpred {
  bp_class : bpred_class;
  dirpred : component → option bpred_dir_t;
  btb_sets : Z;
  btb_assoc : Z;
  btb_data : list btb_ent;
  rs_size : Z;
  rs_tos : Z;
  rs_stack : list Z;
  bp_stats : bstat → Z
}.

(** A pointer to a direction counter: the component and the table index. *)
Definition dir_ptr : Type := component * nat.

Record bpred_update_t := mkUpd {
  pdir1 : option dir_ptr;
  pdir2 : option dir_ptr;
  pmeta : option dir_ptr;
  d_ras : bool;
  d_bimod : bool;
  d_twolev : bool;
  d_meta : bool
}.

(** ** Field updates *)

Definition set_dir (p : bpred_t) (c : component) (d : bpred_dir_t) : bpred_t :=
  mkBpred (bp_class p) (λ c', if decide (c' = c) then Some d else dirpred p c')
    (btb_sets p) (btb_assoc p) (btb_data p) (rs_size p) (rs_tos p) (rs_stack p) (bp_stats p).
Definition set_btb (p : bpred_t) (l : list btb_ent) : bpred_t :=
  mkBpred (bp_class p) (dirpred p) (btb_sets p) (btb_assoc p) l
    (rs_size p) (rs_tos p) (rs_stack p) (bp_stats p).
Definition set_ras (p : bpred_t) (tos : Z) (st : list Z) : bpred_t :=
  mkBpred (bp_class p) (dirpred p) (btb_sets p) (btb_assoc p) (btb_data p)
    (rs_size p) tos st (bp_stats p).
(** [pred->c++] on a [counter_t]. *)
Definition count (c : bstat) (p : bpred_t) : bpred_t :=
  mkBpred (bp_class p) (dirpred p) (btb_sets p) (btb_assoc p) (btb_data p)
    (rs_size p) (rs_tos p) (rs_stack p)
    (λ c', if decide (c' = c) then i64 (bp_stats p c + 1) else bp_stats p c').
(** [if (b) pred->c++]. *)
Definition count_if (b : bool) (c : bstat) (p : bpred_t) : bpred_t := if b then count c p else p.

Definition ent_next (x : option nat) (e : btb_ent) : btb_ent :=
  mkBtb (be_addr e) (be_op e) (be_target e) (be_prev e) x.
Definition ent_prev (x : option nat) (e : btb_ent) : btb_ent :=
  mkBtb (be_addr e) (be_op e) (be_target e) x (be_next e).

(** ** Creation *)

Definition pow2_nonzero (n : Z) : bool :=
  negb (bool_decide (n = 0)) && bool_decide (Z.land n (u32 (n - 1)) = 0).

(** The counters, alternately weakly not-taken and weakly taken. *)
Fixpoint flipflops (n : nat) (flipflop : Z) : list Z :=
  match n with
  | O => []
  | S n => flipflop :: flipflops n (3 - flipflop)
  end.

(** [bpred_dir_create]; the sizes are unsigned, and kept as [int]s by the
    two-level predictor. *)
Definition bpred_dir_create (class : bpred_class) (l1size l2size shift_width xor : Z)
    : result bpred_dir_t :=
  match class with
  | BPred2Level =>
      if negb (pow2_nonzero l1size)
      then Fault (Fatal "level-1 size must be non-zero and a power of two")
      else if negb (pow2_nonzero l2size)
      then Fault (Fatal "level-2 size must be non-zero and a power of two")
      else if bool_decide (shift_width = 0 ∨ 30 < shift_width)
      then Fault (Fatal "shift register width must be non-zero and positive")
      else Ok (DirTwo (i32 l1size) (i32 l2size) (i32 shift_width) (i32 xor)
                 (replicate (Z.to_nat l1size) 0) (flipflops (Z.to_nat l2size) 1))
  | BPred2bit =>
      if negb (pow2_nonzero l1size)
      then Fault (Fatal "2bit table size must be non-zero and a power of two")
      else Ok (DirBimod l1size (flipflops (Z.to_nat l1size) 1))
  | BPredTaken => Ok DirTaken
  | BPredNotTaken => Ok DirNotTaken
  | BPredComb => Fault (Panic "bogus branch direction predictor class")
  end.

(** Chaining the entries of the BTB: entry [i] after [calloc] and the loop. *)
Definition btb_link (assoc i : Z) : btb_ent :=
  mkBtb 0 None 0
    (if bool_decide (1 < assoc ∧ i mod assoc ≠ 0) then Some (Z.to_nat (i - 1)) else None)
    (if bool_decide (1 < assoc ∧ i mod assoc ≠ assoc - 1) then Some (Z.to_nat (i + 1)) else None).

Definition btb_create (sets assoc : Z) : list btb_ent :=
  (λ i, btb_link assoc (Z.of_nat i)) <$> seq 0 (Z.to_nat (u32 (sets * assoc))).

(** The BTB and return-address stack of the stateful classes. *)
Definition bpred_create_stateful (p : bpred_t) (sets assoc retstack_size : Z)
    : result bpred_t :=
  if negb (pow2_nonzero sets)
  then Fault (Fatal "number of BTB sets must be non-zero and a power of two")
  else if negb (pow2_nonzero assoc)
  then Fault (Fatal "BTB associativity must be non-zero and a power of two")
  else if bool_decide (Z.land retstack_size (u32 (retstack_size - 1)) ≠ 0)
  then Fault (Fatal "Return-address-stack size must be zero or a power of two")
  else Ok (mkBpred (bp_class p) (dirpred p) (i32 sets) (i32 assoc) (btb_create sets assoc)
             (i32 retstack_size) (i32 (retstack_size - 1)) (replicate (Z.to_nat retstack_size) 0)
             (bp_stats p)).

Definition bpred_create (class : bpred_class)
    (bimod_size l1size l2size meta_size shift_width xor btb_sets btb_assoc retstack_size : Z)
    : result bpred_t :=
  let p0 := mkBpred class (λ _, None) 0 0 [] 0 0 [] (λ _, 0) in
  match class with
  | BPredComb =>
      b ← bpred_dir_create BPred2bit bimod_size 0 0 0;
      t ← bpred_dir_create BPred2Level l1size l2size shift_width xor;
      m ← bpred_dir_create BPred2bit meta_size 0 0 0;
      bpred_create_stateful (set_dir (set_dir (set_dir p0 Bimod b) Twolev t) Meta m)
        btb_sets btb_assoc retstack_size
  | BPred2Level =>
      t ← bpred_dir_create BPred2Level l1size l2size shift_width xor;
      bpred_create_stateful (set_dir p0 Twolev t) btb_sets btb_assoc retstack_size
  | BPred2bit =>
      b ← bpred_dir_create BPred2bit bimod_size 0 0 0;
      bpred_create_stateful (set_dir p0 Bimod b) btb_sets btb_assoc retstack_size
  | BPredTaken | BPredNotTaken => Ok p0
  end.

(** ** Lookup *)

Definition BIMOD_HASH (size addr : Z) : Z :=
  Z.land (Z.lxor (Z.shiftr addr 19) (Z.shiftr addr MD_BR_SHIFT)) (u32 (size - 1)).

(** The index into the second-level table. *)
Definition l2_index (l2size shift_width xor reg baddr : Z) : Z :=
  let hi := u32 (Z.shiftl (Z.shiftr baddr MD_BR_SHIFT) shift_width) in
  let l2index :=
    if bool_decide (xor ≠ 0)
    then Z.lor (Z.land (Z.lxor reg (Z.shiftr baddr MD_BR_SHIFT)) (Z.shiftl 1 shift_width - 1)) hi
    else Z.lor reg hi in
  Z.land l2index (l2size - 1).

Definition l1_index (l1size baddr : Z) : nat :=
  Z.to_nat (Z.land (Z.shiftr baddr MD_BR_SHIFT) (l1size - 1)).

(** [bpred_dir_lookup]: the index of the counter, or no counter. *)
Definition bpred_dir_lookup (d : bpred_dir_t) (baddr : Z) : result (option nat) :=
  match d with
  | DirTwo l1size l2size shift_width xor shiftregs _ =>
      reg ← vget shiftregs (l1_index l1size baddr);
      Ok (Some (Z.to_nat (l2_index l2size shift_width xor reg baddr)))
  | DirBimod size _ => Ok (Some (Z.to_nat (BIMOD_HASH size baddr)))
  | DirTaken | DirNotTaken => Ok None
  end.

(** The pointer to the counter of a component. *)
Definition comp_lookup (p : bpred_t) (c : component) (baddr : Z) : result (option dir_ptr) :=
  d ← deref (dirpred p c);
  i ← bpred_dir_lookup d baddr;
  Ok (match i with Some i => Some (c, i) | None => None end).

(** The counter table of a direction predictor. *)
Definition dir_table (d : bpred_dir_t) : list Z :=
  match d with
  | DirBimod _ t => t
  | DirTwo _ _ _ _ _ t => t
  | DirTaken | DirNotTaken => []
  end.
Definition set_table (t : list Z) (d : bpred_dir_t) : bpred_dir_t :=
  match d with
  | DirBimod size _ => DirBimod size t
  | DirTwo a b w x r _ => DirTwo a b w x r t
  | d => d
  end.

(** [*ptr] for a pointer to a direction counter. *)
Definition dir_get (p : bpred_t) (ptr : option dir_ptr) : result Z :=
  '(c, i) ← deref ptr; d ← deref (dirpred p c); vget (dir_table d) i.

(** The pointers that a lookup leaves in the update record. *)
Definition lookup_dirs (p : bpred_t) (baddr : Z) (op : md_opcode) (u : bpred_update_t)
    : result bpred_update_t :=
  let u := mkUpd None None None false (d_bimod u) (d_twolev u) (d_meta u) in
  if is_uncond op then Ok u else
  match bp_class p with
  | BPredComb =>
      bimod ← comp_lookup p Bimod baddr;
      twolev ← comp_lookup p Twolev baddr;
      meta ← comp_lookup p Meta baddr;
      m ← dir_get p meta;
      b ← dir_get p bimod;
      t ← dir_get p twolev;
      let mt := bool_decide (2 ≤ m) in
      Ok (mkUpd (if mt then twolev else bimod) (if mt then bimod else twolev) meta
            false (bool_decide (2 ≤ b)) (bool_decide (2 ≤ t)) mt)
  | BPred2Level =>
      t ← comp_lookup p Twolev baddr;
      Ok (mkUpd t None None false (d_bimod u) (d_twolev u) (d_meta u))
  | BPred2bit =>
      b ← comp_lookup p Bimod baddr;
      Ok (mkUpd b None None false (d_bimod u) (d_twolev u) (d_meta u))
  | BPredTaken | BPredNotTaken => Ok u
  end.

(** The search of a BTB set for an address. *)
Fixpoint btb_find (l : list btb_ent) (idxs : list nat) (baddr : Z) : result (option nat) :=
  match idxs with
  | [] => Ok None
  | i :: idxs =>
      e ← vget l i;
      if bool_decide (be_addr e = baddr) then Ok (Some i) else btb_find l idxs baddr
  end.

(** The positions of the set of an address; one if direct-mapped. *)
Definition btb_set (p : bpred_t) (baddr : Z) : list nat :=
  let index := Z.land (Z.shiftr baddr MD_BR_SHIFT) (btb_sets p - 1) in
  if bool_decide (1 < btb_assoc p)
  then seq (Z.to_nat (index * btb_assoc p)) (Z.to_nat (btb_assoc p))
  else [Z.to_nat index].

(** Popping the return-address stack. *)
Definition ras_pop (p : bpred_t) : result (Z * bpred_t) :=
  target ← vget (rs_stack p) (Z.to_nat (rs_tos p));
  Ok (target, count retstack_pops
        (set_ras p (Z.rem (rs_tos p + rs_size p - 1) (rs_size p)) (rs_stack p))).

(** Pushing a return address. *)
Definition ras_push (p : bpred_t) (baddr : Z) : result bpred_t :=
  let tos := Z.rem (rs_tos p + 1) (rs_size p) in
  st ← vset (rs_stack p) (Z.to_nat tos) (u32 (baddr + inst_size));
  Ok (count retstack_pushes (set_ras p tos st)).

(** From the BTB on: the target or, on a miss, a direction. *)
Definition lookup_btb (p : bpred_t) (baddr : Z) (op : md_opcode) (u : bpred_update_t)
    : result Z :=
  pbtb ← btb_find (btb_data p) (btb_set p baddr) baddr;
  target ← (match pbtb with
            | Some i => e ← vget (btb_data p) i; Ok (be_target e)
            | None => Ok 1
            end);
  if is_uncond op then Ok target else
  c ← dir_get p (pdir1 u);
  Ok (if bool_decide (2 ≤ c) then target else 0).

(** [bpred_lookup]: the prediction, the update record, the recovery index, and
    the predictor. *)
Definition bpred_lookup (p : bpred_t) (baddr btarget : Z) (op : md_opcode)
    (is_call is_return : bool) (u : bpred_update_t) (stack_recover_idx : Z)
    : result (Z * bpred_update_t * Z * bpred_t) :=
  if negb (is_ctrl op) then Ok (0, u, stack_recover_idx, p) else
  let p := count lookups p in
  u ← lookup_dirs p baddr op u;
  match bp_class p with
  | BPredTaken => Ok (btarget, u, stack_recover_idx, p)
  | BPredNotTaken =>
      Ok (if is_uncond op then btarget else u32 (baddr + inst_size), u, stack_recover_idx, p)
  | _ =>
      let idx := if bool_decide (rs_size p ≠ 0) then rs_tos p else 0 in
      if is_return && bool_decide (rs_size p ≠ 0) then
        '(target, p) ← ras_pop p;
        Ok (target, mkUpd (pdir1 u) (pdir2 u) (pmeta u) true (d_bimod u) (d_twolev u) (d_meta u),
            idx, p)
      else
        p ← (if is_call && bool_decide (rs_size p ≠ 0) then ras_push p baddr else Ok p);
        r ← lookup_btb p baddr op u;
        Ok (r, u, idx, p)
  end.

(** [bpred_recover]; a null predictor is not modelled. *)
Definition bpred_recover (p : bpred_t) (stack_recover_idx : Z) : bpred_t :=
  set_ras p stack_recover_idx (rs_stack p).

(** [bpred_after_priming]. *)
Definition bpred_after_priming (p : bpred_t) : bpred_t :=
  mkBpred (bp_class p) (dirpred p) (btb_sets p) (btb_assoc p) (btb_data p)
    (rs_size p) (rs_tos p) (rs_stack p)
    (λ c, match c with
          | jr_non_ras_hits | jr_non_ras_seen => bp_stats p c
          | _ => 0
          end).

(** ** Update *)

(** A two-bit counter moves towards the outcome. *)
Definition saturate (taken : bool) (c : Z) : Z :=
  if taken then (if bool_decide (c < 3) then c + 1 else c)
  else (if bool_decide (0 < c) then c - 1 else c).

Definition dir_update (p : bpred_t) (ptr : option dir_ptr) (taken : bool) : result bpred_t :=
  match ptr with
  | None => Ok p
  | Some (c, i) =>
      d ← deref (dirpred p c);
      t ← vupd (dir_table d) i (saturate taken);
      Ok (set_dir p c (set_table t d))
  end.

(** The history register of the two-level component. *)
Definition update_history (p : bpred_t) (baddr : Z) (taken : bool) : result bpred_t :=
  d ← deref (dirpred p Twolev);
  match d with
  | DirTwo l1size l2size shift_width xor shiftregs l2table =>
      regs ← vupd shiftregs (l1_index l1size baddr)
        (λ r, Z.land (Z.lor (Z.shiftl r 1) (c_bool taken)) (Z.shiftl 1 shift_width - 1));
      Ok (set_dir p Twolev (DirTwo l1size l2size shift_width xor regs l2table))
  | _ => Fault Undefined
  end.

(** The scan of a set: the match, the MRU entry and the LRU entry. *)
Fixpoint btb_scan (l : list btb_ent) (idxs : list nat) (baddr : Z)
    (pbtb lruhead lruitem : option nat) : result (option nat * option nat * option nat) :=
  match idxs with
  | [] => Ok (pbtb, lruhead, lruitem)
  | i :: idxs =>
      e ← vget l i;
      pbtb ← (if bool_decide (be_addr e = baddr)
              then match pbtb with None => Ok (Some i) | Some _ => Fault AssertFail end
              else Ok pbtb);
      btb_scan l idxs baddr pbtb
        (if bool_decide (be_prev e = None) then Some i else lruhead)
        (if bool_decide (be_next e = None) then Some i else lruitem)
  end.

(** Making entry [b] the most recently used. *)
Definition btb_mru (l : list btb_ent) (b : nat) (lruhead : option nat)
    : result (list btb_ent) :=
  if bool_decide (Some b = lruhead) then Ok l else
  e ← vget l b;
  l1 ← (match be_prev e with Some q => vupd l q (ent_next (be_next e)) | None => Ok l end);
  l2 ← (match be_next e with Some n => vupd l1 n (ent_prev (be_prev e)) | None => Ok l1 end);
  l3 ← vupd l2 b (λ e, ent_prev None (ent_next lruhead e));
  h ← deref lruhead;
  vupd l3 h (ent_prev (Some b)).

(** The entry of a taken branch, made most recently used. *)
Definition btb_select (p : bpred_t) (baddr : Z) : result (nat * bpred_t) :=
  if bool_decide (1 < btb_assoc p) then
    '(pbtb, lruhead, lruitem) ← btb_scan (btb_data p) (btb_set p baddr) baddr None None None;
    b ← deref (match pbtb with Some b => Some b | None => lruitem end);
    l ← btb_mru (btb_data p) b lruhead;
    Ok (b, set_btb p l)
  else
    b ← deref (head (btb_set p baddr));
    Ok (b, p).

(** Writing the entry. *)
Definition btb_write (baddr btarget : Z) (correct : bool) (op : md_opcode) (e : btb_ent)
    : btb_ent :=
  if bool_decide (be_addr e = baddr)
  then mkBtb (be_addr e) (be_op e) (if correct then be_target e else btarget)
         (be_prev e) (be_next e)
  else mkBtb baddr (Some op) btarget (be_prev e) (be_next e).

(** The statistics of an update. *)
Definition update_stats (p : bpred_t) (taken pred_taken correct : bool) (op : md_opcode)
    (u : bpred_update_t) : bpred_t :=
  let p := count_if correct addr_hits p in
  let p := count (if Bool.eqb pred_taken taken then dir_hits else bp_misses) p in
  let p := if d_ras u then count_if correct ras_hits (count used_ras p)
           else if is_cond op then count (if d_meta u then used_2lev else used_bimod) p
           else p in
  if MD_IS_INDIR op then
    let p := count_if correct jr_hits (count jr_seen p) in
    if d_ras u then p
    else count_if correct jr_non_ras_hits (count jr_non_ras_seen p)
  else p.

(** The counters the update record points to. *)
Definition update_dirs (p : bpred_t) (taken : bool) (u : bpred_update_t) : result bpred_t :=
  p ← dir_update p (pdir1 u) taken;
  p ← dir_update p (pdir2 u) taken;
  if bool_decide (pmeta u ≠ None) && negb (Bool.eqb (d_bimod u) (d_twolev u))
  then dir_update p (pmeta u) (Bool.eqb (d_twolev u) taken)
  else Ok p.

(** [bpred_update]; [taken] is passed as 0 or 1 by every caller. *)
Definition bpred_update (p : bpred_t) (baddr btarget : Z) (taken pred_taken correct : bool)
    (op : md_opcode) (u : bpred_update_t) : result bpred_t :=
  if negb (is_ctrl op) then Ok p else
  let p := update_stats p taken pred_taken correct op u in
  if MD_IS_INDIR op && d_ras u then Ok p else
  if bool_decide (bp_class p = BPredNotTaken ∨ bp_class p = BPredTaken) then Ok p else
  p ← (if negb (is_uncond op) &&
          bool_decide (bp_class p = BPred2Level ∨ bp_class p = BPredComb)
       then update_history p baddr taken else Ok p);
  '(pbtb, p) ← (if taken then '(b, p) ← btb_select p baddr; Ok (Some b, p) else Ok (None, p));
  p ← update_dirs p taken u;
  match pbtb with
  | None => Ok p
  | Some b =>
      l ← vupd (btb_data p) b (btb_write baddr btarget correct op);
      Ok (set_btb p l)
  end.
