(* ===== verification/BpredBtb.v ===== *)
(** * bpred.c: the branch target buffer

    Each set of the BTB is a doubly linked list through its entries; selecting
    the entry of a taken branch is a move to the front of the set's list. *)

From S2P Require Import Prelude Chains Misc Memory Cache CacheInv Bpred.

Definition next_of (l : list btb_ent) (i : nat) : option nat := l !! i ≫= be_next.
Definition prev_of (l : list btb_ent) (i : nat) : option nat := l !! i ≫= be_prev.

(** What a BTB entry says of its branch. *)
Definition branch_of (e : btb_ent) : Z * option md_opcode * Z := (be_addr e, be_op e, be_target e).

(** Set [k] of [assoc] entries, most recently used first. *)
Record btb_set_ok (assoc : nat) (l : list btb_ent) (k : nat) (order : list nat) : Prop := {
  bs_nodup : NoDup order;
  bs_all : ∀ i, i ∈ order ↔ (k * assoc ≤ i < k * assoc + assoc)%nat;
  bs_links : links (next_of l) (prev_of l) order;
  bs_unique : ∀ i j ei ej, i ∈ order → j ∈ order → l !! i = Some ei → l !! j = Some ej →
                be_addr ei = be_addr ej → be_addr ei ≠ 0 → i = j
}.

Record btb_ok (sets assoc : nat) (l : list btb_ent) (ords : list (list nat)) : Prop := {
  bt_len : length l = (sets * assoc)%nat;
  bt_ords : length ords = sets;
  bt_assoc : (0 < assoc)%nat;
  bt_sets : ∀ k order, ords !! k = Some order → btb_set_ok assoc l k order
}.

Lemma btb_index sets assoc l ords k order i :
  btb_ok sets assoc l ords → ords !! k = Some order → i ∈ order → ∃ e, l !! i = Some e.
Proof.
  intros Hb Hk Hi. apply lookup_lt_is_Some_2. rewrite (bt_len _ _ _ _ Hb).
  apply (bs_all _ _ _ _ (bt_sets _ _ _ _ Hb k order Hk)) in Hi.
  apply lookup_lt_Some in Hk. rewrite (bt_ords _ _ _ _ Hb) in Hk. nia.
Qed.

Lemma btb_order_length assoc l k order :
  btb_set_ok assoc l k order → length order = assoc.
Proof.
  intros Hs. rewrite <- (length_seq assoc (k * assoc)). apply Permutation_length.
  apply NoDup_Permutation; [apply Hs|apply NoDup_seq|].
  intros i. rewrite (bs_all _ _ _ _ Hs), elem_of_seq. done.
Qed.

(** ** The scan *)

Definition match_idx (l : list btb_ent) (baddr : Z) (i : nat) : bool :=
  match l !! i with Some e => bool_decide (be_addr e = baddr) | None => false end.

Definition keep_last (P : nat → bool) (idxs : list nat) (o : option nat) : option nat :=
  foldl (λ o i, if P i then Some i else o) o idxs.

Lemma keep_last_unique P idxs x o :
  x ∈ idxs → (∀ i, i ∈ idxs → P i = true → i = x) → P x = true → keep_last P idxs o = Some x.
Proof.
  intros Hx Hu HP. revert o. induction idxs as [|i idxs IH]; intros o; [set_solver|].
  unfold keep_last in *. simpl. destruct (decide (x ∈ idxs)) as [Hin|Hin].
  - apply IH; [done|]. intros j Hj. apply Hu. by right.
  - apply elem_of_cons in Hx as [->|]; [|done]. rewrite HP. clear IH HP.
    assert (∀ j, j ∈ idxs → P j = false) as Hno.
    { intros j Hj. apply not_true_is_false. intros HPj.
      apply Hin. rewrite <- (Hu j); [done|by right|done]. }
    clear Hu Hin. induction idxs as [|j idxs IH]; [done|]. simpl.
    rewrite Hno by (by left). apply IH. intros m Hm. apply Hno. by right.
Qed.

Lemma btb_scan_spec l idxs baddr m h t :
  (∀ i, i ∈ idxs → ∃ e, l !! i = Some e) → NoDup idxs →
  (∀ i j, i ∈ idxs → j ∈ idxs → match_idx l baddr i = true → match_idx l baddr j = true → i = j) →
  (m ≠ None → ∀ i, i ∈ idxs → match_idx l baddr i = false) →
  ∃ m', btb_scan l idxs baddr m h t
    = Ok (m', keep_last (λ i, bool_decide (prev_of l i = None)) idxs h,
          keep_last (λ i, bool_decide (next_of l i = None)) idxs t) ∧
    match m' with
    | Some b => m = Some b ∨ b ∈ idxs ∧ match_idx l baddr b = true
    | None => m = None ∧ ∀ i, i ∈ idxs → match_idx l baddr i = false
    end.
Proof.
  revert m h t. induction idxs as [|i idxs IH]; intros m h t He Hnd Hu Hm.
  { exists m. split; [done|]. destruct m; [by left|]. split; [done|]. set_solver. }
  apply NoDup_cons in Hnd as [Hni Hnd]. destruct (He i) as [e Hi]; [by left|].
  assert (match_idx l baddr i = bool_decide (be_addr e = baddr)) as Hmi
    by (unfold match_idx; by rewrite Hi).
  cbn [btb_scan]. unfold vget. rewrite Hi. cbn [mbind result_bind].
  assert (∀ x, bool_decide (be_prev e = None) = bool_decide (prev_of l i = None) ∧
               bool_decide (be_next e = None) = bool_decide (next_of l i = None) ∨ x = false)
    as Hpn by (intros x; left; unfold prev_of, next_of; by rewrite Hi).
  destruct (Hpn true) as [[-> ->]|?]; [|done]. clear Hpn.
  destruct (bool_decide (be_addr e = baddr)) eqn:Hb.
  - destruct m as [b|]; [rewrite Hm in Hmi; [done|done|by left]|]. cbn [mbind result_bind].
    destruct (IH (Some i)
      (if bool_decide (prev_of l i = None) then Some i else h)
      (if bool_decide (next_of l i = None) then Some i else t)) as (m' & Hrun & Hm');
      [intros; apply He; by right|done|intros; apply Hu; try done; by right| |].
    { intros _ j Hj. apply not_true_is_false. intros Hmj. apply Hni.
      rewrite (Hu i j); [done|by left|by right|done|done]. }
    exists m'. split; [exact Hrun|]. destruct m' as [b|]; [|by destruct Hm'].
    right. destruct Hm' as [[= <-]|[Hin Hmb]]; [split; [by left|done]|split; [by right|done]].
  - cbn [mbind result_bind].
    destruct (IH m
      (if bool_decide (prev_of l i = None) then Some i else h)
      (if bool_decide (next_of l i = None) then Some i else t)) as (m' & Hrun & Hm');
      [intros; apply He; by right|done|intros; apply Hu; try done; by right| |].
    { intros Hne j Hj. apply Hm; [done|by right]. }
    exists m'. split; [exact Hrun|]. destruct m' as [b|].
    + destruct Hm' as [->|[Hin Hmb]]; [by left|right; split; [by right|done]].
    + destruct Hm' as [-> Hno]. split; [done|]. intros j [->|Hj]%elem_of_cons; [done|by apply Hno].
Qed.

(** ** Moving an entry to the front *)

Lemma vupd_alter {A} (l : list A) i f : (i < length l)%nat → vupd l i f = Ok (alter f i l).
Proof.
  intros [x Hx]%lookup_lt_is_Some_2. unfold vupd, vget. rewrite Hx. simpl. f_equal.
  apply list_eq. intros j. destruct (decide (j = i)) as [->|].
  - rewrite list_lookup_insert_eq by (by eapply lookup_lt_Some).
    by rewrite list_lookup_alter_eq, Hx.
  - by rewrite list_lookup_insert_ne, list_lookup_alter_ne.
Qed.

Lemma next_set_next l b x c : (b < length l)%nat →
  next_of (alter (ent_next x) b l) c = if decide (c = b) then x else next_of l c.
Proof.
  intros [e Hb]%lookup_lt_is_Some_2. unfold next_of. rewrite list_lookup_alter.
  case_decide; subst; [rewrite decide_True, Hb by done; done|by rewrite decide_False].
Qed.
Lemma prev_set_prev l b x c : (b < length l)%nat →
  prev_of (alter (ent_prev x) b l) c = if decide (c = b) then x else prev_of l c.
Proof.
  intros [e Hb]%lookup_lt_is_Some_2. unfold prev_of. rewrite list_lookup_alter.
  case_decide; subst; [rewrite decide_True, Hb by done; done|by rewrite decide_False].
Qed.
Lemma next_set_prev l b x c : next_of (alter (ent_prev x) b l) c = next_of l c.
Proof. unfold next_of. rewrite list_lookup_alter. case_decide; [|done]. subst. by destruct (l !! _). Qed.
Lemma prev_set_next l b x c : prev_of (alter (ent_next x) b l) c = prev_of l c.
Proof. unfold prev_of. rewrite list_lookup_alter. case_decide; [|done]. subst. by destruct (l !! _). Qed.
Lemma branch_set_next (l : list btb_ent) b x : branch_of <$> alter (ent_next x) b l = branch_of <$> l.
Proof.
  apply list_eq. intros i. rewrite !list_lookup_fmap, list_lookup_alter.
  case_decide; [|done]. subst. by destruct (l !! _).
Qed.
Lemma branch_set_prev (l : list btb_ent) b x : branch_of <$> alter (ent_prev x) b l = branch_of <$> l.
Proof.
  apply list_eq. intros i. rewrite !list_lookup_fmap, list_lookup_alter.
  case_decide; [|done]. subst. by destruct (l !! _).
Qed.

Create HintDb btb.
#[export] Hint Rewrite next_set_prev prev_set_next branch_set_next branch_set_prev
  @length_alter : btb.

Lemma alter_alter_both (l : list btb_ent) b x y :
  alter (λ e, ent_prev y (ent_next x e)) b l = alter (ent_prev y) b (alter (ent_next x) b l).
Proof.
  apply list_eq. intros i. rewrite !list_lookup_alter.
  repeat case_decide; subst; try done. by destruct (l !! _).
Qed.

Lemma btb_mru_spec l order k b :
  NoDup order → (∀ i, i ∈ order → (i < length l)%nat) →
  links (next_of l) (prev_of l) order → order !! k = Some b →
  ∃ l', btb_mru l b (head order) = Ok l' ∧ branch_of <$> l' = branch_of <$> l ∧
    links (next_of l') (prev_of l') (b :: delete k order) ∧
    ∀ c, c ∉ order → next_of l' c = next_of l c ∧ prev_of l' c = prev_of l c.
Proof.
  intros Hnd Hlt Hl Hk. unfold btb_mru. rewrite head_lookup.
  assert (∀ j x, order !! j = Some x → (x < length l)%nat) as Hix
    by (intros j x Hx; by apply Hlt, list_elem_of_lookup_2 with j).
  destruct k as [|k].
  { rewrite Hk. rewrite bool_decide_true by done. exists l. split_and!; try done.
    destruct order; simpl in *; [done|]. by simplify_eq. }
  destruct (lookup_lt_is_Some_2 order 0) as [h Hh]; [apply lookup_lt_Some in Hk; lia|].
  rewrite Hh, bool_decide_false by (intros [= <-]; pose proof (nodup_index _ _ _ _ Hnd Hk Hh); lia).
  assert (b < length l)%nat as Hbl by (by eapply Hix).
  assert (h < length l)%nat as Hhl by (by eapply Hix).
  destruct (lookup_lt_is_Some_2 order k) as [q Hq]; [apply lookup_lt_Some in Hk; lia|].
  assert (q < length l)%nat as Hql by (by eapply Hix).
  destruct (lookup_lt_is_Some_2 l b) as [e He]; [done|].
  destruct (Hl (S k) b Hk) as [Hn Hp]. unfold next_of in Hn. unfold prev_of in Hp.
  rewrite He in Hn, Hp. simpl in Hn, Hp. rewrite Hq in Hp.
  unfold vget. rewrite He. cbn [mbind result_bind]. rewrite Hp. rewrite vupd_alter by done.
  cbn [mbind result_bind]. set (l1 := alter (ent_next (be_next e)) q l).
  assert (∃ l2, (match be_next e with
      | Some n => vupd l1 n (ent_prev (Some q)) | None => Ok l1 end) = Ok l2 ∧
    length l2 = length l ∧ branch_of <$> l2 = branch_of <$> l ∧
    (∀ c, next_of l2 c = next_of l1 c) ∧
    (∀ c, prev_of l2 c = if decide (be_next e = Some c) then Some q else prev_of l c))
    as (l2 & -> & Hl2 & Hb2 & Hn2 & Hp2).
  { destruct (be_next e) as [n|] eqn:Hne.
    - assert (n < length l)%nat by (symmetry in Hn; by eapply Hix).
      rewrite vupd_alter by (unfold l1; autorewrite with btb; done).
      eexists. split; [reflexivity|]. unfold l1. autorewrite with btb. split_and!; [done|done| |].
      + intros c. by autorewrite with btb.
      + intros c. rewrite prev_set_prev by (autorewrite with btb; done). autorewrite with btb.
        apply decide_ext. naive_solver.
    - exists l1. unfold l1. autorewrite with btb. split_and!; [done..|].
      intros c. by autorewrite with btb. }
  cbn [mbind result_bind]. rewrite vupd_alter by lia. cbn [mbind result_bind deref].
  rewrite alter_alter_both, vupd_alter by (autorewrite with btb; lia).
  eexists. split; [reflexivity|]. autorewrite with btb. split; [done|].
  assert (∀ c, next_of (alter (ent_prev (Some b)) h (alter (ent_prev None) b
      (alter (ent_next (Some h)) b l2))) c
    = if decide (c = b) then Some h else if decide (c = q) then order !! S (S k) else next_of l c)
    as Hnext.
  { intros c. autorewrite with btb. rewrite next_set_next by lia. rewrite Hn2. unfold l1.
    rewrite next_set_next by done. by rewrite Hn. }
  assert (∀ c, prev_of (alter (ent_prev (Some b)) h (alter (ent_prev None) b
      (alter (ent_next (Some h)) b l2))) c
    = if decide (c = b) then None else if decide (c = h) then Some b
      else if decide (order !! S (S k) = Some c) then Some q else prev_of l c) as Hprev.
  { intros c. rewrite prev_set_prev by (autorewrite with btb; lia).
    rewrite prev_set_prev by (autorewrite with btb; lia). autorewrite with btb.
    rewrite Hp2, Hn. assert (h ≠ b) by (intros ->; pose proof (nodup_index _ _ _ _ Hnd Hk Hh); lia).
    repeat case_decide; congruence. }
  split.
  - eapply (relink_head _ _ _ _ order (S k) b h q Hnd Hl Hk); [lia|done|done|exact Hnext|exact Hprev].
  - intros c Hc. rewrite Hnext, Hprev.
    assert (∀ j, order !! j ≠ Some c) as Hno
      by (intros j Hj; by apply Hc, list_elem_of_lookup_2 with j).
    rewrite (decide_False (P := c = b)) by (intros ->; by eapply Hno).
    rewrite (decide_False (P := c = q)) by (intros ->; by eapply Hno).
    rewrite (decide_False (P := c = h)) by (intros ->; by eapply Hno).
    rewrite (decide_False (P := order !! S (S k) = Some c)) by apply Hno.
    by rewrite (decide_False (P := c = b)) by (intros ->; by eapply Hno).
Qed.

Lemma links_ext wn wp wn' wp' order :
  (∀ c, c ∈ order → wn' c = wn c ∧ wp' c = wp c) → links wn wp order → links wn' wp' order.
Proof.
  intros He Hl k b Hk. destruct (He b) as [-> ->]; [by eapply list_elem_of_lookup_2|]. by apply Hl.
Qed.

Lemma branch_lookup (l l' : list btb_ent) i e' :
  branch_of <$> l' = branch_of <$> l → l' !! i = Some e' →
  ∃ e, l !! i = Some e ∧ branch_of e' = branch_of e.
Proof.
  intros Hb Hi. apply (f_equal (.!! i)) in Hb. rewrite !list_lookup_fmap, Hi in Hb.
  destruct (l !! i) as [e|]; [|done]. exists e. simpl in Hb. split; [done|congruence].
Qed.

Lemma unique_branch (l l' : list btb_ent) (P : nat → Prop) :
  branch_of <$> l' = branch_of <$> l →
  (∀ i j ei ej, P i → P j → l !! i = Some ei → l !! j = Some ej →
     be_addr ei = be_addr ej → be_addr ei ≠ 0 → i = j) →
  ∀ i j ei ej, P i → P j → l' !! i = Some ei → l' !! j = Some ej →
     be_addr ei = be_addr ej → be_addr ei ≠ 0 → i = j.
Proof.
  intros Hb Hu i j ei ej Hi Hj Hei Hej Ha H0.
  destruct (branch_lookup _ _ _ _ Hb Hei) as (xi & Hxi & Hbi).
  destruct (branch_lookup _ _ _ _ Hb Hej) as (xj & Hxj & Hbj).
  unfold branch_of in Hbi, Hbj. apply (Hu i j xi xj); try done; congruence.
Qed.

(** Moving an entry of set [k] to the front of its list. *)
Lemma btb_ok_front sets assoc l l' ords k order pos b :
  btb_ok sets assoc l ords → ords !! k = Some order → order !! pos = Some b →
  branch_of <$> l' = branch_of <$> l →
  links (next_of l') (prev_of l') (b :: delete pos order) →
  (∀ c, c ∉ order → next_of l' c = next_of l c ∧ prev_of l' c = prev_of l c) →
  btb_ok sets assoc l' (<[k := b :: delete pos order]> ords).
Proof.
  intros Hok Hk Hpos Hbr Hl Hout. pose proof (bt_sets _ _ _ _ Hok k order Hk) as Hs.
  destruct (move_members order pos b Hpos (bs_nodup _ _ _ _ Hs)) as [Hp Hnd'].
  split.
  - apply (f_equal length) in Hbr. rewrite !length_fmap in Hbr. by rewrite Hbr, (bt_len _ _ _ _ Hok).
  - by rewrite length_insert, (bt_ords _ _ _ _ Hok).
  - apply Hok.
  - intros j o Hj. destruct (decide (j = k)) as [->|Hjk].
    + rewrite list_lookup_insert_eq in Hj by (by eapply lookup_lt_Some). injection Hj as <-. split.
      * done.
      * intros i. rewrite Hp. apply Hs.
      * done.
      * intros i i' ei ei'. rewrite !Hp. apply (unique_branch l l' (.∈ order) Hbr). apply Hs.
    + rewrite list_lookup_insert_ne in Hj by done.
      destruct (bt_sets _ _ _ _ Hok j o Hj) as [Hnd Hall Hlk Hu]. split; [done|done| |].
      * eapply links_ext; [|exact Hlk]. intros c Hc. apply Hout. intros Hc'.
        apply Hall in Hc. apply (bs_all _ _ _ _ Hs) in Hc'. nia.
      * by apply (unique_branch l l' (.∈ o) Hbr).
Qed.

(** ** Selecting the entry of a taken branch *)

(** The BTB of a predictor: power-of-two geometry and good chains. *)
Definition bp_btb_ok (p : bpred_t) (ords : list (list nat)) : Prop :=
  (∃ a c, 0 ≤ a < 31 ∧ 0 ≤ c < 31 ∧ btb_sets p = 2 ^ a ∧ btb_assoc p = 2 ^ c) ∧
  btb_ok (Z.to_nat (btb_sets p)) (Z.to_nat (btb_assoc p)) (btb_data p) ords.

Definition btb_key (p : bpred_t) (baddr : Z) : nat :=
  Z.to_nat (Z.land (Z.shiftr baddr MD_BR_SHIFT) (btb_sets p - 1)).

Lemma btb_key_lt p ords baddr :
  bp_btb_ok p ords → 0 ≤ baddr → ∃ order, ords !! btb_key p baddr = Some order.
Proof.
  intros [(a & c & Ha & Hc & Hs & _) Hok] Hb. apply lookup_lt_is_Some_2.
  rewrite (bt_ords _ _ _ _ Hok). unfold btb_key. rewrite Hs.
  assert (0 ≤ Z.shiftr baddr MD_BR_SHIFT) as H by by apply Z.shiftr_nonneg.
  pose proof (land_mask _ (2 ^ a - 1) H). lia.
Qed.

Lemma btb_set_seq p ords baddr :
  bp_btb_ok p ords → 0 ≤ baddr →
  btb_set p baddr = seq (btb_key p baddr * Z.to_nat (btb_assoc p)) (Z.to_nat (btb_assoc p)).
Proof.
  intros [(a & c & Ha & Hc & Hs & Has) _] Hb. unfold btb_set, btb_key.
  assert (0 ≤ Z.land (Z.shiftr baddr MD_BR_SHIFT) (btb_sets p - 1)) as Hn.
  { apply Z.land_nonneg. left. by apply Z.shiftr_nonneg. }
  pose proof (Z.pow_pos_nonneg 2 c). case_bool_decide as H1.
  - f_equal. rewrite Z2Nat.inj_mul; lia.
  - assert (btb_assoc p = 1) as -> by lia. simpl. f_equal. lia.
Qed.

Lemma btb_set_members p ords baddr order :
  bp_btb_ok p ords → 0 ≤ baddr → ords !! btb_key p baddr = Some order →
  ∀ i, i ∈ btb_set p baddr ↔ i ∈ order.
Proof.
  intros Hok Hb Ho i. rewrite (btb_set_seq p ords) by done. rewrite elem_of_seq.
  by rewrite (bs_all _ _ _ _ (bt_sets _ _ _ _ (proj2 Hok) _ _ Ho)).
Qed.

Lemma match_unique assoc l k order baddr i j :
  btb_set_ok assoc l k order → baddr ≠ 0 → i ∈ order → j ∈ order →
  match_idx l baddr i = true → match_idx l baddr j = true → i = j.
Proof.
  intros Hs H0 Hi Hj. unfold match_idx.
  destruct (l !! i) as [ei|] eqn:Hei; [|done]. destruct (l !! j) as [ej|] eqn:Hej; [|done].
  rewrite !bool_decide_eq_true. intros H1 H2.
  eapply (bs_unique _ _ _ _ Hs); try done; congruence.
Qed.

Lemma set_btb_same p : set_btb p (btb_data p) = p.
Proof. by destruct p. Qed.

(** The ends of a chain, as the scan identifies them. *)
Lemma chain_ends l order i :
  NoDup order → links (next_of l) (prev_of l) order → i ∈ order →
  (prev_of l i = None ↔ head order = Some i) ∧ (next_of l i = None ↔ last order = Some i).
Proof.
  intros Hnd Hl [k Hk]%list_elem_of_lookup. destruct (Hl k i Hk) as [-> ->].
  pose proof (lookup_lt_Some _ _ _ Hk) as Hlt. split.
  - rewrite head_lookup. destruct k as [|k]; simpl; [tauto|].
    split; [|intros H0; pose proof (nodup_index _ _ _ _ Hnd Hk H0); lia].
    intros Hn%lookup_ge_None. lia.
  - rewrite last_index. split.
    + intros Hn%lookup_ge_None. replace (length order - 1)%nat with k by lia. done.
    + intros H0. pose proof (nodup_index _ _ _ _ Hnd Hk H0). apply lookup_ge_None. lia.
Qed.

Lemma btb_select_spec p ords baddr order :
  bp_btb_ok p ords → 0 ≤ baddr → baddr ≠ 0 → ords !! btb_key p baddr = Some order →
  ∃ b pos l', btb_select p baddr = Ok (b, set_btb p l') ∧ order !! pos = Some b ∧
    branch_of <$> l' = branch_of <$> btb_data p ∧
    bp_btb_ok (set_btb p l') (<[btb_key p baddr := b :: delete pos order]> ords) ∧
    (match_idx (btb_data p) baddr b = true ∨
     (∀ i, i ∈ order → match_idx (btb_data p) baddr i = false) ∧ S pos = length order).
Proof.
  intros Hok Hb H0 Ho. pose proof (btb_set_members p ords baddr order Hok Hb Ho) as Hmem.
  pose proof (btb_set_seq p ords baddr Hok Hb) as Hseq.
  destruct Hok as [Hgeo Hok]. pose proof (bt_sets _ _ _ _ Hok _ _ Ho) as Hs.
  pose proof (btb_order_length _ _ _ _ Hs) as Hlen. pose proof (bt_assoc _ _ _ _ Hok) as Hpos.
  unfold btb_select. case_bool_decide as H1.
  - destruct (btb_scan_spec (btb_data p) (btb_set p baddr) baddr None None None)
      as (m & Hscan & Hm).
    { intros i Hi%Hmem. by eapply btb_index. }
    { rewrite Hseq. apply NoDup_seq. }
    { intros i j Hi%Hmem Hj%Hmem. by eapply match_unique. }
    { done. }
    destruct (lookup_lt_is_Some_2 order 0) as [h Hh]; [lia|].
    destruct (lookup_lt_is_Some_2 order (length order - 1)) as [t Ht]; [lia|].
    rewrite (keep_last_unique _ _ h), (keep_last_unique _ _ t) in Hscan; cycle 1.
    all: try (rewrite Hmem; by eapply list_elem_of_lookup_2).
    { intros i Hi%Hmem Hn%bool_decide_eq_true. apply (chain_ends _ order) in Hn; [|apply Hs..|done].
      rewrite last_index in Hn. congruence. }
    { apply bool_decide_eq_true, (chain_ends _ order); [apply Hs..|by eapply list_elem_of_lookup_2|].
      by rewrite last_index. }
    { intros i Hi%Hmem Hn%bool_decide_eq_true. apply (chain_ends _ order) in Hn; [|apply Hs..|done].
      rewrite head_lookup in Hn. congruence. }
    { apply bool_decide_eq_true, (chain_ends _ order); [apply Hs..|by eapply list_elem_of_lookup_2|].
      by rewrite head_lookup. }
    rewrite Hscan. cbn [mbind result_bind].
    assert (∃ b pos, deref (match m with Some b => Some b | None => Some t end) = Ok b ∧
      order !! pos = Some b ∧ (match_idx (btb_data p) baddr b = true ∨
      (∀ i, i ∈ order → match_idx (btb_data p) baddr i = false) ∧ S pos = length order))
      as (b & pos & -> & Hbp & Hcase).
    { destruct m as [b|].
      - destruct Hm as [?|[Hin Hmb]]; [done|]. apply Hmem, list_elem_of_lookup in Hin as [pos Hpb].
        exists b, pos. split_and!; [done|done|by left].
      - destruct Hm as [_ Hm]. exists t, (length order - 1)%nat. split_and!; [done|done|right].
        split; [|lia]. intros i Hi. apply Hm. by apply Hmem. }
    cbn [mbind result_bind]. rewrite <- Hh, <- head_lookup.
    destruct (btb_mru_spec (btb_data p) order pos b) as (l' & -> & Hbr & Hl' & Hout);
      [apply Hs| |apply Hs|done|].
    { intros i Hi. destruct (btb_index _ _ _ _ _ _ i Hok Ho Hi) as [e He]. by eapply lookup_lt_Some. }
    cbn [mbind result_bind]. exists b, pos, l'. split_and!; try done.
    split; [done|]. by eapply btb_ok_front.
  - assert (Z.to_nat (btb_assoc p) = 1%nat) as Ha by lia.
    rewrite Ha in Hlen. destruct order as [|b [|]]; try done.
    rewrite Hseq, Ha. simpl seq. cbn [head deref mbind result_bind].
    assert (b = (btb_key p baddr * 1)%nat) as ->.
    { assert (b ∈ btb_set p baddr) as Hin by (apply Hmem; by left).
      rewrite Hseq, Ha in Hin. simpl seq in Hin. by apply list_elem_of_singleton in Hin. }
    exists (btb_key p baddr * 1)%nat, 0%nat, (btb_data p). rewrite set_btb_same. simpl delete.
    rewrite list_insert_id by done. split_and!; try done.
    destruct (match_idx (btb_data p) baddr (btb_key p baddr * 1)) eqn:Hm; [by left|right].
    split; [|done]. intros i ->%list_elem_of_singleton. done.
Qed.

(** ** Writing the selected entry *)

(** The branches of a set, most recently used first. *)
Definition set_branches (l : list btb_ent) (order : list nat)
    : list (Z * option md_opcode * Z) :=
  omap (λ i, branch_of <$> l !! i) order.

Definition written (baddr btarget : Z) (correct : bool) (op : md_opcode)
    (br : Z * option md_opcode * Z) : Z * option md_opcode * Z :=
  if bool_decide (br.1.1 = baddr) then (baddr, br.1.2, if correct then br.2 else btarget)
  else (baddr, Some op, btarget).

Lemma branch_written baddr btarget correct op e :
  branch_of (btb_write baddr btarget correct op e) = written baddr btarget correct op (branch_of e).
Proof.
  unfold btb_write, written, branch_of. simpl. case_bool_decide; simpl; [|done].
  by subst.
Qed.

Lemma write_links (l : list btb_ent) b baddr btarget correct op c :
  let l' := alter (btb_write baddr btarget correct op) b l in
  next_of l' c = next_of l c ∧ prev_of l' c = prev_of l c.
Proof.
  simpl. unfold next_of, prev_of. rewrite list_lookup_alter. case_decide; [|done]. subst.
  destruct (l !! _) as [e|]; [|done]. simpl. unfold btb_write. by case_bool_decide.
Qed.

Lemma btb_ok_write sets assoc l ords k order b baddr btarget correct op :
  btb_ok sets assoc l ords → ords !! k = Some order → b ∈ order →
  (∀ i, i ∈ order → match_idx l baddr i = true → i = b) →
  btb_ok sets assoc (alter (btb_write baddr btarget correct op) b l) ords.
Proof.
  intros Hok Hk Hb Hu. split; rewrite ?length_alter; try apply Hok.
  intros j o Hj. destruct (bt_sets _ _ _ _ Hok j o Hj) as [Hnd Hall Hl Huq]. split; [done|done| |].
  - eapply links_ext; [|exact Hl]. intros c _. apply write_links.
  - assert (∀ i e, i ∈ o → i ≠ b → alter (btb_write baddr btarget correct op) b l !! i = Some e →
      l !! i = Some e) as Hne by (intros i e _ Hib; by rewrite list_lookup_alter_ne).
    assert (∀ e, alter (btb_write baddr btarget correct op) b l !! b = Some e →
      be_addr e = baddr) as Heq.
    { intros e. rewrite list_lookup_alter_eq. intros (x & _ & ->)%fmap_Some.
      unfold btb_write. by case_bool_decide. }
    assert (∀ i e, i ∈ o → b ∈ o → l !! i = Some e → be_addr e = baddr → i = b) as Hin.
    { intros i e Hi Hbo He Ha. apply Hu; [|unfold match_idx; by rewrite He, bool_decide_true].
      assert (j = k) as ->; [|congruence].
      apply Hall in Hbo. apply (bs_all _ _ _ _ (bt_sets _ _ _ _ Hok k order Hk)) in Hb. nia. }
    intros i i' ei ei' Hi Hi' Hei Hei' Ha H0.
    destruct (decide (i = b)) as [->|Hib], (decide (i' = b)) as [->|Hib']; [done|..].
    + apply Heq in Hei. apply Hne in Hei'; [|done|done]. symmetry. eapply Hin; try done. congruence.
    + apply Heq in Hei'. apply Hne in Hei; [|done|done]. eapply Hin; try done. congruence.
    + apply Hne in Hei, Hei'; try done. by apply (Huq i i' ei ei').
Qed.

Lemma set_branches_same (l l' : list btb_ent) order :
  branch_of <$> l' = branch_of <$> l → set_branches l' order = set_branches l order.
Proof.
  intros Hb. unfold set_branches. assert (∀ i, branch_of <$> l' !! i = branch_of <$> l !! i) as He.
  { intros i. rewrite <- !list_lookup_fmap. by rewrite Hb. }
  induction order as [|i order IH]; [done|]. cbn [omap list_omap]. by rewrite He, IH.
Qed.

Lemma set_branches_lookup (l : list btb_ent) order k :
  (∀ i, i ∈ order → ∃ e, l !! i = Some e) →
  set_branches l order !! k = order !! k ≫= λ i, branch_of <$> l !! i.
Proof.
  revert k. unfold set_branches. induction order as [|i order IH]; intros k He; [by destruct k|].
  destruct (He i) as [e Hi]; [by left|]. cbn [omap list_omap]. rewrite Hi.
  destruct k as [|k]; simpl; [by rewrite Hi|]. apply IH. intros j Hj. apply He. by right.
Qed.

Lemma set_branches_front (l : list btb_ent) order pos b baddr btarget correct op e :
  NoDup order → (∀ i, i ∈ order → ∃ e, l !! i = Some e) → order !! pos = Some b →
  l !! b = Some e →
  set_branches (alter (btb_write baddr btarget correct op) b l) (b :: delete pos order)
  = written baddr btarget correct op (branch_of e) :: delete pos (set_branches l order).
Proof.
  intros Hnd He Hpos Hb. unfold set_branches at 1. cbn [omap list_omap].
  rewrite list_lookup_alter_eq, Hb. simpl. rewrite branch_written. f_equal.
  apply list_eq. intros j.
  assert (∀ i, i ∈ delete pos order → i ≠ b ∧ i ∈ order) as Hdel.
  { intros i [m Hm]%list_elem_of_lookup. rewrite lookup_delete in Hm.
    split; [intros ->|destruct (decide _); by eapply list_elem_of_lookup_2].
    destruct (decide (m < pos)%nat); pose proof (nodup_index _ _ _ _ Hnd Hm Hpos); lia. }
  fold (set_branches (alter (btb_write baddr btarget correct op) b l) (delete pos order)).
  rewrite set_branches_lookup; last first.
  { intros i [Hib Hi]%Hdel. rewrite list_lookup_alter_ne by done. by apply He. }
  rewrite (lookup_delete (set_branches l order)), !(set_branches_lookup l order) by done.
  destruct (delete pos order !! j) as [i|] eqn:Hj.
  - destruct (Hdel i) as [Hib Hi]; [by eapply list_elem_of_lookup_2|].
    cbn [mbind option_bind]. rewrite list_lookup_alter_ne by done. rewrite lookup_delete in Hj.
    by destruct (decide (j < pos)%nat); rewrite Hj.
  - rewrite lookup_delete in Hj. by destruct (decide (j < pos)%nat); rewrite Hj.
Qed.
