(* ===== verification/BpredInv.v ===== *)
(** * bpred.c: the invariant of a predictor

    Tables of two-bit counters, history registers of [shift_width] bits, a
    return-address stack with its top in range, and a good BTB; what the lookup and
    the update do to it. *)

From S2P Require Import Prelude Chains Misc Memory Cache CacheInv Bpred BpredBtb.

(** ** Direction predictors *)

Definition counters_ok (t : list Z) : Prop := Forall (λ c, 0 ≤ c ≤ 3) t.

Definition dir_ok (d : bpred_dir_t) : Prop :=
  match d with
  | DirBimod size t =>
      (∃ k, 0 ≤ k < 31 ∧ size = 2 ^ k) ∧ Z.of_nat (length t) = size ∧ counters_ok t
  | DirTwo l1size l2size w _ regs t =>
      (∃ k, 0 ≤ k < 31 ∧ l1size = 2 ^ k) ∧ (∃ k, 0 ≤ k < 31 ∧ l2size = 2 ^ k) ∧
      1 ≤ w ≤ 30 ∧ Z.of_nat (length regs) = l1size ∧ Forall (λ r, 0 ≤ r < 2 ^ w) regs ∧
      Z.of_nat (length t) = l2size ∧ counters_ok t
  | DirTaken | DirNotTaken => True
  end.

(** Which union member a component holds. *)
Definition comp_shape (c : component) (d : bpred_dir_t) : Prop :=
  match c, d with
  | Twolev, DirTwo _ _ _ _ _ _ => True
  | (Bimod | Meta), DirBimod _ _ => True
  | _, _ => False
  end.

Definition comp_ok (p : bpred_t) (c : component) : Prop :=
  ∃ d, dirpred p c = Some d ∧ dir_ok d ∧ comp_shape c d.

Lemma mask_index a k : 0 ≤ a → 0 ≤ k → 0 ≤ Z.land a (2 ^ k - 1) < 2 ^ k.
Proof. intros Ha Hk. pose proof (land_mask a (2 ^ k - 1) Ha). lia. Qed.

Lemma br_shift_nonneg baddr : 0 ≤ baddr → 0 ≤ Z.shiftr baddr MD_BR_SHIFT.
Proof. apply Z.shiftr_nonneg. Qed.

Lemma l1_index_lt k baddr : 0 ≤ k → 0 ≤ baddr → (l1_index (2 ^ k) baddr < Z.to_nat (2 ^ k))%nat.
Proof.
  intros Hk Hb. unfold l1_index.
  pose proof (mask_index _ k (br_shift_nonneg baddr Hb) Hk). lia.
Qed.

Lemma dir_lookup_ok c d baddr :
  dir_ok d → comp_shape c d → 0 ≤ baddr →
  ∃ i, bpred_dir_lookup d baddr = Ok (Some i) ∧ (i < length (dir_table d))%nat.
Proof.
  intros Hd Hc Hb. destruct d as [size t|l1 l2 w x regs t| |]; try by destruct c.
  - destruct Hd as ((k & Hk & ->) & Hl & _). eexists. split; [reflexivity|]. cbn [dir_table].
    unfold BIMOD_HASH. assert (2 ^ k ≤ 2 ^ 30) by (apply Z.pow_le_mono_r; lia).
    pose proof (Z.pow_pos_nonneg 2 k). rewrite u32_small by lia.
    pose proof (mask_index (Z.lxor (Z.shiftr baddr 19) (Z.shiftr baddr MD_BR_SHIFT)) k).
    rewrite Z.lxor_nonneg, !Z.shiftr_nonneg in H1. lia.
  - destruct Hd as ((k1 & Hk1 & ->) & (k2 & Hk2 & ->) & Hw & Hr & Hrs & Hl & _).
    pose proof (l1_index_lt k1 baddr (proj1 Hk1) Hb) as H1.
    destruct (lookup_lt_is_Some_2 regs (l1_index (2 ^ k1) baddr)) as [r Hreg]; [lia|].
    cbn [bpred_dir_lookup]. unfold vget. rewrite Hreg. cbn [mbind result_bind].
    eexists. split; [reflexivity|]. cbn [dir_table]. unfold l2_index.
    pose proof (Forall_lookup_1 _ _ _ _ Hrs Hreg) as Hr0. simpl in Hr0.
    pose proof (br_shift_nonneg baddr Hb) as Hs.
    pose proof (u32_range (Z.shiftl (Z.shiftr baddr MD_BR_SHIFT) w)) as Hu.
    pose proof (Z.pow_pos_nonneg 2 k2).
    match goal with |- context [Z.land ?a (2 ^ k2 - 1)] =>
      assert (0 ≤ a) as Ha; [|pose proof (mask_index a k2 Ha); lia] end.
    case_bool_decide; apply Z.lor_nonneg; (split; [|lia]); [|lia].
    apply Z.land_nonneg. left. by apply Z.lxor_nonneg; split; intros; lia.
Qed.

(** A pointer into a table of the predictor. *)
Definition ptr_ok (p : bpred_t) (o : option dir_ptr) : Prop :=
  match o with
  | None => True
  | Some (c, i) => ∃ d, dirpred p c = Some d ∧ dir_ok d ∧ comp_shape c d ∧
                        (i < length (dir_table d))%nat
  end.

Definition upd_ok (p : bpred_t) (u : bpred_update_t) : Prop :=
  ptr_ok p (pdir1 u) ∧ ptr_ok p (pdir2 u) ∧ ptr_ok p (pmeta u).

Lemma comp_lookup_ok p c baddr :
  comp_ok p c → 0 ≤ baddr → ∃ i, comp_lookup p c baddr = Ok (Some (c, i)) ∧ ptr_ok p (Some (c, i)).
Proof.
  intros (d & Hd & Hok & Hc) Hb. destruct (dir_lookup_ok c d baddr Hok Hc Hb) as (i & Hi & Hl).
  exists i. unfold comp_lookup. rewrite Hd. cbn [deref mbind result_bind]. rewrite Hi.
  split; [done|]. by exists d.
Qed.

Lemma table_counters d : dir_ok d → counters_ok (dir_table d).
Proof. destruct d; simpl; [tauto|tauto|constructor..]. Qed.

Lemma dir_get_ok p o : ptr_ok p o → o ≠ None → ∃ v, dir_get p o = Ok v ∧ 0 ≤ v ≤ 3.
Proof.
  destruct o as [[c i]|]; [|done]. intros (d & Hd & Hok & _ & Hi) _. unfold dir_get.
  cbn [deref mbind result_bind]. rewrite Hd. cbn [deref mbind result_bind].
  destruct (lookup_lt_is_Some_2 _ _ Hi) as [v Hv]. unfold vget. rewrite Hv. exists v.
  split; [done|]. by apply (Forall_lookup_1 _ _ _ _ (table_counters d Hok) Hv).
Qed.

Lemma saturate_ok taken c : 0 ≤ c ≤ 3 → 0 ≤ saturate taken c ≤ 3.
Proof. intros H. unfold saturate. destruct taken; case_bool_decide; lia. Qed.

(** The same predictor but for counters and history. *)
Definition same_but_dirs (p p' : bpred_t) : Prop :=
  bp_class p' = bp_class p ∧ btb_sets p' = btb_sets p ∧ btb_assoc p' = btb_assoc p ∧
  btb_data p' = btb_data p ∧ rs_size p' = rs_size p ∧ rs_tos p' = rs_tos p ∧
  rs_stack p' = rs_stack p.

#[export] Instance same_but_dirs_po : PreOrder same_but_dirs.
Proof.
  unfold same_but_dirs. split; [done|]. intros x y z (?&?&?&?&?&?&?) (?&?&?&?&?&?&?).
  split_and!; congruence.
Qed.

(** Components of [p'] are good where those of [p] are, with tables as long. *)
Definition dirs_kept (p p' : bpred_t) : Prop :=
  ∀ c d, dirpred p c = Some d → dir_ok d → comp_shape c d →
  ∃ d', dirpred p' c = Some d' ∧ dir_ok d' ∧ comp_shape c d' ∧
        length (dir_table d') = length (dir_table d).

#[export] Instance dirs_kept_po : PreOrder dirs_kept.
Proof.
  split.
  - intros p c d Hd Ho Hs. by exists d.
  - intros p q r H1 H2 c d Hd Ho Hs. destruct (H1 c d Hd Ho Hs) as (d1 & Hd1 & Ho1 & Hs1 & Hl1).
    destruct (H2 c d1 Hd1 Ho1 Hs1) as (d2 & ? & ? & ? & ?). exists d2. split_and!; try done. congruence.
Qed.

Lemma ptr_kept p p' o : dirs_kept p p' → ptr_ok p o → ptr_ok p' o.
Proof.
  intros Hk. destruct o as [[c i]|]; [|done]. intros (d & Hd & Ho & Hs & Hi).
  destruct (Hk c d Hd Ho Hs) as (d' & ? & ? & ? & ?). exists d'. split_and!; try done. lia.
Qed.

Lemma set_dir_kept p c d d' :
  dirpred p c = Some d → dir_ok d' → comp_shape c d' → length (dir_table d') = length (dir_table d) →
  dirs_kept p (set_dir p c d').
Proof.
  intros Hd Ho Hs Hl c0 d0 Hd0 Ho0 Hs0. unfold set_dir. cbn [dirpred]. case_decide as Hc.
  - subst. rewrite Hd in Hd0. injection Hd0 as <-. by exists d'.
  - by exists d0.
Qed.

Lemma alter_counters t i b : counters_ok t → counters_ok (alter (saturate b) i t).
Proof. intros H. apply Forall_alter; [done|]. intros c _ Hc. by apply saturate_ok. Qed.

Lemma dir_update_ok p o taken :
  ptr_ok p o → ∃ p', dir_update p o taken = Ok p' ∧ same_but_dirs p p' ∧ dirs_kept p p'.
Proof.
  destruct o as [[c i]|]; [|by exists p]. intros (d & Hd & Hok & Hs & Hi).
  unfold dir_update. rewrite Hd. cbn [deref mbind result_bind]. rewrite vupd_alter by done.
  cbn [mbind result_bind]. eexists. split; [reflexivity|]. split; [done|].
  assert (dir_table (set_table (alter (saturate taken) i (dir_table d)) d)
          = alter (saturate taken) i (dir_table d)) as Ht by (by destruct d).
  apply (set_dir_kept _ _ d); [done| |by destruct d|by rewrite Ht, length_alter].
  pose proof (alter_counters _ i taken (table_counters d Hok)).
  destruct d; simpl in *; rewrite ?length_alter; tauto.
Qed.

Lemma update_history_ok p baddr taken :
  comp_ok p Twolev → 0 ≤ baddr →
  ∃ p', update_history p baddr taken = Ok p' ∧ same_but_dirs p p' ∧ dirs_kept p p'.
Proof.
  intros (d & Hd & Hok & Hs) Hb. unfold update_history. rewrite Hd. cbn [deref mbind result_bind].
  destruct d as [|l1 l2 w x regs t| |]; try done.
  destruct Hok as ((k1 & Hk1 & ->) & Hl2 & Hw & Hr & Hrs & Hl & Hct).
  pose proof (l1_index_lt k1 baddr (proj1 Hk1) Hb) as H1.
  rewrite vupd_alter by lia. cbn [mbind result_bind]. eexists. split; [reflexivity|].
  split; [done|]. eapply set_dir_kept; [exact Hd| |done|done].
  cbn [dir_ok]. rewrite length_alter. split_and!; try done; [by exists k1|lia|lia|].
  apply Forall_alter; [done|]. intros r _ Hr0. simpl in Hr0.
  rewrite (Z.shiftl_mul_pow2 1), Z.mul_1_l by lia. apply mask_index; [|lia].
  apply Z.lor_nonneg. split; [apply Z.shiftl_nonneg; lia|by destruct taken].
Qed.

Lemma update_dirs_ok p taken u :
  upd_ok p u → ∃ p', update_dirs p taken u = Ok p' ∧ same_but_dirs p p' ∧ dirs_kept p p'.
Proof.
  intros (H1 & H2 & H3). unfold update_dirs.
  destruct (dir_update_ok p (pdir1 u) taken H1) as (p1 & -> & Hs1 & Hk1). cbn [mbind result_bind].
  destruct (dir_update_ok p1 (pdir2 u) taken (ptr_kept _ _ _ Hk1 H2)) as (p2 & -> & Hs2 & Hk2).
  cbn [mbind result_bind].
  assert (dirs_kept p p2) as Hk by (by etrans). assert (same_but_dirs p p2) as Hs by (by etrans).
  destruct (_ && _); [|by exists p2].
  destruct (dir_update_ok p2 (pmeta u) (Bool.eqb (d_twolev u) taken) (ptr_kept _ _ _ Hk H3))
    as (p3 & -> & Hs3 & Hk3).
  exists p3. split; [done|]. split; by etrans.
Qed.

(** ** The invariant *)

Definition stateful (c : bpred_class) : Prop := c ≠ BPredTaken ∧ c ≠ BPredNotTaken.

Definition class_dirs (p : bpred_t) : Prop :=
  match bp_class p with
  | BPredComb => comp_ok p Bimod ∧ comp_ok p Twolev ∧ comp_ok p Meta
  | BPred2Level => comp_ok p Twolev
  | BPred2bit => comp_ok p Bimod
  | BPredTaken | BPredNotTaken => False
  end.

Definition ras_ok (p : bpred_t) : Prop :=
  0 ≤ rs_size p < 2 ^ 31 ∧ length (rs_stack p) = Z.to_nat (rs_size p) ∧
  (rs_size p ≠ 0 → 0 ≤ rs_tos p < rs_size p).

(** The invariant of a predictor of a stateful class. *)
Record bpred_ok (p : bpred_t) (ords : list (list nat)) : Prop := {
  po_dirs : class_dirs p;
  po_btb : bp_btb_ok p ords;
  po_ras : ras_ok p
}.

Lemma comp_kept p p' c : dirs_kept p p' → comp_ok p c → comp_ok p' c.
Proof. intros Hk (d & Hd & Ho & Hs). destruct (Hk c d Hd Ho Hs) as (d' & ? & ? & ? & _). by exists d'. Qed.

Lemma class_dirs_kept p p' :
  dirs_kept p p' → bp_class p' = bp_class p → class_dirs p → class_dirs p'.
Proof.
  intros Hk Hc. unfold class_dirs. rewrite Hc.
  destruct (bp_class p); try done; [|by apply comp_kept..].
  intros (? & ? & ?). split_and!; by eapply comp_kept.
Qed.

Lemma bpred_ok_kept p p' ords :
  same_but_dirs p p' → dirs_kept p p' → bpred_ok p ords → bpred_ok p' ords.
Proof.
  intros (Hc & Hs & Ha & Hd & Hz & Ht & Hst) Hk [H1 H2 H3]. split.
  - by eapply class_dirs_kept.
  - unfold bp_btb_ok. by rewrite Hs, Ha, Hd.
  - unfold ras_ok. by rewrite Hz, Ht, Hst.
Qed.

Lemma count_same c p : same_but_dirs p (count c p) ∧ dirs_kept p (count c p).
Proof. split; [done|]. intros c0 d Hd Ho Hs. by exists d. Qed.

Lemma count_if_same b c p : same_but_dirs p (count_if b c p) ∧ dirs_kept p (count_if b c p).
Proof. destruct b; [apply count_same|done]. Qed.

(** Everything but the statistics. *)
Definition same_state (p p' : bpred_t) : Prop := same_but_dirs p p' ∧ dirpred p' = dirpred p.

#[export] Instance same_state_po : PreOrder same_state.
Proof.
  split; [by split|]. intros x y z [H1 H2] [H3 H4]. split; [by etrans|congruence].
Qed.

Lemma same_state_kept p p' : same_state p p' → dirs_kept p p'.
Proof. intros [_ He] c d Hd Ho Hs. exists d. by rewrite He. Qed.

Lemma update_stats_same p taken pred_taken correct op u :
  same_state p (update_stats p taken pred_taken correct op u).
Proof.
  unfold update_stats.
  repeat match goal with |- context [if ?b then _ else _] => destruct b end;
    unfold count_if; repeat match goal with |- context [if ?b then _ else _] => destruct b end; done.
Qed.

(** ** The return-address stack *)

Lemma rem_range a n : 0 ≤ a → 0 < n → 0 ≤ Z.rem a n < n.
Proof. intros. apply Z.rem_bound_pos; lia. Qed.

Lemma ras_pop_ok p :
  ras_ok p → rs_size p ≠ 0 →
  ∃ t p', ras_pop p = Ok (t, p') ∧ rs_stack p !! Z.to_nat (rs_tos p) = Some t ∧
    ras_ok p' ∧ rs_size p' = rs_size p ∧ rs_stack p' = rs_stack p ∧
    rs_tos p' = (rs_tos p - 1) mod rs_size p ∧
    bp_class p' = bp_class p ∧ btb_sets p' = btb_sets p ∧ btb_assoc p' = btb_assoc p ∧
    btb_data p' = btb_data p ∧ dirpred p' = dirpred p.
Proof.
  intros (Hs & Hl & Ht) H0. specialize (Ht H0). unfold ras_pop, vget.
  destruct (lookup_lt_is_Some_2 (rs_stack p) (Z.to_nat (rs_tos p))) as [t Hst]; [lia|].
  rewrite Hst. cbn [mbind result_bind]. eexists _, _. split; [reflexivity|]. split; [done|].
  assert (Z.rem (rs_tos p + rs_size p - 1) (rs_size p) = (rs_tos p - 1) mod rs_size p) as Hr.
  { rewrite Z.rem_mod_nonneg by lia.
    replace (rs_tos p + rs_size p - 1) with (rs_tos p - 1 + 1 * rs_size p) by lia.
    by rewrite Z_mod_plus_full. }
  split; [|split_and!; try done; exact Hr].
  split; [done|]. split; [done|]. intros _. cbn [rs_tos rs_size count set_ras].
  rewrite Hr. apply Z.mod_pos_bound. lia.
Qed.

Lemma ras_push_ok p baddr :
  ras_ok p → rs_size p ≠ 0 →
  ∃ p', ras_push p baddr = Ok p' ∧
    rs_stack p' = <[Z.to_nat ((rs_tos p + 1) mod rs_size p) := u32 (baddr + inst_size)]> (rs_stack p) ∧
    ras_ok p' ∧ rs_size p' = rs_size p ∧ rs_tos p' = (rs_tos p + 1) mod rs_size p ∧
    bp_class p' = bp_class p ∧ btb_sets p' = btb_sets p ∧ btb_assoc p' = btb_assoc p ∧
    btb_data p' = btb_data p ∧ dirpred p' = dirpred p.
Proof.
  intros (Hs & Hl & Ht) H0. specialize (Ht H0). unfold ras_push.
  assert (Z.rem (rs_tos p + 1) (rs_size p) = (rs_tos p + 1) mod rs_size p) as ->
    by (apply Z.rem_mod_nonneg; lia).
  pose proof (Z.mod_pos_bound (rs_tos p + 1) (rs_size p)) as Hm.
  destruct (lookup_lt_is_Some_2 (rs_stack p) (Z.to_nat ((rs_tos p + 1) mod rs_size p)))
    as [t Hst]; [lia|].
  unfold vset. rewrite Hst. cbn [mbind result_bind]. eexists. split; [reflexivity|].
  split; [done|]. split; [|done]. unfold ras_ok.
  cbn [rs_size rs_stack rs_tos count set_ras]. rewrite length_insert. split_and!; try done; lia.
Qed.

(** ** Lookup *)

Lemma btb_find_ok l idxs baddr :
  (∀ i, i ∈ idxs → ∃ e, l !! i = Some e) →
  ∃ o, btb_find l idxs baddr = Ok o ∧
    match o with
    | Some i => i ∈ idxs ∧ match_idx l baddr i = true
    | None => ∀ i, i ∈ idxs → match_idx l baddr i = false
    end.
Proof.
  induction idxs as [|i idxs IH]; intros He.
  { exists None. split; [done|]. set_solver. }
  destruct (He i) as [e Hi]; [by left|]. cbn [btb_find]. unfold vget. rewrite Hi.
  cbn [mbind result_bind].
  assert (match_idx l baddr i = bool_decide (be_addr e = baddr)) as Hm
    by (unfold match_idx; by rewrite Hi).
  destruct (bool_decide (be_addr e = baddr)).
  - exists (Some i). split; [done|]. split; [by left|done].
  - destruct IH as (o & Ho & Hc); [intros; apply He; by right|]. exists o. split; [done|].
    destruct o as [j|]; [destruct Hc; split; [by right|done]|].
    intros j [->|Hj]%elem_of_cons; [done|by apply Hc].
Qed.

(** What the BTB says of an address. *)
Definition btb_hit (p : bpred_t) (ords : list (list nat)) (baddr : Z) : option Z :=
  match ords !! btb_key p baddr with
  | Some order =>
      snd <$> head (base.filter (λ br : Z * option md_opcode * Z, br.1.1 = baddr)
                 (set_branches (btb_data p) order))
  | None => None
  end.

Lemma head_filter_Some {A} (P : A → Prop) `{∀ x, Decision (P x)} (l : list A) x :
  x ∈ l → P x → (∀ y, y ∈ l → P y → y = x) → head (base.filter P l) = Some x.
Proof.
  intros Hx HP Hu. destruct (base.filter P l) as [|y l'] eqn:Hf.
  - assert (x ∈ base.filter P l) as Hin by (by apply list_elem_of_filter). rewrite Hf in Hin.
    by apply elem_of_nil in Hin.
  - assert (y ∈ base.filter P l) as Hin by (rewrite Hf; by left).
    apply list_elem_of_filter in Hin as [HPy Hy]. simpl. by rewrite (Hu y).
Qed.

Lemma head_filter_None {A} (P : A → Prop) `{∀ x, Decision (P x)} (l : list A) :
  (∀ y, y ∈ l → ¬ P y) → head (base.filter P l) = None.
Proof.
  intros Hn. destruct (base.filter P l) as [|y l'] eqn:Hf; [done|].
  assert (y ∈ base.filter P l) as Hin by (rewrite Hf; by left).
  apply list_elem_of_filter in Hin as [HPy Hy]. by destruct (Hn y).
Qed.

Lemma elem_set_branches (l : list btb_ent) order br :
  br ∈ set_branches l order ↔ ∃ i e, i ∈ order ∧ l !! i = Some e ∧ branch_of e = br.
Proof.
  unfold set_branches. rewrite list_elem_of_omap. split.
  - intros (i & Hi & Hb). destruct (l !! i) as [e|] eqn:He; [|done]. exists i, e.
    split_and!; [done|done|]. simpl in Hb. congruence.
  - intros (i & e & Hi & He & Hb). exists i. split; [done|]. by rewrite He, <- Hb.
Qed.

Lemma lookup_btb_ok p ords baddr op u :
  bp_btb_ok p ords → 0 ≤ baddr → baddr ≠ 0 →
  (is_uncond op = false → ∃ v, dir_get p (pdir1 u) = Ok v ∧ 0 ≤ v ≤ 3) →
  ∃ r, lookup_btb p baddr op u = Ok r ∧
    (is_uncond op = true → r = default 1 (btb_hit p ords baddr)) ∧
    (is_uncond op = false → ∃ v, dir_get p (pdir1 u) = Ok v ∧
       r = if bool_decide (2 ≤ v) then default 1 (btb_hit p ords baddr) else 0).
Proof.
  intros Hok Hb H0 Hdir. destruct (btb_key_lt p ords baddr Hok Hb) as [order Ho].
  pose proof (btb_set_members p ords baddr order Hok Hb Ho) as Hmem.
  pose proof (bt_sets _ _ _ _ (proj2 Hok) _ _ Ho) as Hs.
  destruct (btb_find_ok (btb_data p) (btb_set p baddr) baddr) as (o & Hf & Hc).
  { intros i Hi%Hmem. by eapply btb_index; [apply Hok|..]. }
  unfold lookup_btb. rewrite Hf. cbn [mbind result_bind].
  assert (match o with
          | Some i => e ← vget (btb_data p) i; Ok (be_target e)
          | None => Ok 1
          end = Ok (default 1 (btb_hit p ords baddr))) as ->.
  { unfold btb_hit. rewrite Ho. destruct o as [i|].
    - destruct Hc as [Hi Hm]. unfold match_idx in Hm.
      destruct (btb_data p !! i) as [e|] eqn:He; [|done]. unfold vget. rewrite He.
      cbn [mbind result_bind]. apply bool_decide_eq_true in Hm. f_equal.
      rewrite (head_filter_Some _ _ (branch_of e)); [done| |done|].
      + apply elem_set_branches. exists i, e. rewrite <- Hmem. done.
      + intros br (j & ej & Hj & Hej & <-)%elem_set_branches Haddr. simpl in Haddr.
        assert (j = i) as ->; [|congruence].
        apply (bs_unique _ _ _ _ Hs j i ej e); try done; [by apply Hmem|congruence|congruence].
    - rewrite head_filter_None; [done|]. intros br (j & ej & Hj & Hej & <-)%elem_set_branches Ha.
      apply Hmem in Hj. specialize (Hc j Hj). unfold match_idx in Hc. rewrite Hej in Hc.
      apply bool_decide_eq_false in Hc. done. }
  cbn [mbind result_bind]. destruct (is_uncond op) eqn:Hun; [by eexists|].
  destruct (Hdir eq_refl) as (v & Hv & _). rewrite Hv. cbn [mbind result_bind].
  eexists. split; [reflexivity|]. split; [done|]. intros _. by exists v.
Qed.

Lemma lookup_dirs_ok p baddr op u :
  class_dirs p → 0 ≤ baddr →
  ∃ u', lookup_dirs p baddr op u = Ok u' ∧ upd_ok p u' ∧ d_ras u' = false ∧
    (is_uncond op = false → pdir1 u' ≠ None) ∧ (is_uncond op = true → pdir1 u' = None).
Proof.
  intros Hd Hb. unfold lookup_dirs. destruct (is_uncond op); [by eexists|].
  unfold class_dirs in Hd. destruct (bp_class p); try done.
  - destruct Hd as (Hbi & Htw & Hme).
    destruct (comp_lookup_ok _ _ baddr Hbi Hb) as (i & -> & Hi).
    destruct (comp_lookup_ok _ _ baddr Htw Hb) as (j & -> & Hj).
    destruct (comp_lookup_ok _ _ baddr Hme Hb) as (m & -> & Hm).
    cbn [mbind result_bind].
    destruct (dir_get_ok _ _ Hm) as (vm & -> & _); [done|]. cbn [mbind result_bind].
    destruct (dir_get_ok _ _ Hi) as (vi & -> & _); [done|]. cbn [mbind result_bind].
    destruct (dir_get_ok _ _ Hj) as (vj & -> & _); [done|]. cbn [mbind result_bind].
    eexists. split; [reflexivity|]. unfold upd_ok. cbn [pdir1 pdir2 pmeta d_ras].
    by case_bool_decide.
  - destruct (comp_lookup_ok _ _ baddr Hd Hb) as (j & -> & Hj). cbn [mbind result_bind]. by eexists.
  - destruct (comp_lookup_ok _ _ baddr Hd Hb) as (j & -> & Hj). cbn [mbind result_bind]. by eexists.
Qed.

(** A lookup of a control instruction by a stateful predictor. *)
Lemma bpred_lookup_ok p ords baddr btarget op is_call is_return u sidx :
  bpred_ok p ords → stateful (bp_class p) → is_ctrl op = true → 0 < baddr →
  ∃ r u' p', bpred_lookup p baddr btarget op is_call is_return u sidx
    = Ok (r, u', if bool_decide (rs_size p ≠ 0) then rs_tos p else 0, p') ∧
    bpred_ok p' ords ∧ upd_ok p' u' ∧ bp_class p' = bp_class p ∧ dirpred p' = dirpred p ∧
    btb_data p' = btb_data p ∧ btb_sets p' = btb_sets p ∧ rs_size p' = rs_size p ∧
    if is_return && bool_decide (rs_size p ≠ 0) then
      rs_stack p !! Z.to_nat (rs_tos p) = Some r ∧ rs_stack p' = rs_stack p ∧
      rs_tos p' = (rs_tos p - 1) mod rs_size p ∧ d_ras u' = true
    else
      d_ras u' = false ∧
      (is_uncond op = true → r = default 1 (btb_hit p ords baddr)) ∧
      (is_uncond op = false → ∃ v, dir_get p (pdir1 u') = Ok v ∧
         r = if bool_decide (2 ≤ v) then default 1 (btb_hit p ords baddr) else 0) ∧
      if is_call && bool_decide (rs_size p ≠ 0) then
        rs_tos p' = (rs_tos p + 1) mod rs_size p ∧
        rs_stack p' = <[Z.to_nat (rs_tos p') := u32 (baddr + inst_size)]> (rs_stack p)
      else rs_tos p' = rs_tos p ∧ rs_stack p' = rs_stack p.
Proof.
  intros [Hd Hbt Hra] Hst Hct Hb. unfold bpred_lookup. rewrite Hct. cbn [negb].
  set (p0 := count lookups p).
  destruct (lookup_dirs_ok p0 baddr op u) as (u' & Hld & Hu & Hr & Hne & Hnone);
    [exact Hd|lia|]. rewrite Hld. cbn [mbind result_bind].
  assert (∀ A (x y z : A), match bp_class p0 with BPredTaken => x | BPredNotTaken => y | _ => z end = z)
    as Hcl by (intros; destruct Hst; change (bp_class p0) with (bp_class p); by destruct (bp_class p)).
  rewrite Hcl. change (rs_size p0) with (rs_size p). change (rs_tos p0) with (rs_tos p).
  assert (ras_ok p0) as Hra0 by exact Hra.
  destruct (is_return && bool_decide (rs_size p ≠ 0)) eqn:Hret.
  - apply andb_true_iff in Hret as [_ Hsz%bool_decide_eq_true].
    destruct (ras_pop_ok p0 Hra0 Hsz) as (t & p1 & -> & Ht & Hra1 & Hsz1 & Hst1 & Htos1 &
      Hc1 & Hs1 & Ha1 & Hb1 & Hd1). cbn [mbind result_bind].
    eexists _, _, p1. split; [reflexivity|].
    split; [|split; [|split_and!; done]].
    + split; [|unfold bp_btb_ok; by rewrite Hs1, Ha1, Hb1|done].
      eapply (class_dirs_kept p); [|by rewrite Hc1|done]. intros c d Hcd Ho Hs. exists d.
      by rewrite Hd1.
    + destruct Hu as (H1 & H2 & H3). unfold upd_ok. cbn [pdir1 pdir2 pmeta].
      assert (dirs_kept p0 p1) as Hk by (intros c d Hcd Ho Hs; exists d; by rewrite Hd1).
      split_and!; by eapply ptr_kept.
  - assert (∃ p1, (if is_call && bool_decide (rs_size p ≠ 0) then ras_push p0 baddr else Ok p0) = Ok p1 ∧
      (if is_call && bool_decide (rs_size p ≠ 0) then
        rs_tos p1 = (rs_tos p + 1) mod rs_size p ∧
        rs_stack p1 = <[Z.to_nat (rs_tos p1) := u32 (baddr + inst_size)]> (rs_stack p)
       else rs_tos p1 = rs_tos p ∧ rs_stack p1 = rs_stack p) ∧
      ras_ok p1 ∧ rs_size p1 = rs_size p ∧ bp_class p1 = bp_class p ∧ btb_sets p1 = btb_sets p ∧
      btb_assoc p1 = btb_assoc p ∧ btb_data p1 = btb_data p ∧ dirpred p1 = dirpred p)
      as (p1 & -> & Htos & Hra1 & Hsz1 & Hc1 & Hs1 & Ha1 & Hb1 & Hd1).
    { destruct (is_call && bool_decide (rs_size p ≠ 0)) eqn:Hcall; [|by exists p0].
      apply andb_true_iff in Hcall as [_ Hsz%bool_decide_eq_true].
      destruct (ras_push_ok p0 baddr Hra0 Hsz) as (p1 & -> & Hstk & Hra1 & Hsz1 & Htos & ? & ? & ? & ? & ?).
      exists p1. split; [done|]. split; [|done]. split; [done|]. by rewrite Hstk, Htos. }
    cbn [mbind result_bind].
    assert (dirs_kept p0 p1) as Hk by (intros c d Hcd Ho Hs; exists d; by rewrite Hd1).
    assert (upd_ok p1 u') as Hu1.
    { destruct Hu as (H1 & H2 & H3). split_and!; by eapply ptr_kept. }
    assert (bp_btb_ok p1 ords) as Hbt1 by (unfold bp_btb_ok; by rewrite Hs1, Ha1, Hb1).
    assert (∀ o, dir_get p1 o = dir_get p o) as Hdg by (intros o; unfold dir_get; by rewrite Hd1).
    assert (btb_hit p1 ords baddr = btb_hit p ords baddr) as Hbh
      by (unfold btb_hit, btb_key; by rewrite Hs1, Hb1).
    destruct (lookup_btb_ok p1 ords baddr op u') as (r & -> & Hr1 & Hr2); [done|lia|lia| |].
    { intros Hun. apply dir_get_ok; [apply Hu1|by apply Hne]. }
    cbn [mbind result_bind]. exists r, u', p1. split; [done|]. rewrite Hbh in Hr1, Hr2.
    split; [|split_and!; try done; intros Hun; destruct (Hr2 Hun) as (v & Hv & ->); exists v;
      by rewrite Hdg in Hv].
    split; [|done|done]. eapply (class_dirs_kept p); [exact Hk|done|done].
Qed.

(** ** Update *)

(** Where the branch is, or the least recently used place. *)
Definition btb_place (baddr : Z) (brs : list (Z * option md_opcode * Z)) : nat :=
  match list_find (λ br : Z * option md_opcode * Z, br.1.1 = baddr) brs with
  | Some (k, _) => k
  | None => (length brs - 1)%nat
  end.

(** What a taken branch does to the branches of its set. *)
Definition btb_train (baddr btarget : Z) (correct : bool) (op : md_opcode)
    (brs : list (Z * option md_opcode * Z)) : list (Z * option md_opcode * Z) :=
  match brs !! btb_place baddr brs with
  | Some br => written baddr btarget correct op br :: delete (btb_place baddr brs) brs
  | None => brs
  end.

(** The branches of set [k]. *)
Definition branches (p : bpred_t) (ords : list (list nat)) (k : nat)
    : list (Z * option md_opcode * Z) :=
  match ords !! k with Some order => set_branches (btb_data p) order | None => [] end.

Lemma match_branch l baddr i e :
  l !! i = Some e → match_idx l baddr i = bool_decide ((branch_of e).1.1 = baddr).
Proof. intros He. unfold match_idx. by rewrite He. Qed.

(** The chosen position is the place of the branch. *)
Lemma place_pos assoc l k order baddr pos b :
  btb_set_ok assoc l k order → (∀ i, i ∈ order → ∃ e, l !! i = Some e) → baddr ≠ 0 →
  order !! pos = Some b →
  (match_idx l baddr b = true ∨
   (∀ i, i ∈ order → match_idx l baddr i = false) ∧ S pos = length order) →
  btb_place baddr (set_branches l order) = pos.
Proof.
  intros Hs He H0 Hpos Hcase. unfold btb_place.
  assert (∀ j br, set_branches l order !! j = Some br →
    ∃ i e, order !! j = Some i ∧ l !! i = Some e ∧ br = branch_of e) as Hlk.
  { intros j br. rewrite set_branches_lookup by done. destruct (order !! j) as [i|] eqn:Hj; [|done].
    simpl. destruct (l !! i) as [e|] eqn:Hi; [|done]. intros [= <-]. by exists i, e. }
  destruct Hcase as [Hm|[Hm Hlast]].
  - destruct (He b) as [e Hb]; [by eapply list_elem_of_lookup_2|].
    assert (list_find (λ br : Z * option md_opcode * Z, br.1.1 = baddr) (set_branches l order)
            = Some (pos, branch_of e)) as ->; [|done].
    rewrite (match_branch _ _ _ _ Hb) in Hm. apply bool_decide_eq_true in Hm.
    apply list_find_Some. split_and!.
    + rewrite set_branches_lookup, Hpos by done. simpl. by rewrite Hb.
    + done.
    + intros j br Hj Hjp Hbr. destruct (Hlk j br Hj) as (i & ei & Hi & Hei & ->).
      assert (i = b) as ->.
      { eapply (match_unique _ _ _ _ baddr i b Hs H0); [by eapply list_elem_of_lookup_2..| |];
        [rewrite (match_branch _ _ _ _ Hei)|rewrite (match_branch _ _ _ _ Hb)];
        by apply bool_decide_eq_true. }
      pose proof (nodup_index _ _ _ _ (bs_nodup _ _ _ _ Hs) Hi Hpos). lia.
  - assert (list_find (λ br : Z * option md_opcode * Z, br.1.1 = baddr) (set_branches l order) = None)
      as ->.
    { apply list_find_None, Forall_forall. intros br [j Hj]%list_elem_of_lookup Hbr.
      destruct (Hlk j br Hj) as (i & ei & Hi & Hei & ->).
      specialize (Hm i ltac:(by eapply list_elem_of_lookup_2)).
      rewrite (match_branch _ _ _ _ Hei) in Hm. by apply bool_decide_eq_false in Hm. }
    assert (length (set_branches l order) = length order) as ->; [|lia].
    unfold set_branches. clear -He. induction order as [|i order IH]; [done|].
    destruct (He i) as [e Hi]; [by left|]. cbn [omap list_omap]. rewrite Hi. simpl. f_equal.
    apply IH. intros j Hj. apply He. by right.
Qed.

(** The BTB part of an update: select the entry, then write it. *)
Lemma btb_update_spec p ords baddr btarget correct op :
  bp_btb_ok p ords → 0 < baddr →
  ∃ b l1 ords', btb_select p baddr = Ok (b, set_btb p l1) ∧ (b < length l1)%nat ∧
    ∀ p2, btb_sets p2 = btb_sets p → btb_assoc p2 = btb_assoc p →
      btb_data p2 = alter (btb_write baddr btarget correct op) b l1 →
      bp_btb_ok p2 ords' ∧
      branches p2 ords' (btb_key p baddr)
      = btb_train baddr btarget correct op (branches p ords (btb_key p baddr)) ∧
      ∀ k, k ≠ btb_key p baddr → branches p2 ords' k = branches p ords k.
Proof.
  intros Hok Hb. destruct (btb_key_lt p ords baddr Hok) as [order Ho]; [lia|].
  destruct (btb_select_spec p ords baddr order Hok) as (b & pos & l1 & Hsel & Hpos & Hbr & Hok1 & Hcase);
    [lia|lia|done|].
  set (ords' := <[btb_key p baddr := b :: delete pos order]> ords) in *.
  pose proof (bt_sets _ _ _ _ (proj2 Hok) _ _ Ho) as Hs.
  assert (ords' !! btb_key p baddr = Some (b :: delete pos order)) as Ho'
    by (apply list_lookup_insert_eq; by eapply lookup_lt_Some).
  destruct (move_members order pos b Hpos (bs_nodup _ _ _ _ Hs)) as [Hperm _].
  assert (∀ i, i ∈ order → ∃ e, btb_data p !! i = Some e) as He
    by (intros i Hi; by eapply btb_index; [apply Hok|..]).
  assert (∀ i, i ∈ order → ∃ e, l1 !! i = Some e) as He1.
  { intros i Hi. eapply (btb_index _ _ _ _ _ _ i (proj2 Hok1) Ho'). by apply Hperm. }
  destruct (He1 b) as [e1 Hb1]; [by eapply list_elem_of_lookup_2|].
  assert (∀ i, match_idx l1 baddr i = match_idx (btb_data p) baddr i) as Hmi.
  { intros i. apply (f_equal (.!! i)) in Hbr. rewrite !list_lookup_fmap in Hbr. unfold match_idx.
    destruct (l1 !! i), (btb_data p !! i); try done. unfold branch_of in Hbr. simpl in Hbr.
    apply bool_decide_ext. split; congruence. }
  exists b, l1, ords'. split; [done|]. split; [by eapply lookup_lt_Some|].
  intros p2 Hs2 Ha2 Hd2.
  assert (bp_btb_ok p2 ords') as Hok2.
  { unfold bp_btb_ok. rewrite Hs2, Ha2, Hd2. split; [apply Hok|].
    eapply (btb_ok_write _ _ l1 _ _ _ b); [apply Hok1|exact Ho'|by left|].
    intros i Hi. rewrite Hmi. intros Hm. apply Hperm in Hi.
    destruct Hcase as [Hbm|[Hno _]]; [|by rewrite Hno in Hm].
    eapply (match_unique _ _ _ _ baddr i b Hs); try done; [lia|by eapply list_elem_of_lookup_2]. }
  split; [done|]. split.
  - unfold branches. rewrite Ho, Ho', Hd2.
    rewrite (set_branches_front l1 order pos b baddr btarget correct op e1);
      [|apply Hs|done|done|done].
    rewrite (set_branches_same _ _ order Hbr). unfold btb_train.
    rewrite (place_pos _ _ _ _ baddr pos b Hs He) by (done || lia).
    rewrite set_branches_lookup, Hpos by done. simpl.
    destruct (branch_lookup _ _ _ _ Hbr Hb1) as (e & Heb & ->). by rewrite Heb.
  - intros k Hk. unfold branches, ords'. rewrite list_lookup_insert_ne by done.
    destruct (ords !! k) as [o|] eqn:Hko; [|done]. rewrite Hd2.
    rewrite <- (set_branches_same _ _ o Hbr). unfold set_branches.
    assert (b ∉ o) as Hbo.
    { intros Hbo. apply (bs_all _ _ _ _ (bt_sets _ _ _ _ (proj2 Hok) _ _ Hko)) in Hbo.
      assert (b ∈ order) as Hb' by (by eapply list_elem_of_lookup_2).
      apply (bs_all _ _ _ _ Hs) in Hb'. revert Hk Hbo Hb'. clear.
      generalize (Z.to_nat (btb_assoc p)) (btb_key p baddr). intros m n. nia. }
    clear -Hbo. induction o as [|i o IH]; [done|]. apply not_elem_of_cons in Hbo as [Hbi Hbo].
    cbn [omap list_omap]. rewrite list_lookup_alter_ne by done. by rewrite IH.
Qed.

(** What an update does; [p'] has the state of [p] but for these changes. *)
Lemma bpred_update_ok p ords baddr btarget taken pred_taken correct op u :
  bpred_ok p ords → stateful (bp_class p) → upd_ok p u → is_ctrl op = true → 0 < baddr →
  ∃ p' ords', bpred_update p baddr btarget taken pred_taken correct op u = Ok p' ∧
    bpred_ok p' ords' ∧ dirs_kept p p' ∧ bp_class p' = bp_class p ∧
    btb_sets p' = btb_sets p ∧
    rs_size p' = rs_size p ∧ rs_tos p' = rs_tos p ∧ rs_stack p' = rs_stack p ∧
    (∀ k, branches p' ords' k
       = if taken && negb (MD_IS_INDIR op && d_ras u) && bool_decide (k = btb_key p baddr)
         then btb_train baddr btarget correct op (branches p ords k)
         else branches p ords k).
Proof.
  intros Hok Hst Hu Hct Hb. unfold bpred_update. rewrite Hct. cbn [negb].
  pose proof (update_stats_same p taken pred_taken correct op u) as Hss.
  set (p1 := update_stats p taken pred_taken correct op u) in *.
  pose proof (same_state_kept _ _ Hss) as Hk1. pose proof (proj1 Hss) as Hs1.
  pose proof (bpred_ok_kept _ _ _ Hs1 Hk1 Hok) as Hok1.
  assert (∀ q, same_but_dirs p q → ∀ k, branches q ords k = branches p ords k) as Hbq.
  { intros q (_ & _ & _ & Hd & _) k. unfold branches. by rewrite Hd. }
  destruct (MD_IS_INDIR op && d_ras u).
  { exists p1, ords. rewrite andb_false_r. cbn [andb].
    destruct Hs1 as (Hc & Hs & Ha & Hd & Hz & Ht & Hstk). split_and!; try done.
    intros k. unfold branches. by rewrite Hd. }
  rewrite bool_decide_false by (destruct Hs1 as (-> & _); destruct Hst; tauto).
  assert (∃ p2, (if negb (is_uncond op) && bool_decide (bp_class p1 = BPred2Level ∨ bp_class p1 = BPredComb)
      then update_history p1 baddr taken else Ok p1) = Ok p2 ∧
      same_but_dirs p1 p2 ∧ dirs_kept p1 p2) as (p2 & -> & Hs2 & Hk2).
  { destruct (negb _ && _) eqn:Hc; [|by exists p1].
    apply andb_true_iff in Hc as [_ Hc%bool_decide_eq_true]. apply update_history_ok; [|lia].
    pose proof (po_dirs _ _ Hok1) as Hd. unfold class_dirs in Hd. destruct Hc as [Hc|Hc]; rewrite Hc in Hd; tauto. }
  cbn [mbind result_bind].
  assert (same_but_dirs p p2) as Hsp2 by (by etrans). assert (dirs_kept p p2) as Hkp2 by (by etrans).
  pose proof (bpred_ok_kept _ _ _ Hsp2 Hkp2 Hok) as Hok2.
  assert (upd_ok p2 u) as Hu2 by (destruct Hu as (?&?&?); split_and!; by eapply ptr_kept).
  destruct taken.
  - destruct (btb_update_spec p2 ords baddr btarget correct op (po_btb _ _ Hok2) Hb)
      as (b & l1 & ords' & -> & Hbl & Hfin). cbn [mbind result_bind].
    assert (upd_ok (set_btb p2 l1) u) as Hu3 by exact Hu2.
    destruct (update_dirs_ok _ true _ Hu3) as (p4 & -> & Hs4 & Hk4). cbn [mbind result_bind].
    destruct Hs4 as (Hc4 & Hse4 & Ha4 & Hd4 & Hz4 & Ht4 & Hst4).
    cbn [set_btb btb_data btb_sets btb_assoc rs_size rs_tos rs_stack bp_class] in *.
    rewrite Hd4, vupd_alter by done. cbn [mbind result_bind].
    eexists _, ords'. split; [reflexivity|].
    destruct (Hfin (set_btb p4 (alter (btb_write baddr btarget correct op) b l1)))
      as (Hbt & Hbr & Hne); [done..|].
    destruct Hsp2 as (Hc & Hs & Ha & Hd & Hz & Ht & Hstk).
    assert (dirs_kept p2 p4) as Hk24 by exact Hk4.
    assert (btb_key p2 baddr = btb_key p baddr) as Hkey by (unfold btb_key; by rewrite Hs).
    split; [split; [|exact Hbt|]|split_and!;
      cbn [set_btb btb_data btb_sets btb_assoc rs_size rs_tos rs_stack bp_class]; try congruence].
    + eapply (class_dirs_kept p2); [exact Hk24|by cbn; rewrite Hc4|apply Hok2].
    + unfold ras_ok. cbn [rs_size rs_stack rs_tos set_btb]. rewrite Hz4, Hst4, Ht4. apply Hok2.
    + etrans; [exact Hkp2|]. exact Hk24.
    + intros k. cbn [andb negb]. rewrite Hkey in *. case_bool_decide as Hk.
      * subst k. rewrite Hbr. f_equal. unfold branches. by rewrite Hd.
      * rewrite Hne by done. unfold branches. by rewrite Hd.
  - cbn [mbind result_bind].
    destruct (update_dirs_ok _ false _ Hu2) as (p4 & -> & Hs4 & Hk4). cbn [mbind result_bind].
    assert (same_but_dirs p p4) as Hsp4 by (by etrans).
    exists p4, ords. split; [done|]. split; [eapply (bpred_ok_kept p2); done|].
    split; [by etrans|]. destruct Hsp4 as (Hc & Hs & Ha & Hd & Hz & Ht & Hstk).
    split_and!; try done. intros k. unfold branches. cbn [andb]. by rewrite Hd.
Qed.
