(* ===== verification/BpredMain.v ===== *)
(** * The branch predictors: their properties *)

From S2P Require Import Prelude Chains Misc Memory Cache CacheInv Bpred BpredBtb BpredInv.

(** ** Creation *)

Lemma pow2_nonzero_pow k : 0 ≤ k < 32 → pow2_nonzero (2 ^ k) = true.
Proof.
  intros Hk. unfold pow2_nonzero. pose proof (Z.pow_pos_nonneg 2 k).
  assert (2 ^ k ≤ 2 ^ 31) by (apply Z.pow_le_mono_r; lia).
  rewrite u32_small, land_pred_pow2 by lia. rewrite bool_decide_false by lia.
  by rewrite bool_decide_true.
Qed.

Lemma flipflops_ok n f : f = 1 ∨ f = 2 → length (flipflops n f) = n ∧ counters_ok (flipflops n f).
Proof.
  revert f. induction n as [|n IH]; intros f Hf; [split; [done|constructor]|].
  destruct (IH (3 - f)) as [Hl Hc]; [lia|]. simpl. rewrite Hl. split; [done|].
  constructor; [lia|done].
Qed.

Lemma pow2_i32 k : 0 ≤ k < 31 → i32 (2 ^ k) = 2 ^ k.
Proof.
  intros Hk. assert (2 ^ k ≤ 2 ^ 30) by (apply Z.pow_le_mono_r; lia).
  pose proof (Z.pow_pos_nonneg 2 k). apply i32_small. lia.
Qed.

Lemma create_bimod_ok k a b c : 0 ≤ k < 31 →
  ∃ d, bpred_dir_create BPred2bit (2 ^ k) a b c = Ok d ∧ dir_ok d ∧ comp_shape Bimod d.
Proof.
  intros Hk. cbn [bpred_dir_create]. rewrite pow2_nonzero_pow by lia.
  eexists. split; [reflexivity|]. split; [|done].
  destruct (flipflops_ok (Z.to_nat (2 ^ k)) 1) as [Hl Hc]; [by left|].
  pose proof (Z.pow_pos_nonneg 2 k). cbn [dir_ok].
  split_and!; [by exists k|rewrite Hl; lia|done].
Qed.

Lemma create_two_ok k1 k2 w x : 0 ≤ k1 < 31 → 0 ≤ k2 < 31 → 1 ≤ w ≤ 30 →
  ∃ d, bpred_dir_create BPred2Level (2 ^ k1) (2 ^ k2) w x = Ok d ∧ dir_ok d ∧ comp_shape Twolev d.
Proof.
  intros Hk1 Hk2 Hw. cbn [bpred_dir_create]. rewrite !pow2_nonzero_pow by lia. cbn [negb].
  rewrite bool_decide_false by lia. eexists. split; [reflexivity|]. split; [|done].
  destruct (flipflops_ok (Z.to_nat (2 ^ k2)) 1) as [Hl Hc]; [by left|].
  pose proof (Z.pow_pos_nonneg 2 k1). pose proof (Z.pow_pos_nonneg 2 k2).
  cbn [dir_ok]. rewrite !pow2_i32, i32_small by lia.
  split_and!; [by exists k1|by exists k2|lia|lia|rewrite length_replicate; lia| |rewrite Hl; lia|done].
  apply Forall_replicate. pose proof (Z.pow_pos_nonneg 2 w). lia.
Qed.

(** The chains of a new BTB: in each set, positions in order. *)
Lemma btb_create_ok a c :
  0 ≤ a → 0 ≤ c → a + c < 31 →
  btb_ok (Z.to_nat (2 ^ a)) (Z.to_nat (2 ^ c)) (btb_create (2 ^ a) (2 ^ c))
    ((λ k, seq (k * Z.to_nat (2 ^ c)) (Z.to_nat (2 ^ c))) <$> seq 0 (Z.to_nat (2 ^ a))).
Proof.
  intros Ha Hc Hac. pose proof (Z.pow_pos_nonneg 2 a). pose proof (Z.pow_pos_nonneg 2 c).
  assert (2 ^ a * 2 ^ c < 2 ^ 31) as Hb.
  { rewrite <- Z.pow_add_r by lia. apply Z.pow_lt_mono_r; lia. }
  unfold btb_create. rewrite u32_small by lia.
  assert (∀ i, (i < Z.to_nat (2 ^ a * 2 ^ c))%nat →
    ((λ i, btb_link (2 ^ c) (Z.of_nat i)) <$> seq 0 (Z.to_nat (2 ^ a * 2 ^ c))) !! i
    = Some (btb_link (2 ^ c) (Z.of_nat i))) as Hlk.
  { intros i Hi. rewrite list_lookup_fmap, lookup_seq_lt by done. done. }
  split.
  - rewrite length_fmap, length_seq. lia.
  - by rewrite length_fmap, length_seq.
  - lia.
  - intros k order Hk. rewrite list_lookup_fmap in Hk.
    destruct (seq 0 (Z.to_nat (2 ^ a)) !! k) as [k'|] eqn:Hs; [|done].
    apply lookup_seq in Hs as [-> Hka]. simpl in Hk. injection Hk as <-. split.
    + apply NoDup_seq.
    + intros i. rewrite elem_of_seq. lia.
    + intros j i Hj. apply lookup_seq in Hj as [-> Hj].
      assert (k * Z.to_nat (2 ^ c) + j < Z.to_nat (2 ^ a * 2 ^ c))%nat as Hlt by nia.
      unfold next_of, prev_of. rewrite (Hlk _ Hlt). simpl.
      assert (Z.of_nat (k * Z.to_nat (2 ^ c) + j) mod 2 ^ c = Z.of_nat j) as Hm.
      { rewrite Nat2Z.inj_add, Nat2Z.inj_mul, Z2Nat.id by lia.
        rewrite Z.add_comm, Z_mod_plus_full, Z.mod_small by lia. done. }
      rewrite Hm. split.
      * destruct (decide (S j < Z.to_nat (2 ^ c))%nat) as [Hj'|Hj'].
        -- rewrite bool_decide_true by lia. rewrite lookup_seq_lt by done. f_equal. lia.
        -- rewrite bool_decide_false by lia. symmetry. apply lookup_seq_ge. lia.
      * destruct j as [|j]; simpl.
        -- by rewrite bool_decide_false by lia.
        -- rewrite bool_decide_true by lia. rewrite lookup_seq_lt by lia. f_equal. lia.
    + intros i j ei ej Hi Hj Hei Hej _ Hne. exfalso. apply Hne.
      rewrite list_lookup_fmap in Hei. destruct (seq _ _ !! i); [|done].
      simpl in Hei. by injection Hei as <-.
Qed.

Lemma create_stateful_ok p a c rs :
  class_dirs p → 0 ≤ a → 0 ≤ c → a + c < 31 → rs = 0 ∨ (∃ k, 0 ≤ k < 31 ∧ rs = 2 ^ k) →
  ∃ p' ords, bpred_create_stateful p (2 ^ a) (2 ^ c) rs = Ok p' ∧ bpred_ok p' ords ∧
    bp_class p' = bp_class p ∧ rs_size p' = rs.
Proof.
  intros Hd Ha Hc Hac Hrs. unfold bpred_create_stateful.
  rewrite !pow2_nonzero_pow by lia. cbn [negb].
  assert (0 ≤ rs < 2 ^ 31 ∧ Z.land rs (u32 (rs - 1)) = 0 ∧ i32 rs = rs ∧
          (rs ≠ 0 → i32 (rs - 1) = rs - 1)) as (Hr & Hl & Hi & Hi1).
  { destruct Hrs as [->|(k & Hk & ->)]; [by split_and!|].
    assert (2 ^ k ≤ 2 ^ 30) by (apply Z.pow_le_mono_r; lia). pose proof (Z.pow_pos_nonneg 2 k).
    rewrite u32_small, land_pred_pow2, pow2_i32 by lia.
    split_and!; [lia|lia|done|done|]. intros _. apply i32_small. lia. }
  rewrite bool_decide_false by (rewrite Hl; tauto).
  eexists _, _. split; [reflexivity|]. rewrite Hi, !pow2_i32 by lia.
  split; [|done]. split.
  - exact Hd.
  - split; [by exists a, c; split_and!; try lia|]. by apply btb_create_ok.
  - split; [done|]. cbn [rs_stack rs_size rs_tos]. split; [by rewrite length_replicate|].
    intros H0. rewrite Hi1 by done. lia.
Qed.

(** ** The return-address stack as a stack *)

(** The top entries of the circular stack, most recent first. *)
Definition ras_holds (p : bpred_t) (st : list Z) : Prop :=
  Z.of_nat (length st) ≤ rs_size p ∧
  ∀ j a, st !! j = Some a →
    rs_stack p !! Z.to_nat ((rs_tos p - Z.of_nat j) mod rs_size p) = Some a.

Lemma ras_holds_nil p : ras_ok p → ras_holds p [].
Proof. intros (H & _). split; [simpl; lia|]. intros j a. by rewrite lookup_nil. Qed.

Lemma mod_sub_inj n t j j' :
  0 ≤ j < n → 0 ≤ j' < n → (t - j) mod n = (t - j') mod n → j = j'.
Proof.
  intros Hj Hj' H. assert (((t - j') - (t - j)) mod n = 0) as Hm.
  { rewrite Zminus_mod, H, Z.sub_diag. apply Zmod_0_l. }
  replace (t - j' - (t - j)) with (j - j') in Hm by lia.
  apply Z.mod_divide in Hm as [q Hq]; [|lia].
  assert (-1 < q < 1) as Hq0 by (split; nia). assert (q = 0) by lia. subst q. lia.
Qed.

Lemma ras_push_holds p p' st a :
  ras_ok p → rs_size p' = rs_size p → rs_tos p' = (rs_tos p + 1) mod rs_size p →
  rs_stack p' = <[Z.to_nat ((rs_tos p + 1) mod rs_size p) := a]> (rs_stack p) →
  ras_holds p st → Z.of_nat (length st) < rs_size p → ras_holds p' (a :: st).
Proof.
  intros (Hs & Hl & Ht) Hsz Htos Hst [_ Hh] Hlen. split; [rewrite Hsz; simpl; lia|]. intros j x.
  rewrite Hsz, Htos, Hst.
  assert (((rs_tos p + 1) mod rs_size p - Z.of_nat j) mod rs_size p
          = (rs_tos p + 1 - Z.of_nat j) mod rs_size p) as -> by apply Zminus_mod_idemp_l.
  pose proof (Z.mod_pos_bound (rs_tos p + 1) (rs_size p)) as Hb.
  destruct j as [|j]; simpl.
  - intros [= <-]. rewrite Z.sub_0_r. apply list_lookup_insert_eq. lia.
  - intros Hx. pose proof (lookup_lt_Some _ _ _ Hx).
    pose proof (Z.mod_pos_bound (rs_tos p + 1 - Z.of_nat (S j)) (rs_size p)) as Hb'.
    rewrite list_lookup_insert_ne.
    + rewrite <- (Hh j x Hx). do 3 f_equal. lia.
    + intros He. apply Z2Nat.inj in He; [|lia|lia].
      rewrite <- (Z.sub_0_r (rs_tos p + 1)) in He at 1. apply mod_sub_inj in He; lia.
Qed.

Lemma ras_pop_holds p p' st a :
  rs_size p' = rs_size p → rs_tos p' = (rs_tos p - 1) mod rs_size p → rs_stack p' = rs_stack p →
  ras_holds p (a :: st) → ras_holds p' st.
Proof.
  intros Hsz Htos Hst [Hl Hh]. simpl in Hl. split; [rewrite Hsz; lia|]. intros j x Hx.
  rewrite Hsz, Htos, Hst.
  assert (((rs_tos p - 1) mod rs_size p - Z.of_nat j) mod rs_size p
          = (rs_tos p - 1 - Z.of_nat j) mod rs_size p) as -> by apply Zminus_mod_idemp_l.
  rewrite <- (Hh (S j) x Hx). do 3 f_equal. lia.
Qed.

(** An update record before its first lookup. *)
Definition upd_init : bpred_update_t := mkUpd None None None false false false false.

(** Predicting a series of calls, then a series of returns. *)
Fixpoint do_calls (p : bpred_t) (calls : list (Z * Z * md_opcode)) : result bpred_t :=
  match calls with
  | [] => Ok p
  | (baddr, btarget, op) :: calls =>
      '(_, _, _, p') ← bpred_lookup p baddr btarget op true false upd_init 0;
      do_calls p' calls
  end.

Fixpoint do_returns (p : bpred_t) (rets : list (Z * Z * md_opcode)) : result (list Z) :=
  match rets with
  | [] => Ok []
  | (baddr, btarget, op) :: rets =>
      '(t, _, _, p') ← bpred_lookup p baddr btarget op false true upd_init 0;
      ts ← do_returns p' rets;
      Ok (t :: ts)
  end.

(** Control instructions at non-null addresses. *)
Definition ctrl_at (c : Z * Z * md_opcode) : Prop := 0 < c.1.1 ∧ is_ctrl c.2 = true.

Definition return_addr (c : Z * Z * md_opcode) : Z := u32 (c.1.1 + inst_size).

Lemma do_calls_ok calls p ords st :
  bpred_ok p ords → stateful (bp_class p) → Forall ctrl_at calls → ras_holds p st →
  Z.of_nat (length st + length calls) ≤ rs_size p →
  ∃ p', do_calls p calls = Ok p' ∧ bpred_ok p' ords ∧ stateful (bp_class p') ∧
    rs_size p' = rs_size p ∧ ras_holds p' (reverse (return_addr <$> calls) ++ st).
Proof.
  revert p st. induction calls as [|[[ba bt] op] calls IH]; intros p st Hok Hst Hcs Hh Hl.
  { by exists p. }
  apply Forall_cons in Hcs as [[Hba Hop] Hcs]. simpl in Hba, Hop, Hl. cbn [do_calls].
  destruct (bpred_lookup_ok p ords ba bt op true false upd_init 0 Hok Hst Hop Hba)
    as (r & u' & p1 & -> & Hok1 & _ & Hc1 & _ & _ & _ & Hsz1 & Hrest).
  cbn [mbind result_bind]. cbn [andb] in Hrest.
  destruct Hrest as (_ & _ & _ & Hras). rewrite bool_decide_true in Hras by lia.
  destruct Hras as [Htos1 Hst1]. rewrite Htos1 in Hst1.
  destruct (IH p1 (return_addr (ba, bt, op) :: st) Hok1) as (p' & Hrun & Hok' & Hst' & Hsz' & Hh');
    [by rewrite Hc1|done| |simpl; lia|].
  { eapply (ras_push_holds p); try done; [apply Hok|lia]. }
  exists p'. split; [done|]. split; [done|]. split; [done|]. split; [congruence|].
  rewrite fmap_cons, reverse_cons, <- app_assoc. exact Hh'.
Qed.

Lemma do_returns_ok rets p ords st :
  bpred_ok p ords → stateful (bp_class p) → Forall ctrl_at rets → ras_holds p st →
  length rets = length st → do_returns p rets = Ok st.
Proof.
  revert p st. induction rets as [|[[ba bt] op] rets IH]; intros p st Hok Hst Hcs Hh Hl.
  { by destruct st. }
  destruct st as [|a st]; [done|]. simpl in Hl. injection Hl as Hl.
  apply Forall_cons in Hcs as [[Hba Hop] Hcs]. simpl in Hba, Hop. cbn [do_returns].
  destruct (bpred_lookup_ok p ords ba bt op false true upd_init 0 Hok Hst Hop Hba)
    as (r & u' & p1 & -> & Hok1 & _ & Hc1 & _ & _ & _ & Hsz1 & Hrest).
  cbn [mbind result_bind]. pose proof (proj1 Hh) as Hlen. simpl in Hlen.
  rewrite bool_decide_true in Hrest by lia. cbn [andb] in Hrest.
  destruct Hrest as (Hr & Hst1 & Htos1 & _).
  assert (r = a) as ->.
  { pose proof (proj2 Hh 0%nat a eq_refl) as H0. rewrite Z.sub_0_r, Z.mod_small in H0; [congruence|].
    destruct (po_ras _ _ Hok) as (_ & _ & Ht). lia. }
  rewrite (IH p1 st); [done|done|by rewrite Hc1|done| |done].
  by eapply ras_pop_holds.
Qed.

(** ** Training *)





(** ** Properties *)

(** C22: An update of a stateful predictor with a record its lookup left returns,
    keeps the invariant (counters between 0 and 3, history within its width,
    stack top in range, chains of the BTB), and trains the BTB as a set of lists
    in recency order: a taken branch is moved to the front of its set, replacing
    the least recently used branch if it was absent; a return that used the stack,
    a branch not taken and every other set leave the BTB alone. *)
Theorem bpred_update_refines p ords baddr btarget taken pred_taken correct op u :
  bpred_ok p ords → stateful (bp_class p) → upd_ok p u → is_ctrl op = true → 0 < baddr →
  ∃ p' ords', bpred_update p baddr btarget taken pred_taken correct op u = Ok p' ∧
    bpred_ok p' ords' ∧ bp_class p' = bp_class p ∧ rs_size p' = rs_size p ∧
    rs_tos p' = rs_tos p ∧ rs_stack p' = rs_stack p ∧
    (∀ k, branches p' ords' k
       = if taken && negb (MD_IS_INDIR op && d_ras u) && bool_decide (k = btb_key p baddr)
         then btb_train baddr btarget correct op (branches p ords k)
         else branches p ords k).
Proof.
  intros Hok Hst Hu Hct Hb.
  destruct (bpred_update_ok p ords baddr btarget taken pred_taken correct op u Hok Hst Hu Hct Hb)
    as (p' & ords' & Hrun & Hok' & _ & Hc & _ & Hz & Ht & Hstk & Hbr).
  exists p', ords'. by split_and!.
Qed.


(** C23: The return-address stack predicts well-nested calls: after at most as
    many calls as it has entries, the returns are predicted to the instructions
    after the calls, last call first. *)
Theorem ras_lifo p ords calls rets :
  bpred_ok p ords → stateful (bp_class p) → Forall ctrl_at calls → Forall ctrl_at rets →
  length rets = length calls → Z.of_nat (length calls) ≤ rs_size p →
  ∃ p', do_calls p calls = Ok p' ∧ do_returns p' rets = Ok (reverse (return_addr <$> calls)).
Proof.
  intros Hok Hst Hcs Hrs Hl Hn.
  destruct (do_calls_ok calls p ords [] Hok Hst Hcs) as (p' & Hrun & Hok' & Hst' & _ & Hh);
    [apply ras_holds_nil, Hok|simpl; lia|].
  exists p'. split; [done|]. rewrite app_nil_r in Hh.
  apply (do_returns_ok rets p' ords); try done. by rewrite length_reverse, length_fmap.
Qed.

(** The three classes that keep state. *)
Lemma create_classes_ok class b l1 l2 m w x a c rs :
  stateful class → 0 ≤ b < 31 → 0 ≤ l1 < 31 → 0 ≤ l2 < 31 → 0 ≤ m < 31 → 1 ≤ w ≤ 30 →
  0 ≤ a → 0 ≤ c → a + c < 31 → rs = 0 ∨ (∃ k, 0 ≤ k < 31 ∧ rs = 2 ^ k) →
  ∃ p ords, bpred_create class (2 ^ b) (2 ^ l1) (2 ^ l2) (2 ^ m) w x (2 ^ a) (2 ^ c) rs = Ok p ∧
    bpred_ok p ords ∧ bp_class p = class ∧ rs_size p = rs.
Proof.
  intros [Hs1 Hs2] Hb Hl1 Hl2 Hm Hw Ha Hc Hac Hrs. unfold bpred_create.
  destruct class; try done.
  - destruct (create_bimod_ok b 0 0 0 Hb) as (db & -> & Hdb & Hsb).
    destruct (create_two_ok l1 l2 w x Hl1 Hl2 Hw) as (dt & -> & Hdt & Hst).
    destruct (create_bimod_ok m 0 0 0 Hm) as (dm & -> & Hdm & Hsm). cbn [mbind result_bind].
    apply create_stateful_ok; try done.
    split_and!; [exists db|exists dt|exists dm]; done.
  - destruct (create_two_ok l1 l2 w x Hl1 Hl2 Hw) as (dt & -> & Hdt & Hst). cbn [mbind result_bind].
    apply create_stateful_ok; try done. by exists dt.
  - destruct (create_bimod_ok b 0 0 0 Hb) as (db & -> & Hdb & Hsb). cbn [mbind result_bind].
    apply create_stateful_ok; try done. by exists db.
Qed.

(** [bpred_create] with power-of-two table, BTB and stack sizes (the stack
    may be empty) and a history width between 1 and 30 returns a predictor that
    satisfies the invariant, for each class that keeps state. *)
Theorem bpred_create_ok class b l1 l2 m w x a c rs :
  stateful class → 0 ≤ b < 31 → 0 ≤ l1 < 31 → 0 ≤ l2 < 31 → 0 ≤ m < 31 → 1 ≤ w ≤ 30 →
  0 ≤ a → 0 ≤ c → a + c < 31 → rs = 0 ∨ (∃ k, 0 ≤ k < 31 ∧ rs = 2 ^ k) →
  ∃ p ords, bpred_create class (2 ^ b) (2 ^ l1) (2 ^ l2) (2 ^ m) w x (2 ^ a) (2 ^ c) rs = Ok p ∧
    bpred_ok p ords ∧ bp_class p = class ∧ rs_size p = rs.
Proof. apply create_classes_ok. Qed.

(** ** Witnesses *)

Definition ex_jal : md_opcode := mkOp 2 (Z.lor F_CTRL F_UNCOND) false.

Lemma ex_bpred : ∃ p ords, bpred_create BPredComb 16 4 16 16 2 1 4 2 8 = Ok p ∧
  bpred_ok p ords ∧ bp_class p = BPredComb ∧ rs_size p = 8.
Proof.
  apply (create_classes_ok BPredComb 4 2 4 4 2 1 2 1 8); try lia; [done|].
  right. exists 3. split; [lia|done].
Qed.

Lemma bpred_create_ok_witness : ∃ p ords,
  bpred_create BPred2bit 16 4 16 16 2 1 4 2 0 = Ok p ∧ bpred_ok p ords ∧
  bp_class p = BPred2bit ∧ rs_size p = 0.
Proof. apply (bpred_create_ok BPred2bit 4 2 4 4 2 1 2 1 0); try lia. done. Defined.

Lemma bpred_update_refines_witness : ∃ p ords p' ords',
  bpred_ok p ords ∧ bpred_update p 64 128 true false false ex_jal upd_init = Ok p' ∧
  bpred_ok p' ords' ∧
  branches p' ords' (btb_key p 64) = btb_train 64 128 false ex_jal (branches p ords (btb_key p 64)).
Proof.
  destruct ex_bpred as (p & ords & _ & Hok & Hc & _).
  destruct (bpred_update_refines p ords 64 128 true false false ex_jal upd_init Hok)
    as (p' & ords' & Hrun & Hok' & _ & _ & _ & _ & Hbr); [by rewrite Hc|done|done|lia|].
  exists p, ords, p', ords'. split; [exact Hok|]. split; [exact Hrun|]. split; [exact Hok'|].
  rewrite Hbr. by rewrite bool_decide_true.
Defined.


Lemma ras_lifo_witness : ∃ p p',
  do_calls p [(64, 256, ex_jal); (256, 512, ex_jal)] = Ok p' ∧
  do_returns p' [(600, 0, ex_jal); (300, 0, ex_jal)] = Ok [264; 72].
Proof.
  destruct ex_bpred as (p & ords & _ & Hok & Hc & Hs). exists p.
  apply (ras_lifo p ords [(64, 256, ex_jal); (256, 512, ex_jal)]
    [(600, 0, ex_jal); (300, 0, ex_jal)] Hok); [by rewrite Hc| | |done|rewrite Hs; simpl; lia].
  - repeat constructor.
  - repeat constructor.
Defined.
