(* ===== verification/EventQ.v ===== *)
(** * eventq.c: the time-ordered event queue

    Event descriptors live in a store and are linked, through their [next]
    pointers, in the pending list or in the free list.  Locations of flags, summands
    and bitmap words are cells of an integer memory; callbacks are functions on the
    whole state, as they may call the module again.  [eventq_dump] only prints. *)

From S2P Require Import Prelude Misc.

(** ** Data *)

Inductive eventq_action :=
  | EventSetBit (bmap sz bitnum : Z)
  | EventClearBit (bmap sz bitnum : Z)
  | EventSetFlag (pflag value : Z)
  | EventAddOp (summand addend : Z)
  | EventCallback (fn arg : Z).

Record eventq_desc := mkDesc {
  ev_next : option nat;
  ev_when : Z;
  ev_id : Z;
  ev_action : eventq_action
}.

(** The module's variables, the descriptors allocated so far, and the memory the
    actions write. *)
Record eventq := mkEventq {
  eventq_max_events : Z;
  eventq_event_count : Z;
  eventq_pending : option nat;
  eventq_free : option nat;
  next_ID : Z;
  descs : list eventq_desc;
  cells : gmap Z Z
}.

Definition set_pending (o : option nat) (q : eventq) : eventq :=
  mkEventq (eventq_max_events q) (eventq_event_count q) o (eventq_free q) (next_ID q)
    (descs q) (cells q).
Definition set_free (o : option nat) (q : eventq) : eventq :=
  mkEventq (eventq_max_events q) (eventq_event_count q) (eventq_pending q) o (next_ID q)
    (descs q) (cells q).
Definition set_next_ID (i : Z) (q : eventq) : eventq :=
  mkEventq (eventq_max_events q) (eventq_event_count q) (eventq_pending q) (eventq_free q) i
    (descs q) (cells q).
Definition set_descs (l : list eventq_desc) (q : eventq) : eventq :=
  mkEventq (eventq_max_events q) (eventq_event_count q) (eventq_pending q) (eventq_free q)
    (next_ID q) l (cells q).
Definition set_cells (m : gmap Z Z) (q : eventq) : eventq :=
  mkEventq (eventq_max_events q) (eventq_event_count q) (eventq_pending q) (eventq_free q)
    (next_ID q) (descs q) m.

Definition desc_next (o : option nat) (d : eventq_desc) : eventq_desc :=
  mkDesc o (ev_when d) (ev_id d) (ev_action d).

(** [p->next = o]. *)
Definition set_next (q : eventq) (p : nat) (o : option nat) : result eventq :=
  l ← vupd (descs q) p (desc_next o); Ok (set_descs l q).

(** [eventq_init]; the descriptors stay allocated. *)
Definition eventq_init (max_events : Z) (q : eventq) : eventq :=
  mkEventq max_events 0 None None (next_ID q) (descs q) (cells q).

(** ** Queueing *)

(** A free descriptor; a zeroed one is allocated when there is none. *)
Definition get_desc (q : eventq) : result (nat * eventq) :=
  match eventq_free q with
  | Some new =>
      d ← vget (descs q) new;
      Ok (new, set_free (ev_next d) q)
  | None =>
      if bool_decide (eventq_max_events q ≠ 0 ∧ eventq_max_events q ≤ eventq_event_count q)
      then Fault (Panic "too many events")
      else Ok (length (descs q),
               set_descs (descs q ++ [mkDesc None 0 0 (EventSetBit 0 0 0)]) q)
  end.

(** The insertion point: the last event before [when], and the one after it. *)
Fixpoint insert_point (fuel : nat) (l : list eventq_desc) (when : Z)
    (prev ev : option nat) : result (option nat) :=
  match ev with
  | None => Ok prev
  | Some e =>
      d ← vget l e;
      if bool_decide (ev_when d < when) then
        match fuel with
        | O => Fault OutOfFuel
        | S fuel => insert_point fuel l when (Some e) (ev_next d)
        end
      else Ok prev
  end.

(** [__QUEUE_EVENT]: the identifier and the queue. *)
Definition queue_event (when : Z) (action : eventq_action) (q : eventq)
    : result (Z * eventq) :=
  '(new, q) ← get_desc q;
  let id := next_ID q in
  d ← vget (descs q) new;
  l ← vset (descs q) new (mkDesc (ev_next d) when id action);
  let q := set_next_ID (u32 (id + 1)) (set_descs l q) in
  prev ← insert_point (length (descs q)) (descs q) when None (eventq_pending q);
  match prev with
  | Some p =>
      dp ← vget (descs q) p;
      q ← set_next q new (ev_next dp);
      q ← set_next q p (Some new);
      Ok (id, q)
  | None =>
      q ← set_next q new (eventq_pending q);
      Ok (id, set_pending (Some new) q)
  end.

Definition eventq_queue_setbit (when bmap sz bitnum : Z) : eventq → result (Z * eventq) :=
  queue_event when (EventSetBit bmap sz bitnum).
Definition eventq_queue_clearbit (when bmap sz bitnum : Z) : eventq → result (Z * eventq) :=
  queue_event when (EventClearBit bmap sz bitnum).
Definition eventq_queue_setflag (when pflag value : Z) : eventq → result (Z * eventq) :=
  queue_event when (EventSetFlag pflag value).
Definition eventq_queue_addop (when summand addend : Z) : eventq → result (Z * eventq) :=
  queue_event when (EventAddOp summand addend).
Definition eventq_queue_callback (when fn arg : Z) : eventq → result (Z * eventq) :=
  queue_event when (EventCallback fn arg).

(** ** Actions *)

(** [*p = f( *p)]. *)
Definition upd_cell (m : gmap Z Z) (p : Z) (f : Z → Z) : result (gmap Z Z) :=
  match m !! p with Some v => Ok (<[p := f v]> m) | None => Fault OutOfBounds end.

(** [BITMAP_SET] and [BITMAP_CLEAR]: the word and the mask of a bit; shifting by a
    negative amount is undefined. *)
Definition bitmap_op (m : gmap Z Z) (bmap bit : Z) (f : Z → Z → Z) : result (gmap Z Z) :=
  if bool_decide (Z.rem bit 32 < 0) then Fault Undefined
  else upd_cell m (bmap + Z.quot bit 32) (λ w, f w (Z.shiftl 1 (Z.rem bit 32))).

Definition BITMAP_SET (w mask : Z) : Z := Z.lor w mask.
Definition BITMAP_CLEAR (w mask : Z) : Z := Z.land w (u32 (Z.lnot mask)).

Section Service.
(** A callback runs on the state: function, time, argument. *)
Variable callback : Z → Z → Z → eventq → result eventq.

(** [EXECUTE_ACTION]. *)
Definition execute_action (a : eventq_action) (now : Z) (q : eventq) : result eventq :=
  match a with
  | EventSetBit bmap _ bit => m ← bitmap_op (cells q) bmap bit BITMAP_SET; Ok (set_cells m q)
  | EventClearBit bmap _ bit => m ← bitmap_op (cells q) bmap bit BITMAP_CLEAR; Ok (set_cells m q)
  | EventSetFlag p v => m ← upd_cell (cells q) p (λ _, v); Ok (set_cells m q)
  | EventAddOp p n => m ← upd_cell (cells q) p (λ v, i32 (v + n)); Ok (set_cells m q)
  | EventCallback fn arg => callback fn now arg q
  end.

(** The search of [eventq_execute] and [eventq_remove], which unlinks the event. *)
Fixpoint unlink_event (fuel : nat) (q : eventq) (id : Z) (prev ev : option nat)
    : result (option nat * eventq) :=
  match ev with
  | None => Ok (None, q)
  | Some e =>
      d ← vget (descs q) e;
      if bool_decide (ev_id d = id) then
        q ← (match prev with
             | Some p => set_next q p (ev_next d)
             | None => Ok (set_pending (ev_next d) q)
             end);
        Ok (Some e, q)
      else
        match fuel with
        | O => Fault OutOfFuel
        | S fuel => unlink_event fuel q id (Some e) (ev_next d)
        end
  end.

(** Putting a descriptor on the free list. *)
Definition release (e : nat) (q : eventq) : result eventq :=
  q ← set_next q e (eventq_free q); Ok (set_free (Some e) q).

Definition eventq_execute (id : Z) (q : eventq) : result (bool * eventq) :=
  '(o, q) ← unlink_event (length (descs q)) q id None (eventq_pending q);
  match o with
  | None => Ok (false, q)
  | Some e =>
      d ← vget (descs q) e;
      q ← execute_action (ev_action d) 0 q;
      q ← release e q;
      Ok (true, q)
  end.

Definition eventq_remove (id : Z) (q : eventq) : result (bool * eventq) :=
  '(o, q) ← unlink_event (length (descs q)) q id None (eventq_pending q);
  match o with
  | None => Ok (false, q)
  | Some e => q ← release e q; Ok (true, q)
  end.

(** [eventq_service_events]; a callback may queue more events, so the loop has
    fuel.  The pending list is cut after the event whose action ran. *)
Fixpoint eventq_service_events (fuel : nat) (now : Z) (q : eventq) : result eventq :=
  match eventq_pending q with
  | None => Ok q
  | Some e =>
      d ← vget (descs q) e;
      if bool_decide (ev_when d ≤ now) then
        match fuel with
        | O => Fault OutOfFuel
        | S fuel =>
            q ← execute_action (ev_action d) now q;
            d' ← vget (descs q) e;
            q ← release e (set_pending (ev_next d') q);
            eventq_service_events fuel now q
        end
      else Ok q
  end.
End Service.
