(* ===== verification/EventQInv.v ===== *)
(** * The event queue as a list of events

    The representation invariant of the pointer structures, and the effect of
    every operation on the list of pending events it stands for. *)

From S2P Require Import Prelude Misc Chains EventQ.

(** ** The abstract queue *)

(** An event: its time, its identifier, its action. *)
Definition event : Type := Z * Z * eventq_action.
Definition event_when (e : event) : Z := e.1.1.
Definition event_id (e : event) : Z := e.1.2.
Definition event_action (e : event) : eventq_action := e.2.

Definition info (d : eventq_desc) : event := (ev_when d, ev_id d, ev_action d).

(** Before the first event that is not earlier. *)
Fixpoint insert_event (e : event) (l : list event) : list event :=
  match l with
  | [] => [e]
  | x :: l => if bool_decide (event_when x < event_when e)
              then x :: insert_event e l else e :: x :: l
  end.

(** The first event with an identifier is taken out. *)
Fixpoint extract_event (id : Z) (l : list event) : option (event * list event) :=
  match l with
  | [] => None
  | x :: l => if bool_decide (event_id x = id) then Some (x, l)
              else match extract_event id l with
                   | Some (y, l) => Some (y, x :: l)
                   | None => None
                   end
  end.

(** ** Representation *)

Definition nx (q : eventq) (b : nat) : option nat :=
  match descs q !! b with Some d => ev_next d | None => None end.

Record eq_rep (q : eventq) (bs fs : list nat) : Prop := {
  rep_pending : chain (nx q) (eventq_pending q) bs;
  rep_free : chain (nx q) (eventq_free q) fs;
  rep_nodup : NoDup (bs ++ fs);
  rep_bound : Forall (λ b, b < length (descs q))%nat (bs ++ fs)
}.

Lemma rep_nodup_l q bs fs : eq_rep q bs fs → NoDup bs.
Proof. intros [_ _ Hnd _]. apply NoDup_app in Hnd. apply Hnd. Qed.

Lemma rep_bound_l q bs fs : eq_rep q bs fs → Forall (λ b, b < length (descs q))%nat bs.
Proof. intros [_ _ _ Hb]. apply Forall_app in Hb. apply Hb. Qed.

Lemma rep_length q bs fs : eq_rep q bs fs → (length bs ≤ length (descs q))%nat.
Proof. intros Hr. apply nodup_lt_length; [by eapply rep_nodup_l|by eapply rep_bound_l]. Qed.

Definition events (q : eventq) (bs : list nat) : list event :=
  omap (λ b, info <$> descs q !! b) bs.

Definition eq_abs (q : eventq) (l : list event) : Prop :=
  ∃ bs fs, eq_rep q bs fs ∧ l = events q bs.

(** Every descriptor may be allocated: the limit is off or not reached. *)
Definition has_room (q : eventq) : Prop :=
  eventq_max_events q = 0 ∨ eventq_event_count q < eventq_max_events q.

(** What the list operations leave alone. *)
Definition same_rest (q q' : eventq) : Prop :=
  cells q' = cells q ∧ eventq_max_events q' = eventq_max_events q ∧
  eventq_event_count q' = eventq_event_count q.

Lemma events_app q bs1 bs2 : events q (bs1 ++ bs2) = events q bs1 ++ events q bs2.
Proof. apply omap_app. Qed.

Lemma events_ext q q' bs :
  (∀ b, b ∈ bs → info <$> descs q' !! b = info <$> descs q !! b) → events q' bs = events q bs.
Proof.
  induction bs as [|b bs IH]; intros He; [done|]. unfold events in *. cbn.
  rewrite He by set_solver. rewrite IH by set_solver. done.
Qed.

Lemma set_next_Ok q p o d :
  descs q !! p = Some d →
  set_next q p o = Ok (set_descs (<[p := desc_next o d]> (descs q)) q).
Proof. intros Hp. unfold set_next, vupd, vget. by rewrite Hp. Qed.

(** Writing a link changes no event. *)
Lemma desc_next_info q p o d b :
  descs q !! p = Some d →
  info <$> (<[p := desc_next o d]> (descs q) !! b) = info <$> descs q !! b.
Proof.
  intros Hp. destruct (decide (p = b)) as [->|Hne].
  - rewrite list_lookup_insert_eq by (by eapply lookup_lt_Some). by rewrite Hp.
  - by rewrite list_lookup_insert_ne.
Qed.

Lemma nx_set_descs q p o d b :
  descs q !! p = Some d →
  nx (set_descs (<[p := desc_next o d]> (descs q)) q) b = if decide (b = p) then o else nx q b.
Proof.
  intros Hp. unfold nx. cbn. case_decide as Hb; subst.
  - by rewrite list_lookup_insert_eq by (by eapply lookup_lt_Some).
  - by rewrite list_lookup_insert_ne.
Qed.

(** ** The search for the insertion point *)

Lemma insert_point_spec l when bs : ∀ fuel nxt prev ev,
  nxt = (λ b, match l !! b with Some d => ev_next d | None => None end) →
  chain nxt ev bs → Forall (λ b, b < length l)%nat bs → (length bs ≤ fuel)%nat →
  ∃ bs1 bs2, bs = bs1 ++ bs2 ∧
    insert_point fuel l when prev ev = Ok (match last bs1 with Some b => Some b | None => prev end) ∧
    Forall (λ b, ∀ d, l !! b = Some d → ev_when d < when) bs1 ∧
    (∀ b d, head bs2 = Some b → l !! b = Some d → ¬ ev_when d < when).
Proof.
  induction bs as [|b bs IH]; intros fuel nxt prev ev Hnxt Hc Hb Hf; simpl in Hc.
  - subst ev. exists [], []. split; [done|]. split; [by destruct fuel|]. split; [constructor|done].
  - destruct Hc as [-> Hc]. apply Forall_cons in Hb as [Hbl Hb].
    destruct (lookup_lt_is_Some_2 _ _ Hbl) as [d Hd].
    destruct (decide (ev_when d < when)) as [Hlt|Hge].
    + destruct fuel as [|fuel]; [simpl in Hf; lia|].
      destruct (IH fuel nxt (Some b) (ev_next d) Hnxt) as (bs1 & bs2 & -> & Hrun & H1 & H2).
      { subst nxt. by rewrite Hd in Hc. } { done. } { simpl in Hf. lia. }
      exists (b :: bs1), bs2. split; [done|]. split.
      * simpl. unfold vget. rewrite Hd. simpl. rewrite bool_decide_true by done. rewrite Hrun.
        f_equal. rewrite last_cons. by destruct (last bs1).
      * split; [|done]. constructor; [|done]. intros d' Hd'. by simplify_eq.
    + exists [], (b :: bs). split; [done|]. split.
      * destruct fuel; simpl; unfold vget; rewrite Hd; simpl; by rewrite bool_decide_false.
      * split; [constructor|]. intros b' d' [= <-] Hd'. by simplify_eq.
Qed.

Lemma insert_event_split e l1 l2 :
  Forall (λ x, event_when x < event_when e) l1 →
  (∀ x, head l2 = Some x → ¬ event_when x < event_when e) →
  insert_event e (l1 ++ l2) = l1 ++ (e :: l2).
Proof.
  intros H1 H2. induction H1 as [|x l1 Hx H1 IH]; simpl.
  - destruct l2 as [|y l2]; [done|]. simpl. by rewrite bool_decide_false by eauto.
  - by rewrite bool_decide_true, IH.
Qed.

(** ** Queueing *)

(** [get_desc] takes a descriptor that is in neither list. *)
Lemma get_desc_spec q bs fs :
  eq_rep q bs fs → has_room q →
  ∃ new q1 fs1, get_desc q = Ok (new, q1) ∧ eq_rep q1 bs fs1 ∧ new ∉ bs ∧ new ∉ fs1 ∧
    (new < length (descs q1))%nat ∧ events q1 bs = events q bs ∧ same_rest q q1 ∧
    next_ID q1 = next_ID q ∧ eventq_pending q1 = eventq_pending q.
Proof.
  intros [Hp Hf Hnd Hb] Hroom. unfold get_desc. destruct fs as [|new fs]; simpl in Hf.
  - rewrite Hf, bool_decide_false by (destruct Hroom; lia).
    eexists (length (descs q)), _, []. split; [done|]. rewrite app_nil_r in *.
    rewrite Forall_forall in Hb.
    assert (∀ b, b ∈ bs → (descs q ++ [mkDesc None 0 0 (EventSetBit 0 0 0)]) !! b = descs q !! b) as Hold
      by (intros b Hin; apply lookup_app_l, Hb, Hin).
    split; [split; cbn; rewrite ?app_nil_r; [|done|done|]|].
    + eapply chain_ext; [|exact Hp]. intros b Hin. unfold nx. cbn. by rewrite Hold.
    + apply Forall_forall. intros b Hin. rewrite length_app. cbn. specialize (Hb b Hin). lia.
    + split; [intros Hin; specialize (Hb _ Hin); lia|]. split; [set_solver|].
      split; [cbn; rewrite length_app; cbn; lia|].
      split; [apply events_ext; intros b Hin; cbn; by rewrite Hold|done].
  - destruct Hf as [Hf Hc]. rewrite Hf. rewrite NoDup_app, NoDup_cons in Hnd.
    destruct Hnd as (Hnb & Hdis & Hnf & Hnd). rewrite Forall_app, Forall_cons in Hb.
    destruct Hb as (Hb1 & Hbn & Hb2). destruct (lookup_lt_is_Some_2 _ _ Hbn) as [d Hd].
    unfold vget. rewrite Hd. cbn. eexists new, _, fs. split; [done|].
    split; [split; cbn; [done| |apply NoDup_app; set_solver|by rewrite Forall_app]|].
    + unfold nx in Hc at 2. by rewrite Hd in Hc.
    + split; [set_solver|]. split; [done|]. done.
Qed.

(** Overwriting an unlinked descriptor. *)
Lemma eq_rep_write q bs fs new d :
  eq_rep q bs fs → new ∉ bs → new ∉ fs →
  eq_rep (set_descs (<[new := d]> (descs q)) q) bs fs ∧
  events (set_descs (<[new := d]> (descs q)) q) bs = events q bs.
Proof.
  intros [Hp Hf Hnd Hb] Hnb Hnf.
  assert (∀ b, b ∈ bs ++ fs → <[new:=d]> (descs q) !! b = descs q !! b) as Hold.
  { intros b Hin. apply list_lookup_insert_ne. intros ->. set_solver. }
  split; [split; cbn|].
  - eapply chain_ext; [|exact Hp]. intros b Hin. unfold nx. cbn. rewrite Hold by set_solver. done.
  - eapply chain_ext; [|exact Hf]. intros b Hin. unfold nx. cbn. rewrite Hold by set_solver. done.
  - done.
  - by rewrite length_insert.
  - apply events_ext. intros b Hin. cbn. rewrite Hold by set_solver. done.
Qed.

(** Linking a descriptor that is in neither list after [bs1]. *)
Definition link_after (q : eventq) (new : nat) (prev : option nat) : result eventq :=
  match prev with
  | Some p =>
      dp ← vget (descs q) p;
      q ← set_next q new (ev_next dp);
      set_next q p (Some new)
  | None =>
      q ← set_next q new (eventq_pending q);
      Ok (set_pending (Some new) q)
  end.

Lemma link_after_spec q bs1 bs2 fs new d :
  eq_rep q (bs1 ++ bs2) fs → new ∉ bs1 ++ bs2 → new ∉ fs → descs q !! new = Some d →
  ∃ q', link_after q new (last bs1) = Ok q' ∧ eq_rep q' (bs1 ++ new :: bs2) fs ∧
    events q' (bs1 ++ new :: bs2) = events q bs1 ++ info d :: events q bs2 ∧
    same_rest q q' ∧ next_ID q' = next_ID q ∧
    (bs1 ≠ [] → eventq_pending q' = eventq_pending q).
Proof.
  intros [Hp Hf Hnd Hb] Hnb Hnf Hd.
  assert (NoDup (bs1 ++ bs2)) as Hnd0 by (apply NoDup_app in Hnd; apply Hnd).
  assert (NoDup ((bs1 ++ new :: bs2) ++ fs)) as Hnd'.
  { rewrite <- app_assoc. simpl. rewrite <- Permutation_middle, app_assoc. apply NoDup_cons. set_solver. }
  assert (Forall (λ b, b < length (descs q))%nat ((bs1 ++ new :: bs2) ++ fs)) as Hb'.
  { rewrite <- app_assoc. simpl. rewrite <- Permutation_middle, app_assoc.
    constructor; [by eapply lookup_lt_Some|done]. }
  assert (∀ q', (∀ b, info <$> descs q' !! b = info <$> descs q !! b) →
    events q' (bs1 ++ new :: bs2) = events q bs1 ++ info d :: events q bs2) as Hev.
  { intros q' He. rewrite (events_ext q q') by auto. rewrite events_app. f_equal.
    unfold events. cbn. by rewrite Hd. }
  destruct bs1 as [|b0 bs1 _] using rev_ind; [|rewrite last_snoc].
  - eexists. unfold link_after. cbn [last]. rewrite (set_next_Ok q new _ d) by done. split; [done|]. split.
    + split; cbn; [| |done|by rewrite length_insert].
      * change (chain (nx (set_descs (<[new := desc_next (eventq_pending q) d]> (descs q)) q))
          (Some new) (new :: bs2)).
        eapply chain_push; [exact Hnb|exact Hp| |].
        -- rewrite nx_set_descs by done. by rewrite decide_True.
        -- intros c Hc. rewrite nx_set_descs by done. by rewrite decide_False.
      * eapply chain_ext; [|exact Hf]. intros c Hc.
        change (nx (set_descs (<[new := desc_next (eventq_pending q) d]> (descs q)) q) c = nx q c).
        rewrite nx_set_descs by done. rewrite decide_False; [done|]. by intros ->.
    + split; [|done]. apply Hev. intros b. cbn. by apply desc_next_info.
  - assert (b0 ≠ new) as Hne by set_solver.
    assert (is_Some (descs q !! b0)) as [d0 Hd0].
    { apply lookup_lt_is_Some_2. rewrite Forall_forall in Hb. apply Hb. set_solver. }
    set (q1 := set_descs (<[new := desc_next (ev_next d0) d]> (descs q)) q).
    assert (descs q1 !! b0 = Some d0) as Hd01 by (cbn; by rewrite list_lookup_insert_ne).
    exists (set_descs (<[b0 := desc_next (Some new) d0]> (descs q1)) q1).
    unfold link_after, vget at 1. rewrite Hd0. cbn [mbind result_bind].
    rewrite (set_next_Ok q new _ d) by done. cbn [mbind result_bind].
    rewrite (set_next_Ok _ b0 _ d0) by exact Hd01. split; [done|].
    assert (∀ c, nx (set_descs (<[b0 := desc_next (Some new) d0]> (descs q1)) q1) c
      = if decide (c = b0) then Some new else if decide (c = new) then ev_next d0 else nx q c) as Hnx.
    { intros c. rewrite nx_set_descs by done. case_decide; [done|]. subst q1. by rewrite nx_set_descs. }
    split.
    + split; cbn [eventq_pending eventq_free descs set_descs];
        [| |done|subst q1; cbn; by rewrite !length_insert].
      * rewrite <- app_assoc in *. simpl in *. eapply (chain_insert (nx q)); [|exact Hnb|exact Hp| | |].
        -- exact Hnd0.
        -- rewrite Hnx, decide_False, decide_True by done. unfold nx. by rewrite Hd0.
        -- by rewrite Hnx, decide_True.
        -- intros c Hc Hc0. by rewrite Hnx, !decide_False.
      * eapply chain_ext; [|exact Hf]. intros c Hc. rewrite Hnx.
        apply NoDup_app in Hnd as (_ & Hdis & _).
        rewrite (decide_False (P := c = b0)), (decide_False (P := c = new)); [done|by intros ->|].
        intros ->. apply (Hdis b0); [set_solver|done].
    + split; [|done]. apply Hev. intros b. cbn. rewrite (desc_next_info q1) by done.
      subst q1. cbn. by apply desc_next_info.
Qed.
