(* ===== verification/EventQSpec.v ===== *)
(** * The event queue's operations on the list of events *)

From S2P Require Import Prelude Misc Chains EventQ EventQInv.

(** ** Queueing *)

Lemma queue_event_unfold when action q :
  queue_event when action q =
    '(new, q) ← get_desc q;
    d ← vget (descs q) new;
    l ← vset (descs q) new (mkDesc (ev_next d) when (next_ID q) action);
    let q1 := set_next_ID (u32 (next_ID q + 1)) (set_descs l q) in
    prev ← insert_point (length (descs q1)) (descs q1) when None (eventq_pending q1);
    q2 ← link_after q1 new prev; Ok (next_ID q, q2).
Proof.
  unfold queue_event. destruct (get_desc q) as [[new q1]|]; [|done]. cbn.
  destruct (vget (descs q1) new) as [d|]; [|done]. cbn.
  destruct (vset _ _ _) as [l|]; [|done]. cbn.
  destruct (insert_point _ _ _ _ _) as [[p|]|]; [| |done]; cbn.
  - destruct (vget l p) as [dp|]; [|done]. cbn. by destruct (set_next _ _ _).
  - by destruct (set_next _ _ _).
Qed.

Lemma same_rest_trans q1 q2 q3 : same_rest q1 q2 → same_rest q2 q3 → same_rest q1 q3.
Proof. unfold same_rest. intros (->&->&->) (->&->&->). done. Qed.

Lemma queue_event_spec when action q l :
  eq_abs q l → has_room q →
  ∃ q', queue_event when action q = Ok (next_ID q, q') ∧
    eq_abs q' (insert_event (when, next_ID q, action) l) ∧
    next_ID q' = u32 (next_ID q + 1) ∧ same_rest q q' ∧
    (∀ x, head l = Some x → event_when x < when → eventq_pending q' = eventq_pending q).
Proof.
  intros (bs & fs & Hrep & ->) Hroom. rewrite queue_event_unfold.
  destruct (get_desc_spec q bs fs Hrep Hroom)
    as (new & q1 & fs1 & -> & Hrep1 & Hnb & Hnf & Hlt & Hev1 & Hsame1 & Hid1 & Hpend1).
  destruct (lookup_lt_is_Some_2 _ _ Hlt) as [d Hd]. cbn [mbind result_bind].
  unfold vget, vset. rewrite Hd. cbn [mbind result_bind]. rewrite Hid1.
  set (d' := mkDesc _ _ _ _).
  destruct (eq_rep_write q1 bs fs1 new d' Hrep1 Hnb Hnf) as [Hrep2 Hev2].
  set (q2 := set_next_ID _ _).
  assert (eq_rep q2 bs fs1) as Hrep2' by (destruct Hrep2; by split).
  assert (events q2 bs = events q bs) as Hev2' by (etrans; [exact Hev2|exact Hev1]).
  destruct (insert_point_spec (descs q2) when bs (length (descs q2)) (nx q2) None
    (eventq_pending q2)) as (bs1 & bs2 & Hbs & Hpt & H1 & H2).
  { done. } { apply Hrep2'. } { by eapply rep_bound_l. } { by eapply rep_length. }
  cbn zeta. rewrite Hpt. cbn [mbind result_bind].
  replace (match last bs1 with Some b => Some b | None => None end) with (last bs1)
    by (by destruct (last bs1)).
  rewrite Hbs in Hrep2', Hnb.
  destruct (link_after_spec q2 bs1 bs2 fs1 new d' Hrep2' Hnb Hnf)
    as (q' & -> & Hrep' & Hev' & Hsame' & Hid' & Hhd').
  { cbn. by rewrite list_lookup_insert_eq. }
  cbn [mbind result_bind]. exists q'.
  assert (∀ x, head (events q2 bs2) = Some x → ¬ event_when x < when) as Hlate.
  { intros x Hx. destruct bs2 as [|b bs2]; [done|].
    assert (is_Some (descs q2 !! b)) as [db Hdb].
    { apply lookup_lt_is_Some_2. destruct Hrep2' as [_ _ _ Hbd].
      rewrite !Forall_app, Forall_cons in Hbd. tauto. }
    unfold events in Hx. cbn [omap list_omap] in Hx. rewrite Hdb in Hx.
    injection Hx as <-. by apply (H2 b). }
  split; [done|]. split; [|split; [|split]].
  - exists (bs1 ++ new :: bs2), fs1. split; [done|]. rewrite Hev', <- Hev2', Hbs, events_app.
    apply insert_event_split.
    + apply Forall_forall. intros x (b & Hb & Hx)%list_elem_of_omap. rewrite Forall_forall in H1.
      destruct (descs q2 !! b) as [db|] eqn:Hdb; [|done]. injection Hx as <-. by apply (H1 b).
    + exact Hlate.
  - by rewrite Hid'.
  - eapply same_rest_trans; [exact Hsame1|]. eapply same_rest_trans; [|exact Hsame']. done.
  - intros x Hx Hxw. rewrite Hhd'; [exact Hpend1|]. intros ->.
    rewrite <- Hev2', Hbs in Hx. by apply (Hlate x Hx).
Qed.

(** ** Taking events out *)

Definition unlink_after (q : eventq) (prev : option nat) (d : eventq_desc) : result eventq :=
  match prev with
  | Some p => set_next q p (ev_next d)
  | None => Ok (set_pending (ev_next d) q)
  end.

(** The search, from the middle of the pending list on. *)
Lemma unlink_event_find q id bs2 : ∀ fuel bs1 ev,
  chain (nx q) ev bs2 → Forall (λ b, b < length (descs q))%nat bs2 → (length bs2 ≤ fuel)%nat →
  match extract_event id (events q bs2) with
  | None => unlink_event fuel q id (last bs1) ev = Ok (None, q)
  | Some (x, l') => ∃ bs3 e d bs4, bs2 = bs3 ++ e :: bs4 ∧ descs q !! e = Some d ∧ info d = x ∧
      l' = events q bs3 ++ events q bs4 ∧ ev_id d = id ∧
      unlink_event fuel q id (last bs1) ev
      = q' ← unlink_after q (last (bs1 ++ bs3)) d; Ok (Some e, q')
  end.
Proof.
  induction bs2 as [|b bs2 IH]; intros fuel bs1 ev Hc Hb Hf; simpl in Hc.
  - subst ev. by destruct fuel.
  - destruct Hc as [-> Hc]. apply Forall_cons in Hb as [Hbl Hb].
    destruct (lookup_lt_is_Some_2 _ _ Hbl) as [d Hd].
    unfold events at 1. cbn [omap list_omap]. rewrite Hd.
    cbn [fmap option_fmap option_map extract_event]. fold (omap (λ b, info <$> descs q !! b) bs2).
    fold (events q bs2).
    destruct (decide (ev_id d = id)) as [Heq|Hne].
    + rewrite bool_decide_true by exact Heq. exists [], b, d, bs2.
      do 4 (split; [done|]). split; [done|]. rewrite app_nil_r.
      destruct fuel; simpl; unfold vget; rewrite Hd; simpl; by rewrite bool_decide_true.
    + rewrite bool_decide_false by exact Hne.
      destruct fuel as [|fuel]; [simpl in Hf; lia|].
      assert (unlink_event (S fuel) q id (last bs1) (Some b)
        = unlink_event fuel q id (last (bs1 ++ [b])) (ev_next d)) as Hstep.
      { simpl. unfold vget. rewrite Hd. simpl. rewrite bool_decide_false by done.
        by rewrite last_snoc. }
      specialize (IH fuel (bs1 ++ [b]) (ev_next d)). rewrite <- Hstep in IH.
      unfold nx in Hc at 2. rewrite Hd in Hc.
      destruct (extract_event id (events q bs2)) as [[x l']|].
      * destruct IH as (bs3 & e & d' & bs4 & -> & Hd' & Hx & -> & Hid & ->);
          [done|done|simpl in Hf; lia|].
        exists (b :: bs3), e, d', bs4. do 3 (split; [done|]). split; [|split; [done|]].
        -- unfold events at 3. cbn. by rewrite Hd.
        -- by rewrite <- app_assoc.
      * apply IH; [done|done|simpl in Hf; lia].
Qed.

(** Unlinking and releasing a pending descriptor. *)
Lemma unlink_after_spec q bs1 e bs2 fs d :
  eq_rep q (bs1 ++ e :: bs2) fs → descs q !! e = Some d →
  ∃ q', unlink_after q (last bs1) d = Ok q' ∧ eq_rep q' (bs1 ++ bs2) fs ∧
    (∃ d', descs q' !! e = Some d' ∧ info d' = info d) ∧ (∀ b, info <$> descs q' !! b = info <$> descs q !! b) ∧
    same_rest q q' ∧ next_ID q' = next_ID q.
Proof.
  intros [Hp Hf Hnd Hb] Hd.
  assert (Hnd0 : NoDup (bs1 ++ e :: bs2)) by (apply NoDup_app in Hnd; apply Hnd).
  assert (NoDup ((bs1 ++ bs2) ++ fs) ∧ Forall (λ b, b < length (descs q))%nat ((bs1 ++ bs2) ++ fs)) as [Hnd' Hb'].
  { rewrite <- app_assoc in *. simpl in *. rewrite <- Permutation_middle in Hnd, Hb.
    apply NoDup_cons in Hnd as [_ Hnd]. by apply Forall_cons in Hb as [_ Hb]. }
  destruct bs1 as [|b0 bs1 _] using rev_ind; [|rewrite last_snoc].
  - exists (set_pending (ev_next d) q). split; [done|]. simpl in *. destruct Hp as [_ Hp].
    unfold nx in Hp at 2. rewrite Hd in Hp. split; [by split|]. split; [by exists d|]. done.
  - assert (is_Some (descs q !! b0)) as [d0 Hd0].
    { apply lookup_lt_is_Some_2. rewrite Forall_forall in Hb'. apply Hb'. set_solver. }
    assert (e ≠ b0) as Hne.
    { intros ->. rewrite <- app_assoc in Hnd0. simpl in Hnd0.
      apply NoDup_app in Hnd0 as (_ & _ & Hnd0). apply NoDup_cons in Hnd0 as [Hn _]. set_solver. }
    eexists. split; [cbn; by rewrite (set_next_Ok q b0 _ d0) by done|].
    assert (nx q e = ev_next d) as Hnxe by (unfold nx; by rewrite Hd).
    split; [split; cbn; [| |done|by rewrite length_insert]|].
    + rewrite <- app_assoc in *. simpl in *. eapply chain_ext; [|by eapply chain_remove].
      intros c Hc. cbn beta. rewrite nx_set_descs by done. by rewrite Hnxe.
    + eapply chain_ext; [|exact Hf]. intros c Hc. rewrite nx_set_descs by done.
      rewrite decide_False; [done|]. intros ->. apply NoDup_app in Hnd' as (_ & Hdis & _).
      apply (Hdis b0); [set_solver|done].
    + split.
      * exists d. split; [|done]. cbn. by rewrite list_lookup_insert_ne.
      * split; [|done]. intros b. cbn. by apply desc_next_info.
Qed.

Lemma release_spec q bs fs e :
  eq_rep q bs fs → e ∉ bs → e ∉ fs → (e < length (descs q))%nat →
  ∃ q', release e q = Ok q' ∧ eq_rep q' bs (e :: fs) ∧
    (∀ b, info <$> descs q' !! b = info <$> descs q !! b) ∧ same_rest q q' ∧
    next_ID q' = next_ID q.
Proof.
  intros [Hp Hf Hnd Hb] Hnb Hnf Hlt. destruct (lookup_lt_is_Some_2 _ _ Hlt) as [d Hd].
  unfold release. rewrite (set_next_Ok q e _ d) by done. eexists. split; [done|].
  assert (∀ c, c ≠ e → nx (set_descs (<[e := desc_next (eventq_free q) d]> (descs q)) q) c = nx q c)
    as Hnx by (intros c Hc; rewrite nx_set_descs by done; by rewrite decide_False).
  split; [split; cbn|].
  - eapply chain_ext; [|exact Hp]. intros c Hc. apply Hnx. by intros ->.
  - apply (chain_push (nx q) _ (eventq_free q) fs e Hnf Hf); [|exact Hnx].
    etrans; [apply nx_set_descs; exact Hd|by rewrite decide_True].
  - rewrite <- Permutation_middle. apply NoDup_cons. set_solver.
  - rewrite <- Permutation_middle, length_insert. by constructor.
  - split; [|done]. intros b. cbn. by apply desc_next_info.
Qed.

(** The descriptor found is unlinked, then put on the free list. *)
Lemma eventq_remove_spec q l id :
  eq_abs q l →
  ∃ q', eventq_remove id q = Ok (match extract_event id l with Some _ => true | None => false end, q') ∧
    eq_abs q' (match extract_event id l with Some (_, l') => l' | None => l end) ∧
    same_rest q q' ∧ next_ID q' = next_ID q.
Proof.
  intros (bs & fs & Hrep & ->). unfold eventq_remove.
  pose proof (unlink_event_find q id bs (length (descs q)) [] (eventq_pending q)
    (rep_pending _ _ _ Hrep) (rep_bound_l _ _ _ Hrep) (rep_length _ _ _ Hrep)) as Hfind.
  cbn [last] in Hfind. destruct (extract_event id (events q bs)) as [[x l']|].
  - destruct Hfind as (bs1 & e & d & bs2 & -> & Hd & _ & -> & _ & Hfind). rewrite Hfind. clear Hfind.
    simpl app. destruct (unlink_after_spec q bs1 e bs2 fs d Hrep Hd)
      as (q1 & -> & Hrep1 & _ & Hinfo1 & Hsame1 & Hid1). cbn [mbind result_bind].
    assert (e ∉ bs1 ++ bs2 ∧ e ∉ fs) as [He1 He2].
    { destruct Hrep as [_ _ Hnd _]. rewrite <- app_assoc in Hnd. simpl in Hnd.
      rewrite <- Permutation_middle in Hnd. apply NoDup_cons in Hnd as [Hn _]. set_solver. }
    destruct (release_spec q1 (bs1 ++ bs2) fs e Hrep1 He1 He2)
      as (q2 & -> & Hrep2 & Hinfo2 & Hsame2 & Hid2).
    { apply lookup_lt_is_Some_1. rewrite <- (fmap_is_Some info), Hinfo1, Hd. by eexists. }
    cbn [mbind result_bind]. exists q2. split; [done|]. split; [|split].
    + exists (bs1 ++ bs2), (e :: fs). split; [done|]. rewrite <- events_app. symmetry.
      apply events_ext. intros b _. by rewrite Hinfo2, Hinfo1.
    + by eapply same_rest_trans.
    + congruence.
  - rewrite Hfind. cbn [mbind result_bind]. exists q. split; [done|]. split; [|done]. by exists bs, fs.
Qed.

(** ** Service *)

Section Service.
(** What a callback does to the memory, and the events it asks for. *)
Variable cs : Z → Z → Z → gmap Z Z → result (gmap Z Z * list (Z * eventq_action)).

Fixpoint queue_all (new : list (Z * eventq_action)) (q : eventq) : result eventq :=
  match new with
  | [] => Ok q
  | (w, a) :: new => '(_, q) ← queue_event w a q; queue_all new q
  end.

(** The callback as a user of the module. *)
Definition run_callback (fn now arg : Z) (q : eventq) : result eventq :=
  '(m, new) ← cs fn now arg (cells q); queue_all new (set_cells m q).

Fixpoint insert_all (new : list (Z * eventq_action)) (l : list event) (id : Z) : list event * Z :=
  match new with
  | [] => (l, id)
  | (w, a) :: new => insert_all new (insert_event (w, id, a) l) (u32 (id + 1))
  end.

(** The effect of an action. *)
Definition perform (a : eventq_action) (now : Z) (m : gmap Z Z)
    : result (gmap Z Z * list (Z * eventq_action)) :=
  match a with
  | EventSetBit bmap _ bit => m ← bitmap_op m bmap bit BITMAP_SET; Ok (m, [])
  | EventClearBit bmap _ bit => m ← bitmap_op m bmap bit BITMAP_CLEAR; Ok (m, [])
  | EventSetFlag p v => m ← upd_cell m p (λ _, v); Ok (m, [])
  | EventAddOp p n => m ← upd_cell m p (λ v, i32 (v + n)); Ok (m, [])
  | EventCallback fn arg => cs fn now arg m
  end.

(** Serving the events in order; an event may only ask for later ones. *)
Fixpoint service_spec (fuel : nat) (now : Z) (l : list event) (id : Z) (m : gmap Z Z)
    : result (list event * Z * gmap Z Z) :=
  match l with
  | [] => Ok ([], id, m)
  | x :: l' =>
      if bool_decide (event_when x ≤ now) then
        match fuel with
        | O => Fault OutOfFuel
        | S fuel =>
            '(m, new) ← perform (event_action x) now m;
            if bool_decide (Forall (λ r, event_when x < r.1) new) then
              let '(l', id) := insert_all new l' id in service_spec fuel now l' id m
            else Fault Undefined
        end
      else Ok (l, id, m)
  end.

Lemma queue_all_spec new : ∀ q l,
  eq_abs q l → has_room q →
  ∃ q', queue_all new q = Ok q' ∧ eq_abs q' (insert_all new l (next_ID q)).1 ∧
    next_ID q' = (insert_all new l (next_ID q)).2 ∧ same_rest q q' ∧
    (∀ x, head l = Some x → Forall (λ r, event_when x < r.1) new →
      eventq_pending q' = eventq_pending q).
Proof.
  induction new as [|[w a] new IH]; intros q l Hq Hroom; cbn.
  - by exists q.
  - destruct (queue_event_spec w a q l Hq Hroom) as (q1 & -> & Hq1 & Hid1 & Hs1 & Hh1). cbn.
    destruct (IH q1 _ Hq1) as (q2 & -> & Hq2 & Hid2 & Hs2 & Hh2).
    { destruct Hs1 as (_ & Hm & Hc). unfold has_room. by rewrite Hm, Hc. }
    exists q2. rewrite <- Hid1. split; [done|]. split; [done|]. split; [done|].
    split; [by eapply same_rest_trans|]. intros x Hx [Hlt Hn]%Forall_cons.
    etrans; [apply (Hh2 x); [|done]|by apply (Hh1 x)]. destruct l; [done|]. injection Hx as ->.
    simpl in *. by rewrite bool_decide_true.
Qed.

Lemma eq_abs_set_cells m q l : eq_abs q l → eq_abs (set_cells m q) l.
Proof. intros (bs & fs & [] & ->). exists bs, fs. by split. Qed.

Lemma execute_action_spec a now q l m new :
  eq_abs q l → has_room q → perform a now (cells q) = Ok (m, new) →
  ∃ q', execute_action run_callback a now q = Ok q' ∧ eq_abs q' (insert_all new l (next_ID q)).1 ∧
    next_ID q' = (insert_all new l (next_ID q)).2 ∧ cells q' = m ∧ has_room q' ∧
    (∀ x, head l = Some x → Forall (λ r, event_when x < r.1) new →
      eventq_pending q' = eventq_pending q).
Proof.
  intros Hq Hroom Hp.
  assert (∃ q', execute_action run_callback a now q = queue_all new (set_cells m q) ∧ q' = q) as (_ & -> & _).
  { exists q. split; [|done]. destruct a; cbn in Hp |- *; inv_ok;
      try by (match goal with H : _ = Ok _ |- _ => rewrite H end).
    unfold run_callback. by rewrite Hp. }
  destruct (queue_all_spec new (set_cells m q) l) as (q' & Hrun & Hq' & Hid & (Hc & Hm & Hcnt) & Hh).
  { by apply eq_abs_set_cells. } { exact Hroom. }
  exists q'. split; [done|]. split; [done|]. split; [done|]. split; [done|].
  split; [|exact Hh]. unfold has_room. by rewrite Hm, Hcnt.
Qed.

(** Later events are inserted behind the head. *)
Lemma insert_all_later new : ∀ x l id,
  Forall (λ r, event_when x < r.1) new →
  insert_all new (x :: l) id = (x :: (insert_all new l id).1, (insert_all new l id).2).
Proof.
  induction new as [|[w a] new IH]; intros x l id Hn; [done|].
  apply Forall_cons in Hn as [Hw Hn]. cbn [insert_all insert_event].
  rewrite bool_decide_true by exact Hw. by apply IH.
Qed.

(** The head leaves the pending list for the free list. *)
Lemma pop_head q x l :
  eq_abs q (x :: l) →
  ∃ e d, eventq_pending q = Some e ∧ descs q !! e = Some d ∧ info d = x ∧
    ∃ q', release e (set_pending (ev_next d) q) = Ok q' ∧ eq_abs q' l ∧ same_rest q q' ∧
      next_ID q' = next_ID q.
Proof.
  intros (bs & fs & Hrep & Hl). destruct bs as [|e bs]; [done|].
  destruct (lookup_lt_is_Some_2 (descs q) e) as [d Hd].
  { apply rep_bound_l in Hrep. by apply Forall_cons in Hrep as [He _]. }
  unfold events in Hl. cbn [omap list_omap] in Hl. rewrite Hd in Hl. injection Hl as Hx Hl.
  exists e, d. split; [by apply Hrep|]. split; [done|]. split; [done|].
  destruct (unlink_after_spec q [] e bs fs d Hrep Hd)
    as (q1 & [= <-] & Hrep1 & _ & Hinfo1 & Hsame1 & Hid1).
  assert (e ∉ bs ∧ e ∉ fs) as [He1 He2].
  { destruct Hrep as [_ _ Hnd _]. simpl in Hnd. apply NoDup_cons in Hnd as [Hn _]. set_solver. }
  destruct (release_spec _ bs fs e Hrep1 He1 He2) as (q2 & Hrun & Hrep2 & Hinfo2 & Hsame2 & Hid2).
  { by eapply lookup_lt_Some. }
  exists q2. split; [done|]. split; [|by eauto using same_rest_trans].
  exists bs, (e :: fs). split; [done|]. rewrite Hl. symmetry. apply events_ext. intros b _.
  by rewrite Hinfo2.
Qed.

Lemma eq_abs_nil q : eq_abs q [] → eventq_pending q = None.
Proof.
  intros (bs & fs & Hrep & Hl). destruct bs as [|b bs]; [by apply Hrep|].
  apply rep_bound_l in Hrep. apply Forall_cons in Hrep as [Hb _].
  destruct (lookup_lt_is_Some_2 _ _ Hb) as [d Hd]. unfold events in Hl. cbn in Hl.
  by rewrite Hd in Hl.
Qed.

Lemma service_refines fuel now : ∀ q l l' id' m',
  eq_abs q l → has_room q → service_spec fuel now l (next_ID q) (cells q) = Ok (l', id', m') →
  ∃ q', eventq_service_events run_callback fuel now q = Ok q' ∧ eq_abs q' l' ∧
    next_ID q' = id' ∧ cells q' = m'.
Proof.
  induction fuel as [|fuel IH]; intros q [|x l] l' id' m' Hq Hroom Hs.
  1, 3: cbn in Hs; inv_ok; exists q; apply eq_abs_nil in Hq as Hpe; cbn; by rewrite Hpe.
  - destruct (pop_head q x l Hq) as (e & d & Hpe & Hd & <- & _). cbn in Hs |- *.
    rewrite Hpe. unfold vget. rewrite Hd. cbn. case_bool_decide; [done|]. inv_ok. by exists q.
  - destruct (pop_head q x l Hq) as (e & d & Hpe & Hd & <- & _). cbn in Hs |- *.
    rewrite Hpe, (proj2 (vget_Ok _ _ _) Hd). cbn. case_bool_decide; [|inv_ok; by exists q].
    destruct (perform (ev_action d) now (cells q)) as [[m new]|] eqn:Hp; [|done]. cbn in Hs.
    destruct (bool_decide (Forall _ new)) eqn:Hlater; [|done]. apply bool_decide_eq_true in Hlater.
    destruct (execute_action_spec (ev_action d) now q _ m new Hq Hroom Hp)
      as (q1 & -> & Hq1 & Hid1 & Hc1 & Hroom1 & Hh1). cbn [mbind result_bind].
    rewrite insert_all_later in Hq1, Hid1 by exact Hlater. cbn [fst snd] in Hq1, Hid1.
    destruct (pop_head q1 _ _ Hq1) as (e1 & d1 & Hpe1 & Hd1 & _ & q2 & Hrel & Hq2 & Hs2 & Hid2).
    rewrite (Hh1 (info d)), Hpe in Hpe1 by done. injection Hpe1 as <-.
    rewrite (proj2 (vget_Ok _ _ _) Hd1). cbn [mbind result_bind]. rewrite Hrel. cbn [mbind result_bind].
    destruct (insert_all new l (next_ID q)) as [l1 id1] eqn:Hins.
    destruct Hs2 as (Hc2 & Hm2 & Hcnt2). apply (IH q2 l1); [done| |].
    + unfold has_room in *. by rewrite Hm2, Hcnt2.
    + by rewrite Hid2, Hid1, Hc2, Hc1.
Qed.
End Service.
