(* ===== verification/EventQMain.v ===== *)
(** * The event queue: its properties *)

From S2P Require Import Prelude Misc Chains EventQ EventQInv EventQSpec.

(** Pending events are in order of their times. *)
Definition in_order (l : list event) : Prop :=
  StronglySorted (λ x y, event_when x ≤ event_when y) l.

Lemma insert_event_perm e l : insert_event e l ≡ₚ e :: l.
Proof.
  induction l as [|x l IH]; cbn; [done|]. case_bool_decide; [|done].
  rewrite IH. apply Permutation_swap.
Qed.

Lemma insert_event_in_order e l : in_order l → in_order (insert_event e l).
Proof.
  unfold in_order. induction 1 as [|x l Hl IH Hx]; cbn; [by repeat constructor|].
  case_bool_decide as Hlt.
  - constructor; [done|]. rewrite insert_event_perm. constructor; [lia|done].
  - constructor; [by constructor|]. constructor; [lia|]. eapply Forall_impl; [exact Hx|].
    cbn. intros; lia.
Qed.

Lemma extract_insert e l :
  Forall (λ x, event_id x ≠ event_id e) l →
  extract_event (event_id e) (insert_event e l) = Some (e, l).
Proof.
  induction 1 as [|x l Hx Hl IH]; cbn; [by rewrite bool_decide_true|].
  case_bool_decide; cbn; [|by rewrite bool_decide_true].
  by rewrite bool_decide_false, IH.
Qed.

Lemma filter_none {A} (P : A → Prop) `{∀ x, Decision (P x)} (l : list A) :
  (∀ x, x ∈ l → ¬ P x) → base.filter P l = [].
Proof.
  induction l as [|x l IH]; intros Hl; [done|].
  rewrite filter_cons_False by (apply Hl; set_solver). apply IH. set_solver.
Qed.

Lemma in_order_filter (P : event → Prop) `{∀ x, Decision (P x)} l :
  in_order l → in_order (base.filter P l).
Proof.
  unfold in_order. induction 1 as [|x l Hl IH Hx]; [constructor|].
  destruct (decide (P x)); [rewrite filter_cons_True by done|by rewrite filter_cons_False].
  constructor; [done|]. rewrite Forall_forall in *. intros y [_ Hy]%list_elem_of_filter. auto.
Qed.

Section Due.
Variable cs : Z → Z → Z → gmap Z Z → result (gmap Z Z * list (Z * eventq_action)).

(** The actions of a list of events, one after the other. *)
Fixpoint perform_all (now : Z) (es : list event) (m : gmap Z Z) : result (gmap Z Z) :=
  match es with
  | [] => Ok m
  | x :: es => '(m, _) ← perform cs (event_action x) now m; perform_all now es m
  end.

Definition due (now : Z) : list event → list event := base.filter (λ x, event_when x ≤ now).
Definition later (now : Z) : list event → list event := base.filter (λ x, now < event_when x).

Lemma due_later_nil now x l :
  in_order (x :: l) → now < event_when x → due now (x :: l) = [] ∧ later now (x :: l) = x :: l.
Proof.
  intros Hl Hx. assert (∀ y, y ∈ x :: l → now < event_when y) as Hall.
  { apply StronglySorted_inv in Hl as [_ Hl]. rewrite Forall_forall in Hl.
    intros y [->|Hy]%elem_of_cons; [done|]. specialize (Hl y Hy). lia. }
  split; [|by apply filter_all]. apply filter_none. intros y Hy. specialize (Hall y Hy). lia.
Qed.

(** Without requests the service performs what is due. *)
Lemma service_spec_due now id l : ∀ fuel m m',
  (∀ fn t arg m1 m2 new, cs fn t arg m1 = Ok (m2, new) → new = []) →
  in_order l → (length (due now l) ≤ fuel)%nat →
  perform_all now (due now l) m = Ok m' →
  service_spec cs fuel now l id m = Ok (later now l, id, m').
Proof.
  intros fuel m m' Hcs. revert fuel m. induction l as [|x l IH]; intros fuel m Hl Hf Hp.
  - cbn in *. inv_ok. by destruct fuel.
  - destruct (decide (event_when x ≤ now)) as [Hx|Hx].
    + unfold due, later in *. rewrite filter_cons_True in Hp, Hf by done.
      rewrite filter_cons_False by lia. destruct fuel as [|fuel]; [simpl in Hf; lia|]. cbn in Hp |- *.
      rewrite bool_decide_true by done.
      destruct (perform cs (event_action x) now m) as [[m1 new]|] eqn:Hpx; [|done].
      cbn in Hp |- *. assert (new = []) as ->.
      { destruct (event_action x); cbn in Hpx; inv_ok; try done. by eapply Hcs. }
      cbn. apply IH; [by apply StronglySorted_inv in Hl as [? _]|simpl in Hf; lia|done].
    + destruct (due_later_nil now x l Hl) as [Hd Hla]; [lia|]. rewrite Hd in Hp. cbn in Hp.
      rewrite Hla. inv_ok. destruct fuel; cbn; by rewrite bool_decide_false.
Qed.
End Due.

(** ** Properties *)

(** C28: Queueing keeps the pending list in order of time, with the new event before
    the first one that is not earlier, and returns its identifier; removing that
    identifier, when no pending event has it, gives the previous list back. *)
Theorem queue_remove_roundtrip when action q l :
  eq_abs q l → has_room q → in_order l →
  ∃ q1, queue_event when action q = Ok (next_ID q, q1) ∧
    eq_abs q1 (insert_event (when, next_ID q, action) l) ∧
    in_order (insert_event (when, next_ID q, action) l) ∧
    (Forall (λ x, event_id x ≠ next_ID q) l →
     ∃ q2, eventq_remove (next_ID q) q1 = Ok (true, q2) ∧ eq_abs q2 l ∧ same_rest q q2).
Proof.
  intros Hq Hroom Hl. destruct (queue_event_spec when action q l Hq Hroom)
    as (q1 & Hrun & Hq1 & _ & Hs1 & _).
  exists q1. split; [done|]. split; [done|]. split; [by apply insert_event_in_order|].
  intros Hid. destruct (eventq_remove_spec q1 _ (next_ID q) Hq1) as (q2 & Hrem & Hq2 & Hs2 & _).
  pose proof (extract_insert (when, next_ID q, action) l Hid) as He. cbn [event_id fst snd] in He.
  rewrite He in Hrem, Hq2. exists q2. split; [done|]. split; [done|].
  by eapply same_rest_trans.
Qed.

(** C26: [eventq_service_events] implements the service of a list of events, in their
    order, over callbacks that change the memory and queue any number of events later
    than the one being served; those that come due are served as well. *)
Theorem service_events_refines cs fuel now q l l' id' m' :
  eq_abs q l → has_room q → service_spec cs fuel now l (next_ID q) (cells q) = Ok (l', id', m') →
  ∃ q', eventq_service_events (run_callback cs) fuel now q = Ok q' ∧ eq_abs q' l' ∧
    next_ID q' = id' ∧ cells q' = m'.
Proof. apply service_refines. Qed.

(** C27: When callbacks queue nothing, the service terminates after one iteration per
    due event: it has performed the actions of exactly the events due, once each and
    in order of time, and the events left pending are the later ones. *)
Theorem service_events_due cs fuel now q l m' :
  eq_abs q l → has_room q → in_order l →
  (∀ fn t arg m1 m2 new, cs fn t arg m1 = Ok (m2, new) → new = []) →
  perform_all cs now (due now l) (cells q) = Ok m' → (length (due now l) ≤ fuel)%nat →
  ∃ q', eventq_service_events (run_callback cs) fuel now q = Ok q' ∧
    eq_abs q' (later now l) ∧ in_order (later now l) ∧ cells q' = m'.
Proof.
  intros Hq Hroom Hl Hcs Hp Hf.
  destruct (service_refines cs fuel now q l (later now l) (next_ID q) m' Hq Hroom)
    as (q' & Hrun & Hq' & _ & Hc); [by apply service_spec_due|].
  exists q'. split; [done|]. split; [done|]. split; [|done].
  by apply in_order_filter.
Qed.

(** ** Observations *)

Definition started : eventq := eventq_init 1 (mkEventq 0 0 None None 1 [] {[10 := 0; 11 := 0]}).

(** The count of events is never raised, so a limit of one event admits two. *)
Lemma max_events_not_enforced :
  ('(i, q) ← eventq_queue_setflag 5 10 1 started;
   '(j, _) ← eventq_queue_setflag 6 11 1 q; Ok (i, j)) = Ok (1, 2).
Proof. vm_compute. reflexivity. Qed.

(** A callback that queues an event at its own time puts it in front of the event
    being served: when the pending list is cut after the served event, the new one is
    dropped without having been performed. *)
Definition requeue (fn now arg : Z) (m : gmap Z Z) : result (gmap Z Z * list (Z * eventq_action)) :=
  m ← upd_cell m 10 (λ v, v + 1);
  Ok (m, if bool_decide (m !! 10 = Some 1) then [(now, EventSetFlag 11 1)] else []).

Lemma requeued_event_lost :
  ('(_, q) ← eventq_queue_callback 5 0 0 started;
   q ← eventq_service_events (run_callback requeue) 5 5 q;
   Ok (eventq_pending q, cells q !! 11)) = Ok (None, Some 0).
Proof. vm_compute. reflexivity. Qed.

(** ** Witnesses *)

Lemma started_abs : eq_abs started [].
Proof. exists [], []. split; [|done]. split; [done|done|constructor|constructor]. Qed.

Lemma queue_remove_roundtrip_witness : ∃ q1 q2,
  queue_event 5 (EventSetFlag 10 1) started = Ok (1, q1) ∧
  eq_abs q1 [(5, 1, EventSetFlag 10 1)] ∧ eventq_remove 1 q1 = Ok (true, q2) ∧ eq_abs q2 [].
Proof.
  destruct (queue_remove_roundtrip 5 (EventSetFlag 10 1) started [] started_abs)
    as (q1 & Hrun & Hq1 & _ & Hrem); [right; reflexivity|constructor|].
  destruct Hrem as (q2 & Hrem & Hq2 & _); [constructor|].
  exists q1, q2. exact (conj Hrun (conj Hq1 (conj Hrem Hq2))).
Defined.

(** Three events: a sum, a callback that asks for a flag later, and a later flag. *)
Definition three : list event :=
  [(2, 3, EventAddOp 10 7); (3, 2, EventCallback 0 4); (9, 1, EventSetFlag 11 5)].
Definition three_queued : eventq :=
  mkEventq 0 0 (Some 2%nat) None 4
    [mkDesc None 9 1 (EventSetFlag 11 5); mkDesc (Some 0%nat) 3 2 (EventCallback 0 4);
     mkDesc (Some 1%nat) 2 3 (EventAddOp 10 7)] {[10 := 0; 11 := 0]}.

Lemma three_abs : eq_abs three_queued three.
Proof.
  exists [2; 1; 0]%nat, []. split; [|done]. split; [done|done| |].
  - apply (bool_decide_unpack _). by vm_compute.
  - repeat constructor; simpl; lia.
Qed.

(** Asks for a flag one cycle later. *)
Definition ask (fn now arg : Z) (m : gmap Z Z) : result (gmap Z Z * list (Z * eventq_action)) :=
  Ok (m, [(now + 1, EventSetFlag 11 arg)]).

Lemma service_events_refines_witness : ∃ q',
  eventq_service_events (run_callback ask) 9 5 three_queued = Ok q' ∧
  eq_abs q' [(6, 4, EventSetFlag 11 4); (9, 1, EventSetFlag 11 5)] ∧
  next_ID q' = 5 ∧ cells q' = {[10 := 7; 11 := 0]}.
Proof.
  apply (service_events_refines ask 9 5 three_queued three); [exact three_abs|by left|].
  vm_compute. reflexivity.
Defined.

Lemma service_events_due_witness : ∃ q',
  eventq_service_events (run_callback (λ _ _ _ m, Ok (m, []))) 2 5 three_queued = Ok q' ∧
  eq_abs q' [(9, 1, EventSetFlag 11 5)] ∧ in_order [(9, 1, EventSetFlag 11 5)] ∧
  cells q' = {[10 := 7; 11 := 0]}.
Proof.
  apply (service_events_due (λ _ _ _ m, Ok (m, [])) 2 5 three_queued three);
    [exact three_abs|by left| | | |].
  - repeat constructor; vm_compute; discriminate.
  - intros ?????? [= _ <-]. reflexivity.
  - vm_compute. reflexivity.
  - vm_compute. lia.
Defined.
