(* ===== verification/Resource.v ===== *)
(** * resource.c: functional unit pools

    Templates are addressed by their instance and their position in it, the
    pointers the table holds.  [res_dump] only prints. *)

From S2P Require Import Prelude Misc.

Definition MAX_RES_CLASSES : nat := 16.
Definition MAX_INSTS_PER_CLASS : nat := 8.

Record res_template := mkTemplate {
  rt_class : Z;
  rt_oplat : Z;
  rt_issuelat : Z;
  rt_master : option nat
}.

Record res_desc := mkRes {
  res_name : string;
  quantity : Z;
  busy : Z;
  templates : list res_template
}.

Record res_pool := mkPool {
  num_resources : Z;
  resources : list res_desc;
  nents : list nat;
  table : list (list (option (nat * nat)))
}.

Definition no_template : res_template := mkTemplate 0 0 0 None.
Definition no_desc : res_desc := mkRes "" 0 0 (replicate MAX_RES_CLASSES no_template).

(** ** Creation *)

(** The instances asked for. *)
Fixpoint count_insts (pool : list res_desc) (ninsts : Z) : result Z :=
  match pool with
  | [] => Ok ninsts
  | d :: pool =>
      if bool_decide (Z.of_nat MAX_INSTS_PER_CLASS < quantity d)
      then Fault (Fatal "too many functional units, increase MAX_INSTS_PER_CLASS")
      else count_insts pool (i32 (ninsts + quantity d))
  end.

(** The templates up to the first without a class get their master. *)
Fixpoint set_masters (index : nat) (x : list res_template) : list res_template :=
  match x with
  | [] => []
  | t :: x =>
      if bool_decide (rt_class t = 0) then t :: x
      else mkTemplate (rt_class t) (rt_oplat t) (rt_issuelat t) (Some index) :: set_masters index x
  end.

Definition instance_of (d : res_desc) (index : nat) : res_desc :=
  mkRes (res_name d) 1 0 (set_masters index (templates d)).

(** [n] instances of a unit. *)
Fixpoint fill_unit (n : nat) (d : res_desc) (insts : list res_desc) (index : nat)
    : result (list res_desc * nat) :=
  match n with
  | O => Ok (insts, index)
  | S n => insts ← vset insts index (instance_of d index); fill_unit n d insts (S index)
  end.

Fixpoint fill_insts (pool : list res_desc) (insts : list res_desc) (index : nat)
    : result (list res_desc * nat) :=
  match pool with
  | [] => Ok (insts, index)
  | d :: pool =>
      '(insts, index) ← fill_unit (Z.to_nat (quantity d)) d insts index;
      fill_insts pool insts index
  end.

(** The classes of one instance are entered in the table. *)
Fixpoint enter_templates (i j : nat) (x : list res_template)
    (t : list nat * list (list (option (nat * nat))))
    : result (list nat * list (list (option (nat * nat)))) :=
  match x with
  | [] => Ok t
  | plate :: x =>
      let c := rt_class plate in
      if bool_decide (c = 0) then Ok t
      else if negb (bool_decide (c < Z.of_nat MAX_RES_CLASSES)) then Fault AssertFail
      else if bool_decide (c < 0) then Fault OutOfBounds
      else
        row ← vget t.2 (Z.to_nat c);
        n ← vget t.1 (Z.to_nat c);
        row ← vset row n (Some (i, j));
        ns ← vset t.1 (Z.to_nat c) (S n);
        tbl ← vset t.2 (Z.to_nat c) row;
        enter_templates i (S j) x (ns, tbl)
  end.

Fixpoint enter_insts (i : nat) (insts : list res_desc)
    (t : list nat * list (list (option (nat * nat))))
    : result (list nat * list (list (option (nat * nat)))) :=
  match insts with
  | [] => Ok t
  | d :: insts => t ← enter_templates i 0 (templates d) t; enter_insts (S i) insts t
  end.

Definition empty_table : list nat * list (list (option (nat * nat))) :=
  (replicate MAX_RES_CLASSES 0%nat,
   replicate MAX_RES_CLASSES (replicate MAX_INSTS_PER_CLASS None)).

(** [res_create_pool]; a negative size does not fit the memory. *)
Definition res_create_pool (pool : list res_desc) : result res_pool :=
  ninsts ← count_insts pool 0;
  if bool_decide (ninsts < 0) then Fault (Fatal "out of virtual memory") else
  '(insts, index) ← fill_insts pool (replicate (Z.to_nat ninsts) no_desc) 0;
  if negb (bool_decide (Z.of_nat index = ninsts)) then Fault AssertFail else
  '(ns, tbl) ← enter_insts 0 insts empty_table;
  Ok (mkPool ninsts insts ns tbl).

(** ** Reservation *)

(** The template a table entry points to. *)
Definition template_at (res : list res_desc) (p : nat * nat) : result res_template :=
  d ← vget res p.1; vget (templates d) p.2.

Definition master_busy (res : list res_desc) (p : nat * nat) : result bool :=
  t ← template_at res p;
  m ← deref (rt_master t);
  d ← vget res m;
  Ok (bool_decide (busy d ≠ 0)).

(** The scan of a row up to its first null entry. *)
Fixpoint scan_row (res : list res_desc) (row : list (option (nat * nat)))
    : result (option (nat * nat)) :=
  match row with
  | Some p :: row =>
      b ← master_busy res p;
      if b : bool then scan_row res row else Ok (Some p)
  | _ => Ok None
  end.

Definition res_get (pool : res_pool) (class : Z) : result (option (nat * nat)) :=
  if negb (bool_decide (class < Z.of_nat MAX_RES_CLASSES)) then Fault AssertFail
  else if bool_decide (class < 0) then Fault OutOfBounds
  else
    row ← vget (table pool) (Z.to_nat class);
    first ← vget row 0;
    match first with
    | None => Fault AssertFail
    | Some _ => scan_row (resources pool) row
    end.

(** ** The pool of sim-outorder *)

(** [enum md_fu_class] *)
Inductive md_fu_class :=
  | FUClass_NA | IntALU | IntMULT | IntDIV | FloatADD | FloatCMP | FloatCVT | FloatMULT
  | FloatDIV | FloatSQRT | RdPort | WrPort.

Definition fu_class_enum (c : md_fu_class) : Z :=
  match c with
  | FUClass_NA => 0 | IntALU => 1 | IntMULT => 2 | IntDIV => 3 | FloatADD => 4
  | FloatCMP => 5 | FloatCVT => 6 | FloatMULT => 7 | FloatDIV => 8 | FloatSQRT => 9
  | RdPort => 10 | WrPort => 11
  end.

(** A unit; the templates left out of an initialiser are zero. *)
Definition unit_config (name : string) (n : Z) (x : list (md_fu_class * Z * Z)) : res_desc :=
  mkRes name n 0
    (((λ '(c, oplat, issuelat), mkTemplate (fu_class_enum c) oplat issuelat None) <$> x)
     ++ replicate (MAX_RES_CLASSES - length x) no_template).

Definition fu_config : list res_desc := [
  unit_config "integer-ALU" 4 [(IntALU, 1, 1)];
  unit_config "integer-MULT/DIV" 1 [(IntMULT, 3, 1); (IntDIV, 20, 19)];
  unit_config "memory-port" 2 [(RdPort, 1, 1); (WrPort, 1, 1)];
  unit_config "FP-adder" 4 [(FloatADD, 2, 1); (FloatCMP, 2, 1); (FloatCVT, 2, 1)];
  unit_config "FP-MULT/DIV" 1 [(FloatMULT, 4, 1); (FloatDIV, 12, 12); (FloatSQRT, 24, 24)]
].
