(* ===== verification/ResourceSpec.v ===== *)
(** * Functional unit pools: what the table holds

    The creation of a pool, and the search for a free unit, in terms of the units of
    the configuration, with the properties of both. *)

From S2P Require Import Prelude Misc Resource.

(** ** What a pool offers *)

(** The templates of a unit up to its first without a class. *)
Fixpoint active (x : list res_template) : list res_template :=
  match x with
  | [] => []
  | t :: x => if bool_decide (rt_class t = 0) then [] else t :: active x
  end.

(** The units, once per instance. *)
Definition expand (pool : list res_desc) : list res_desc :=
  pool ≫= λ d, replicate (Z.to_nat (quantity d)) d.

(** The templates of class [c] of a unit, and of all units, in order. *)
Fixpoint unit_entries (c : Z) (i j : nat) (x : list res_template) : list (nat * nat) :=
  match x with
  | [] => []
  | t :: x => (if bool_decide (rt_class t = c) then [(i, j)] else []) ++ unit_entries c i (S j) x
  end.

Fixpoint entries (c : Z) (i : nat) (ds : list res_desc) : list (nat * nat) :=
  match ds with
  | [] => []
  | d :: ds => unit_entries c i 0 (active (templates d)) ++ entries c (S i) ds
  end.

Record config_ok (pool : list res_desc) : Prop := {
  cfg_quantity d : d ∈ pool → 0 ≤ quantity d ≤ Z.of_nat MAX_INSTS_PER_CLASS;
  cfg_class d t : d ∈ pool → t ∈ active (templates d) → 0 < rt_class t < Z.of_nat MAX_RES_CLASSES;
  cfg_insts c : (length (entries c 0 (expand pool)) ≤ MAX_INSTS_PER_CLASS)%nat;
  cfg_total : Z.of_nat (length (expand pool)) < 2 ^ 31
}.

(** The same pool with other busy counts. *)
Definition set_busy (bs : list Z) (p : res_pool) : res_pool :=
  mkPool (num_resources p)
    (zip_with (λ d b, mkRes (res_name d) (quantity d) b (templates d)) (resources p) bs)
    (nents p) (table p).

(** ** The table *)

Definition row (es : list (nat * nat)) : list (option (nat * nat)) :=
  (Some <$> es) ++ replicate (MAX_INSTS_PER_CLASS - length es) None.

Definition lists (t : list nat * list (list (option (nat * nat)))) (E : Z → list (nat * nat)) : Prop :=
  ∀ c, 0 ≤ c < Z.of_nat MAX_RES_CLASSES →
    t.1 !! Z.to_nat c = Some (length (E c)) ∧ t.2 !! Z.to_nat c = Some (row (E c)).

Lemma row_snoc es e :
  (length es < MAX_INSTS_PER_CLASS)%nat →
  vset (row es) (length es) (Some e) = Ok (row (es ++ [e])).
Proof.
  intros Hl. unfold row. apply vset_Ok. rewrite length_app, fmap_app, <- app_assoc.
  destruct (MAX_INSTS_PER_CLASS - length es)%nat as [|k] eqn:Hk; [lia|].
  replace (MAX_INSTS_PER_CLASS - (length es + length [e]))%nat with k by (simpl; lia). cbn.
  assert (length (Some <$> es) = length es) as Hlen by apply length_fmap. split.
  - rewrite lookup_app_r, Hlen, Nat.sub_diag by lia. by eexists.
  - rewrite insert_app_r_alt by lia. by rewrite Hlen, Nat.sub_diag.
Qed.

Lemma enter_templates_spec i x : ∀ j t E,
  lists t E → (∀ t, t ∈ active x → 0 < rt_class t < Z.of_nat MAX_RES_CLASSES) →
  (∀ c, length (E c ++ unit_entries c i j (active x)) ≤ MAX_INSTS_PER_CLASS)%nat →
  ∃ t', enter_templates i j x t = Ok t' ∧ lists t' (λ c, E c ++ unit_entries c i j (active x)).
Proof.
  induction x as [|p x IH]; intros j t E Ht Hc Hl; cbn [enter_templates active].
  - exists t. split; [done|]. intros c. cbn. rewrite app_nil_r. apply Ht.
  - cbn [active] in Hc, Hl. case_bool_decide as H0; cbn zeta.
    { exists t. split; [done|]. intros c. cbn. rewrite app_nil_r. apply Ht. }
    assert (0 < rt_class p < Z.of_nat MAX_RES_CLASSES) as Hcl by (apply Hc; set_solver).
    rewrite (bool_decide_true (rt_class p < _)) by lia. cbn [negb].
    rewrite bool_decide_false by lia.
    destruct (Ht (rt_class p)) as [Hn Hr]; [lia|].
    rewrite (proj2 (vget_Ok _ _ _) Hr), (proj2 (vget_Ok _ _ _) Hn). cbn [mbind result_bind].
    assert (length (E (rt_class p)) < MAX_INSTS_PER_CLASS)%nat as Hlt.
    { specialize (Hl (rt_class p)). cbn [unit_entries] in Hl.
      rewrite bool_decide_true, !length_app in Hl by done. simpl in Hl. lia. }
    rewrite row_snoc by done. cbn [mbind result_bind]. unfold vset at 1 2. rewrite Hn, Hr.
    cbn [mbind result_bind].
    set (t' := (_, _)). set (E' := λ c, E c ++ if bool_decide (rt_class p = c) then [(i, j)] else []).
    destruct (IH (S j) t' E') as (t2 & Hrun & Ht2).
    + intros c Hcc. subst t' E'. cbn [fst snd]. cbv beta. case_bool_decide as Heq; [subst c|].
      * rewrite !list_lookup_insert_eq by (eapply lookup_lt_Some; eassumption).
        split; [f_equal; rewrite length_app; simpl; lia|done].
      * rewrite !list_lookup_insert_ne by lia. rewrite app_nil_r. by apply Ht.
    + intros t0 Ht0. apply Hc. set_solver.
    + intros c. specialize (Hl c). cbn [unit_entries] in Hl. subst E'. cbn. by rewrite <- app_assoc.
    + exists t2. split; [done|]. intros c Hcc. destruct (Ht2 c Hcc) as [H1 H2]. subst E'.
      cbn [unit_entries]. cbv beta in H1, H2. rewrite <- app_assoc in H1, H2. done.
Qed.

Lemma active_set_masters i x :
  active (set_masters i x) = (λ t, mkTemplate (rt_class t) (rt_oplat t) (rt_issuelat t) (Some i)) <$> active x.
Proof.
  induction x as [|t x IH]; cbn; [done|].
  case_bool_decide; cbn; [by rewrite bool_decide_true|by rewrite bool_decide_false, IH].
Qed.

Lemma unit_entries_fmap c i f x : ∀ j,
  (∀ t, rt_class (f t) = rt_class t) → unit_entries c i j (f <$> x) = unit_entries c i j x.
Proof. induction x as [|t x IH]; intros j Hf; cbn; [done|]. by rewrite Hf, IH. Qed.

Lemma enter_insts_spec ds : ∀ i t E,
  lists t E →
  (∀ d p, d ∈ ds → p ∈ active (templates d) → 0 < rt_class p < Z.of_nat MAX_RES_CLASSES) →
  (∀ c, length (E c ++ entries c i ds) ≤ MAX_INSTS_PER_CLASS)%nat →
  ∃ t', enter_insts i (imap (λ k d, instance_of d (i + k)) ds) t = Ok t' ∧
    lists t' (λ c, E c ++ entries c i ds).
Proof.
  induction ds as [|d ds IH]; intros i t E Ht Hc Hl; cbn.
  - exists t. split; [done|]. intros c. rewrite app_nil_r. apply Ht.
  - rewrite Nat.add_0_r.
    destruct (enter_templates_spec i (set_masters i (templates d)) 0 t E Ht) as (t1 & -> & Ht1).
    { rewrite active_set_masters. intros p (p0 & -> & Hp)%list_elem_of_fmap. cbn.
      apply (Hc d); [set_solver|done]. }
    { intros c. rewrite active_set_masters, unit_entries_fmap by done. specialize (Hl c).
      cbn in Hl. rewrite !length_app in *. lia. }
    cbn. destruct (IH (S i) t1 _ Ht1) as (t2 & Hrun & Ht2).
    + intros d' p Hd'. apply Hc. set_solver.
    + intros c. rewrite active_set_masters, unit_entries_fmap by done. specialize (Hl c).
      cbn in Hl. by rewrite <- app_assoc.
    + exists t2. split.
      * rewrite <- Hrun. f_equal. apply imap_ext. intros k d' _. cbn. f_equal. lia.
      * intros c Hcc. destruct (Ht2 c Hcc) as [H1 H2].
        cbv beta in H1, H2.
        rewrite active_set_masters, unit_entries_fmap, <- app_assoc in H1, H2 by done. done.
Qed.

(** ** The instances *)

Definition instances (i : nat) (ds : list res_desc) : list res_desc :=
  imap (λ k d, instance_of d (i + k)) ds.

Lemma instances_app i ds1 ds2 :
  instances i (ds1 ++ ds2) = instances i ds1 ++ instances (i + length ds1) ds2.
Proof.
  unfold instances. rewrite imap_app. f_equal. apply imap_ext. intros k d _. cbn. f_equal. lia.
Qed.

Lemma length_instances i ds : length (instances i ds) = length ds.
Proof. apply length_imap. Qed.

Lemma expand_cons d pool : expand (d :: pool) = replicate (Z.to_nat (quantity d)) d ++ expand pool.
Proof. done. Qed.

Lemma count_insts_spec pool : ∀ n,
  (∀ d, d ∈ pool → 0 ≤ quantity d ≤ Z.of_nat MAX_INSTS_PER_CLASS) →
  0 ≤ n → n + Z.of_nat (length (expand pool)) < 2 ^ 31 →
  count_insts pool n = Ok (n + Z.of_nat (length (expand pool))).
Proof.
  induction pool as [|d pool IH]; intros n Hq Hn Hl; cbn [count_insts].
  - cbn. f_equal. lia.
  - rewrite expand_cons, length_app, length_replicate in *.
    assert (0 ≤ quantity d ≤ Z.of_nat MAX_INSTS_PER_CLASS) as Hd by (apply Hq; set_solver).
    rewrite bool_decide_false by lia. rewrite i32_small by lia.
    rewrite IH; [f_equal; lia|set_solver|lia|lia].
Qed.

Lemma fill_unit_spec d n : ∀ pre rest,
  (n ≤ length rest)%nat →
  fill_unit n d (pre ++ rest) (length pre)
  = Ok (pre ++ instances (length pre) (replicate n d) ++ drop n rest, (length pre + n)%nat).
Proof.
  induction n as [|n IH]; intros pre rest Hn; cbn [fill_unit].
  - by rewrite Nat.add_0_r.
  - destruct rest as [|r rest]; [simpl in Hn; lia|].
    assert (vset (pre ++ r :: rest) (length pre) (instance_of d (length pre))
      = Ok ((pre ++ [instance_of d (length pre)]) ++ rest)) as ->.
    { apply vset_Ok. split; [rewrite lookup_app_r, Nat.sub_diag by lia; by eexists|].
      rewrite insert_app_r_alt, Nat.sub_diag by lia. by rewrite <- app_assoc. }
    cbn [mbind result_bind].
    replace (S (length pre)) with (length (pre ++ [instance_of d (length pre)]))
      by (rewrite length_app; simpl; lia).
    rewrite IH by (simpl in Hn; lia). rewrite length_app. cbn [length]. rewrite <- app_assoc.
    change (replicate (S n) d) with ([d] ++ replicate n d). rewrite instances_app. cbn.
    rewrite Nat.add_0_r. do 2 f_equal. lia.
Qed.

Lemma fill_insts_spec pool : ∀ pre rest,
  length rest = length (expand pool) →
  fill_insts pool (pre ++ rest) (length pre)
  = Ok (pre ++ instances (length pre) (expand pool), (length pre + length (expand pool))%nat).
Proof.
  induction pool as [|d pool IH]; intros pre rest Hl; cbn [fill_insts].
  - destruct rest; [|done]. by rewrite Nat.add_0_r.
  - rewrite expand_cons in *. rewrite length_app, length_replicate in *.
    rewrite fill_unit_spec by lia. cbn [mbind result_bind].
    set (n := Z.to_nat (quantity d)) in *. rewrite app_assoc.
    replace (length pre + n)%nat with (length (pre ++ instances (length pre) (replicate n d)))
      by (by rewrite length_app, length_instances, length_replicate).
    rewrite IH by (rewrite length_drop; lia). rewrite instances_app, length_app.
    rewrite length_instances, length_replicate, <- app_assoc. f_equal. f_equal. lia.
Qed.

Lemma res_create_pool_spec pool :
  config_ok pool →
  ∃ p, res_create_pool pool = Ok p ∧ resources p = instances 0 (expand pool) ∧
    num_resources p = Z.of_nat (length (expand pool)) ∧
    lists (nents p, table p) (λ c, entries c 0 (expand pool)).
Proof.
  intros [Hq Hc Hl Ht]. unfold res_create_pool. rewrite count_insts_spec by (done || lia).
  cbn [mbind result_bind]. rewrite Z.add_0_l, bool_decide_false, Nat2Z.id by lia.
  assert (fill_insts pool (replicate (length (expand pool)) no_desc) 0
    = Ok (instances 0 (expand pool), length (expand pool))) as ->.
  { apply (fill_insts_spec pool []). apply length_replicate. }
  cbn [mbind result_bind]. rewrite bool_decide_true by done. cbn [negb].
  destruct (enter_insts_spec (expand pool) 0 empty_table (λ _, [])) as ([ns tbl] & Hrun & Hlists).
  - intros c Hcc. unfold empty_table. cbn [fst snd length]. unfold row.
    change (Some <$> []) with (@nil (option (nat * nat))). rewrite Nat.sub_0_r. cbn [app].
    rewrite !lookup_replicate_2 by lia. done.
  - intros d p Hd. apply Hc. unfold expand in Hd. apply list_elem_of_bind in Hd as (d' & Hd & Hin).
    by apply elem_of_replicate in Hd as [-> _].
  - intros c. apply Hl.
  - change (enter_insts 0 (instances 0 (expand pool)) empty_table = Ok (ns, tbl)) in Hrun.
    rewrite Hrun. cbn [mbind result_bind].
    eexists. split; [done|]. done.
Qed.

(** ** Reservation *)

Definition free_in (bs : list Z) (p : nat * nat) : bool := bool_decide (bs !! p.1 = Some 0).

Lemma unit_entries_elem c i x : ∀ j p,
  p ∈ unit_entries c i j x → ∃ t, x !! (p.2 - j)%nat = Some t ∧ p.1 = i ∧ (j ≤ p.2)%nat ∧ rt_class t = c.
Proof.
  induction x as [|t x IH]; intros j p; cbn; [set_solver|]. intros [Hp|Hp]%elem_of_app.
  - case_bool_decide; [|set_solver]. apply list_elem_of_singleton in Hp as ->. cbn.
    exists t. rewrite Nat.sub_diag. done.
  - apply IH in Hp as (t' & Ht & -> & Hj & Hc). exists t'.
    replace (p.2 - j)%nat with (S (p.2 - S j)) by lia. split; [done|]. repeat split; [lia|done].
Qed.

Lemma entries_elem c ds : ∀ i p,
  p ∈ entries c i ds → ∃ d t, ds !! (p.1 - i)%nat = Some d ∧ (i ≤ p.1)%nat ∧
    active (templates d) !! p.2 = Some t ∧ rt_class t = c.
Proof.
  induction ds as [|d ds IH]; intros i p; cbn; [set_solver|]. intros [Hp|Hp]%elem_of_app.
  - apply unit_entries_elem in Hp as (t & Ht & Hi & _ & Hc). exists d, t. rewrite Hi, Nat.sub_diag.
    rewrite Nat.sub_0_r in Ht. done.
  - apply IH in Hp as (d' & t & Hd & Hi & Ht & Hc). exists d', t.
    replace (p.1 - i)%nat with (S (p.1 - S i)) by lia. repeat split; [done|lia|done|done].
Qed.

Lemma set_masters_active i x j t :
  active x !! j = Some t →
  set_masters i x !! j = Some (mkTemplate (rt_class t) (rt_oplat t) (rt_issuelat t) (Some i)).
Proof.
  revert j. induction x as [|t0 x IH]; intros j; cbn; [done|].
  case_bool_decide; [done|]. destruct j; cbn; [by intros [= ->]|apply IH].
Qed.

(** A table entry leads to a template of its class, whose master is its instance. *)
Lemma template_of_entry ds c p :
  p ∈ entries c 0 ds → ∃ d t, ds !! p.1 = Some d ∧ rt_class t = c ∧ rt_master t = Some p.1 ∧
    templates (instance_of d p.1) !! p.2 = Some t.
Proof.
  intros (d & t & Hd & _ & Ht & Hc)%entries_elem. rewrite Nat.sub_0_r in Hd.
  exists d, (mkTemplate (rt_class t) (rt_oplat t) (rt_issuelat t) (Some p.1)).
  repeat split; [done|done|]. by apply set_masters_active.
Qed.

Definition busied (ds : list res_desc) (bs : list Z) : list res_desc :=
  zip_with (λ d b, mkRes (res_name d) (quantity d) b (templates d)) (instances 0 ds) bs.

Lemma busied_lookup ds bs i d b :
  ds !! i = Some d → bs !! i = Some b →
  busied ds bs !! i = Some (mkRes (res_name d) 1 b (templates (instance_of d i))).
Proof.
  intros Hd Hb. unfold busied, instances. rewrite lookup_zip_with, list_lookup_imap, Hd, Hb. done.
Qed.

Lemma scan_row_spec ds bs c es k :
  (∀ p, p ∈ es → p ∈ entries c 0 ds) → length bs = length ds →
  scan_row (busied ds bs) ((Some <$> es) ++ replicate k None) = Ok (find (free_in bs) es).
Proof.
  intros Hes Hl. induction es as [|p es IH]; [by destruct k|].
  destruct (template_of_entry ds c p) as (d & t & Hd & Hc & Hm & Ht); [apply Hes; set_solver|].
  destruct (lookup_lt_is_Some_2 bs p.1) as [b Hb]; [rewrite Hl; by eapply lookup_lt_Some|].
  pose proof (busied_lookup ds bs p.1 d b Hd Hb) as Hp.
  cbn [fmap list_fmap app scan_row find]. unfold master_busy, template_at.
  rewrite (proj2 (vget_Ok _ _ _) Hp). cbn [mbind result_bind templates].
  rewrite (proj2 (vget_Ok _ _ _) Ht). cbn [mbind result_bind].
  rewrite Hm. cbn [deref mbind result_bind]. rewrite (proj2 (vget_Ok _ _ _) Hp).
  cbn [mbind result_bind busy]. unfold free_in at 1. rewrite Hb.
  destruct (decide (b = 0)) as [->|Hne].
  - by rewrite bool_decide_false, bool_decide_true by congruence.
  - rewrite bool_decide_true by done. rewrite (bool_decide_false (Some b = _)) by congruence.
    apply IH. intros q Hq. apply Hes. set_solver.
Qed.

(** What creation leaves, whatever the busy counts are later. *)
Definition created (pool : list res_desc) (p : res_pool) : Prop :=
  resources p = instances 0 (expand pool) ∧ num_resources p = Z.of_nat (length (expand pool)) ∧
  lists (nents p, table p) (λ c, entries c 0 (expand pool)).

Lemma res_get_spec pool p bs c :
  config_ok pool → created pool p → length bs = length (expand pool) → 0 ≤ c →
  res_get (set_busy bs p) c
  = match entries c 0 (expand pool) with
    | [] => Fault AssertFail
    | es => Ok (find (free_in bs) es)
    end.
Proof.
  intros Hok (Hres & _ & Hl) Hbs Hc. unfold res_get. cbn [table set_busy resources].
  destruct (decide (c < Z.of_nat MAX_RES_CLASSES)) as [Hlt|Hge].
  - rewrite bool_decide_true by done. cbn [negb]. rewrite bool_decide_false by lia.
    destruct (Hl c) as [_ Hr]; [lia|]. cbn [snd] in Hr. rewrite (proj2 (vget_Ok _ _ _) Hr).
    cbn [mbind result_bind]. unfold row. destruct (entries c 0 (expand pool)) as [|e es] eqn:He; [done|].
    cbn [vget fmap list_fmap app lookup list_lookup]. change (vget (Some e :: ?l) 0) with (Ok (Some e)).
    cbn [mbind result_bind]. rewrite Hres. apply (scan_row_spec (expand pool) bs c (e :: es)); [|done].
    intros q Hq. by rewrite He.
  - rewrite bool_decide_false by done. cbn [negb].
    destruct (entries c 0 (expand pool)) as [|e es] eqn:He; [done|].
    destruct (entries_elem c (expand pool) 0 e) as (d & t & Hd & _ & Ht & Htc); [rewrite He; set_solver|].
    apply list_elem_of_lookup_2 in Hd, Ht. unfold expand in Hd.
    apply list_elem_of_bind in Hd as (d' & Hd & Hin). apply elem_of_replicate in Hd as [-> _].
    pose proof (cfg_class _ Hok d' t Hin Ht). lia.
Qed.

(** ** Properties *)

(** C29: [res_create_pool] succeeds on every configuration that fits its tables, with
    one instance per unit asked for; whatever the units' busy counts are later,
    [res_get] returns the first template of the class, by instance and position, whose
    unit is free, nothing when all are busy, and fails its assertion when no unit of
    the pool has the class. *)
Theorem res_get_first_free pool :
  config_ok pool →
  ∃ p, res_create_pool pool = Ok p ∧ num_resources p = Z.of_nat (length (expand pool)) ∧
    length (resources p) = length (expand pool) ∧
    ∀ bs c, length bs = length (expand pool) → 0 ≤ c →
      res_get (set_busy bs p) c
      = match entries c 0 (expand pool) with
        | [] => Fault AssertFail
        | es => Ok (find (free_in bs) es)
        end.
Proof.
  intros Hok. destruct (res_create_pool_spec pool Hok) as (p & Hrun & Hres & Hnum & Hl).
  exists p. split; [done|]. split; [done|]. split; [by rewrite Hres, length_instances|].
  intros bs c Hbs Hc. by apply res_get_spec.
Qed.

(** ** Witnesses *)

Lemma fu_config_ok : config_ok fu_config.
Proof.
  split.
  - intros d Hd. repeat (apply elem_of_cons in Hd as [->|Hd]; [vm_compute; by split|]). by apply elem_of_nil in Hd.
  - intros d t Hd.
    repeat (apply elem_of_cons in Hd as [->|Hd];
      [intros Ht; vm_compute in Ht; repeat (apply elem_of_cons in Ht as [->|Ht]; [vm_compute; by split|]);
       by apply elem_of_nil in Ht|]). by apply elem_of_nil in Hd.
  - intros c. destruct (decide (0 ≤ c < 12)) as [Hc|Hc].
    + assert (Z.to_nat c ∈ seq 0 12) as Hin by (apply elem_of_seq; lia).
      rewrite <- (Z2Nat.id c) by lia. revert Hin. generalize (Z.to_nat c). clear c Hc. intros c Hin.
      repeat (apply elem_of_cons in Hin as [->|Hin]; [vm_compute; lia|]). by apply elem_of_nil in Hin.
    + destruct (entries c 0 (expand fu_config)) as [|e es] eqn:He; [simpl; lia|].
      destruct (entries_elem c (expand fu_config) 0 e) as (d & t & Hd & _ & Ht & Htc); [rewrite He; set_solver|].
      apply list_elem_of_lookup_2 in Hd, Ht. vm_compute in Hd.
      repeat (apply elem_of_cons in Hd as [->|Hd];
        [vm_compute in Ht; repeat (apply elem_of_cons in Ht as [->|Ht]; [simpl in Htc; lia|]);
         by apply elem_of_nil in Ht|]). by apply elem_of_nil in Hd.
  - by vm_compute.
Qed.

(** With the first memory port busy, a load gets the second one. *)
Lemma res_get_first_free_witness : ∃ p, res_create_pool fu_config = Ok p ∧
  res_get (set_busy [0; 0; 0; 0; 0; 1; 0; 0; 0; 0; 0; 0] p) (fu_class_enum RdPort) = Ok (Some (6%nat, 0%nat)).
Proof.
  destruct (res_get_first_free fu_config fu_config_ok) as (p & Hrun & _ & _ & Hget).
  exists p. split; [exact Hrun|]. rewrite Hget; [vm_compute; reflexivity|reflexivity|discriminate].
Defined.
