(* ===== verification/Ruu.v ===== *)
(** * sim-outorder.c: the data of the out-of-order core

    The register update unit and the load/store queue (circular buffers of
    stations), the pool of station links, the event queue and the ready queue
    built from it, and the create vectors.  A pointer to a station is a buffer and a
    position, a pointer to a link a position in the pool.  The opcode table
    (machine.def) and the memory ports are parameters.  Pipetracing and the dump
    routines only print. *)

From S2P Require Import Prelude Misc Bpred Resource.

(** ** Configuration *)

Inductive spec_update := spec_ID | spec_WB | spec_CT.

#[global] Instance spec_update_eq_dec : EqDecision spec_update.
Proof. solve_decision. Defined.

(** The options of the core, after [sim_check_options]. *)
Record config := mkConfig {
  RUU_size : nat;
  LSQ_size : nat;
  ruu_ifq_size : nat;
  ruu_branch_penalty : Z;
  fetch_speed : nat;
  ruu_decode_width : nat;
  ruu_issue_width : nat;
  ruu_commit_width : nat;
  ruu_inorder_issue : bool;
  ruu_include_spec : bool;
  bugcompat_mode : bool;
  pred_perfect : bool;
  bpred_spec_update : spec_update;
  cache_il1_lat : Z;
  compress_icache_addrs : bool;
  max_insts : Z
}.

(** ** Opcodes *)

Definition F_MEM : Z := 32.
Definition F_LOAD : Z := 64.
Definition F_STORE : Z := 128.
Definition F_TRAP : Z := 2048.
Definition F_LONGLAT : Z := 4096.
Definition F_DIRJMP : Z := 8192.

(** [MD_OP_FLAGS(op) & f]. *)
Definition any_flag (op : md_opcode) (f : Z) : bool :=
  negb (bool_decide (Z.land (MD_OP_FLAGS op) f = 0)).
Definition is_store (op : md_opcode) : bool := has_flags op (Z.lor F_MEM F_STORE).
Definition is_load (op : md_opcode) : bool := has_flags op (Z.lor F_MEM F_LOAD).

(** ** Stations *)

Definition MAX_IDEPS : nat := 3.
Definition MAX_ODEPS : nat := 2.
Definition NA : Z := 0.

(** [struct RUU_station *]. *)
Inductive rs_ptr := InRUU (i : nat) | InLSQ (i : nat).

#[global] Instance rs_ptr_eq_dec : EqDecision rs_ptr.
Proof. solve_decision. Defined.

(** The part of a station that dispatch fills in. *)
Record rs_inst := mkInst {
  rs_IR : Z;
  rs_op : md_opcode;
  rs_PC : Z;
  rs_next_PC : Z;
  rs_pred_PC : Z;
  in_LSQ : bool;
  ea_comp : bool;
  stack_recover_idx : Z;
  dir_update : bpred_update_t;
  rs_spec_mode : bool;
  rs_addr : Z;
  rs_seq : Z;
  rs_slip : Z
}.

Record RUU_station := mkStation {
  rs_inst_of : rs_inst;
  recover_inst : bool;
  rs_tag : Z;
  queued : bool;
  issued : bool;
  completed : bool;
  onames : list Z;
  odep_list : list (option nat);
  idep_ready : list bool
}.

Definition OPERANDS_READY (rs : RUU_station) : bool := forallb id (idep_ready rs).

Definition STORE_OP_INDEX : nat := 0.
Definition STORE_ADDR_INDEX : nat := 1.
Definition STORE_ADDR_READY (rs : RUU_station) : result bool :=
  vget (idep_ready rs) STORE_ADDR_INDEX.

(** ** Links *)

(** [x] is the time, the sequence number or the operand, as the list the link is
    in has it. *)
Record RS_link := mkLink {
  l_next : option nat;
  l_rs : option rs_ptr;
  l_tag : Z;
  l_x : Z
}.

Definition MAX_RS_LINKS : nat := 4096.

(** An entry of the create vector: the creator and its output. *)
Definition CV_link : Type := option (rs_ptr * nat).
Definition CVLINK_NULL : CV_link := None.
Definition MD_TOTAL_REGS : nat := 70.

(** ** State *)

Record window := mkWindow {
  RUU : list RUU_station;
  RUU_head : nat;
  RUU_tail : nat;
  RUU_num : nat;
  LSQ : list RUU_station;
  LSQ_head : nat;
  LSQ_tail : nat;
  LSQ_num : nat
}.

Record queues := mkQueues {
  links : list RS_link;
  rslink_free_list : option nat;
  event_queue : option nat;
  ready_queue : option nat
}.

Record create_vectors := mkCV {
  use_spec_cv : list bool;
  create_vector : list CV_link;
  spec_create_vector : list CV_link;
  create_vector_rt : list Z;
  spec_create_vector_rt : list Z
}.

(** The rest of what the back end touches; [MS] is the state of the memory ports and of
    the instructions' semantics. *)
Record machine {MS : Type} := mkMachine {
  sim_cycle : Z;
  spec_mode : bool;
  fu_pool : res_pool;
  pred : option bpred_t;
  ports : MS;
  ruu_fetch_issue_delay : Z;
  sim_slip : Z;
  sim_invalid_addrs : Z
}.
Arguments machine : clear implicits.

(** An entry of the fetch queue. *)
Record fetch_rec := mkFetch {
  f_IR : Z;
  f_regs_PC : Z;
  f_pred_PC : Z;
  f_dir_update : bpred_update_t;
  f_stack_recover_idx : Z
}.

(** The counters of instructions, references and occupancies. *)
Inductive sim_counter :=
  | sim_num_insn | sim_total_insn | sim_num_refs | sim_total_refs | sim_num_loads
  | sim_total_loads | sim_num_branches | sim_total_branches
  | IFQ_count | IFQ_fcount | RUU_count | RUU_fcount | LSQ_count | LSQ_fcount.

#[global] Instance sim_counter_eq_dec : EqDecision sim_counter.
Proof. solve_decision. Defined.

(** The front end: the fetch queue, the program counters, the sequence counter, the
    last operation dispatched. *)
Record front_end := mkFront {
  fetch_data : list fetch_rec;
  fetch_head : nat;
  fetch_tail : nat;
  fetch_num : nat;
  fetch_regs_PC : Z;
  fetch_pred_PC : Z;
  pred_PC : Z;
  recover_PC : Z;
  regs_PC : Z;
  inst_seq : Z;
  last_op : option (rs_ptr * Z);
  counters : sim_counter → Z
}.

Record core {MS : Type} := mkCore {
  win : window;
  qs : queues;
  cvs : create_vectors;
  mach : machine MS;
  front : front_end
}.
Arguments core : clear implicits.

Section Core.
Context {MS : Type}.
Implicit Types c : core MS.

Definition set_win (w : window) c : core MS := mkCore MS w (qs c) (cvs c) (mach c) (front c).
Definition set_qs (q : queues) c : core MS := mkCore MS (win c) q (cvs c) (mach c) (front c).
Definition set_cvs (v : create_vectors) c : core MS := mkCore MS (win c) (qs c) v (mach c) (front c).
Definition set_mach (m : machine MS) c : core MS := mkCore MS (win c) (qs c) (cvs c) m (front c).
Definition set_front (f : front_end) c : core MS := mkCore MS (win c) (qs c) (cvs c) (mach c) f.

Definition set_cycle (z : Z) (m : machine MS) : machine MS :=
  mkMachine MS z (spec_mode m) (fu_pool m) (pred m) (ports m) (ruu_fetch_issue_delay m)
    (sim_slip m) (sim_invalid_addrs m).
Definition set_spec (b : bool) (m : machine MS) : machine MS :=
  mkMachine MS (sim_cycle m) b (fu_pool m) (pred m) (ports m) (ruu_fetch_issue_delay m)
    (sim_slip m) (sim_invalid_addrs m).
Definition set_fu (p : res_pool) (m : machine MS) : machine MS :=
  mkMachine MS (sim_cycle m) (spec_mode m) p (pred m) (ports m) (ruu_fetch_issue_delay m)
    (sim_slip m) (sim_invalid_addrs m).
Definition set_pred (p : option bpred_t) (m : machine MS) : machine MS :=
  mkMachine MS (sim_cycle m) (spec_mode m) (fu_pool m) p (ports m) (ruu_fetch_issue_delay m)
    (sim_slip m) (sim_invalid_addrs m).
Definition set_ports (s : MS) (m : machine MS) : machine MS :=
  mkMachine MS (sim_cycle m) (spec_mode m) (fu_pool m) (pred m) s (ruu_fetch_issue_delay m)
    (sim_slip m) (sim_invalid_addrs m).
Definition set_delay (z : Z) (m : machine MS) : machine MS :=
  mkMachine MS (sim_cycle m) (spec_mode m) (fu_pool m) (pred m) (ports m) z
    (sim_slip m) (sim_invalid_addrs m).
Definition add_slip (z : Z) (m : machine MS) : machine MS :=
  mkMachine MS (sim_cycle m) (spec_mode m) (fu_pool m) (pred m) (ports m)
    (ruu_fetch_issue_delay m) (i64 (sim_slip m + z)) (sim_invalid_addrs m).
Definition count_invalid_addr (m : machine MS) : machine MS :=
  mkMachine MS (sim_cycle m) (spec_mode m) (fu_pool m) (pred m) (ports m)
    (ruu_fetch_issue_delay m) (sim_slip m) (i64 (sim_invalid_addrs m + 1)).

(** ** Access to stations *)

Definition get_rs (w : window) (p : rs_ptr) : result RUU_station :=
  match p with InRUU i => vget (RUU w) i | InLSQ i => vget (LSQ w) i end.

Definition set_RUU (l : list RUU_station) (w : window) : window :=
  mkWindow l (RUU_head w) (RUU_tail w) (RUU_num w) (LSQ w) (LSQ_head w) (LSQ_tail w) (LSQ_num w).
Definition set_LSQ (l : list RUU_station) (w : window) : window :=
  mkWindow (RUU w) (RUU_head w) (RUU_tail w) (RUU_num w) l (LSQ_head w) (LSQ_tail w) (LSQ_num w).

(** [*p = f( *p)]. *)
Definition upd_rs (w : window) (p : rs_ptr) (f : RUU_station → RUU_station) : result window :=
  match p with
  | InRUU i => l ← vupd (RUU w) i f; Ok (set_RUU l w)
  | InLSQ i => l ← vupd (LSQ w) i f; Ok (set_LSQ l w)
  end.

Definition upd_station c (p : rs_ptr) (f : RUU_station → RUU_station) : result (core MS) :=
  w ← upd_rs (win c) p f; Ok (set_win w c).
End Core.

Definition set_recover (b : bool) (rs : RUU_station) : RUU_station :=
  mkStation (rs_inst_of rs) b (rs_tag rs) (queued rs) (issued rs) (completed rs) (onames rs)
    (odep_list rs) (idep_ready rs).
(** [tag++]. *)
Definition squash_tag (rs : RUU_station) : RUU_station :=
  mkStation (rs_inst_of rs) (recover_inst rs) (u32 (rs_tag rs + 1)) (queued rs) (issued rs)
    (completed rs) (onames rs) (odep_list rs) (idep_ready rs).
Definition set_queued (b : bool) (rs : RUU_station) : RUU_station :=
  mkStation (rs_inst_of rs) (recover_inst rs) (rs_tag rs) b (issued rs) (completed rs) (onames rs)
    (odep_list rs) (idep_ready rs).
Definition set_issued (rs : RUU_station) : RUU_station :=
  mkStation (rs_inst_of rs) (recover_inst rs) (rs_tag rs) (queued rs) true (completed rs) (onames rs)
    (odep_list rs) (idep_ready rs).
Definition set_completed (rs : RUU_station) : RUU_station :=
  mkStation (rs_inst_of rs) (recover_inst rs) (rs_tag rs) (queued rs) (issued rs) true (onames rs)
    (odep_list rs) (idep_ready rs).
Definition set_oname (k : nat) (n : Z) (rs : RUU_station) : RUU_station :=
  mkStation (rs_inst_of rs) (recover_inst rs) (rs_tag rs) (queued rs) (issued rs) (completed rs)
    (<[k := n]> (onames rs)) (odep_list rs) (idep_ready rs).
Definition set_odep (k : nat) (o : option nat) (rs : RUU_station) : RUU_station :=
  mkStation (rs_inst_of rs) (recover_inst rs) (rs_tag rs) (queued rs) (issued rs) (completed rs)
    (onames rs) (<[k := o]> (odep_list rs)) (idep_ready rs).
Definition set_idep (k : nat) (b : bool) (rs : RUU_station) : RUU_station :=
  mkStation (rs_inst_of rs) (recover_inst rs) (rs_tag rs) (queued rs) (issued rs) (completed rs)
    (onames rs) (odep_list rs) (<[k := b]> (idep_ready rs)).

(** A zeroed station. *)
Definition no_op : md_opcode := mkOp 0 0 false.
Definition no_update : bpred_update_t := mkUpd None None None false false false false.
Definition empty_station : RUU_station :=
  mkStation (mkInst 0 no_op 0 0 0 false false 0 no_update false 0 0 0) false 0 false false false
    (replicate MAX_ODEPS NA) (replicate MAX_ODEPS None) (replicate MAX_IDEPS false).

(** ** Links *)

Definition set_links (l : list RS_link) (q : queues) : queues :=
  mkQueues l (rslink_free_list q) (event_queue q) (ready_queue q).
Definition set_free_list (o : option nat) (q : queues) : queues :=
  mkQueues (links q) o (event_queue q) (ready_queue q).
Definition set_event_queue (o : option nat) (q : queues) : queues :=
  mkQueues (links q) (rslink_free_list q) o (ready_queue q).
Definition set_ready_queue (o : option nat) (q : queues) : queues :=
  mkQueues (links q) (rslink_free_list q) (event_queue q) o.
Definition link_next (o : option nat) (k : RS_link) : RS_link :=
  mkLink o (l_rs k) (l_tag k) (l_x k).

(** [p->next = o]. *)
Definition set_link_next (q : queues) (p : nat) (o : option nat) : result queues :=
  l ← vupd (links q) p (link_next o); Ok (set_links l q).

(** [RSLINK_NEW], then the member [x]; [tag] is the tag of the station. *)
Definition RSLINK_NEW (q : queues) (rs : rs_ptr) (tag x : Z) : result (nat * queues) :=
  match rslink_free_list q with
  | None => Fault (Panic "out of rs links")
  | Some n =>
      k ← vget (links q) n;
      l ← vset (links q) n (mkLink None (Some rs) tag x);
      Ok (n, set_free_list (l_next k) (set_links l q))
  end.

Definition RSLINK_FREE (q : queues) (n : nat) : result queues :=
  k ← vget (links q) n;
  l ← vset (links q) n (mkLink (rslink_free_list q) None 0 (l_x k));
  Ok (set_free_list (Some n) (set_links l q)).

(** The list ends after as many links as there are. *)
Fixpoint free_links (fuel : nat) (q : queues) (o : option nat) : result queues :=
  match o with
  | None => Ok q
  | Some n =>
      match fuel with
      | O => Fault OutOfFuel
      | S fuel =>
          k ← vget (links q) n;
          q ← RSLINK_FREE q n;
          free_links fuel q (l_next k)
      end
  end.

Definition RSLINK_FREE_LIST (q : queues) (o : option nat) : result queues :=
  free_links (length (links q)) q o.

(** [RSLINK_VALID]: the instance is still in its station. *)
Definition RSLINK_VALID (w : window) (k : RS_link) : result bool :=
  p ← deref (l_rs k); rs ← get_rs w p; Ok (bool_decide (l_tag k = rs_tag rs)).

(** [rslink_init]: [n] zeroed links; each is put in front of the free list. *)
Definition rslink_init (n : nat) : queues :=
  mkQueues
    ((λ i, mkLink (match i with O => None | S j => Some j end) None 0 0) <$> seq 0 n)
    (match n with O => None | S j => Some j end) None None.

(** The insertion point of a list in order of [x]: the last link before [x]. *)
Fixpoint link_point (fuel : nat) (l : list RS_link) (x : Z) (prev node : option nat)
    : result (option nat) :=
  match node with
  | None => Ok prev
  | Some n =>
      k ← vget l n;
      if bool_decide (l_x k < x) then
        match fuel with
        | O => Fault OutOfFuel
        | S fuel => link_point fuel l x (Some n) (l_next k)
        end
      else Ok prev
  end.

(** ** The event queue *)

Section Queues.
Context {MS : Type}.
Implicit Types c : core MS.

Definition eventq_queue_event c (p : rs_ptr) (when : Z) : result (core MS) :=
  rs ← get_rs (win c) p;
  if completed rs then Fault (Panic "event completed") else
  if bool_decide (when ≤ sim_cycle (mach c)) then Fault (Panic "event occurred in the past") else
  '(n, q) ← RSLINK_NEW (qs c) p (rs_tag rs) when;
  prev ← link_point (length (links q)) (links q) when None (event_queue q);
  match prev with
  | Some e =>
      k ← vget (links q) e;
      q ← set_link_next q n (l_next k);
      q ← set_link_next q e (Some n);
      Ok (set_qs q c)
  | None =>
      q ← set_link_next q n (event_queue q);
      Ok (set_qs (set_event_queue (Some n) q) c)
  end.

(** The recursion drops squashed events. *)
Fixpoint eventq_next_loop (fuel : nat) c : result (option rs_ptr * core MS) :=
  match event_queue (qs c) with
  | None => Ok (None, c)
  | Some e =>
      k ← vget (links (qs c)) e;
      if bool_decide (l_x k ≤ sim_cycle (mach c)) then
        valid ← RSLINK_VALID (win c) k;
        q ← RSLINK_FREE (set_event_queue (l_next k) (qs c)) e;
        if valid : bool then Ok (l_rs k, set_qs q c)
        else match fuel with
             | O => Fault OutOfFuel
             | S fuel => eventq_next_loop fuel (set_qs q c)
             end
      else Ok (None, c)
  end.

Definition eventq_next_event c : result (option rs_ptr * core MS) :=
  eventq_next_loop (length (links (qs c))) c.

(** ** The ready queue *)

Definition readyq_enqueue c (p : rs_ptr) : result (core MS) :=
  rs ← get_rs (win c) p;
  if queued rs then Fault (Panic "node is already queued") else
  c ← upd_station c p (set_queued true);
  '(n, q) ← RSLINK_NEW (qs c) p (rs_tag rs) (rs_seq (rs_inst_of rs));
  prev ← (if in_LSQ (rs_inst_of rs) || any_flag (rs_op (rs_inst_of rs)) (Z.lor F_LONGLAT F_CTRL)
          then Ok None
          else link_point (length (links q)) (links q) (rs_seq (rs_inst_of rs)) None (ready_queue q));
  match prev with
  | Some e =>
      k ← vget (links q) e;
      q ← set_link_next q n (l_next k);
      q ← set_link_next q e (Some n);
      Ok (set_qs q c)
  | None =>
      q ← set_link_next q n (ready_queue q);
      Ok (set_qs (set_ready_queue (Some n) q) c)
  end.
End Queues.

(** ** Create vectors *)

(** [CREATE_VECTOR]. *)
Definition CREATE_VECTOR (v : create_vectors) (n : nat) : result CV_link :=
  b ← vget (use_spec_cv v) n;
  if b : bool then vget (spec_create_vector v) n else vget (create_vector v) n.

(** [SET_CREATE_VECTOR]. *)
Definition SET_CREATE_VECTOR (spec : bool) (v : create_vectors) (n : nat) (l : CV_link)
    : result create_vectors :=
  if spec then
    u ← vset (use_spec_cv v) n true;
    s ← vset (spec_create_vector v) n l;
    Ok (mkCV u (create_vector v) s (create_vector_rt v) (spec_create_vector_rt v))
  else
    a ← vset (create_vector v) n l;
    Ok (mkCV (use_spec_cv v) a (spec_create_vector v) (create_vector_rt v)
          (spec_create_vector_rt v)).

Definition cv_init : create_vectors :=
  mkCV (replicate MD_TOTAL_REGS false) (replicate MD_TOTAL_REGS CVLINK_NULL)
    (replicate MD_TOTAL_REGS CVLINK_NULL) (replicate MD_TOTAL_REGS 0) (replicate MD_TOTAL_REGS 0).

(** [BITMAP_CLEAR_MAP(use_spec_cv)]. *)
Definition clear_spec_cv (v : create_vectors) : create_vectors :=
  mkCV (replicate MD_TOTAL_REGS false) (create_vector v) (spec_create_vector v)
    (create_vector_rt v) (spec_create_vector_rt v).

(** [ruu_init] and [lsq_init]. *)
Definition window_init (cf : config) : window :=
  mkWindow (replicate (RUU_size cf) empty_station) 0 0 0
    (replicate (LSQ_size cf) empty_station) 0 0 0.
