(* ===== verification/RuuStages.v ===== *)
(** * sim-outorder.c: the stages of the back end

    Commit, recovery, write-back, the refresh of the load/store queue, and issue.
    What the stages use of other components is the class [Environment]: the caches
    and TLBs, the instructions' semantics and the opcode tables (machine.def), the
    recovery of the trace generator's registers and memory, the loaded program. *)

From S2P Require Import Prelude Misc Memory Bpred Resource Ruu.

(** What executing an instruction yields: the opcode (a bogus one becomes a NOP), the
    registers it writes and reads, the next and the target PC, the address of a memory
    access, and the fault. *)
Record exec_out := mkExec {
  x_op : md_opcode;
  x_out1 : Z;
  x_out2 : Z;
  x_in1 : Z;
  x_in2 : Z;
  x_in3 : Z;
  x_NPC : Z;
  x_target_PC : Z;
  x_addr : Z;
  x_fault : md_fault_type
}.

(** Accesses take command, address, size and time, and return a latency, nothing when
    there is no such cache. *)
Class Environment (MS : Type) := {
  dl1_access : mem_cmd → Z → Z → Z → MS → result (option Z * MS);
  dtlb_access : mem_cmd → Z → Z → Z → MS → result (option Z * MS);
  il1_access : mem_cmd → Z → Z → Z → MS → result (option Z * MS);
  itlb_access : mem_cmd → Z → Z → Z → MS → result (option Z * MS);
  (** tracer_recover's part of the registers and of the memory *)
  reset_spec_state : MS → result MS;
  (** machine.def: speculation mode, opcode, instruction, PC *)
  md_exec : bool → md_opcode → Z → Z → MS → result (exec_out * MS);
  MD_FETCH_INST : Z → MS → Z;
  MD_SET_OPCODE : Z → md_opcode;
  MD_OP_FUCLASS : md_opcode → Z;
  MD_IS_RETURN : md_opcode → Z → bool;
  MD_NOP_OP : md_opcode;
  MD_AGEN_OP : md_opcode;
  MD_NOP_INST : Z;
  MD_VALID_ADDR : Z → bool;
  ld_text_base : Z;
  ld_text_size : Z
}.

Section Stages.
Context {MS : Type} `{!Environment MS}.
Variable cf : config.
Implicit Types c : core MS.

(** [addr & ~3]. *)
Definition word_addr (addr : Z) : Z := Z.land addr (u32 (Z.lnot 3)).

(** [(i + 1) % size] and [(i + (size-1)) % size]. *)
Definition next_slot (size i : nat) : nat := (i + 1) mod size.
Definition prev_slot (size i : nat) : nat := (i + (size - 1)) mod size.

(** A lookup of the data cache or of the TLB. *)
Definition access_with (f : mem_cmd → Z → Z → Z → MS → result (option Z * MS)) (cmd : mem_cmd)
    (addr size : Z) c : result (option Z * core MS) :=
  '(lat, s) ← f cmd addr size (sim_cycle (mach c)) (ports (mach c));
  Ok (lat, set_mach (set_ports s (mach c)) c).

(** ** Functional units *)

(** [ruu_release_fu]. *)
Fixpoint release_units (idxs : list nat) (l : list res_desc) : result (list res_desc) :=
  match idxs with
  | [] => Ok l
  | i :: idxs =>
      d ← vget l i;
      l ← (if bool_decide (0 < busy d)
           then vset l i (mkRes (res_name d) (quantity d) (busy d - 1) (templates d))
           else Ok l);
      release_units idxs l
  end.

Definition ruu_release_fu c : result (core MS) :=
  let p := fu_pool (mach c) in
  l ← release_units (seq 0 (Z.to_nat (num_resources p))) (resources p);
  Ok (set_mach (set_fu (mkPool (num_resources p) l (nents p) (table p)) (mach c)) c).

(** A unit is reserved: its operation latency, and the pool. *)
Definition take_unit (pool : res_pool) (p : nat * nat) : result (Z * res_pool) :=
  t ← template_at (resources pool) p;
  m ← deref (rt_master t);
  d ← vget (resources pool) m;
  if bool_decide (busy d ≠ 0) then Fault (Panic "functional unit already in use") else
  l ← vset (resources pool) m (mkRes (res_name d) (quantity d) (rt_issuelat t) (templates d));
  Ok (rt_oplat t, mkPool (num_resources pool) l (nents pool) (table pool)).

(** A unit for an opcode, when one is free. *)
Definition reserve_unit (op : md_opcode) c : result (option (Z * core MS)) :=
  o ← res_get (fu_pool (mach c)) (MD_OP_FUCLASS op);
  match o with
  | None => Ok None
  | Some p =>
      '(lat, pool) ← take_unit (fu_pool (mach c)) p;
      Ok (Some (lat, set_mach (set_fu pool (mach c)) c))
  end.

(** ** Branch prediction *)

(** The update of the predictor by a control instruction in the stage [when]. *)
Definition train_pred (when : spec_update) (rs : RUU_station) c : result (core MS) :=
  let i := rs_inst_of rs in
  match pred (mach c) with
  | Some p =>
      if bool_decide (bpred_spec_update cf = when) && is_ctrl (rs_op i) then
        p ← bpred_update p (rs_PC i) (rs_next_PC i)
              (negb (bool_decide (rs_next_PC i = u32 (rs_PC i + inst_size))))
              (negb (bool_decide (rs_pred_PC i = u32 (rs_PC i + inst_size))))
              (bool_decide (rs_pred_PC i = rs_next_PC i)) (rs_op i) (dir_update i);
        Ok (set_mach (set_pred (Some p) (mach c)) c)
      else Ok c
  | None => Ok c
  end.

(** ** Commit *)

Definition retire_RUU (w : window) : window :=
  mkWindow (RUU w) (next_slot (RUU_size cf) (RUU_head w)) (RUU_tail w) (RUU_num w - 1)
    (LSQ w) (LSQ_head w) (LSQ_tail w) (LSQ_num w).
Definition retire_LSQ (w : window) : window :=
  mkWindow (RUU w) (RUU_head w) (RUU_tail w) (RUU_num w)
    (LSQ w) (next_slot (LSQ_size cf) (LSQ_head w)) (LSQ_tail w) (LSQ_num w - 1).

(** The store at the head goes to the cache and the TLB, if it gets a port. *)
Definition commit_store (ls : RUU_station) c : result (option (core MS)) :=
  o ← reserve_unit (rs_op (rs_inst_of ls)) c;
  match o with
  | None => Ok None
  | Some (_, c) =>
      '(_, c) ← access_with dl1_access Write (word_addr (rs_addr (rs_inst_of ls))) 4 c;
      '(_, c) ← access_with dtlb_access Read (word_addr (rs_addr (rs_inst_of ls))) 4 c;
      Ok (Some c)
  end.

(** The head of the load/store queue retires with its address computation. *)
Definition commit_LSQ c : result (option (core MS)) :=
  if bool_decide (LSQ_num (win c) = 0%nat) then Fault (Panic "RUU out of sync with LSQ") else
  ls ← get_rs (win c) (InLSQ (LSQ_head (win c)));
  if negb (in_LSQ (rs_inst_of ls)) then Fault (Panic "RUU out of sync with LSQ") else
  if negb (completed ls) then Ok None else
  o ← (if is_store (rs_op (rs_inst_of ls)) then commit_store ls c else Ok (Some c));
  match o with
  | None => Ok None
  | Some c =>
      c ← upd_station c (InLSQ (LSQ_head (win c))) squash_tag;
      let c := set_mach (add_slip (sim_cycle (mach c) - rs_slip (rs_inst_of ls)) (mach c)) c in
      Ok (Some (set_win (retire_LSQ (win c)) c))
  end.

(** One iteration of [ruu_commit]; nothing when the loop is left. *)
Definition commit_one c : result (option (core MS)) :=
  let h := InRUU (RUU_head (win c)) in
  rs ← get_rs (win c) h;
  if negb (completed rs) then Ok None else
  o ← (if ea_comp (rs_inst_of rs) then commit_LSQ c else Ok (Some c));
  match o with
  | None => Ok None
  | Some c =>
      c ← train_pred spec_CT rs c;
      c ← upd_station c h squash_tag;
      let c := set_mach (add_slip (sim_cycle (mach c) - rs_slip (rs_inst_of rs)) (mach c)) c in
      let c := set_win (retire_RUU (win c)) c in
      if bool_decide (Exists (λ o, o ≠ None) (odep_list rs))
      then Fault (Panic "retired instruction has odeps")
      else Ok (Some c)
  end.

Fixpoint commit_loop (n : nat) c : result (core MS) :=
  match n with
  | O => Ok c
  | S n =>
      if bool_decide (RUU_num (win c) = 0%nat) then Ok c else
      o ← commit_one c;
      match o with None => Ok c | Some c => commit_loop n c end
  end.

Definition ruu_commit c : result (core MS) := commit_loop (ruu_commit_width cf) c.

(** ** Recovery *)

(** The consumer lists of a squashed station are freed, its tag moves on. *)
Fixpoint free_odeps (ks : list nat) (p : rs_ptr) c : result (core MS) :=
  match ks with
  | [] => Ok c
  | k :: ks =>
      rs ← get_rs (win c) p;
      o ← vget (odep_list rs) k;
      q ← RSLINK_FREE_LIST (qs c) o;
      c ← upd_station (set_qs q c) p (set_odep k None);
      free_odeps ks p c
  end.

Definition squash (p : rs_ptr) c : result (core MS) :=
  c ← free_odeps (seq 0 MAX_ODEPS) p c; upd_station c p squash_tag.

Definition drop_RUU (w : window) : window :=
  mkWindow (RUU w) (RUU_head w) (RUU_tail w) (RUU_num w - 1)
    (LSQ w) (LSQ_head w) (LSQ_tail w) (LSQ_num w).
Definition drop_LSQ (w : window) : window :=
  mkWindow (RUU w) (RUU_head w) (RUU_tail w) (RUU_num w)
    (LSQ w) (LSQ_head w) (LSQ_tail w) (LSQ_num w - 1).
Definition set_tails (r l : nat) (w : window) : window :=
  mkWindow (RUU w) (RUU_head w) r (RUU_num w) (LSQ w) (LSQ_head w) l (LSQ_num w).

(** The walk from the tail to the branch: the indices of the next stations to squash,
    and the tails so far. *)
Fixpoint recover_loop (fuel : nat) (branch ri li rtail ltail : nat) c
    : result (nat * nat * core MS) :=
  if bool_decide (ri = branch) then Ok (rtail, ltail, c) else
  match fuel with
  | O => Fault OutOfFuel
  | S fuel =>
      if bool_decide (RUU_num (win c) = 0%nat) then Fault (Panic "empty RUU") else
      if bool_decide (ri = RUU_head (win c)) then Fault (Panic "RUU head and tail broken") else
      rs ← get_rs (win c) (InRUU ri);
      '(li', ltail', c) ←
        (if ea_comp (rs_inst_of rs) then
           if bool_decide (LSQ_num (win c) = 0%nat) then Fault (Panic "RUU and LSQ out of sync") else
           c ← squash (InLSQ li) c;
           Ok (prev_slot (LSQ_size cf) li, li, set_win (drop_LSQ (win c)) c)
         else Ok (li, ltail, c));
      c ← squash (InRUU ri) c;
      recover_loop fuel branch (prev_slot (RUU_size cf) ri) li' ri ltail'
        (set_win (drop_RUU (win c)) c)
  end.

Definition ruu_recover (branch : nat) c : result (core MS) :=
  '(rtail, ltail, c) ←
    recover_loop (RUU_size cf) branch (prev_slot (RUU_size cf) (RUU_tail (win c)))
      (prev_slot (LSQ_size cf) (LSQ_tail (win c))) (RUU_tail (win c)) (LSQ_tail (win c)) c;
  Ok (set_cvs (clear_spec_cv (cvs c)) (set_win (set_tails rtail ltail (win c)) c)).

(** [tracer_recover]. *)
Definition tracer_recover c : result (core MS) :=
  if negb (spec_mode (mach c)) then Fault (Panic "cannot recover unless in speculative mode") else
  let f := front c in
  s ← reset_spec_state (ports (mach c));
  let c := set_mach (set_spec false (set_ports s (mach c))) c in
  Ok (set_front (mkFront (fetch_data f) 0 0 0 (recover_PC f) (recover_PC f) (pred_PC f)
                   (recover_PC f) (regs_PC f) (inst_seq f) (last_op f) (counters f)) c).

End Stages.
