(* ===== verification/RuuSched.v ===== *)
(** * sim-outorder.c: write-back, the load/store queue, and issue *)

From S2P Require Import Prelude Misc Memory Bpred Resource Ruu RuuStages.

Section Sched.
Context {MS : Type} `{!Environment MS}.
Variable cf : config.
Implicit Types c : core MS.

(** ** Write-back *)

(** The create vector forgets the output [i] of [p], when it is still the creator of
    the register [n]. *)
Definition clear_creator (spec : bool) (now : Z) (p : rs_ptr) (i n : nat) (v : create_vectors)
    : result create_vectors :=
  if spec then
    l ← vget (spec_create_vector v) n;
    if bool_decide (l = Some (p, i)) then
      s ← vset (spec_create_vector v) n CVLINK_NULL;
      t ← vset (spec_create_vector_rt v) n now;
      Ok (mkCV (use_spec_cv v) (create_vector v) s (create_vector_rt v) t)
    else Ok v
  else
    l ← vget (create_vector v) n;
    if bool_decide (l = Some (p, i)) then
      a ← vset (create_vector v) n CVLINK_NULL;
      t ← vset (create_vector_rt v) n now;
      Ok (mkCV (use_spec_cv v) a (spec_create_vector v) t (spec_create_vector_rt v))
    else Ok v.

(** An operand of a consumer is ready; a consumer with all its operands is queued,
    but for loads. *)
Definition wake (p : rs_ptr) (opnum : nat) c : result (core MS) :=
  rs ← get_rs (win c) p;
  b ← vget (idep_ready rs) opnum;
  if b : bool then Fault (Panic "output dependence already satisfied") else
  c ← upd_station c p (set_idep opnum true);
  rs ← get_rs (win c) p;
  if OPERANDS_READY rs &&
     (negb (in_LSQ (rs_inst_of rs)) || is_store (rs_op (rs_inst_of rs)))
  then readyq_enqueue c p else Ok c.

(** The walk of a list of consumers, which frees it. *)
Fixpoint wake_links (fuel : nat) (o : option nat) c : result (core MS) :=
  match o with
  | None => Ok c
  | Some n =>
      match fuel with
      | O => Fault OutOfFuel
      | S fuel =>
          k ← vget (links (qs c)) n;
          valid ← RSLINK_VALID (win c) k;
          c ← (if valid : bool then p ← deref (l_rs k); wake p (Z.to_nat (l_x k)) c else Ok c);
          k ← vget (links (qs c)) n;
          q ← RSLINK_FREE (qs c) n;
          wake_links fuel (l_next k) (set_qs q c)
      end
  end.

(** One output of a completed station is broadcast. *)
Definition broadcast_output (p : rs_ptr) (i : nat) c : result (core MS) :=
  rs ← get_rs (win c) p;
  n ← vget (onames rs) i;
  if bool_decide (n = NA) then Ok c else
  v ← clear_creator (rs_spec_mode (rs_inst_of rs)) (sim_cycle (mach c)) p i (Z.to_nat n) (cvs c);
  o ← vget (odep_list rs) i;
  c ← wake_links (length (links (qs c))) o (set_cvs v c);
  upd_station c p (set_odep i None).

Fixpoint broadcast (is_ : list nat) (p : rs_ptr) c : result (core MS) :=
  match is_ with
  | [] => Ok c
  | i :: is_ => c ← broadcast_output p i c; broadcast is_ p c
  end.

(** A mispredicted branch is resolved. *)
Definition recover_branch (p : rs_ptr) (rs : RUU_station) c : result (core MS) :=
  match p with
  | InLSQ _ => Fault (Panic "mis-predicted load or store?!?!?")
  | InRUU i =>
      if in_LSQ (rs_inst_of rs) then Fault (Panic "mis-predicted load or store?!?!?") else
      c ← ruu_recover cf i c;
      c ← tracer_recover c;
      let m := mach c in
      let pr := (λ b, bpred_recover b (stack_recover_idx (rs_inst_of rs))) <$> pred m in
      Ok (set_mach (set_delay (u32 (ruu_branch_penalty cf)) (set_pred pr m)) c)
  end.

(** One completion event. *)
Definition writeback_one (p : rs_ptr) c : result (core MS) :=
  rs ← get_rs (win c) p;
  if negb (OPERANDS_READY rs) || queued rs || negb (issued rs) || completed rs
  then Fault (Panic "inst completed and !ready, !issued, or completed") else
  c ← upd_station c p set_completed;
  c ← (if recover_inst rs then recover_branch p rs c else Ok c);
  c ← (if in_LSQ (rs_inst_of rs) then Ok c else train_pred cf spec_WB rs c);
  broadcast (seq 0 MAX_ODEPS) p c.

Fixpoint writeback_loop (fuel : nat) c : result (core MS) :=
  '(o, c) ← eventq_next_event c;
  match o with
  | None => Ok c
  | Some p =>
      match fuel with
      | O => Fault OutOfFuel
      | S fuel => c ← writeback_one p c; writeback_loop fuel c
      end
  end.

(** Every event takes a link. *)
Definition ruu_writeback c : result (core MS) := writeback_loop (length (links (qs c))) c.

(** ** The load/store queue *)

Definition MAX_STD_UNKNOWNS : nat := 64.

(** What a store does to the scan: it stops it, or it changes the addresses of the
    stores whose data are unknown. *)
Definition scan_store (rs : RUU_station) (unknown : list Z) : result (option (list Z)) :=
  a ← STORE_ADDR_READY rs;
  if negb a then Ok None
  else if negb (OPERANDS_READY rs) then
    if bool_decide (length unknown = MAX_STD_UNKNOWNS)
    then Fault (Fatal "STD unknown array overflow, increase MAX_STD_UNKNOWNS")
    else Ok (Some (unknown ++ [rs_addr (rs_inst_of rs)]))
  else Ok (Some ((λ z, if bool_decide (z = rs_addr (rs_inst_of rs)) then 0 else z) <$> unknown)).

(** A load that waits for nothing but memory. *)
Definition load_waiting (rs : RUU_station) : bool :=
  is_load (rs_op (rs_inst_of rs)) && negb (queued rs) && negb (issued rs)
  && negb (completed rs) && OPERANDS_READY rs.

Fixpoint refresh_loop (n index : nat) (unknown : list Z) c : result (core MS) :=
  match n with
  | O => Ok c
  | S n =>
      rs ← get_rs (win c) (InLSQ index);
      o ← (if is_store (rs_op (rs_inst_of rs)) then scan_store rs unknown else Ok (Some unknown));
      match o with
      | None => Ok c
      | Some unknown =>
          c ← (if load_waiting rs && bool_decide (rs_addr (rs_inst_of rs) ∉ unknown)
               then readyq_enqueue c (InLSQ index) else Ok c);
          refresh_loop n (next_slot (LSQ_size cf) index) unknown c
      end
  end.

Definition lsq_refresh c : result (core MS) :=
  refresh_loop (LSQ_num (win c)) (LSQ_head (win c)) [] c.

(** ** Issue *)

(** The scan of the older entries for a store to forward from. *)
Fixpoint forward_loop (fuel : nat) (w : window) (i : nat) (addr : Z) : result bool :=
  match fuel with
  | O => Fault OutOfFuel
  | S fuel =>
      let i := prev_slot (LSQ_size cf) i in
      rs ← get_rs w (InLSQ i);
      if any_flag (rs_op (rs_inst_of rs)) F_STORE && bool_decide (rs_addr (rs_inst_of rs) = addr)
      then Ok true
      else if bool_decide (i = LSQ_head w) then Ok false
      else forward_loop fuel w i addr
  end.

Definition store_forward (w : window) (i : nat) (addr : Z) : result bool :=
  if bool_decide (i = LSQ_head w) then Ok false else forward_loop (LSQ_size cf) w i addr.

(** The latency of a load: forwarded, from the data cache, or of the unit; and of the
    TLB, in parallel. *)
Definition load_latency (i : nat) (addr oplat : Z) c : result (Z * core MS) :=
  fwd ← store_forward (win c) i addr;
  '(lat, c) ←
    (if fwd : bool then Ok (1, c) else
     let c := if negb (spec_mode (mach c)) && negb (MD_VALID_ADDR addr)
              then set_mach (count_invalid_addr (mach c)) c else c in
     if MD_VALID_ADDR addr then
       '(o, c) ← access_with dl1_access Read (word_addr addr) 4 c;
       Ok (match o with Some lat => i32 lat | None => oplat end, c)
     else Ok (oplat, c));
  if MD_VALID_ADDR addr then
    '(o, c) ← access_with dtlb_access Read (word_addr addr) 4 c;
    Ok (match o with Some tlb => Z.max (i32 tlb) lat | None => lat end, c)
  else Ok (lat, c).

(** A store completes at once. *)
Definition issue_store (p : rs_ptr) (rs : RUU_station) c : result (core MS) :=
  c ← upd_station c p (λ rs, set_completed (set_issued rs));
  if bool_decide (Exists (λ n, n ≠ NA) (onames rs)) then Fault (Panic "store creates result") else
  if recover_inst rs then Fault (Panic "mis-predicted store") else Ok c.

(** A reserved unit starts the operation. *)
Definition issue_to_unit (p : rs_ptr) (rs : RUU_station) (oplat : Z) c : result (core MS) :=
  c ← upd_station c p set_issued;
  if in_LSQ (rs_inst_of rs) && is_load (rs_op (rs_inst_of rs)) then
    match p with
    | InRUU _ => Fault Undefined
    | InLSQ i =>
        '(lat, c) ← load_latency i (rs_addr (rs_inst_of rs)) oplat c;
        eventq_queue_event c p (i64 (sim_cycle (mach c) + lat))
    end
  else eventq_queue_event c p (i64 (sim_cycle (mach c) + oplat)).

(** One ready operation, and whether it was issued. *)
Definition issue_one (p : rs_ptr) c : result (bool * core MS) :=
  rs ← get_rs (win c) p;
  if negb (OPERANDS_READY rs) || negb (queued rs) || issued rs || completed rs
  then Fault (Panic "issued inst !ready, issued, or completed") else
  c ← upd_station c p (set_queued false);
  if in_LSQ (rs_inst_of rs) && is_store (rs_op (rs_inst_of rs)) then
    c ← issue_store p rs c; Ok (true, c)
  else if bool_decide (MD_OP_FUCLASS (rs_op (rs_inst_of rs)) ≠ NA) then
    o ← reserve_unit (rs_op (rs_inst_of rs)) c;
    match o with
    | Some (oplat, c) => c ← issue_to_unit p rs oplat c; Ok (true, c)
    | None => c ← readyq_enqueue c p; Ok (false, c)
    end
  else
    c ← upd_station c p set_issued;
    c ← eventq_queue_event c p (i64 (sim_cycle (mach c) + 1));
    Ok (true, c).

(** The operations that the width leaves go back to the queue. *)
Fixpoint requeue_loop (fuel : nat) (node : option nat) c : result (core MS) :=
  match node with
  | None => Ok c
  | Some n =>
      match fuel with
      | O => Fault OutOfFuel
      | S fuel =>
          k ← vget (links (qs c)) n;
          valid ← RSLINK_VALID (win c) k;
          c ← (if valid : bool then
                 p ← deref (l_rs k);
                 c ← upd_station c p (set_queued false);
                 readyq_enqueue c p
               else Ok c);
          q ← RSLINK_FREE (qs c) n;
          requeue_loop fuel (l_next k) (set_qs q c)
      end
  end.

(** The walk of the ready list, while [slots] are left. *)
Fixpoint issue_loop (fuel slots : nat) (node : option nat) c : result (core MS) :=
  match node, slots with
  | Some n, S slots' =>
      match fuel with
      | O => Fault OutOfFuel
      | S fuel =>
          k ← vget (links (qs c)) n;
          valid ← RSLINK_VALID (win c) k;
          '(done_, c) ← (if valid : bool then p ← deref (l_rs k); issue_one p c else Ok (false, c));
          q ← RSLINK_FREE (qs c) n;
          issue_loop fuel (if done_ : bool then slots' else slots) (l_next k) (set_qs q c)
      end
  | _, _ => requeue_loop (length (links (qs c))) node c
  end.

Definition ruu_issue c : result (core MS) :=
  issue_loop (length (links (qs c))) (ruu_issue_width cf) (ready_queue (qs c))
    (set_qs (set_ready_queue None (qs c)) c).

End Sched.
