(* ===== verification/RuuFront.v ===== *)
(** * sim-outorder.c: fetch, dispatch, and the main loop

    The debugger, pipetracing and the per-PC statistics are not modelled. *)

From S2P Require Import Prelude Misc Memory Bpred Resource Ruu RuuStages RuuSched.

(** The reserved register name of an effective address. *)
Definition DTMP : Z := 67.
Definition F_CALL : Z := 32768.
Definition MD_IS_CALL (op : md_opcode) : bool := has_flags op (Z.lor F_CTRL F_CALL).

(** ** Updates of the front end *)

Definition set_fetchq (l : list fetch_rec) (h t n : nat) (f : front_end) : front_end :=
  mkFront l h t n (fetch_regs_PC f) (fetch_pred_PC f) (pred_PC f) (recover_PC f) (regs_PC f)
    (inst_seq f) (last_op f) (counters f).
Definition set_fetch_PCs (r p : Z) (f : front_end) : front_end :=
  mkFront (fetch_data f) (fetch_head f) (fetch_tail f) (fetch_num f) r p (pred_PC f)
    (recover_PC f) (regs_PC f) (inst_seq f) (last_op f) (counters f).
Definition set_pred_PC (z : Z) (f : front_end) : front_end :=
  mkFront (fetch_data f) (fetch_head f) (fetch_tail f) (fetch_num f) (fetch_regs_PC f)
    (fetch_pred_PC f) z (recover_PC f) (regs_PC f) (inst_seq f) (last_op f) (counters f).
Definition set_recover_PC (z : Z) (f : front_end) : front_end :=
  mkFront (fetch_data f) (fetch_head f) (fetch_tail f) (fetch_num f) (fetch_regs_PC f)
    (fetch_pred_PC f) (pred_PC f) z (regs_PC f) (inst_seq f) (last_op f) (counters f).
Definition set_regs_PC (z : Z) (f : front_end) : front_end :=
  mkFront (fetch_data f) (fetch_head f) (fetch_tail f) (fetch_num f) (fetch_regs_PC f)
    (fetch_pred_PC f) (pred_PC f) (recover_PC f) z (inst_seq f) (last_op f) (counters f).
(** [++inst_seq]. *)
Definition next_seq (f : front_end) : front_end :=
  mkFront (fetch_data f) (fetch_head f) (fetch_tail f) (fetch_num f) (fetch_regs_PC f)
    (fetch_pred_PC f) (pred_PC f) (recover_PC f) (regs_PC f) (u32 (inst_seq f + 1)) (last_op f)
    (counters f).
Definition set_last_op (o : option (rs_ptr * Z)) (f : front_end) : front_end :=
  mkFront (fetch_data f) (fetch_head f) (fetch_tail f) (fetch_num f) (fetch_regs_PC f)
    (fetch_pred_PC f) (pred_PC f) (recover_PC f) (regs_PC f) (inst_seq f) o (counters f).
Definition add_counter (k : sim_counter) (n : Z) (f : front_end) : front_end :=
  mkFront (fetch_data f) (fetch_head f) (fetch_tail f) (fetch_num f) (fetch_regs_PC f)
    (fetch_pred_PC f) (pred_PC f) (recover_PC f) (regs_PC f) (inst_seq f) (last_op f)
    (λ k', if decide (k' = k) then i64 (counters f k + n) else counters f k').

Section Front.
Context {MS : Type} `{!Environment MS}.
Variable cf : config.
Implicit Types c : core MS.

Definition upd_front (g : front_end → front_end) c : core MS := set_front (g (front c)) c.
(** [if (b) k++]. *)
Definition bump (b : bool) (k : sim_counter) c : core MS :=
  if b then upd_front (add_counter k 1) c else c.

(** ** Dependences *)

(** [ruu_link_idep]. *)
Definition ruu_link_idep (p : rs_ptr) (idep_num : nat) (idep_name : Z) c : result (core MS) :=
  if bool_decide (idep_name = NA) then upd_station c p (set_idep idep_num true) else
  head ← CREATE_VECTOR (cvs c) (Z.to_nat idep_name);
  match head with
  | None => upd_station c p (set_idep idep_num true)
  | Some (hp, hn) =>
      c ← upd_station c p (set_idep idep_num false);
      rs ← get_rs (win c) p;
      '(n, q) ← RSLINK_NEW (qs c) p (rs_tag rs) (Z.of_nat idep_num);
      hs ← get_rs (win c) hp;
      o ← vget (odep_list hs) hn;
      q ← set_link_next q n o;
      upd_station (set_qs q c) hp (set_odep hn (Some n))
  end.

(** [ruu_install_odep]. *)
Definition ruu_install_odep (p : rs_ptr) (odep_num : nat) (odep_name : Z) c : result (core MS) :=
  if bool_decide (odep_name = NA) then upd_station c p (set_oname odep_num NA) else
  c ← upd_station c p (λ rs, set_odep odep_num None (set_oname odep_num odep_name rs));
  v ← SET_CREATE_VECTOR (spec_mode (mach c)) (cvs c) (Z.to_nat odep_name) (Some (p, odep_num));
  Ok (set_cvs v c).

(** ** Dispatch *)

(** A station is filled in; its tag, names and lists are already set. *)
Definition fill_station (i : rs_inst) (rs : RUU_station) : RUU_station :=
  mkStation i false (rs_tag rs) false false false (onames rs) (odep_list rs) (idep_ready rs).

Definition push_RUU (w : window) : window :=
  mkWindow (RUU w) (RUU_head w) (next_slot (RUU_size cf) (RUU_tail w)) (RUU_num w + 1)
    (LSQ w) (LSQ_head w) (LSQ_tail w) (LSQ_num w).
Definition push_LSQ (w : window) : window :=
  mkWindow (RUU w) (RUU_head w) (RUU_tail w) (RUU_num w)
    (LSQ w) (LSQ_head w) (next_slot (LSQ_size cf) (LSQ_tail w)) (LSQ_num w + 1).

(** The description of the instruction at hand. *)
Definition inst_desc (r : fetch_rec) (x : exec_out) (op : md_opcode) (lsq ea : bool)
    (idx : Z) (u : bpred_update_t) (addr : Z) c : rs_inst :=
  mkInst (f_IR r) op (f_regs_PC r) (x_NPC x) (pred_PC (front c)) lsq ea idx u
    (spec_mode (mach c)) addr (inst_seq (front c)) (i32 (sim_cycle (mach c) - 1)).

(** A load or store takes a station of each buffer. *)
Definition dispatch_mem (r : fetch_rec) (x : exec_out) c : result (core MS) :=
  let p := InRUU (RUU_tail (win c)) in
  let l := InLSQ (LSQ_tail (win c)) in
  let c := upd_front next_seq c in
  c ← upd_station c p (fill_station
        (inst_desc r x MD_AGEN_OP false true (f_stack_recover_idx r) (f_dir_update r) 0 c));
  let c := upd_front next_seq c in
  c ← upd_station c l (λ ls, fill_station
        (inst_desc r x (x_op x) true false 0
           (let u := dir_update (rs_inst_of ls) in
            mkUpd None None None (d_ras u) (d_bimod u) (d_twolev u) (d_meta u))
           (x_addr x) c) ls);
  c ← ruu_link_idep p 0 NA c;
  c ← ruu_link_idep p 1 (x_in2 x) c;
  c ← ruu_link_idep p 2 (x_in3 x) c;
  c ← ruu_install_odep p 0 DTMP c;
  c ← ruu_install_odep p 1 NA c;
  c ← ruu_link_idep l STORE_OP_INDEX (x_in1 x) c;
  c ← ruu_link_idep l STORE_ADDR_INDEX DTMP c;
  c ← ruu_link_idep l 2 NA c;
  c ← ruu_install_odep l 0 (x_out1 x) c;
  c ← ruu_install_odep l 1 (x_out2 x) c;
  let c := set_win (push_LSQ (push_RUU (win c))) c in
  rs ← get_rs (win c) p;
  c ← (if OPERANDS_READY rs then readyq_enqueue c p else Ok c);
  ls ← get_rs (win c) l;
  let c := upd_front (set_last_op (Some (l, rs_tag ls))) c in
  if is_store (x_op x) && OPERANDS_READY ls then readyq_enqueue c l else Ok c.

Definition dispatch_op (r : fetch_rec) (x : exec_out) c : result (core MS) :=
  let p := InRUU (RUU_tail (win c)) in
  let c := upd_front next_seq c in
  c ← upd_station c p (fill_station
        (inst_desc r x (x_op x) false false (f_stack_recover_idx r) (f_dir_update r) 0 c));
  c ← ruu_link_idep p 0 (x_in1 x) c;
  c ← ruu_link_idep p 1 (x_in2 x) c;
  c ← ruu_link_idep p 2 (x_in3 x) c;
  c ← ruu_install_odep p 0 (x_out1 x) c;
  c ← ruu_install_odep p 1 (x_out2 x) c;
  let c := set_win (push_RUU (win c)) c in
  rs ← get_rs (win c) p;
  if OPERANDS_READY rs then
    c ← readyq_enqueue c p; Ok (upd_front (set_last_op None) c)
  else Ok (upd_front (set_last_op (Some (p, rs_tag rs))) c).

Definition is_nop (op : md_opcode) : bool := bool_decide (op_num op = op_num MD_NOP_OP).

(** A perfect or wrong prediction of the target redirects the fetch stage; the queue
    is left with one slot, the one being dispatched. *)
Definition redirect_fetch (NPC : Z) c : core MS :=
  let c := upd_front (set_fetch_PCs NPC NPC) c in
  let c := if pred_perfect cf then upd_front (set_pred_PC NPC) c else c in
  let c := upd_front (set_fetchq (fetch_data (front c)) (ruu_ifq_size cf - 1) 0 1) c in
  if pred_perfect cf then c
  else set_mach (set_delay (u32 (ruu_branch_penalty cf)) (mach c)) c.

(** The in-order machine waits for the operands of its last operation. *)
Definition inorder_stall c : result bool :=
  match ruu_inorder_issue cf, last_op (front c) with
  | true, Some (p, tag) =>
      rs ← get_rs (win c) p; Ok (bool_decide (tag = rs_tag rs) && negb (OPERANDS_READY rs))
  | _, _ => Ok false
  end.

Definition count_mem (op : md_opcode) c : core MS :=
  if any_flag op F_MEM then
    let ns := negb (spec_mode (mach c)) in
    let c := bump ns sim_num_refs (bump true sim_total_refs c) in
    if any_flag op F_STORE then c
    else bump ns sim_num_loads (bump true sim_total_loads c)
  else c.

(** The prediction is checked; a wrong one starts the wrong path. *)
Definition resolve_path (p : option rs_ptr) (r : fetch_rec) (x : exec_out) (redirected : bool) c
    : result (core MS) :=
  if spec_mode (mach c) then Ok c else
  c ← (if is_ctrl (x_op x) then
         let c := bump true sim_num_branches c in
         match pred (mach c) with
         | Some bp =>
             if bool_decide (bpred_spec_update cf = spec_ID) then
               q ← deref p;
               rs ← get_rs (win c) q;
               bp ← bpred_update bp (f_regs_PC r) (x_NPC x)
                      (negb (bool_decide (x_NPC x = u32 (f_regs_PC r + inst_size))))
                      (negb (bool_decide (pred_PC (front c) = u32 (f_regs_PC r + inst_size))))
                      (bool_decide (pred_PC (front c) = x_NPC x)) (x_op x)
                      (dir_update (rs_inst_of rs));
               Ok (set_mach (set_pred (Some bp) (mach c)) c)
             else Ok c
         | None => Ok c
         end
       else Ok c);
  if negb (bool_decide (pred_PC (front c) = x_NPC x)) && negb redirected then
    q ← deref p;
    c ← upd_station (set_mach (set_spec true (mach c)) c) q (set_recover true);
    Ok (upd_front (set_recover_PC (x_NPC x)) c)
  else Ok c.

(** The instruction leaves the fetch queue; [ruu_ifq_size] is a power of two. *)
Definition consume_fetch c : core MS :=
  let f := front c in
  upd_front (set_fetchq (fetch_data f) ((fetch_head f + 1) mod ruu_ifq_size cf)
    (fetch_tail f) (fetch_num f - 1)) c.

(** One instruction, with whether it was dispatched and whether fetch is redirected;
    nothing when the loop is left. *)
Definition dispatch_one (redirected : bool) c : result (option (bool * bool) * core MS) :=
  stall ← inorder_stall c;
  if stall : bool then Ok (None, c) else
  r ← vget (fetch_data (front c)) (fetch_head (front c));
  let c := upd_front (set_pred_PC (f_pred_PC r)) (upd_front (set_regs_PC (f_regs_PC r)) c) in
  let op := MD_SET_OPCODE (f_IR r) in
  if any_flag op F_TRAP && negb (bool_decide (RUU_num (win c) = 0%nat)) then Ok (None, c) else
  if any_flag op F_TRAP && spec_mode (mach c) then Fault (Panic "drained and speculative") else
  let c := bump (negb (spec_mode (mach c))) sim_num_insn c in
  '(x, s) ← md_exec (spec_mode (mach c)) op (f_IR r) (f_regs_PC r) (ports (mach c));
  let c := set_mach (set_ports s (mach c)) c in
  if bool_decide (x_fault x ≠ md_fault_none)
  then Fault (Fatal "non-speculative fault detected") else
  let c := count_mem (x_op x) c in
  let pt := negb (bool_decide (f_pred_PC r = u32 (f_regs_PC r + inst_size))) in
  let redir :=
    (negb (bool_decide (f_pred_PC r = x_NPC x)) && pred_perfect cf)
    || (has_flags (x_op x) (Z.lor F_CTRL F_DIRJMP)
        && negb (bool_decide (x_target_PC x = f_pred_PC r)) && pt) in
  let c := if redir then redirect_fetch (x_NPC x) c else c in
  let p := InRUU (RUU_tail (win c)) in
  let nop := is_nop (x_op x) in
  c ← (if nop then Ok c
       else if any_flag (x_op x) F_MEM then dispatch_mem r x c else dispatch_op r x c);
  let c := bump (is_ctrl (x_op x)) sim_total_branches (bump true sim_total_insn c) in
  c ← resolve_path (if nop then None else Some p) r x (redir || redirected) c;
  Ok (Some (negb nop, redir || redirected), consume_fetch c).

(** The loop ends as the fetch queue drains. *)
Fixpoint dispatch_loop (fuel n_dispatched : nat) (redirected : bool) c : result (core MS) :=
  if bool_decide (n_dispatched < ruu_decode_width cf * fetch_speed cf)%nat
     && bool_decide (RUU_num (win c) < RUU_size cf)%nat
     && bool_decide (LSQ_num (win c) < LSQ_size cf)%nat
     && bool_decide (fetch_num (front c) ≠ 0%nat)
     && (ruu_include_spec cf || negb (spec_mode (mach c)))
  then
    match fuel with
    | O => Fault OutOfFuel
    | S fuel =>
        '(o, c) ← dispatch_one redirected c;
        match o with
        | None => Ok c
        | Some (d, redirected) =>
            dispatch_loop fuel (if d : bool then S n_dispatched else n_dispatched) redirected c
        end
    end
  else Ok c.

Definition ruu_dispatch c : result (core MS) := dispatch_loop (fetch_num (front c)) 0 false c.

(** ** Fetch *)

Definition IACOMPRESS (a : Z) : Z :=
  if compress_icache_addrs cf
  then u32 (Z.shiftr (u32 (a - ld_text_base)) 1 + ld_text_base) else a.
Definition ISCOMPRESS (sz : Z) : Z :=
  if compress_icache_addrs cf then Z.shiftr sz 1 else sz.

Definition in_text (pc : Z) : bool :=
  bool_decide (ld_text_base ≤ pc) && bool_decide (pc < u32 (ld_text_base + ld_text_size))
  && bool_decide (Z.land pc (inst_size - 1) = 0).

(** The latency of the instruction cache and TLB. *)
Definition fetch_latency (pc : Z) c : result (Z * core MS) :=
  '(o, c) ← access_with il1_access Read (IACOMPRESS pc) (ISCOMPRESS inst_size) c;
  let lat := match o with Some lat => i32 lat | None => cache_il1_lat cf end in
  '(o, c) ← access_with itlb_access Read (IACOMPRESS pc) (ISCOMPRESS inst_size) c;
  Ok (match o with Some tlb => Z.max (i32 tlb) lat | None => lat end, c).

(** The next fetch address, whether it is a predicted target, the update record and the
    recovery index. *)
Definition predict (inst pc idx : Z) (u : bpred_update_t) c
    : result (Z * bool * bpred_update_t * Z * core MS) :=
  match pred (mach c) with
  | None => Ok (u32 (pc + inst_size), false, u, idx, c)
  | Some bp =>
      let op := MD_SET_OPCODE inst in
      if is_ctrl op then
        '(t, u, idx, bp) ← bpred_lookup bp pc 0 op (MD_IS_CALL op) (MD_IS_RETURN op inst) u idx;
        let c := set_mach (set_pred (Some bp) (mach c)) c in
        if bool_decide (t = 0) then Ok (u32 (pc + inst_size), false, u, idx, c)
        else Ok (t, true, u, idx, c)
      else Ok (u32 (pc + inst_size), false, u, idx, c)
  end.

(** [n] more instructions; [idx] is the recovery index that the last lookup set. *)
Fixpoint fetch_loop (n branch_cnt : nat) (idx : Z) c : result (core MS) :=
  match n with
  | O => Ok c
  | S n =>
      if bool_decide (ruu_ifq_size cf ≤ fetch_num (front c))%nat then Ok c else
      let pc := fetch_pred_PC (front c) in
      let c := upd_front (set_fetch_PCs pc pc) c in
      '(inst, lat, c) ←
        (if in_text pc then
           let inst := MD_FETCH_INST pc (ports (mach c)) in
           '(lat, c) ← fetch_latency pc c; Ok (inst, lat, c)
         else Ok (MD_NOP_INST, cache_il1_lat cf, c));
      if bool_decide (lat ≠ cache_il1_lat cf) then
        Ok (set_mach (set_delay (u32 (ruu_fetch_issue_delay (mach c) + (lat - 1))) (mach c)) c)
      else
      r ← vget (fetch_data (front c)) (fetch_tail (front c));
      '(next, taken, u, idx, c) ← predict inst pc idx (f_dir_update r) c;
      let f := front c in
      l ← vset (fetch_data f) (fetch_tail f) (mkFetch inst pc next u idx);
      let c := upd_front (set_fetch_PCs pc next) c in
      let c := upd_front (set_fetchq l (fetch_head f) ((fetch_tail f + 1) mod ruu_ifq_size cf)
                            (fetch_num f + 1)) c in
      let branch_cnt := if taken : bool then S branch_cnt else branch_cnt in
      if taken && bool_decide (fetch_speed cf ≤ branch_cnt)%nat then Ok c
      else fetch_loop n branch_cnt idx c
  end.

Definition ruu_fetch c : result (core MS) :=
  fetch_loop (ruu_decode_width cf * fetch_speed cf) 0 0 c.

(** ** The main loop *)

Definition sanity c : result unit :=
  let w := win c in
  if bool_decide (RUU_num w < LSQ_num w)%nat then Fault (Panic "RUU_num < LSQ_num") else
  if bool_decide ((RUU_head w + RUU_num w) mod RUU_size cf ≠ RUU_tail w)%nat
  then Fault (Panic "RUU_head/RUU_tail wedged") else
  if bool_decide ((LSQ_head w + LSQ_num w) mod LSQ_size cf ≠ LSQ_tail w)%nat
  then Fault (Panic "LSQ_head/LSQ_tail wedged") else Ok tt.

Definition refresh_and_issue c : result (core MS) := c ← lsq_refresh cf c; ruu_issue cf c.

Definition occupancy c : core MS :=
  let w := win c in
  let n := Z.of_nat (fetch_num (front c)) in
  upd_front (λ f,
    add_counter LSQ_fcount (c_bool (bool_decide (LSQ_num w = LSQ_size cf)))
    (add_counter LSQ_count (Z.of_nat (LSQ_num w))
    (add_counter RUU_fcount (c_bool (bool_decide (RUU_num w = RUU_size cf)))
    (add_counter RUU_count (Z.of_nat (RUU_num w))
    (add_counter IFQ_fcount (c_bool (bool_decide (fetch_num f = ruu_ifq_size cf)))
    (add_counter IFQ_count n f)))))) c.

(** One cycle, and whether the simulation ends with it. *)
Definition sim_cycle_step c : result (bool * core MS) :=
  _ ← sanity c;
  c ← ruu_commit cf c;
  c ← ruu_release_fu c;
  c ← ruu_writeback cf c;
  c ← (if bugcompat_mode cf then Ok c else refresh_and_issue c);
  c ← ruu_dispatch c;
  c ← (if bugcompat_mode cf then refresh_and_issue c else Ok c);
  c ← (if bool_decide (ruu_fetch_issue_delay (mach c) = 0) then ruu_fetch c
       else Ok (set_mach (set_delay (ruu_fetch_issue_delay (mach c) - 1) (mach c)) c));
  let c := occupancy c in
  let c := set_mach (set_cycle (i64 (sim_cycle (mach c) + 1)) (mach c)) c in
  Ok (bool_decide (max_insts cf ≠ 0 ∧ max_insts cf ≤ counters (front c) sim_num_insn), c).

(** [sim_main] after fast forwarding, for at most [fuel] cycles; without a limit on
    instructions it ends with the program's exit system call. *)
Fixpoint sim_main (fuel : nat) c : result (core MS) :=
  match fuel with
  | O => Fault OutOfFuel
  | S fuel =>
      '(done_, c) ← sim_cycle_step c;
      if done_ : bool then Ok c else sim_main fuel c
  end.

(** The state that [sim_load_prog] and [sim_main] start the core in. *)
Definition sim_load_prog (pool : res_pool) (bp : option bpred_t) (s : MS) (entry : Z) : core MS :=
  mkCore MS (window_init cf) (rslink_init MAX_RS_LINKS) cv_init
    (mkMachine MS 0 false pool bp s 0 0 0)
    (mkFront (replicate (ruu_ifq_size cf) (mkFetch 0 0 0 no_update 0)) 0 0 0
       (u32 (entry - inst_size)) entry 0 0 (u32 (entry - inst_size)) 0 None (λ _, 0)).
End Front.
