(* ===== verification/Pool.v ===== *)
(** * The pool of station links

    The free list, the event queue, the ready queue, the lists of consumers of the
    stations, and a list that is being walked share one pool of links.  [pool] says
    which abstract links each of them holds: every list is a chain, and no link is
    in two of them. *)

From S2P Require Import Prelude Misc Chains Ruu.

(** ** Lists of the pool *)

Inductive root := RFree | REvent | RReady | RWork | ROdep (p : rs_ptr) (k : nat).

#[global] Instance root_eq_dec : EqDecision root.
Proof. solve_decision. Defined.

(** A link's station, tag and member [x]. *)
Definition alink : Type := rs_ptr * Z * Z.
Definition a_rs (a : alink) : rs_ptr := a.1.1.
Definition a_tag (a : alink) : Z := a.1.2.
Definition a_x (a : alink) : Z := a.2.

Definition lnx (l : list RS_link) (n : nat) : option nat :=
  match l !! n with Some k => l_next k | None => None end.

(** The link [n] is the abstract link [a]. *)
Definition holds (l : list RS_link) (n : nat) (a : alink) : Prop :=
  ∃ k, l !! n = Some k ∧ l_rs k = Some (a_rs a) ∧ l_tag k = a_tag a ∧ l_x k = a_x a.

Record pool_own (l : list RS_link) (hd : root → option nat) (A : root → list alink)
    (own : root → list nat) : Prop := {
  own_chain r : chain (lnx l) (hd r) (own r);
  own_nodup r : NoDup (own r);
  own_disj r r' b : b ∈ own r → b ∈ own r' → r = r';
  own_bound r b : b ∈ own r → (b < length l)%nat;
  own_holds r : r ≠ RFree → Forall2 (holds l) (own r) (A r)
}.

Definition pool (l : list RS_link) (hd : root → option nat) (A : root → list alink) : Prop :=
  ∃ own, pool_own l hd A own.

Definition upd {X} (f : root → X) (r : root) (x : X) : root → X :=
  λ r', if decide (r' = r) then x else f r'.

Lemma upd_same {X} (f : root → X) r x : upd f r x r = x.
Proof. unfold upd. by rewrite decide_True. Qed.
Lemma upd_other {X} (f : root → X) r x r' : r' ≠ r → upd f r x r' = f r'.
Proof. intros. unfold upd. by rewrite decide_False. Qed.

Lemma pool_ext l hd hd' A A' :
  pool l hd A → (∀ r, hd' r = hd r) → (∀ r, r ≠ RFree → A' r = A r) → pool l hd' A'.
Proof.
  intros [own [Hc Hn Hd Hb Hh]] Hhd HA. exists own. split; [|done..|].
  - intros r. by rewrite Hhd.
  - intros r Hr. rewrite HA by done. by apply Hh.
Qed.

Lemma lnx_insert l n k b : (n < length l)%nat → lnx (<[n := k]> l) b = if decide (b = n) then l_next k else lnx l b.
Proof.
  intros Hn. unfold lnx. case_decide; subst.
  - by rewrite list_lookup_insert_eq.
  - by rewrite list_lookup_insert_ne.
Qed.

Lemma holds_insert_ne l n k b a : b ≠ n → holds (<[n := k]> l) b a ↔ holds l b a.
Proof. intros Hb. unfold holds. by rewrite list_lookup_insert_ne by done. Qed.

(** A change of [next] keeps what a link holds. *)
Lemma holds_link_next l n k o b a :
  l !! n = Some k → holds l b a → holds (<[n := link_next o k]> l) b a.
Proof.
  intros Hn (k' & Hk & H). destruct (decide (b = n)) as [->|Hne].
  - simplify_eq. eexists (link_next o _). by rewrite list_lookup_insert_eq by (by eapply lookup_lt_Some).
  - exists k'. by rewrite list_lookup_insert_ne.
Qed.

Lemma Forall2_frame {X Y} (P Q : X → Y → Prop) xs ys :
  Forall2 P xs ys → (∀ x y, x ∈ xs → P x y → Q x y) → Forall2 Q xs ys.
Proof. induction 1; intros HPQ; constructor; [apply HPQ; [set_solver|done]|apply IHForall2; set_solver]. Qed.

(** ** Heads *)

Lemma pool_nil l hd A r : pool l hd A → r ≠ RFree → hd r = None ↔ A r = [].
Proof.
  intros [own [Hc _ _ _ Hh]] Hr. specialize (Hc r). specialize (Hh r Hr).
  destruct (own r) as [|b bs]; inversion Hh; subst; simpl in Hc; [by rewrite Hc|].
  destruct Hc as [-> _]. done.
Qed.

(** The link at the head of a list. *)
Lemma pool_head l hd A r n :
  pool l hd A → r ≠ RFree → hd r = Some n →
  ∃ k a rest, l !! n = Some k ∧ A r = a :: rest ∧
    l_rs k = Some (a_rs a) ∧ l_tag k = a_tag a ∧ l_x k = a_x a.
Proof.
  intros [own [Hc _ _ _ Hh]] Hr Hn. specialize (Hc r). specialize (Hh r Hr). rewrite Hn in Hc.
  destruct (own r) as [|b bs]; [done|]. destruct Hc as [[= <-] _].
  inversion Hh as [|? a ? rest (k & Hk & ?) ? Heq]; subst. exists k, a, rest. auto.
Qed.

Lemma pool_length l hd A r : pool l hd A → r ≠ RFree → (length (A r) ≤ length l)%nat.
Proof.
  intros [own [_ Hn _ Hb Hh]] Hr. rewrite <- (Forall2_length _ _ _ (Hh r Hr)).
  apply nodup_lt_length; [done|]. apply Forall_forall. intros b. apply Hb.
Qed.

(** ** Moving a list *)

Lemma pool_move l hd A r r' :
  pool l hd A → r ≠ RFree → r' ≠ RFree → r ≠ r' → hd r' = None →
  pool l (upd (upd hd r' (hd r)) r None) (upd (upd A r' (A r)) r []).
Proof.
  intros [own [Hc Hn Hd Hb Hh]] Hr Hr' Hne Hnil.
  assert (own r' = []) as Hown.
  { specialize (Hc r'). rewrite Hnil in Hc. destruct (own r'); [done|by destruct Hc]. }
  exists (upd (upd own r' (own r)) r []). split.
  - intros x. unfold upd. repeat case_decide; subst; [done|apply Hc|apply Hc].
  - intros x. unfold upd. repeat case_decide; subst; [constructor|apply Hn|apply Hn].
  - intros x y b. unfold upd. repeat case_decide; subst; intros Hi Hj; try done;
      try (by apply elem_of_nil in Hi); try (by apply elem_of_nil in Hj);
      pose proof (Hd _ _ _ Hi Hj); congruence.
  - intros x b. unfold upd. repeat case_decide; subst; [set_solver|apply Hb|apply Hb].
  - intros x Hx. unfold upd. repeat case_decide; subst; [constructor|by apply Hh|by apply Hh].
Qed.

(** ** Freeing the head of a list *)

Lemma pool_free_head l hd A r n :
  pool l hd A → r ≠ RFree → hd r = Some n →
  ∃ k a rest, l !! n = Some k ∧ A r = a :: rest ∧
    l_rs k = Some (a_rs a) ∧ l_tag k = a_tag a ∧ l_x k = a_x a ∧
    pool (<[n := mkLink (hd RFree) None 0 (l_x k)]> l)
      (upd (upd hd RFree (Some n)) r (l_next k)) (upd A r rest).
Proof.
  intros [own [Hc Hn Hd Hb Hh]] Hr Hnd. pose proof (Hc r) as Hcr. pose proof (Hh r Hr) as Hhr.
  rewrite Hnd in Hcr. destruct (own r) as [|b bs] eqn:Hown; [done|].
  destruct Hcr as [Hbn Hcr]. injection Hbn as <-.
  inversion Hhr as [|? a ? rest (k & Hk & Hrs & Ht & Hx) Hrest Heq1 Heq]; subst.
  exists k, a, rest. do 5 (split; [done|]).
  assert (n < length l)%nat as Hlt by (by eapply lookup_lt_Some).
  assert (∀ x, x ≠ r → n ∉ own x) as Hno.
  { intros x Hx' Hin. apply Hx'. apply (Hd x r n Hin). rewrite Hown. set_solver. }
  assert (NoDup (n :: bs)) as Hnd' by (rewrite <- Hown; apply Hn). apply NoDup_cons in Hnd' as [Hnbs Hnd'].
  assert (∀ x b, x ≠ r → b ∈ own x → b ≠ n) as Hbn by (intros x b Hx' Hin ->; by apply (Hno x)).
  exists (upd (upd own RFree (n :: own RFree)) r bs). split.
  - intros x. unfold upd. case_decide as Hxr; [subst x|case_decide as Hxf; [subst x|]].
    + unfold lnx in Hcr at 2. rewrite Hk in Hcr. eapply chain_ext; [|exact Hcr].
      intros c Hcin. rewrite lnx_insert by done. rewrite decide_False; [done|]. by intros ->.
    + eapply (chain_push (lnx l)); [by apply Hno|apply Hc| |].
      * rewrite lnx_insert by done. by rewrite decide_True.
      * intros c Hcn. rewrite lnx_insert by done. by rewrite decide_False.
    + eapply chain_ext; [|apply Hc]. intros c Hcin. rewrite lnx_insert by done.
      rewrite decide_False; [done|]. by eapply Hbn.
  - intros x. unfold upd. case_decide as Hxr; [done|]. case_decide as Hxf; [subst x|apply Hn].
    apply NoDup_cons. split; [by apply Hno|apply Hn].
  - assert (∀ x b, b ∈ upd (upd own RFree (n :: own RFree)) r bs x → b ≠ n → b ∈ own x) as Hold.
    { intros x b. unfold upd. repeat case_decide; subst; rewrite ?Hown; set_solver. }
    assert (∀ x, n ∈ upd (upd own RFree (n :: own RFree)) r bs x → x = RFree) as Hn'.
    { intros x. unfold upd. case_decide as Hxr; [set_solver|]. case_decide; [done|].
      intros Hin. by destruct (Hno x). }
    intros x y b H1 H2. destruct (decide (b = n)) as [->|Hbne].
    + by rewrite (Hn' x), (Hn' y).
    + eapply Hd; eauto.
  - intros x b. rewrite length_insert. unfold upd. case_decide as Hxr.
    { subst x. intros Hin. apply (Hb r). rewrite Hown. set_solver. }
    case_decide as Hxf; [subst x|apply Hb]. intros [->|Hin]%elem_of_cons; [done|by eapply Hb].
  - intros x Hx'. unfold upd at 2 3. case_decide as Hxr; [subst x|].
    + unfold upd. rewrite decide_True by done. eapply Forall2_frame; [exact Hrest|].
      intros b y Hin. apply holds_insert_ne. by intros ->.
    + unfold upd. rewrite decide_False, decide_False by done. eapply Forall2_frame; [by apply Hh|].
      intros b y Hin. apply holds_insert_ne. by eapply Hbn.
Qed.

(** ** New links *)

Section New.
Context (l : list RS_link) (hd : root → option nat) (A : root → list alink) (own : root → list nat).
Hypothesis Hpool : pool_own l hd A own.
Context (r : root) (n : nat) (p : rs_ptr) (tag x : Z).
Hypothesis Hr : r ≠ RFree.
Hypothesis Hfree : hd RFree = Some n.

Lemma free_first : ∃ k fs, l !! n = Some k ∧ own RFree = n :: fs ∧ chain (lnx l) (l_next k) fs ∧ n ∉ fs.
Proof using All.
  destruct Hpool as [Hc Hn _ Hb _]. specialize (Hc RFree). rewrite Hfree in Hc.
  specialize (Hn RFree). destruct (own RFree) as [|b fs] eqn:Hown; [done|].
  destruct Hc as [[= <-] Hc]. apply NoDup_cons in Hn as [Hnf _].
  destruct (lookup_lt_is_Some_2 l n) as [k Hk]; [apply (Hb RFree); rewrite Hown; set_solver|].
  unfold lnx in Hc at 2. rewrite Hk in Hc. by exists k, fs.
Qed.

Lemma free_alone y : y ≠ RFree → n ∉ own y.
Proof using All.
  intros Hy Hin. destruct free_first as (k & fs & _ & Hf & _).
  apply Hy. apply (own_disj _ _ _ _ Hpool y RFree n Hin). rewrite Hf. set_solver.
Qed.

(** The common part of the insertions: a new list [os] for [r], and links that differ
    from the old ones in [n] and in links of [r] only. *)
Lemma pool_insert_own l' os as' k :
  l !! n = Some k → length l' = length l →
  (∀ b, b ∉ n :: own r → l' !! b = l !! b) →
  chain (lnx l') (head os) os → Permutation os (n :: own r) → Forall2 (holds l') os as' →
  pool l' (upd (upd hd RFree (l_next k)) r (head os)) (upd A r as').
Proof using All.
  intros Hk Hlen Hold Hchain Hperm Hholds. destruct free_first as (k' & fs & Hk' & Hf & Hcf & Hnf).
  simplify_eq. pose proof Hpool as [Hc Hn Hd Hb Hh].
  assert (∀ y b, y ≠ r → y ≠ RFree → b ∈ own y → l' !! b = l !! b) as Hframe.
  { intros y b Hy Hyf Hin. apply Hold. intros [->|Hin']%elem_of_cons; [by apply (free_alone y)|].
    apply Hy. by eapply Hd. }
  assert (∀ b, b ∈ fs → l' !! b = l !! b) as Hframef.
  { intros b Hin. apply Hold. intros [->|Hin']%elem_of_cons; [done|].
    apply Hr. apply (Hd r RFree b Hin'). rewrite Hf. set_solver. }
  exists (upd (upd own RFree fs) r os). split.
  - intros y. unfold upd. case_decide; [done|]. case_decide; [subst y|].
    + eapply chain_ext; [|exact Hcf]. intros b Hin. unfold lnx. by rewrite Hframef.
    + eapply chain_ext; [|apply Hc]. intros b Hin. unfold lnx. by erewrite Hframe.
  - intros y. unfold upd. case_decide; [subst y|case_decide; [subst y|apply Hn]].
    + rewrite Hperm. apply NoDup_cons. split; [by apply free_alone|apply Hn].
    + specialize (Hn RFree). rewrite Hf in Hn. by apply NoDup_cons in Hn as [_ ?].
  - assert (∀ y b, b ∈ upd (upd own RFree fs) r os y → b ≠ n → b ∈ own y) as Ho.
    { intros y b. unfold upd. case_decide; [subst y; rewrite Hperm; set_solver|].
      case_decide; [subst y; rewrite Hf; set_solver|done]. }
    assert (∀ y, n ∈ upd (upd own RFree fs) r os y → y = r) as Ho'.
    { intros y. unfold upd. case_decide; [done|]. case_decide; [subst y; done|].
      intros Hin. exfalso. by apply (free_alone y). }
    intros y z b Hi Hj. destruct (decide (b = n)) as [->|Hbn]; [by rewrite (Ho' y), (Ho' z)|].
    eapply Hd; eauto.
  - intros y b. rewrite Hlen. unfold upd. case_decide; [subst y; rewrite Hperm|case_decide; [subst y|apply Hb]].
    + intros [->|Hin]%elem_of_cons; [by eapply lookup_lt_Some|by apply (Hb r)].
    + intros Hin. apply (Hb RFree). rewrite Hf. set_solver.
  - intros y Hy. unfold upd. case_decide; [done|]. rewrite decide_False by done.
    eapply Forall2_frame; [by apply Hh|]. intros b a Hin (kb & Hkb & ?). exists kb.
    by rewrite (Hframe y).
Qed.

Lemma own_push k :
  l !! n = Some k →
  pool (<[n := mkLink (hd r) (Some p) tag x]> l) (upd (upd hd RFree (l_next k)) r (Some n))
    (upd A r ((p, tag, x) :: A r)).
Proof using All.
  intros Hk. assert (n < length l)%nat as Hlt by (by eapply lookup_lt_Some).
  pose proof Hpool as [Hc _ _ _ Hh].
  apply (pool_insert_own _ (n :: own r) _ k Hk).
  - by rewrite length_insert.
  - intros b Hb. rewrite list_lookup_insert_ne; [done|]. set_solver.
  - apply (chain_push (lnx l) _ (hd r)); [by apply free_alone|apply Hc| |].
    + rewrite lnx_insert by done. by rewrite decide_True.
    + intros c Hcn. rewrite lnx_insert by done. by rewrite decide_False.
  - done.
  - constructor.
    + eexists. rewrite list_lookup_insert_eq by done. done.
    + eapply Forall2_frame; [by apply Hh|]. intros b a Hin. apply holds_insert_ne.
      intros ->. by apply (free_alone r).
Qed.

Lemma own_after k e ke os1 os2 as1 as2 :
  l !! n = Some k → own r = os1 ++ e :: os2 → l !! e = Some ke →
  A r = as1 ++ as2 → length as1 = S (length os1) →
  pool (<[e := link_next (Some n) ke]> (<[n := mkLink (l_next ke) (Some p) tag x]> l))
    (upd hd RFree (l_next k)) (upd A r (as1 ++ (p, tag, x) :: as2)).
Proof using All.
  intros Hk Hown He HA Hlen. assert (n < length l)%nat as Hlt by (by eapply lookup_lt_Some).
  assert (e < length l)%nat as Hlte by (by eapply lookup_lt_Some).
  assert (n ∉ own r) as Hnr by (by apply free_alone). rewrite Hown in Hnr.
  assert (e ≠ n) as Hen by set_solver. pose proof Hpool as [Hc Hn _ _ Hh].
  set (l1 := <[n := mkLink (l_next ke) (Some p) tag x]> l).
  assert (length l1 = length l) as Hl1 by apply length_insert.
  assert (∀ b, lnx (<[e := link_next (Some n) ke]> l1) b
    = if decide (b = e) then Some n else if decide (b = n) then l_next ke else lnx l b) as Hnx.
  { intros b. rewrite lnx_insert by lia. case_decide; [done|]. subst l1. by rewrite lnx_insert. }
  assert (head (os1 ++ e :: n :: os2) = hd r) as Hhead.
  { specialize (Hc r). rewrite Hown in Hc. destruct os1; simpl in *; by destruct Hc as [-> _]. }
  eapply pool_ext; [apply (pool_insert_own _ (os1 ++ e :: n :: os2) (as1 ++ (p, tag, x) :: as2) k Hk)| |].
  - by rewrite length_insert.
  - intros b. rewrite Hown. intros Hb. rewrite list_lookup_insert_ne by set_solver. subst l1.
    rewrite list_lookup_insert_ne by set_solver. done.
  - rewrite Hhead. specialize (Hc r). specialize (Hn r). rewrite Hown in Hc, Hn.
    eapply (chain_insert (lnx l)); [done|done|done| | |].
    + rewrite Hnx, decide_False, decide_True by done. unfold lnx. by rewrite He.
    + by rewrite Hnx, decide_True.
    + intros c Hcn Hce. by rewrite Hnx, !decide_False.
  - rewrite Hown. rewrite (Permutation_swap n e os2). by rewrite <- Permutation_middle.
  - specialize (Hh r Hr). rewrite Hown, HA in Hh.
    replace (os1 ++ e :: os2) with ((os1 ++ [e]) ++ os2) in Hh by (by rewrite <- app_assoc).
    replace (os1 ++ e :: n :: os2) with ((os1 ++ [e]) ++ n :: os2) by (by rewrite <- app_assoc).
    assert (∀ b a, b ≠ n → holds l b a → holds (<[e:=link_next (Some n) ke]> l1) b a) as Hhold.
    { intros b a Hbn Hba. apply holds_link_next.
      - subst l1. by rewrite list_lookup_insert_ne.
      - subst l1. by apply holds_insert_ne. }
    apply Forall2_app_inv in Hh as [Hh1 Hh2]; [|rewrite length_app; simpl; lia].
    apply Forall2_app; [|constructor].
    + eapply Forall2_frame; [exact Hh1|]. intros b a Hin. apply Hhold. set_solver.
    + apply holds_link_next; [subst l1; by rewrite list_lookup_insert_ne|].
      eexists. subst l1. rewrite list_lookup_insert_eq by done. done.
    + eapply Forall2_frame; [exact Hh2|]. intros b a Hin. apply Hhold. set_solver.
  - intros y. destruct (decide (y = r)) as [->|Hyr].
    + rewrite upd_same, Hhead. by apply upd_other.
    + by rewrite (upd_other (upd _ _ _)).
  - intros y Hy. done.
Qed.
End New.

(** ** Insertion in order of [x] *)

Lemma link_point_spec l key os : ∀ fuel prev node as_,
  chain (lnx l) node os → Forall2 (holds l) os as_ → (length os ≤ fuel)%nat →
  ∃ os1 os2 as1 as2, os = os1 ++ os2 ∧ as_ = as1 ++ as2 ∧ length os1 = length as1 ∧
    link_point fuel l key prev node = Ok (match last os1 with Some b => Some b | None => prev end) ∧
    Forall (λ a, a_x a < key) as1 ∧ (∀ a, head as2 = Some a → ¬ a_x a < key).
Proof.
  induction os as [|b os IH]; intros fuel prev node as_ Hc Hh Hf; simpl in Hc.
  - subst node. inversion Hh; subst. exists [], [], [], []. repeat split; [by destruct fuel|constructor|done].
  - destruct Hc as [-> Hc]. inversion Hh as [|? a ? as' (k & Hk & Hrs & Ht & Hx) Hh' Heq1 Heq2]; subst.
    destruct (decide (l_x k < key)) as [Hlt|Hge].
    + destruct fuel as [|fuel]; [simpl in Hf; lia|]. unfold lnx in Hc at 2. rewrite Hk in Hc.
      destruct (IH fuel (Some b) (l_next k) as' Hc Hh') as (os1 & os2 & as1 & as2 & -> & -> & Hl & Hrun & H1 & H2);
        [simpl in Hf; lia|].
      exists (b :: os1), os2, (a :: as1), as2. split; [done|]. split; [done|]. split; [simpl; by rewrite Hl|].
      split; [|split; [|done]].
      * simpl. unfold vget. rewrite Hk. simpl. rewrite bool_decide_true by done. rewrite Hrun.
        f_equal. rewrite last_cons. by destruct (last os1).
      * constructor; [by rewrite <- Hx|done].
    + exists [], (b :: os), [], (a :: as'). split; [done|]. split; [done|]. split; [done|].
      split; [|split; [constructor|]].
      * destruct fuel; simpl; unfold vget; rewrite Hk; simpl; by rewrite bool_decide_false.
      * intros a' [= <-]. by rewrite <- Hx.
Qed.

Lemma own_head l hd A own y m : pool_own l hd A own → hd y = Some m → m ∈ own y.
Proof.
  intros Hpool Hm. pose proof (own_chain _ _ _ _ Hpool y) as Hc. rewrite Hm in Hc.
  destruct (own y) as [|b bs]; [done|]. destruct Hc as [[= ->] _]. set_solver.
Qed.

(** The search in the links where the new one is already filled in, and the result of
    linking it there. *)
Lemma pool_insert l hd A r n p tag x key :
  pool l hd A → r ≠ RFree → hd RFree = Some n →
  ∃ k prev as1 as2, l !! n = Some k ∧
    link_point (length l) (<[n := mkLink None (Some p) tag x]> l) key None (hd r) = Ok prev ∧
    A r = as1 ++ as2 ∧ Forall (λ a, a_x a < key) as1 ∧ (∀ a, head as2 = Some a → ¬ a_x a < key) ∧
    (∀ y m, y ≠ RFree → y ≠ r → hd y = Some m → m ≠ n ∧ prev ≠ Some m) ∧
    match prev with
    | None => as1 = [] ∧
        pool (<[n := mkLink (hd r) (Some p) tag x]> l) (upd (upd hd RFree (l_next k)) r (Some n))
          (upd A r (as1 ++ (p, tag, x) :: as2))
    | Some e => ∃ ke, e ≠ n ∧ l !! e = Some ke ∧
        pool (<[e := link_next (Some n) ke]> (<[n := mkLink (l_next ke) (Some p) tag x]> l))
          (upd hd RFree (l_next k)) (upd A r (as1 ++ (p, tag, x) :: as2))
    end.
Proof.
  intros [own Hpool] Hr Hfree.
  destruct (free_first l hd A own Hpool r n p tag x Hr Hfree) as (k & fs & Hk & Hown & _).
  assert (n ∉ own r) as Hnr by (by apply (free_alone l hd A own Hpool r n p tag x Hr Hfree)).
  set (l1 := <[n := mkLink None (Some p) tag x]> l).
  destruct (link_point_spec l1 key (own r) (length l) None (hd r) (A r))
    as (os1 & os2 & as1 & as2 & Hos & Has & Hlen & Hrun & H1 & H2).
  - eapply chain_ext; [|apply (own_chain _ _ _ _ Hpool r)]. intros b Hin. unfold lnx. subst l1.
    rewrite list_lookup_insert_ne; [done|]. by intros ->.
  - eapply Forall2_frame; [by apply (own_holds _ _ _ _ Hpool r)|]. intros b a Hin.
    apply holds_insert_ne. by intros ->.
  - apply nodup_lt_length; [apply (own_nodup _ _ _ _ Hpool)|]. apply Forall_forall.
    intros b. apply (own_bound _ _ _ _ Hpool).
  - exists k, (last os1), as1, as2. split; [done|].
    split; [rewrite Hrun; by destruct (last os1)|]. split; [done|]. split; [done|]. split; [done|].
    split.
    { intros y m Hy Hyr Hm. pose proof (own_head _ _ _ _ y m Hpool Hm) as Hin. split.
      - intros ->. apply Hy. apply (own_disj _ _ _ _ Hpool y RFree n Hin). rewrite Hown. set_solver.
      - intros Hl. apply Hyr. apply (own_disj _ _ _ _ Hpool y r m Hin). rewrite Hos, elem_of_app. left.
        by apply last_Some_elem_of. }
    destruct os1 as [|e os1 _] using rev_ind; [|rewrite last_snoc].
    + destruct as1; [|done]. split; [done|]. simpl in Has. rewrite <- Has. by eapply own_push.
    + assert (e ∈ own r) as Hin by (rewrite Hos; set_solver).
      destruct (lookup_lt_is_Some_2 l e) as [ke Hke]; [by apply (own_bound _ _ _ _ Hpool r)|].
      exists ke. split; [by intros ->|]. split; [done|].
      eapply (own_after l hd A own Hpool r n p tag x Hr Hfree k e ke os1 os2); [done| |done|done|].
      * by rewrite Hos, <- app_assoc.
      * rewrite length_app in Hlen. simpl in Hlen. lia.
Qed.

Lemma pool_push l hd A r n p tag x :
  pool l hd A → r ≠ RFree → hd RFree = Some n →
  ∃ k, l !! n = Some k ∧
    pool (<[n := mkLink (hd r) (Some p) tag x]> l) (upd (upd hd RFree (l_next k)) r (Some n))
      (upd A r ((p, tag, x) :: A r)).
Proof.
  intros [own Hpool] Hr Hfree.
  destruct (free_first l hd A own Hpool r n p tag x Hr Hfree) as (k & fs & Hk & Hown & _).
  exists k. split; [done|]. by eapply own_push.
Qed.
