(* ===== verification/RuuPool.v ===== *)
(** * The queues of the core over the pool of links

    The effect of queueing, of taking the next event, and of freeing links on the
    abstract lists. *)

From S2P Require Import Prelude Misc Chains Bpred Resource Ruu RuuStages RuuSched Pool.

(** ** Computations that may run out of links *)

(** [m] ends in a state that satisfies [Φ], or in a fault that [F] allows. *)
Definition wp {X} (F : fault → Prop) (m : result X) (Φ : X → Prop) : Prop :=
  match m with Ok a => Φ a | Fault f => F f end.

Definition out_of_links (f : fault) : Prop := f = Panic "out of rs links".

Lemma wp_bind {X Y} F (m : result X) (k : X → result Y) Φ :
  wp F m (λ a, wp F (k a) Φ) → wp F (m ≫= k) Φ.
Proof. by destruct m. Qed.

Lemma wp_mono {X} (F F' : fault → Prop) (m : result X) (Φ Ψ : X → Prop) :
  wp F m Φ → (∀ f, F f → F' f) → (∀ a, Φ a → Ψ a) → wp F' m Ψ.
Proof. destruct m; simpl; auto. Qed.

(** ** Heads *)

Definition station (w : window) (p : rs_ptr) : option RUU_station :=
  match p with InRUU i => RUU w !! i | InLSQ i => LSQ w !! i end.

Definition odep_head (w : window) (p : rs_ptr) (k : nat) : option nat :=
  match station w p with Some rs => default None (odep_list rs !! k) | None => None end.

(** Where the lists start; [wk] is the list being walked, [ex] a list of consumers whose
    pointer is not up to date. *)
Definition heads (q : queues) (w : window) (ex : option (rs_ptr * nat)) (wk : option nat)
    (r : root) : option nat :=
  match r with
  | RFree => rslink_free_list q
  | REvent => event_queue q
  | RReady => ready_queue q
  | RWork => wk
  | ROdep p k => if decide (ex = Some (p, k)) then None else odep_head w p k
  end.

Definition pool_of (q : queues) (w : window) (ex : option (rs_ptr * nat)) (wk : option nat)
    (A : root → list alink) : Prop := pool (links q) (heads q w ex wk) A.

Lemma get_rs_Ok w p rs : get_rs w p = Ok rs ↔ station w p = Some rs.
Proof. destruct p; apply vget_Ok. Qed.

Lemma get_rs_station w p rs : station w p = Some rs → get_rs w p = Ok rs.
Proof. apply get_rs_Ok. Qed.

(** ** Updating a station *)

Lemma upd_rs_station w p f rs :
  station w p = Some rs →
  ∃ w', upd_rs w p f = Ok w' ∧ (∀ p', station w' p' = if decide (p' = p) then Some (f rs) else station w p') ∧
    RUU_head w' = RUU_head w ∧ RUU_tail w' = RUU_tail w ∧ RUU_num w' = RUU_num w ∧
    LSQ_head w' = LSQ_head w ∧ LSQ_tail w' = LSQ_tail w ∧ LSQ_num w' = LSQ_num w ∧
    length (RUU w') = length (RUU w) ∧ length (LSQ w') = length (LSQ w).
Proof.
  intros Hp. destruct p as [i|i]; cbn in Hp; cbn [upd_rs]; unfold vupd;
    rewrite (proj2 (vget_Ok _ _ _) Hp); cbn [mbind result_bind];
    eexists; (split; [reflexivity|]); (split; [|cbn; by rewrite length_insert]);
    intros [j|j]; cbn; case_decide as Hd; simplify_eq; try done.
  all: try (rewrite list_lookup_insert_eq by (by eapply lookup_lt_Some); done).
  all: rewrite list_lookup_insert_ne; [done|congruence].
Qed.

(** What an update of a station keeps of a window. *)
Definition same_frame (w w' : window) : Prop :=
  RUU_head w' = RUU_head w ∧ RUU_tail w' = RUU_tail w ∧ RUU_num w' = RUU_num w ∧
  LSQ_head w' = LSQ_head w ∧ LSQ_tail w' = LSQ_tail w ∧ LSQ_num w' = LSQ_num w ∧
  length (RUU w') = length (RUU w) ∧ length (LSQ w') = length (LSQ w).

Lemma same_frame_refl w : same_frame w w.
Proof. by repeat split. Qed.

Lemma same_frame_trans w1 w2 w3 : same_frame w1 w2 → same_frame w2 w3 → same_frame w1 w3.
Proof. unfold same_frame. intuition congruence. Qed.

Section Queues.
Context {MS : Type}.
Implicit Types c : core MS.

Lemma upd_station_spec c p f rs :
  station (win c) p = Some rs →
  ∃ w', upd_station c p f = Ok (set_win w' c) ∧ same_frame (win c) w' ∧
    (∀ p', station w' p' = if decide (p' = p) then Some (f rs) else station (win c) p').
Proof.
  intros Hp. destruct (upd_rs_station _ _ f _ Hp) as (w' & Hw & Hst & Hfr).
  exists w'. unfold upd_station. rewrite Hw. done.
Qed.

Lemma heads_station q w w' ex wk r :
  (∀ p, odep_list <$> station w' p = odep_list <$> station w p) → heads q w' ex wk r = heads q w ex wk r.
Proof.
  intros Ho. destruct r; cbn; try done. case_decide; [done|]. unfold odep_head. specialize (Ho p).
  destruct (station w p), (station w' p); cbn in Ho; simplify_eq; congruence.
Qed.

(** ** New links *)

Lemma RSLINK_NEW_spec q p tag x :
  match rslink_free_list q with
  | None => RSLINK_NEW q p tag x = Fault (Panic "out of rs links")
  | Some n => ∀ k, links q !! n = Some k →
      RSLINK_NEW q p tag x
      = Ok (n, set_free_list (l_next k) (set_links (<[n := mkLink None (Some p) tag x]> (links q)) q))
  end.
Proof.
  unfold RSLINK_NEW. destruct (rslink_free_list q) as [n|]; [|done]. intros k Hk.
  unfold vget, vset. by rewrite Hk.
Qed.

Lemma set_link_next_insert q n k o l :
  links q = <[n := k]> l → (n < length l)%nat →
  set_link_next q n o = Ok (set_links (<[n := link_next o k]> l) q).
Proof.
  intros Hl Hn. unfold set_link_next, vupd, vget. rewrite Hl, list_lookup_insert_eq by done.
  cbn. by rewrite list_insert_insert_eq.
Qed.

Lemma set_link_next_ne q n k e ke o l :
  links q = <[n := k]> l → e ≠ n → l !! e = Some ke →
  set_link_next q e o = Ok (set_links (<[e := link_next o ke]> (<[n := k]> l)) q).
Proof.
  intros Hl Hne He. unfold set_link_next, vupd, vget. by rewrite Hl, list_lookup_insert_ne, He.
Qed.

(** The code that both queues share: a link is put before [prev]'s successor, or in
    front of the list that [put] sets. *)
Definition insert_link (q : queues) (n : nat) (hd prev : option nat)
    (put : option nat → queues → queues) : result queues :=
  match prev with
  | Some e =>
      k ← vget (links q) e;
      q ← set_link_next q n (l_next k);
      set_link_next q e (Some n)
  | None => q ← set_link_next q n hd; Ok (put (Some n) q)
  end.

Definition puts (r : root) (put : option nat → queues → queues) : Prop :=
  (∀ o q, links (put o q) = links q) ∧
  (∀ o q w ex wk y, heads (put o q) w ex wk y = if decide (y = r) then o else heads q w ex wk y).

Lemma puts_event : puts REvent set_event_queue.
Proof. split; [done|]. intros o q w ex wk [| | | |p k]; cbn; by repeat case_decide. Qed.
Lemma puts_ready : puts RReady set_ready_queue.
Proof. split; [done|]. intros o q w ex wk [| | | |p k]; cbn; by repeat case_decide. Qed.

(** The links at the heads of the other lists are as before. *)
Definition heads_kept (q q' : queues) (w : window) (ex : option (rs_ptr * nat)) (wk : option nat)
    (r : root) : Prop :=
  ∀ y m, y ≠ RFree → y ≠ r → heads q w ex wk y = Some m → links q' !! m = links q !! m.

Lemma insert_link_spec q w ex wk A r put p tag x key n :
  pool_of q w ex wk A → r ≠ RFree → puts r put → rslink_free_list q = Some n →
  ∃ q1, RSLINK_NEW q p tag x = Ok (n, q1) ∧ heads q1 w ex wk r = heads q w ex wk r ∧
    (∃ q', insert_link q1 n (heads q w ex wk r) None put = Ok q' ∧
       heads_kept q q' w ex wk r ∧ pool_of q' w ex wk (upd A r ((p, tag, x) :: A r))) ∧
    ∃ prev as1 as2 q',
      link_point (length (links q1)) (links q1) key None (heads q w ex wk r) = Ok prev ∧
      insert_link q1 n (heads q w ex wk r) prev put = Ok q' ∧
      A r = as1 ++ as2 ∧ Forall (λ a, a_x a < key) as1 ∧
      (∀ a, head as2 = Some a → ¬ a_x a < key) ∧
      heads_kept q q' w ex wk r ∧ pool_of q' w ex wk (upd A r (as1 ++ (p, tag, x) :: as2)).
Proof.
  intros Hpool Hr [Hput1 Hput2] Hfree.
  assert (Hhd : heads q w ex wk RFree = Some n) by exact Hfree.
  destruct (pool_push _ _ _ _ n p tag x Hpool Hr Hhd) as (k0 & Hk0 & Hpush).
  destruct (pool_insert _ _ _ _ n p tag x key Hpool Hr Hhd) as (k & prev & as1 & as2 & Hk & Hpt & HA & H1 & H2 & Hkept & Hins).
  replace k0 with k in * by congruence.
  pose proof (RSLINK_NEW_spec q p tag x) as Hnew. rewrite Hfree in Hnew. specialize (Hnew k Hk).
  assert (n < length (links q))%nat as Hlt by (by eapply lookup_lt_Some).
  set (q1 := set_free_list (l_next k) (set_links (<[n := mkLink None (Some p) tag x]> (links q)) q)) in *.
  assert (∀ y, heads q1 w ex wk y = if decide (y = RFree) then l_next k else heads q w ex wk y) as Hq1.
  { intros [| | | |pp kk]; cbn; by repeat case_decide. }
  assert (∀ l' y, heads (set_links l' q1) w ex wk y = heads q1 w ex wk y) as Hsl by (by intros l' []).
  assert (∀ hd', set_link_next q1 n hd' = Ok (set_links (<[n := mkLink hd' (Some p) tag x]> (links q)) q1)) as Hset.
  { intros hd'. rewrite (set_link_next_insert q1 n (mkLink None (Some p) tag x) hd' (links q)) by done. done. }
  assert (∃ q', insert_link q1 n (heads q w ex wk r) None put = Ok q' ∧
       heads_kept q q' w ex wk r ∧ pool_of q' w ex wk (upd A r ((p, tag, x) :: A r))) as Hfront.
  { cbn. rewrite Hset. cbn. eexists. split; [done|]. split.
    { intros y m Hy Hyr Hm. rewrite Hput1. cbn. destruct (Hkept y m Hy Hyr Hm) as [Hmn _].
      by rewrite list_lookup_insert_ne. }
    unfold pool_of. rewrite Hput1.
    eapply pool_ext; [exact Hpush| |done]. intros y. rewrite Hput2, Hsl, Hq1. unfold upd.
    case_decide; [done|]. by case_decide. }
  exists q1. split; [exact Hnew|]. split; [by rewrite Hq1, decide_False|]. split; [exact Hfront|].
  exists prev, as1, as2. destruct prev as [e|].
  - destruct Hins as (ke & Hen & Hke & Hins). cbn [insert_link].
    replace (vget (links q1) e) with (Ok ke)
      by (symmetry; apply vget_Ok; cbn; by rewrite list_lookup_insert_ne).
    cbn [mbind result_bind]. rewrite Hset. cbn [mbind result_bind].
    rewrite (set_link_next_ne _ n (mkLink (l_next ke) (Some p) tag x) e ke (Some n) (links q)) by done.
    eexists. split; [by rewrite <- Hpt; cbn; rewrite length_insert|]. split; [done|].
    do 3 (split; [done|]). split.
    { intros y m Hy Hyr Hm. destruct (Hkept y m Hy Hyr Hm) as [Hmn Hme]. cbn.
      rewrite list_lookup_insert_ne by congruence. by rewrite list_lookup_insert_ne. }
    eapply pool_ext; [exact Hins| |done].
    intros y. transitivity (heads q1 w ex wk y); [by destruct y|]. by rewrite Hq1.
  - destruct Hins as [-> Hins]. destruct Hfront as (q' & Hq' & Hkp & Hp'). exists q'.
    split; [by rewrite <- Hpt; cbn; rewrite length_insert|]. split; [done|]. simpl in HA.
    do 4 (split; [done|]). simpl. by rewrite <- HA.
Qed.
End Queues.

(** ** Queueing *)

Section Ops.
Context {MS : Type}.
Implicit Types c : core MS.

Lemma eventq_queue_event_unfold c p when :
  eventq_queue_event c p when =
    rs ← get_rs (win c) p;
    if completed rs then Fault (Panic "event completed") else
    if bool_decide (when ≤ sim_cycle (mach c)) then Fault (Panic "event occurred in the past") else
    '(n, q) ← RSLINK_NEW (qs c) p (rs_tag rs) when;
    prev ← link_point (length (links q)) (links q) when None (event_queue q);
    q ← insert_link q n (event_queue q) prev set_event_queue; Ok (set_qs q c).
Proof.
  unfold eventq_queue_event. destruct (get_rs (win c) p) as [rs|]; [|done]. cbn.
  destruct (completed rs); [done|]. case_bool_decide; [done|].
  destruct (RSLINK_NEW _ _ _ _) as [[n q]|]; [|done]. cbn.
  destruct (link_point _ _ _ _ _) as [[e|]|]; [| |done]; cbn.
  - destruct (vget _ _); [|done]. cbn. destruct (set_link_next _ _ _); [|done]. cbn. by destruct (set_link_next _ _ _).
  - by destruct (set_link_next _ _ _).
Qed.

(** An event is queued in order of time, unless the links are used up. *)
Lemma eventq_queue_event_spec c ex wk A p when rs :
  pool_of (qs c) (win c) ex wk A → station (win c) p = Some rs → completed rs = false →
  sim_cycle (mach c) < when →
  wp out_of_links (eventq_queue_event c p when) (λ c', ∃ q as1 as2, c' = set_qs q c ∧
    A REvent = as1 ++ as2 ∧ Forall (λ a, a_x a < when) as1 ∧
    (∀ a, head as2 = Some a → ¬ a_x a < when) ∧
    pool_of q (win c) ex wk (upd A REvent (as1 ++ (p, rs_tag rs, when) :: as2)) ∧
    heads_kept (qs c) q (win c) ex wk REvent).
Proof.
  intros Hpool Hp Hc Hw. rewrite eventq_queue_event_unfold, (get_rs_station _ _ _ Hp).
  cbn [mbind result_bind]. rewrite Hc, bool_decide_false by lia.
  destruct (rslink_free_list (qs c)) as [n|] eqn:Hfree.
  - destruct (insert_link_spec (qs c) (win c) ex wk A REvent set_event_queue p (rs_tag rs) when when n)
      as (q1 & Hnew & Hhd & _ & prev & as1 & as2 & q' & Hpt & Hins & HA & H1 & H2 & Hkp & Hp');
      [done|done|apply puts_event|done|].
    rewrite Hnew. cbn [mbind result_bind]. change (event_queue q1) with (heads q1 (win c) ex wk REvent).
    rewrite Hhd, Hpt. cbn [mbind result_bind]. rewrite Hins. cbn. exists q', as1, as2. by split_and!.
  - pose proof (RSLINK_NEW_spec (qs c) p (rs_tag rs) when) as Hnew. rewrite Hfree in Hnew.
    by rewrite Hnew.
Qed.

(** Loads, stores, long latency and control operations go to the front. *)
Definition in_front (rs : RUU_station) : bool :=
  in_LSQ (rs_inst_of rs) || any_flag (rs_op (rs_inst_of rs)) (Z.lor F_LONGLAT F_CTRL).

Lemma readyq_enqueue_unfold c p :
  readyq_enqueue c p =
    rs ← get_rs (win c) p;
    if queued rs then Fault (Panic "node is already queued") else
    c ← upd_station c p (set_queued true);
    '(n, q) ← RSLINK_NEW (qs c) p (rs_tag rs) (rs_seq (rs_inst_of rs));
    prev ← (if in_front rs then Ok None
            else link_point (length (links q)) (links q) (rs_seq (rs_inst_of rs)) None (ready_queue q));
    q ← insert_link q n (ready_queue q) prev set_ready_queue; Ok (set_qs q c).
Proof.
  unfold readyq_enqueue. destruct (get_rs (win c) p) as [rs|]; [|done]. cbn.
  destruct (queued rs); [done|]. destruct (upd_station _ _ _) as [c1|]; [|done]. cbn.
  destruct (RSLINK_NEW _ _ _ _) as [[n q]|]; [|done]. cbn. fold (in_front rs).
  destruct (if in_front rs then _ else _) as [[e|]|]; [| |done]; cbn.
  - destruct (vget _ _); [|done]. cbn. destruct (set_link_next _ _ _); [|done]. cbn. by destruct (set_link_next _ _ _).
  - by destruct (set_link_next _ _ _).
Qed.

(** The ready queue after an operation [p] with sequence number [seq] is queued. *)
Definition ready_insert (front : bool) (a : alink) (l l' : list alink) : Prop :=
  ∃ as1 as2, l = as1 ++ as2 ∧ l' = as1 ++ a :: as2 ∧
    if front then as1 = []
    else Forall (λ b, a_x b < a_x a) as1 ∧ (∀ b, head as2 = Some b → ¬ a_x b < a_x a).

Lemma readyq_enqueue_spec c ex wk A p rs :
  pool_of (qs c) (win c) ex wk A → station (win c) p = Some rs → queued rs = false →
  wp out_of_links (readyq_enqueue c p) (λ c', ∃ q w l', c' = set_qs q (set_win w c) ∧
    same_frame (win c) w ∧
    (∀ p', station w p' = if decide (p' = p) then Some (set_queued true rs) else station (win c) p') ∧
    ready_insert (in_front rs) (p, rs_tag rs, rs_seq (rs_inst_of rs)) (A RReady) l' ∧
    pool_of q w ex wk (upd A RReady l') ∧
    (∀ m, wk = Some m → links q !! m = links (qs c) !! m)).
Proof.
  intros Hpool Hp Hq. rewrite readyq_enqueue_unfold, (get_rs_station _ _ _ Hp).
  cbn [mbind result_bind]. rewrite Hq.
  destruct (upd_station_spec c p (set_queued true) rs Hp) as (w & -> & Hfr & Hst). cbn [mbind result_bind].
  change (qs (set_win w c)) with (qs c).
  assert (pool_of (qs c) w ex wk A) as Hpool'.
  { eapply pool_ext; [exact Hpool| |done]. intros y. apply heads_station. intros p'. rewrite Hst.
    case_decide; [subst p'; by rewrite Hp|done]. }
  destruct (rslink_free_list (qs c)) as [n|] eqn:Hfree.
  - destruct (insert_link_spec (qs c) w ex wk A RReady set_ready_queue p (rs_tag rs)
      (rs_seq (rs_inst_of rs)) (rs_seq (rs_inst_of rs)) n)
      as (q1 & Hnew & Hhd & (q0 & Hins0 & Hkp0 & Hp0) & prev & as1 & as2 & q' & Hpt & Hins & HA & H1 & H2 & Hkp & Hp');
      [done|done|apply puts_ready|done|].
    rewrite Hnew. cbn [mbind result_bind]. change (ready_queue q1) with (heads q1 w ex wk RReady).
    rewrite Hhd. destruct (in_front rs) eqn:Hfront.
    + cbn [mbind result_bind]. rewrite Hins0. cbn. exists q0, w, ((p, rs_tag rs, rs_seq (rs_inst_of rs)) :: A RReady).
      do 3 (split; [done|]). split; [by exists [], (A RReady)|]. split; [done|]. intros m Hm. by apply (Hkp0 RWork).
    + rewrite Hpt. cbn [mbind result_bind]. rewrite Hins. cbn.
      exists q', w, (as1 ++ (p, rs_tag rs, rs_seq (rs_inst_of rs)) :: as2).
      do 3 (split; [done|]). split; [by exists as1, as2|]. split; [done|]. intros m Hm. by apply (Hkp RWork).
  - pose proof (RSLINK_NEW_spec (qs c) p (rs_tag rs) (rs_seq (rs_inst_of rs))) as Hnew.
    rewrite Hfree in Hnew. by rewrite Hnew.
Qed.

(** ** Taking links out *)

(** A link's instance is still in its station. *)
Definition valid (w : window) (a : alink) : Prop :=
  rs_tag <$> station w (a_rs a) = Some (a_tag a).
#[global] Instance valid_dec w a : Decision (valid w a).
Proof. unfold valid. apply _. Defined.

Definition targets_exist (w : window) (l : list alink) : Prop :=
  Forall (λ a, is_Some (station w (a_rs a))) l.

Lemma RSLINK_VALID_spec w k a :
  l_rs k = Some (a_rs a) → l_tag k = a_tag a → is_Some (station w (a_rs a)) →
  RSLINK_VALID w k = Ok (bool_decide (valid w a)).
Proof.
  intros Hrs Ht [rs Hst]. unfold RSLINK_VALID, valid. rewrite Hrs. cbn.
  rewrite (get_rs_station _ _ _ Hst). cbn. rewrite Ht. f_equal.
  apply bool_decide_ext. rewrite Hst. cbn. split; [by intros ->|by intros [= ->]].
Qed.

Lemma RSLINK_FREE_spec q w ex wk A r n :
  pool_of q w ex wk A → r ≠ RFree → heads q w ex wk r = Some n →
  ∃ k a rest q', links q !! n = Some k ∧ A r = a :: rest ∧
    l_rs k = Some (a_rs a) ∧ l_tag k = a_tag a ∧ l_x k = a_x a ∧ RSLINK_FREE q n = Ok q' ∧
    event_queue q' = event_queue q ∧ ready_queue q' = ready_queue q ∧
    pool (links q') (upd (upd (heads q w ex wk) RFree (Some n)) r (l_next k)) (upd A r rest) ∧
    rslink_free_list q' = Some n.
Proof.
  intros Hpool Hr Hn. destruct (pool_free_head _ _ _ _ _ Hpool Hr Hn) as (k & a & rest & Hk & HA & Hrs & Ht & Hx & Hp').
  exists k, a, rest. eexists. do 5 (split; [done|]). split.
  { unfold RSLINK_FREE, vget, vset. rewrite Hk. cbn. reflexivity. }
  done.
Qed.

(** The events that are due, up to the first one that still is for its instruction. *)
Fixpoint next_event (w : window) (now : Z) (l : list alink) : option rs_ptr * list alink :=
  match l with
  | [] => (None, [])
  | a :: l' =>
      if bool_decide (a_x a ≤ now) then
        if bool_decide (valid w a) then (Some (a_rs a), l') else next_event w now l'
      else (None, l)
  end.

Lemma eventq_next_loop_spec ex wk l : ∀ fuel c A,
  pool_of (qs c) (win c) ex wk A → A REvent = l → targets_exist (win c) l → (length l ≤ fuel)%nat →
  ∃ q, eventq_next_loop fuel c = Ok ((next_event (win c) (sim_cycle (mach c)) l).1, set_qs q c) ∧
    pool_of q (win c) ex wk (upd A REvent (next_event (win c) (sim_cycle (mach c)) l).2).
Proof.
  induction l as [|a l IH]; intros fuel c A Hpool HA Ht Hf.
  - assert (event_queue (qs c) = None) as He by (by apply (pool_nil _ _ _ REvent Hpool)).
    exists (qs c). split; [destruct fuel; cbn; rewrite He; by destruct c|].
    eapply pool_ext; [exact Hpool|done|]. intros r Hr. unfold upd. case_decide; [by subst|done].
  - destruct (event_queue (qs c)) as [n|] eqn:He.
    2: { apply (pool_nil _ _ _ REvent Hpool) in He; [congruence|done]. }
    apply Forall_cons in Ht as [Hta Ht].
    destruct (RSLINK_FREE_spec (qs c) (win c) ex wk A REvent n Hpool) as
      (k & a' & rest & q' & Hk & HA' & Hrs & Htag & Hx & Hfree & Hev & Hrd & Hp' & Hfl); [done|done|].
    rewrite HA in HA'. injection HA' as <- <-.
    assert (∃ q2, RSLINK_FREE (set_event_queue (l_next k) (qs c)) n = Ok q2 ∧
      pool_of q2 (win c) ex wk (upd A REvent l)) as (q2 & Hf2 & Hp2).
    { unfold RSLINK_FREE in Hfree |- *. cbn [links set_event_queue]. rewrite (proj2 (vget_Ok _ _ _) Hk) in Hfree |- *.
      cbn [mbind result_bind] in Hfree |- *. unfold vset in Hfree |- *. rewrite Hk in Hfree |- *.
      cbn in Hfree |- *. injection Hfree as <-. eexists. split; [reflexivity|].
      eapply pool_ext; [exact Hp'| |done]. intros r. unfold upd. destruct r; cbn; by repeat case_decide. }
    assert (∀ fuel', eventq_next_loop fuel' c =
      if bool_decide (a_x a ≤ sim_cycle (mach c)) then
        if bool_decide (valid (win c) a) then Ok (Some (a_rs a), set_qs q2 c)
        else match fuel' with O => Fault OutOfFuel | S f => eventq_next_loop f (set_qs q2 c) end
      else Ok (None, c)) as Hstep.
    { intros fuel'. destruct fuel' as [|f]; cbn [eventq_next_loop]; rewrite He, (proj2 (vget_Ok _ _ _) Hk);
        cbn [mbind result_bind]; rewrite Hx; (case_bool_decide; [|done]);
        rewrite (RSLINK_VALID_spec _ _ a Hrs Htag Hta); cbn [mbind result_bind]; rewrite Hf2;
        cbn [mbind result_bind]; by rewrite Hrs. }
    rewrite Hstep. cbn [next_event]. case_bool_decide; [|].
    + case_bool_decide; [by exists q2|]. destruct fuel as [|fuel]; [simpl in Hf; lia|].
      destruct (IH fuel (set_qs q2 c) (upd A REvent l)) as (q3 & Hrun & Hp3); [done|apply upd_same|done|simpl in Hf; lia|].
      exists q3. split; [exact Hrun|]. eapply pool_ext; [exact Hp3|done|]. intros r Hr. unfold upd. by case_decide.
    + exists (qs c). split; [by destruct c|]. eapply pool_ext; [exact Hpool|done|].
      intros r Hr. unfold upd. case_decide; [by subst|done].
Qed.

Lemma eventq_next_event_spec c ex wk A :
  pool_of (qs c) (win c) ex wk A → targets_exist (win c) (A REvent) →
  ∃ q, eventq_next_event c = Ok ((next_event (win c) (sim_cycle (mach c)) (A REvent)).1, set_qs q c) ∧
    pool_of q (win c) ex wk (upd A REvent (next_event (win c) (sim_cycle (mach c)) (A REvent)).2).
Proof.
  intros Hpool Ht. eapply eventq_next_loop_spec; [done|done|done|].
  eapply pool_length; [exact Hpool|done].
Qed.
End Ops.
