(* ===== verification/RuuInv.v ===== *)
(** * The invariant of the out-of-order core

    The shape of the two circular buffers and how they go together, and what the
    lists of links say about the instructions in flight. *)

From S2P Require Import Prelude Misc Chains Bpred Resource Ruu RuuStages RuuSched RuuFront Pool RuuPool.

(** ** Circular buffers *)

Definition slot (size h i : nat) : nat := (h + i) mod size.

Lemma slot_lt size h i : (0 < size)%nat → (slot size h i < size)%nat.
Proof. intros. apply Nat.mod_upper_bound. lia. Qed.

Lemma slot_inj size h i j :
  (i < size)%nat → (j < size)%nat → slot size h i = slot size h j → i = j.
Proof.
  unfold slot. intros Hi Hj He.
  assert (∀ a b, (a ≤ b < size)%nat → ((h + a) mod size = (h + b) mod size)%nat → a = b) as Hle.
  { intros a b Hab Heq. pose proof (Nat.div_mod_eq (h + a) size). pose proof (Nat.div_mod_eq (h + b) size).
    rewrite Heq in *. assert ((h + b) / size = (h + a) / size)%nat by nia. nia. }
  destruct (decide (i ≤ j)%nat); [by apply Hle|]. symmetry. apply Hle; [lia|done].
Qed.

Lemma slot_0 size h : (h < size)%nat → slot size h 0 = h.
Proof. intros. unfold slot. rewrite Nat.add_0_r. by apply Nat.mod_small. Qed.

Lemma next_slot_slot size h i : next_slot size (slot size h i) = slot size h (S i).
Proof. unfold next_slot, slot. rewrite Nat.Div0.add_mod_idemp_l. f_equal. lia. Qed.

Lemma slot_next size h i : slot size (next_slot size h) i = slot size h (S i).
Proof. unfold next_slot, slot. rewrite Nat.Div0.add_mod_idemp_l. f_equal. lia. Qed.

Lemma prev_slot_slot size h i : (0 < size)%nat → prev_slot size (slot size h (S i)) = slot size h i.
Proof.
  intros. unfold prev_slot, slot. rewrite Nat.Div0.add_mod_idemp_l.
  replace (h + S i + (size - 1))%nat with (h + i + 1 * size)%nat by lia.
  by rewrite Nat.Div0.mod_add.
Qed.

(** The slots in use, oldest first. *)
Definition slots (size h n : nat) : list nat := slot size h <$> seq 0 n.

Lemma elem_of_slots size h n s : s ∈ slots size h n ↔ ∃ i, (i < n)%nat ∧ s = slot size h i.
Proof.
  unfold slots. rewrite list_elem_of_fmap. setoid_rewrite elem_of_seq.
  split; intros (i & H1 & H2); exists i; split; (lia || done).
Qed.

Lemma slots_S size h n : slots size h (S n) = slots size h n ++ [slot size h n].
Proof. unfold slots. by rewrite seq_S, fmap_app. Qed.

Lemma slots_cons size h n : slots size h (S n) = slot size h 0 :: slots size (next_slot size h) n.
Proof.
  unfold slots. cbn [seq]. rewrite fmap_cons. f_equal. rewrite <- fmap_S_seq, <- list_fmap_compose.
  apply list_fmap_ext. intros i x _. cbn. by rewrite slot_next.
Qed.

(** ** Shape *)

Section Inv.
Variable cf : config.

Definition ruu_slots (w : window) : list nat := slots (RUU_size cf) (RUU_head w) (RUU_num w).
Definition lsq_slots (w : window) : list nat := slots (LSQ_size cf) (LSQ_head w) (LSQ_num w).

(** The instances in flight. *)
Definition live (w : window) (p : rs_ptr) : Prop :=
  match p with InRUU s => s ∈ ruu_slots w | InLSQ s => s ∈ lsq_slots w end.

#[global] Instance live_dec w p : Decision (live w p).
Proof. destruct p; cbn; apply _. Defined.

(** What dispatch filled in, oldest first. *)
Definition insts_at (l : list RUU_station) (ss : list nat) : list rs_inst :=
  omap (λ s, rs_inst_of <$> l !! s) ss.
Definition rinsts (w : window) : list rs_inst := insts_at (RUU w) (ruu_slots w).
Definition linsts (w : window) : list rs_inst := insts_at (LSQ w) (lsq_slots w).

Record shape (w : window) : Prop := {
  sh_ruu : length (RUU w) = RUU_size cf;
  sh_lsq : length (LSQ w) = LSQ_size cf;
  sh_rpos : (0 < RUU_size cf)%nat;
  sh_lpos : (0 < LSQ_size cf)%nat;
  sh_rhead : (RUU_head w < RUU_size cf)%nat;
  sh_lhead : (LSQ_head w < LSQ_size cf)%nat;
  sh_rnum : (RUU_num w ≤ RUU_size cf)%nat;
  sh_lnum : (LSQ_num w ≤ LSQ_size cf)%nat;
  sh_rtail : RUU_tail w = slot (RUU_size cf) (RUU_head w) (RUU_num w);
  sh_ltail : LSQ_tail w = slot (LSQ_size cf) (LSQ_head w) (LSQ_num w);
  sh_sync : rs_spec_mode <$> base.filter (λ i, ea_comp i = true) (rinsts w) = rs_spec_mode <$> linsts w;
  sh_rin : Forall (λ i, in_LSQ i = false) (rinsts w);
  sh_lin : Forall (λ i, in_LSQ i = true) (linsts w);
  sh_len p rs : station w p = Some rs →
    length (onames rs) = MAX_ODEPS ∧ length (odep_list rs) = MAX_ODEPS ∧
    length (idep_ready rs) = MAX_IDEPS;
  sh_names p rs : station w p = Some rs → Forall (λ n, 0 ≤ n < Z.of_nat MD_TOTAL_REGS) (onames rs)
}.

(** ** Scheduling *)

(** The instances that the valid links of a list are for. *)
Definition targets (w : window) (l : list alink) : list rs_ptr := a_rs <$> base.filter (valid w) l.
Definition keys (w : window) (l : list alink) : list (rs_ptr * Z) :=
  (λ a, (a_rs a, a_x a)) <$> base.filter (valid w) l.

(** An output that is still to be produced; [bp] is the instance that is being broadcast,
    and the first output that is left. *)
Definition pending (bp : option (rs_ptr * nat)) (p : rs_ptr) (k : nat) (rs : RUU_station) : Prop :=
  completed rs = false ∨ ∃ i, bp = Some (p, i) ∧ (i ≤ k)%nat.

(** The links that wait for operands: the lists of consumers, and the part of a list that
    is still to be walked. *)
Definition consumers (A : root → list alink) (wo : list alink) (r : root) : list alink :=
  match r with ROdep _ _ => A r | RWork => wo | _ => [] end.

(** [wr] is the part of the ready list that issue still has to visit. *)
Record sched (w : window) (A : root → list alink) (wr wo : list alink)
    (bp : option (rs_ptr * nat)) : Prop := {
  sc_tag r a : r ≠ RFree → a ∈ A r → ∃ rs, station w (a_rs a) = Some rs ∧ a_tag a ≤ rs_tag rs;
  sc_live r a : r ≠ RFree → a ∈ A r → valid w a → live w (a_rs a);
  sc_ev a rs : a ∈ A REvent → valid w a → station w (a_rs a) = Some rs →
    issued rs = true ∧ completed rs = false;
  sc_ev_nodup : NoDup (targets w (A REvent));
  sc_rd a rs : a ∈ A RReady ++ wr → valid w a → station w (a_rs a) = Some rs → queued rs = true;
  sc_rd_nodup : NoDup (targets w (A RReady ++ wr));
  sc_wr a : a ∈ wr → a ∈ A RWork;
  sc_wo a : a ∈ wo → a ∈ A RWork;
  sc_od r a rs : a ∈ consumers A wo r → valid w a → station w (a_rs a) = Some rs →
    0 ≤ a_x a ∧ idep_ready rs !! Z.to_nat (a_x a) = Some false;
  sc_key_nodup r : NoDup (keys w (consumers A wo r));
  sc_key r r' x : x ∈ keys w (consumers A wo r) → x ∈ keys w (consumers A wo r') → r = r';
  sc_queued p rs : live w p → station w p = Some rs → queued rs = true →
    OPERANDS_READY rs = true ∧ issued rs = false;
  sc_issued p rs : live w p → station w p = Some rs → issued rs = true → OPERANDS_READY rs = true;
  sc_completed p rs : live w p → station w p = Some rs → completed rs = true → issued rs = true;
  sc_odep p k : A (ROdep p k) ≠ [] → ∃ rs n, station w p = Some rs ∧ live w p ∧
    pending bp p k rs ∧ onames rs !! k = Some n ∧ n ≠ NA
}.

(** ** Create vectors *)

Definition creator (v : create_vectors) (spec : bool) (n : nat) : CV_link :=
  if spec then
    match use_spec_cv v !! n with
    | Some true => default None (spec_create_vector v !! n)
    | _ => None
    end
  else default None (create_vector v !! n).

Record cv_ok (w : window) (v : create_vectors) (bp : option (rs_ptr * nat)) : Prop := {
  cv_len : length (use_spec_cv v) = MD_TOTAL_REGS ∧ length (create_vector v) = MD_TOTAL_REGS ∧
    length (spec_create_vector v) = MD_TOTAL_REGS ∧ length (create_vector_rt v) = MD_TOTAL_REGS ∧
    length (spec_create_vector_rt v) = MD_TOTAL_REGS;
  cv_creator spec n p k : creator v spec n = Some (p, k) → ∃ rs, station w p = Some rs ∧ live w p ∧
    pending bp p k rs ∧ onames rs !! k = Some (Z.of_nat n) ∧
    rs_spec_mode (rs_inst_of rs) = spec ∧ n ≠ 0%nat
}.

(** ** Speculation *)

(** The station at a position of the window. *)
Definition ruu_nth (w : window) (i : nat) : option RUU_station :=
  RUU w !! slot (RUU_size cf) (RUU_head w) i.

(** On the wrong path there is one unresolved mispredicted branch; what is younger is
    speculative, what is older is not. *)
Definition spec_ok (w : window) (spec : bool) : Prop :=
  if spec then
    ∃ j, (j < RUU_num w)%nat ∧ ∀ i rs, (i < RUU_num w)%nat → ruu_nth w i = Some rs →
      rs_spec_mode (rs_inst_of rs) = bool_decide (j < i)%nat ∧
      (recover_inst rs = true → completed rs = true ∨ i = j) ∧
      (i = j → recover_inst rs = true ∧ completed rs = false)
  else ∀ i rs, (i < RUU_num w)%nat → ruu_nth w i = Some rs →
      rs_spec_mode (rs_inst_of rs) = false ∧ (recover_inst rs = true → completed rs = true).

(** Loads and stores are never mispredicted; stores write no register. *)
Definition lsq_ok (w : window) : Prop :=
  ∀ s rs, s ∈ lsq_slots w → LSQ w !! s = Some rs → recover_inst rs = false ∧
    (is_store (rs_op (rs_inst_of rs)) = true → Forall (λ n, n = NA) (onames rs)).

(** Bounds for the tags of all stations, and for those of the instances in flight. *)
Definition tags_below (w : window) (B : Z * Z) : Prop :=
  ∀ p rs, station w p = Some rs → 0 ≤ rs_tag rs ≤ B.1 ∧ (live w p → rs_tag rs ≤ B.2).
End Inv.
