(* ===== verification/RuuSched1.v ===== *)
(** * Steps of the scheduling invariant

    How the invariant is kept by the elementary changes of the core: a list shrinks or
    moves, a station changes its status. *)

From S2P Require Import Prelude Misc Chains Bpred Resource Ruu RuuStages RuuSched RuuFront Pool RuuPool RuuInv.

Lemma sublist_filter {A} (P : A → Prop) `{∀ x, Decision (P x)} l1 l2 :
  sublist l1 l2 → sublist (base.filter P l1) (base.filter P l2).
Proof.
  induction 1 as [|x l1 l2 Hs IH|x l1 l2 Hs IH]; [constructor| |].
  - rewrite !filter_cons. case_decide; [by constructor|done].
  - rewrite filter_cons. case_decide; [by constructor|done].
Qed.

Lemma sublist_fmap {A B} (f : A → B) l1 l2 : sublist l1 l2 → sublist (f <$> l1) (f <$> l2).
Proof. induction 1; cbn; by constructor. Qed.

Lemma sublist_NoDup {A} (l1 l2 : list A) : sublist l1 l2 → NoDup l2 → NoDup l1.
Proof.
  induction 1 as [|x l1 l2 Hs IH|x l1 l2 Hs IH]; [done| |].
  - intros [Hx Hn]%NoDup_cons. apply NoDup_cons. split; [|by apply IH].
    intros Hin. apply Hx. by eapply elem_of_submseteq, sublist_submseteq.
  - intros [_ Hn]%NoDup_cons. by apply IH.
Qed.

Lemma sublist_elem {A} (l1 l2 : list A) x : sublist l1 l2 → x ∈ l1 → x ∈ l2.
Proof. intros Hs Hx. by eapply elem_of_submseteq, sublist_submseteq. Qed.

Lemma targets_sublist w l1 l2 : sublist l1 l2 → sublist (targets w l1) (targets w l2).
Proof. intros. by apply sublist_fmap, sublist_filter. Qed.
Lemma keys_sublist w l1 l2 : sublist l1 l2 → sublist (keys w l1) (keys w l2).
Proof. intros. by apply sublist_fmap, sublist_filter. Qed.

Lemma elem_of_targets w l p : p ∈ targets w l ↔ ∃ a, a ∈ l ∧ valid w a ∧ a_rs a = p.
Proof.
  unfold targets. rewrite list_elem_of_fmap. setoid_rewrite list_elem_of_filter. naive_solver.
Qed.

Lemma elem_of_keys w l p x : (p, x) ∈ keys w l ↔ ∃ a, a ∈ l ∧ valid w a ∧ a_rs a = p ∧ a_x a = x.
Proof.
  unfold keys. rewrite list_elem_of_fmap. setoid_rewrite list_elem_of_filter.
  split; [intros (a & [= -> ->] & ?); exists a; naive_solver|intros (a & ? & ? & <- & <-); by exists a].
Qed.

(** Validity depends on the tags only. *)
Lemma valid_tags w w' a :
  (∀ p, rs_tag <$> station w' p = rs_tag <$> station w p) → valid w' a ↔ valid w a.
Proof. intros Ht. unfold valid. by rewrite Ht. Qed.

Lemma filter_valid_tags w w' (l : list alink) :
  (∀ p, rs_tag <$> station w' p = rs_tag <$> station w p) →
  base.filter (valid w') l = base.filter (valid w) l.
Proof. intros Ht. apply list_filter_iff. intros a. by apply valid_tags. Qed.

Lemma targets_tags w w' l :
  (∀ p, rs_tag <$> station w' p = rs_tag <$> station w p) → targets w' l = targets w l.
Proof. intros Ht. unfold targets. by rewrite (filter_valid_tags w w'). Qed.
Lemma keys_tags w w' l :
  (∀ p, rs_tag <$> station w' p = rs_tag <$> station w p) → keys w' l = keys w l.
Proof. intros Ht. unfold keys. by rewrite (filter_valid_tags w w'). Qed.

Section Sched.
Variable cf : config.

Lemma live_frame w w' p : same_frame w w' → live cf w' p ↔ live cf w p.
Proof.
  intros (Hr & _ & Hn & Hl & _ & Hm & _). destruct p; cbn; unfold ruu_slots, lsq_slots;
    by rewrite ?Hr, ?Hn, ?Hl, ?Hm.
Qed.

(** ** Shrinking lists *)

Lemma sched_shrink w A A' wr wr' wo wo' bp :
  sched cf w A wr wo bp → (∀ r, r ≠ RFree → sublist (A' r) (A r)) →
  sublist wr' wr → sublist wo' wo → (∀ a, a ∈ wr' → a ∈ A' RWork) → (∀ a, a ∈ wo' → a ∈ A' RWork) →
  sched cf w A' wr' wo' bp.
Proof.
  intros Hs HA Hwr Hwo Hwr' Hwo'.
  assert (∀ r a, r ≠ RFree → a ∈ A' r → a ∈ A r) as Hin by (intros r a Hr; apply sublist_elem; auto).
  assert (∀ r, sublist (consumers A' wo' r) (consumers A wo r)) as Hc
    by (intros []; cbn; auto using sublist_nil_l).
  assert (sublist (A' RReady ++ wr') (A RReady ++ wr)) as Hrd by (apply sublist_app; auto).
  assert (∀ r a, a ∈ consumers A' wo' r → a ∈ consumers A wo r) as Hci
    by (intros r a; apply sublist_elem, Hc).
  split.
  - intros r a Hr Ha. eapply sc_tag; eauto.
  - intros r a Hr Ha. eapply sc_live; eauto.
  - intros a rs Ha. eapply sc_ev; eauto.
  - eapply sublist_NoDup; [by apply targets_sublist, HA|by eapply sc_ev_nodup].
  - intros a rs Ha. eapply sc_rd; [exact Hs|by eapply sublist_elem].
  - eapply sublist_NoDup; [by eapply targets_sublist|by eapply sc_rd_nodup].
  - done.
  - done.
  - intros r a rs Ha. eapply sc_od; eauto.
  - intros r. eapply sublist_NoDup; [by apply keys_sublist, Hc|by eapply sc_key_nodup].
  - intros r r' x Hx Hx'. eapply sc_key; [exact Hs| |]; (eapply sublist_elem; [apply keys_sublist, Hc|done]).
  - intros p rs. eapply sc_queued; eauto.
  - intros p rs. eapply sc_issued; eauto.
  - intros p rs. eapply sc_completed; eauto.
  - intros p k Hne. eapply sc_odep; [exact Hs|]. intros He. apply Hne.
    apply sublist_nil_r. rewrite <- He. by apply HA.
Qed.

(** ** Changing the status of a station *)

Lemma sched_status_gen w w' A wr wo bp p rs rs' :
  sched cf w A wr wo bp → same_frame w w' → station w p = Some rs →
  (∀ p', station w' p' = if decide (p' = p) then Some rs' else station w p') →
  rs_tag rs' = rs_tag rs →
  (∀ k n, A (ROdep p k) ≠ [] → onames rs !! k = Some n → onames rs' !! k = Some n) →
  (∀ a, a ∈ A REvent → valid w a → a_rs a = p → issued rs' = true ∧ completed rs' = false) →
  (∀ a, a ∈ A RReady ++ wr → valid w a → a_rs a = p → queued rs' = true) →
  (∀ r a, a ∈ consumers A wo r → valid w a → a_rs a = p →
     idep_ready rs' !! Z.to_nat (a_x a) = Some false) →
  (live cf w p → (queued rs' = true → OPERANDS_READY rs' = true ∧ issued rs' = false) ∧
     (issued rs' = true → OPERANDS_READY rs' = true) ∧ (completed rs' = true → issued rs' = true)) →
  (∀ k, A (ROdep p k) ≠ [] → pending bp p k rs → pending bp p k rs') →
  sched cf w' A wr wo bp.
Proof.
  intros Hs Hfr Hp Hst Htag Hon Hev Hrd Hod Hlive Hpend.
  assert (∀ q, rs_tag <$> station w' q = rs_tag <$> station w q) as Ht.
  { intros q. rewrite Hst. case_decide; [subst q; by rewrite Hp; cbn; rewrite Htag|done]. }
  pose proof (fun a => valid_tags w w' a Ht) as Hv.
  pose proof (fun q => live_frame w w' q Hfr) as Hl.
  split.
  - intros r a Hr Ha. destruct (sc_tag _ _ _ _ _ _ Hs r a Hr Ha) as (rs0 & Hrs0 & Hle).
    rewrite Hst. case_decide as Hd; [|eauto]. rewrite Hd, Hp in Hrs0. injection Hrs0 as <-.
    exists rs'. by rewrite Htag.
  - intros r a Hr Ha. rewrite Hv, Hl. by eapply sc_live.
  - intros a rs0 Ha. rewrite Hv, Hst. intros Hva. case_decide; [intros [= <-]; eauto|by eapply sc_ev].
  - rewrite (targets_tags w w') by done. by eapply sc_ev_nodup.
  - intros a rs0 Ha. rewrite Hv, Hst. intros Hva. case_decide; [intros [= <-]; eauto|by eapply sc_rd].
  - rewrite (targets_tags w w') by done. by eapply sc_rd_nodup.
  - by eapply sc_wr.
  - by eapply sc_wo.
  - intros r a rs0 Ha. rewrite Hv, Hst. intros Hva. case_decide as Hd; [|by eapply sc_od].
    intros [= <-]. split; [|by eapply Hod]. rewrite <- Hd in Hp.
    by apply (sc_od _ _ _ _ _ _ Hs r a rs Ha Hva Hp).
  - intros r. rewrite (keys_tags w w') by done. by eapply sc_key_nodup.
  - intros r r' x. rewrite !(keys_tags w w') by done. by eapply sc_key.
  - intros q rs0. rewrite Hl, Hst. case_decide as Hd; [subst q|by eapply sc_queued].
    intros Hlv [= <-]. by apply Hlive.
  - intros q rs0. rewrite Hl, Hst. case_decide as Hd; [subst q|by eapply sc_issued].
    intros Hlv [= <-]. by apply Hlive.
  - intros q rs0. rewrite Hl, Hst. case_decide as Hd; [subst q|by eapply sc_completed].
    intros Hlv [= <-]. by apply Hlive.
  - intros q k Hne. destruct (sc_odep _ _ _ _ _ _ Hs q k Hne) as (rs0 & n & Hrs0 & Hlv & Hpd & Hn & Hna).
    rewrite Hst. case_decide as Hd.
    + subst q. rewrite Hp in Hrs0. injection Hrs0 as <-. exists rs', n. rewrite Hl. eauto 10.
    + exists rs0, n. rewrite Hl. done.
Qed.

Lemma sched_status w w' A wr wo bp p rs rs' :
  sched cf w A wr wo bp → same_frame w w' → station w p = Some rs →
  (∀ p', station w' p' = if decide (p' = p) then Some rs' else station w p') →
  rs_tag rs' = rs_tag rs → onames rs' = onames rs →
  (∀ a, a ∈ A REvent → valid w a → a_rs a = p → issued rs' = true ∧ completed rs' = false) →
  (∀ a, a ∈ A RReady ++ wr → valid w a → a_rs a = p → queued rs' = true) →
  (∀ r a, a ∈ consumers A wo r → valid w a → a_rs a = p →
     idep_ready rs' !! Z.to_nat (a_x a) = Some false) →
  (live cf w p → (queued rs' = true → OPERANDS_READY rs' = true ∧ issued rs' = false) ∧
     (issued rs' = true → OPERANDS_READY rs' = true) ∧ (completed rs' = true → issued rs' = true)) →
  (∀ k, A (ROdep p k) ≠ [] → pending bp p k rs → pending bp p k rs') →
  sched cf w' A wr wo bp.
Proof. intros Hs Hfr Hp Hst Htag Hon. eapply sched_status_gen; try done. intros k n _. by rewrite Hon. Qed.
End Sched.

(** ** A new link *)

Lemma targets_perm w l1 l2 : l1 ≡ₚ l2 → targets w l1 ≡ₚ targets w l2.
Proof. intros Hp. unfold targets. by rewrite Hp. Qed.
Lemma keys_perm w l1 l2 : l1 ≡ₚ l2 → keys w l1 ≡ₚ keys w l2.
Proof. intros Hp. unfold keys. by rewrite Hp. Qed.

Lemma targets_cons_valid w a l : valid w a → targets w (a :: l) = a_rs a :: targets w l.
Proof. intros Ha. unfold targets. by rewrite filter_cons_True. Qed.
Lemma keys_cons_valid w a l : valid w a → keys w (a :: l) = (a_rs a, a_x a) :: keys w l.
Proof. intros Ha. unfold keys. by rewrite filter_cons_True. Qed.

Section Cf.
Variable cf : config.

(** The condition that a new valid link for [p] meets in each list. *)
Definition may_add (w : window) (A : root → list alink) (wr wo : list alink)
    (bp : option (rs_ptr * nat)) (r : root) (a : alink) (rs : RUU_station) : Prop :=
  match r with
  | REvent => issued rs = true ∧ completed rs = false ∧ a_rs a ∉ targets w (A REvent)
  | RReady => queued rs = true ∧ a_rs a ∉ targets w (A RReady ++ wr)
  | ROdep hp hn => 0 ≤ a_x a ∧ idep_ready rs !! Z.to_nat (a_x a) = Some false ∧
      (∀ r', (a_rs a, a_x a) ∉ keys w (consumers A wo r')) ∧
      ∃ hs n, station w hp = Some hs ∧ live cf w hp ∧ pending bp hp hn hs ∧
        onames hs !! hn = Some n ∧ n ≠ NA
  | _ => False
  end.

Lemma sched_add w A wr wo bp r a l' rs :
  sched cf w A wr wo bp → station w (a_rs a) = Some rs → rs_tag rs = a_tag a →
  live cf w (a_rs a) → may_add w A wr wo bp r a rs → l' ≡ₚ a :: A r →
  sched cf w (upd A r l') wr wo bp.
Proof.
  intros Hs Hst Htag Hlive Hmay Hperm.
  assert (valid w a) as Hva by (unfold valid; by rewrite Hst; cbn; rewrite Htag).
  assert (r ≠ RFree ∧ r ≠ RWork) as [Hrf Hrw] by (by destruct r).
  assert (∀ r' b, b ∈ upd A r l' r' → (r' = r ∧ b = a) ∨ b ∈ A r') as Hin.
  { intros r' b. unfold upd. case_decide; [subst r'; rewrite Hperm|by right].
    intros [->|?]%elem_of_cons; auto. }
  assert (∀ r' b, b ∈ consumers (upd A r l') wo r' → (r' = r ∧ b = a ∧ ∃ hp hn, r = ROdep hp hn) ∨ b ∈ consumers A wo r') as Hinc.
  { intros [| | | |hp hn] b; cbn; try (by right). intros [[<- ->]|?]%Hin; [left; eauto 6|by right]. }
  assert (∀ r', (r' = r ∧ (∃ hp hn, r = ROdep hp hn) ∧ consumers (upd A r l') wo r' ≡ₚ a :: consumers A wo r') ∨
    consumers (upd A r l') wo r' = consumers A wo r') as Hcons.
  { intros [| | | |hp hn]; cbn; try (by right). unfold upd. case_decide as Hd; [left; subst r; split; [done|]; split; [by eexists _, _|done]|by right]. }
  split.
  - intros r' b Hr' [[-> ->]|Hb]%Hin; [exists rs; split; [done|lia]|by eapply sc_tag].
  - intros r' b Hr' [[-> ->]|Hb]%Hin; [done|by eapply sc_live].
  - intros b rs0 [[<- ->]|Hb]%Hin Hvb Hb0; [cbn in Hmay; naive_solver|by eapply sc_ev].
  - destruct (decide (r = REvent)) as [->|Hr].
    + rewrite upd_same, (targets_perm _ _ _ Hperm), targets_cons_valid by done.
      apply NoDup_cons. split; [apply Hmay|by eapply sc_ev_nodup].
    + rewrite upd_other by done. by eapply sc_ev_nodup.
  - intros b rs0 [[[<- ->]|Hb]%Hin|Hb]%elem_of_app Hvb Hb0; [cbn in Hmay; naive_solver| |];
      (eapply sc_rd; [exact Hs|rewrite elem_of_app; eauto|done|done]).
  - destruct (decide (r = RReady)) as [->|Hr].
    + rewrite upd_same. rewrite (targets_perm _ _ (a :: A RReady ++ wr)) by (by rewrite Hperm).
      rewrite targets_cons_valid by done. apply NoDup_cons. split; [apply Hmay|by eapply sc_rd_nodup].
    + rewrite upd_other by done. by eapply sc_rd_nodup.
  - intros b Hb. rewrite upd_other by done. by eapply sc_wr.
  - intros b Hb. rewrite upd_other by done. by eapply sc_wo.
  - intros r' b rs0 [(-> & -> & hp & hn & ->)|Hb]%Hinc Hvb Hb0; [|by eapply sc_od].
    cbn in Hmay. rewrite Hst in Hb0. injection Hb0 as <-. naive_solver.
  - intros r'. destruct (Hcons r') as [(-> & (hp & hn & ->) & Hc)| ->]; [|by eapply sc_key_nodup].
    rewrite (keys_perm _ _ _ Hc), keys_cons_valid by done. cbn in Hmay.
    apply NoDup_cons. split; [apply Hmay|by eapply sc_key_nodup].
  - intros r1 r2 x H1 H2.
    assert (∀ r', x ∈ keys w (consumers (upd A r l') wo r') →
      (r' = r ∧ x = (a_rs a, a_x a) ∧ ∃ hp hn, r = ROdep hp hn) ∨ x ∈ keys w (consumers A wo r')) as Hk.
    { intros r' Hx. destruct (Hcons r') as [(-> & Ho & Hc)|Hc]; [|rewrite Hc in Hx; by right].
      rewrite (keys_perm _ _ _ Hc), keys_cons_valid in Hx by done.
      apply elem_of_cons in Hx as [->|Hx]; [by left|by right]. }
    apply Hk in H1 as [(-> & -> & hp & hn & ->)|H1], H2 as [(-> & Hx2 & Ho2)|H2]; try done.
    + exfalso. cbn in Hmay. destruct Hmay as (_ & _ & Hno & _). by apply (Hno r2).
    + exfalso. destruct Ho2 as (hp & hn & ->). subst x. cbn in Hmay. destruct Hmay as (_ & _ & Hno & _).
      by apply (Hno r1).
    + by eapply sc_key.
  - intros p rs0. by eapply sc_queued.
  - intros p rs0. by eapply sc_issued.
  - intros p rs0. by eapply sc_completed.
  - intros p k. unfold upd. case_decide as Hd; [subst r|by eapply sc_odep].
    intros _. cbn in Hmay. destruct Hmay as (_ & _ & _ & hs & n & ? & ? & ? & ? & ?). by exists hs, n.
Qed.

(** A list of consumers becomes the list to walk. *)
Lemma sched_walk w A wr bp p k :
  sched cf w A wr [] bp → A RWork = [] →
  sched cf w (upd (upd A RWork (A (ROdep p k))) (ROdep p k) []) [] (A (ROdep p k)) bp.
Proof.
  intros Hs Hwork. set (A' := upd _ _ _).
  assert (∀ r, r ≠ RWork → r ≠ ROdep p k → A' r = A r) as HA.
  { intros r H1 H2. subst A'. rewrite upd_other by done. by apply upd_other. }
  assert (A' RWork = A (ROdep p k)) as HAw by (subst A'; rewrite upd_other by done; apply upd_same).
  assert (A' (ROdep p k) = []) as HAo by apply upd_same.
  assert (∀ r a, a ∈ A' r → (r = RWork ∧ a ∈ A (ROdep p k)) ∨ a ∈ A r) as Hin.
  { intros r a. destruct (decide (r = RWork)) as [->|H1]; [rewrite HAw; by left|].
    destruct (decide (r = ROdep p k)) as [->|H2]; [rewrite HAo; set_solver|]. rewrite HA by done. by right. }
  assert (∀ r, ∃ r', consumers A' (A (ROdep p k)) r = consumers A [] r' ∧
    ((r' = r ∧ r ≠ RWork ∧ r ≠ ROdep p k) ∨ (r = RWork ∧ r' = ROdep p k) ∨ consumers A [] r' = [])) as Hc.
  { intros r. destruct r as [| | | |q j]; try (exists RFree; cbn; by auto).
    - exists (ROdep p k). cbn. auto.
    - destruct (decide (ROdep q j = ROdep p k)) as [Heq|Hne].
      + exists RFree. rewrite Heq. cbn. rewrite HAo. auto.
      + exists (ROdep q j). cbn. rewrite HA by done. auto. }
  split.
  - intros r a Hr [[-> Ha]|Ha]%Hin; (eapply sc_tag; [exact Hs| |exact Ha]; done).
  - intros r a Hr [[-> Ha]|Ha]%Hin; (eapply sc_live; [exact Hs| |exact Ha]; done).
  - intros a rs. rewrite HA by done. by eapply sc_ev.
  - rewrite HA by done. by eapply sc_ev_nodup.
  - intros a rs. rewrite HA, app_nil_r by done. intros Ha. eapply sc_rd; [exact Hs|set_solver].
  - rewrite HA, app_nil_r by done. eapply sublist_NoDup; [|by eapply sc_rd_nodup].
    apply targets_sublist. by apply sublist_inserts_r.
  - intros a Ha. by apply elem_of_nil in Ha.
  - intros a. by rewrite HAw.
  - intros r a rs. destruct (Hc r) as (r' & -> & _). by eapply sc_od.
  - intros r. destruct (Hc r) as (r' & -> & _). by eapply sc_key_nodup.
  - intros r1 r2 x. destruct (Hc r1) as (r1' & -> & H1), (Hc r2) as (r2' & -> & H2). intros Hx1 Hx2.
    pose proof (sc_key _ _ _ _ _ _ Hs r1' r2' x Hx1 Hx2) as Heq.
    destruct H1 as [(-> & ? & ?)|[[-> ->]|He1]], H2 as [(-> & ? & ?)|[[-> ->]|He2]];
      rewrite ?He1, ?He2 in *; try done; try congruence; by (apply elem_of_nil in Hx1 || apply elem_of_nil in Hx2).
  - intros q rs. by eapply sc_queued.
  - intros q rs. by eapply sc_issued.
  - intros q rs. by eapply sc_completed.
  - intros q j Hne. eapply sc_odep; [exact Hs|]. intros He. apply Hne.
    destruct (decide (ROdep q j = ROdep p k)) as [->|Hd]; [done|]. by rewrite HA.
Qed.
End Cf.
