(* ===== verification/RuuGood.v ===== *)
(** * The invariant of a core, and the stages that keep it: queueing and write-back *)

From S2P Require Import Prelude Misc Chains Bpred Resource Ruu RuuStages RuuSched RuuFront Pool RuuPool RuuInv RuuSched1.

Section Good.
Context {MS : Type} `{!Environment MS}.
Variable cf : config.
Implicit Types c : core MS.

(** The buffers, the links and the create vectors [v] fit together; the other parameters
    say which lists are being walked. *)
Record good (v : create_vectors) c (A : root → list alink) (wr wo : list alink) (bp ex : option (rs_ptr * nat))
    (wk : option nat) (B : Z * Z) : Prop := {
  g_shape : shape cf (win c);
  g_pool : pool_of (qs c) (win c) ex wk A;
  g_sched : sched cf (win c) A wr wo bp;
  g_cv : cv_ok cf (win c) v bp;
  g_tags : tags_below cf (win c) B
}.

(** ** What steps keep of the stations *)

(** Two windows agree on what [f] sees of the stations. *)
Definition agree {X} (f : RUU_station → X) (w w' : window) : Prop :=
  ∀ p, f <$> station w' p = f <$> station w p.

Lemma agree_refl {X} (f : RUU_station → X) w : agree f w w.
Proof. done. Qed.

Lemma agree_trans {X} (f : RUU_station → X) w1 w2 w3 : agree f w1 w2 → agree f w2 w3 → agree f w1 w3.
Proof. intros H1 H2 p. by rewrite H2, H1. Qed.

Lemma agree_station {X} (f : RUU_station → X) w w' p rs' :
  agree f w w' → station w' p = Some rs' → ∃ rs, station w p = Some rs ∧ f rs' = f rs.
Proof.
  intros Hv Hp. specialize (Hv p). rewrite Hp in Hv.
  destruct (station w p) as [rs|]; [|done]. exists rs. by apply (inj Some) in Hv.
Qed.

Lemma agree_station' {X} (f : RUU_station → X) w w' p rs :
  agree f w w' → station w p = Some rs → ∃ rs', station w' p = Some rs' ∧ f rs' = f rs.
Proof.
  intros Hv Hp. specialize (Hv p). rewrite Hp in Hv.
  destruct (station w' p) as [rs'|]; [|done]. exists rs'. by apply (inj Some) in Hv.
Qed.

Lemma agree_mono {X Y} (f : RUU_station → X) (g : RUU_station → Y) w w' :
  agree f w w' → (∀ rs rs', f rs' = f rs → g rs' = g rs) → agree g w w'.
Proof.
  intros Hv Hfg p. destruct (station w' p) as [rs'|] eqn:Hp.
  - destruct (agree_station _ _ _ _ _ Hv Hp) as (rs & -> & Hf). cbn. by rewrite (Hfg _ _ Hf).
  - specialize (Hv p). rewrite Hp in Hv. by destruct (station w p).
Qed.

Lemma agree_upd {X} (f : RUU_station → X) w w' p rs rs' :
  station w p = Some rs →
  (∀ p', station w' p' = if decide (p' = p) then Some rs' else station w p') →
  f rs' = f rs → agree f w w'.
Proof.
  intros Hp Hst Hf q. rewrite Hst. case_decide; [subst q; rewrite Hp; cbn; by rewrite Hf|done].
Qed.

(** The parts of the invariant, and what they look at. *)
Definition shape_view (rs : RUU_station) : rs_inst * list Z * nat * nat :=
  (rs_inst_of rs, onames rs, length (odep_list rs), length (idep_ready rs)).

Lemma insts_at_ext l l' ss :
  (∀ s, rs_inst_of <$> l' !! s = rs_inst_of <$> l !! s) → insts_at l' ss = insts_at l ss.
Proof.
  intros Hl. unfold insts_at. induction ss as [|s ss IH]; cbn; [done|]. by rewrite Hl, IH.
Qed.

(** Instances and lengths decide the shape, but for the range of the register names. *)
Lemma shape_frame w w' :
  same_frame w w' →
  agree (λ rs, (rs_inst_of rs, length (onames rs), length (odep_list rs), length (idep_ready rs))) w w' →
  (∀ p rs, station w' p = Some rs → Forall (λ n, 0 ≤ n < Z.of_nat MD_TOTAL_REGS) (onames rs)) →
  shape cf w → shape cf w'.
Proof.
  intros (H1 & H2 & H3 & H4 & H5 & H6 & H7 & H8) Hk Hnm Hs.
  assert (agree rs_inst_of w w') as Hki by (eapply agree_mono; [exact Hk|by intros rs rs' [=]]).
  assert (rinsts cf w' = rinsts cf w) as Hr.
  { unfold rinsts, ruu_slots. rewrite H1, H3. apply insts_at_ext. intros s. apply (Hki (InRUU s)). }
  assert (linsts cf w' = linsts cf w) as Hl.
  { unfold linsts, lsq_slots. rewrite H4, H6. apply insts_at_ext. intros s. apply (Hki (InLSQ s)). }
  pose proof (sh_len cf w Hs) as Hlen.
  destruct Hs. split; rewrite ?H1, ?H2, ?H3, ?H4, ?H5, ?H6, ?H7, ?H8, ?Hr, ?Hl; try done.
  intros p rs' Hp. destruct (agree_station _ _ _ _ _ Hk Hp) as (rs & Hp' & Hv).
  destruct (Hlen _ _ Hp') as (? & ? & ?). injection Hv as _ -> -> ->. done.
Qed.

Lemma agree_shape w w' : same_frame w w' → agree shape_view w w' → shape cf w → shape cf w'.
Proof.
  intros Hf Hk Hs. eapply shape_frame; [done| | |done].
  - eapply agree_mono; [exact Hk|]. unfold shape_view. intros rs rs'. congruence.
  - intros p rs' Hp. destruct (agree_station _ _ _ _ _ Hk Hp) as (rs & Hp' & Hv).
    unfold shape_view in Hv. injection Hv as _ -> _ _. by eapply sh_names.
Qed.

Lemma agree_tags w w' B : same_frame w w' → agree rs_tag w w' → tags_below cf w B → tags_below cf w' B.
Proof.
  intros Hf Hk Ht p rs' Hp. destruct (agree_station _ _ _ _ _ Hk Hp) as (rs & Hp' & ->).
  rewrite (live_frame cf w w') by done. by eapply Ht.
Qed.

Definition lsq_view (rs : RUU_station) : rs_inst * bool * list Z :=
  (rs_inst_of rs, recover_inst rs, onames rs).

Lemma agree_lsq w w' : same_frame w w' → agree lsq_view w w' → lsq_ok cf w → lsq_ok cf w'.
Proof.
  intros Hf Hk Hl s rs' Hs Hp. destruct (agree_station _ w w' (InLSQ s) rs' Hk Hp) as (rs & Hp' & Hv).
  unfold lsq_view in Hv. injection Hv as -> -> ->. apply (Hl s); [|done].
  change (live cf w (InLSQ s)). by rewrite <- (live_frame cf w w').
Qed.

Definition spec_view (rs : RUU_station) : bool * bool * bool :=
  (rs_spec_mode (rs_inst_of rs), recover_inst rs, completed rs).

Lemma agree_spec w w' spec : same_frame w w' → agree spec_view w w' → spec_ok cf w spec → spec_ok cf w' spec.
Proof.
  intros (H1 & _ & H3 & _) Hk.
  assert (∀ i rs', ruu_nth cf w' i = Some rs' → ∃ rs, ruu_nth cf w i = Some rs ∧ spec_view rs' = spec_view rs) as Hn.
  { intros i rs' Hi. unfold ruu_nth in *. rewrite H1 in Hi. by apply (agree_station _ w w' (InRUU _) rs' Hk). }
  unfold spec_ok. rewrite H3. destruct spec.
  - intros (j & Hj & Hall). exists j. split; [done|]. intros i rs' Hi Hr.
    destruct (Hn i rs' Hr) as (rs & Hr' & Hv). unfold spec_view in Hv. injection Hv as -> -> ->. by apply Hall.
  - intros Hall i rs' Hi Hr. destruct (Hn i rs' Hr) as (rs & Hr' & Hv).
    unfold spec_view in Hv. injection Hv as -> -> ->. by apply (Hall i).
Qed.

Definition cv_view (rs : RUU_station) : rs_inst * bool * list Z := (rs_inst_of rs, completed rs, onames rs).

Lemma agree_cv w w' v bp : same_frame w w' → agree cv_view w w' → cv_ok cf w v bp → cv_ok cf w' v bp.
Proof.
  intros Hf Hk [Hlen Hcv]. split; [done|]. intros spec n p k Hc.
  destruct (Hcv _ _ _ _ Hc) as (rs & Hp & Hlv & Hpd & Hon & Hsp & Hn).
  destruct (agree_station' _ _ _ _ _ Hk Hp) as (rs' & Hp' & Hv). exists rs'.
  unfold cv_view in Hv. injection Hv as H1 H2 H3. rewrite H1, H3.
  split; [done|]. split; [by rewrite (live_frame cf w w')|]. split; [|done].
  unfold pending. by rewrite H2.
Qed.

(** The scheduling steps keep all of these. *)
Definition view (rs : RUU_station) : rs_inst * bool * bool * Z * list Z * nat * nat :=
  (rs_inst_of rs, recover_inst rs, completed rs, rs_tag rs, onames rs,
   length (odep_list rs), length (idep_ready rs)).

Definition keeps (w w' : window) : Prop := same_frame w w' ∧ agree view w w'.

Lemma keeps_refl w : keeps w w.
Proof. split; [apply same_frame_refl|apply agree_refl]. Qed.

Lemma keeps_trans w1 w2 w3 : keeps w1 w2 → keeps w2 w3 → keeps w1 w3.
Proof. intros [? ?] [? ?]. split; [by eapply same_frame_trans|by eapply agree_trans]. Qed.

Lemma keeps_upd w w' p rs rs' :
  same_frame w w' → station w p = Some rs →
  (∀ p', station w' p' = if decide (p' = p) then Some rs' else station w p') →
  view rs' = view rs → keeps w w'.
Proof. intros Hf Hp Hst Hv. split; [done|by eapply agree_upd]. Qed.

Lemma keeps_shape w w' : keeps w w' → shape cf w → shape cf w'.
Proof.
  intros [Hf Hk]. apply agree_shape; [done|]. eapply agree_mono; [exact Hk|].
  intros rs rs'. unfold view, shape_view. congruence.
Qed.
Lemma keeps_cv w w' v bp : keeps w w' → cv_ok cf w v bp → cv_ok cf w' v bp.
Proof.
  intros [Hf Hk]. apply agree_cv; [done|]. eapply agree_mono; [exact Hk|].
  intros rs rs'. unfold view, cv_view. congruence.
Qed.
Lemma keeps_lsq w w' : keeps w w' → lsq_ok cf w → lsq_ok cf w'.
Proof.
  intros [Hf Hk]. apply agree_lsq; [done|]. eapply agree_mono; [exact Hk|].
  intros rs rs'. unfold view, lsq_view. congruence.
Qed.
Lemma keeps_tags w w' B : keeps w w' → tags_below cf w B → tags_below cf w' B.
Proof.
  intros [Hf Hk]. apply agree_tags; [done|]. eapply agree_mono; [exact Hk|].
  intros rs rs'. unfold view. congruence.
Qed.
Lemma keeps_spec w w' spec : keeps w w' → spec_ok cf w spec → spec_ok cf w' spec.
Proof.
  intros [Hf Hk]. apply agree_spec; [done|]. eapply agree_mono; [exact Hk|].
  intros rs rs'. unfold view, spec_view. congruence.
Qed.

(** ** Queueing a ready operation *)

Lemma not_target w A wr wo bp p rs :
  sched cf w A wr wo bp → station w p = Some rs → queued rs = false → p ∉ targets w (A RReady ++ wr).
Proof.
  intros Hs Hp Hq (a & Ha & Hv & <-)%elem_of_targets. pose proof (sc_rd _ _ _ _ _ _ Hs a rs Ha Hv Hp). congruence.
Qed.

(** A step of the queues: the stations keep their views, and the lists but the ready
    queue are as before. *)
Definition queue_step c (A : root → list alink) c' (A' : root → list alink) : Prop :=
  keeps (win c) (win c') ∧ cvs c' = cvs c ∧ mach c' = mach c ∧ front c' = front c ∧
  (∀ r, r ≠ RReady → A' r = A r).

Lemma queue_step_refl c A : queue_step c A c A.
Proof. split; [apply keeps_refl|done]. Qed.

Lemma queue_step_trans c1 A1 c2 A2 c3 A3 :
  queue_step c1 A1 c2 A2 → queue_step c2 A2 c3 A3 → queue_step c1 A1 c3 A3.
Proof.
  intros (H1 & H2 & H3 & H4 & H5) (H1' & H2' & H3' & H4' & H5').
  split; [by eapply keeps_trans|]. repeat split; try congruence.
  intros r Hr. by rewrite H5', H5.
Qed.

Lemma station_upd_frame w w' A wr wo bp p rs b :
  sched cf w A wr wo bp → same_frame w w' → station w p = Some rs → live cf w p →
  (∀ p', station w' p' = if decide (p' = p) then Some (set_queued b rs) else station w p') →
  (b = true → OPERANDS_READY rs = true ∧ issued rs = false) →
  (b = false → p ∉ targets w (A RReady ++ wr)) →
  sched cf w' A wr wo bp.
Proof.
  intros Hs Hfr Hp Hlv Hst Hb1 Hb2. eapply (sched_status cf w w' A wr wo bp p rs (set_queued b rs)); try done.
  - intros a Ha Hv <-. by apply (sc_ev _ _ _ _ _ _ Hs a rs).
  - intros a Ha Hv <-. destruct b; [done|]. exfalso. apply Hb2; [done|].
    apply elem_of_targets. eauto.
  - intros r a Ha Hv <-. by apply (sc_od _ _ _ _ _ _ Hs r a rs).
  - intros _. cbn. split; [intros ->; by apply Hb1|].
    split; [by apply (sc_issued _ _ _ _ _ _ Hs p rs)|by apply (sc_completed _ _ _ _ _ _ Hs p rs)].
Qed.

Lemma enqueue_good v c A wr wo bp ex wk B p rs :
  good v c A wr wo bp ex wk B → live cf (win c) p → station (win c) p = Some rs →
  queued rs = false → OPERANDS_READY rs = true → issued rs = false →
  wp out_of_links (readyq_enqueue c p) (λ c', ∃ A', good v c' A' wr wo bp ex wk B ∧ queue_step c A c' A' ∧
    (∀ q, station (win c') q = if decide (q = p) then Some (set_queued true rs) else station (win c) q) ∧
    ∀ m, wk = Some m → links (qs c') !! m = links (qs c) !! m).
Proof.
  intros [Hsh Hpl Hsc Hcv Htg] Hlv Hp Hq Hrdy Hiss.
  eapply wp_mono; [eapply readyq_enqueue_spec; eauto|done|].
  intros c' (q & w & l' & -> & Hfr & Hst & Hins & Hpl' & Hkp).
  assert (keeps (win c) w) as Hk by (by eapply keeps_upd).
  exists (upd A RReady l'). split; [split|].
  - by eapply keeps_shape.
  - exact Hpl'.
  - assert (sched cf w A wr wo bp) as Hsc1 by (by eapply (station_upd_frame (win c))).
    assert (∀ y, rs_tag <$> station w y = rs_tag <$> station (win c) y) as Ht.
    { intros y. rewrite Hst. case_decide; [subst y; by rewrite Hp|done]. }
    eapply (sched_add cf w A wr wo bp RReady (p, rs_tag rs, rs_seq (rs_inst_of rs)) l' (set_queued true rs)); try done.
    + cbn. rewrite Hst. by rewrite decide_True.
    + cbn. by rewrite (live_frame cf (win c) w).
    + cbn. split; [done|]. rewrite (targets_tags (win c) w) by done. by eapply not_target.
    + destruct Hins as (as1 & as2 & HA & -> & _). rewrite HA. by rewrite Permutation_middle.
  - by eapply keeps_cv.
  - by eapply keeps_tags.
  - split.
    + split; [exact Hk|]. cbn. repeat split; try done. intros r Hr. by apply upd_other.
    + split; [exact Hst|exact Hkp].
Qed.
(** ** Waking consumers *)

Lemma not_ready (l : list bool) k : l !! k = Some false → forallb id l = false.
Proof.
  revert k. induction l as [|b l IH]; intros [|k]; cbn; try done.
  - by intros [= ->].
  - intros Hk. rewrite (IH k Hk). apply andb_false_r.
Qed.

Lemma wake_good v c A wr a wo bp ex wk B :
  good v c A wr (a :: wo) bp ex wk B → valid (win c) a →
  wp out_of_links (wake (a_rs a) (Z.to_nat (a_x a)) c) (λ c', ∃ A',
    good v c' A' wr wo bp ex wk B ∧ queue_step c A c' A').
Proof.
  intros [Hsh Hpl Hsc Hcv Htg] Hva.
  assert (a ∈ A RWork) as Hwork by (eapply sc_wo; [exact Hsc|set_solver]).
  assert (live cf (win c) (a_rs a)) as Hlv by (by eapply (sc_live _ _ _ _ _ _ Hsc RWork)).
  assert (is_Some (station (win c) (a_rs a))) as [rs Hp].
  { unfold valid in Hva. destruct (station (win c) (a_rs a)); [by eexists|done]. }
  destruct (sc_od _ _ _ _ _ _ Hsc RWork a rs) as [Hx0 Hx]; [cbn; set_solver|done|done|].
  set (x := Z.to_nat (a_x a)) in *.
  assert (OPERANDS_READY rs = false) as Hnr by (by eapply not_ready).
  assert (queued rs = false) as Hq.
  { destruct (queued rs) eqn:Hq; [|done]. destruct (sc_queued _ _ _ _ _ _ Hsc _ _ Hlv Hp Hq). congruence. }
  assert (issued rs = false) as Hi.
  { destruct (issued rs) eqn:Hi; [|done]. pose proof (sc_issued _ _ _ _ _ _ Hsc _ _ Hlv Hp Hi). congruence. }
  assert (completed rs = false) as Hc.
  { destruct (completed rs) eqn:Hc; [|done]. pose proof (sc_completed _ _ _ _ _ _ Hsc _ _ Hlv Hp Hc). congruence. }
  unfold wake. rewrite (get_rs_station _ _ _ Hp). cbn [mbind result_bind].
  rewrite (proj2 (vget_Ok _ _ _) Hx). cbn [mbind result_bind].
  destruct (upd_station_spec c (a_rs a) (set_idep x true) rs Hp) as (w & -> & Hfr & Hst).
  cbn [mbind result_bind win set_win].
  assert (keeps (win c) w) as Hk.
  { eapply keeps_upd; [done|exact Hp|exact Hst|]. unfold view. cbn. by rewrite length_insert. }
  assert (station w (a_rs a) = Some (set_idep x true rs)) as Hp' by (by rewrite Hst, decide_True).
  assert (sched cf w A wr wo bp) as Hsc'.
  { eapply (sched_status cf (win c) w A wr wo bp (a_rs a) rs (set_idep x true rs)); try done.
    - eapply sched_shrink; [exact Hsc|done|done|by apply sublist_cons|by eapply sc_wr|].
      intros b Hb. eapply sc_wo; [exact Hsc|set_solver].
    - intros b Hb Hvb Hbp. rewrite <- Hbp in Hp. pose proof (sc_ev _ _ _ _ _ _ Hsc b rs Hb Hvb Hp). naive_solver.
    - intros b Hb Hvb Hbp. rewrite <- Hbp in Hp. pose proof (sc_rd _ _ _ _ _ _ Hsc b rs Hb Hvb Hp). naive_solver.
    - intros r b Hb Hvb Hbp. cbn.
      assert (b ∈ consumers A (a :: wo) r) as Hb' by (destruct r; cbn in *; set_solver).
      pose proof Hp as Hpb. rewrite <- Hbp in Hpb.
      destruct (sc_od _ _ _ _ _ _ Hsc r b rs Hb' Hvb Hpb) as [Hb0 Hbx].
      destruct (decide (a_x b = a_x a)) as [Hxe|Hxe].
      + exfalso. assert ((a_rs a, a_x a) ∈ keys (win c) (consumers A (a :: wo) RWork)) as Ha
          by (apply elem_of_keys; exists a; cbn; set_solver).
        assert ((a_rs a, a_x a) ∈ keys (win c) (consumers A (a :: wo) r)) as Hbk
          by (apply elem_of_keys; exists b; done).
        pose proof (sc_key _ _ _ _ _ _ Hsc _ _ _ Hbk Ha) as ->.
        pose proof (sc_key_nodup _ _ _ _ _ _ Hsc RWork) as Hnd. cbn [consumers] in Hnd.
        rewrite keys_cons_valid in Hnd by done. apply NoDup_cons in Hnd as [Hno _]. apply Hno.
        apply elem_of_keys. by exists b.
      + rewrite list_lookup_insert_ne; [done|]. subst x. lia.
    - intros _. cbn. rewrite Hq, Hi, Hc. done. }
  assert (good v (set_win w c) A wr wo bp ex wk B) as Hg.
  { split; [by eapply keeps_shape| |done|by eapply keeps_cv|by eapply keeps_tags].
    eapply pool_ext; [exact Hpl| |done]. intros y. apply heads_station. intros p'. cbn. rewrite Hst.
    case_decide as Hd; [subst p'; by rewrite Hp|done]. }
  assert (queue_step c A (set_win w c) A) as Hqs by (split; [exact Hk|done]).
  rewrite (get_rs_station _ _ _ Hp'). cbn [mbind result_bind].
  destruct (OPERANDS_READY (set_idep x true rs)) eqn:Hrdy; cbn [andb]; [|by exists A].
  destruct (negb _ || _); [|by exists A].
  eapply wp_mono; [eapply enqueue_good; [exact Hg| |exact Hp'|done|done|done]|done|].
  - cbn. by rewrite (live_frame cf (win c) w).
  - intros c' (A' & Hg' & Hqs' & _). exists A'. split; [done|]. by eapply queue_step_trans.
Qed.

End Good.
