(* ===== verification/RuuWriteback.v ===== *)
(** * Write-back keeps the invariant: the broadcast of results *)

From S2P Require Import Prelude Misc Chains Bpred Resource Ruu RuuStages RuuSched RuuFront Pool RuuPool RuuInv RuuSched1 RuuGood.

Section Writeback.
Context {MS : Type} `{!Environment MS}.
Variable cf : config.
Implicit Types c : core MS.

(** A step that walks lists: the stations keep their views; of the lists, the ready queue
    and the one being walked may change. *)
Definition walk_step c (A : root → list alink) c' (A' : root → list alink) : Prop :=
  keeps (win c) (win c') ∧ cvs c' = cvs c ∧ mach c' = mach c ∧ front c' = front c ∧
  (∀ r, r ≠ RReady → r ≠ RWork → A' r = A r).

Lemma queue_walk c A c' A' : queue_step c A c' A' → walk_step c A c' A'.
Proof. intros (H1 & H2 & H3 & H4 & H5). split; [done|]. repeat split; auto. Qed.

Lemma walk_step_trans c1 A1 c2 A2 c3 A3 :
  walk_step c1 A1 c2 A2 → walk_step c2 A2 c3 A3 → walk_step c1 A1 c3 A3.
Proof.
  intros (H1 & H2 & H3 & H4 & H5) (H1' & H2' & H3' & H4' & H5').
  split; [by eapply keeps_trans|]. repeat split; try congruence. intros r Hr Hr'. by rewrite H5', H5.
Qed.

(** The head of the list being walked is freed. *)
Lemma free_work_good v c A wr wo bp ex n B a rest :
  good cf v c A wr wo bp ex (Some n) B → A RWork = a :: rest →
  (∀ b, b ∈ wr → b ∈ rest) → (∀ b, b ∈ wo → b ∈ rest) →
  ∃ k q, links (qs c) !! n = Some k ∧ l_rs k = Some (a_rs a) ∧ l_tag k = a_tag a ∧ l_x k = a_x a ∧
    RSLINK_FREE (qs c) n = Ok q ∧
    good cf v (set_qs q c) (upd A RWork rest) wr wo bp ex (l_next k) B.
Proof.
  intros [Hsh Hpl Hsc Hcv Htg] HA Hwr Hwo.
  destruct (RSLINK_FREE_spec (qs c) (win c) ex (Some n) A RWork n Hpl) as
    (k & a' & rest' & q & Hk & HA' & Hrs & Ht & Hx & Hfree & Hev & Hrd & Hp' & Hfl); [done|done|].
  rewrite HA in HA'. injection HA' as <- <-. exists k, q. do 5 (split; [done|]).
  split; try done.
  - eapply pool_ext; [exact Hp'| |done]. intros r. unfold upd. destruct r; cbn; by repeat case_decide.
  - eapply sched_shrink; [exact Hsc| |done|done| |].
    + intros r _. unfold upd. case_decide; [subst r; rewrite HA; by apply sublist_cons|done].
    + intros b Hb. rewrite upd_same. auto.
    + intros b Hb. rewrite upd_same. auto.
Qed.

Lemma wake_links_good v bp ex B wo : ∀ fuel c A wk,
  good cf v c A [] wo bp ex wk B → A RWork = wo → (length wo ≤ fuel)%nat →
  wp out_of_links (wake_links fuel wk c) (λ c', ∃ A', good cf v c' A' [] [] bp ex None B ∧
    A' RWork = [] ∧ walk_step c A c' A').
Proof.
  induction wo as [|a wo IH]; intros fuel c A wk Hg HA Hf.
  - assert (wk = None) as -> by (by apply (pool_nil _ _ _ RWork (g_pool _ _ _ _ _ _ _ _ _ _ Hg))).
    destruct fuel; cbn; (exists A; split; [done|]; split; [done|]; apply queue_walk, queue_step_refl).
  - destruct wk as [n|].
    2: { assert (A RWork = []) as He by (by apply (pool_nil _ _ _ RWork (g_pool _ _ _ _ _ _ _ _ _ _ Hg))). congruence. }
    destruct fuel as [|fuel]; [simpl in Hf; lia|].
    destruct (pool_head _ _ _ RWork n (g_pool _ _ _ _ _ _ _ _ _ _ Hg)) as
      (k & a' & rest & Hk & HA' & Hrs & Ht & Hx); [done|done|].
    rewrite HA in HA'. injection HA' as <- <-. cbn [wake_links].
    rewrite (proj2 (vget_Ok _ _ _) Hk). cbn [mbind result_bind].
    destruct (sc_tag _ _ _ _ _ _ (g_sched _ _ _ _ _ _ _ _ _ _ Hg) RWork a) as (rs & Hp & _); [done|rewrite HA; set_solver|].
    rewrite (RSLINK_VALID_spec _ k a Hrs Ht) by (by eexists). cbn [mbind result_bind].
    apply wp_bind. eapply (wp_mono out_of_links _ _ (λ c1, ∃ A1, good cf v c1 A1 [] wo bp ex (Some n) B ∧ queue_step c A c1 A1)); [|done|].
    + case_bool_decide as Hva.
      * rewrite Hrs. cbn [deref mbind result_bind]. rewrite Hx. by eapply wake_good.
      * cbn. exists A. split; [|apply queue_step_refl]. destruct Hg as [G1 G2 G3 G4 G5]. split; try done.
        eapply sched_shrink; [exact G3|done|done|by apply sublist_cons|set_solver|].
        intros b Hb. rewrite HA. set_solver.
    + intros c1 (A1 & Hg1 & Hq1). assert (A1 RWork = a :: wo) as HA1 by (destruct Hq1 as (_ & _ & _ & _ & H); rewrite H by done; done).
      destruct (free_work_good v c1 A1 [] wo bp ex n B a wo Hg1 HA1) as (k1 & q1 & Hk1 & _ & _ & _ & Hfr & Hg2); [set_solver|done|].
      rewrite (proj2 (vget_Ok _ _ _) Hk1). cbn [mbind result_bind]. rewrite Hfr. cbn [mbind result_bind].
      eapply wp_mono; [apply (IH fuel (set_qs q1 c1) (upd A1 RWork wo)); [exact Hg2|apply upd_same|simpl in Hf; lia]|done|].
      intros c2 (A2 & Hg3 & HA2 & Hw2). exists A2. split; [done|]. split; [done|].
      eapply walk_step_trans; [by apply queue_walk|]. destruct Hw2 as (H1 & H2 & H3 & H4 & H5).
      split; [done|]. do 3 (split; [done|]). intros r Hr Hr'. rewrite H5 by done. by apply upd_other.
Qed.

(** ** One output *)

Lemma default_lookup (l : list CV_link) n k x : l !! n = Some k → default None (l !! n) = x → k = x.
Proof. by intros ->. Qed.

Lemma default_insert_null (l : list CV_link) n m p :
  default None (<[n := CVLINK_NULL]> l !! m) = Some p → m ≠ n ∧ default None (l !! m) = Some p.
Proof.
  unfold CV_link, CVLINK_NULL in *. destruct (decide (m = n)) as [->|Hne].
  - destruct (decide (n < length l)%nat) as [Hlt|Hge]; [by rewrite list_lookup_insert_eq|].
    rewrite list_insert_ge by lia. rewrite lookup_ge_None_2 by lia. done.
  - by rewrite list_lookup_insert_ne.
Qed.

Lemma clear_creator_ok w v p i n rs now :
  cv_ok cf w v (Some (p, i)) → station w p = Some rs → onames rs !! i = Some (Z.of_nat n) →
  (n < MD_TOTAL_REGS)%nat → completed rs = true →
  ∃ v', clear_creator (rs_spec_mode (rs_inst_of rs)) now p i n v = Ok v' ∧ cv_ok cf w v' (Some (p, S i)).
Proof.
  intros [(Hl1 & Hl2 & Hl3 & Hl4 & Hl5) Hcr] Hp Hon Hn Hc.
  assert (∀ spec m q k, creator v spec m = Some (q, k) → ¬ (q = p ∧ k = i) →
    ∃ rs0, station w q = Some rs0 ∧ live cf w q ∧ pending (Some (p, S i)) q k rs0 ∧
      onames rs0 !! k = Some (Z.of_nat m) ∧ rs_spec_mode (rs_inst_of rs0) = spec ∧ m ≠ 0%nat) as Hkeep.
  { intros spec m q k Hq Hne. destruct (Hcr _ _ _ _ Hq) as (rs0 & H1 & H2 & H3 & H4 & H5 & H6).
    exists rs0. do 2 (split; [done|]). split; [|done]. destruct H3 as [H3|(i' & [= -> ->] & Hle)]; [by left|].
    right. exists (S i'). split; [done|]. destruct (decide (k = i')) as [->|]; [naive_solver|lia]. }
  assert (∀ spec m k, creator v spec m = Some (p, k) → k = i → spec = rs_spec_mode (rs_inst_of rs) ∧ m = n) as Hpi.
  { intros spec m k Hm ->. destruct (Hcr _ _ _ _ Hm) as (rs0 & H1 & _ & _ & H4 & H5 & _).
    simplify_eq. split; [done|]. lia. }
  unfold clear_creator. destruct (rs_spec_mode (rs_inst_of rs)) eqn:Hsp.
  - destruct (lookup_lt_is_Some_2 (spec_create_vector v) n) as [l Hlk]; [lia|].
    destruct (lookup_lt_is_Some_2 (spec_create_vector_rt v) n) as [t Htk]; [lia|].
    unfold vget, vset. rewrite Hlk, Htk. cbn [mbind result_bind]. case_bool_decide as Heq.
    + eexists. split; [reflexivity|]. split; [cbn; by rewrite !length_insert|].
      intros spec m q k Hq. apply (Hkeep spec m q k).
      * destruct spec; cbn in Hq |- *; [|done]. destruct (use_spec_cv v !! m) as [[]|]; try done.
        by apply default_insert_null in Hq as [_ Hq].
      * intros [-> ->]. destruct spec; cbn in Hq.
        -- destruct (use_spec_cv v !! m) as [[]|] eqn:Hu; try done.
           apply default_insert_null in Hq as [Hne Hq].
           destruct (Hpi true m i) as [_ ->]; [cbn; by rewrite Hu|done|done].
        -- by destruct (Hpi false m i) as [? _].
    + exists v. split; [done|]. split; [done|]. intros spec m q k Hq. apply (Hkeep spec m q k Hq).
      intros [-> ->]. destruct (Hpi _ _ _ Hq eq_refl) as [-> ->]. cbn in Hq.
      destruct (use_spec_cv v !! n) as [[]|]; try done.
      apply Heq. exact (default_lookup _ _ _ _ Hlk Hq).
  - destruct (lookup_lt_is_Some_2 (create_vector v) n) as [l Hlk]; [lia|].
    destruct (lookup_lt_is_Some_2 (create_vector_rt v) n) as [t Htk]; [lia|].
    unfold vget, vset. rewrite Hlk, Htk. cbn [mbind result_bind]. case_bool_decide as Heq.
    + eexists. split; [reflexivity|]. split; [cbn; by rewrite !length_insert|].
      intros spec m q k Hq. apply (Hkeep spec m q k).
      * destruct spec; cbn in Hq |- *; [done|].
        by apply default_insert_null in Hq as [_ Hq].
      * intros [-> ->]. destruct spec; cbn in Hq; [by destruct (Hpi true m i) as [? _]|].
        apply default_insert_null in Hq as [Hne Hq]. by destruct (Hpi false m i) as [_ ->].
    + exists v. split; [done|]. split; [done|]. intros spec m q k Hq. apply (Hkeep spec m q k Hq).
      intros [-> ->]. destruct (Hpi _ _ _ Hq eq_refl) as [-> ->]. cbn in Hq.
      apply Heq. exact (default_lookup _ _ _ _ Hlk Hq).
Qed.

Lemma sched_bp w A wr wo bp bp' :
  sched cf w A wr wo bp →
  (∀ p k rs n, A (ROdep p k) ≠ [] → station w p = Some rs → pending bp p k rs →
     onames rs !! k = Some n → n ≠ NA → pending bp' p k rs) →
  sched cf w A wr wo bp'.
Proof.
  intros Hs H. pose proof (sc_odep _ _ _ _ _ _ Hs) as Ho. destruct Hs. split; try done.
  intros p k Hne. destruct (Ho p k Hne) as (rs & n & H1 & H2 & H3 & H4 & H5). exists rs, n. eauto 10.
Qed.

Lemma cv_bp w v bp bp' :
  cv_ok cf w v bp →
  (∀ p k rs n, station w p = Some rs → pending bp p k rs → onames rs !! k = Some n → n ≠ NA →
     pending bp' p k rs) →
  cv_ok cf w v bp'.
Proof.
  intros [Hl Hs] H. split; [done|]. intros spec n p k Hc.
  destruct (Hs _ _ _ _ Hc) as (rs & H1 & H2 & H3 & H4 & H5 & H6). exists rs. do 2 (split; [done|]).
  split; [|done]. eapply H; eauto. unfold NA. lia.
Qed.

(** An output that is done is not pending any more. *)
Lemma pending_next p i q k rs : pending (Some (p, i)) q k rs → ¬ (q = p ∧ k = i) → pending (Some (p, S i)) q k rs.
Proof.
  intros [H|(i' & [= -> ->] & Hle)] Hne; [by left|]. right. exists (S i'). split; [done|].
  destruct (decide (k = i')) as [->|]; [naive_solver|lia].
Qed.

(** A step within a cycle that leaves machine and front end alone. *)
Definition quiet_step c c' : Prop :=
  keeps (win c) (win c') ∧ mach c' = mach c ∧ front c' = front c.

Lemma quiet_step_refl c : quiet_step c c.
Proof. split; [apply keeps_refl|done]. Qed.

Lemma quiet_step_trans c1 c2 c3 : quiet_step c1 c2 → quiet_step c2 c3 → quiet_step c1 c3.
Proof.
  intros (H1 & H2 & H3) (H1' & H2' & H3'). split; [by eapply keeps_trans|]. split; congruence.
Qed.

(** The pointer to a list that has been walked is cleared. *)
Lemma clear_odep_good v c A bp p i B rs :
  good cf v c A [] [] bp (Some (p, i)) None B → A RWork = [] → A (ROdep p i) = [] →
  station (win c) p = Some rs →
  ∃ c', upd_station c p (set_odep i None) = Ok c' ∧ cvs c' = cvs c ∧ quiet_step c c' ∧
    good cf v c' A [] [] bp None None B.
Proof.
  intros [Hsh Hpl Hsc Hcv Htg] HAw HAo Hp.
  destruct (upd_station_spec c p (set_odep i None) rs Hp) as (w & Hrun & Hfr & Hst).
  assert (keeps (win c) w) as Hk.
  { eapply keeps_upd; [done|exact Hp|exact Hst|]. unfold view. cbn. by rewrite length_insert. }
  exists (set_win w c). split; [exact Hrun|]. split; [done|]. split; [by split|]. split; cbn.
  - by eapply keeps_shape.
  - eapply pool_ext; [exact Hpl| |done]. intros [| | | |q k]; cbn; try done.
    rewrite decide_False by done. unfold odep_head. rewrite Hst.
    destruct (decide (q = p)) as [->|Hq].
    + rewrite Hp. cbn. destruct (decide (k = i)) as [->|Hk'].
      * rewrite decide_True by done. destruct (decide (i < length (odep_list rs))%nat).
        -- by rewrite list_lookup_insert_eq.
        -- rewrite list_insert_ge by lia. by rewrite lookup_ge_None_2 by lia.
      * rewrite decide_False by congruence. by rewrite list_lookup_insert_ne.
    + by rewrite decide_False by congruence.
  - eapply (sched_status cf (win c) w A [] [] bp p rs (set_odep i None rs)); try done.
    + intros a Ha Hv <-. by apply (sc_ev _ _ _ _ _ _ Hsc a rs).
    + intros a Ha Hv <-. by apply (sc_rd _ _ _ _ _ _ Hsc a rs).
    + intros r a Ha Hv <-. by apply (sc_od _ _ _ _ _ _ Hsc r a rs).
    + intros Hl. split; [by apply (sc_queued _ _ _ _ _ _ Hsc p rs)|].
      split; [by apply (sc_issued _ _ _ _ _ _ Hsc p rs)|by apply (sc_completed _ _ _ _ _ _ Hsc p rs)].
  - by eapply keeps_cv.
  - by eapply keeps_tags.
Qed.

Lemma broadcast_output_good c A p i B rs :
  good cf (cvs c) c A [] [] (Some (p, i)) None None B → A RWork = [] →
  station (win c) p = Some rs → completed rs = true → (i < MAX_ODEPS)%nat →
  wp out_of_links (broadcast_output p i c) (λ c', ∃ A',
    good cf (cvs c') c' A' [] [] (Some (p, S i)) None None B ∧ A' RWork = [] ∧
    A' REvent = A REvent ∧ quiet_step c c').
Proof.
  intros Hg HAw Hp Hc Hi. pose proof Hg as [Hsh Hpl Hsc Hcv Htg].
  destruct (sh_len _ _ Hsh p rs Hp) as (Hlo & Hld & _).
  destruct (lookup_lt_is_Some_2 (onames rs) i) as [n Hn]; [lia|].
  destruct (lookup_lt_is_Some_2 (odep_list rs) i) as [o Ho]; [lia|].
  unfold broadcast_output. rewrite (get_rs_station _ _ _ Hp). cbn [mbind result_bind].
  rewrite (proj2 (vget_Ok _ _ _) Hn). cbn [mbind result_bind].
  case_bool_decide as Hna.
  - exists A. split; [|split; [done|split; [done|apply quiet_step_refl]]]. split; try done.
    + eapply sched_bp; [exact Hsc|]. intros q k rs0 m _ Hq Hpd Hm Hm0. eapply pending_next; [done|].
      intros [-> ->]. congruence.
    + eapply cv_bp; [exact Hcv|]. intros q k rs0 m Hq Hpd Hm Hm0. eapply pending_next; [done|].
      intros [-> ->]. congruence.
  - pose proof (Forall_lookup_1 _ _ _ _ (sh_names _ _ Hsh p rs Hp) Hn) as Hrange. cbn in Hrange.
    destruct (clear_creator_ok (win c) (cvs c) p i (Z.to_nat n) rs (sim_cycle (mach c)) Hcv Hp) as (v' & Hv & Hcv');
      [rewrite Hn; f_equal; lia|lia|done|]. rewrite Hv. cbn [mbind result_bind].
    rewrite (proj2 (vget_Ok _ _ _) Ho). cbn [mbind result_bind]. apply wp_bind.
    set (A1 := upd (upd A RWork (A (ROdep p i))) (ROdep p i) []).
    assert (heads (qs c) (win c) None None (ROdep p i) = o) as Hhd.
    { cbn. rewrite decide_False by done. unfold odep_head. by rewrite Hp, Ho. }
    assert (good cf v' (set_cvs v' c) A1 [] (A (ROdep p i)) (Some (p, S i)) (Some (p, i)) o B) as Hg1.
    { split; cbn; try done.
      - eapply pool_ext; [eapply (pool_move _ _ A (ROdep p i) RWork); [exact Hpl|done|done|done|]| |done].
        + by apply (pool_nil _ _ _ RWork Hpl).
        + rewrite Hhd. intros [| | | |q k]; try done; unfold upd; cbn.
          destruct (decide (q = p ∧ k = i)) as [[-> ->]|Hne]; [by rewrite !decide_True|].
          by rewrite (decide_False (P := _ = _)), !(decide_False (P := ROdep q k = ROdep p i)) by (intros [= -> ->]; naive_solver).
      - eapply sched_bp; [by eapply (sched_walk cf _ A [])|]. intros q k rs0 m Hne Hq Hpd _ _. eapply pending_next; [done|].
        intros [-> ->]. apply Hne. subst A1. apply upd_same. }
    eapply wp_mono; [eapply wake_links_good; [exact Hg1| |]| done|].
    + subst A1. rewrite upd_other by done. apply upd_same.
    + change (links (qs (set_cvs v' c))) with (links (qs c)). by eapply pool_length.
    + intros c2 (A2 & Hg2 & HA2 & Hk2 & Hcvs2 & Hm2 & Hf2 & Hroots).
      destruct (agree_station' _ _ _ _ _ (proj2 Hk2) Hp) as (rs2 & Hp2 & _).
      destruct (clear_odep_good v' c2 A2 (Some (p, S i)) p i B rs2 Hg2 HA2) as (c3 & -> & Hcvs3 & Hq3 & Hg3); [|done|].
      { rewrite Hroots by done. subst A1. apply upd_same. }
      exists A2. rewrite Hcvs3, Hcvs2. split; [exact Hg3|]. split; [done|].
      split; [rewrite Hroots by done; subst A1; by rewrite !upd_other by done|].
      eapply quiet_step_trans; [|exact Hq3]. done.
Qed.
End Writeback.
