(* ===== verification/RuuSquash.v ===== *)
(** * Instances that leave the window

    What a squash does to the pool of links and to the invariant, for recovery and for
    commit. *)

From S2P Require Import Prelude Misc Chains Bpred Resource Ruu RuuStages RuuSched RuuFront Pool RuuPool RuuInv RuuSched1 RuuGood.

(** ** Freeing a list of links *)

Lemma free_links_spec as_ : ∀ fuel q hd A r,
  pool (links q) hd A → hd RFree = rslink_free_list q → r ≠ RFree → A r = as_ →
  (length as_ ≤ fuel)%nat →
  ∃ q', free_links fuel q (hd r) = Ok q' ∧ event_queue q' = event_queue q ∧
    ready_queue q' = ready_queue q ∧ length (links q') = length (links q) ∧
    pool (links q') (upd (upd hd RFree (rslink_free_list q')) r None) (upd A r []).
Proof.
  induction as_ as [|a as_ IH]; intros fuel q hd A r Hp Hf Hr HA Hfuel.
  - assert (hd r = None) as Hn by (by apply (pool_nil _ _ _ r Hp)). rewrite Hn.
    exists q. split; [by destruct fuel|]. do 3 (split; [done|]). eapply pool_ext; [exact Hp| |].
    + intros y. unfold upd. case_decide; [by subst y|]. case_decide; [by subst y|done].
    + intros y _. unfold upd. case_decide; [by subst y|done].
  - destruct (hd r) as [n|] eqn:Hn.
    2: { apply (pool_nil _ _ _ r Hp Hr) in Hn. congruence. }
    destruct (pool_free_head _ _ _ r n Hp Hr Hn) as (k & a' & rest & Hk & HA' & _ & _ & _ & Hp').
    rewrite HA in HA'. injection HA' as <- <-. destruct fuel as [|fuel]; [simpl in Hfuel; lia|].
    cbn [free_links]. unfold RSLINK_FREE. rewrite (proj2 (vget_Ok _ _ _) Hk). cbn [mbind result_bind].
    unfold vset. rewrite Hk. cbn [mbind result_bind].
    set (q1 := set_free_list _ _). rewrite Hf in Hp'.
    destruct (IH fuel q1 (upd (upd hd RFree (Some n)) r (l_next k)) (upd A r as_) r)
      as (q' & Hrun & He & Hrq & Hl & Hp2).
    + exact Hp'.
    + rewrite upd_other by done. apply upd_same.
    + done.
    + apply upd_same.
    + simpl in Hfuel. lia.
    + exists q'. rewrite upd_same in Hrun. split; [exact Hrun|]. split; [by rewrite He|].
      split; [by rewrite Hrq|]. split; [rewrite Hl; cbn; by rewrite length_insert|].
      eapply pool_ext; [exact Hp2| |]; [intros y|intros y _]; unfold upd; by repeat case_decide.
Qed.

Lemma RSLINK_FREE_LIST_spec q hd A r :
  pool (links q) hd A → hd RFree = rslink_free_list q → r ≠ RFree →
  ∃ q', RSLINK_FREE_LIST q (hd r) = Ok q' ∧ event_queue q' = event_queue q ∧
    ready_queue q' = ready_queue q ∧ length (links q') = length (links q) ∧
    pool (links q') (upd (upd hd RFree (rslink_free_list q')) r None) (upd A r []).
Proof. intros Hp Hf Hr. eapply free_links_spec; try done. by eapply pool_length. Qed.

(** ** Squashing a station *)

Section Squash.
Context {MS : Type}.
Implicit Types c : core MS.

Lemma free_odep_spec c A p k ks rs :
  pool_of (qs c) (win c) None None A → station (win c) p = Some rs → (k < length (odep_list rs))%nat →
  ∃ q w, free_odeps (k :: ks) p c = free_odeps ks p (set_win w (set_qs q c)) ∧
    same_frame (win c) w ∧
    (∀ p', station w p' = if decide (p' = p) then Some (set_odep k None rs) else station (win c) p') ∧
    pool_of q w None None (upd A (ROdep p k) []).
Proof.
  intros Hpl Hp Hk. destruct (lookup_lt_is_Some_2 _ _ Hk) as [o Ho].
  assert (heads (qs c) (win c) None None (ROdep p k) = o) as Hhd.
  { cbn. rewrite decide_False by done. unfold odep_head. by rewrite Hp, Ho. }
  destruct (RSLINK_FREE_LIST_spec (qs c) _ A (ROdep p k) Hpl) as (q & Hrun & He & Hr & Hl & Hp'); [done|done|].
  rewrite Hhd in Hrun. destruct (upd_station_spec (set_qs q c) p (set_odep k None) rs Hp) as (w & Hw & Hfr & Hst).
  exists q, w. cbn [free_odeps]. rewrite (get_rs_station _ _ _ Hp). cbn [mbind result_bind].
  rewrite (proj2 (vget_Ok _ _ _) Ho). cbn [mbind result_bind]. rewrite Hrun. cbn [mbind result_bind].
  rewrite Hw. cbn [mbind result_bind]. split; [done|]. split; [exact Hfr|]. split; [exact Hst|].
  eapply pool_ext; [exact Hp'| |done]. intros [| | | |p' k']; unfold upd; cbn; try done.
  rewrite decide_False by done. unfold odep_head. rewrite Hst. cbn.
  destruct (decide (ROdep p' k' = ROdep p k)) as [[= -> ->]|Hne].
  - rewrite decide_True by done. cbn. by rewrite list_lookup_insert_eq.
  - destruct (decide (p' = p)) as [->|]; [|done].
    rewrite Hp. cbn. rewrite list_lookup_insert_ne by congruence. done.
Qed.

(** The lists of consumers of [p] are empty. *)
Definition no_consumers (p : rs_ptr) (A : root → list alink) : root → list alink :=
  upd (upd A (ROdep p 0) []) (ROdep p 1) [].

Definition squashed (rs : RUU_station) : RUU_station :=
  squash_tag (set_odep 1 None (set_odep 0 None rs)).

Lemma squash_spec c A p rs :
  pool_of (qs c) (win c) None None A → station (win c) p = Some rs → length (odep_list rs) = MAX_ODEPS →
  ∃ q w, squash p c = Ok (set_win w (set_qs q c)) ∧ same_frame (win c) w ∧
    (∀ p', station w p' = if decide (p' = p) then Some (squashed rs) else station (win c) p') ∧
    pool_of q w None None (no_consumers p A).
Proof.
  intros Hpl Hp Hl. unfold squash. cbn [seq MAX_ODEPS].
  destruct (free_odep_spec c A p 0 [1%nat] rs Hpl Hp) as (q1 & w1 & -> & Hf1 & Hs1 & Hp1); [unfold MAX_ODEPS in Hl; lia|].
  assert (station w1 p = Some (set_odep 0 None rs)) as Hp1' by (by rewrite Hs1, decide_True).
  destruct (free_odep_spec (set_win w1 (set_qs q1 c)) _ p 1 [] _ Hp1 Hp1') as (q2 & w2 & -> & Hf2 & Hs2 & Hp2);
    [cbn; rewrite length_insert; unfold MAX_ODEPS in Hl; lia|].
  cbn [free_odeps mbind result_bind]. cbn in Hs2.
  assert (station w2 p = Some (set_odep 1 None (set_odep 0 None rs))) as Hp2' by (by rewrite Hs2, decide_True).
  destruct (upd_station_spec (set_win w2 (set_qs q2 (set_win w1 (set_qs q1 c)))) p squash_tag _ Hp2')
    as (w3 & -> & Hf3 & Hs3).
  exists q2, w3. split; [done|]. split; [by eapply same_frame_trans; [exact Hf1|eapply same_frame_trans]|].
  split.
  - intros p'. rewrite Hs3. case_decide; [done|]. cbn. rewrite Hs2. rewrite decide_False by done.
    rewrite Hs1. by rewrite decide_False.
  - eapply pool_ext; [exact Hp2| |done]. intros y. apply heads_station. intros p'. rewrite Hs3.
    case_decide; [subst p'; cbn; by rewrite Hp2'|done].
Qed.
End Squash.

Lemma no_consumers_sublist p A r : sublist (no_consumers p A r) (A r).
Proof. unfold no_consumers, upd. case_decide; [apply sublist_nil_l|]. case_decide; [apply sublist_nil_l|done]. Qed.

(** ** The invariant without the instance *)

Section Leave.
Variable cf : config.

Lemma sched_squash w w' A A' bp p rs rs' :
  sched cf w A [] [] bp → station w p = Some rs →
  (∀ p', station w' p' = if decide (p' = p) then Some rs' else station w p') →
  rs_tag rs < rs_tag rs' → (∀ r, r ≠ RFree → sublist (A' r) (A r)) →
  (∀ k, A' (ROdep p k) = []) → (∀ q, live cf w' q ↔ live cf w q ∧ q ≠ p) →
  sched cf w' A' [] [] bp.
Proof.
  intros Hs Hp Hst Ht HA Hno Hlv.
  assert (∀ r a, r ≠ RFree → a ∈ A' r → a ∈ A r) as Hin by (intros r a Hr; apply sublist_elem; auto).
  assert (∀ r a, r ≠ RFree → a ∈ A r → valid w' a ↔ valid w a ∧ a_rs a ≠ p) as Hva.
  { intros r a Hr Ha. unfold valid. rewrite Hst. case_decide as Hd; [|naive_solver].
    destruct (sc_tag _ _ _ _ _ _ Hs r a Hr Ha) as (rs0 & Hrs0 & Hle). rewrite Hd, Hp in Hrs0. injection Hrs0 as <-.
    split; [intros [= Heq]; lia|naive_solver]. }
  assert (∀ r, r ≠ RFree → sublist (base.filter (valid w') (A' r)) (base.filter (valid w) (A r))) as Hsub.
  { intros r Hr. etransitivity; [apply sublist_filter, (HA r Hr)|].
    assert (∀ l, (∀ a, a ∈ l → valid w' a → valid w a) → sublist (base.filter (valid w') l) (base.filter (valid w) l)) as Hl.
    { induction l as [|a l IH]; intros Hl; [constructor|]. rewrite !filter_cons.
      assert (sublist (base.filter (valid w') l) (base.filter (valid w) l)) by (apply IH; set_solver).
      destruct (decide (valid w' a)) as [H1|H1].
      - rewrite decide_True by (apply Hl; set_solver). by constructor.
      - case_decide; [by constructor|done]. }
    apply Hl. intros a Ha Hv. by apply (Hva r a Hr Ha). }
  assert (∀ r a, a ∈ consumers A' [] r → a ∈ consumers A [] r) as Hci by (intros []; cbn; auto).
  assert (∀ r a, a ∈ consumers A [] r → a ∈ A r ∧ r ≠ RFree) as Hcr.
  { intros [] a; cbn; try (by intros Ha%elem_of_nil). auto. }
  assert (∀ r, sublist (keys w' (consumers A' [] r)) (keys w (consumers A [] r))) as Hks.
  { intros r. destruct r; cbn; try apply sublist_nil_l. unfold keys. by apply sublist_fmap, Hsub. }
  split.
  - intros r a Hr Ha. destruct (sc_tag _ _ _ _ _ _ Hs r a Hr (Hin _ _ Hr Ha)) as (rs0 & Hrs0 & Hle).
    rewrite Hst. case_decide as Hd; [|eauto]. exists rs'. split; [done|]. rewrite Hd, Hp in Hrs0. injection Hrs0 as <-. lia.
  - intros r a Hr Ha [Hv Hne]%(Hva r a Hr (Hin _ _ Hr Ha)). apply Hlv. split; [|done].
    eapply sc_live; eauto.
  - intros a rs0 Ha Hv Hs0. apply Hin in Ha; [|done]. apply (Hva REvent) in Hv as [Hv Hne]; [|done|done].
    rewrite Hst, decide_False in Hs0 by done. by eapply sc_ev.
  - eapply sublist_NoDup; [|by eapply sc_ev_nodup]. unfold targets. by apply sublist_fmap, Hsub.
  - intros a rs0 Ha Hv Hs0. rewrite app_nil_r in Ha. apply Hin in Ha; [|done].
    apply (Hva RReady) in Hv as [Hv Hne]; [|done|done]. rewrite Hst, decide_False in Hs0 by done.
    eapply sc_rd; [exact Hs|by rewrite app_nil_r|done|done].
  - rewrite app_nil_r. eapply sublist_NoDup; [|by eapply sc_rd_nodup]. rewrite app_nil_r.
    unfold targets. by apply sublist_fmap, Hsub.
  - by intros a Ha%elem_of_nil.
  - by intros a Ha%elem_of_nil.
  - intros r a rs0 Ha Hv Hs0. pose proof (Hci r a Ha) as Ha'. destruct (Hcr r a Ha') as [Ha2 Hr].
    apply (Hva r) in Hv as [Hv Hne]; [|done|done]. rewrite Hst, decide_False in Hs0 by done. by eapply sc_od.
  - intros r. eapply sublist_NoDup; [apply Hks|by eapply sc_key_nodup].
  - intros r r' x Hx Hx'. eapply sc_key; [exact Hs| |]; (eapply sublist_elem; [apply Hks|done]).
  - intros q rs0 [Hl Hne]%Hlv Hs0. rewrite Hst, decide_False in Hs0 by done. by eapply sc_queued.
  - intros q rs0 [Hl Hne]%Hlv Hs0. rewrite Hst, decide_False in Hs0 by done. by eapply sc_issued.
  - intros q rs0 [Hl Hne]%Hlv Hs0. rewrite Hst, decide_False in Hs0 by done. by eapply sc_completed.
  - intros q k Hk. assert (q ≠ p) as Hne by (intros ->; by rewrite Hno in Hk).
    destruct (sc_odep _ _ _ _ _ _ Hs q k) as (rs0 & n & H1 & H2 & H3); [intros He; apply Hk, sublist_nil_r; rewrite <- He; by apply HA|].
    exists rs0, n. rewrite Hst, decide_False by done. split; [done|]. split; [by apply Hlv|done].
Qed.

Lemma cv_squash w w' v bp p rs' :
  cv_ok cf w v bp →
  (∀ p', station w' p' = if decide (p' = p) then Some rs' else station w p') →
  (∀ q, live cf w' q ↔ live cf w q ∧ q ≠ p) → (∀ spec n k, creator v spec n ≠ Some (p, k)) →
  cv_ok cf w' v bp.
Proof.
  intros [Hl Hs] Hst Hlv Hno. split; [done|]. intros spec n q k Hq.
  assert (q ≠ p) as Hne by (intros ->; by eapply Hno).
  destruct (Hs _ _ _ _ Hq) as (rs & H1 & H2 & H3). exists rs. rewrite Hst, decide_False by done.
  split; [done|]. split; [by apply Hlv|done].
Qed.

Lemma no_odeps w A bp q : pool_of q w None None A → sched cf w A [] [] bp →
  ∀ p k, ¬ live cf w p → A (ROdep p k) = [].
Proof.
  intros Hpl Hs p k Hl. destruct (decide (A (ROdep p k) = [])) as [|Hne]; [done|].
  destruct (sc_odep _ _ _ _ _ _ Hs p k Hne) as (rs & n & _ & ? & _). done.
Qed.

(** ** Slots of shorter windows *)

Lemma slots_pred size h n s : (0 < n ≤ size)%nat →
  s ∈ slots size h (n - 1) ↔ s ∈ slots size h n ∧ s ≠ slot size h (n - 1).
Proof.
  intros Hn. rewrite !elem_of_slots. split.
  - intros (i & Hi & ->). split; [exists i; split; [lia|done]|]. intros He%slot_inj; lia.
  - intros [(i & Hi & ->) Hne]. exists i. split; [|done]. destruct (decide (i = n - 1)%nat) as [->|]; [done|lia].
Qed.

Lemma slots_tail size h n s : (0 < n ≤ size)%nat →
  s ∈ slots size (next_slot size h) (n - 1) ↔ s ∈ slots size h n ∧ s ≠ slot size h 0.
Proof.
  intros Hn. rewrite !elem_of_slots. split.
  - intros (i & Hi & ->). rewrite slot_next. split; [exists (S i); split; [lia|done]|]. intros He%slot_inj; lia.
  - intros [(i & Hi & ->) Hne]. destruct i as [|i]; [done|]. exists i. split; [lia|]. by rewrite slot_next.
Qed.

Lemma insts_at_in l l' ss :
  (∀ s, s ∈ ss → rs_inst_of <$> l' !! s = rs_inst_of <$> l !! s) → insts_at l' ss = insts_at l ss.
Proof.
  unfold insts_at. induction ss as [|s ss IH]; intros Hl; cbn; [done|].
  rewrite (Hl s) by set_solver. rewrite IH; [done|set_solver].
Qed.

Lemma insts_at_app l ss ss' : insts_at l (ss ++ ss') = insts_at l ss ++ insts_at l ss'.
Proof. apply omap_app. Qed.

Lemma insts_at_one l s rs : l !! s = Some rs → insts_at l [s] = [rs_inst_of rs].
Proof. intros Hs. unfold insts_at. cbn. by rewrite Hs. Qed.

(** The last instance of a buffer. *)
Lemma insts_at_snoc l size h n rs : (0 < n)%nat → l !! slot size h (n - 1) = Some rs →
  insts_at l (slots size h n) = insts_at l (slots size h (n - 1)) ++ [rs_inst_of rs].
Proof.
  intros Hn Hl. destruct n as [|n]; [lia|]. replace (S n - 1)%nat with n in * by lia.
  by rewrite slots_S, insts_at_app, (insts_at_one _ _ _ Hl).
Qed.

(** The first one. *)
Lemma insts_at_cons l size h n rs : (0 < n)%nat → (h < size)%nat → l !! h = Some rs →
  insts_at l (slots size h n) = rs_inst_of rs :: insts_at l (slots size (next_slot size h) (n - 1)).
Proof.
  intros Hn Hh Hl. destruct n as [|n]; [lia|]. replace (S n - 1)%nat with n in * by lia.
  rewrite slots_cons, slot_0 by done. unfold insts_at. cbn. by rewrite Hl.
Qed.

Lemma insts_at_length l size h n : (0 < size)%nat → length l = size → length (insts_at l (slots size h n)) = n.
Proof.
  intros Hs Hl. unfold insts_at, slots. rewrite <- (length_seq n 0) at 2.
  generalize (seq 0 n). intros is_. induction is_ as [|i is_ IH]; [done|]. cbn.
  destruct (lookup_lt_is_Some_2 l (slot size h i)) as [rs ->]; [rewrite Hl; by apply slot_lt|].
  cbn. by rewrite IH.
Qed.

Lemma live_station w p : shape cf w → live cf w p → is_Some (station w p).
Proof.
  intros Hs Hl. destruct p as [s|s]; cbn in *; apply elem_of_slots in Hl as (i & _ & ->); apply lookup_lt_is_Some;
    rewrite ?(sh_ruu _ _ Hs), ?(sh_lsq _ _ Hs); apply slot_lt; by destruct Hs.
Qed.
End Leave.
