(* ===== verification/RuuRecover.v ===== *)
(** * Recovery keeps the invariant

    The walk from the tail to the mispredicted branch squashes what is younger; the
    two buffers stay in step. *)

From S2P Require Import Prelude Misc Chains Bpred Resource Ruu RuuStages RuuSched RuuFront Pool RuuPool RuuInv RuuSched1 RuuGood RuuSquash.

Section Recover.
Context {MS : Type} `{!Environment MS}.
Variable cf : config.
Implicit Types c : core MS.

(** The invariant without the shape of the buffers, which the walk restores step by
    step. *)
Record linked (v : create_vectors) (q : queues) (w : window) (A : root → list alink)
    (bp : option (rs_ptr * nat)) (B : Z * Z) : Prop := {
  li_pool : pool_of q w None None A;
  li_sched : sched cf w A [] [] bp;
  li_cv : cv_ok cf w v bp;
  li_tags : tags_below cf w B
}.

Lemma good_linked v c A bp B : good cf v c A [] [] bp None None B ↔ shape cf (win c) ∧ linked v (qs c) (win c) A bp B.
Proof. split; [by intros []|intros [? []]; by split]. Qed.

Lemma linked_tails v q w A bp B r l : linked v q w A bp B → linked v q (set_tails r l w) A bp B.
Proof.
  intros [Hp [] [] Ht]. split; [exact Hp|constructor; assumption|constructor; assumption|exact Ht].
Qed.

(** One instance leaves: [f] takes it out of its buffer. *)
Lemma squash_linked v c A bp L p rs (f : window → window) :
  linked v (qs c) (win c) A bp (L + 1, L) → live cf (win c) p → station (win c) p = Some rs →
  length (odep_list rs) = MAX_ODEPS → (∀ spec n k, creator v spec n ≠ Some (p, k)) → L + 1 < 2 ^ 32 →
  (∀ w q, station (f w) q = station w q) →
  (∀ w, same_frame (win c) w → ∀ q, live cf (f w) q ↔ live cf (win c) q ∧ q ≠ p) →
  ∃ q w, squash p c = Ok (set_win w (set_qs q c)) ∧ same_frame (win c) w ∧
    (∀ p', station w p' = if decide (p' = p) then Some (squashed rs) else station (win c) p') ∧
    linked v q (f w) (no_consumers p A) bp (L + 1, L).
Proof.
  intros [Hpl Hsc Hcv Htg] Hlv Hp Hlen Hno HL Hfs Hfl.
  destruct (squash_spec c A p rs Hpl Hp Hlen) as (q & w & Hrun & Hfr & Hst & Hpl').
  destruct (Htg p rs Hp) as [Ht0 HtL]. specialize (HtL Hlv). cbn in Ht0, HtL.
  assert (rs_tag (squashed rs) = rs_tag rs + 1) as Htag by (cbn; apply u32_small; lia).
  exists q, w. do 3 (split; [done|]). specialize (Hfl w Hfr). split.
  - eapply pool_ext; [exact Hpl'| |done]. intros y. apply heads_station. intros p'. by rewrite Hfs.
  - eapply (sched_squash cf (win c) (f w) A _ bp p rs (squashed rs) Hsc Hp); [|lia| | |done].
    + intros p'. by rewrite Hfs.
    + intros r _. apply no_consumers_sublist.
    + intros k. destruct (decide (A (ROdep p k) = [])) as [He|Hne].
      * apply sublist_nil_r. rewrite <- He. apply no_consumers_sublist.
      * destruct (pool_nil _ _ _ (ROdep p k) Hpl') as [Hn _]; [done|]. apply Hn. cbn.
        rewrite decide_False by done. unfold odep_head. rewrite Hst, decide_True by done. cbn.
        destruct k as [|[|k]]; [| |rewrite lookup_ge_None_2; [done|rewrite !length_insert; unfold MAX_ODEPS in *; lia]].
        -- rewrite list_lookup_insert_ne by done. rewrite list_lookup_insert_eq; [done|unfold MAX_ODEPS in *; lia].
        -- rewrite list_lookup_insert_eq; [done|]. rewrite length_insert. unfold MAX_ODEPS in *; lia.
  - eapply (cv_squash cf (win c)); [done| |exact Hfl|done]. intros p'. rewrite Hfs, Hst. done.
  - intros p' rs' Hp'. rewrite Hfs, Hst in Hp'. rewrite Hfl. case_decide as Hd.
    + injection Hp' as <-. subst p'. cbn [fst snd]. rewrite Htag. split; [lia|]. by intros [_ ?].
    + destruct (Htg p' rs' Hp') as [? ?]. split; [done|]. intros [? _]. auto.
Qed.

(** What the walk keeps: nothing happens to the instances that stay. *)
Definition shrinks c c' : Prop :=
  RUU_head (win c') = RUU_head (win c) ∧ LSQ_head (win c') = LSQ_head (win c) ∧
  (∀ q, live cf (win c') q → live cf (win c) q ∧ station (win c') q = station (win c) q) ∧
  cvs c' = cvs c ∧ mach c' = mach c ∧ front c' = front c.

Lemma shrinks_refl c : shrinks c c.
Proof. by repeat split. Qed.

Lemma shrinks_trans c1 c2 c3 : shrinks c1 c2 → shrinks c2 c3 → shrinks c1 c3.
Proof.
  intros (H1 & H2 & H3 & H4 & H5 & H6) (G1 & G2 & G3 & G4 & G5 & G6).
  repeat split; try congruence.
  - by apply H3, G3.
  - destruct (G3 q) as [Hl ->]; [done|]. by apply H3.
Qed.

Lemma live_drop_LSQ w0 w q : same_frame w0 w → (0 < LSQ_num w0 ≤ LSQ_size cf)%nat →
  live cf (drop_LSQ w) q ↔ live cf w0 q ∧ q ≠ InLSQ (slot (LSQ_size cf) (LSQ_head w0) (LSQ_num w0 - 1)).
Proof.
  intros (E1 & _ & E3 & E4 & _ & E6 & _) Hn.
  destruct q as [s|s]; unfold live, ruu_slots, lsq_slots, drop_LSQ; cbn [RUU_head RUU_num LSQ_head LSQ_num]; rewrite ?E1, ?E3, ?E4, ?E6.
  - naive_solver.
  - rewrite slots_pred by done. naive_solver.
Qed.

Lemma live_drop_RUU w0 w q : same_frame w0 w → (0 < RUU_num w0 ≤ RUU_size cf)%nat →
  live cf (drop_RUU w) q ↔ live cf w0 q ∧ q ≠ InRUU (slot (RUU_size cf) (RUU_head w0) (RUU_num w0 - 1)).
Proof.
  intros (E1 & _ & E3 & E4 & _ & E6 & _) Hn.
  destruct q as [s|s]; unfold live, ruu_slots, lsq_slots, drop_RUU; cbn [RUU_head RUU_num LSQ_head LSQ_num]; rewrite ?E1, ?E3, ?E4, ?E6.
  - rewrite slots_pred by done. naive_solver.
  - naive_solver.
Qed.

(** The load or store of the youngest instance. *)
Lemma recover_LSQ v c A bp L rtail ltail :
  linked v (qs c) (win c) A bp (L + 1, L) → shape cf (set_tails rtail ltail (win c)) →
  (∀ n, creator v true n = None) → L + 1 < 2 ^ 32 →
  (0 < LSQ_num (win c))%nat → rs_spec_mode <$> last (linsts cf (win c)) = Some true →
  ∃ c' A', squash (InLSQ (prev_slot (LSQ_size cf) ltail)) c = Ok c' ∧
    linked v (qs c') (drop_LSQ (win c')) A' bp (L + 1, L) ∧
    prev_slot (LSQ_size cf) ltail = slot (LSQ_size cf) (LSQ_head (win c)) (LSQ_num (win c) - 1) ∧
    shrinks c (set_win (drop_LSQ (win c')) c') ∧ same_frame (win c) (win c') ∧
    agree shape_view (win c) (win c') ∧ A' RWork = A RWork ∧ A' REvent = A REvent ∧ (∀ s, station (win c') (InRUU s) = station (win c) (InRUU s)).
Proof.
  intros Hli Hsh HnoS HL Hnum Hspec. set (li := prev_slot (LSQ_size cf) ltail).
  assert (li = slot (LSQ_size cf) (LSQ_head (win c)) (LSQ_num (win c) - 1)) as Hlis.
  { subst li. pose proof (sh_ltail _ _ Hsh) as Ht. cbn in Ht. rewrite Ht.
    replace (LSQ_num (win c)) with (S (LSQ_num (win c) - 1)) at 1 by lia.
    apply prev_slot_slot, (sh_lpos _ _ Hsh). }
  assert (LSQ_num (win c) ≤ LSQ_size cf)%nat as Hle by apply (sh_lnum _ _ Hsh).
  assert (live cf (win c) (InLSQ li)) as Hlv.
  { cbn. apply elem_of_slots. exists (LSQ_num (win c) - 1)%nat. split; [lia|done]. }
  destruct (live_station cf (set_tails rtail ltail (win c)) (InLSQ li) Hsh Hlv) as [rs Hp].
  change (station (win c) (InLSQ li) = Some rs) in Hp.
  destruct (sh_len _ _ Hsh (InLSQ li) rs Hp) as (_ & Hlen & _).
  assert (rs_spec_mode (rs_inst_of rs) = true) as Hsp.
  { unfold linsts, lsq_slots in Hspec. rewrite (insts_at_snoc _ _ _ _ rs) in Hspec; [|done|by rewrite <- Hlis].
    rewrite last_snoc in Hspec. by injection Hspec. }
  assert (∀ spec n k, creator v spec n ≠ Some (InLSQ li, k)) as Hno.
  { intros [] n k Hc; [by rewrite HnoS in Hc|].
    destruct (cv_creator _ _ _ _ (li_cv _ _ _ _ _ _ Hli) _ _ _ _ Hc) as (rs0 & Hp0 & _ & _ & _ & Hs0 & _). congruence. }
  destruct (squash_linked v c A bp L (InLSQ li) rs drop_LSQ Hli Hlv Hp Hlen Hno HL) as (q & w & Hrun & Hfr & Hst & Hli').
  - done.
  - intros w Hfr0 q0. rewrite Hlis. by apply live_drop_LSQ.
  - pose proof (fun q0 => proj1 (live_drop_LSQ (win c) w q0 Hfr (conj Hnum Hle))) as Hlw. rewrite <- Hlis in Hlw.
    exists (set_win w (set_qs q c)), (no_consumers (InLSQ li) A). split; [done|]. split; [done|]. split; [done|].
    split; [|split; [done|split; [|split; [|split]]]].
    + split; [apply Hfr|]. split; [apply Hfr|]. split; [|done]. intros q0 Hq0. destruct (Hlw q0 Hq0) as [? ?].
      split; [done|]. change (station w q0 = station (win c) q0). rewrite Hst. by rewrite decide_False.
    + eapply agree_upd; [exact Hp|exact Hst|]. unfold shape_view. cbn. by rewrite !length_insert.
    + done.
    + done.
    + intros s. cbn. change (RUU w !! s) with (station w (InRUU s)). rewrite Hst. by rewrite decide_False.
Qed.

(** The youngest instance. *)
Lemma last_rinst w rs : shape cf w → (0 < RUU_num w)%nat → ruu_nth cf w (RUU_num w - 1) = Some rs →
  rinsts cf w = insts_at (RUU w) (slots (RUU_size cf) (RUU_head w) (RUU_num w - 1)) ++ [rs_inst_of rs].
Proof. intros Hs Hn Hr. by apply insts_at_snoc. Qed.

Lemma last_linst w : shape cf w → (0 < LSQ_num w)%nat → ∃ i,
  linsts cf w = insts_at (LSQ w) (slots (LSQ_size cf) (LSQ_head w) (LSQ_num w - 1)) ++ [i].
Proof.
  intros Hs Hn. destruct (lookup_lt_is_Some_2 (LSQ w) (slot (LSQ_size cf) (LSQ_head w) (LSQ_num w - 1))) as [rs Hr].
  { rewrite (sh_lsq _ _ Hs). apply slot_lt, (sh_lpos _ _ Hs). }
  exists (rs_inst_of rs). by apply insts_at_snoc.
Qed.

(** An address computation has its load or store in the other buffer. *)
Lemma last_in_step w rs : shape cf w → (0 < RUU_num w)%nat → ruu_nth cf w (RUU_num w - 1) = Some rs →
  ea_comp (rs_inst_of rs) = true →
  (0 < LSQ_num w)%nat ∧ rs_spec_mode <$> last (linsts cf w) = Some (rs_spec_mode (rs_inst_of rs)).
Proof.
  intros Hs Hn Hr Hea. pose proof (sh_sync _ _ Hs) as Hsy. rewrite (last_rinst w rs Hs Hn Hr) in Hsy.
  rewrite filter_app, filter_cons_True, fmap_app in Hsy by done. cbn [base.filter list_filter fmap list_fmap] in Hsy.
  assert (last (rs_spec_mode <$> linsts cf w) = Some (rs_spec_mode (rs_inst_of rs))) as Hl by (rewrite <- Hsy; apply last_snoc).
  rewrite fmap_last in Hl. split; [|done]. destruct (decide (LSQ_num w = 0%nat)) as [H0|]; [|lia].
  unfold linsts, lsq_slots in Hl. by rewrite H0 in Hl.
Qed.

Definition drop_both (b : bool) (w : window) : window := drop_RUU (if b then drop_LSQ w else w).

Lemma same_frame_drop b r l w w' :
  same_frame w w' → same_frame (set_tails r l (drop_both b w)) (set_tails r l (drop_both b w')).
Proof. intros (E1 & E2 & E3 & E4 & E5 & E6 & E7 & E8). destruct b; repeat split; cbn; congruence. Qed.

Lemma shape_drop w rtail ltail rs :
  shape cf (set_tails rtail ltail w) → (0 < RUU_num w)%nat → ruu_nth cf w (RUU_num w - 1) = Some rs →
  shape cf (set_tails (slot (RUU_size cf) (RUU_head w) (RUU_num w - 1))
    (if ea_comp (rs_inst_of rs) then slot (LSQ_size cf) (LSQ_head w) (LSQ_num w - 1) else ltail)
    (drop_both (ea_comp (rs_inst_of rs)) w)).
Proof.
  intros Hs Hn Hr. set (w0 := set_tails rtail ltail w) in *.
  pose proof (last_rinst w0 rs Hs Hn Hr) as HR. cbn [RUU RUU_head RUU_num w0 set_tails] in HR.
  pose proof (sh_rin _ _ Hs) as Hrin. pose proof (sh_lin _ _ Hs) as Hlin. pose proof (sh_sync _ _ Hs) as Hsy.
  rewrite HR in Hrin, Hsy. apply Forall_app in Hrin as [Hrin _]. rewrite filter_app, fmap_app in Hsy.
  pose proof (sh_rnum _ _ Hs). pose proof (sh_lnum _ _ Hs). cbn [RUU_num LSQ_num w0 set_tails] in *.
  destruct (ea_comp (rs_inst_of rs)) eqn:Hea.
  - destruct (last_in_step w0 rs Hs Hn Hr Hea) as [Hln _]. destruct (last_linst w0 Hs Hln) as [i HL].
    cbn [LSQ LSQ_head LSQ_num w0 set_tails] in HL, Hln.
    rewrite HL in Hlin, Hsy. apply Forall_app in Hlin as [Hlin _]. rewrite filter_cons_True in Hsy by done.
    rewrite fmap_app in Hsy. apply app_inj_tail in Hsy as [Hsy _].
    destruct Hs; split; try done; cbn [RUU_num LSQ_num set_tails drop_both drop_RUU drop_LSQ]; lia.
  - rewrite filter_cons_False, app_nil_r in Hsy by congruence.
    destruct Hs; split; try done; cbn [RUU_num LSQ_num set_tails drop_both drop_RUU drop_LSQ]; lia.
Qed.

(** One iteration of the walk. *)
Definition recover_step (ri li ltail : nat) c : result (nat * nat * core MS) :=
  rs ← get_rs (win c) (InRUU ri);
  '(li', ltail', c) ←
    (if ea_comp (rs_inst_of rs) then
       if bool_decide (LSQ_num (win c) = 0%nat) then Fault (Panic "RUU and LSQ out of sync") else
       c ← squash (InLSQ li) c;
       Ok (prev_slot (LSQ_size cf) li, li, set_win (drop_LSQ (win c)) c)
     else Ok (li, ltail, c));
  c ← squash (InRUU ri) c;
  Ok (li', ltail', set_win (drop_RUU (win c)) c).

Lemma recover_loop_step fuel branch ri li rtail ltail c :
  recover_loop cf (S fuel) branch ri li rtail ltail c =
    if bool_decide (ri = branch) then Ok (rtail, ltail, c) else
    if bool_decide (RUU_num (win c) = 0%nat) then Fault (Panic "empty RUU") else
    if bool_decide (ri = RUU_head (win c)) then Fault (Panic "RUU head and tail broken") else
    '(li', ltail', c) ← recover_step ri li ltail c;
    recover_loop cf fuel branch (prev_slot (RUU_size cf) ri) li' ri ltail' c.
Proof.
  cbn [recover_loop]. do 3 (case_bool_decide; [done|]). unfold recover_step.
  destruct (get_rs _ _) as [rs|]; [|done]. cbn [mbind result_bind].
  destruct (if ea_comp (rs_inst_of rs) then _ else _) as [[[li' lt'] c1]|]; [|done]. cbn [mbind result_bind].
  by destruct (squash (InRUU ri) c1).
Qed.

Lemma recover_step_good v c A bp L rtail ltail rs :
  linked v (qs c) (win c) A bp (L + 1, L) → shape cf (set_tails rtail ltail (win c)) → A RWork = [] →
  (∀ n, creator v true n = None) → L + 1 < 2 ^ 32 → (0 < RUU_num (win c))%nat →
  ruu_nth cf (win c) (RUU_num (win c) - 1) = Some rs → rs_spec_mode (rs_inst_of rs) = true →
  ∃ ltail' c' A', let ri := slot (RUU_size cf) (RUU_head (win c)) (RUU_num (win c) - 1) in
    recover_step ri (prev_slot (LSQ_size cf) ltail) ltail c = Ok (prev_slot (LSQ_size cf) ltail', ltail', c') ∧
    linked v (qs c') (win c') A' bp (L + 1, L) ∧ shape cf (set_tails ri ltail' (win c')) ∧ A' RWork = [] ∧
    A' REvent = A REvent ∧ shrinks c c' ∧ RUU_num (win c') = (RUU_num (win c) - 1)%nat.
Proof.
  intros Hli Hsh HAw HnoS HL Hn Hr Hsp. cbv zeta. set (ri := slot _ _ _).
  assert (RUU_num (win c) ≤ RUU_size cf)%nat as Hle by apply (sh_rnum _ _ Hsh).
  pose proof (shape_drop (win c) rtail ltail rs Hsh Hn Hr) as Hsh'. fold ri in Hsh'.
  unfold recover_step. rewrite (get_rs_station (win c) (InRUU ri) rs Hr). cbn [mbind result_bind].
  assert (∃ ltail' c1 A1,
    (if ea_comp (rs_inst_of rs) then
       if bool_decide (LSQ_num (win c) = 0%nat) then Fault (Panic "RUU and LSQ out of sync") else
       c ← squash (InLSQ (prev_slot (LSQ_size cf) ltail)) c;
       Ok (prev_slot (LSQ_size cf) (prev_slot (LSQ_size cf) ltail), prev_slot (LSQ_size cf) ltail, set_win (drop_LSQ (win c)) c)
     else Ok (prev_slot (LSQ_size cf) ltail, ltail, c)) = Ok (prev_slot (LSQ_size cf) ltail', ltail', c1) ∧
    linked v (qs c1) (win c1) A1 bp (L + 1, L) ∧ A1 RWork = [] ∧ A1 REvent = A REvent ∧ shrinks c c1 ∧
    shape cf (set_tails ri ltail' (drop_RUU (win c1))) ∧ RUU_num (win c1) = RUU_num (win c) ∧
    station (win c1) (InRUU ri) = Some rs) as (ltail' & c1 & A1 & -> & Hli1 & HA1 & HE1 & Hsk1 & Hsh1 & Hn1 & Hr1).
  { destruct (ea_comp (rs_inst_of rs)) eqn:Hea.
    - destruct (last_in_step (set_tails rtail ltail (win c)) rs Hsh Hn Hr Hea) as [Hln Hls].
      cbn [LSQ_num set_tails] in Hln. rewrite bool_decide_false by lia.
      destruct (recover_LSQ v c A bp L rtail ltail Hli Hsh HnoS HL Hln) as (c1 & A1 & -> & Hli1 & Hlis & Hsk & Hfr & Hag & HA1 & HE1 & Hst);
        [etransitivity; [exact Hls|by rewrite Hsp]|]. cbn [mbind result_bind].
      exists (prev_slot (LSQ_size cf) ltail), (set_win (drop_LSQ (win c1)) c1), A1. split; [done|].
      split; [done|]. split; [by rewrite HA1|]. split; [done|]. split; [done|]. split; [|split; [apply Hfr|transitivity (station (win c1) (InRUU ri)); [done|rewrite Hst; exact Hr]]].
      rewrite Hlis. eapply agree_shape; [| |exact Hsh'].
      + by apply (same_frame_drop true).
      + intros q. cbn. apply (Hag q).
    - exists ltail, c, A. split; [done|]. split; [done|]. split; [done|]. split; [done|]. split; [apply shrinks_refl|]. done. }
  cbn [mbind result_bind]. pose proof Hsk1 as (Eh & Elh & Hlv1 & _).
  assert (ri = slot (RUU_size cf) (RUU_head (win c1)) (RUU_num (win c1) - 1)) as Hri by (by rewrite Eh, Hn1).
  assert (live cf (win c1) (InRUU ri)) as Hlv.
  { cbn. apply elem_of_slots. exists (RUU_num (win c1) - 1)%nat. rewrite Hn1, Eh. split; [lia|done]. }
  assert (∀ spec n k, creator v spec n ≠ Some (InRUU ri, k)) as Hno.
  { intros [] n k Hc; [by rewrite HnoS in Hc|].
    destruct (cv_creator _ _ _ _ (li_cv _ _ _ _ _ _ Hli1) _ _ _ _ Hc) as (rs0 & Hp0 & _ & _ & _ & Hs0 & _). congruence. }
  destruct (squash_linked v c1 A1 bp L (InRUU ri) rs drop_RUU Hli1 Hlv Hr1) as (q & w & -> & Hfr & Hst & Hli2).
  - by apply (sh_len _ _ Hsh (InRUU ri) rs Hr).
  - done.
  - done.
  - done.
  - intros w Hfr0 q0. rewrite Hri. apply live_drop_RUU; [done|lia].
  - cbn [mbind result_bind win set_win]. exists ltail', (set_win (drop_RUU w) (set_win w (set_qs q c1))), (no_consumers (InRUU ri) A1).
    split; [done|]. split; [done|]. split; [|split; [done|split; [done|split]]].
    + eapply agree_shape; [| |exact Hsh1].
      * by apply (same_frame_drop false).
      * intros p'. cbn. change (shape_view <$> station w p' = shape_view <$> station (win c1) p'). rewrite Hst. case_decide; [|done].
        subst p'. rewrite Hr1. cbn. unfold shape_view. cbn. by rewrite !length_insert.
    + eapply shrinks_trans; [exact Hsk1|]. split; [apply Hfr|]. split; [apply Hfr|]. split; [|done].
      intros q0 Hq0. apply (live_drop_RUU (win c1)) in Hq0 as [Hq0 Hne]; [|done|lia].
      split; [done|]. change (station w q0 = station (win c1) q0). rewrite Hst, decide_False; [done|]. by rewrite Hri.
    + cbn. destruct Hfr as (_ & _ & -> & _). by rewrite Hn1.
Qed.

Lemma recover_loop_good v bp L j : ∀ fuel c rtail ltail A,
  linked v (qs c) (win c) A bp (L + 1, L) → shape cf (set_tails rtail ltail (win c)) → A RWork = [] →
  (∀ n, creator v true n = None) → L + 1 < 2 ^ 32 → (j < RUU_num (win c))%nat →
  (RUU_num (win c) - S j ≤ fuel)%nat →
  (∀ i rs, (j < i < RUU_num (win c))%nat → ruu_nth cf (win c) i = Some rs → rs_spec_mode (rs_inst_of rs) = true) →
  ∃ rtail' ltail' c' A',
    recover_loop cf fuel (slot (RUU_size cf) (RUU_head (win c)) j) (prev_slot (RUU_size cf) rtail)
      (prev_slot (LSQ_size cf) ltail) rtail ltail c = Ok (rtail', ltail', c') ∧
    linked v (qs c') (win c') A' bp (L + 1, L) ∧ shape cf (set_tails rtail' ltail' (win c')) ∧
    A' RWork = [] ∧ A' REvent = A REvent ∧ shrinks c c' ∧ RUU_num (win c') = S j.
Proof.
  induction fuel as [|fuel IH]; intros c rtail ltail A Hli Hsh HAw Hno HL Hj Hf Hsp.
  all: assert (RUU_num (win c) ≤ RUU_size cf)%nat as Hle by apply (sh_rnum _ _ Hsh).
  all: assert (prev_slot (RUU_size cf) rtail = slot (RUU_size cf) (RUU_head (win c)) (RUU_num (win c) - 1)) as Hri
    by (pose proof (sh_rtail _ _ Hsh) as Ht; cbn in Ht; rewrite Ht;
        replace (RUU_num (win c)) with (S (RUU_num (win c) - 1)) at 1 by lia;
        apply prev_slot_slot, (sh_rpos _ _ Hsh)).
  - assert (RUU_num (win c) = S j) as Hn by lia. exists rtail, ltail, c, A.
    split; [|by eauto using shrinks_refl].
    unfold recover_loop. rewrite bool_decide_true; [done|]. rewrite Hri. f_equal. lia.
  - rewrite recover_loop_step, Hri. destruct (decide (RUU_num (win c) = S j)) as [Hn|Hn].
    { exists rtail, ltail, c, A. split; [|by eauto using shrinks_refl].
      rewrite bool_decide_true; [done|]. f_equal. lia. }
    rewrite bool_decide_false by (intros He%slot_inj; lia).
    rewrite bool_decide_false by lia.
    rewrite bool_decide_false.
    2: { intros He. rewrite <- (slot_0 (RUU_size cf) (RUU_head (win c))) in He at 2 by apply (sh_rhead _ _ Hsh).
         apply slot_inj in He; lia. }
    destruct (lookup_lt_is_Some_2 (RUU (win c)) (slot (RUU_size cf) (RUU_head (win c)) (RUU_num (win c) - 1))) as [rs Hr].
    { pose proof (sh_ruu _ _ Hsh) as Hlen. cbn in Hlen. rewrite Hlen. apply slot_lt. lia. }
    destruct (recover_step_good v c A bp L rtail ltail rs Hli Hsh HAw Hno HL) as
      (ltail' & c1 & A1 & Hrun & Hli1 & Hsh1 & HA1 & HE1 & Hsk & Hn1); [lia|exact Hr|apply (Hsp (RUU_num (win c) - 1)%nat rs); [lia|exact Hr]|].
    rewrite Hrun. cbn [mbind result_bind]. pose proof Hsk as (Eh & _ & Hlv & _).
    destruct (IH c1 (slot (RUU_size cf) (RUU_head (win c)) (RUU_num (win c) - 1)) ltail' A1 Hli1 Hsh1 HA1 Hno HL)
      as (r' & l' & c2 & A2 & Hrun2 & Hli2 & Hsh2 & HA2 & HE2 & Hsk2 & Hn2); [lia|lia| |].
    + intros i rs0 Hi Hr0. unfold ruu_nth in Hr0. rewrite Eh in Hr0. apply (Hsp i rs0); [lia|].
      unfold ruu_nth. rewrite <- Hr0. symmetry. apply (Hlv (InRUU _)). cbn. apply elem_of_slots.
      exists i. split; [lia|]. by rewrite Eh.
    + exists r', l', c2, A2. rewrite Eh in Hrun2. split; [exact Hrun2|].
      do 3 (split; [done|]). split; [congruence|]. split; [by eapply shrinks_trans|done].
Qed.

Lemma clear_spec_creator v n : creator (clear_spec_cv v) true n = None.
Proof.
  unfold creator, clear_spec_cv. cbn [use_spec_cv].
  destruct (replicate MD_TOTAL_REGS false !! n) as [b|] eqn:Hb; [|done].
  by apply lookup_replicate in Hb as [-> _].
Qed.

Lemma clear_spec_cv_ok w v bp : cv_ok cf w v bp → cv_ok cf w (clear_spec_cv v) bp.
Proof.
  intros [Hl Hc]. split.
  - split; [apply length_replicate|apply Hl].
  - intros [] n p k Hp; [by rewrite clear_spec_creator in Hp|]. by apply Hc.
Qed.

Lemma tags_mono w a b a' b' : tags_below cf w (a, b) → a ≤ a' → b ≤ b' → tags_below cf w (a', b').
Proof.
  intros Ht Ha Hb p rs Hp. destruct (Ht p rs Hp) as [H1 H2]. cbn in *. split; [lia|].
  intros Hl. specialize (H2 Hl). lia.
Qed.

(** Recovery leaves the instances up to the branch, and nothing else. *)
Lemma ruu_recover_good c A bp L j :
  good cf (cvs c) c A [] [] bp None None (L, L) → A RWork = [] → L + 1 < 2 ^ 32 → (j < RUU_num (win c))%nat →
  (∀ i rs, (j < i < RUU_num (win c))%nat → ruu_nth cf (win c) i = Some rs → rs_spec_mode (rs_inst_of rs) = true) →
  ∃ c' A', ruu_recover cf (slot (RUU_size cf) (RUU_head (win c)) j) c = Ok c' ∧
    good cf (cvs c') c' A' [] [] bp None None (L + 1, L + 1) ∧ A' RWork = [] ∧
    A' REvent = A REvent ∧ RUU_num (win c') = S j ∧ RUU_head (win c') = RUU_head (win c) ∧
    LSQ_head (win c') = LSQ_head (win c) ∧
    (∀ q, live cf (win c') q → live cf (win c) q ∧ station (win c') q = station (win c) q) ∧
    cvs c' = clear_spec_cv (cvs c) ∧ mach c' = mach c ∧ front c' = front c.
Proof.
  intros [Hsh Hli]%good_linked HAw HL Hj Hsp. destruct Hli as [Hpl Hsc Hcv Htg].
  assert (linked (clear_spec_cv (cvs c)) (qs c) (win c) A bp (L + 1, L)) as Hli.
  { split; [done|done|by apply clear_spec_cv_ok|]. eapply tags_mono; [exact Htg|lia|lia]. }
  destruct (recover_loop_good (clear_spec_cv (cvs c)) bp L j (RUU_size cf) c (RUU_tail (win c)) (LSQ_tail (win c)) A)
    as (r & l & c1 & A1 & Hrun & Hli1 & Hsh1 & HA1 & HE1 & (E1 & E2 & Hlv & E4 & E5 & E6) & Hn1); try done.
  - destruct (win c); exact Hsh.
  - apply clear_spec_creator.
  - pose proof (sh_rnum _ _ Hsh). lia.
  - unfold ruu_recover. rewrite Hrun. cbn [mbind result_bind]. eexists _, A1. split; [done|].
    rewrite E4. split; [|split; [done|split; [done|split; [done|split; [done|split; [done|split; [exact Hlv|done]]]]]]].
    apply good_linked. split; [exact Hsh1|]. apply linked_tails. destruct Hli1 as [G1 G2 G3 G4]. split; try done.
    eapply tags_mono; [exact G4|lia|lia].
Qed.

(** ** A mispredicted branch *)

Definition after_recovery (s : MS) (rs : RUU_station) c : machine MS :=
  let m := mach c in
  set_delay (u32 (ruu_branch_penalty cf))
    (set_pred ((λ b, bpred_recover b (stack_recover_idx (rs_inst_of rs))) <$> pred m)
       (set_spec false (set_ports s m))).

Definition after_recovery_front (f : front_end) : front_end :=
  mkFront (fetch_data f) 0 0 0 (recover_PC f) (recover_PC f) (pred_PC f) (recover_PC f) (regs_PC f)
    (inst_seq f) (last_op f) (counters f).

Lemma live_nth w j : (j < RUU_num w)%nat → live cf w (InRUU (slot (RUU_size cf) (RUU_head w) j)).
Proof. intros Hj. cbn. apply elem_of_slots. by exists j. Qed.

Lemma live_InRUU w s : live cf w (InRUU s) → ∃ j, (j < RUU_num w)%nat ∧ s = slot (RUU_size cf) (RUU_head w) j.
Proof. intros (j & Hj & ->)%elem_of_slots. by exists j. Qed.

(** The branch at position [j] is the one that started the wrong path. *)
Definition mispredicted (w : window) (j : nat) : Prop :=
  (j < RUU_num w)%nat ∧ ∀ i rs, (i < RUU_num w)%nat → ruu_nth cf w i = Some rs →
    rs_spec_mode (rs_inst_of rs) = bool_decide (j < i)%nat ∧
    (recover_inst rs = true → completed rs = true ∨ i = j) ∧ (i = j → completed rs = true).

Lemma lsq_shrinks w w' : lsq_ok cf w →
  (∀ q, live cf w' q → live cf w q ∧ station w' q = station w q) → lsq_ok cf w'.
Proof.
  intros Hl Hq s rs Hs Hr. destruct (Hq (InLSQ s) Hs) as [Hlv He]. apply (Hl s rs Hlv). cbn in He. by rewrite <- He.
Qed.

Lemma recover_branch_good c A L j rs s (p := InRUU (slot (RUU_size cf) (RUU_head (win c)) j)) :
  good cf (cvs c) c A [] [] (Some (p, 0%nat)) None None (L, L) → A RWork = [] → L + 1 < 2 ^ 32 →
  lsq_ok cf (win c) → mispredicted (win c) j → spec_mode (mach c) = true → station (win c) p = Some rs →
  reset_spec_state (ports (mach c)) = Ok s →
  ∃ c' A', recover_branch cf p rs c = Ok c' ∧
    good cf (cvs c') c' A' [] [] (Some (p, 0%nat)) None None (L + 1, L + 1) ∧ A' RWork = [] ∧ A' REvent = A REvent ∧
    lsq_ok cf (win c') ∧ spec_ok cf (win c') false ∧ live cf (win c') p ∧ station (win c') p = Some rs ∧
    (∀ q, live cf (win c') q → live cf (win c) q ∧ station (win c') q = station (win c) q) ∧
    mach c' = after_recovery s rs c ∧ front c' = after_recovery_front (front c).
Proof.
  intros Hg HAw HL Hlq [Hj Hm] Hsm Hp Hreset.
  destruct (ruu_recover_good c A (Some (p, 0%nat)) L j Hg HAw HL Hj) as
    (c1 & A1 & Hrun & Hg1 & HA1 & HE1 & Hn1 & Eh & _ & Hlv & Ecv & Em & Ef).
  { intros i rs0 Hi Hr. destruct (Hm i rs0) as [-> _]; [lia|done|]. apply bool_decide_eq_true_2; lia. }
  assert (live cf (win c1) p) as Hlv1 by (subst p; rewrite <- Eh; apply live_nth; lia).
  assert (in_LSQ (rs_inst_of rs) = false) as Hin.
  { pose proof (sh_rin _ _ (g_shape _ _ _ _ _ _ _ _ _ _ Hg)) as Hrin. rewrite Forall_forall in Hrin. apply Hrin.
    unfold rinsts, insts_at. apply list_elem_of_omap. exists (slot (RUU_size cf) (RUU_head (win c)) j).
    split; [by apply (live_nth (win c))|]. subst p. cbn in Hp. by rewrite Hp. }
  unfold recover_branch. subst p. rewrite Hin, Hrun. cbn [mbind result_bind]. unfold tracer_recover.
  rewrite Em, Hsm. cbn [negb]. rewrite Hreset. cbn [mbind result_bind]. eexists _, A1. split; [done|].
  cbn [win set_mach set_front cvs mach front]. split; [by destruct Hg1; split|]. split; [done|]. split; [done|].
  split; [by eapply lsq_shrinks|]. split; [|split; [done|split; [by rewrite <- Hp; apply Hlv|split; [exact Hlv|]]]].
  - intros i rs0 Hi Hr. rewrite Hn1 in Hi. unfold ruu_nth in Hr. rewrite Eh in Hr.
    destruct (Hlv (InRUU (slot (RUU_size cf) (RUU_head (win c)) i))) as [_ Hst]; [rewrite <- Eh; apply live_nth; lia|].
    cbn in Hst. rewrite Hst in Hr. destruct (Hm i rs0) as (-> & H2 & H3); [lia|done|].
    split; [apply bool_decide_eq_false_2; lia|]. intros Hrec. destruct (H2 Hrec); auto.
  - by rewrite Ef.
Qed.
End Recover.
