(* ===== verification/RuuUnits.v ===== *)
(** * The environment of the core, and its functional units

    What the core relies on: latencies of the caches, what decoding and executing an
    instruction yield, units for every class that is used.  The predictor and the
    units keep their invariants. *)

From S2P Require Import Prelude Misc Chains Memory Bpred BpredBtb BpredInv Resource ResourceSpec.
From S2P Require Import Ruu RuuStages RuuSched RuuFront.

(** ** Units *)

Section Units.
Variable fu : list res_desc.
Hypothesis fu_ok : config_ok fu.
Hypothesis fu_lat : ∀ d t, d ∈ fu → t ∈ active (templates d) → 1 ≤ rt_oplat t < 2 ^ 31.

(** A pool made from [fu], at any time. *)
Definition units_ok (p : res_pool) : Prop :=
  ∃ p0 bs, created fu p0 ∧ length bs = length (expand fu) ∧ p = set_busy bs p0.

Definition has_unit (k : Z) : Prop := 0 ≤ k ∧ entries k 0 (expand fu) ≠ [].

Lemma set_busy_lookup p0 bs i d b :
  created fu p0 → expand fu !! i = Some d → bs !! i = Some b →
  resources (set_busy bs p0) !! i = Some (mkRes (res_name d) 1 b (templates (instance_of d i))).
Proof. intros (Hr & _) Hd Hb. cbn. rewrite Hr. by apply busied_lookup. Qed.

Lemma set_busy_insert p0 bs i d b b' :
  created fu p0 → expand fu !! i = Some d → bs !! i = Some b →
  <[i := mkRes (res_name d) 1 b' (templates (instance_of d i))]> (resources (set_busy bs p0))
  = resources (set_busy (<[i := b']> bs) p0).
Proof.
  intros Hc Hd Hb. apply list_eq. intros j. destruct (decide (j = i)) as [->|Hne].
  - rewrite list_lookup_insert_eq by (eapply lookup_lt_Some, set_busy_lookup; eauto). symmetry.
    apply set_busy_lookup; [done|done|]. apply list_lookup_insert_eq. by eapply lookup_lt_Some.
  - rewrite list_lookup_insert_ne by done. cbn. rewrite !lookup_zip_with. by rewrite list_lookup_insert_ne.
Qed.

Lemma take_unit_spec p k e bs p0 :
  created fu p0 → length bs = length (expand fu) → p = set_busy bs p0 →
  e ∈ entries k 0 (expand fu) → free_in bs e = true →
  ∃ lat p', take_unit p e = Ok (lat, p') ∧ 1 ≤ lat < 2 ^ 31 ∧ units_ok p'.
Proof.
  intros Hc Hl -> He Hf. destruct (entries_elem k _ 0 e He) as (d & t & Hd & _ & Ht & _).
  rewrite Nat.sub_0_r in Hd.
  destruct (lookup_lt_is_Some_2 bs e.1) as [b Hb]; [rewrite Hl; by eapply lookup_lt_Some|].
  pose proof (set_busy_lookup p0 bs e.1 d b Hc Hd Hb) as Hp.
  pose proof (set_masters_active e.1 _ _ _ Ht) as Hm.
  unfold free_in in Hf. rewrite Hb in Hf. apply bool_decide_eq_true in Hf. injection Hf as ->.
  unfold take_unit, template_at. rewrite (proj2 (vget_Ok _ _ _) Hp). cbn [mbind result_bind templates].
  change (templates (instance_of d e.1)) with (set_masters e.1 (templates d)).
  rewrite (proj2 (vget_Ok _ _ _) Hm). cbn [mbind result_bind rt_master deref].
  rewrite (proj2 (vget_Ok _ _ _) Hp). cbn [mbind result_bind busy]. rewrite bool_decide_false by tauto.
  unfold vset. rewrite Hp. cbn [mbind result_bind rt_oplat rt_issuelat res_name quantity templates].
  eexists _, _. split; [reflexivity|]. split.
  - apply list_elem_of_lookup_2 in Hd, Ht. unfold expand in Hd.
    apply list_elem_of_bind in Hd as (d' & Hd & Hin). apply elem_of_replicate in Hd as [-> _]. by eapply fu_lat.
  - exists p0, (<[e.1 := rt_issuelat t]> bs). split; [done|]. split; [by rewrite length_insert|].
    pose proof (set_busy_insert p0 bs e.1 d 0 (rt_issuelat t) Hc Hd Hb) as Hi.
    change (templates (instance_of d e.1)) with (set_masters e.1 (templates d)) in Hi.
    exact (f_equal (λ l, mkPool (num_resources p0) l (nents p0) (table p0)) Hi).
Qed.

Lemma release_units_spec p0 idxs : ∀ bs,
  created fu p0 → length bs = length (expand fu) → Forall (λ i, i < length (expand fu))%nat idxs →
  ∃ bs', release_units idxs (resources (set_busy bs p0)) = Ok (resources (set_busy bs' p0)) ∧
    length bs' = length (expand fu).
Proof.
  induction idxs as [|i idxs IH]; intros bs Hc Hl Hi; [by exists bs|].
  apply Forall_cons in Hi as [Hi His].
  destruct (lookup_lt_is_Some_2 _ _ Hi) as [d Hd]. destruct (lookup_lt_is_Some_2 bs i) as [b Hb]; [lia|].
  pose proof (set_busy_lookup p0 bs i d b Hc Hd Hb) as Hp. cbn [release_units].
  rewrite (proj2 (vget_Ok _ _ _) Hp). cbn [mbind result_bind busy]. case_bool_decide.
  - unfold vset. rewrite Hp. cbn [mbind result_bind res_name quantity templates].
    rewrite (set_busy_insert p0 bs i d b (b - 1) Hc Hd Hb). apply IH; [done|by rewrite length_insert|done].
  - cbn [mbind result_bind]. by apply IH.
Qed.

Lemma res_get_units k p : units_ok p → has_unit k →
  res_get p k = Ok None ∨ ∃ e lat p', res_get p k = Ok (Some e) ∧
    take_unit p e = Ok (lat, p') ∧ 1 ≤ lat < 2 ^ 31 ∧ units_ok p'.
Proof.
  intros (p0 & bs & Hc & Hl & ->) [Hk Hne]. rewrite (res_get_spec fu) by done.
  destruct (entries k 0 (expand fu)) as [|e0 es] eqn:He; [done|].
  destruct (find (free_in bs) (e0 :: es)) as [e|] eqn:Hf; [right|by left].
  apply find_some in Hf as [Hin Hfree]. exists e.
  destruct (take_unit_spec (set_busy bs p0) k e bs p0 Hc Hl eq_refl) as (lat & p' & ? & ? & ?); [|done|by exists lat, p'].
  rewrite He. by apply list_elem_of_In.
Qed.
End Units.

(** ** Predictors *)

(** A well-formed predictor, or one without state. *)
Definition pred_ok (o : option bpred_t) : Prop :=
  ∀ p, o = Some p → (stateful (bp_class p) ∧ ∃ ords, bpred_ok p ords) ∨ (¬ stateful (bp_class p) ∧ rs_size p = 0).

(** What an instruction keeps from its prediction fits the predictor. *)
Definition rec_ok (o : option bpred_t) (u : bpred_update_t) (idx : Z) : Prop :=
  ∀ p, o = Some p → upd_ok p u ∧ (rs_size p ≠ 0 → 0 ≤ idx < rs_size p).

(** [o'] is a later state of [o]. *)
Definition pred_le (o o' : option bpred_t) : Prop :=
  ∀ p', o' = Some p' → ∃ p, o = Some p ∧ dirs_kept p p' ∧ rs_size p' = rs_size p.

#[export] Instance pred_le_refl : Reflexive pred_le.
Proof. intros o p Hp. exists p. split; [done|]. split; [reflexivity|done]. Qed.

#[export] Instance pred_le_trans : Transitive pred_le.
Proof.
  intros o1 o2 o3 H1 H2 p Hp. destruct (H2 p Hp) as (p2 & Hp2 & Hd2 & Hs2).
  destruct (H1 p2 Hp2) as (p1 & Hp1 & Hd1 & Hs1). exists p1. split; [done|].
  split; [by etransitivity|congruence].
Qed.

Lemma rec_ok_le o o' u idx : pred_le o o' → rec_ok o u idx → rec_ok o' u idx.
Proof.
  intros Hle Hr p' Hp'. destruct (Hle p' Hp') as (p & Hp & Hd & Hs). destruct (Hr p Hp) as [(H1 & H2 & H3) Hi].
  rewrite Hs. split; [|done]. split_and!; by eapply ptr_kept.
Qed.

Lemma pred_rs_size p : pred_ok (Some p) → 0 ≤ rs_size p.
Proof. intros Hp. destruct (Hp p eq_refl) as [(_ & ords & [_ _ (H1 & _)])|[_ ?]]; lia. Qed.

Lemma stateless_class c : ¬ stateful c → c = BPredTaken ∨ c = BPredNotTaken.
Proof. unfold stateful. destruct c; tauto || (intros H; exfalso; by apply H). Qed.

Lemma pred_ok_same p p' : same_state p p' → bp_class p' = bp_class p → pred_ok (Some p) →
  pred_ok (Some p') ∧ pred_le (Some p) (Some p').
Proof.
  intros Hs Hcl Hp. pose proof (same_state_kept _ _ Hs) as Hk. pose proof Hs as [(_ & _ & _ & _ & Hz & _) _].
  split; intros ? [= <-]; [|by exists p].
  destruct (Hp p eq_refl) as [[Hst [ords Hok]]|[Hst Hrs]]; [left|right; rewrite Hcl, Hz; done].
  rewrite Hcl. split; [done|]. exists ords. eapply bpred_ok_kept; [apply Hs|done|done].
Qed.

(** The static predictors change nothing but their statistics. *)
Lemma update_stateless p baddr btarget taken pred_taken correct op u :
  ¬ stateful (bp_class p) → ∃ p', bpred_update p baddr btarget taken pred_taken correct op u = Ok p' ∧ same_state p p'.
Proof.
  intros Hst%stateless_class. unfold bpred_update. destruct (negb (is_ctrl op)); [by exists p|].
  pose proof (update_stats_same p taken pred_taken correct op u) as Hss. set (p1 := update_stats _ _ _ _ _ _) in *.
  destruct (MD_IS_INDIR op && d_ras u); [by exists p1|]. rewrite bool_decide_true; [by exists p1|].
  pose proof Hss as [(Hc & _) _]. rewrite Hc. tauto.
Qed.

Lemma lookup_stateless p baddr op is_call is_return u idx :
  ¬ stateful (bp_class p) → is_ctrl op = true →
  ∃ r u', bpred_lookup p baddr 0 op is_call is_return u idx = Ok (r, u', idx, count lookups p) ∧ upd_ok p u'.
Proof.
  intros Hst%stateless_class Hct. unfold bpred_lookup. rewrite Hct. cbn [negb].
  unfold lookup_dirs. change (bp_class (count lookups p)) with (bp_class p).
  destruct (is_uncond op); destruct Hst as [-> | ->]; cbn [mbind result_bind]; by eexists _, _.
Qed.

Lemma update_pred_ok p baddr btarget taken pred_taken correct op u idx :
  pred_ok (Some p) → rec_ok (Some p) u idx → is_ctrl op = true → 0 < baddr →
  ∃ p', bpred_update p baddr btarget taken pred_taken correct op u = Ok p' ∧
    pred_ok (Some p') ∧ pred_le (Some p) (Some p').
Proof.
  intros Hp Hr Hop Hb. destruct (Hr p eq_refl) as [Hu _]. destruct (Hp p eq_refl) as [[Hst [ords Hok]]|[Hst Hrs]].
  - destruct (bpred_update_ok p ords baddr btarget taken pred_taken correct op u Hok Hst Hu Hop Hb)
      as (p' & ords' & Hrun & Hok' & Hk & Hcl & _ & Hsz & _).
    exists p'. split; [done|]. split; intros ? [= <-]; [left; rewrite Hcl; eauto|by exists p].
  - destruct (update_stateless p baddr btarget taken pred_taken correct op u Hst) as (p' & Hrun & Hs).
    exists p'. split; [done|]. apply pred_ok_same; [done|apply Hs|done].
Qed.

Lemma lookup_pred_ok p baddr op is_call is_return u idx :
  pred_ok (Some p) → is_ctrl op = true → 0 < baddr →
  ∃ r u' idx' p', bpred_lookup p baddr 0 op is_call is_return u idx = Ok (r, u', idx', p') ∧
    pred_ok (Some p') ∧ pred_le (Some p) (Some p') ∧ rec_ok (Some p') u' idx'.
Proof.
  intros Hp Hop Hb. destruct (Hp p eq_refl) as [[Hst [ords Hok]]|[Hst Hrs]].
  - destruct (bpred_lookup_ok p ords baddr 0 op is_call is_return u idx Hok Hst Hop Hb)
      as (r & u' & p' & Hrun & Hok' & Hu & Hcl & Hdp & _ & _ & Hsz & _).
    eexists r, u', _, p'. split; [exact Hrun|]. split; [|split].
    + intros ? [= <-]. left. rewrite Hcl. eauto.
    + intros ? [= <-]. exists p. split; [done|]. split; [|done]. intros c d Hd Ho Hs. exists d. by rewrite Hdp.
    + intros ? [= <-]. split; [done|]. rewrite Hsz. intros Hne. rewrite bool_decide_true by done.
      by apply (po_ras _ _ Hok).
  - destruct (lookup_stateless p baddr op is_call is_return u idx Hst Hop) as (r & u' & Hrun & Hu).
    exists r, u', idx, (count lookups p). split; [done|].
    destruct (pred_ok_same p (count lookups p)) as [H1 H2]; [by split|done|done|].
    split; [done|]. split; [done|]. intros ? [= <-]. split; [done|]. intros Hne. by destruct Hne.
Qed.

Lemma recover_pred_ok o u idx :
  pred_ok o → rec_ok o u idx →
  pred_ok ((λ b, bpred_recover b idx) <$> o) ∧ pred_le o ((λ b, bpred_recover b idx) <$> o).
Proof.
  intros Hp Hr. split.
  - intros p' Hp'. destruct o as [p|]; [|done]. injection Hp' as <-.
    destruct (Hp p eq_refl) as [[Hst [ords Hok]]|[Hst Hrs]]; [left|by right].
    split; [done|]. exists ords. destruct Hok as [H1 H2 (H3 & H4 & H5)]. split; [done|done|].
    split; [done|]. split; [done|]. intros Hne. by apply (Hr p eq_refl).
  - intros p' Hp'. destruct o as [p|]; [|done]. injection Hp' as <-. exists p. split; [done|].
    split; [|done]. intros c d Hd Ho Hs. by exists d.
Qed.

(** ** What the core relies on *)

(** A property of the machine's memory system and trace generator, the addresses that may
    reach the data cache, and whether latencies of the data cache may overflow. *)
Class EnvSpec (MS : Type) := {
  env_inv : MS → Prop;
  env_addr : Z → Prop;
  env_late : Prop
}.
#[global] Arguments env_late MS {_}.

(** Registers, next addresses and opcodes of an executed instruction; without a fault, the
    correct path executes what was fetched and stores in the range. *)
Record exec_ok {MS} `{!Environment MS, !EnvSpec MS} (fu : list res_desc) (spec : bool) (op : md_opcode) (pc : Z)
    (x : exec_out) : Prop := {
  xo_regs : Forall (λ n, 0 ≤ n < Z.of_nat MD_TOTAL_REGS) [x_out1 x; x_out2 x; x_in1 x; x_in2 x; x_in3 x];
  xo_op : spec = false → x_fault x = md_fault_none → x_op x = op;
  xo_ctrl : is_ctrl (x_op x) = true → x_op x = op;
  xo_nop : is_nop (x_op x) = true → is_ctrl (x_op x) = false ∧ x_NPC x = u32 (pc + inst_size);
  xo_store : is_store (x_op x) = true →
    x_out1 x = NA ∧ x_out2 x = NA ∧ has_unit fu (MD_OP_FUCLASS (x_op x));
  xo_addr : spec = false → x_fault x = md_fault_none → is_store (x_op x) = true → env_addr (x_addr x);
  xo_class : MD_OP_FUCLASS (x_op x) = NA ∨ has_unit fu (MD_OP_FUCLASS (x_op x))
}.

(** The caches answer while the property holds, the data cache after a cycle at least
    unless its latencies overflow;
    recovery succeeds; control instructions lie above address 0. *)
Class EnvOk {MS} `{!Environment MS, !EnvSpec MS} (fu : list res_desc) : Prop := {
  eo_dl1 cmd a t s : env_inv s → env_addr a →
    ∃ o s', dl1_access cmd (word_addr a) 4 t s = Ok (o, s') ∧ env_inv s' ∧ ∀ lat, o = Some lat → 1 ≤ i32 lat ∨ env_late MS;
  eo_dtlb a t s : env_inv s → env_addr a →
    ∃ o s', dtlb_access Read (word_addr a) 4 t s = Ok (o, s') ∧ env_inv s';
  eo_il1 cf pc t s : env_inv s → in_text pc = true →
    ∃ o s', il1_access Read (IACOMPRESS cf pc) (ISCOMPRESS cf inst_size) t s = Ok (o, s') ∧ env_inv s';
  eo_itlb cf pc t s : env_inv s → in_text pc = true →
    ∃ o s', itlb_access Read (IACOMPRESS cf pc) (ISCOMPRESS cf inst_size) t s = Ok (o, s') ∧ env_inv s';
  eo_reset s : env_inv s → ∃ s', reset_spec_state s = Ok s' ∧ env_inv s';
  eo_exec spec i pc s : env_inv s → ∃ x s', md_exec spec (MD_SET_OPCODE i) i pc s = Ok (x, s') ∧
    env_inv s' ∧ exec_ok fu spec (MD_SET_OPCODE i) pc x;
  eo_valid a : MD_VALID_ADDR a = true → env_addr a;
  eo_agen : is_ctrl MD_AGEN_OP = false ∧ (MD_OP_FUCLASS MD_AGEN_OP = NA ∨ has_unit fu (MD_OP_FUCLASS MD_AGEN_OP));
  eo_nop : is_ctrl (MD_SET_OPCODE MD_NOP_INST) = false;
  eo_text : 0 < ld_text_base
}.
