(* ===== verification/RuuCore.v ===== *)
(** * The invariant of the core between the stages

    Besides the lists of links: the speculation state, what the instructions carry, the
    functional units, the predictor and the fetch queue. *)

From S2P Require Import Prelude Misc Chains Memory Bpred Resource ResourceSpec Ruu RuuStages RuuSched RuuFront.
From S2P Require Import Pool RuuPool RuuInv RuuSched1 RuuGood RuuWriteback RuuSquash RuuRecover RuuUnits.

(** The two fatal messages of the core: a fault of the program, and more than 64 stores with
    unknown data in front of a load. *)
Definition core_fatal (f : fault) : Prop :=
  f = Fatal "non-speculative fault detected" ∨ f = Fatal "STD unknown array overflow, increase MAX_STD_UNKNOWNS".

(** How a cycle may end otherwise: the links run out, a fatal message, or a latency that
    overflowed puts a completion in the past. *)
Definition core_fault (MS : Type) `{!EnvSpec MS} (f : fault) : Prop :=
  out_of_links f ∨ core_fatal f ∨ (env_late MS ∧ f = Panic "event occurred in the past").

Lemma links_fault {MS} `{!EnvSpec MS} f : out_of_links f → core_fault MS f.
Proof. by left. Qed.

Section Core.
Context {MS : Type} `{!Environment MS, !EnvSpec MS}.
Variable cf : config.
Variable fu : list res_desc.
(** What the stages after fetch and dispatch need not look into: a fact about the fetch
    queue. *)
Variable Q : front_end → Prop.
Implicit Types c : core MS.

(** What an instruction in flight carries. *)
Record inst_ok (o : option bpred_t) (i : rs_inst) : Prop := {
  io_class : MD_OP_FUCLASS (rs_op i) = NA ∨ has_unit fu (MD_OP_FUCLASS (rs_op i));
  io_store : in_LSQ i = true → is_store (rs_op i) = true → has_unit fu (MD_OP_FUCLASS (rs_op i));
  io_pc : is_ctrl (rs_op i) = true → 0 < rs_PC i;
  io_rec : rec_ok o (dir_update i) (stack_recover_idx i);
  io_addr : in_LSQ i = true → is_store (rs_op i) = true → rs_spec_mode i = false → env_addr (rs_addr i)
}.

(** The entries of the fetch queue, in use or not. *)
Record fetch_ok (f : front_end) (o : option bpred_t) : Prop := {
  fk_pos : (0 < ruu_ifq_size cf)%nat;
  fk_len : length (fetch_data f) = ruu_ifq_size cf;
  fk_rec : Forall (λ r, rec_ok o (f_dir_update r) (f_stack_recover_idx r)) (fetch_data f)
}.

(** The queue: its indices, and the predictions of what is in it. *)
Record queue_ok (f : front_end) : Prop := {
  fq_head : (fetch_head f < ruu_ifq_size cf)%nat;
  fq_num : (fetch_num f ≤ ruu_ifq_size cf)%nat;
  fq_tail : fetch_tail f = slot (ruu_ifq_size cf) (fetch_head f) (fetch_num f);
  fq_pc i r : (i < fetch_num f)%nat → fetch_data f !! slot (ruu_ifq_size cf) (fetch_head f) i = Some r →
    if is_ctrl (MD_SET_OPCODE (f_IR r)) then 0 < f_regs_PC r
    else f_pred_PC r = u32 (f_regs_PC r + inst_size)
}.

Definition in_range (p : rs_ptr) : Prop :=
  match p with InRUU i => (i < RUU_size cf)%nat | InLSQ i => (i < LSQ_size cf)%nat end.

Definition insts_ok (w : window) (o : option bpred_t) : Prop :=
  ∀ p rs, live cf w p → station w p = Some rs → inst_ok o (rs_inst_of rs).

Record side_ok c : Prop := {
  so_lsq : lsq_ok cf (win c);
  so_spec : spec_ok cf (win c) (spec_mode (mach c));
  so_insts : insts_ok (win c) (pred (mach c));
  so_units : units_ok fu (fu_pool (mach c));
  so_pred : pred_ok (pred (mach c));
  so_fetch : fetch_ok (front c) (pred (mach c));
  so_queue : Q (front c);
  so_last p tag : last_op (front c) = Some (p, tag) → in_range p;
  so_env : env_inv (ports (mach c))
}.

Lemma inst_ok_le o o' i : pred_le o o' → inst_ok o i → inst_ok o' i.
Proof. intros Hle [H1 H2 H3 H4 H5]. split; try done. by eapply rec_ok_le. Qed.

Lemma insts_le w o o' : pred_le o o' → insts_ok w o → insts_ok w o'.
Proof. intros Hle H p rs Hl Hp. eapply inst_ok_le; eauto. Qed.

Lemma fetch_le f o o' : pred_le o o' → fetch_ok f o → fetch_ok f o'.
Proof.
  intros Hle []. split; try done. eapply Forall_impl; [eassumption|]. intros r. by apply rec_ok_le.
Qed.

Lemma insts_shrinks w w' o : insts_ok w o →
  (∀ q, live cf w' q → live cf w q ∧ station w' q = station w q) → insts_ok w' o.
Proof. intros Hi Hq p rs Hl Hp. destruct (Hq p Hl) as [Hl' He]. rewrite He in Hp. by eapply Hi. Qed.

Lemma insts_agree w w' o : same_frame w w' → agree rs_inst_of w w' → insts_ok w o → insts_ok w' o.
Proof.
  intros Hf Ha Hi p rs Hl Hp. destruct (agree_station _ _ _ _ _ Ha Hp) as (rs0 & Hp0 & ->).
  eapply Hi; [|exact Hp0]. by rewrite <- (live_frame cf w w').
Qed.

Lemma side_keeps c c' :
  keeps (win c) (win c') → mach c' = mach c → front c' = front c → side_ok c → side_ok c'.
Proof.
  intros Hk Hm Hf []. split; rewrite ?Hm, ?Hf; try done.
  - by eapply keeps_lsq.
  - by eapply keeps_spec.
  - eapply insts_agree; [apply Hk| |done]. eapply agree_mono; [apply Hk|]. by intros rs rs' [=].
Qed.

(** The machine moves on: its units and its predictor. *)
Definition mach_le (m m' : machine MS) : Prop :=
  sim_cycle m' = sim_cycle m ∧ spec_mode m' = spec_mode m ∧ units_ok fu (fu_pool m') ∧
  pred_ok (pred m') ∧ pred_le (pred m) (pred m') ∧ env_inv (ports m').

Lemma side_mach c m : mach_le (mach c) m → side_ok c → side_ok (set_mach m c).
Proof.
  intros (_ & Hs & Hu & Hp & Hle & He) []. split; cbn; rewrite ?Hs; try done.
  - by eapply insts_le.
  - by eapply fetch_le.
Qed.

Lemma side_mach_le c : side_ok c → mach_le (mach c) (mach c).
Proof. intros []. by split_and!. Qed.

(** Moving the machine does not touch the links. *)
Lemma good_mach v c A wr wo bp ex wk B m :
  good cf v c A wr wo bp ex wk B → good cf v (set_mach m c) A wr wo bp ex wk B.
Proof. by intros []. Qed.

(** ** Training the predictor *)

Lemma train_pred_ok when rs c :
  side_ok c → inst_ok (pred (mach c)) (rs_inst_of rs) →
  ∃ m, train_pred cf when rs c = Ok (set_mach m c) ∧ mach_le (mach c) m.
Proof.
  intros Hso Hi. pose proof Hso as [_ _ _ Hu Hp _ _ _ He]. unfold train_pred.
  assert (c = set_mach (mach c) c) as Hc by (by destruct c).
  destruct (pred (mach c)) as [p|] eqn:Hpr; [|exists (mach c); rewrite <- Hc; split; [done|by apply side_mach_le]].
  destruct (bool_decide (bpred_spec_update cf = when) && is_ctrl (rs_op (rs_inst_of rs))) eqn:Hb;
    [|exists (mach c); rewrite <- Hc; split; [done|by apply side_mach_le]].
  apply andb_true_iff in Hb as [_ Hctrl].
  destruct (update_pred_ok p (rs_PC (rs_inst_of rs)) (rs_next_PC (rs_inst_of rs))
    (negb (bool_decide (rs_next_PC (rs_inst_of rs) = u32 (rs_PC (rs_inst_of rs) + inst_size))))
    (negb (bool_decide (rs_pred_PC (rs_inst_of rs) = u32 (rs_PC (rs_inst_of rs) + inst_size))))
    (bool_decide (rs_pred_PC (rs_inst_of rs) = rs_next_PC (rs_inst_of rs)))
    (rs_op (rs_inst_of rs)) (dir_update (rs_inst_of rs)) (stack_recover_idx (rs_inst_of rs)) Hp (io_rec _ _ Hi) Hctrl)
    as (p' & Hrun & Hp' & Hle); [by apply (io_pc _ _ Hi)|].
  rewrite Hrun. cbn [mbind result_bind]. eexists. split; [reflexivity|]. cbn.
  unfold mach_le. cbn. rewrite Hpr. by split_and!.
Qed.
End Core.
