(* ===== verification/RuuComplete.v ===== *)
(** * The write-back stage keeps the invariant *)

From S2P Require Import Prelude Misc Chains Memory Bpred Resource ResourceSpec Ruu RuuStages RuuSched RuuFront.
From S2P Require Import Pool RuuPool RuuInv RuuSched1 RuuGood RuuWriteback RuuSquash RuuRecover RuuUnits RuuCore.

Section Complete.
Context {MS : Type} `{!Environment MS, !EnvSpec MS}.
Variable cf : config.
Variable fu : list res_desc.
Variable Q : front_end → Prop.
Hypothesis HQ : ∀ f, Q f → Q (after_recovery_front f).
Hypothesis env_ok : EnvOk fu.
Implicit Types c : core MS.

(** Between two steps of a stage: no list is being walked, and the tags are bounded; a
    recovery that may still come has its share of the bound. *)
Definition core_at (M : Z) (A : root → list alink) c : Prop :=
  (∃ L, good cf (cvs c) c A [] [] None None None (L, L) ∧ L + c_bool (spec_mode (mach c)) ≤ M) ∧
  A RWork = [] ∧ side_ok cf fu Q c.

Lemma cv_status w w' v bp p rs rs' :
  cv_ok cf w v bp → same_frame w w' → station w p = Some rs →
  (∀ p', station w' p' = if decide (p' = p) then Some rs' else station w p') →
  rs_inst_of rs' = rs_inst_of rs → onames rs' = onames rs →
  (∀ k n, onames rs !! k = Some n → n ≠ NA → pending bp p k rs → pending bp p k rs') → cv_ok cf w' v bp.
Proof.
  intros [Hl Hc] Hf Hp Hst Hi Ho Hpd. split; [done|]. intros spec n q k Hq.
  destruct (Hc _ _ _ _ Hq) as (rs0 & H1 & H2 & H3 & H4 & H5 & H6). rewrite Hst. case_decide as Hd.
  - subst q. rewrite Hp in H1. injection H1 as <-. exists rs'. rewrite Hi, Ho.
    split; [done|]. split; [by rewrite (live_frame cf w w')|]. split; [|done]. eapply Hpd; [done|unfold NA; lia|done].
  - exists rs0. split; [done|]. split; [by rewrite (live_frame cf w w')|done].
Qed.

Lemma good_set_completed c A L p rs :
  good cf (cvs c) c A [] [] None None None (L, L) → A RWork = [] →
  live cf (win c) p → station (win c) p = Some rs → issued rs = true → p ∉ targets (win c) (A REvent) →
  ∃ w, upd_station c p set_completed = Ok (set_win w c) ∧ same_frame (win c) w ∧
    (∀ p', station w p' = if decide (p' = p) then Some (set_completed rs) else station (win c) p') ∧
    good cf (cvs c) (set_win w c) A [] [] (Some (p, 0%nat)) None None (L, L).
Proof.
  intros [Hsh Hpl Hsc Hcv Htg] HAw Hlv Hp Hi Hev.
  destruct (upd_station_spec c p set_completed rs Hp) as (w & Hrun & Hfr & Hst).
  exists w. do 3 (split; [done|]).
  assert (∀ k rs0, pending (Some (p, 0%nat)) p k rs0) as Hpd by (intros k rs0; right; exists 0%nat; split; [done|lia]).
  assert (∀ q k rs0, pending None q k rs0 → pending (Some (p, 0%nat)) q k rs0) as Hpd0 by (intros q k rs0 [H|(? & ? & _)]; [by left|done]).
  split; cbn.
  - eapply agree_shape; [exact Hfr| |exact Hsh]. by eapply agree_upd.
  - eapply pool_ext; [exact Hpl| |done]. intros y. apply heads_station. intros p'. rewrite Hst.
    case_decide; [subst p'; by rewrite Hp|done].
  - assert (sched cf (win c) A [] [] (Some (p, 0%nat))) as Hsc' by (eapply sched_bp; [exact Hsc|eauto]).
    eapply (sched_status cf (win c) w A [] [] _ p rs (set_completed rs)); try done.
    + intros a Ha Hv Hap. exfalso. apply Hev. apply elem_of_targets. by exists a.
    + intros a Ha Hv <-. by apply (sc_rd _ _ _ _ _ _ Hsc a rs).
    + intros r a Ha Hv <-. by apply (sc_od _ _ _ _ _ _ Hsc r a rs).
    + intros _. cbn. split; [by apply (sc_queued _ _ _ _ _ _ Hsc p rs)|].
      split; [by apply (sc_issued _ _ _ _ _ _ Hsc p rs)|done].
  - eapply (cv_status (win c)); [|exact Hfr|exact Hp|exact Hst|done|done|by intros; apply Hpd].
    eapply cv_bp; [exact Hcv|eauto].
  - eapply agree_tags; [exact Hfr| |exact Htg]. by eapply agree_upd.
Qed.

(** Completion and speculation: a mispredicted instruction is the branch that started the
    wrong path. *)
Lemma complete_spec w w' s p rs :
  shape cf w → spec_ok cf w s → same_frame w w' → station w p = Some rs → live cf w p → completed rs = false →
  (∀ p', station w' p' = if decide (p' = p) then Some (set_completed rs) else station w p') →
  (recover_inst rs = false → spec_ok cf w' s) ∧
  (recover_inst rs = true → ∀ i, p = InRUU i → s = true ∧
     ∃ j, p = InRUU (slot (RUU_size cf) (RUU_head w') j) ∧ mispredicted cf w' j).
Proof.
  intros Hsh Hs Hf Hp Hlv Hc Hst. pose proof Hf as (E1 & _ & E3 & _).
  pose proof (sh_rnum _ _ Hsh) as Hle.
  assert (∀ i rs', ruu_nth cf w' i = Some rs' → ∃ rs0, ruu_nth cf w i = Some rs0 ∧
    rs_inst_of rs' = rs_inst_of rs0 ∧ recover_inst rs' = recover_inst rs0 ∧
    ((InRUU (slot (RUU_size cf) (RUU_head w) i) ≠ p ∧ completed rs' = completed rs0) ∨
     (InRUU (slot (RUU_size cf) (RUU_head w) i) = p ∧ rs0 = rs ∧ completed rs' = true))) as Hn.
  { intros i rs' Hi. unfold ruu_nth in *. rewrite E1 in Hi.
    change (station w' (InRUU (slot (RUU_size cf) (RUU_head w) i)) = Some rs') in Hi. rewrite Hst in Hi.
    case_decide as Hd; [|by eauto 10]. injection Hi as <-. subst p. exists rs. eauto 10. }
  split.
  - intros Hr. destruct s; cbn [spec_ok] in *.
    + destruct Hs as (j & Hj & Hall). exists j. rewrite E3. split; [done|]. intros i rs' Hi Hnth.
      destruct (Hn i rs' Hnth) as (rs0 & H0 & -> & -> & Hcase). destruct (Hall i rs0 Hi H0) as (H1 & H2 & H3).
      split; [done|]. destruct Hcase as [[Hne ->]|(He & -> & ->)]; [done|]. split; [by left|].
      intros Hij. destruct (H3 Hij). congruence.
    + intros i rs' Hi Hnth. rewrite E3 in Hi. destruct (Hn i rs' Hnth) as (rs0 & H0 & -> & -> & Hcase).
      destruct (Hs i rs0 Hi H0) as (H1 & H2). split; [done|].
      destruct Hcase as [[Hne ->]|(He & -> & ->)]; [done|]. congruence.
  - intros Hr i ->. destruct (live_InRUU cf w i Hlv) as (k & Hk & ->).
    destruct s; cbn [spec_ok] in Hs.
    + split; [done|]. destruct Hs as (j & Hj & Hall).
      assert (k = j) as -> by (destruct (Hall k rs Hk Hp) as (_ & H2 & _); destruct (H2 Hr); [congruence|done]).
      exists j. rewrite E1. split; [done|]. split; [by rewrite E3|]. intros i rs' Hi Hnth. rewrite E3 in Hi.
      destruct (Hn i rs' Hnth) as (rs0 & H0 & -> & -> & Hcase). destruct (Hall i rs0 Hi H0) as (H1 & H2 & H3).
      split; [done|]. destruct Hcase as [[Hne ->]|(He & -> & ->)]; [|by auto]. split; [done|]. by intros ->.
    + destruct (Hs k rs Hk Hp) as (_ & H2). rewrite H2 in Hc; [done|done].
Qed.

(** ** Broadcasting all outputs *)

Lemma broadcast_good c A p L rs :
  good cf (cvs c) c A [] [] (Some (p, 0%nat)) None None (L, L) → A RWork = [] →
  station (win c) p = Some rs → completed rs = true →
  wp out_of_links (broadcast (seq 0 MAX_ODEPS) p c) (λ c', ∃ A',
    good cf (cvs c') c' A' [] [] None None None (L, L) ∧ A' RWork = [] ∧ A' REvent = A REvent ∧ quiet_step c c').
Proof.
  intros Hg HAw Hp Hc. cbn [seq MAX_ODEPS broadcast]. apply wp_bind.
  eapply wp_mono; [eapply (broadcast_output_good cf c A p 0 (L, L) rs); eauto; unfold MAX_ODEPS; lia|done|].
  intros c1 (A1 & Hg1 & HA1 & HE1 & Hq1). apply wp_bind.
  destruct (agree_station' _ _ _ _ _ (proj2 (proj1 Hq1)) Hp) as (rs1 & Hp1 & Hv1).
  assert (completed rs1 = true) as Hc1 by (unfold view in Hv1; injection Hv1; congruence).
  eapply wp_mono; [eapply (broadcast_output_good cf c1 A1 p 1 (L, L) rs1); eauto; unfold MAX_ODEPS; lia|done|].
  intros c2 (A2 & Hg2 & HA2 & HE2 & Hq2). cbn. exists A2. split; [|split; [done|split; [congruence|by eapply quiet_step_trans]]].
  assert (∀ q k rs0 n, station (win c2) q = Some rs0 → pending (Some (p, 2%nat)) q k rs0 →
    onames rs0 !! k = Some n → n ≠ NA → pending None q k rs0) as Hpd.
  { intros q k rs0 n Hq [H|(i & [= -> <-] & Hi)] Hn _; [by left|].
    destruct (sh_len _ _ (g_shape _ _ _ _ _ _ _ _ _ _ Hg2) q rs0 Hq) as (Hlo & _).
    apply lookup_lt_Some in Hn. unfold MAX_ODEPS in Hlo. lia. }
  destruct Hg2 as [G1 G2 G3 G4 G5]. split; try done.
  - eapply sched_bp; [exact G3|]. intros q k rs0 n _. apply Hpd.
  - eapply cv_bp; [exact G4|]. intros q k rs0 n. apply Hpd.
Qed.

(** ** One completion *)

(** The steps that follow the completion of an instruction, but for the recovery. *)
Lemma finish_good M c A p L rs rs0 :
  good cf (cvs c) c A [] [] (Some (p, 0%nat)) None None (L, L) → A RWork = [] →
  L + c_bool (spec_mode (mach c)) ≤ M → side_ok cf fu Q c →
  station (win c) p = Some rs → completed rs = true → inst_ok fu (pred (mach c)) (rs_inst_of rs0) →
  wp out_of_links (c ← (if in_LSQ (rs_inst_of rs0) then Ok c else train_pred cf spec_WB rs0 c);
     broadcast (seq 0 MAX_ODEPS) p c)
    (λ c', ∃ A', core_at M A' c' ∧ A' REvent = A REvent ∧ sim_cycle (mach c') = sim_cycle (mach c)).
Proof.
  intros Hg HAw HL Hso Hp Hc Hi.
  assert (∃ m, (if in_LSQ (rs_inst_of rs0) then Ok c else train_pred cf spec_WB rs0 c) = Ok (set_mach m c) ∧
    mach_le fu (mach c) m) as (m & -> & Hm).
  { destruct (in_LSQ _); [|by eapply train_pred_ok]. exists (mach c). split; [by destruct c|by eapply side_mach_le]. }
  cbn [mbind result_bind]. pose proof Hm as (Hcy & Hsp & _).
  eapply wp_mono; [eapply (broadcast_good (set_mach m c) A p L rs); [by apply good_mach|done|done|done]|done|].
  intros c' (A' & Hg' & HA' & HE' & Hk & Hm' & Hf'). exists A'. split; [|split; [done|by rewrite Hm']].
  split; [|split; [done|eapply side_keeps; [exact Hk|done|done|by apply side_mach]]].
  exists L. split; [done|]. rewrite Hm'. cbn. by rewrite Hsp.
Qed.

Lemma writeback_one_good M c A p L rs :
  good cf (cvs c) c A [] [] None None None (L, L) → A RWork = [] →
  L + c_bool (spec_mode (mach c)) ≤ M → M < 2 ^ 32 → side_ok cf fu Q c →
  live cf (win c) p → station (win c) p = Some rs → issued rs = true → completed rs = false →
  p ∉ targets (win c) (A REvent) →
  wp out_of_links (writeback_one cf p c)
    (λ c', ∃ A', core_at M A' c' ∧ A' REvent = A REvent ∧ sim_cycle (mach c') = sim_cycle (mach c)).
Proof.
  intros Hg HAw HL HM Hso Hlv Hp Hi Hc Hev. pose proof (g_sched _ _ _ _ _ _ _ _ _ _ Hg) as Hsc.
  assert (OPERANDS_READY rs = true) as Hr by (by eapply sc_issued).
  assert (queued rs = false) as Hq.
  { destruct (queued rs) eqn:Hq; [|done]. destruct (sc_queued _ _ _ _ _ _ Hsc _ _ Hlv Hp Hq). congruence. }
  unfold writeback_one. rewrite (get_rs_station _ _ _ Hp). cbn [mbind result_bind]. rewrite Hr, Hq, Hi, Hc.
  cbn [negb orb]. destruct (good_set_completed c A L p rs Hg HAw Hlv Hp Hi Hev) as (w & -> & Hfr & Hst & Hg1).
  cbn [mbind result_bind]. assert (station w p = Some (set_completed rs)) as Hp1 by (by rewrite Hst, decide_True).
  destruct Hso as [S1 S2 S3 S4 S5 S6 SQ S7 S8]. destruct (eo_reset (fu := fu) _ S8) as (s1 & Hs1 & Hinv1).
  destruct (complete_spec (win c) w (spec_mode (mach c)) p rs) as [Hnr Hrec];
    [apply Hg|exact S2|exact Hfr|exact Hp|exact Hlv|exact Hc|exact Hst|].
  assert (lsq_ok cf w) as S1' by (eapply agree_lsq; [exact Hfr|by eapply agree_upd|done]).
  assert (insts_ok cf fu w (pred (mach c))) as S3'
    by (eapply insts_agree; [exact Hfr|by eapply agree_upd|done]).
  assert (inst_ok fu (pred (mach c)) (rs_inst_of rs)) as Hio by (by eapply S3).
  destruct (recover_inst rs) eqn:Hri.
  - destruct p as [s|s]; [|by destruct (S1 s rs Hlv Hp); congruence].
    destruct (Hrec eq_refl s eq_refl) as (Hsm & j & [= ->] & Hmis). rewrite Hsm in HL. cbn in HL.
    assert (recover_branch cf (InRUU (slot (RUU_size cf) (RUU_head w) j)) rs (set_win w c)
      = recover_branch cf (InRUU (slot (RUU_size cf) (RUU_head w) j)) (set_completed rs) (set_win w c)) as -> by done.
    destruct (recover_branch_good cf (set_win w c) A L j (set_completed rs) s1 Hg1 HAw) as
      (c2 & A2 & Hrun2 & Hg2 & HA2 & HE2 & S1'' & S2'' & Hlv2 & Hp2 & Hsh2 & Hm2 & Hf2); [lia|done|done|done|done|done|].
    cbn [win set_win] in Hrun2. rewrite Hrun2. cbn [mbind result_bind].
    destruct (recover_pred_ok (pred (mach c)) (dir_update (rs_inst_of rs)) (stack_recover_idx (rs_inst_of rs)) S5 (io_rec _ _ _ Hio))
      as [Hpr Hple].
    assert (side_ok cf fu Q c2) as Hso2.
    { split; rewrite ?Hm2, ?Hf2; try done.
      - eapply insts_le; [exact Hple|]. by eapply insts_shrinks.
      - cbn. eapply fetch_le; [exact Hple|]. by destruct S6; split.
      - by apply HQ. }
    eapply wp_mono; [eapply (finish_good M c2 A2 _ (L + 1) (set_completed rs) rs); try done|done|].
    + rewrite Hm2. cbn. lia.
    + rewrite Hm2. by eapply inst_ok_le.
    + intros c' (A' & Hc' & HE' & Hcy). exists A'. split; [done|]. split; [congruence|]. by rewrite Hcy, Hm2.
  - cbn [mbind result_bind].
    eapply (finish_good M (set_win w c) A p L (set_completed rs) rs); try done.
    split; try done. cbn. by apply Hnr.
Qed.

(** ** The stage *)

Lemma next_event_valid w now l : NoDup (targets w l) →
  sublist (next_event w now l).2 l ∧
  ∀ p, (next_event w now l).1 = Some p → (∃ a, a ∈ l ∧ valid w a ∧ a_rs a = p) ∧
    p ∉ targets w (next_event w now l).2 ∧ (length (next_event w now l).2 < length l)%nat.
Proof.
  induction l as [|a l IH]; cbn [next_event]; intros Hnd; [by split|].
  case_bool_decide; [case_bool_decide|].
  - rewrite targets_cons_valid in Hnd by done. apply NoDup_cons in Hnd as [Hno _].
    split; [by apply sublist_cons|]. intros p [= <-]. split; [|split; [done|simpl; lia]]. exists a. split; [set_solver|done].
  - destruct IH as [Hs Hp]; [eapply sublist_NoDup; [by apply targets_sublist, sublist_cons|done]|].
    split; [by apply sublist_cons|]. intros p Hne. destruct (Hp p Hne) as [(b & Hb & Hvb) [Hno Hlt]]. split; [|split; [done|simpl; lia]].
    exists b. split; [set_solver|done].
  - by split.
Qed.

(** The number of events that are left bounds the rest of the stage. *)
Lemma writeback_loop_good M : M < 2 ^ 32 → ∀ fuel c A,
  core_at M A c → (length (A REvent) ≤ fuel)%nat →
  wp out_of_links (writeback_loop cf fuel c)
    (λ c', ∃ A', core_at M A' c' ∧ sim_cycle (mach c') = sim_cycle (mach c)).
Proof.
  intros HM. induction fuel as [|fuel IH]; intros c A [(L & Hg & HL) [HAw Hso]] Hf.
  all: pose proof Hg as [Hsh Hpl Hsc Hcv Htg].
  all: destruct (eventq_next_event_spec c None None A Hpl) as (q & Hrun & Hpl');
    [apply Forall_forall; intros a Ha; destruct (sc_tag _ _ _ _ _ _ Hsc REvent a) as (rs & Hrs & _); [done|done|by eexists]|].
  all: destruct (next_event_valid (win c) (sim_cycle (mach c)) (A REvent) (sc_ev_nodup _ _ _ _ _ _ Hsc)) as [Hsub Hval].
  all: cbn [writeback_loop]; rewrite Hrun; cbn [mbind result_bind].
  all: destruct (next_event (win c) (sim_cycle (mach c)) (A REvent)) as [o l'] eqn:Hne; cbn [fst snd] in *.
  all: set (A1 := upd A REvent l') in *.
  all: assert (good cf (cvs c) (set_qs q c) A1 [] [] None None None (L, L)) as Hg1
    by (split; try done; eapply sched_shrink; [exact Hsc| |done|done| |];
        [intros r _; subst A1; unfold upd; case_decide; [by subst r|done]|by intros a Ha%elem_of_nil|by intros a Ha%elem_of_nil]).
  all: assert (core_at M A1 (set_qs q c)) as Hc1
    by (split; [by exists L|split; [subst A1; by rewrite upd_other|by destruct Hso; split]]).
  - destruct o as [p|]; [|cbn; by exists A1]. destruct (Hval p eq_refl) as [(a & Ha & _) _].
    destruct (A REvent); [by apply elem_of_nil in Ha|simpl in Hf; lia].
  - destruct o as [p|]; [|cbn; by exists A1]. destruct (Hval p eq_refl) as [(a & Ha & Hva & Hap) [Hno Hlt]].
    assert (is_Some (station (win c) p)) as [rs Hp].
    { subst p. unfold valid in Hva. destruct (station (win c) (a_rs a)); [by eexists|done]. }
    assert (live cf (win c) p) as Hlv by (subst p; by eapply (sc_live _ _ _ _ _ _ Hsc REvent)).
    assert (issued rs = true ∧ completed rs = false) as [Hi Hc].
    { rewrite <- Hap in Hp. by eapply (sc_ev _ _ _ _ _ _ Hsc a rs). }
    apply wp_bind. eapply wp_mono; [eapply (writeback_one_good M (set_qs q c) A1 p L rs); try done|done|].
    + apply Hc1.
    + intros c2 (A2 & Hc2 & HE2 & Hcy2). eapply wp_mono; [eapply (IH c2 A2 Hc2)|done|].
      * rewrite HE2. subst A1. rewrite upd_same. lia.
      * intros c3 (A3 & Hc3 & Hcy3). exists A3. split; [done|]. by rewrite Hcy3, Hcy2.
Qed.

Lemma ruu_writeback_good M c A : M < 2 ^ 32 → core_at M A c →
  wp out_of_links (ruu_writeback cf c)
    (λ c', ∃ A', core_at M A' c' ∧ sim_cycle (mach c') = sim_cycle (mach c)).
Proof.
  intros HM Hc. apply (writeback_loop_good M HM _ c A Hc). destruct Hc as [(L & Hg & _) _].
  eapply pool_length; [apply Hg|done].
Qed.
End Complete.
