(* ===== verification/RuuCommit.v ===== *)
(** * The commit stage keeps the invariant

    The oldest instruction leaves the window when it is complete, a load or store
    together with its address computation. *)

From S2P Require Import Prelude Misc Chains Memory Bpred Resource ResourceSpec Ruu RuuStages RuuSched RuuFront.
From S2P Require Import Pool RuuPool RuuInv RuuSched1 RuuGood RuuWriteback RuuSquash RuuRecover RuuUnits RuuCore RuuComplete.

Section Commit.
Context {MS : Type} `{!Environment MS, !EnvSpec MS}.
Variable cf : config.
Variable fu : list res_desc.
Variable Q : front_end → Prop.
Hypothesis fu_ok : config_ok fu.
Hypothesis fu_lat : ∀ d t, d ∈ fu → t ∈ active (templates d) → 1 ≤ rt_oplat t < 2 ^ 31.
Hypothesis env_ok : EnvOk fu.
Implicit Types c : core MS.

(** ** The machine *)

Lemma access_ok (f : mem_cmd → Z → Z → Z → MS → result (option Z * MS)) cmd a n c :
  (∀ t s, env_inv s → ∃ o s', f cmd a n t s = Ok (o, s') ∧ env_inv s') → side_ok cf fu Q c →
  ∃ o m, access_with f cmd a n c = Ok (o, set_mach m c) ∧ mach_le fu (mach c) m.
Proof.
  intros Hf Hso. unfold access_with. destruct (Hf (sim_cycle (mach c)) (ports (mach c)) (so_env _ _ _ _ Hso)) as (o & s' & -> & He).
  cbn [mbind result_bind]. eexists o, _. split; [reflexivity|]. destruct (side_mach_le cf fu Q c Hso) as (H1 & H2 & H3 & H4 & H5 & H6).
  by split_and!.
Qed.

Lemma mach_le_trans (m1 m2 m3 : machine MS) : mach_le fu m1 m2 → mach_le fu m2 m3 → mach_le fu m1 m3.
Proof.
  intros (H1 & H2 & H3 & H4 & H5 & H6) (G1 & G2 & G3 & G4 & G5 & G6).
  split; [congruence|]. split; [congruence|]. do 2 (split; [done|]). split; [by etransitivity|done].
Qed.

Lemma reserve_ok op c : side_ok cf fu Q c → has_unit fu (MD_OP_FUCLASS op) →
  reserve_unit op c = Ok None ∨
  ∃ lat m, reserve_unit op c = Ok (Some (lat, set_mach m c)) ∧ 1 ≤ lat < 2 ^ 31 ∧ mach_le fu (mach c) m.
Proof.
  intros Hso Hu. pose proof (side_mach_le cf fu Q c Hso) as (H1 & H2 & H3 & H4 & H5 & H6). unfold reserve_unit.
  destruct (res_get_units fu fu_ok fu_lat _ _ (so_units _ _ _ _ Hso) Hu) as [->|(e & lat & p' & -> & Hrun & Hlat & Hp')]; [by left|].
  cbn [mbind result_bind]. rewrite Hrun. cbn [mbind result_bind]. right. eexists lat, _. split; [reflexivity|].
  split; [done|]. by split_and!.
Qed.

Lemma set_mach_twice m m' c : set_mach m' (set_mach m c) = set_mach m' c.
Proof. done. Qed.

Lemma commit_store_ok ls c : side_ok cf fu Q c → has_unit fu (MD_OP_FUCLASS (rs_op (rs_inst_of ls))) →
  env_addr (rs_addr (rs_inst_of ls)) →
  commit_store ls c = Ok None ∨
  ∃ m, commit_store ls c = Ok (Some (set_mach m c)) ∧ mach_le fu (mach c) m.
Proof.
  intros Hso Hu Haddr. unfold commit_store.
  destruct (reserve_ok _ c Hso Hu) as [->|(lat & m1 & -> & _ & Hm1)]; [by left|]. right. cbn [mbind result_bind].
  pose proof (side_mach cf fu Q c m1 Hm1 Hso) as Hso1.
  destruct (access_ok dl1_access Write (word_addr (rs_addr (rs_inst_of ls))) 4 (set_mach m1 c)) as (o & m2 & -> & Hm2);
    [intros t s Hs; destruct (eo_dl1 (fu := fu) Write _ t s Hs Haddr) as (o & s' & ? & ? & _); by exists o, s'|done|].
  cbn [mbind result_bind]. pose proof (side_mach cf fu Q _ m2 Hm2 Hso1) as Hso2.
  destruct (access_ok dtlb_access Read (word_addr (rs_addr (rs_inst_of ls))) 4 (set_mach m2 (set_mach m1 c))) as (o2 & m3 & -> & Hm3);
    [intros t s Hs; by apply (eo_dtlb (fu := fu))|done|].
  cbn [mbind result_bind]. exists m3. split; [done|]. eapply mach_le_trans; [exact Hm1|]. by eapply mach_le_trans.
Qed.

(** ** Windows that lose their oldest instance *)

Lemma live_retire_LSQ w0 w q : same_frame w0 w → (0 < LSQ_num w0 ≤ LSQ_size cf)%nat → (LSQ_head w0 < LSQ_size cf)%nat →
  live cf (retire_LSQ cf w) q ↔ live cf w0 q ∧ q ≠ InLSQ (LSQ_head w0).
Proof.
  intros (E1 & _ & E3 & E4 & _ & E6 & _) Hn Hh.
  destruct q as [s|s]; unfold live, ruu_slots, lsq_slots, retire_LSQ; cbn [RUU_head RUU_num LSQ_head LSQ_num]; rewrite ?E1, ?E3, ?E4, ?E6.
  - naive_solver.
  - rewrite slots_tail, slot_0 by done. naive_solver.
Qed.

Lemma live_retire_RUU w0 w q : same_frame w0 w → (0 < RUU_num w0 ≤ RUU_size cf)%nat → (RUU_head w0 < RUU_size cf)%nat →
  live cf (retire_RUU cf w) q ↔ live cf w0 q ∧ q ≠ InRUU (RUU_head w0).
Proof.
  intros (E1 & _ & E3 & E4 & _ & E6 & _) Hn Hh.
  destruct q as [s|s]; unfold live, ruu_slots, lsq_slots, retire_RUU; cbn [RUU_head RUU_num LSQ_head LSQ_num]; rewrite ?E1, ?E3, ?E4, ?E6.
  - rewrite slots_tail, slot_0 by done. naive_solver.
  - naive_solver.
Qed.

Lemma first_rinst w rs : shape cf w → (0 < RUU_num w)%nat → RUU w !! RUU_head w = Some rs →
  rinsts cf w = rs_inst_of rs :: insts_at (RUU w) (slots (RUU_size cf) (next_slot (RUU_size cf) (RUU_head w)) (RUU_num w - 1)).
Proof. intros Hs Hn Hr. apply insts_at_cons; [done|apply (sh_rhead _ _ Hs)|done]. Qed.

Lemma first_linst w : shape cf w → (0 < LSQ_num w)%nat → ∃ ls, LSQ w !! LSQ_head w = Some ls ∧
  linsts cf w = rs_inst_of ls :: insts_at (LSQ w) (slots (LSQ_size cf) (next_slot (LSQ_size cf) (LSQ_head w)) (LSQ_num w - 1)).
Proof.
  intros Hs Hn. destruct (lookup_lt_is_Some_2 (LSQ w) (LSQ_head w)) as [ls Hr].
  { rewrite (sh_lsq _ _ Hs). apply (sh_lhead _ _ Hs). }
  exists ls. split; [done|]. apply insts_at_cons; [done|apply (sh_lhead _ _ Hs)|done].
Qed.

Lemma first_in_step w rs : shape cf w → (0 < RUU_num w)%nat → RUU w !! RUU_head w = Some rs →
  ea_comp (rs_inst_of rs) = true → (0 < LSQ_num w)%nat.
Proof.
  intros Hs Hn Hr Hea. pose proof (sh_sync _ _ Hs) as Hsy. rewrite (first_rinst w rs Hs Hn Hr) in Hsy.
  rewrite filter_cons_True in Hsy by done. destruct (decide (LSQ_num w = 0%nat)) as [H0|]; [|lia].
  unfold linsts, lsq_slots in Hsy. by rewrite H0 in Hsy.
Qed.

(** The load or store at the head is on the path of the instruction it belongs to. *)
Lemma first_sync w rs ls : shape cf w → (0 < RUU_num w)%nat → RUU w !! RUU_head w = Some rs →
  ea_comp (rs_inst_of rs) = true → LSQ w !! LSQ_head w = Some ls →
  rs_spec_mode (rs_inst_of ls) = rs_spec_mode (rs_inst_of rs).
Proof.
  intros Hs Hn Hr Hea Hl. pose proof (sh_sync _ _ Hs) as Hsy. rewrite (first_rinst w rs Hs Hn Hr) in Hsy.
  destruct (first_linst w Hs (first_in_step w rs Hs Hn Hr Hea)) as (ls' & Hl' & HL). simplify_eq.
  rewrite filter_cons_True, HL in Hsy by done. by injection Hsy.
Qed.

Definition retire_both (b : bool) (w : window) : window := retire_RUU cf (if b then retire_LSQ cf w else w).

Lemma shape_retire w rs : shape cf w → (0 < RUU_num w)%nat → RUU w !! RUU_head w = Some rs →
  shape cf (retire_both (ea_comp (rs_inst_of rs)) w).
Proof.
  intros Hs Hn Hr. pose proof (first_rinst w rs Hs Hn Hr) as HR.
  pose proof (sh_rin _ _ Hs) as Hrin. pose proof (sh_lin _ _ Hs) as Hlin. pose proof (sh_sync _ _ Hs) as Hsy.
  pose proof (sh_rtail _ _ Hs) as Hrt. pose proof (sh_ltail _ _ Hs) as Hlt.
  rewrite HR in Hrin, Hsy. apply Forall_cons in Hrin as [_ Hrin].
  pose proof (sh_rnum _ _ Hs). pose proof (sh_lnum _ _ Hs).
  assert (slot (RUU_size cf) (next_slot (RUU_size cf) (RUU_head w)) (RUU_num w - 1) = RUU_tail w) as Hrt'.
  { rewrite slot_next, Hrt. f_equal. lia. }
  assert (next_slot (RUU_size cf) (RUU_head w) < RUU_size cf)%nat as Hrh by (apply Nat.mod_upper_bound; pose proof (sh_rpos _ _ Hs); lia).
  assert (next_slot (LSQ_size cf) (LSQ_head w) < LSQ_size cf)%nat as Hlh by (apply Nat.mod_upper_bound; pose proof (sh_lpos _ _ Hs); lia).
  destruct (ea_comp (rs_inst_of rs)) eqn:Hea.
  - pose proof (first_in_step w rs Hs Hn Hr Hea) as Hln. destruct (first_linst w Hs Hln) as (ls & _ & HL).
    rewrite HL in Hlin, Hsy. apply Forall_cons in Hlin as [_ Hlin]. rewrite filter_cons_True in Hsy by done.
    rewrite !fmap_cons in Hsy. injection Hsy as _ Hsy.
    assert (slot (LSQ_size cf) (next_slot (LSQ_size cf) (LSQ_head w)) (LSQ_num w - 1) = LSQ_tail w) as Hlt'.
    { rewrite slot_next, Hlt. f_equal. lia. }
    destruct Hs; split; try done; cbn [RUU_num LSQ_num retire_both retire_RUU retire_LSQ]; lia.
  - rewrite filter_cons_False in Hsy by congruence.
    destruct Hs; split; try done; cbn [RUU_num LSQ_num retire_both retire_RUU retire_LSQ]; lia.
Qed.

(** ** One instance retires *)

Lemma retire_linked v q w w' A L p rs :
  linked cf v q w A None (L + 1, L) → live cf w p → station w p = Some rs → completed rs = true →
  L + 1 < 2 ^ 32 →
  (∀ p', station w' p' = if decide (p' = p) then Some (squash_tag rs) else station w p') →
  (∀ q, live cf w' q ↔ live cf w q ∧ q ≠ p) →
  linked cf v q w' A None (L + 1, L).
Proof.
  intros [Hpl Hsc Hcv Htg] Hlv Hp Hc HL Hst Hlive. destruct (Htg p rs Hp) as [Ht0 HtL]. specialize (HtL Hlv). cbn in Ht0, HtL.
  assert (rs_tag (squash_tag rs) = rs_tag rs + 1) as Htag by (cbn; apply u32_small; lia).
  split.
  - eapply pool_ext; [exact Hpl| |done]. intros y. apply heads_station. intros p'. rewrite Hst.
    case_decide; [subst p'; by rewrite Hp|done].
  - eapply (sched_squash cf w w' A A None p rs (squash_tag rs)); try done; [lia|].
    intros k. destruct (decide (A (ROdep p k) = [])) as [|Hne]; [done|].
    destruct (sc_odep _ _ _ _ _ _ Hsc p k Hne) as (rs0 & n & Hp0 & _ & [Hc0|(? & ? & _)] & _); [congruence|done].
  - eapply (cv_squash cf w w'); try done. intros spec n k Hn.
    destruct (cv_creator _ _ _ _ Hcv _ _ _ _ Hn) as (rs0 & Hp0 & _ & [Hc0|(? & ? & _)] & _); [congruence|done].
  - intros p' rs' Hp'. rewrite Hst in Hp'. rewrite Hlive. case_decide as Hd.
    + injection Hp' as <-. subst p'. cbn [fst snd]. rewrite Htag. split; [lia|]. by intros [_ ?].
    + destruct (Htg p' rs' Hp') as [? ?]. split; [done|]. intros [? _]. auto.
Qed.

(** The load or store at the head goes, or the stage ends. *)
Lemma commit_LSQ_good c A L rs :
  linked cf (cvs c) (qs c) (win c) A None (L + 1, L) → shape cf (win c) → side_ok cf fu Q c → L + 1 < 2 ^ 32 →
  (0 < RUU_num (win c))%nat → RUU (win c) !! RUU_head (win c) = Some rs → ea_comp (rs_inst_of rs) = true →
  rs_spec_mode (rs_inst_of rs) = false →
  commit_LSQ cf c = Ok None ∨
  ∃ w m, commit_LSQ cf c = Ok (Some (set_mach m (set_win (retire_LSQ cf w) c))) ∧ mach_le fu (mach c) m ∧
    same_frame (win c) w ∧ agree shape_view (win c) w ∧
    (∀ p', p' ≠ InLSQ (LSQ_head (win c)) → station w p' = station (win c) p') ∧
    linked cf (cvs c) (qs c) (retire_LSQ cf w) A None (L + 1, L) ∧
    (∀ q, live cf (retire_LSQ cf w) q ↔ live cf (win c) q ∧ q ≠ InLSQ (LSQ_head (win c))).
Proof.
  intros Hli Hs Hso HL Hn Hr Hea Hnsp. pose proof (first_in_step (win c) rs Hs Hn Hr Hea) as Hln.
  destruct (first_linst (win c) Hs Hln) as (ls & Hls & HL0).
  pose proof (first_sync (win c) rs ls Hs Hn Hr Hea Hls) as Hsync. rewrite Hnsp in Hsync.
  assert (live cf (win c) (InLSQ (LSQ_head (win c)))) as Hlv.
  { apply elem_of_slots. exists 0%nat. split; [done|]. by rewrite slot_0 by apply (sh_lhead _ _ Hs). }
  unfold commit_LSQ. rewrite bool_decide_false by lia.
  rewrite (get_rs_station (win c) (InLSQ (LSQ_head (win c))) ls Hls). cbn [mbind result_bind].
  assert (in_LSQ (rs_inst_of ls) = true) as Hin.
  { pose proof (sh_lin _ _ Hs) as Hin. rewrite HL0 in Hin. by apply Forall_cons in Hin as [? _]. }
  rewrite Hin. cbn [negb]. destruct (completed ls) eqn:Hc; [cbn [negb]|by left].
  assert ((if is_store (rs_op (rs_inst_of ls)) then commit_store ls c else Ok (Some c)) = Ok None ∨
    ∃ m, (if is_store (rs_op (rs_inst_of ls)) then commit_store ls c else Ok (Some c)) = Ok (Some (set_mach m c)) ∧
      mach_le fu (mach c) m) as Hst.
  { destruct (is_store _) eqn:His; [|right; exists (mach c); split; [by destruct c|by eapply side_mach_le]].
    pose proof (so_insts _ _ _ _ Hso _ ls Hlv Hls) as Hi.
    apply commit_store_ok; [done|by apply (io_store _ _ _ Hi)|by apply (io_addr _ _ _ Hi)]. }
  destruct Hst as [->|(m & -> & Hm)]; [by left|]. right. cbn [mbind result_bind].
  destruct (upd_station_spec (set_mach m c) (InLSQ (LSQ_head (win c))) squash_tag ls Hls) as (w & Hrun & Hfr & Hst).
  cbn [win set_mach] in Hrun |- *. rewrite Hrun. cbn [mbind result_bind]. cbn [win set_mach] in Hfr, Hst.
  pose proof (sh_lnum _ _ Hs) as Hle. pose proof (sh_lhead _ _ Hs) as Hh.
  assert (∀ q, live cf (retire_LSQ cf w) q ↔ live cf (win c) q ∧ q ≠ InLSQ (LSQ_head (win c))) as Hlive
    by (intros q; by apply live_retire_LSQ).
  exists w, (add_slip (sim_cycle m - rs_slip (rs_inst_of ls)) m). split; [done|]. split; [exact Hm|]. split; [done|].
  split; [by apply (agree_upd _ _ _ (InLSQ (LSQ_head (win c))) ls (squash_tag ls))|]. split; [intros p' Hne; rewrite Hst; by rewrite decide_False|].
  split; [|done]. by eapply retire_linked.
Qed.

(** Retirement keeps the speculation state: the head was not the unresolved branch. *)
Lemma spec_retire w w' s rs :
  shape cf w → spec_ok cf w s → (0 < RUU_num w)%nat → RUU w !! RUU_head w = Some rs → completed rs = true →
  RUU_head w' = next_slot (RUU_size cf) (RUU_head w) → RUU_num w' = (RUU_num w - 1)%nat →
  (∀ i, i ≠ RUU_head w → RUU w' !! i = RUU w !! i) → spec_ok cf w' s.
Proof.
  intros Hsh Hs Hn Hr Hc Eh En Hst. pose proof (sh_rnum _ _ Hsh) as Hle. pose proof (sh_rhead _ _ Hsh) as Hh.
  assert (∀ i rs', (i < RUU_num w')%nat → ruu_nth cf w' i = Some rs' → ruu_nth cf w (S i) = Some rs') as Hnth.
  { intros i rs' Hi. unfold ruu_nth. rewrite Eh, slot_next. rewrite Hst; [done|].
    intros He. rewrite <- (slot_0 (RUU_size cf) (RUU_head w) Hh) in He at 2. apply slot_inj in He; lia. }
  assert (ruu_nth cf w 0 = Some rs) as H0 by (unfold ruu_nth; by rewrite slot_0).
  destruct s; cbn [spec_ok] in *.
  - destruct Hs as (j & Hj & Hall). destruct (Hall 0%nat rs Hn H0) as (_ & _ & H3).
    assert (j ≠ 0%nat) as Hj0 by (intros ->; destruct (H3 eq_refl); congruence).
    exists (j - 1)%nat. split; [lia|]. intros i rs' Hi Hr'. destruct (Hall (S i) rs') as (-> & G2 & G3); [lia|by apply Hnth|].
    split; [apply bool_decide_ext; lia|]. split; [intros Hrec; destruct (G2 Hrec); [by left|right; lia]|intros ->; apply G3; lia].
  - intros i rs' Hi Hr'. apply (Hs (S i) rs'); [lia|by apply Hnth].
Qed.

(** The state of the stage: tags of retired instances have moved on. *)
Definition commit_at (L : Z) (A : root → list alink) c : Prop :=
  good cf (cvs c) c A [] [] None None None (L + 1, L) ∧ A RWork = [] ∧ side_ok cf fu Q c.

(** The oldest instance leaves: it is complete and not on the wrong path. *)
Definition retired c c' : Prop :=
  ∃ rs, ruu_nth cf (win c) 0 = Some rs ∧ completed rs = true ∧ rs_spec_mode (rs_inst_of rs) = false ∧
    RUU_head (win c') = next_slot (RUU_size cf) (RUU_head (win c)) ∧ RUU_num (win c') = (RUU_num (win c) - 1)%nat ∧
    ∀ q, live cf (win c') q → live cf (win c) q ∧ station (win c') q = station (win c) q.

(** Nothing more is retired in this cycle: the oldest instance is not complete, or it is a
    load or store. *)
Definition commit_waits c : Prop :=
  ∃ rs, ruu_nth cf (win c) 0 = Some rs ∧ (completed rs = false ∨ ea_comp (rs_inst_of rs) = true).

Lemma head_not_spec w s rs : spec_ok cf w s → (0 < RUU_num w)%nat → ruu_nth cf w 0 = Some rs →
  rs_spec_mode (rs_inst_of rs) = false.
Proof.
  destruct s; cbn [spec_ok].
  - intros (j & _ & Hall) Hn Hr. destruct (Hall 0%nat rs Hn Hr) as [-> _]. by apply bool_decide_eq_false_2; lia.
  - intros Hall Hn Hr. by apply (Hall 0%nat rs).
Qed.

Lemma commit_one_good L A c :
  commit_at L A c → L + 1 < 2 ^ 32 → (0 < RUU_num (win c))%nat →
  ∃ o, commit_one cf c = Ok o ∧ (o = None → commit_waits c) ∧ ∀ c', o = Some c' → commit_at L A c' ∧
    sim_cycle (mach c') = sim_cycle (mach c) ∧ spec_mode (mach c') = spec_mode (mach c) ∧ retired c c'.
Proof.
  intros (Hg & HAw & Hso) HL Hn. apply good_linked in Hg as [Hs Hli].
  destruct (lookup_lt_is_Some_2 (RUU (win c)) (RUU_head (win c))) as [rs Hr];
    [rewrite (sh_ruu _ _ Hs); apply (sh_rhead _ _ Hs)|].
  assert (live cf (win c) (InRUU (RUU_head (win c)))) as Hlv.
  { apply elem_of_slots. exists 0%nat. split; [done|]. by rewrite slot_0 by apply (sh_rhead _ _ Hs). }
  assert (ruu_nth cf (win c) 0 = Some rs) as Hr0 by (unfold ruu_nth; by rewrite slot_0 by apply (sh_rhead _ _ Hs)).
  pose proof (head_not_spec _ _ rs (so_spec _ _ _ _ Hso) Hn Hr0) as Hnsp.
  unfold commit_one. rewrite (get_rs_station (win c) (InRUU (RUU_head (win c))) rs Hr). cbn [mbind result_bind].
  destruct (completed rs) eqn:Hc; cbn [negb]; [|exists None; split; [done|split; [by exists rs; auto|done]]].
  assert ((if ea_comp (rs_inst_of rs) then commit_LSQ cf c else Ok (Some c)) = Ok None ∧ ea_comp (rs_inst_of rs) = true ∨
    ∃ w m, (if ea_comp (rs_inst_of rs) then commit_LSQ cf c else Ok (Some c)) = Ok (Some (set_mach m (set_win w c))) ∧
      mach_le fu (mach c) m ∧ shape cf (retire_RUU cf w) ∧ linked cf (cvs c) (qs c) w A None (L + 1, L) ∧
      RUU_head w = RUU_head (win c) ∧ RUU_num w = RUU_num (win c) ∧
      (∀ q, live cf w q → live cf (win c) q ∧ station w q = station (win c) q) ∧
      (∀ s, station w (InRUU s) = station (win c) (InRUU s)) ∧
      live cf w (InRUU (RUU_head (win c)))) as [[-> Hea]|(w & m & -> & Hm & Hs1 & Hli1 & Eh & En & Hq1 & Hru & Hlv1)].
  { pose proof (shape_retire (win c) rs Hs Hn Hr) as Hsr. destruct (ea_comp (rs_inst_of rs)) eqn:Hea.
    - destruct (commit_LSQ_good c A L rs Hli Hs Hso HL Hn Hr Hea Hnsp) as [->|(w & m & -> & Hm & Hfr & Hag & Hst & Hli1 & Hlive)]; [by left|].
      right. exists (retire_LSQ cf w), m. split; [done|]. split; [done|]. split; [|split; [done|]].
      + eapply agree_shape; [| |exact Hsr].
        * destruct Hfr as (E1 & E2 & E3 & E4 & E5 & E6 & E7 & E8). repeat split; cbn; congruence.
        * exact Hag.
      + split; [apply Hfr|]. split; [apply Hfr|]. split; [|split].
        * intros q Hq. apply Hlive in Hq as [Hq Hne]. split; [done|]. by apply (Hst q).
        * intros s. by apply (Hst (InRUU s)).
        * by apply Hlive.
    - right. exists (win c), (mach c). split; [by destruct c|]. split; [by eapply side_mach_le|]. done. }
  { exists None. split; [done|]. split; [by exists rs; auto|done]. }
  cbn [mbind result_bind]. set (c1 := set_mach m (set_win w c)).
  assert (side_ok cf fu Q (set_mach m c)) as Hso1 by (by apply side_mach).
  assert (inst_ok fu (pred m) (rs_inst_of rs)) as Hio by (by apply (so_insts _ _ _ _ Hso1 (InRUU (RUU_head (win c))))).
  assert (∃ m2, train_pred cf spec_CT rs c1 = Ok (set_mach m2 c1) ∧ mach_le fu m m2) as (m2 & -> & Hm2).
  { destruct (train_pred_ok cf fu Q spec_CT rs (set_mach m c) Hso1 Hio) as (m2 & Ht & Hm2). exists m2. split; [|done].
    revert Ht. unfold train_pred. change (mach c1) with m. change (mach (set_mach m c)) with m.
    destruct (pred m) as [p|]; [|intros [= He]; by subst m2; unfold c1; destruct c; cbn in *].
    destruct (_ && _); [|intros [= He]; by subst m2; unfold c1; destruct c; cbn in *].
    destruct (bpred_update _ _ _ _ _ _ _ _) as [p'|]; [|done]. cbn [mbind result_bind]. intros [= <-]. done. }
  cbn [mbind result_bind].
  assert (station w (InRUU (RUU_head (win c))) = Some rs) as Hr1 by (by rewrite Hru).
  destruct (upd_station_spec (set_mach m2 c1) (InRUU (RUU_head (win c))) squash_tag rs Hr1) as (w2 & Hrun & Hfr & Hst).
  cbn [win set_mach set_win c1] in Hfr, Hst. rewrite Hrun. cbn [mbind result_bind].
  assert (bool_decide (Exists (λ o, o ≠ None) (odep_list rs)) = false) as ->.
  { apply bool_decide_eq_false_2. intros (o & Ho & Hne)%Exists_exists. apply list_elem_of_lookup in Ho as [k Hk].
    destruct o as [n|]; [|done]. pose proof (li_pool _ _ _ _ _ _ _ Hli) as Hpl. pose proof (li_sched _ _ _ _ _ _ _ Hli) as Hsc.
    assert (A (ROdep (InRUU (RUU_head (win c))) k) = []) as He.
    { destruct (decide (A (ROdep (InRUU (RUU_head (win c))) k) = [])) as [|Hne']; [done|].
      destruct (sc_odep _ _ _ _ _ _ Hsc _ _ Hne') as (rs0 & n0 & Hp0 & _ & [Hc0|(? & ? & _)] & _); [cbn in Hp0; congruence|done]. }
    apply (pool_nil _ _ _ _ Hpl) in He; [|done]. cbn in He. rewrite decide_False in He by done.
    unfold odep_head in He. cbn in He. rewrite Hr, Hk in He. done. }
  eexists. split; [reflexivity|]. split; [done|]. intros c' [= <-]. cbn [mach set_win set_mach c1 add_slip sim_cycle spec_mode].
  destruct Hm as (G1 & G2 & G3 & G4 & G5 & G6). destruct Hm2 as (F1 & F2 & F3 & F4 & F5 & F6).
  assert (∀ q, live cf (retire_RUU cf w2) q ↔ live cf w q ∧ q ≠ InRUU (RUU_head w)) as Hlive.
  { intros q. apply live_retire_RUU; [done|rewrite En; split; [done|apply (sh_rnum _ _ Hs)]|rewrite Eh; apply (sh_rhead _ _ Hs)]. }
  rewrite Eh in Hlive.
  assert (∀ q, live cf (retire_RUU cf w2) q → live cf (win c) q ∧ station (retire_RUU cf w2) q = station (win c) q) as Hsh2.
  { intros q [Hq Hne]%Hlive. destruct (Hq1 q Hq) as [Hq' <-]. split; [done|].
    change (station w2 q = station w q). rewrite Hst. by rewrite decide_False. }
  split; [|split; [congruence|split; [congruence|exists rs; pose proof Hfr as (E1 & _ & E3 & _)]]].
  2: { split; [done|]. split; [done|]. split; [eapply head_not_spec; [apply (so_spec _ _ _ _ Hso)|done|done]|].
       split; [cbn; by rewrite E1, Eh|]. split; [cbn; by rewrite E3, En|done]. }
  split; [|split; [done|]].
  - apply good_linked. cbn [win cvs qs set_win set_mach]. split.
    + eapply agree_shape; [| |exact Hs1].
      * destruct Hfr as (E1 & E2 & E3 & E4 & E5 & E6 & E7 & E8). repeat split; cbn; congruence.
      * intros p'. change (shape_view <$> station w2 p' = shape_view <$> station w p'). rewrite Hst.
        case_decide; [subst p'; by rewrite Hr1|done].
    + eapply (retire_linked _ _ w); try done.
  - destruct Hso as [S1 S2 S3 S4 S5 S6 SQ S7 S8]. split; cbn [win mach front set_win set_mach c1]; try done.
    + by eapply lsq_shrinks.
    + cbn [spec_mode add_slip]. rewrite F2, G2. eapply (spec_retire (win c)); try done.
      * destruct Hfr as (E1 & _). cbn. by rewrite E1, Eh.
      * destruct Hfr as (_ & _ & E3 & _). cbn. by rewrite E3, En.
      * intros i Hi. change (station w2 (InRUU i) = station (win c) (InRUU i)). rewrite Hst, <- Hru. by rewrite decide_False by congruence.
    + cbn [pred add_slip]. eapply insts_le; [|by eapply insts_shrinks]. by etransitivity.
    + cbn [pred add_slip]. eapply fetch_le; [|done]. by etransitivity.
Qed.

(** [k] instances retire one after the other. *)
Inductive retires : nat → core MS → core MS → Prop :=
  | retires_O c : retires 0 c c
  | retires_S k c1 c2 c3 : (0 < RUU_num (win c1))%nat → shape cf (win c2) → retired c1 c2 → retires k c2 c3 → retires (S k) c1 c3.

Lemma commit_loop_good L A n : ∀ c, commit_at L A c → L + 1 < 2 ^ 32 →
  ∃ c' k, commit_loop cf n c = Ok c' ∧ commit_at L A c' ∧
    sim_cycle (mach c') = sim_cycle (mach c) ∧ spec_mode (mach c') = spec_mode (mach c) ∧
    retires k c c' ∧ (k ≤ n)%nat ∧ (k = n ∨ RUU_num (win c') = 0%nat ∨ commit_waits c').
Proof.
  induction n as [|n IH]; intros c Hc HL; cbn [commit_loop].
  { exists c, 0%nat. split_and!; try done; [constructor|by left]. }
  case_bool_decide as Hn; [exists c, 0%nat; split_and!; try done; [constructor|lia|by right; left]|].
  destruct (commit_one_good L A c Hc HL) as (o & -> & Hno & Ho); [lia|]. cbn [mbind result_bind].
  destruct o as [c1|]; [|exists c, 0%nat; split_and!; try done; [constructor|lia|right; right; by apply Hno]].
  destruct (Ho c1 eq_refl) as (Hc1 & Hcy & Hsp & Hre).
  destruct (IH c1 Hc1 HL) as (c' & k & Hrun & Hc' & Hcy' & Hsp' & Hk & Hkn & Hst). exists c', (S k).
  split; [done|]. split; [done|]. split; [congruence|]. split; [congruence|]. split; [|split; [lia|]].
  - eapply retires_S; [lia|apply Hc1|done|done].
  - destruct Hst as [->|?]; [by left|by right].
Qed.

(** Commit moves the bound of the tags by one. *)
Lemma ruu_commit_good M A c : core_at cf fu Q M A c → M + 1 < 2 ^ 32 →
  ∃ c' k, ruu_commit cf c = Ok c' ∧ core_at cf fu Q (M + 1) A c' ∧ sim_cycle (mach c') = sim_cycle (mach c) ∧
    retires k c c' ∧ (k ≤ ruu_commit_width cf)%nat ∧
    (k = ruu_commit_width cf ∨ RUU_num (win c') = 0%nat ∨ commit_waits c').
Proof.
  intros [(L & Hg & HL) [HAw Hso]] HM. unfold ruu_commit.
  assert (0 ≤ c_bool (spec_mode (mach c))) as Hb by (unfold c_bool; by destruct (spec_mode _)).
  destruct (commit_loop_good L A (ruu_commit_width cf) c) as (c' & k & Hrun & (Hg' & HA' & Hso') & Hcy & Hsp & Hk).
  - split; [|done]. destruct Hg as [G1 G2 G3 G4 G5]. split; try done. eapply tags_mono; [exact G5|lia|lia].
  - lia.
  - exists c', k. split; [done|]. split; [|done]. split; [|done]. exists (L + 1). split; [|rewrite Hsp; lia].
    destruct Hg' as [G1 G2 G3 G4 G5]. split; try done. eapply tags_mono; [exact G5|lia|lia].
Qed.

(** The release of the functional units. *)
Lemma ruu_release_fu_good M A c : core_at cf fu Q M A c →
  ∃ c', ruu_release_fu c = Ok c' ∧ core_at cf fu Q M A c' ∧ sim_cycle (mach c') = sim_cycle (mach c).
Proof.
  intros [(L & Hg & HL) [HAw Hso]]. destruct (so_units _ _ _ _ Hso) as (p0 & bs & Hcr & Hbs & Hfu).
  unfold ruu_release_fu. rewrite Hfu. pose proof Hcr as (_ & Hnum & _). cbn [num_resources set_busy].
  rewrite Hnum, Nat2Z.id.
  destruct (release_units_spec fu p0 (seq 0 (length (expand fu))) bs Hcr Hbs) as (bs' & -> & Hbs').
  { apply Forall_forall. intros i Hi%elem_of_seq. lia. }
  cbn [mbind result_bind]. eexists. split; [reflexivity|]. split; [|done].
  destruct (side_mach_le cf fu Q c Hso) as (H1 & H2 & H3 & H4 & H5 & H6).
  split; [|split; [done|apply side_mach; [|done]]].
  - exists L. split; [by apply good_mach|done].
  - split_and!; try done. cbn. exists p0, bs'. by rewrite <- Hnum.
Qed.
End Commit.
