(* ===== verification/RuuIssue.v ===== *)
(** * The refresh of the load/store queue keeps the invariant *)

From S2P Require Import Prelude Chains Misc Memory Bpred Resource ResourceSpec Ruu RuuStages RuuSched RuuFront Pool RuuPool RuuInv.
From S2P Require Import RuuSched1 RuuGood RuuWriteback RuuSquash RuuRecover RuuUnits RuuCore RuuComplete RuuCommit.

Section Refresh.
Context {MS : Type} `{!Environment MS, !EnvSpec MS}.
Variable cf : config.
Variable fu : list res_desc.
Variable Q : front_end → Prop.
Implicit Types c : core MS.

(** An operation that is ready and neither queued nor issued is queued. *)
Lemma enqueue_core M A c p rs :
  core_at cf fu Q M A c → live cf (win c) p → station (win c) p = Some rs →
  queued rs = false → OPERANDS_READY rs = true → issued rs = false →
  wp out_of_links (readyq_enqueue c p) (λ c', ∃ A', core_at cf fu Q M A' c' ∧ quiet_step c c' ∧
    ∀ q, station (win c') q = if decide (q = p) then Some (set_queued true rs) else station (win c) q).
Proof.
  intros [(L & Hg & HL) [HAw Hso]] Hlv Hp Hq Hr Hi.
  eapply wp_mono; [by eapply enqueue_good|done|].
  intros c' (A' & Hg' & (Hk & Hcv & Hm & Hf & HA) & Hst & _). exists A'. split; [|by split].
  split; [|split; [by rewrite HA|by eapply side_keeps]].
  exists L. rewrite Hcv, Hm. done.
Qed.

Lemma load_waiting_true rs : load_waiting rs = true →
  queued rs = false ∧ issued rs = false ∧ OPERANDS_READY rs = true.
Proof. unfold load_waiting. rewrite !andb_true_iff, !negb_true_iff. naive_solver. Qed.

Lemma scan_store_ok rs unknown : length (idep_ready rs) = MAX_IDEPS →
  wp (core_fault MS) (scan_store rs unknown) (λ _, True).
Proof.
  intros Hl. unfold scan_store, STORE_ADDR_READY.
  destruct (lookup_lt_is_Some_2 (idep_ready rs) STORE_ADDR_INDEX) as [b Hb]; [rewrite Hl; unfold STORE_ADDR_INDEX, MAX_IDEPS; lia|].
  rewrite (proj2 (vget_Ok _ _ _) Hb). cbn [mbind result_bind]. destruct b; [|done]. cbn [negb].
  destruct (OPERANDS_READY rs); [done|]. cbn [negb]. case_bool_decide; [|done]. right; left. by right.
Qed.

Lemma refresh_loop_good M n : ∀ c A unknown,
  core_at cf fu Q M A c → (n ≤ LSQ_num (win c))%nat →
  wp (core_fault MS) (refresh_loop cf n (slot (LSQ_size cf) (LSQ_head (win c)) (LSQ_num (win c) - n)) unknown c)
    (λ c', ∃ A', core_at cf fu Q M A' c' ∧ quiet_step c c').
Proof.
  induction n as [|n IH]; intros c A unknown Hc Hn; cbn [refresh_loop].
  - exists A. split; [done|apply quiet_step_refl].
  - pose proof Hc as [(L & Hg & HL) [HAw Hso]]. pose proof (g_shape _ _ _ _ _ _ _ _ _ _ Hg) as Hs.
    set (i := slot _ _ _).
    assert (live cf (win c) (InLSQ i)) as Hlv.
    { apply elem_of_slots. exists (LSQ_num (win c) - S n)%nat. split; [lia|done]. }
    destruct (live_station cf (win c) (InLSQ i) Hs Hlv) as [rs Hp].
    rewrite (get_rs_station _ _ _ Hp). cbn [mbind result_bind]. apply wp_bind.
    eapply (wp_mono (core_fault MS) _ _ (λ _, True)); [|done|].
    { destruct (is_store _); [|done]. apply scan_store_ok. apply (sh_len _ _ Hs (InLSQ i) rs Hp). }
    intros o _. destruct o as [unknown'|]; [|exists A; split; [done|apply quiet_step_refl]].
    apply wp_bind. eapply (wp_mono out_of_links _ _ (λ c', ∃ A', core_at cf fu Q M A' c' ∧ quiet_step c c'));
      [|apply links_fault|].
    + destruct (load_waiting rs && _) eqn:Hlw; [|exists A; split; [done|apply quiet_step_refl]].
      apply andb_true_iff in Hlw as [(H1 & H2 & H3)%load_waiting_true _].
      eapply wp_mono; [by eapply enqueue_core|done|]. intros c' (A' & ? & ? & _). by exists A'.
    + intros c1 (A1 & Hc1 & Hq1). pose proof Hq1 as [[(E1 & _ & E3 & E4 & _ & E6 & _) _] _].
      subst i. rewrite next_slot_slot.
      replace (S (LSQ_num (win c) - S n))%nat with (LSQ_num (win c1) - n)%nat by lia. rewrite <- E4.
      eapply wp_mono; [apply (IH c1 A1 unknown' Hc1); lia|done|].
      intros c2 (A2 & Hc2 & Hq2). exists A2. split; [done|]. by eapply quiet_step_trans.
Qed.

Lemma lsq_refresh_good M A c : core_at cf fu Q M A c →
  wp (core_fault MS) (lsq_refresh cf c) (λ c', ∃ A', core_at cf fu Q M A' c' ∧ quiet_step c c').
Proof.
  intros Hc. pose proof (refresh_loop_good M (LSQ_num (win c)) c A [] Hc (le_n _)) as H.
  rewrite Nat.sub_diag in H. destruct Hc as [(L & Hg & HL) _]. pose proof (g_shape _ _ _ _ _ _ _ _ _ _ Hg) as Hs.
  rewrite slot_0 in H by apply (sh_lhead _ _ Hs). exact H.
Qed.
End Refresh.

(** ** Issue *)

Section Issue.
Context {MS : Type} `{!Environment MS, !EnvSpec MS}.
Variable cf : config.
Variable fu : list res_desc.
Variable Q : front_end → Prop.
Hypothesis fu_ok : config_ok fu.
Hypothesis fu_lat : ∀ d t, d ∈ fu → t ∈ active (templates d) → 1 ≤ rt_oplat t < 2 ^ 31.
Hypothesis env_ok : EnvOk fu.
Implicit Types c : core MS.

(** The ready queue becomes the list to walk. *)
Lemma sched_issue w A bp :
  sched cf w A [] [] bp → A RWork = [] →
  sched cf w (upd (upd A RWork (A RReady)) RReady []) (A RReady) [] bp.
Proof.
  intros Hs Hwork. set (A' := upd _ _ _).
  assert (∀ r, r ≠ RWork → r ≠ RReady → A' r = A r) as HA.
  { intros r H1 H2. subst A'. rewrite upd_other by done. by apply upd_other. }
  assert (A' RWork = A RReady) as HAw by done. assert (A' RReady = []) as HAr by done.
  assert (∀ r a, a ∈ A' r → (r = RWork ∧ a ∈ A RReady) ∨ a ∈ A r) as Hin.
  { intros r a. destruct (decide (r = RWork)) as [->|H1]; [rewrite HAw; by left|].
    destruct (decide (r = RReady)) as [->|H2]; [rewrite HAr; by intros ?%elem_of_nil|]. rewrite HA by done. by right. }
  assert (∀ r, consumers A' [] r = consumers A [] r) as Hc by (intros []; cbn; try done; by apply HA).
  split.
  - intros r a Hr [[-> Ha]|Ha]%Hin; (eapply sc_tag; [exact Hs| |exact Ha]; done).
  - intros r a Hr [[-> Ha]|Ha]%Hin; (eapply sc_live; [exact Hs| |exact Ha]; done).
  - intros a rs. rewrite HA by done. by eapply sc_ev.
  - rewrite HA by done. by eapply sc_ev_nodup.
  - intros a rs. rewrite HAr. intros Ha. eapply sc_rd; [exact Hs|by rewrite app_nil_r].
  - rewrite HAr. pose proof (sc_rd_nodup _ _ _ _ _ _ Hs) as Hn. by rewrite app_nil_r in Hn.
  - by rewrite HAw.
  - by intros a ?%elem_of_nil.
  - intros r a rs. rewrite Hc. by eapply sc_od.
  - intros r. rewrite Hc. by eapply sc_key_nodup.
  - intros r r' x. rewrite !Hc. by eapply sc_key.
  - intros q rs. by eapply sc_queued.
  - intros q rs. by eapply sc_issued.
  - intros q rs. by eapply sc_completed.
  - intros q j Hne. rewrite HA in Hne by done. by eapply sc_odep.
Qed.

(** During the walk: [wr] is left to visit. *)
Definition issue_at (M : Z) (A : root → list alink) (wr : list alink) (wk : option nat) c : Prop :=
  (∃ L, good cf (cvs c) c A wr [] None None wk (L, L) ∧ L + c_bool (spec_mode (mach c)) ≤ M) ∧ side_ok cf fu Q c.

(** The operation at the head of the rest of the list is taken off. *)
Lemma dequeue_good M A a rest n c :
  issue_at M A (a :: rest) (Some n) c → valid (win c) a →
  ∃ w rs, upd_station c (a_rs a) (set_queued false) = Ok (set_win w c) ∧
    station (win c) (a_rs a) = Some rs ∧ live cf (win c) (a_rs a) ∧
    queued rs = true ∧ OPERANDS_READY rs = true ∧ issued rs = false ∧ completed rs = false ∧
    keeps (win c) w ∧ (∀ p', station w p' = if decide (p' = a_rs a) then Some (set_queued false rs) else station (win c) p') ∧
    issue_at M A rest (Some n) (set_win w c).
Proof.
  intros [(L & Hg & HL) Hso] Hva. pose proof Hg as [Hsh Hpl Hsc Hcv Htg].
  assert (is_Some (station (win c) (a_rs a))) as [rs Hp].
  { unfold valid in Hva. destruct (station (win c) (a_rs a)); [by eexists|done]. }
  assert (live cf (win c) (a_rs a)) as Hlv.
  { eapply (sc_live _ _ _ _ _ _ Hsc RWork); [done| |done]. apply (sc_wr _ _ _ _ _ _ Hsc). set_solver. }
  assert (queued rs = true) as Hq by (eapply (sc_rd _ _ _ _ _ _ Hsc a rs); [set_solver|done|done]).
  destruct (sc_queued _ _ _ _ _ _ Hsc _ _ Hlv Hp Hq) as [Hr Hi].
  assert (completed rs = false) as Hc.
  { destruct (completed rs) eqn:Hc; [|done]. pose proof (sc_completed _ _ _ _ _ _ Hsc _ _ Hlv Hp Hc). congruence. }
  destruct (upd_station_spec c (a_rs a) (set_queued false) rs Hp) as (w & Hrun & Hfr & Hst).
  assert (keeps (win c) w) as Hk by (by eapply keeps_upd).
  exists w, rs. do 9 (split; [done|]). split; [|by eapply side_keeps].
  exists L. split; [|done]. split; cbn.
  - by eapply keeps_shape.
  - eapply pool_ext; [exact Hpl| |done]. intros y. apply heads_station. intros p'. rewrite Hst.
    case_decide; [subst p'; by rewrite Hp|done].
  - eapply (station_upd_frame cf (win c) w A rest [] None (a_rs a) rs false); try done.
    + eapply sched_shrink; [exact Hsc|done|by apply sublist_cons|done| |by intros b ?%elem_of_nil].
      intros b Hb. apply (sc_wr _ _ _ _ _ _ Hsc). set_solver.
    + intros _. pose proof (sc_rd_nodup _ _ _ _ _ _ Hsc) as Hn.
      rewrite (targets_perm _ _ (a :: A RReady ++ rest)) in Hn by (by rewrite Permutation_middle).
      rewrite targets_cons_valid in Hn by done. by apply NoDup_cons in Hn as [? _].
  - by eapply keeps_cv.
  - by eapply keeps_tags.
Qed.

(** It goes back to the queue. *)
Lemma requeue_good M A rest n c p rs :
  issue_at M A rest (Some n) c → live cf (win c) p → station (win c) p = Some rs →
  queued rs = false → OPERANDS_READY rs = true → issued rs = false →
  wp out_of_links (readyq_enqueue c p) (λ c', ∃ A', issue_at M A' rest (Some n) c' ∧
    A' RWork = A RWork ∧ mach c' = mach c ∧ links (qs c') !! n = links (qs c) !! n).
Proof.
  intros [(L & Hg & HL) Hso] Hlv Hp Hq Hr Hi. eapply wp_mono; [by eapply enqueue_good|done|].
  intros c' (A' & Hg' & (Hk & Hcv & Hm & Hf & HA) & _ & Hkp). exists A'.
  split; [|split; [by apply HA|split; [done|by apply Hkp]]].
  split; [|by eapply side_keeps]. exists L. by rewrite Hcv, Hm.
Qed.

(** ** A change of status *)

Lemma spec_nth w w' s : (∀ i, ruu_nth cf w' i = ruu_nth cf w i) → RUU_num w' = RUU_num w →
  spec_ok cf w s → spec_ok cf w' s.
Proof.
  intros Hn En. unfold spec_ok. rewrite En. destruct s.
  - intros (j & Hj & Hall). exists j. split; [done|]. intros i rs Hi Hr. rewrite Hn in Hr. by apply Hall.
  - intros Hall i rs Hi Hr. rewrite Hn in Hr. by apply (Hall i).
Qed.

Lemma status_good M A rest wk c p rs rs' w :
  issue_at M A rest wk c → live cf (win c) p → station (win c) p = Some rs →
  same_frame (win c) w → (∀ p', station w p' = if decide (p' = p) then Some rs' else station (win c) p') →
  rs_inst_of rs' = rs_inst_of rs → rs_tag rs' = rs_tag rs → onames rs' = onames rs → idep_ready rs' = idep_ready rs →
  odep_list rs' = odep_list rs → recover_inst rs' = recover_inst rs →
  queued rs = false → queued rs' = false → OPERANDS_READY rs = true → issued rs = false → issued rs' = true →
  (completed rs' = completed rs ∨ ∃ s, p = InLSQ s ∧ is_store (rs_op (rs_inst_of rs)) = true) →
  issue_at M A rest wk (set_win w c) ∧ p ∉ targets (win c) (A REvent).
Proof.
  intros [(L & Hg & HL) Hso] Hlv Hp Hfr Hst E1 E2 E3 E4 E5 E6 Hq Hq' Hr Hi Hi' Hc.
  pose proof Hg as [Hsh Hpl Hsc Hcv Htg]. pose proof Hso as [S1 S2 S3 S4 S5 S6 SQ S7].
  assert (p ∉ targets (win c) (A REvent)) as Hno.
  { intros (a & Ha & Hva & Hap)%elem_of_targets. subst p. destruct (sc_ev _ _ _ _ _ _ Hsc a rs Ha Hva Hp). congruence. }
  assert (∀ k n, onames rs !! k = Some n → n ≠ NA → completed rs' = completed rs) as Hcn.
  { intros k n Hk Hn. destruct Hc as [|(s & -> & Hst')]; [done|]. exfalso.
    destruct (S1 s rs Hlv Hp) as [_ Hna]. apply Hn. by apply (Forall_lookup_1 _ _ _ _ (Hna Hst') Hk). }
  split; [|done]. split.
  - exists L. split; [|done]. split; cbn.
    + eapply agree_shape; [done| |done]. eapply agree_upd; [exact Hp|exact Hst|]. unfold shape_view. congruence.
    + eapply pool_ext; [exact Hpl| |done]. intros y. apply heads_station. intros p'. rewrite Hst.
      case_decide; [subst p'; rewrite Hp; cbn; by rewrite E5|done].
    + eapply (sched_status cf (win c) w A rest [] None p rs rs'); try done.
      * intros a Ha Hva Hap. exfalso. apply Hno, elem_of_targets. by exists a.
      * intros a Ha Hva <-. pose proof (sc_rd _ _ _ _ _ _ Hsc a rs Ha Hva Hp). congruence.
      * intros r a Ha Hva <-. rewrite E4. by apply (sc_od _ _ _ _ _ _ Hsc r a rs).
      * intros _. unfold OPERANDS_READY in *. rewrite Hq', Hi', E4. split_and!; done.
      * intros k Hne [Hpd|(? & ? & _)]; [|done]. left.
        destruct (sc_odep _ _ _ _ _ _ Hsc p k Hne) as (rs0 & m & Hp0 & _ & _ & Hm & Hmn). rewrite Hp in Hp0. injection Hp0 as <-.
        by rewrite (Hcn k m Hm Hmn).
    + eapply (cv_status cf (win c)); [exact Hcv|exact Hfr|exact Hp|exact Hst|done|done|].
      intros k m Hm Hmn [Hpd|(? & ? & _)]; [|done]. left. by rewrite (Hcn k m Hm Hmn).
    + eapply agree_tags; [done| |done]. by eapply agree_upd.
  - split; cbn; try done.
    + eapply agree_lsq; [done| |done]. eapply agree_upd; [exact Hp|exact Hst|]. unfold lsq_view. congruence.
    + destruct Hc as [Hc|(s & -> & _)].
      * eapply agree_spec; [done| |done]. eapply agree_upd; [exact Hp|exact Hst|]. unfold spec_view. congruence.
      * destruct Hfr as (F1 & F2 & F3 & F4 & F5 & F6 & F7 & F8).
        assert (∀ i, ruu_nth cf w i = ruu_nth cf (win c) i) as Hn.
        { intros i. unfold ruu_nth. rewrite F1. change (RUU w !! ?x) with (station w (InRUU x)). rewrite Hst. by rewrite decide_False. }
        by eapply spec_nth.
    + eapply insts_agree; [done| |done]. by eapply agree_upd.
Qed.

(** ** Queueing a completion *)

Lemma event_good M A rest n c p rs when :
  issue_at M A rest (Some n) c → live cf (win c) p → station (win c) p = Some rs →
  issued rs = true → completed rs = false → p ∉ targets (win c) (A REvent) → sim_cycle (mach c) < when →
  wp out_of_links (eventq_queue_event c p when) (λ c', ∃ A', issue_at M A' rest (Some n) c' ∧
    A' RWork = A RWork ∧ mach c' = mach c ∧ links (qs c') !! n = links (qs c) !! n).
Proof.
  intros [(L & Hg & HL) Hso] Hlv Hp Hi Hc Hno Hw. pose proof Hg as [Hsh Hpl Hsc Hcv Htg].
  eapply wp_mono; [by eapply eventq_queue_event_spec|done|].
  intros c' (q & as1 & as2 & -> & HA & _ & _ & Hpl' & Hkp).
  exists (upd A REvent (as1 ++ (p, rs_tag rs, when) :: as2)). split_and!; [| |done|by apply (Hkp RWork)].
  - split; [|by destruct Hso; split]. exists L. split; [|done]. split; try done.
    eapply (sched_add cf (win c) A rest [] None REvent (p, rs_tag rs, when)); try done.
    rewrite HA. by rewrite Permutation_middle.
  - by apply upd_other.
Qed.

(** ** The latency of a load *)

Lemma forward_loop_ok w addr : shape cf w → ∀ fuel k, (k < LSQ_num w)%nat → (0 < k ≤ fuel)%nat →
  ∃ b, forward_loop cf fuel w (slot (LSQ_size cf) (LSQ_head w) k) addr = Ok b.
Proof.
  intros Hs. induction fuel as [|fuel IH]; intros k Hk Hf; [lia|]. cbn [forward_loop].
  destruct k as [|k]; [lia|]. rewrite prev_slot_slot by apply (sh_lpos _ _ Hs).
  assert (live cf w (InLSQ (slot (LSQ_size cf) (LSQ_head w) k))) as Hlv by (apply elem_of_slots; exists k; split; [lia|done]).
  destruct (live_station cf w _ Hs Hlv) as [rs Hp]. rewrite (get_rs_station _ _ _ Hp). cbn [mbind result_bind].
  destruct (_ && _); [by exists true|]. case_bool_decide as Hh; [by exists false|].
  destruct k as [|k]; [by rewrite slot_0 in Hh by apply (sh_lhead _ _ Hs)|]. apply IH; lia.
Qed.

Lemma store_forward_ok w i addr : shape cf w → live cf w (InLSQ i) → ∃ b, store_forward cf w i addr = Ok b.
Proof.
  intros Hs (k & Hk & ->)%elem_of_slots. unfold store_forward. case_bool_decide as Hh; [by exists false|].
  pose proof (sh_lnum _ _ Hs). apply forward_loop_ok; [done|done|]. destruct k; [|lia].
  by rewrite slot_0 in Hh by apply (sh_lhead _ _ Hs).
Qed.

Lemma access_dl1 a c : side_ok cf fu Q c → env_addr a →
  ∃ o m, access_with dl1_access Read (word_addr a) 4 c = Ok (o, set_mach m c) ∧ mach_le fu (mach c) m ∧
    ∀ lat, o = Some lat → 1 ≤ i32 lat ∨ env_late MS.
Proof.
  intros Hso Ha. unfold access_with.
  destruct (eo_dl1 (fu := fu) Read a (sim_cycle (mach c)) (ports (mach c)) (so_env _ _ _ _ Hso) Ha)
    as (o & s' & -> & He & Hl).
  cbn [mbind result_bind]. eexists o, _. split; [reflexivity|]. split; [|done].
  destruct (side_mach_le cf fu Q c Hso) as (H1 & H2 & H3 & H4 & H5 & H6). by split_and!.
Qed.

(** A latency is an int, positive if latencies do not overflow. *)
Definition lat_ok (lat : Z) : Prop := - 2 ^ 31 ≤ lat < 2 ^ 31 ∧ (1 ≤ lat ∨ env_late MS).

Lemma load_latency_ok c i addr oplat :
  shape cf (win c) → side_ok cf fu Q c → live cf (win c) (InLSQ i) → 1 ≤ oplat < 2 ^ 31 →
  ∃ lat m, load_latency cf i addr oplat c = Ok (lat, set_mach m c) ∧ lat_ok lat ∧ mach_le fu (mach c) m.
Proof.
  intros Hs Hso Hlv Ho. unfold load_latency. destruct (store_forward_ok (win c) i addr Hs Hlv) as [fwd ->].
  cbn [mbind result_bind].
  assert (∃ lat m, (if fwd : bool then Ok (1, c) else
     if MD_VALID_ADDR addr then
       '(o, c) ← access_with dl1_access Read (word_addr addr) 4
         (if negb (spec_mode (mach c)) && negb (MD_VALID_ADDR addr)
          then set_mach (count_invalid_addr (mach c)) c else c);
       Ok (match o with Some lat => i32 lat | None => oplat end, c)
     else Ok (oplat, if negb (spec_mode (mach c)) && negb (MD_VALID_ADDR addr)
          then set_mach (count_invalid_addr (mach c)) c else c)) = Ok (lat, set_mach m c) ∧ lat_ok lat ∧ mach_le fu (mach c) m) as (lat & m & -> & Hlat & Hm).
  { destruct fwd; [exists 1, (mach c); split; [by destruct c|split; [split; [lia|left; lia]|by eapply side_mach_le]]|].
    assert (∃ m, (if negb (spec_mode (mach c)) && negb (MD_VALID_ADDR addr)
              then set_mach (count_invalid_addr (mach c)) c else c) = set_mach m c ∧ mach_le fu (mach c) m) as (m & -> & Hm).
    { pose proof (side_mach_le cf fu Q c Hso) as Hle. destruct (_ && _); [|exists (mach c); split; [by destruct c|done]].
      exists (count_invalid_addr (mach c)). split; [done|exact Hle]. }
    pose proof (side_mach cf fu Q c m Hm Hso) as Hso1. destruct (MD_VALID_ADDR addr) eqn:Hv.
    - destruct (access_dl1 addr (set_mach m c) Hso1 (eo_valid addr Hv)) as (o & m2 & -> & Hm2 & Hl). cbn [mbind result_bind].
      eexists _, m2. split; [reflexivity|]. split; [|by eapply mach_le_trans].
      destruct o as [l|]; [|split; [lia|left; lia]]. split; [pose proof (i32_range l); lia|by apply (Hl l)].
    - exists oplat, m. split; [done|]. split; [split; [lia|left; lia]|done]. }
  cbn [mbind result_bind]. pose proof (side_mach cf fu Q c m Hm Hso) as Hso1. destruct (MD_VALID_ADDR addr) eqn:Hv.
  - destruct (access_ok cf fu Q dtlb_access Read (word_addr addr) 4 (set_mach m c)) as (o & m2 & -> & Hm2);
      [intros t s Hs'; by apply (eo_dtlb (fu := fu)), eo_valid|done|].
    cbn [mbind result_bind]. eexists _, m2. split; [reflexivity|]. split; [|by eapply mach_le_trans].
    destruct o as [l|]; [|done]. destruct Hlat as [H1 H2]. pose proof (i32_range l). split; [lia|].
    destruct H2; [left; lia|by right].
  - exists lat, m. split; [done|]. by split.
Qed.

Lemma issue_at_mach M A wr wk c m : mach_le fu (mach c) m → issue_at M A wr wk c → issue_at M A wr wk (set_mach m c).
Proof.
  intros Hm [(L & Hg & HL) Hso]. split; [|by apply side_mach]. exists L. split; [by apply good_mach|].
  destruct Hm as (_ & Hs & _). cbn. by rewrite Hs.
Qed.

(** ** One operation *)

Definition cycle_ok c : Prop := 0 ≤ sim_cycle (mach c) < 2 ^ 62.

Lemma later c lat : cycle_ok c → 1 ≤ lat < 2 ^ 31 → sim_cycle (mach c) < i64 (sim_cycle (mach c) + lat).
Proof. intros Hc Hl. unfold cycle_ok in Hc. rewrite i64_small; lia. Qed.

(** A completion in the past is caught. *)
Lemma event_past c p rs lat : cycle_ok c → - 2 ^ 31 ≤ lat ≤ 0 → env_late MS →
  station (win c) p = Some rs → completed rs = false →
  ∃ f, eventq_queue_event c p (i64 (sim_cycle (mach c) + lat)) = Fault f ∧ core_fault MS f.
Proof.
  intros Hc Hl He Hp Hcp. unfold eventq_queue_event. rewrite (get_rs_station _ _ _ Hp). cbn [mbind result_bind].
  unfold cycle_ok in Hc. rewrite Hcp, bool_decide_true by (rewrite i64_small; lia).
  eexists. split; [done|]. right; right. by split.
Qed.

(** What a step of the walk keeps. *)
Definition walk_kept c (A : root → list alink) c' (A' : root → list alink) (n : nat) : Prop :=
  A' RWork = A RWork ∧ sim_cycle (mach c') = sim_cycle (mach c) ∧ links (qs c') !! n = links (qs c) !! n.

Lemma issued_good M A rest wk c p rs :
  issue_at M A rest wk c → live cf (win c) p → station (win c) p = Some rs →
  queued rs = false → OPERANDS_READY rs = true → issued rs = false →
  ∃ w, upd_station c p set_issued = Ok (set_win w c) ∧ same_frame (win c) w ∧
    issue_at M A rest wk (set_win w c) ∧ live cf w p ∧
    station w p = Some (set_issued rs) ∧ p ∉ targets w (A REvent).
Proof.
  intros Hat Hlv Hp Hq Hr Hi. destruct (upd_station_spec c p set_issued rs Hp) as (w & -> & Hfr & Hst).
  exists w. split; [done|]. split; [done|].
  destruct (status_good M A rest wk c p rs (set_issued rs) w) as [Hat' Hno]; try done; [by left|].
  split; [done|]. split; [by rewrite (live_frame cf (win c) w)|]. split; [by rewrite Hst, decide_True|].
  rewrite (targets_tags (win c) w); [done|]. intros q. rewrite Hst. case_decide; [subst q; by rewrite Hp|done].
Qed.

Lemma issue_to_unit_good M A rest n c p rs rs0 oplat :
  issue_at M A rest (Some n) c → cycle_ok c → live cf (win c) p → station (win c) p = Some rs →
  queued rs = false → OPERANDS_READY rs = true → issued rs = false → completed rs = false →
  rs_inst_of rs0 = rs_inst_of rs → 1 ≤ oplat < 2 ^ 31 →
  wp (core_fault MS) (issue_to_unit cf p rs0 oplat c) (λ c', ∃ A', issue_at M A' rest (Some n) c' ∧ walk_kept c A c' A' n).
Proof.
  intros Hat Hcy Hlv Hp Hq Hr Hi Hc E0 Hl. unfold issue_to_unit. rewrite E0.
  destruct (issued_good M A rest (Some n) c p rs Hat Hlv Hp Hq Hr Hi) as (w & -> & Hfr & Hat1 & Hlv1 & Hp1 & Hno).
  cbn [mbind result_bind]. pose proof Hat as [(L & Hg & _) _]. pose proof Hat1 as [(L1 & Hg1 & _) Hso1].
  destruct (in_LSQ (rs_inst_of rs) && is_load (rs_op (rs_inst_of rs))) eqn:Hld.
  - apply andb_true_iff in Hld as [Hin _]. destruct p as [s|s].
    { pose proof (sh_rin _ _ (g_shape _ _ _ _ _ _ _ _ _ _ Hg)) as Hri. rewrite Forall_forall in Hri.
      rewrite Hri in Hin; [done|]. apply list_elem_of_omap. exists s. cbn in Hp. by rewrite Hp. }
    destruct (load_latency_ok (set_win w c) s (rs_addr (rs_inst_of rs)) oplat (g_shape _ _ _ _ _ _ _ _ _ _ Hg1) Hso1 Hlv1 Hl)
      as (lat & m & -> & [Hrng Hlat] & Hm). cbn [mbind result_bind]. pose proof Hm as (Hmc & _).
    assert (cycle_ok (set_mach m (set_win w c))) as Hcy1 by (unfold cycle_ok; cbn; by rewrite Hmc).
    destruct (decide (lat ≤ 0)) as [Hneg|Hpos].
    { destruct Hlat as [|Hlate]; [lia|].
      destruct (event_past (set_mach m (set_win w c)) (InLSQ s) (set_issued rs) lat Hcy1) as (f & -> & Hf); [lia|done..]. }
    eapply wp_mono; [eapply (event_good M A rest n (set_mach m (set_win w c)) (InLSQ s)); try done|apply links_fault|].
    + by apply issue_at_mach.
    + apply later; [done|lia].
    + intros c' (A' & Hat' & HA' & Hm' & Hk). exists A'. split; [done|]. split; [done|]. rewrite Hm'. split; [exact Hmc|exact Hk].
  - eapply wp_mono; [eapply (event_good M A rest n (set_win w c) p); try done|apply links_fault|].
    + apply later; [exact Hcy|exact Hl].
    + intros c' (A' & Hat' & HA' & Hm' & Hk). exists A'. split; [done|]. split; [done|]. by rewrite Hm'.
Qed.

Lemma issue_one_good M A a rest n c :
  issue_at M A (a :: rest) (Some n) c → cycle_ok c → valid (win c) a →
  wp (core_fault MS) (issue_one cf (a_rs a) c) (λ r, ∃ A', issue_at M A' rest (Some n) r.2 ∧ walk_kept c A r.2 A' n).
Proof.
  intros Hat Hcy Hva.
  destruct (dequeue_good M A a rest n c Hat Hva) as (w & rs & Hrun & Hp & Hlv & Hq & Hr & Hi & Hc & Hk & Hst & Hat1).
  set (p := a_rs a) in *. unfold issue_one. rewrite (get_rs_station _ _ _ Hp). cbn [mbind result_bind].
  rewrite Hr, Hq, Hi, Hc. cbn [negb orb]. rewrite Hrun. cbn [mbind result_bind].
  assert (station w p = Some (set_queued false rs)) as Hp1 by (by rewrite Hst, decide_True).
  assert (live cf w p) as Hlv1 by (rewrite (live_frame cf (win c) w); [done|apply Hk]).
  pose proof Hat as [(L & Hg & _) Hso]. pose proof Hat1 as [(L1 & Hg1 & _) Hso1].
  destruct (in_LSQ (rs_inst_of rs) && is_store (rs_op (rs_inst_of rs))) eqn:Hsto.
  - apply andb_true_iff in Hsto as [Hin Hsto].
    destruct p as [s|s] eqn:Hps.
    { pose proof (sh_rin _ _ (g_shape _ _ _ _ _ _ _ _ _ _ Hg)) as Hri. rewrite Forall_forall in Hri.
      rewrite Hri in Hin; [done|]. apply list_elem_of_omap. exists s. cbn in Hp. by rewrite Hp. }
    unfold issue_store.
    destruct (upd_station_spec (set_win w c) (InLSQ s) (λ rs, set_completed (set_issued rs)) _ Hp1) as (w2 & -> & Hfr2 & Hst2).
    cbn [mbind result_bind]. destruct (so_lsq _ _ _ _ Hso s rs Hlv Hp) as [Hrec Hna]. specialize (Hna Hsto).
    rewrite Hrec. rewrite bool_decide_false.
    2: { intros (m & Hm & Hne)%Exists_exists. rewrite Forall_forall in Hna. by apply Hne, Hna. }
    cbn. destruct (status_good M A rest (Some n) (set_win w c) (InLSQ s) (set_queued false rs)
      (set_completed (set_issued (set_queued false rs))) w2) as [Hat2 _]; try done; [right; by exists s|].
    exists A. by split.
  - case_bool_decide as Hcl.
    + pose proof (so_insts _ _ _ _ Hso p rs Hlv Hp) as Hio. destruct (io_class _ _ _ Hio) as [|Hu]; [done|].
      destruct (reserve_ok cf fu Q fu_ok fu_lat (rs_op (rs_inst_of rs)) (set_win w c) Hso1 Hu) as [->|(lat & m & -> & Hlat & Hm)].
      * cbn [mbind result_bind]. apply wp_bind.
        eapply wp_mono; [eapply (requeue_good M A rest n (set_win w c) p (set_queued false rs)); try done|apply links_fault|].
        intros c' (A' & Hat' & HA' & Hm' & Hkp). cbn. exists A'. split; [done|]. split; [done|]. by rewrite Hm'.
      * cbn [mbind result_bind]. apply wp_bind. pose proof Hm as (Hmc & _).
        eapply wp_mono; [eapply (issue_to_unit_good M A rest n (set_mach m (set_win w c)) p (set_queued false rs)); try done|done|].
        -- by apply issue_at_mach.
        -- unfold cycle_ok. cbn. by rewrite Hmc.
        -- intros c' (A' & Hat' & HA' & Hcy' & Hkp). cbn. exists A'. split; [done|]. split; [done|]. split; [by rewrite Hcy'|done].
    + destruct (issued_good M A rest (Some n) (set_win w c) p (set_queued false rs) Hat1 Hlv1 Hp1) as
        (w2 & -> & Hfr2 & Hat2 & Hlv2 & Hp2 & Hno); try done.
      cbn [mbind result_bind]. apply wp_bind.
      eapply wp_mono; [eapply (event_good M A rest n (set_win w2 (set_win w c)) p); try done|apply links_fault|].
      * apply later; [exact Hcy|lia].
      * intros c' (A' & Hat' & HA' & Hm' & Hkp). cbn. exists A'. split; [done|]. split; [done|]. by rewrite Hm'.
Qed.

(** ** The walk *)

(** The link of the visited operation is freed. *)
Lemma free_node M A a rest n c :
  issue_at M A rest (Some n) c → A RWork = a :: rest →
  ∃ k q, links (qs c) !! n = Some k ∧ l_rs k = Some (a_rs a) ∧ l_tag k = a_tag a ∧
    RSLINK_FREE (qs c) n = Ok q ∧ issue_at M (upd A RWork rest) rest (l_next k) (set_qs q c).
Proof.
  intros [(L & Hg & HL) Hso] HA.
  destruct (free_work_good cf (cvs c) c A rest [] None None n (L, L) a rest Hg HA) as (k & q & Hk & Hrs & Ht & _ & Hf & Hg');
    [done|by intros b ?%elem_of_nil|].
  exists k, q. do 4 (split; [done|]). split; [by exists L|by destruct Hso; split].
Qed.

Lemma skip_invalid M A a rest n c :
  issue_at M A (a :: rest) (Some n) c → A RWork = a :: rest → issue_at M A rest (Some n) c.
Proof.
  intros [(L & [G1 G2 G3 G4 G5] & HL) Hso] HA. split; [|done]. exists L. split; [|done]. split; try done.
  eapply sched_shrink; [exact G3|done|by apply sublist_cons|done| |by intros b ?%elem_of_nil].
  intros b Hb. rewrite HA. set_solver.
Qed.

(** The list that is left, and its head. *)
Lemma walk_head M A wr wk c : issue_at M A wr wk c → A RWork = wr →
  match wr with
  | [] => wk = None
  | a :: rest => ∃ n k, wk = Some n ∧ links (qs c) !! n = Some k ∧ l_rs k = Some (a_rs a) ∧
      RSLINK_VALID (win c) k = Ok (bool_decide (valid (win c) a))
  end.
Proof.
  intros [(L & [G1 G2 G3 G4 G5] & HL) Hso] HA. destruct wr as [|a rest].
  - by apply (pool_nil _ _ _ RWork G2).
  - destruct wk as [n|].
    2: { assert (A RWork = []) as He by (by apply (pool_nil _ _ _ RWork G2)). congruence. }
    destruct (pool_head _ _ _ RWork n G2) as (k & a' & rest' & Hk & HA' & Hrs & Ht & Hx); [done|done|].
    rewrite HA in HA'. injection HA' as <- <-. exists n, k. do 3 (split; [done|]).
    apply RSLINK_VALID_spec; [done|done|].
    destruct (sc_tag _ _ _ _ _ _ G3 RWork a) as (rs & Hp & _); [done|rewrite HA; set_solver|by eexists].
Qed.

Lemma requeue_loop_good M wr : ∀ fuel wk c A,
  issue_at M A wr wk c → A RWork = wr → (length wr ≤ fuel)%nat →
  wp (core_fault MS) (requeue_loop fuel wk c)
    (λ c', ∃ A', core_at cf fu Q M A' c' ∧ sim_cycle (mach c') = sim_cycle (mach c)).
Proof.
  induction wr as [|a rest IH]; intros fuel wk c A Hat HA Hf; pose proof (walk_head M A _ wk c Hat HA) as Hh; cbn in Hh.
  - subst wk. destruct Hat as [(L & Hg & HL) Hso].
    destruct fuel; cbn; (exists A; split; [|done]); (split; [by exists L|done]).
  - destruct Hh as (n & k & -> & Hk & Hrs & Hvl). destruct fuel as [|fuel]; [simpl in Hf; lia|]. cbn [requeue_loop].
    rewrite (proj2 (vget_Ok _ _ _) Hk). cbn [mbind result_bind]. rewrite Hvl. cbn [mbind result_bind]. apply wp_bind.
    eapply (wp_mono (core_fault MS) _ _ (λ c', ∃ A', issue_at M A' rest (Some n) c' ∧ walk_kept c A c' A' n)); [|done|].
    + case_bool_decide as Hva; [|cbn; exists A; split; [by eapply skip_invalid|done]].
      rewrite Hrs. cbn [deref mbind result_bind].
      destruct (dequeue_good M A a rest n c Hat Hva) as (w & rs & Hrun & Hp & Hlv & Hq & Hr & Hi & Hc & Hkp & Hst & Hat1).
      rewrite Hrun. cbn [mbind result_bind].
      eapply wp_mono; [eapply (requeue_good M A rest n (set_win w c) (a_rs a) (set_queued false rs)); try done|apply links_fault|].
      * rewrite (live_frame cf (win c) w); [done|apply Hkp].
      * cbn. by rewrite Hst, decide_True.
      * intros c' (A' & Hat' & HA' & Hm' & Hkp'). exists A'. split; [done|]. split; [done|]. by rewrite Hm'.
    + intros c1 (A1 & Hat1 & HA1 & Hcy1 & Hk1). rewrite HA in HA1.
      destruct (free_node M A1 a rest n c1 Hat1 HA1) as (k1 & q & Hk1' & _ & _ & -> & Hat2).
      assert (k1 = k) as -> by congruence. cbn [mbind result_bind].
      eapply wp_mono; [apply (IH fuel _ (set_qs q c1) (upd A1 RWork rest) Hat2); [apply upd_same|simpl in Hf; lia]|done|].
      intros c2 (A2 & Hc2 & Hcy2). exists A2. split; [done|]. rewrite Hcy2. exact Hcy1.
Qed.

Lemma issue_loop_good M wr : ∀ fuel slots wk c A,
  issue_at M A wr wk c → A RWork = wr → cycle_ok c → (length wr ≤ fuel)%nat →
  wp (core_fault MS) (issue_loop cf fuel slots wk c)
    (λ c', ∃ A', core_at cf fu Q M A' c' ∧ sim_cycle (mach c') = sim_cycle (mach c)).
Proof.
  induction wr as [|a rest IH]; intros fuel slots wk c A Hat HA Hcy Hf; pose proof (walk_head M A _ wk c Hat HA) as Hh; cbn in Hh.
  - subst wk. destruct Hat as [(L & Hg & HL) Hso].
    assert (requeue_loop (length (links (qs c))) None c = Ok c) as He by (by destruct (length (links (qs c)))).
    destruct fuel; cbn [issue_loop]; rewrite He; (exists A; split; [|done]); (split; [by exists L|done]).
  - destruct Hh as (n & k & -> & Hk & Hrs & Hvl). destruct fuel as [|fuel]; [simpl in Hf; lia|].
    destruct slots as [|slots].
    { cbn [issue_loop]. eapply requeue_loop_good; [exact Hat|done|]. destruct Hat as [(L & Hg & _) _].
      rewrite <- HA. eapply pool_length; [apply Hg|done]. }
    cbn [issue_loop]. rewrite (proj2 (vget_Ok _ _ _) Hk). cbn [mbind result_bind]. rewrite Hvl. cbn [mbind result_bind]. apply wp_bind.
    eapply (wp_mono (core_fault MS) _ _ (λ r, ∃ A', issue_at M A' rest (Some n) r.2 ∧ walk_kept c A r.2 A' n)); [|done|].
    + case_bool_decide as Hva; [|cbn; exists A; split; [by eapply skip_invalid|done]].
      rewrite Hrs. cbn [deref mbind result_bind]. by eapply issue_one_good.
    + intros [d c1] (A1 & Hat1 & HA1 & Hcy1 & Hk1). cbn [snd] in *. rewrite HA in HA1.
      destruct (free_node M A1 a rest n c1 Hat1 HA1) as (k1 & q & Hk1' & _ & _ & -> & Hat2).
      assert (k1 = k) as -> by congruence. cbn [mbind result_bind].
      eapply wp_mono; [apply (IH fuel _ _ (set_qs q c1) (upd A1 RWork rest) Hat2); [apply upd_same| |simpl in Hf; lia]|done|].
      * unfold cycle_ok in *. cbn. by rewrite Hcy1.
      * intros c2 (A2 & Hc2 & Hcy2). exists A2. split; [done|]. rewrite Hcy2. exact Hcy1.
Qed.

Lemma ruu_issue_good M A c : core_at cf fu Q M A c → cycle_ok c →
  wp (core_fault MS) (ruu_issue cf c)
    (λ c', ∃ A', core_at cf fu Q M A' c' ∧ sim_cycle (mach c') = sim_cycle (mach c)).
Proof.
  intros [(L & [G1 G2 G3 G4 G5] & HL) [HAw Hso]] Hcy. unfold ruu_issue.
  eapply (issue_loop_good M (A RReady) _ _ _ (set_qs (set_ready_queue None (qs c)) c) (upd (upd A RWork (A RReady)) RReady [])).
  - split; [|by destruct Hso; split]. exists L. split; [|done]. split; try done.
    + eapply pool_ext; [eapply (pool_move _ _ A RReady RWork); [exact G2|done|done|done|done]| |done].
      intros [| | | |p k]; unfold upd; cbn; by repeat case_decide.
    + by apply sched_issue.
  - done.
  - exact Hcy.
  - eapply pool_length; [exact G2|done].
Qed.
End Issue.
