(* ===== verification/RuuFill.v ===== *)
(** * Filling and wiring a station

    What dispatch does to the lists of links: a station that is free is filled in, its
    operands are linked to their creators, and it becomes the creator of its outputs.
    The buffers' counts are updated last, so the invariant is about the window that the
    instance is about to enter. *)

From S2P Require Import Prelude Chains Misc Memory Bpred BpredInv Resource ResourceSpec Ruu RuuStages RuuSched RuuFront Pool RuuPool.
From S2P Require Import RuuInv RuuSched1 RuuGood RuuWriteback RuuSquash RuuRecover RuuUnits RuuCore RuuComplete RuuIssue.

Section Fill.
Context {MS : Type} `{!Environment MS}.
Variable cf : config.
Implicit Types c : core MS.

(** ** Filling *)

Lemma sched_fill w w' A p rs rs' :
  sched cf w A [] [] None → ¬ live cf w p → station w p = Some rs →
  (∀ p', station w' p' = if decide (p' = p) then Some rs' else station w p') →
  rs_tag rs' = rs_tag rs → queued rs' = false → issued rs' = false → completed rs' = false →
  (∀ q, live cf w' q ↔ live cf w q ∨ q = p) → sched cf w' A [] [] None.
Proof.
  intros Hs Hnl Hp Hst Htag Hq Hi Hc Hlv.
  assert (∀ q, rs_tag <$> station w' q = rs_tag <$> station w q) as Ht.
  { intros q. rewrite Hst. case_decide; [subst q; by rewrite Hp; cbn; rewrite Htag|done]. }
  pose proof (fun a => valid_tags w w' a Ht) as Hv.
  assert (∀ r a, r ≠ RFree → a ∈ A r → valid w a → a_rs a ≠ p) as Hne.
  { intros r a Hr Ha Hva <-. apply Hnl. by eapply sc_live. }
  assert (∀ r a, a ∈ consumers A [] r → a ∈ A r ∧ r ≠ RFree) as Hcr.
  { intros [] a; cbn; try (by intros Ha%elem_of_nil). auto. }
  split.
  - intros r a Hr Ha. destruct (sc_tag _ _ _ _ _ _ Hs r a Hr Ha) as (rs0 & Hrs0 & Hle).
    rewrite Hst. case_decide as Hd; [|eauto]. rewrite Hd, Hp in Hrs0. injection Hrs0 as <-. exists rs'. by rewrite Htag.
  - intros r a Hr Ha. rewrite Hv, Hlv. intros Hva. left. by eapply sc_live.
  - intros a rs0 Ha. rewrite Hv, Hst. intros Hva. rewrite decide_False by (by eapply (Hne REvent)). by eapply sc_ev.
  - rewrite (targets_tags w w') by done. by eapply sc_ev_nodup.
  - intros a rs0 Ha. rewrite Hv, Hst. intros Hva. pose proof Ha as Ha2. rewrite app_nil_r in Ha2.
    rewrite decide_False by (by eapply (Hne RReady)). by eapply sc_rd.
  - rewrite (targets_tags w w') by done. by eapply sc_rd_nodup.
  - by intros a Ha%elem_of_nil.
  - by intros a Ha%elem_of_nil.
  - intros r a rs0 Ha. rewrite Hv, Hst. intros Hva. destruct (Hcr r a Ha) as [Ha2 Hr].
    rewrite decide_False by (by eapply (Hne r)). by eapply sc_od.
  - intros r. rewrite (keys_tags w w') by done. by eapply sc_key_nodup.
  - intros r r' x. rewrite !(keys_tags w w') by done. by eapply sc_key.
  - intros q rs0 [Hl| ->]%Hlv; rewrite Hst; [|rewrite decide_True by done; intros [= <-]; congruence].
    rewrite decide_False by (intros ->; done). by eapply sc_queued.
  - intros q rs0 [Hl| ->]%Hlv; rewrite Hst; [|rewrite decide_True by done; intros [= <-]; congruence].
    rewrite decide_False by (intros ->; done). by eapply sc_issued.
  - intros q rs0 [Hl| ->]%Hlv; rewrite Hst; [|rewrite decide_True by done; intros [= <-]; congruence].
    rewrite decide_False by (intros ->; done). by eapply sc_completed.
  - intros q k Hk. destruct (sc_odep _ _ _ _ _ _ Hs q k Hk) as (rs0 & n & H1 & H2 & H3).
    exists rs0, n. rewrite Hst, decide_False by (intros ->; done). split; [done|]. split; [by apply Hlv; left|done].
Qed.

Lemma fill_linked v q w w' A L p rs i :
  linked cf v q w A None (L, L) → ¬ live cf w p → station w p = Some rs →
  (∀ p', station w' p' = if decide (p' = p) then Some (fill_station i rs) else station w p') →
  (∀ q, live cf w' q ↔ live cf w q ∨ q = p) → linked cf v q w' A None (L, L).
Proof.
  intros [Hpl Hsc [Hl Hcv] Htg] Hnl Hp Hst Hlv. split.
  - eapply pool_ext; [exact Hpl| |done]. intros y. apply heads_station. intros p'. rewrite Hst.
    case_decide; [subst p'; by rewrite Hp|done].
  - by eapply (sched_fill w w' A p rs (fill_station i rs)).
  - split; [done|]. intros spec n q0 k Hq. destruct (Hcv _ _ _ _ Hq) as (rs0 & H1 & H2 & H3).
    exists rs0. rewrite Hst, decide_False by (intros ->; done). split; [done|]. split; [apply Hlv; by left|done].
  - intros p' rs' Hp'. rewrite Hst in Hp'. case_decide; [|destruct (Htg p' rs' Hp') as [H1 H2]; cbn in *; split; [done|lia]].
    injection Hp' as <-. subst p'. destruct (Htg p rs Hp) as [H1 H2]. cbn in *. split; [done|lia].
Qed.

(** ** What has not been wired yet *)

(** No operand from [i] on of [p] waits for a creator. *)
Definition fresh (p : rs_ptr) (i : nat) (w : window) (A : root → list alink) : Prop :=
  ∀ r x, (p, x) ∈ keys w (consumers A [] r) → x < Z.of_nat i.
(** No register waits for an output from [k] on of [p]. *)
Definition unborn (p : rs_ptr) (k : nat) (v : create_vectors) : Prop :=
  ∀ spec n j, creator v spec n = Some (p, j) → (j < k)%nat.
(** No operand waits for an output from [k] on of [p]. *)
Definition awaited (p : rs_ptr) (k : nat) (A : root → list alink) : Prop :=
  ∀ j, A (ROdep p j) ≠ [] → (j < k)%nat.

Lemma outside_fresh v q w A B p : linked cf v q w A None B → ¬ live cf w p →
  fresh p 0 w A ∧ unborn p 0 v ∧ awaited p 0 A.
Proof.
  intros [Hpl Hsc [Hl Hcv] Htg] Hnl. split; [|split].
  - intros r x (a & Ha & Hva & Hap & _)%elem_of_keys. exfalso. apply Hnl. rewrite <- Hap.
    destruct r; cbn in Ha; try (by apply elem_of_nil in Ha). by eapply (sc_live _ _ _ _ _ _ Hsc (ROdep p0 k)).
  - intros spec n j Hj. destruct (Hcv _ _ _ _ Hj) as (rs & _ & Hlv & _). done.
  - intros j Hj. destruct (sc_odep _ _ _ _ _ _ Hsc p j Hj) as (rs & n & _ & Hlv & _). done.
Qed.

(** ** The window that is entered *)

Record pushes (f : window → window) : Prop := {
  ps_station w q : station (f w) q = station w q;
  ps_frame w w' : same_frame w w' → same_frame (f w) (f w')
}.

Definition alloc (f : window → window) c (A : root → list alink) (L : Z) : Prop :=
  good cf (cvs c) (set_win (f (win c)) c) A [] [] None None None (L, L).

Definition iview (rs : RUU_station) : rs_inst * bool * Z * bool * bool * bool :=
  (rs_inst_of rs, recover_inst rs, rs_tag rs, queued rs, issued rs, completed rs).

(** Wiring [p] leaves the instructions as they are. *)
Definition wired (p : rs_ptr) c c' : Prop :=
  same_frame (win c) (win c') ∧ agree iview (win c) (win c') ∧
  (∀ q, q ≠ p → onames <$> station (win c') q = onames <$> station (win c) q) ∧
  mach c' = mach c ∧ front c' = front c.

Lemma wired_refl p c : wired p c c.
Proof. split; [apply same_frame_refl|done]. Qed.

Lemma wired_trans p c1 c2 c3 : wired p c1 c2 → wired p c2 c3 → wired p c1 c3.
Proof.
  intros (H1 & H2 & H3 & H4 & H5) (G1 & G2 & G3 & G4 & G5).
  split; [by eapply same_frame_trans|]. split; [by eapply agree_trans|].
  split; [intros q Hq; by rewrite G3, H3|]. split; congruence.
Qed.

Lemma iview_tag rs rs' : iview rs' = iview rs → rs_tag rs' = rs_tag rs.
Proof. by intros [=]. Qed.

Section Push.
Variable f : window → window.
Hypothesis Hf : pushes f.

(** A station that is neither queued nor issued gets operands or names. *)
Lemma alloc_status c A L p rs rs' w i k :
  alloc f c A L → station (win c) p = Some rs → same_frame (win c) w →
  (∀ p', station w p' = if decide (p' = p) then Some rs' else station (win c) p') →
  iview rs' = iview rs → odep_list rs' = odep_list rs →
  length (onames rs') = length (onames rs) → length (idep_ready rs') = length (idep_ready rs) →
  Forall (λ n, 0 ≤ n < Z.of_nat MD_TOTAL_REGS) (onames rs') →
  queued rs = false → issued rs = false → completed rs = false →
  fresh p i (win c) A → unborn p k (cvs c) → awaited p k A →
  (∀ x, (x < i)%nat → idep_ready rs' !! x = idep_ready rs !! x) →
  (∀ j, (j < k)%nat → onames rs' !! j = onames rs !! j) →
  alloc f (set_win w c) A L.
Proof.
  intros [Hsh Hpl Hsc Hcv Htg] Hp Hfr Hst Hiv Hod Hlo Hli Hnm Hq Hi Hc Hfresh Hunb Haw Hid Hon. cbn [win qs set_win] in *.
  pose proof (ps_frame f Hf _ _ Hfr) as Hfr'. injection Hiv as E1 E2 E3 E4 E5 E6.
  assert (∀ p', station (f w) p' = if decide (p' = p) then Some rs' else station (f (win c)) p') as Hst'.
  { intros p'. rewrite !(ps_station f Hf). apply Hst. }
  assert (station (f (win c)) p = Some rs) as Hp' by (by rewrite (ps_station f Hf)).
  split; cbn [win qs set_win].
  - eapply shape_frame; [exact Hfr'| | |exact Hsh].
    + eapply agree_upd; [exact Hp'|exact Hst'|]. congruence.
    + intros q rsq Hq'. rewrite Hst' in Hq'. case_decide; [by injection Hq' as <-|]. by eapply sh_names.
  - eapply pool_ext; [exact Hpl| |done]. intros y. apply heads_station. intros p'. rewrite Hst'.
    case_decide; [subst p'; rewrite Hp'; cbn; by rewrite Hod|done].
  - eapply (sched_status_gen cf (f (win c)) (f w) A [] [] None p rs rs'); try done.
    + intros j n Hne Hj. rewrite Hon; [done|]. by apply Haw.
    + intros a Ha Hva <-. pose proof (sc_ev _ _ _ _ _ _ Hsc a rs Ha Hva Hp'). naive_solver congruence.
    + intros a Ha Hva <-. pose proof (sc_rd _ _ _ _ _ _ Hsc a rs Ha Hva Hp'). congruence.
    + intros r a Ha Hva Hap. pose proof Hp' as Hpa. rewrite <- Hap in Hpa.
      destruct (sc_od _ _ _ _ _ _ Hsc r a rs Ha Hva Hpa) as [Hx0 Hx]. rewrite Hid; [done|].
      assert (a_x a < Z.of_nat i); [|lia]. apply (Hfresh r).
      rewrite <- (keys_tags (win c) (f (win c))) by (intros q0; by rewrite (ps_station f Hf)).
      apply elem_of_keys. by exists a.
    + intros _. split_and!; intros; congruence.
    + intros j _. unfold pending. by rewrite E6.
  - destruct Hcv as [Hl Hcv]. split; [done|]. intros spec n q0 j Hj.
    destruct (Hcv _ _ _ _ Hj) as (rs0 & H1 & H2 & H3 & H4 & H5 & H6). rewrite Hst'. case_decide as Hd.
    + subst q0. rewrite Hp' in H1. injection H1 as <-. exists rs'. split; [done|].
      split; [by rewrite (live_frame cf (f (win c)) (f w))|]. rewrite E1. split; [unfold pending; by rewrite E6|].
      split; [|done]. rewrite Hon; [done|]. by eapply Hunb.
    + exists rs0. split; [done|]. split; [by rewrite (live_frame cf (f (win c)) (f w))|done].
  - eapply agree_tags; [exact Hfr'| |exact Htg]. by eapply agree_upd.
Qed.

(** ** Linking an operand *)

Record entering c (A : root → list alink) (p : rs_ptr) (i k : nat) : Prop := {
  en_live : live cf (f (win c)) p;
  en_rs : ∃ rs, station (win c) p = Some rs ∧ queued rs = false ∧ issued rs = false ∧ completed rs = false;
  en_fresh : fresh p i (win c) A;
  en_unborn : unborn p k (cvs c);
  en_awaited : awaited p k A
}.

Lemma fresh_tags q i w w' A : agree rs_tag w w' → fresh q i w A → fresh q i w' A.
Proof. intros Ht Hfr r x Hx. apply (Hfr r). by rewrite (keys_tags w w') in Hx. Qed.

Lemma wired_entering p c c' A q i k : wired p c c' → cvs c' = cvs c → entering c A q i k → entering c' A q i k.
Proof.
  intros (Hfr & Hag & _ & _ & _) Hcv [H1 (rs & H2 & H3 & H4 & H5) H6 H7 H8].
  destruct (agree_station' _ _ _ _ _ Hag H2) as (rs' & Hp' & Hv). injection Hv as _ _ _ E4 E5 E6. split.
  - by rewrite (live_frame cf (f (win c)) (f (win c'))) by (by apply (ps_frame f Hf)).
  - exists rs'. split_and!; congruence.
  - eapply fresh_tags; [|exact H6]. eapply agree_mono; [exact Hag|]. intros rs1 rs2. apply iview_tag.
  - by rewrite Hcv.
  - done.
Qed.

Lemma entering_mono c A p i i' k : (i ≤ i')%nat → entering c A p i k → entering c A p i' k.
Proof. intros Hi [H1 H2 H3 H4 H5]. split; try done. intros r x Hx. specialize (H3 r x Hx). lia. Qed.

Lemma set_idep_good c A L p i k b rs :
  alloc f c A L → entering c A p i k → station (win c) p = Some rs → (i < MAX_IDEPS)%nat →
  ∃ w, upd_station c p (set_idep i b) = Ok (set_win w c) ∧ alloc f (set_win w c) A L ∧ wired p c (set_win w c) ∧
    onames <$> station w p = onames <$> station (win c) p ∧
    (∀ p', station w p' = if decide (p' = p) then Some (set_idep i b rs) else station (win c) p').
Proof.
  intros Hal [H1 (rs0 & Hp & Hq & Hi & Hc) H3 H4 H5] Hp0 Hlt. rewrite Hp0 in Hp. injection Hp as <-.
  destruct (upd_station_spec c p (set_idep i b) rs Hp0) as (w & Hrun & Hfr & Hst).
  exists w. split; [done|]. pose proof (g_shape _ _ _ _ _ _ _ _ _ _ Hal) as Hsh. cbn in Hsh.
  assert (station (f (win c)) p = Some rs) as Hp1 by (by rewrite (ps_station f Hf)).
  split; [|split; [|split; [|done]]].
  - eapply (alloc_status c A L p rs (set_idep i b rs) w i k); try done.
    + cbn. by rewrite length_insert.
    + exact (sh_names _ _ Hsh p rs Hp1).
    + intros x Hx. cbn. rewrite list_lookup_insert_ne; [done|lia].
  - split; [done|]. split; [by eapply agree_upd|]. split; [|done].
    intros q Hq0. cbn. rewrite Hst. by rewrite decide_False.
  - rewrite Hst, decide_True by done. by rewrite Hp0.
Qed.

(** A pointer of a list of consumers changes. *)
Lemma sched_odep_ptr w w' A wr wo bp p k o rs :
  sched cf w A wr wo bp → same_frame w w' → station w p = Some rs →
  (∀ p', station w' p' = if decide (p' = p) then Some (set_odep k o rs) else station w p') →
  sched cf w' A wr wo bp.
Proof.
  intros Hsc Hfr Hp Hst. eapply (sched_status cf w w' A wr wo bp p rs (set_odep k o rs)); try done.
  - intros a Ha Hv <-. by apply (sc_ev _ _ _ _ _ _ Hsc a rs).
  - intros a Ha Hv <-. by apply (sc_rd _ _ _ _ _ _ Hsc a rs).
  - intros r a Ha Hv <-. by apply (sc_od _ _ _ _ _ _ Hsc r a rs).
  - intros Hl. split; [by apply (sc_queued _ _ _ _ _ _ Hsc p rs)|].
    split; [by apply (sc_issued _ _ _ _ _ _ Hsc p rs)|by apply (sc_completed _ _ _ _ _ _ Hsc p rs)].
Qed.

(** The operand [i] of [p] is chained to the output [hn] of [hp]. *)
Lemma chain_operand c A L p i k rs hp hn :
  alloc f c A L → A RWork = [] → entering c A p i k → station (win c) p = Some rs →
  idep_ready rs !! i = Some false →
  (∃ spec n, creator (cvs c) spec n = Some (hp, hn)) →
  wp out_of_links (
      '(n, q) ← RSLINK_NEW (qs c) p (rs_tag rs) (Z.of_nat i);
      hs ← get_rs (win c) hp;
      o ← vget (odep_list hs) hn;
      q ← set_link_next q n o;
      upd_station (set_qs q c) hp (set_odep hn (Some n))) (λ c', ∃ A', alloc f c' A' L ∧ A' RWork = [] ∧
    wired p c c' ∧ cvs c' = cvs c ∧ onames <$> station (win c') p = onames <$> station (win c) p ∧
    A' = upd A (ROdep hp hn) ((p, rs_tag rs, Z.of_nat i) :: A (ROdep hp hn))).
Proof.
  intros Hal HAw Hen Hp Hidep (spec & rn & Hcr). pose proof Hal as [Hsh Hpl Hsc Hcv Htg]. cbn [win qs set_win] in *.
  pose proof (en_live _ _ _ _ _ Hen) as Hlv.
  destruct (cv_creator _ _ _ _ Hcv _ _ _ _ Hcr) as (hs & Hhp & Hhl & Hpd & Hon & _ & Hrn).
  pose proof Hhp as Hhp'. rewrite (ps_station f Hf) in Hhp'.
  destruct (sh_len _ _ Hsh hp hs Hhp) as (Hlo & Hlod & _).
  destruct (lookup_lt_is_Some_2 (odep_list hs) hn) as [o Ho];
    [rewrite Hlod, <- Hlo; by eapply lookup_lt_Some|].
  pose proof (RSLINK_NEW_spec (qs c) p (rs_tag rs) (Z.of_nat i)) as Hnew.
  destruct (rslink_free_list (qs c)) as [n|] eqn:Hfree; [|by rewrite Hnew].
  assert (heads (qs c) (f (win c)) None None RFree = Some n) as Hhf by exact Hfree.
  destruct (pool_push _ _ _ (ROdep hp hn) n p (rs_tag rs) (Z.of_nat i) Hpl) as (k0 & Hk0 & Hpush); [done|exact Hhf|].
  rewrite (Hnew k0 Hk0). cbn [mbind result_bind]. rewrite (get_rs_station _ _ _ Hhp'). cbn [mbind result_bind].
  rewrite (proj2 (vget_Ok _ _ _) Ho). cbn [mbind result_bind].
  rewrite (set_link_next_insert _ n (mkLink None (Some p) (rs_tag rs) (Z.of_nat i)) o (links (qs c)))
    by (done || by eapply lookup_lt_Some). cbn [mbind result_bind].
  set (q := set_links _ _). destruct (upd_station_spec (set_qs q c) hp (set_odep hn (Some n)) hs Hhp') as (w & -> & Hfr & Hst).
  cbn [wp win set_qs] in Hfr, Hst |- *. pose proof (ps_frame f Hf _ _ Hfr) as Hfr'.
  assert (∀ p', station (f w) p' = if decide (p' = hp) then Some (set_odep hn (Some n) hs) else station (f (win c)) p') as Hst'.
  { intros p'. rewrite !(ps_station f Hf). apply Hst. }
  set (a := (p, rs_tag rs, Z.of_nat i) : alink). exists (upd A (ROdep hp hn) (a :: A (ROdep hp hn))).
  assert (heads (qs c) (f (win c)) None None (ROdep hp hn) = o) as Hhd.
  { cbn. rewrite decide_False by done. unfold odep_head. by rewrite Hhp, Ho. }
  split; [|split; [by rewrite upd_other|split; [|split; [done|split; [|done]]]]].
  - split; cbn [win qs cvs set_win set_qs].
    + eapply agree_shape; [exact Hfr'| |exact Hsh]. eapply agree_upd; [exact Hhp|exact Hst'|].
      unfold shape_view. cbn. by rewrite length_insert.
    + rewrite Hhd in Hpush. eapply pool_ext; [exact Hpush| |done].
      intros [| | | |p' k']; unfold upd; try done. cbn. rewrite (decide_False (P := None = _)) by done.
      unfold odep_head. rewrite Hst'. destruct (decide (ROdep p' k' = ROdep hp hn)) as [[= -> ->]|Hne].
      * rewrite decide_True by done. cbn. by rewrite list_lookup_insert_eq by (by eapply lookup_lt_Some).
      * destruct (decide (p' = hp)) as [->|]; [|done]. rewrite Hhp. cbn. by rewrite list_lookup_insert_ne by congruence.
    + assert (station (f (win c)) p = Some rs) as Hp1 by (by rewrite (ps_station f Hf)).
      eapply (sched_odep_ptr (f (win c)) (f w)); [|done|exact Hhp|exact Hst'].
      eapply (sched_add cf (f (win c)) A [] [] None (ROdep hp hn) a); try done.
      cbn [may_add]. split; [cbn; lia|]. split; [cbn; by rewrite Nat2Z.id|]. split.
      * intros r' Hin. rewrite (keys_tags (win c) (f (win c))) in Hin by (intros q0; by rewrite (ps_station f Hf)).
        pose proof (en_fresh _ _ _ _ _ Hen r' _ Hin) as Hlt. cbn in Hlt. lia.
      * exists hs, (Z.of_nat rn). split_and!; try done. unfold NA. lia.
    + eapply agree_cv; [exact Hfr'| |exact Hcv]. by eapply agree_upd.
    + eapply agree_tags; [exact Hfr'| |exact Htg]. by eapply agree_upd.
  - split; [done|]. split; [by eapply agree_upd|]. split; [|done].
    intros q0 _. cbn. rewrite Hst. case_decide; [subst q0; by rewrite Hhp'|done].
  - cbn. rewrite Hst. case_decide; [subst hp; by rewrite Hhp'|done].
Qed.

(** The creator that the source looks up. *)
Lemma CREATE_VECTOR_ok v w n : cv_ok cf w v None → (n < MD_TOTAL_REGS)%nat →
  ∃ o, CREATE_VECTOR v n = Ok o ∧ ∀ x, o = Some x → ∃ spec, creator v spec n = Some x.
Proof.
  intros [(H1 & H2 & H3 & _) _] Hn. unfold CREATE_VECTOR.
  destruct (lookup_lt_is_Some_2 (use_spec_cv v) n) as [b Hb]; [by rewrite H1|].
  destruct (lookup_lt_is_Some_2 (create_vector v) n) as [l Hl]; [by rewrite H2|].
  destruct (lookup_lt_is_Some_2 (spec_create_vector v) n) as [s Hs]; [by rewrite H3|].
  rewrite (proj2 (vget_Ok _ _ _) Hb). cbn [mbind result_bind]. destruct b.
  - rewrite (proj2 (vget_Ok _ _ _) Hs). exists s. split; [done|]. intros x ->. exists true. unfold creator. rewrite Hb. exact (f_equal (default None) Hs).
  - rewrite (proj2 (vget_Ok _ _ _) Hl). exists l. split; [done|]. intros x ->. exists false. exact (f_equal (default None) Hl).
Qed.

Lemma keys_upd w A r a x r' p :
  (p, x) ∈ keys w (consumers (upd A r (a :: A r)) [] r') → (p = a_rs a ∧ x = a_x a) ∨ (p, x) ∈ keys w (consumers A [] r').
Proof.
  intros (b & Hb & Hvb & Hbp & Hbx)%elem_of_keys.
  destruct r' as [| | | |q j]; cbn in Hb; try (by apply elem_of_nil in Hb).
  unfold upd in Hb. case_decide as Hd; [|right; apply elem_of_keys; by exists b].
  apply elem_of_cons in Hb as [->|Hb]; [by left|]. right. apply elem_of_keys. exists b. cbn. by rewrite Hd.
Qed.

Lemma ruu_link_idep_good c A L p i k name :
  alloc f c A L → A RWork = [] → entering c A p i k → (i < MAX_IDEPS)%nat → 0 ≤ name < Z.of_nat MD_TOTAL_REGS →
  wp out_of_links (ruu_link_idep p i name c) (λ c', ∃ A', alloc f c' A' L ∧ A' RWork = [] ∧ wired p c c' ∧
    onames <$> station (win c') p = onames <$> station (win c) p ∧ entering c' A' p (S i) k ∧
    ∀ q i' k', q ≠ p → entering c A q i' k' → entering c' A' q i' k').
Proof.
  intros Hal HAw Hen Hi Hname. pose proof (en_rs _ _ _ _ _ Hen) as (rs & Hp & Hrs).
  assert (∀ b, ∃ w, upd_station c p (set_idep i b) = Ok (set_win w c) ∧ alloc f (set_win w c) A L ∧ wired p c (set_win w c) ∧
    onames <$> station w p = onames <$> station (win c) p ∧
    (∀ p', station w p' = if decide (p' = p) then Some (set_idep i b rs) else station (win c) p')) as Hset
    by (intros b; by eapply set_idep_good).
  assert (wp out_of_links (upd_station c p (set_idep i true)) (λ c', ∃ A', alloc f c' A' L ∧ A' RWork = [] ∧ wired p c c' ∧
    onames <$> station (win c') p = onames <$> station (win c) p ∧ entering c' A' p (S i) k ∧
    ∀ q i' k', q ≠ p → entering c A q i' k' → entering c' A' q i' k')) as Hready.
  { destruct (Hset true) as (w & -> & Hal' & Hw & Hn & _). cbn. exists A. do 4 (split; [done|]). split.
    - eapply (wired_entering p c); [done|done|]. by eapply (entering_mono _ _ _ i); [lia|].
    - intros q i' k' _ Hq. by eapply (wired_entering p c). }
  unfold ruu_link_idep. case_bool_decide as Hna; [exact Hready|].
  destruct (CREATE_VECTOR_ok (cvs c) _ (Z.to_nat name) (g_cv _ _ _ _ _ _ _ _ _ _ Hal)) as (o & -> & Ho); [lia|].
  cbn [mbind result_bind]. destruct o as [[hp hn]|]; [|exact Hready]. destruct (Ho _ eq_refl) as [spec Hcr].
  destruct (Hset false) as (w & -> & Hal1 & Hw1 & Hn1 & Hst1). cbn [mbind result_bind].
  assert (station w p = Some (set_idep i false rs)) as Hp1 by (by rewrite Hst1, decide_True).
  change (win (set_win w c)) with w. rewrite (get_rs_station _ _ _ Hp1). cbn [mbind result_bind].
  assert (entering (set_win w c) A p i k) as Hen1 by (by eapply (wired_entering p c)).
  assert (length (idep_ready rs) = MAX_IDEPS) as Hli.
  { apply (sh_len _ _ (g_shape _ _ _ _ _ _ _ _ _ _ Hal) p rs). cbn. by rewrite (ps_station f Hf). }
  eapply wp_mono; [eapply (chain_operand (set_win w c) A L p i k _ hp hn Hal1 HAw Hen1 Hp1)|done|].
  - cbn. rewrite list_lookup_insert_eq; [done|lia].
  - by exists spec, (Z.to_nat name).
  - intros c2 (A2 & Hal2 & HA2 & Hw2 & Hcv2 & Hn2 & ->). eexists. split; [exact Hal2|]. split; [done|].
    split; [by eapply wired_trans|]. split; [by rewrite Hn2|].
    assert (∀ q i' k' i2, entering (set_win w c) A q i' k' → (i' ≤ i2)%nat → (q = p → (i < i2)%nat) →
      entering c2 (upd A (ROdep hp hn) ((p, rs_tag (set_idep i false rs), Z.of_nat i) :: A (ROdep hp hn))) q i2 k') as Hgen.
    { intros q i' k' i2 Hq Hle Hqp. pose proof (wired_entering p _ c2 A q i' k' Hw2 Hcv2 Hq) as [E1 E2 E3 E4 E5].
      split; try done.
      - intros r x [[-> ->]|Hx]%keys_upd; [cbn; specialize (Hqp eq_refl); lia|]. specialize (E3 r x Hx). lia.
      - intros j Hj. unfold upd in Hj. case_decide as Hd; [|by apply E5]. injection Hd as -> ->.
        eapply (en_unborn _ _ _ _ _ Hq). exact Hcr. }
    split; [eapply Hgen; [exact Hen1|lia|lia]|].
    intros q i' k' Hne Hq. eapply Hgen; [by eapply (wired_entering p c)|lia|done].
Qed.

(** ** Becoming a creator *)

Lemma default_insert (l : list CV_link) n m x y s : l !! n = Some s →
  default None (<[n := Some y]> l !! m) = Some x → (m = n ∧ x = y) ∨ (m ≠ n ∧ default None (l !! m) = Some x).
Proof.
  unfold CV_link in *. intros Hl. destruct (decide (m = n)) as [->|Hne].
  - rewrite list_lookup_insert_eq by (by eapply lookup_lt_Some). intros [= ->]. by left.
  - rewrite list_lookup_insert_ne by done. by right.
Qed.

Lemma SET_CREATE_VECTOR_ok spec v w n p k rs :
  cv_ok cf w v None → station w p = Some rs → live cf w p → completed rs = false →
  onames rs !! k = Some (Z.of_nat n) → rs_spec_mode (rs_inst_of rs) = spec → n ≠ 0%nat → (n < MD_TOTAL_REGS)%nat →
  ∃ v', SET_CREATE_VECTOR spec v n (Some (p, k)) = Ok v' ∧ cv_ok cf w v' None ∧
    ∀ spec' m x, creator v' spec' m = Some x → x = (p, k) ∨ creator v spec' m = Some x.
Proof.
  intros [(H1 & H2 & H3 & H4 & H5) Hcv] Hp Hlv Hc Hon Hsp Hn0 Hn.
  destruct (lookup_lt_is_Some_2 (use_spec_cv v) n) as [b Hb]; [by rewrite H1|].
  destruct (lookup_lt_is_Some_2 (create_vector v) n) as [l Hl]; [by rewrite H2|].
  destruct (lookup_lt_is_Some_2 (spec_create_vector v) n) as [s Hs]; [by rewrite H3|].
  assert (∀ v', length (use_spec_cv v') = MD_TOTAL_REGS ∧ length (create_vector v') = MD_TOTAL_REGS ∧
    length (spec_create_vector v') = MD_TOTAL_REGS ∧ length (create_vector_rt v') = MD_TOTAL_REGS ∧
    length (spec_create_vector_rt v') = MD_TOTAL_REGS →
    (∀ spec' m x, creator v' spec' m = Some x → (x = (p, k) ∧ spec' = spec ∧ m = n) ∨ creator v spec' m = Some x) →
    cv_ok cf w v' None ∧ ∀ spec' m x, creator v' spec' m = Some x → x = (p, k) ∨ creator v spec' m = Some x) as Hgen.
  { intros v' Hlen Hv'. split; [split; [done|]|intros spec' m x Hx; destruct (Hv' _ _ _ Hx) as [(-> & _)|?]; auto].
    intros spec' m q j Hq. destruct (Hv' _ _ _ Hq) as [([= -> ->] & -> & ->)|Hq']; [|by apply (Hcv spec' m)].
    exists rs. split_and!; try done. by left. }
  unfold SET_CREATE_VECTOR, vset. destruct spec.
  - rewrite Hb. cbn [mbind result_bind]. rewrite Hs. cbn [mbind result_bind].
    eexists. split; [reflexivity|]. apply Hgen; [cbn; by rewrite !length_insert|].
    intros [] m x Hx; [|by right]. unfold creator in Hx. cbn [use_spec_cv spec_create_vector] in Hx.
    destruct (decide (m = n)) as [->|Hne].
    + rewrite list_lookup_insert_eq in Hx by (by eapply lookup_lt_Some).
      by destruct (default_insert _ _ _ _ _ _ Hs Hx) as [[_ ->]|[? _]]; [left|].
    + rewrite list_lookup_insert_ne in Hx by done. right. unfold creator.
      destruct (use_spec_cv v !! m) as [[]|]; try done. by destruct (default_insert _ _ _ _ _ _ Hs Hx) as [[? _]|[_ ?]].
  - rewrite Hl. cbn [mbind result_bind]. eexists. split; [reflexivity|]. apply Hgen; [cbn; by rewrite length_insert|].
    intros [] m x Hx; [by right|]. cbn in Hx.
    destruct (default_insert _ _ _ _ _ _ Hl Hx) as [[-> ->]|[_ ?]]; [by left|by right].
Qed.

(** The names of a station change; its list of consumers is still empty. *)
Lemma set_name_good c A L p i k name rs g :
  alloc f c A L → entering c A p i k → station (win c) p = Some rs →
  (k < MAX_ODEPS)%nat → 0 ≤ name < Z.of_nat MD_TOTAL_REGS →
  iview (g rs) = iview rs → odep_list (g rs) = odep_list rs → idep_ready (g rs) = idep_ready rs →
  onames (g rs) = <[k := name]> (onames rs) →
  ∃ w, upd_station c p g = Ok (set_win w c) ∧ alloc f (set_win w c) A L ∧ wired p c (set_win w c) ∧
    (∀ p', station w p' = if decide (p' = p) then Some (g rs) else station (win c) p').
Proof.
  intros Hal [H1 (rs0 & Hp & Hq & Hi & Hc) H3 H4 H5] Hp0 Hk Hname E1 E2 E3 E4. rewrite Hp0 in Hp. injection Hp as <-.
  destruct (upd_station_spec c p g rs Hp0) as (w & Hrun & Hfr & Hst).
  exists w. split; [done|]. pose proof (g_shape _ _ _ _ _ _ _ _ _ _ Hal) as Hsh. cbn in Hsh.
  assert (station (f (win c)) p = Some rs) as Hp1 by (by rewrite (ps_station f Hf)).
  split; [|split; [|done]].
  - eapply (alloc_status c A L p rs (g rs) w i k); try done.
    + by rewrite E4, length_insert.
    + by rewrite E3.
    + rewrite E4. apply Forall_insert; [exact (sh_names _ _ Hsh p rs Hp1)|done].
    + intros x _. by rewrite E3.
    + intros j Hj. rewrite E4, list_lookup_insert_ne; [done|lia].
  - split; [done|]. split; [by eapply agree_upd|]. split; [|done].
    intros q Hq0. cbn. rewrite Hst. by rewrite decide_False.
Qed.

Lemma ruu_install_odep_good c A L p i k name rs :
  alloc f c A L → entering c A p i k → station (win c) p = Some rs → (k < MAX_ODEPS)%nat →
  0 ≤ name < Z.of_nat MD_TOTAL_REGS → rs_spec_mode (rs_inst_of rs) = spec_mode (mach c) →
  ∃ c' rs', ruu_install_odep p k name c = Ok c' ∧ alloc f c' A L ∧ wired p c c' ∧
    station (win c') p = Some rs' ∧ onames rs' = <[k := name]> (onames rs) ∧ rs_inst_of rs' = rs_inst_of rs ∧
    entering c' A p i (S k) ∧ ∀ q i' k', q ≠ p → entering c A q i' k' → entering c' A q i' k'.
Proof.
  intros Hal Hen Hp Hk Hname Hsp. pose proof (g_shape _ _ _ _ _ _ _ _ _ _ Hal) as Hsh. cbn in Hsh.
  pose proof (g_pool _ _ _ _ _ _ _ _ _ _ Hal) as Hpl.
  assert (station (f (win c)) p = Some rs) as Hp1 by (by rewrite (ps_station f Hf)).
  destruct (sh_len _ _ Hsh p rs Hp1) as (Hlo & Hld & _).
  assert (∀ c' q i' k' k2, wired p c c' → cvs c' = cvs c → entering c A q i' k' → (k' ≤ k2)%nat → entering c' A q i' k2) as Hsame.
  { intros c' q i' k' k2 Hw Hcv Hq Hle. pose proof (wired_entering p c c' A q i' k' Hw Hcv Hq) as [E1 E2 E3 E4 E5].
    split; try done; [intros spec n j Hj; specialize (E4 _ _ _ Hj); lia|intros j Hj; specialize (E5 _ Hj); lia]. }
  unfold ruu_install_odep. case_bool_decide as Hna.
  - destruct (set_name_good c A L p i k NA rs (set_oname k NA) Hal Hen Hp Hk) as (w & -> & Hal' & Hw & Hst); [by rewrite <- Hna|done..|].
    eexists _, _. split; [reflexivity|]. split; [done|]. split; [done|]. cbn [win set_win].
    rewrite Hst, decide_True by done. split; [done|]. subst name. split; [done|]. split; [done|]. split.
    + eapply Hsame; [done|done|exact Hen|lia].
    + intros q i' k' _ Hq. by eapply Hsame.
  - assert (<[k := None]> (odep_list rs) = odep_list rs) as Hod.
    { apply list_insert_id. destruct (lookup_lt_is_Some_2 (odep_list rs) k) as [o Ho]; [lia|]. rewrite Ho. f_equal.
      assert (A (ROdep p k) = []) as HA.
      { destruct (decide (A (ROdep p k) = [])) as [|Hne]; [done|]. pose proof (en_awaited _ _ _ _ _ Hen k Hne). lia. }
      apply (pool_nil _ _ _ _ Hpl) in HA; [|done]. cbn in HA. rewrite decide_False in HA by done.
      unfold odep_head in HA. by rewrite Hp1, Ho in HA. }
    destruct (set_name_good c A L p i k name rs (λ rs, set_odep k None (set_oname k name rs)) Hal Hen Hp Hk)
      as (w & -> & Hal' & Hw & Hst); [done|done|exact Hod|done|done|]. cbn [mbind result_bind].
    assert (station w p = Some (set_odep k None (set_oname k name rs))) as Hp2 by (by rewrite Hst, decide_True).
    pose proof (en_rs _ _ _ _ _ Hen) as (rs0 & Hp0 & _ & _ & Hc). rewrite Hp in Hp0. injection Hp0 as <-.
    destruct (SET_CREATE_VECTOR_ok (spec_mode (mach c)) (cvs c) (f w) (Z.to_nat name) p k (set_odep k None (set_oname k name rs)))
      as (v' & Hv & Hcv' & Hcr).
    + apply (g_cv _ _ _ _ _ _ _ _ _ _ Hal').
    + by rewrite (ps_station f Hf).
    + rewrite (live_frame cf (f (win c)) (f w)) by (apply (ps_frame f Hf), Hw). apply Hen.
    + done.
    + cbn. rewrite list_lookup_insert_eq by lia. f_equal. lia.
    + done.
    + unfold NA in Hna. lia.
    + lia.
    + change (spec_mode (mach (set_win w c))) with (spec_mode (mach c)). change (cvs (set_win w c)) with (cvs c).
      rewrite Hv. cbn [mbind result_bind]. eexists _, _. split; [reflexivity|].
      split; [|split; [exact Hw|cbn [win set_win set_cvs]; split; [exact Hp2|split; [done|split; [done|]]]]].
      { destruct Hal' as [G1 G2 G3 G4 G5]. split; try done. }
      assert (∀ q i' k', entering c A q i' k' → ∀ k2, (k' ≤ k2)%nat → (q = p → (k < k2)%nat) →
        entering (set_cvs v' (set_win w c)) A q i' k2) as Hgen.
      { intros q i' k' Hq k2 Hle Hqp. destruct (Hsame (set_win w c) q i' k' k2 Hw eq_refl Hq Hle) as [E1 E2 E3 E4 E5].
        split; try done. intros spec n j Hj. destruct (Hcr _ _ _ Hj) as [[= -> ->]|Hj']; [by apply Hqp|by eapply E4]. }
      split; [eapply Hgen; [exact Hen|lia|lia]|]. intros q i' k' Hne Hq. by eapply Hgen.
Qed.
End Push.
End Fill.

(** ** Both parts of a load or store *)

(** ** Entering the window *)

Section Push.
Variable cf : config.

Lemma pushes_RUU : pushes (push_RUU cf).
Proof.
  split; [by intros w []|]. intros w w' (E1 & E2 & E3 & E4 & E5 & E6 & E7 & E8).
  repeat split; cbn; congruence.
Qed.

Definition push_both (w : window) : window := push_LSQ cf (push_RUU cf w).

Lemma pushes_both : pushes push_both.
Proof.
  split; [by intros w []|]. intros w w' (E1 & E2 & E3 & E4 & E5 & E6 & E7 & E8).
  repeat split; cbn; congruence.
Qed.

Lemma slots_push size h n s : s ∈ slots size h (n + 1) ↔ s ∈ slots size h n ∨ s = slot size h n.
Proof.
  rewrite Nat.add_1_r, slots_S, elem_of_app. split; (intros [H|H]; [by left|right]); [by apply list_elem_of_singleton in H|by apply list_elem_of_singleton].
Qed.

Lemma live_push_RUU w q : shape cf w → live cf (push_RUU cf w) q ↔ live cf w q ∨ q = InRUU (RUU_tail w).
Proof.
  intros Hs. rewrite (sh_rtail _ _ Hs).
  destruct q as [s|s]; unfold live, ruu_slots, lsq_slots, push_RUU; cbn [RUU_head RUU_num LSQ_head LSQ_num].
  - rewrite slots_push. naive_solver.
  - naive_solver.
Qed.

Lemma live_push_both w q : shape cf w →
  live cf (push_both w) q ↔ live cf w q ∨ q = InRUU (RUU_tail w) ∨ q = InLSQ (LSQ_tail w).
Proof.
  intros Hs. rewrite (sh_rtail _ _ Hs), (sh_ltail _ _ Hs).
  destruct q as [s|s]; unfold live, ruu_slots, lsq_slots, push_both, push_LSQ, push_RUU; cbn [RUU_head RUU_num LSQ_head LSQ_num];
    rewrite slots_push; naive_solver.
Qed.

(** The slots at the tails are free. *)
Lemma tail_RUU_free w : shape cf w → (RUU_num w < RUU_size cf)%nat → ¬ live cf w (InRUU (RUU_tail w)).
Proof.
  intros Hs Hn (i & Hi & He)%elem_of_slots. rewrite (sh_rtail _ _ Hs) in He. apply slot_inj in He; lia.
Qed.
Lemma tail_LSQ_free w : shape cf w → (LSQ_num w < LSQ_size cf)%nat → ¬ live cf w (InLSQ (LSQ_tail w)).
Proof.
  intros Hs Hn (i & Hi & He)%elem_of_slots. rewrite (sh_ltail _ _ Hs) in He. apply slot_inj in He; lia.
Qed.

Lemma tail_RUU_station w : shape cf w → is_Some (station w (InRUU (RUU_tail w))).
Proof.
  intros Hs. apply lookup_lt_is_Some. rewrite (sh_ruu _ _ Hs), (sh_rtail _ _ Hs). apply slot_lt, (sh_rpos _ _ Hs).
Qed.
Lemma tail_LSQ_station w : shape cf w → is_Some (station w (InLSQ (LSQ_tail w))).
Proof.
  intros Hs. apply lookup_lt_is_Some. rewrite (sh_lsq _ _ Hs), (sh_ltail _ _ Hs). apply slot_lt, (sh_lpos _ _ Hs).
Qed.

(** The instances of a buffer after the one at its tail is filled in. *)
Lemma insts_push l l' size h n rs : (n < size)%nat → l' !! slot size h n = Some rs →
  (∀ s, s ≠ slot size h n → l' !! s = l !! s) →
  insts_at l' (slots size h (n + 1)) = insts_at l (slots size h n) ++ [rs_inst_of rs].
Proof.
  intros Hn Hl Ho. rewrite Nat.add_1_r, slots_S, insts_at_app, (insts_at_one _ _ _ Hl). f_equal.
  apply insts_at_in. intros s (i & Hi & ->)%elem_of_slots. rewrite Ho; [done|]. intros He%slot_inj; lia.
Qed.

(** Two buffers that grow in step keep the shape. *)
Lemma shape_push_RUU w w1 rs i :
  shape cf w → (RUU_num w < RUU_size cf)%nat → same_frame w w1 → station w (InRUU (RUU_tail w)) = Some rs →
  (∀ p', station w1 p' = if decide (p' = InRUU (RUU_tail w)) then Some (fill_station i rs) else station w p') →
  in_LSQ i = false → ea_comp i = false → shape cf (push_RUU cf w1).
Proof.
  intros Hs Hn Hfr Hp Hst Hin Hea. pose proof Hfr as (E1 & E2 & E3 & E4 & E5 & E6 & E7 & E8).
  assert (rinsts cf (push_RUU cf w1) = rinsts cf w ++ [i]) as HR.
  { unfold rinsts, ruu_slots. cbn [RUU RUU_head RUU_num push_RUU]. rewrite E1, E3.
    apply (insts_push (RUU w) (RUU w1) (RUU_size cf) (RUU_head w) (RUU_num w) (fill_station i rs) Hn).
    - change (station w1 (InRUU (slot (RUU_size cf) (RUU_head w) (RUU_num w))) = Some (fill_station i rs)).
      rewrite <- (sh_rtail _ _ Hs), Hst. by rewrite decide_True.
    - intros s Hne. change (station w1 (InRUU s) = station w (InRUU s)). rewrite Hst, decide_False; [done|].
      rewrite (sh_rtail _ _ Hs). congruence. }
  assert (linsts cf (push_RUU cf w1) = linsts cf w) as HL.
  { unfold linsts, lsq_slots. cbn [LSQ LSQ_head LSQ_num push_RUU]. rewrite E4, E6. apply insts_at_in. intros s _.
    change (rs_inst_of <$> station w1 (InLSQ s) = rs_inst_of <$> station w (InLSQ s)). rewrite Hst. by rewrite decide_False. }
  pose proof (sh_sync _ _ Hs) as Hsy. pose proof (sh_rin _ _ Hs) as Hri. pose proof (sh_lin _ _ Hs) as Hli.
  pose proof (sh_len _ _ Hs) as Hlen. pose proof (sh_names _ _ Hs) as Hnm.
  pose proof (sh_rtail _ _ Hs) as Hrt. pose proof (sh_ltail _ _ Hs) as Hlt.
  destruct Hs. split; rewrite ?HR, ?HL; cbn [RUU RUU_head RUU_num RUU_tail LSQ LSQ_head LSQ_num LSQ_tail push_RUU];
    rewrite ?E1, ?E2, ?E3, ?E4, ?E5, ?E6, ?E7, ?E8; try done.
  - lia.
  - rewrite Hrt, next_slot_slot. f_equal. lia.
  - rewrite filter_app, filter_cons_False, app_nil_r by congruence. done.
  - apply Forall_app. split; [done|by constructor].
  - intros p' rs' Hp'. change (station w1 p' = Some rs') in Hp'. rewrite Hst in Hp'. case_decide; [|by eapply Hlen].
    injection Hp' as <-. by eapply (Hlen _ rs).
  - intros p' rs' Hp'. change (station w1 p' = Some rs') in Hp'. rewrite Hst in Hp'. case_decide; [|by eapply Hnm].
    injection Hp' as <-. by eapply (Hnm _ rs).
Qed.

Lemma shape_push_both w w1 rs ls i j (p := InRUU (RUU_tail w)) (l := InLSQ (LSQ_tail w)) :
  shape cf w → (RUU_num w < RUU_size cf)%nat → (LSQ_num w < LSQ_size cf)%nat → same_frame w w1 →
  station w p = Some rs → station w l = Some ls →
  (∀ p', station w1 p' = if decide (p' = p) then Some (fill_station i rs)
     else if decide (p' = l) then Some (fill_station j ls) else station w p') →
  in_LSQ i = false → ea_comp i = true → in_LSQ j = true → rs_spec_mode i = rs_spec_mode j → shape cf (push_both w1).
Proof.
  intros Hs Hn Hln Hfr Hp Hl Hst Hin Hea Hinj Hsp. pose proof Hfr as (E1 & E2 & E3 & E4 & E5 & E6 & E7 & E8).
  assert (rinsts cf (push_both w1) = rinsts cf w ++ [i]) as HR.
  { unfold rinsts, ruu_slots. cbn [RUU RUU_head RUU_num push_both push_LSQ push_RUU]. rewrite E1, E3.
    apply (insts_push (RUU w) (RUU w1) (RUU_size cf) (RUU_head w) (RUU_num w) (fill_station i rs) Hn).
    - change (station w1 (InRUU (slot (RUU_size cf) (RUU_head w) (RUU_num w))) = Some (fill_station i rs)).
      rewrite <- (sh_rtail _ _ Hs), Hst. by rewrite decide_True.
    - intros s Hne. change (station w1 (InRUU s) = station w (InRUU s)). rewrite Hst, !decide_False; try done.
      subst p. rewrite (sh_rtail _ _ Hs). congruence. }
  assert (linsts cf (push_both w1) = linsts cf w ++ [j]) as HL.
  { unfold linsts, lsq_slots. cbn [LSQ LSQ_head LSQ_num push_both push_LSQ push_RUU]. rewrite E4, E6.
    apply (insts_push (LSQ w) (LSQ w1) (LSQ_size cf) (LSQ_head w) (LSQ_num w) (fill_station j ls) Hln).
    - change (station w1 (InLSQ (slot (LSQ_size cf) (LSQ_head w) (LSQ_num w))) = Some (fill_station j ls)).
      rewrite <- (sh_ltail _ _ Hs), Hst. by rewrite decide_False, decide_True.
    - intros s Hne. change (station w1 (InLSQ s) = station w (InLSQ s)). rewrite Hst, !decide_False; try done.
      subst l. rewrite (sh_ltail _ _ Hs). congruence. }
  pose proof (sh_sync _ _ Hs) as Hsy. pose proof (sh_rin _ _ Hs) as Hri. pose proof (sh_lin _ _ Hs) as Hli.
  pose proof (sh_len _ _ Hs) as Hlen. pose proof (sh_names _ _ Hs) as Hnm.
  pose proof (sh_rtail _ _ Hs) as Hrt. pose proof (sh_ltail _ _ Hs) as Hlt.
  destruct Hs. split; rewrite ?HR, ?HL; cbn [RUU RUU_head RUU_num RUU_tail LSQ LSQ_head LSQ_num LSQ_tail push_both push_LSQ push_RUU];
    rewrite ?E1, ?E2, ?E3, ?E4, ?E5, ?E6, ?E7, ?E8; try done.
  - lia.
  - lia.
  - rewrite Hrt, next_slot_slot. f_equal. lia.
  - rewrite Hlt, next_slot_slot. f_equal. lia.
  - rewrite filter_app, filter_cons_True, !fmap_app, Hsy by done. cbn. by rewrite Hsp.
  - apply Forall_app. split; [done|by constructor].
  - apply Forall_app. split; [done|by constructor].
  - intros p' rs' Hp'. change (station w1 p' = Some rs') in Hp'. rewrite Hst in Hp'.
    case_decide; [injection Hp' as <-; by eapply (Hlen _ rs)|]. case_decide; [injection Hp' as <-; by eapply (Hlen _ ls)|by eapply Hlen].
  - intros p' rs' Hp'. change (station w1 p' = Some rs') in Hp'. rewrite Hst in Hp'.
    case_decide; [injection Hp' as <-; by eapply (Hnm _ rs)|]. case_decide; [injection Hp' as <-; by eapply (Hnm _ ls)|by eapply Hnm].
Qed.
End Push.
