(* ===== verification/RuuWire.v ===== *)
(** * Wiring a new instance into the window *)

From S2P Require Import Prelude Misc Chains Memory Bpred BpredInv Resource ResourceSpec Ruu RuuStages RuuSched RuuFront.
From S2P Require Import Pool RuuPool RuuInv RuuSched1 RuuGood RuuWriteback RuuSquash RuuRecover RuuUnits RuuCore RuuComplete RuuIssue RuuFill.

Section Wire.
Context {MS : Type} `{!Environment MS, !EnvSpec MS}.
Variable cf : config.
Implicit Types c : core MS.

(** ** Operands and outputs *)

Definition reg_ok (n : Z) : Prop := 0 ≤ n < Z.of_nat MD_TOTAL_REGS.

Section Push.
Variable f : window → window.
Hypothesis Hf : pushes f.

(** The state while [p] is wired. *)
Definition wiring (A : root → list alink) L (p : rs_ptr) (i k : nat) c : Prop :=
  alloc cf f c A L ∧ A RWork = [] ∧ entering cf f c A p i k.

(** What wiring [p] leaves of the others that are about to enter. *)
Definition others (p : rs_ptr) c A c' A' : Prop :=
  ∀ q i k, q ≠ p → entering cf f c A q i k → entering cf f c' A' q i k.

Lemma wire_idep c0 A0 c A L p i k n :
  wiring A L p i k c → wired p c0 c → others p c0 A0 c A → (i < MAX_IDEPS)%nat → reg_ok n →
  wp out_of_links (ruu_link_idep p i n c) (λ c', ∃ A', wiring A' L p (S i) k c' ∧ wired p c0 c' ∧
    others p c0 A0 c' A' ∧ onames <$> station (win c') p = onames <$> station (win c) p).
Proof.
  intros (H1 & H2 & H3) Hw Ho Hi Hn.
  eapply wp_mono; [by eapply (ruu_link_idep_good cf f Hf c A L p i k n)|done|].
  intros c' (A' & G1 & G2 & G3 & G4 & G5 & G6). exists A'. split; [done|]. split; [by eapply wired_trans|].
  split; [|done]. intros q i' k' Hq He. by apply G6, Ho.
Qed.

Lemma wire_odep c0 A0 c A L p i k n rs :
  wiring A L p i k c → wired p c0 c → others p c0 A0 c A → (k < MAX_ODEPS)%nat → reg_ok n →
  station (win c) p = Some rs → rs_spec_mode (rs_inst_of rs) = spec_mode (mach c) →
  ∃ c' rs', ruu_install_odep p k n c = Ok c' ∧ wiring A L p i (S k) c' ∧ wired p c0 c' ∧ others p c0 A0 c' A ∧
    station (win c') p = Some rs' ∧ onames rs' = <[k := n]> (onames rs) ∧ rs_inst_of rs' = rs_inst_of rs ∧
    mach c' = mach c.
Proof.
  intros (H1 & H2 & H3) Hw Ho Hk Hn Hp Hs.
  destruct (ruu_install_odep_good cf f Hf c A L p i k n rs H1 H3 Hp Hk Hn Hs)
    as (c' & rs' & G1 & G2 & G3 & G4 & G5 & G6 & G7 & G8).
  exists c', rs'. split; [done|]. split; [done|]. split; [by eapply wired_trans|].
  split; [intros q i' k' Hq He; by apply G8, Ho|]. do 3 (split; [done|]). apply G3.
Qed.

(** Three operands, then two outputs; [K] is what follows. *)
Lemma wire_good {X} (K : core MS → result X) (Φ : X → Prop) c A L p rs i0 i1 i2 o0 o1 :
  wiring A L p 0 0 c → station (win c) p = Some rs → rs_spec_mode (rs_inst_of rs) = spec_mode (mach c) →
  Forall reg_ok [i0; i1; i2; o0; o1] →
  (∀ c' A' rs', wiring A' L p 3 2 c' → wired p c c' → others p c A c' A' → station (win c') p = Some rs' →
     onames rs' = [o0; o1] → wp out_of_links (K c') Φ) →
  wp out_of_links (c ← ruu_link_idep p 0 i0 c; c ← ruu_link_idep p 1 i1 c; c ← ruu_link_idep p 2 i2 c;
    c ← ruu_install_odep p 0 o0 c; c ← ruu_install_odep p 1 o1 c; K c) Φ.
Proof.
  intros Hwi Hp Hs Hr HK. rewrite !Forall_cons in Hr. destruct Hr as (R0 & R1 & R2 & R3 & R4 & _).
  assert (others p c A c A) as Ho by (by intros ?).
  apply wp_bind. eapply wp_mono; [by eapply (wire_idep c A c A L p 0 0 i0 Hwi (wired_refl p c) Ho); [unfold MAX_IDEPS; lia|]|done|].
  intros c1 (A1 & Hwi1 & Hw1 & Ho1 & _).
  apply wp_bind. eapply wp_mono; [by eapply (wire_idep c A c1 A1); [| | |unfold MAX_IDEPS; lia|]|done|].
  intros c2 (A2 & Hwi2 & Hw2 & Ho2 & _).
  apply wp_bind. eapply wp_mono; [by eapply (wire_idep c A c2 A2); [| | |unfold MAX_IDEPS; lia|]|done|].
  intros c3 (A3 & Hwi3 & Hw3 & Ho3 & _).
  pose proof Hw3 as (_ & Hag & _ & Hm & _). destruct (agree_station' _ _ _ _ _ Hag Hp) as (rs3 & Hp3 & Hv3).
  injection Hv3 as Hin3 _ _ _ _ _.
  destruct (wire_odep c A c3 A3 L p 3 0 o0 rs3 Hwi3 Hw3 Ho3) as (c4 & rs4 & -> & Hwi4 & Hw4 & Ho4 & Hp4 & Hon4 & Hi4 & Hm4);
    [unfold MAX_ODEPS; lia|done|done|congruence|]. cbn [mbind result_bind].
  destruct (wire_odep c A c4 A3 L p 3 1 o1 rs4 Hwi4 Hw4 Ho4) as (c5 & rs5 & -> & Hwi5 & Hw5 & Ho5 & Hp5 & Hon5 & Hi5 & Hm5);
    [unfold MAX_ODEPS; lia|done|done|congruence|]. cbn [mbind result_bind].
  eapply HK; try done. rewrite Hon5, Hon4.
  assert (length (onames rs3) = MAX_ODEPS) as Hl.
  { apply (sh_len _ _ (g_shape _ _ _ _ _ _ _ _ _ _ (proj1 Hwi3)) p rs3). cbn. by rewrite (ps_station f Hf). }
  destruct (onames rs3) as [|a [|b [|]]]; try discriminate Hl. done.
Qed.
End Push.

(** ** The window after dispatch *)

(** [w'] is [w] with the instances [l]. *)
Record grown (w w' : window) (s : bool) (l : list rs_ptr) : Prop := {
  gr_head : RUU_head w' = RUU_head w;
  gr_num : RUU_num w' = (RUU_num w + 1)%nat;
  gr_live q : live cf w' q ↔ live cf w q ∨ q ∈ l;
  gr_old q : live cf w q → (λ rs, (iview rs, onames rs)) <$> station w' q = (λ rs, (iview rs, onames rs)) <$> station w q;
  gr_new q rs : q ∈ l → station w' q = Some rs → recover_inst rs = false ∧ completed rs = false;
  gr_last rs : ruu_nth cf w' (RUU_num w) = Some rs → InRUU (slot (RUU_size cf) (RUU_head w) (RUU_num w)) ∈ l ∧
    rs_spec_mode (rs_inst_of rs) = s
}.

Lemma grown_old w w' s l q rs : grown w w' s l → live cf w q → station w' q = Some rs →
  ∃ rs0, station w q = Some rs0 ∧ iview rs = iview rs0 ∧ onames rs = onames rs0.
Proof.
  intros Hg Hl Hp. pose proof (gr_old _ _ _ _ Hg q Hl) as He. rewrite Hp in He.
  destruct (station w q) as [rs0|]; [|done]. injection He as He1 He2 He3 He4 He5 He6 He7.
  exists rs0. split; [done|]. unfold iview. split; [congruence|done].
Qed.

Lemma spec_grown w w' s l : grown w w' s l → spec_ok cf w s → spec_ok cf w' s.
Proof.
  intros Hg. assert (∀ i rs, (i < RUU_num w)%nat → ruu_nth cf w' i = Some rs → ∃ rs0, ruu_nth cf w i = Some rs0 ∧
    rs_spec_mode (rs_inst_of rs) = rs_spec_mode (rs_inst_of rs0) ∧ recover_inst rs = recover_inst rs0 ∧ completed rs = completed rs0) as Hold.
  { intros i rs Hi Hn. unfold ruu_nth in *. rewrite (gr_head _ _ _ _ Hg) in Hn.
    destruct (grown_old w w' s l (InRUU _) rs Hg (live_nth cf w i Hi) Hn) as (rs0 & H0 & Hv & _).
    exists rs0. injection Hv as -> -> _ _ _ ->. done. }
  assert (∀ rs, ruu_nth cf w' (RUU_num w) = Some rs → rs_spec_mode (rs_inst_of rs) = s ∧ recover_inst rs = false) as Hnew.
  { intros rs Hn. destruct (gr_last _ _ _ _ Hg rs Hn) as [Hin Hs]. split; [done|].
    apply (gr_new _ _ _ _ Hg (InRUU (slot (RUU_size cf) (RUU_head w) (RUU_num w))) rs Hin).
    unfold ruu_nth in Hn. by rewrite (gr_head _ _ _ _ Hg) in Hn. }
  unfold spec_ok. rewrite (gr_num _ _ _ _ Hg). destruct s.
  - intros (j & Hj & Hall). exists j. split; [lia|]. intros i rs Hi Hn.
    destruct (decide (i = RUU_num w)) as [->|Hne].
    + destruct (Hnew rs Hn) as [-> ->]. split; [by rewrite bool_decide_eq_true_2 by lia|]. split; [done|lia].
    + destruct (Hold i rs) as (rs0 & H0 & -> & -> & ->); [lia|done|]. apply Hall; [lia|done].
  - intros Hall i rs Hi Hn. destruct (decide (i = RUU_num w)) as [->|Hne].
    + destruct (Hnew rs Hn) as [-> ->]. done.
    + destruct (Hold i rs) as (rs0 & H0 & -> & -> & ->); [lia|done|]. apply (Hall i rs0); [lia|done].
Qed.

(** ** The core before and after *)

Variable fu : list res_desc.

Definition core_in (Q : front_end → Prop) L (A : root → list alink) c : Prop :=
  good cf (cvs c) c A [] [] None None None (L, L) ∧ A RWork = [] ∧ side_ok cf fu Q c.

(** What the fetch queue holds. *)
Definition same_queue (f f' : front_end) : Prop :=
  fetch_data f' = fetch_data f ∧ fetch_head f' = fetch_head f ∧ fetch_tail f' = fetch_tail f ∧
  fetch_num f' = fetch_num f ∧ pred_PC f' = pred_PC f.

#[export] Instance same_queue_refl : Reflexive same_queue.
Proof. by intros f. Qed.
#[export] Instance same_queue_trans : Transitive same_queue.
Proof. intros f g h (H1 & H2 & H3 & H4 & H5) (G1 & G2 & G3 & G4 & G5). repeat split; congruence. Qed.

Variable Q : front_end → Prop.
Hypothesis HQ : ∀ f f', same_queue f f' → Q f → Q f'.

Lemma side_front c f : side_ok cf fu Q c → same_queue (front c) f →
  (∀ p tag, last_op f = Some (p, tag) → in_range cf p) → side_ok cf fu Q (set_front f c).
Proof.
  intros [S1 S2 S3 S4 S5 S6 S7 S8] Hf Hl. split; try done.
  - destruct S6 as [F1 F2 F3]. destruct Hf as (E & _). split; cbn; by rewrite ?E.
  - by eapply HQ.
Qed.

Lemma core_front L A c f : core_in Q L A c → same_queue (front c) f →
  (∀ p tag, last_op f = Some (p, tag) → in_range cf p) → core_in Q L A (set_front f c).
Proof. intros ([] & HA & Hs) Hf Hl. split; [by split|]. split; [done|]. by apply side_front. Qed.

Lemma enqueue_in L A c p rs :
  core_in Q L A c → live cf (win c) p → station (win c) p = Some rs →
  queued rs = false → OPERANDS_READY rs = true → issued rs = false →
  wp out_of_links (readyq_enqueue c p) (λ c', ∃ A', core_in Q L A' c' ∧ quiet_step c c' ∧
    ∀ q, station (win c') q = if decide (q = p) then Some (set_queued true rs) else station (win c) q).
Proof.
  intros (Hg & HAw & Hso) Hlv Hp Hq Hr Hi. eapply wp_mono; [by eapply enqueue_good|done|].
  intros c' (A' & Hg' & (Hk & Hcv & Hm & Hf & HA) & Hst & _). exists A'. split; [|by split].
  split; [by rewrite Hcv|]. split; [by rewrite HA|by eapply side_keeps].
Qed.

(** What a new instance must be. *)
Definition new_ok (o : option bpred_t) (q : rs_ptr) (rs : RUU_station) : Prop :=
  inst_ok fu o (rs_inst_of rs) ∧
  match q with
  | InLSQ _ => is_store (rs_op (rs_inst_of rs)) = true → Forall (λ n, n = NA) (onames rs)
  | InRUU _ => True
  end.

Lemma side_grown c c' l :
  side_ok cf fu Q c → grown (win c) (win c') (spec_mode (mach c)) l → mach c' = mach c →
  same_queue (front c) (front c') → last_op (front c') = last_op (front c) →
  (∀ q rs, q ∈ l → station (win c') q = Some rs → new_ok (pred (mach c)) q rs) → side_ok cf fu Q c'.
Proof.
  intros [S1 S2 S3 S4 S5 S6 S7 S8 S9] Hg Hm Hf Hlo Hn.
  assert (∀ q rs, live cf (win c') q → station (win c') q = Some rs → (q ∈ l) ∨ ∃ rs0, live cf (win c) q ∧ station (win c) q = Some rs0 ∧
    iview rs = iview rs0 ∧ onames rs = onames rs0) as Hcase.
  { intros q rs [Hl|Hin]%(gr_live _ _ _ _ Hg) Hp; [right|by left].
    destruct (grown_old _ _ _ _ _ _ Hg Hl Hp) as (rs0 & ? & ? & ?). by exists rs0. }
  split; rewrite ?Hm.
  - intros s rs Hs Hp. destruct (Hcase (InLSQ s) rs Hs Hp) as [Hin|(rs0 & Hl & H0 & Hv & ->)].
    + destruct (gr_new _ _ _ _ Hg _ _ Hin Hp). split; [done|]. by apply (Hn (InLSQ s) rs).
    + injection Hv as -> -> _ _ _ _. by apply (S1 s).
  - by eapply spec_grown.
  - intros q rs Hl Hp. destruct (Hcase q rs Hl Hp) as [Hin|(rs0 & Hl0 & H0 & Hv & _)].
    + by apply (Hn q rs).
    + injection Hv as -> _ _ _ _ _. by eapply S3.
  - done.
  - done.
  - destruct S6 as [F1 F2 F3]. destruct Hf as (E & _). split; by rewrite ?E.
  - by eapply HQ.
  - by rewrite Hlo.
  - done.
Qed.

(** The instance that was dispatched last. *)
Definition newest c (p : rs_ptr) : Prop :=
  (0 < RUU_num (win c))%nat ∧ p = InRUU (slot (RUU_size cf) (RUU_head (win c)) (RUU_num (win c) - 1)) ∧
  ∃ rs, station (win c) p = Some rs ∧ recover_inst rs = false ∧ completed rs = false.

Lemma newest_quiet c c' p : quiet_step c c' → newest c p → newest c' p.
Proof.
  intros [[(E1 & _ & E3 & _) Hag] _] (H1 & H2 & rs & H3 & H4 & H5).
  destruct (agree_station' _ _ _ _ _ Hag H3) as (rs' & Hp' & Hv). injection Hv as _ V2 V3 _ _ _ _.
  split; [by rewrite E3|]. split; [by rewrite E1, E3|]. exists rs'. split_and!; congruence.
Qed.

Lemma newest_live c p : newest c p → live cf (win c) p.
Proof. intros (Hn & -> & _). apply live_nth. lia. Qed.

Lemma newest_grown c c' p l : grown (win c) (win c') (spec_mode (mach c)) l → shape cf (win c) → shape cf (win c') →
  p = InRUU (RUU_tail (win c)) → p ∈ l → newest c' p.
Proof.
  intros Hg Hs Hs' -> Hin. rewrite (sh_rtail _ _ Hs) in *.
  destruct (live_station cf (win c') _ Hs' (proj2 (gr_live _ _ _ _ Hg _) (or_intror Hin))) as [rs Hp].
  unfold newest. rewrite (gr_num _ _ _ _ Hg), (gr_head _ _ _ _ Hg). split; [lia|].
  split; [f_equal; f_equal; lia|]. exists rs. split; [done|]. by eapply gr_new.
Qed.
End Wire.
