(* ===== verification/RuuEnter.v ===== *)
(** * Dispatching an instruction to the window *)

From S2P Require Import Prelude Misc Chains Memory Bpred BpredInv Resource ResourceSpec Ruu RuuStages RuuSched RuuFront.
From S2P Require Import Pool RuuPool RuuInv RuuSched1 RuuGood RuuWriteback RuuSquash RuuRecover RuuUnits RuuCore RuuComplete RuuIssue RuuFill RuuWire.

Section Enter.
Context {MS : Type} `{!Environment MS, !EnvSpec MS}.
Variable cf : config.
Variable fu : list res_desc.
Variable Q : front_end → Prop.
Hypothesis HQ : ∀ f f', same_queue f f' → Q f → Q f'.
Implicit Types c : core MS.

(** ** Filling the stations *)

Lemma start_entering f c w1 A v L p :
  linked cf v (qs c) (win c) A None (L, L) → v = cvs c → pushes f → ¬ live cf (win c) p →
  live cf (f w1) p → agree rs_tag (win c) w1 →
  (∃ rs, station w1 p = Some rs ∧ queued rs = false ∧ issued rs = false ∧ completed rs = false) →
  entering cf f (set_win w1 c) A p 0 0.
Proof.
  intros Hli -> Hf Hnl Hl Hag Hrs. destruct (outside_fresh cf _ _ _ _ _ p Hli Hnl) as (H1 & H2 & H3).
  split; try done. by eapply fresh_tags.
Qed.

Lemma fill_agree w w1 p rs i : station w p = Some rs →
  (∀ q, station w1 q = if decide (q = p) then Some (fill_station i rs) else station w q) → agree rs_tag w w1.
Proof. intros Hp Hst. by eapply agree_upd. Qed.

Lemma fill_RUU L A c w1 i rs (p := InRUU (RUU_tail (win c))) :
  good cf (cvs c) c A [] [] None None None (L, L) → A RWork = [] → (RUU_num (win c) < RUU_size cf)%nat →
  station (win c) p = Some rs → same_frame (win c) w1 →
  (∀ q, station w1 q = if decide (q = p) then Some (fill_station i rs) else station (win c) q) →
  in_LSQ i = false → ea_comp i = false → wiring cf (push_RUU cf) A L p 0 0 (set_win w1 c).
Proof.
  intros [Hs Hli]%good_linked HA Hn Hp Hfr Hst Hin Hea. pose proof (tail_RUU_free cf _ Hs Hn) as Hnl.
  assert (∀ q, live cf (push_RUU cf w1) q ↔ live cf (win c) q ∨ q = p) as Hlv.
  { intros q. rewrite (live_frame cf (push_RUU cf (win c))) by (by apply (ps_frame _ (pushes_RUU cf))).
    by apply live_push_RUU. }
  split; [|split; [done|]].
  - apply good_linked. split; [by eapply shape_push_RUU|]. cbn [win qs cvs set_win].
    eapply (fill_linked cf _ _ (win c)); [exact Hli|exact Hnl|exact Hp|exact Hst|exact Hlv].
  - eapply start_entering; [exact Hli|done|apply pushes_RUU|done|apply Hlv; by right|by eapply fill_agree|].
    exists (fill_station i rs). split; [by rewrite Hst, decide_True|done].
Qed.

Lemma fill_both L A c w1 i j rs ls (p := InRUU (RUU_tail (win c))) (l := InLSQ (LSQ_tail (win c))) :
  good cf (cvs c) c A [] [] None None None (L, L) → A RWork = [] → (RUU_num (win c) < RUU_size cf)%nat →
  (LSQ_num (win c) < LSQ_size cf)%nat → station (win c) p = Some rs → station (win c) l = Some ls →
  same_frame (win c) w1 →
  (∀ q, station w1 q = if decide (q = p) then Some (fill_station i rs)
     else if decide (q = l) then Some (fill_station j ls) else station (win c) q) →
  in_LSQ i = false → ea_comp i = true → in_LSQ j = true → rs_spec_mode i = rs_spec_mode j →
  wiring cf (push_both cf) A L p 0 0 (set_win w1 c) ∧ entering cf (push_both cf) (set_win w1 c) A l 0 0.
Proof.
  intros [Hs Hli]%good_linked HA Hn Hln Hp Hl Hfr Hst Hin Hea Hinj Hsp.
  pose proof (tail_RUU_free cf _ Hs Hn) as Hnp. pose proof (tail_LSQ_free cf _ Hs Hln) as Hnl.
  assert (∀ q, live cf (push_both cf w1) q ↔ live cf (win c) q ∨ q = p ∨ q = l) as Hlv.
  { intros q. rewrite (live_frame cf (push_both cf (win c))) by (by apply (ps_frame _ (pushes_both cf))).
    by apply live_push_both. }
  assert (agree rs_tag (win c) w1) as Hag.
  { intros q. rewrite Hst. case_decide; [subst q; by rewrite Hp|]. case_decide; [subst q; by rewrite Hl|done]. }
  assert (station w1 p = Some (fill_station i rs)) as Hp1 by (by rewrite Hst, decide_True).
  assert (station w1 l = Some (fill_station j ls)) as Hl1 by (by rewrite Hst, decide_False, decide_True by done).
  split; [split; [|split; [done|]]|].
  - apply good_linked. split; [by eapply shape_push_both|]. cbn [win qs cvs set_win].
    destruct (upd_station_spec c p (fill_station i) rs Hp) as (w0 & _ & Hfr0 & Hst0).
    assert (∀ q, live cf (push_RUU cf w0) q ↔ live cf (win c) q ∨ q = p) as Hlv0.
    { intros q. rewrite (live_frame cf (push_RUU cf (win c))) by (by apply (ps_frame _ (pushes_RUU cf))).
      by apply live_push_RUU. }
    assert (linked cf (cvs c) (qs c) (push_RUU cf w0) A None (L, L)) as Hli0
      by (eapply (fill_linked cf _ _ (win c)); [exact Hli|exact Hnp|exact Hp|exact Hst0|exact Hlv0]).
    eapply (fill_linked cf _ _ (push_RUU cf w0) (push_both cf w1) A L l ls j); [exact Hli0| | | |].
    + rewrite Hlv0. intros [?|?]; done.
    + change (station w0 l = Some ls). by rewrite Hst0, decide_False.
    + intros q. change (station w1 q = if decide (q = l) then Some (fill_station j ls) else station w0 q).
      rewrite Hst, Hst0. case_decide; [subst q; by rewrite decide_False|done].
    + intros q. rewrite Hlv, Hlv0. tauto.
  - eapply start_entering; [exact Hli|done|apply pushes_both|done|apply Hlv; auto|done|by eexists].
  - eapply start_entering; [exact Hli|done|apply pushes_both|done|apply Hlv; auto|done|by eexists].
Qed.

(** ** The window has grown *)

Lemma grown_RUU c w1 w2 s rs rs2 i (p := InRUU (RUU_tail (win c))) :
  shape cf (win c) → (RUU_num (win c) < RUU_size cf)%nat → same_frame (win c) w2 →
  (∀ q, station w1 q = if decide (q = p) then Some (fill_station i rs) else station (win c) q) →
  agree iview w1 w2 → (∀ q, q ≠ p → onames <$> station w2 q = onames <$> station w1 q) →
  station w2 p = Some rs2 → rs_spec_mode i = s → grown cf (win c) (push_RUU cf w2) s [p].
Proof.
  intros Hs Hn Hfr Hst Hag Ho Hp2 Hsp. pose proof Hfr as (E1 & _ & E3 & _).
  pose proof (tail_RUU_free cf _ Hs Hn) as Hnl.
  assert (iview rs2 = iview (fill_station i rs)) as Hv.
  { specialize (Hag p). rewrite Hp2, Hst, decide_True in Hag by done. by apply (inj Some) in Hag. }
  split; cbn [RUU_head RUU_num push_RUU].
  - done.
  - lia.
  - intros q. rewrite (live_frame cf (push_RUU cf (win c))) by (by apply (ps_frame _ (pushes_RUU cf))).
    rewrite live_push_RUU by done. fold p. rewrite list_elem_of_singleton. done.
  - intros q Hq. change (station (push_RUU cf w2) q) with (station w2 q).
    assert (q ≠ p) as Hne by (by intros ->). specialize (Hag q). specialize (Ho q Hne).
    rewrite Hst, decide_False in Hag, Ho by done.
    destruct (station w2 q), (station (win c) q); try done. cbn in *. congruence.
  - intros q rs' ->%list_elem_of_singleton Hq. change (station w2 p = Some rs') in Hq. rewrite Hp2 in Hq. injection Hq as <-.
    by injection Hv as _ -> _ _ _ ->.
  - intros rs' Hq. unfold ruu_nth in Hq. cbn [RUU RUU_head push_RUU] in Hq. rewrite E1, <- (sh_rtail _ _ Hs) in Hq.
    change (station w2 p = Some rs') in Hq. rewrite Hp2 in Hq. injection Hq as <-.
    rewrite <- (sh_rtail _ _ Hs). split; [by left|]. injection Hv as -> _. done.
Qed.

Lemma grown_both c w1 w2 s rs ls rs2 ls2 i j (p := InRUU (RUU_tail (win c))) (l := InLSQ (LSQ_tail (win c))) :
  shape cf (win c) → (RUU_num (win c) < RUU_size cf)%nat → (LSQ_num (win c) < LSQ_size cf)%nat →
  same_frame (win c) w2 →
  (∀ q, station w1 q = if decide (q = p) then Some (fill_station i rs)
     else if decide (q = l) then Some (fill_station j ls) else station (win c) q) →
  agree iview w1 w2 → (∀ q, q ≠ p → q ≠ l → onames <$> station w2 q = onames <$> station w1 q) →
  station w2 p = Some rs2 → station w2 l = Some ls2 → rs_spec_mode i = s →
  grown cf (win c) (push_both cf w2) s [p; l].
Proof.
  intros Hs Hn Hln Hfr Hst Hag Ho Hp2 Hl2 Hsp. pose proof Hfr as (E1 & _ & E3 & _).
  pose proof (tail_RUU_free cf _ Hs Hn) as Hnp. pose proof (tail_LSQ_free cf _ Hs Hln) as Hnl.
  assert (iview rs2 = iview (fill_station i rs)) as Hv.
  { specialize (Hag p). rewrite Hp2, Hst, decide_True in Hag by done. by apply (inj Some) in Hag. }
  assert (iview ls2 = iview (fill_station j ls)) as Hvl.
  { specialize (Hag l). rewrite Hl2, Hst, decide_False, decide_True in Hag by done. by apply (inj Some) in Hag. }
  split; cbn [RUU_head RUU_num push_both push_LSQ push_RUU].
  - done.
  - lia.
  - intros q. rewrite (live_frame cf (push_both cf (win c))) by (by apply (ps_frame _ (pushes_both cf))).
    rewrite live_push_both by done. fold p l. rewrite elem_of_cons, list_elem_of_singleton. done.
  - intros q Hq. change (station (push_both cf w2) q) with (station w2 q).
    assert (q ≠ p) as Hne by (by intros ->). assert (q ≠ l) as Hne2 by (by intros ->).
    specialize (Hag q). specialize (Ho q Hne Hne2). rewrite Hst, !decide_False in Hag, Ho by done.
    destruct (station w2 q), (station (win c) q); try done. cbn in *. congruence.
  - intros q rs' [-> | ->%list_elem_of_singleton]%elem_of_cons Hq.
    + change (station w2 p = Some rs') in Hq. rewrite Hp2 in Hq. injection Hq as <-. by injection Hv as _ -> _ _ _ ->.
    + change (station w2 l = Some rs') in Hq. rewrite Hl2 in Hq. injection Hq as <-. by injection Hvl as _ -> _ _ _ ->.
  - intros rs' Hq. unfold ruu_nth in Hq. cbn [RUU RUU_head push_both push_LSQ push_RUU] in Hq.
    rewrite E1, <- (sh_rtail _ _ Hs) in Hq. change (station w2 p = Some rs') in Hq. rewrite Hp2 in Hq. injection Hq as <-.
    rewrite <- (sh_rtail _ _ Hs). split; [by left|]. injection Hv as -> _. done.
Qed.

(** ** The two ways to dispatch *)

(** What the core keeps of an instruction that was fetched and executed. *)
Record fetched (r : fetch_rec) (x : exec_out) c : Prop := {
  fe_rec : rec_ok (pred (mach c)) (f_dir_update r) (f_stack_recover_idx r);
  fe_exec : exec_ok fu (spec_mode (mach c)) (MD_SET_OPCODE (f_IR r)) (f_regs_PC r) x;
  fe_pc : is_ctrl (x_op x) = true → 0 < f_regs_PC r;
  fe_fault : x_fault x = md_fault_none
}.

(** The core after dispatch, and the station of the instruction. *)
Definition dispatched c (p : rs_ptr) L c' : Prop :=
  (∃ A', core_in cf fu Q L A' c') ∧ mach c' = mach c ∧ same_queue (front c) (front c') ∧ newest cf c' p.

Lemma set_last_op_in L A c o : core_in cf fu Q L A c → (∀ p tag, o = Some (p, tag) → in_range cf p) →
  core_in cf fu Q L A (upd_front (set_last_op o) c).
Proof. intros Hc Ho. by apply (core_front cf fu Q HQ). Qed.

Lemma tail_in_range w : shape cf w → in_range cf (InRUU (RUU_tail w)) ∧ in_range cf (InLSQ (LSQ_tail w)).
Proof.
  intros Hs. rewrite (sh_rtail _ _ Hs), (sh_ltail _ _ Hs).
  split; apply slot_lt; [apply (sh_rpos _ _ Hs)|apply (sh_lpos _ _ Hs)].
Qed.

Lemma dispatch_op_good L A c r x :
  core_in cf fu Q L A c → (RUU_num (win c) < RUU_size cf)%nat → fetched r x c →
  wp out_of_links (dispatch_op cf r x c) (dispatched c (InRUU (RUU_tail (win c))) L).
Proof.
  intros (Hg & HA & Hso) Hn [Fr Fx Fp Ff]. pose proof (g_shape _ _ _ _ _ _ _ _ _ _ Hg) as Hs.
  destruct (tail_RUU_station cf _ Hs) as [rs Hp]. unfold dispatch_op.
  set (p := InRUU (RUU_tail (win c))) in *. set (c0 := upd_front next_seq c). set (i := inst_desc _ _ _ _ _ _ _ _ _).
  destruct (upd_station_spec c0 p (fill_station i) rs Hp) as (w1 & -> & Hfr & Hst). cbn [mbind result_bind].
  assert (good cf (cvs c0) c0 A [] [] None None None (L, L)) as Hg0 by (by destruct Hg).
  pose proof (fill_RUU L A c0 w1 i rs Hg0 HA Hn Hp Hfr Hst eq_refl eq_refl) as Hwi.
  pose proof (xo_regs _ _ _ _ _ Fx) as Hr. rewrite !Forall_cons in Hr. destruct Hr as (R1 & R2 & R3 & R4 & R5 & _).
  eapply (wire_good cf (push_RUU cf) (pushes_RUU cf) _ _ (set_win w1 c0) A L p (fill_station i rs)); [exact Hwi| |done|by rewrite !Forall_cons, Forall_nil|].
  { change (station w1 p = Some (fill_station i rs)). by rewrite Hst, decide_True. }
  intros c2 A2 rs2 (Hal & HA2 & Hen) (Hfr2 & Hag2 & Ho2 & Hm2 & Hf2) _ Hp2 Hon.
  set (c3 := set_win (push_RUU cf (win c2)) c2).
  assert (grown cf (win c) (win c3) (spec_mode (mach c)) [p]) as Hgr.
  { eapply (grown_RUU c w1 (win c2)); [done|done|by eapply same_frame_trans|exact Hst|exact Hag2|exact Ho2|exact Hp2|done]. }
  assert (rs_inst_of rs2 = i) as Hi2.
  { specialize (Hag2 p). change (iview <$> station (win c2) p = iview <$> station w1 p) in Hag2.
    rewrite Hp2, Hst, decide_True in Hag2 by done. by injection Hag2. }
  assert (core_in cf fu Q L A2 c3) as Hc3.
  { split; [exact Hal|]. split; [done|]. eapply (side_grown cf fu Q HQ c); [done|exact Hgr|done| | |].
    - cbn. rewrite Hf2. by repeat split.
    - cbn. by rewrite Hf2.
    - intros q rsq ->%list_elem_of_singleton Hq. change (station (win c2) p = Some rsq) in Hq. rewrite Hp2 in Hq. injection Hq as <-.
      split; [|done]. rewrite Hi2. split; [apply (xo_class _ _ _ _ _ Fx)|done|exact Fp|exact Fr|done]. }
  assert (newest cf c3 p) as Hnw by (eapply newest_grown; [exact Hgr|done|apply Hal|done|by left]).
  assert (get_rs (win c3) p = Ok rs2) as -> by (by apply get_rs_station). cbn [mbind result_bind].
  assert (mach c3 = mach c) as Hm3 by done. assert (same_queue (front c) (front c3)) as Hq3 by (cbn; rewrite Hf2; by repeat split).
  destruct (OPERANDS_READY rs2) eqn:Hrd.
  - destruct (en_rs _ _ _ _ _ _ _ Hen) as (rs0 & H0 & H1 & H2 & H3). rewrite Hp2 in H0. injection H0 as <-.
    apply wp_bind. eapply wp_mono; [apply (enqueue_in cf fu Q L A2 c3 p rs2); [done|by apply newest_live|done..]|done|].
    intros c4 (A4 & Hc4 & Hq4 & _). cbn. pose proof Hq4 as (_ & Hm4 & Hf4).
    split; [exists A4; by apply set_last_op_in|]. split; [cbn; by rewrite Hm4|]. split; [cbn; by rewrite Hf4|].
    by apply (newest_quiet cf c3 c4 p).
  - cbn. split; [exists A2; apply set_last_op_in; [done|]|done].
    intros p' tag [= <- _]. apply (tail_in_range _ Hs).
Qed.

(** The instance in the load/store queue predicts nothing. *)
Lemma no_prediction c a b d e : side_ok cf fu Q c → rec_ok (pred (mach c)) (mkUpd None None None a b d e) 0.
Proof.
  intros Hso bp Hb. split; [done|]. intros Hne. pose proof (so_pred _ _ _ _ Hso) as Hp. rewrite Hb in Hp.
  pose proof (pred_rs_size bp Hp). lia.
Qed.

(** The older of the two is queued first. *)
Lemma enqueue_both L A c p l rs ls (b : bool) :
  core_in cf fu Q L A c → newest cf c p → l ≠ p → live cf (win c) l → in_range cf l →
  station (win c) p = Some rs → station (win c) l = Some ls →
  queued rs = false → issued rs = false → queued ls = false → issued ls = false →
  wp out_of_links (c ← (if OPERANDS_READY rs then readyq_enqueue c p else Ok c);
    ls ← get_rs (win c) l;
    let c := upd_front (set_last_op (Some (l, rs_tag ls))) c in
    if b && OPERANDS_READY ls then readyq_enqueue c l else Ok c) (dispatched c p L).
Proof.
  intros Hc Hnw Hne Hlv Hrg Hp Hl Hq Hi Hql Hil. apply wp_bind.
  assert (wp out_of_links (if OPERANDS_READY rs then readyq_enqueue c p else Ok c) (λ c', ∃ A', core_in cf fu Q L A' c' ∧
    quiet_step c c' ∧ station (win c') l = Some ls)) as H1.
  { destruct (OPERANDS_READY rs) eqn:Hrd; [|exists A; split; [done|split; [apply quiet_step_refl|done]]].
    eapply wp_mono; [apply (enqueue_in cf fu Q L A c p rs); [done|by apply newest_live|done..]|done|].
    intros c' (A' & Hc' & Hq' & Hst). exists A'. do 2 (split; [done|]). by rewrite Hst, decide_False. }
  eapply wp_mono; [exact H1|done|]. clear H1. intros c1 (A1 & Hc1 & Hq1 & Hl1).
  rewrite (get_rs_station _ _ _ Hl1). cbn [mbind result_bind]. set (c2 := upd_front _ c1).
  pose proof Hq1 as ((Hfr1 & _) & Hm1 & Hf1).
  assert (core_in cf fu Q L A1 c2) as Hc2.
  { apply set_last_op_in; [done|]. by intros p' tag [= <- _]. }
  assert (newest cf c2 p) as Hnw2 by (by apply (newest_quiet cf c c1 p)).
  assert (same_queue (front c) (front c2)) as Hsq by (cbn; by rewrite Hf1).
  destruct (b && OPERANDS_READY ls) eqn:Hb; [apply andb_true_iff in Hb as [_ Hb]|].
  - eapply wp_mono; [apply (enqueue_in cf fu Q L A1 c2 l ls); try done|done|].
    + cbn. by rewrite (live_frame cf (win c)).
    + intros c3 (A3 & Hc3 & Hq3 & _). pose proof Hq3 as (_ & Hm3 & Hf3).
      split; [by exists A3|]. split; [rewrite Hm3; exact Hm1|]. split; [by rewrite Hf3|]. by eapply newest_quiet.
  - cbn. split; [by exists A1|]. done.
Qed.

Lemma dispatch_mem_good L A c r x :
  EnvOk fu →
  core_in cf fu Q L A c → (RUU_num (win c) < RUU_size cf)%nat → (LSQ_num (win c) < LSQ_size cf)%nat → fetched r x c →
  wp out_of_links (dispatch_mem cf r x c) (dispatched c (InRUU (RUU_tail (win c))) L).
Proof.
  intros Henv (Hg & HA & Hso) Hn Hln [Fr Fx Fp Ff]. pose proof (g_shape _ _ _ _ _ _ _ _ _ _ Hg) as Hs.
  destruct (tail_RUU_station cf _ Hs) as [rs Hp]. destruct (tail_LSQ_station cf _ Hs) as [ls Hl]. unfold dispatch_mem.
  set (p := InRUU (RUU_tail (win c))) in *. set (l := InLSQ (LSQ_tail (win c))) in *.
  set (c0 := upd_front next_seq c). set (i := inst_desc _ _ _ _ _ _ _ _ _).
  destruct (upd_station_spec c0 p (fill_station i) rs Hp) as (w0 & -> & Hfr0 & Hst0). cbn [mbind result_bind].
  set (c1 := upd_front next_seq (set_win w0 c0)).
  assert (station (win c1) l = Some ls) as Hl0 by (change (station w0 l = Some ls); by rewrite Hst0, decide_False).
  set (g := λ ls, fill_station _ ls). set (j := rs_inst_of (g ls)).
  destruct (upd_station_spec c1 l g ls Hl0) as (w1 & -> & Hfr1 & Hst1). cbn [mbind result_bind].
  assert (∀ q, station w1 q = if decide (q = p) then Some (fill_station i rs)
     else if decide (q = l) then Some (fill_station j ls) else station (win c) q) as Hst.
  { intros q. rewrite Hst1. change (station (win c1) q) with (station w0 q). rewrite Hst0.
    destruct (decide (q = l)) as [->|]; [by rewrite decide_False|done]. }
  assert (same_frame (win c) w1) as Hfr by (exact (same_frame_trans (win c) w0 w1 Hfr0 Hfr1)).
  set (cw := set_win w1 c1). assert (cw = set_win w1 (upd_front next_seq c0)) as Hcw by done.
  assert (good cf (cvs c) (upd_front next_seq c0) A [] [] None None None (L, L)) as Hg0 by (by destruct Hg).
  destruct (fill_both L A (upd_front next_seq c0) w1 i j rs ls Hg0 HA Hn Hln Hp Hl Hfr Hst eq_refl eq_refl eq_refl eq_refl) as [Hwi Hel].
  rewrite <- Hcw in Hwi, Hel. pose proof (xo_regs _ _ _ _ _ Fx) as Hr. rewrite !Forall_cons in Hr.
  destruct Hr as (R1 & R2 & R3 & R4 & R5 & _). assert (reg_ok NA ∧ reg_ok DTMP) as [R6 R7] by done.
  eapply (wire_good cf (push_both cf) (pushes_both cf) _ _ cw A L p (fill_station i rs)); [exact Hwi| |done|by rewrite !Forall_cons, Forall_nil|].
  { change (station w1 p = Some (fill_station i rs)). by rewrite Hst, decide_True. }
  intros c2 A2 rs2 (Hal2 & HA2 & Hen2) Hw2 Hot Hp2 Hon2. pose proof Hw2 as (Hfr2 & Hag2 & Ho2 & Hm2 & Hf2).
  specialize (Hot l 0%nat 0%nat ltac:(done) Hel).
  assert (∃ ls2, station (win c2) l = Some ls2 ∧ iview ls2 = iview (fill_station j ls)) as (ls2 & Hl2 & Hv2).
  { eapply agree_station'; [exact Hag2|]. change (station w1 l = Some (fill_station j ls)). by rewrite Hst, decide_False, decide_True. }
  assert (rs_inst_of ls2 = j) as Hj2 by (by injection Hv2).
  eapply (wire_good cf (push_both cf) (pushes_both cf) _ _ c2 A2 L l ls2); [by split|done| |by rewrite !Forall_cons, Forall_nil|].
  { rewrite Hj2, Hm2. done. }
  intros c3 A3 ls3 (Hal3 & HA3 & Hen3) (Hfr3 & Hag3 & Ho3 & Hm3 & Hf3) Hot3 Hl3 Hon3.
  set (c4 := set_win _ c3).
  destruct (en_rs _ _ _ _ _ _ _ Hen3) as (ls0 & H0 & Hql & Hil & _). rewrite Hl3 in H0. injection H0 as <-.
  destruct (en_rs _ _ _ _ _ _ _ Hen2) as (rs0 & H0 & Hq & Hi & _). rewrite Hp2 in H0. injection H0 as <-.
  destruct (agree_station' _ _ _ _ _ Hag3 Hp2) as (rs3 & Hp3 & Hv3).
  assert (iview ls3 = iview (fill_station j ls)) as Hvl3.
  { specialize (Hag3 l). rewrite Hl3, Hl2 in Hag3. rewrite <- Hv2. by apply (inj Some) in Hag3. }
  assert (agree iview w1 (win c3)) as Hag by (exact (agree_trans iview w1 (win c2) (win c3) Hag2 Hag3)).
  assert (iview rs3 = iview (fill_station i rs)) as Hvp3.
  { specialize (Hag p). rewrite Hp3, Hst, decide_True in Hag by done. by apply (inj Some) in Hag. }
  assert (grown cf (win c) (win c4) (spec_mode (mach c)) [p; l]) as Hgr.
  { eapply (grown_both c w1 (win c3)); [done|done|done| |exact Hst|exact Hag| |exact Hp3|exact Hl3|done].
    - eapply same_frame_trans; [exact Hfr|]. by eapply same_frame_trans.
    - intros q Hqp Hql2. rewrite Ho3 by done. by apply Ho2. }
  assert (mach c4 = mach c) as Hm4 by (change (mach c4) with (mach c3); by rewrite Hm3, Hm2).
  assert (same_queue (front c) (front c4) ∧ last_op (front c4) = last_op (front c)) as [Hq4 Hlo4]
    by (change (front c4) with (front c3); by rewrite Hf3, Hf2).
  assert (core_in cf fu Q L A3 c4) as Hc4.
  { split; [exact Hal3|]. split; [done|]. eapply (side_grown cf fu Q HQ c); [done|exact Hgr|done..|].
    intros q rsq [-> | ->%list_elem_of_singleton]%elem_of_cons Hrs.
    - change (station (win c3) p = Some rsq) in Hrs. rewrite Hp3 in Hrs. injection Hrs as <-. split; [|done].
      injection Hvp3 as -> _ _ _ _ _. split; [apply eo_agen|done| |exact Fr|done]. cbn. rewrite (proj1 eo_agen). done.
    - change (station (win c3) l = Some rsq) in Hrs. rewrite Hl3 in Hrs. injection Hrs as <-.
      injection Hvl3 as Hvi _ _ _ _ _. unfold new_ok. rewrite Hvi. split.
      + split; [apply (xo_class _ _ _ _ _ Fx)| |exact Fp|by apply no_prediction|].
        * intros _ Hst0'. by apply (xo_store _ _ _ _ _ Fx).
        * intros _ Hst0' Hsp. by apply (xo_addr _ _ _ _ _ Fx).
      + intros Hstore. destruct (xo_store _ _ _ _ _ Fx Hstore) as (E1 & E2 & _). rewrite Hon3, E1, E2. by repeat constructor. }
  assert (get_rs (win c4) p = Ok rs3) as -> by (by apply get_rs_station). cbn [mbind result_bind].
  assert (newest cf c4 p) as Hnw by (eapply newest_grown; [exact Hgr|done|apply Hal3|done|by left]).
  unfold iview in Hv3. injection Hv3 as _ _ _ Hv3q Hv3i _.
  eapply wp_mono; [apply (enqueue_both L A3 c4 p l rs3 ls3 (is_store (x_op x)) Hc4 Hnw); try done|done|].
  - apply (gr_live _ _ _ _ _ Hgr). right. by right; left.
  - apply (tail_in_range _ Hs).
  - congruence.
  - congruence.
  - intros c5 (G1 & G2 & G3 & G4). split; [done|]. split; [by rewrite G2, Hm4|]. split; [by etransitivity|done].
Qed.
End Enter.
