(* ===== verification/RuuResolve.v ===== *)
(** * Resolving a prediction at dispatch, and the dispatch loop *)

From S2P Require Import Prelude Misc Chains Memory Bpred BpredInv Resource ResourceSpec Ruu RuuStages RuuSched RuuFront.
From S2P Require Import Pool RuuPool RuuInv RuuSched1 RuuGood RuuWriteback RuuSquash RuuRecover RuuUnits RuuCore RuuComplete RuuIssue RuuFill RuuWire RuuEnter.

Section Resolve.
Context {MS : Type} `{!Environment MS, !EnvSpec MS}.
Variable cf : config.
Variable fu : list res_desc.
Implicit Types c : core MS.

(** ** Steps of the front end and of the machine *)

Lemma core_requeue (Q Q' : front_end → Prop) L A c f :
  core_in cf fu Q L A c → fetch_data f = fetch_data (front c) → last_op f = last_op (front c) → Q' f →
  core_in cf fu Q' L A (set_front f c).
Proof.
  intros ([] & HA & [S1 S2 S3 S4 S5 [F1 F2 F3] S7 S8 S9]) Hd Hl HQ. split; [by split|]. split; [done|].
  split; try done; cbn; [by split; rewrite ?Hd|by rewrite Hl].
Qed.

Lemma core_mach (Q : front_end → Prop) L A c m :
  core_in cf fu Q L A c → mach_le fu (mach c) m → core_in cf fu Q L A (set_mach m c).
Proof. intros (Hg & HA & Hs) Hm. split; [by destruct Hg|]. split; [done|]. by apply side_mach. Qed.

Lemma same_mach (Q : front_end → Prop) L A c m :
  core_in cf fu Q L A c → sim_cycle m = sim_cycle (mach c) → spec_mode m = spec_mode (mach c) →
  fu_pool m = fu_pool (mach c) → pred m = pred (mach c) → env_inv (ports m) → core_in cf fu Q L A (set_mach m c).
Proof.
  intros Hc E1 E2 E3 E4 E5. apply core_mach; [done|]. destruct Hc as (_ & _ & []).
  split; [done|]. split; [done|]. rewrite E3, E4. split; [done|]. split; [done|]. by split.
Qed.

(** ** The wrong path starts *)

Lemma spec_newest w w' p rs : shape cf w → spec_ok cf w false → same_frame w w' →
  (0 < RUU_num w)%nat → p = InRUU (slot (RUU_size cf) (RUU_head w) (RUU_num w - 1)) →
  station w p = Some rs → completed rs = false →
  (∀ q, station w' q = if decide (q = p) then Some (set_recover true rs) else station w q) → spec_ok cf w' true.
Proof.
  intros Hs Hsp (E1 & _ & E3 & _) Hn Hpp Hp Hc Hst. exists (RUU_num w - 1)%nat. split; [lia|].
  intros i rs' Hi Hr. rewrite E3 in Hi. unfold ruu_nth in Hr. rewrite E1 in Hr.
  change (station w' (InRUU (slot (RUU_size cf) (RUU_head w) i)) = Some rs') in Hr. rewrite Hst in Hr.
  pose proof (sh_rnum _ _ Hs) as Hle. case_decide as Hd.
  - rewrite Hpp in Hd. injection Hd as Hd. apply slot_inj in Hd; [|lia..]. injection Hr as <-. rewrite Hpp in Hp.
    destruct (Hsp (RUU_num w - 1)%nat rs) as [H1 _]; [lia|exact Hp|]. cbn. rewrite H1.
    split; [by rewrite bool_decide_eq_false_2 by lia|]. split; [by right|done].
  - destruct (Hsp i rs' Hi Hr) as [-> H2].
    assert (i ≠ (RUU_num w - 1)%nat) as Hne by (intros ->; by apply Hd).
    split; [by rewrite bool_decide_eq_false_2 by lia|]. split; [by left; apply H2|done].
Qed.

Lemma mispredict_good Q L A c p :
  core_in cf fu Q L A c → newest cf c p → spec_mode (mach c) = false →
  ∃ w, upd_station (set_mach (set_spec true (mach c)) c) p (set_recover true) = Ok (set_win w (set_mach (set_spec true (mach c)) c)) ∧
    core_in cf fu Q L A (set_win w (set_mach (set_spec true (mach c)) c)).
Proof.
  intros ([Hsh Hpl Hsc Hcv Htg] & HA & [S1 S2 S3 S4 S5 S6 S7 S8]) (Hn & Hpp & rs & Hp & Hr & Hc) Hsp.
  destruct (upd_station_spec (set_mach (set_spec true (mach c)) c) p (set_recover true) rs Hp) as (w & -> & Hfr & Hst).
  cbn in Hfr, Hst. exists w. split; [done|]. split; [|split; [done|split; try done]]; cbn.
  - split; cbn.
    + eapply agree_shape; [exact Hfr|by eapply agree_upd|exact Hsh].
    + eapply pool_ext; [exact Hpl| |done]. intros y. apply heads_station. intros p'. rewrite Hst.
      case_decide; [subst p'; by rewrite Hp|done].
    + eapply (sched_status cf (win c) w A [] [] None p rs (set_recover true rs)); try done.
      * intros a Ha Hv <-. by apply (sc_ev _ _ _ _ _ _ Hsc a rs).
      * intros a Ha Hv <-. by apply (sc_rd _ _ _ _ _ _ Hsc a rs).
      * intros r a Ha Hv <-. by apply (sc_od _ _ _ _ _ _ Hsc r a rs).
      * intros Hl. split; [by apply (sc_queued _ _ _ _ _ _ Hsc p rs)|].
        split; [by apply (sc_issued _ _ _ _ _ _ Hsc p rs)|by apply (sc_completed _ _ _ _ _ _ Hsc p rs)].
    + eapply agree_cv; [exact Hfr|by eapply agree_upd|exact Hcv].
    + eapply agree_tags; [exact Hfr|by eapply agree_upd|exact Htg].
  - intros s rs' Hs Hq. change (station w (InLSQ s) = Some rs') in Hq. rewrite Hst, decide_False in Hq by (by rewrite Hpp).
    apply (S1 s); [|exact Hq]. change (live cf (win c) (InLSQ s)). by rewrite <- (live_frame cf (win c) w).
  - rewrite Hsp in S2. by eapply spec_newest.
  - eapply insts_agree; [exact Hfr|by eapply agree_upd|exact S3].
Qed.

(** ** Resolving *)

(** What follows a dispatch: the queue's new front is the old one's. *)
Definition follows (Q : front_end → Prop) L c c' : Prop :=
  (∃ A', core_in cf fu Q L A' c') ∧ sim_cycle (mach c') = sim_cycle (mach c) ∧ same_queue (front c) (front c').

Section Queue.
Variable Q : front_end → Prop.
Hypothesis HQ : ∀ f f', same_queue f f' → Q f → Q f'.

Lemma core_bump L A c b k : core_in cf fu Q L A c → core_in cf fu Q L A (bump b k c).
Proof. intros Hc. unfold bump. destruct b; [|done]. apply (core_front cf fu Q HQ); [done|done|apply Hc]. Qed.

Lemma bump_mach b k c : mach (bump b k c) = mach c ∧ win (bump b k c) = win c.
Proof. by destruct b. Qed.

Lemma bump_queue b k c : same_queue (front c) (front (bump b k c)).
Proof. by destruct b. Qed.

Lemma newest_win c c' p : win c' = win c → newest cf c p → newest cf c' p.
Proof. unfold newest. by intros ->. Qed.

(** The update at dispatch of the predictor. *)
Lemma train_dispatch L A c p r x (q : option rs_ptr) :
  core_in cf fu Q L A c → pred (mach c) = Some p → (∃ s, q = Some s ∧ newest cf c s) →
  is_ctrl (x_op x) = true → 0 < f_regs_PC r →
  ∃ m, (q ← deref q; rs ← get_rs (win c) q;
    bp ← bpred_update p (f_regs_PC r) (x_NPC x) (negb (bool_decide (x_NPC x = u32 (f_regs_PC r + inst_size))))
           (negb (bool_decide (pred_PC (front c) = u32 (f_regs_PC r + inst_size))))
           (bool_decide (pred_PC (front c) = x_NPC x)) (x_op x) (dir_update (rs_inst_of rs));
    Ok (set_mach (set_pred (Some bp) (mach c)) c)) = Ok (set_mach m c) ∧ mach_le fu (mach c) m.
Proof.
  intros (Hg & HA & Hso) Hpr (s & -> & Hn) Hct Hpc. pose proof (newest_live cf c s Hn) as Hlv.
  destruct Hn as (_ & _ & rs & Hp & _). cbn [deref mbind result_bind]. rewrite (get_rs_station _ _ _ Hp). cbn [mbind result_bind].
  destruct Hso as [_ _ S3 S4 S5 _ _ _ S9]. pose proof (io_rec _ _ _ (S3 s rs Hlv Hp)) as Hrec. rewrite Hpr in *.
  destruct (update_pred_ok p (f_regs_PC r) (x_NPC x) (negb (bool_decide (x_NPC x = u32 (f_regs_PC r + inst_size))))
    (negb (bool_decide (pred_PC (front c) = u32 (f_regs_PC r + inst_size)))) (bool_decide (pred_PC (front c) = x_NPC x))
    (x_op x) (dir_update (rs_inst_of rs)) _ S5 Hrec Hct Hpc) as (p' & -> & Hp' & Hle).
  cbn [mbind result_bind]. eexists. split; [done|]. do 4 (split; [done|]). by rewrite Hpr; split.
Qed.

Lemma resolve_path_good L A c q r x redirected :
  core_in cf fu Q L A c → (is_ctrl (x_op x) = true → 0 < f_regs_PC r) →
  match q with Some s => newest cf c s | None => spec_mode (mach c) = false → is_ctrl (x_op x) = false ∧ (pred_PC (front c) = x_NPC x ∨ redirected = true) end →
  ∃ c', resolve_path cf q r x redirected c = Ok c' ∧ follows Q L c c'.
Proof.
  intros Hc Hpc Hq. unfold resolve_path. destruct (spec_mode (mach c)) eqn:Hsp; [exists c; split; [done|]; by split; [exists A|]|].
  match goal with |- ∃ c', (?m ≫= _) = _ ∧ _ => assert (∃ c1, m = Ok c1 ∧ core_in cf fu Q L A c1 ∧ sim_cycle (mach c1) = sim_cycle (mach c) ∧
    spec_mode (mach c1) = false ∧ win c1 = win c ∧ same_queue (front c) (front c1))
    as (c1 & -> & Hc1 & Hcy & Hsp1 & Hw1 & Hq1) end.
  { destruct (is_ctrl (x_op x)) eqn:Hct; [|by exists c].
    assert (core_in cf fu Q L A (bump true sim_num_branches c)) as Hb by (by apply core_bump). cbv zeta.
    destruct (pred (mach (bump true sim_num_branches c))) as [p|] eqn:Hpr; [|by exists (bump true sim_num_branches c)].
    case_bool_decide; [|by exists (bump true sim_num_branches c)].
    destruct (train_dispatch L A (bump true sim_num_branches c) p r x q Hb Hpr) as (m & -> & Hm); [|done|by apply Hpc|].
    - destruct q as [s|]; [by exists s|]. by destruct (Hq eq_refl).
    - eexists. split; [reflexivity|]. split; [by apply core_mach|]. destruct Hm as (E1 & E2 & _).
      split; [exact E1|]. split; [exact (eq_trans E2 Hsp)|done]. }
  cbn [mbind result_bind]. destruct Hq1 as (Q1 & Q2 & Q3 & Q4 & Q5).
  destruct (negb (bool_decide (pred_PC (front c1) = x_NPC x)) && negb redirected) eqn:Hm.
  - apply andb_true_iff in Hm as [Hm1 Hm2]. apply negb_true_iff, bool_decide_eq_false in Hm1. apply negb_true_iff in Hm2.
    destruct q as [s|]; [|destruct (Hq eq_refl) as (_ & [?|?]); congruence]. cbn [deref mbind result_bind].
    destruct (mispredict_good Q L A c1 s Hc1) as (w & -> & Hc2); [by apply (newest_win c)|done|]. cbn [mbind result_bind].
    eexists. split; [reflexivity|]. split; [|done]. exists A. apply (core_front cf fu Q HQ); [done|done|]. apply Hc2.
  - exists c1. split; [done|]. by split; [exists A|].
Qed.
End Queue.

(** ** One instruction *)

(** The queue once the instruction at its head has left. *)
Definition consumed (f : front_end) : front_end :=
  set_fetchq (fetch_data f) ((fetch_head f + 1) mod ruu_ifq_size cf) (fetch_tail f) (fetch_num f - 1) f.
Definition queue_next (f : front_end) : Prop := queue_ok cf (consumed f).

Lemma queue_next_same f f' : same_queue f f' → queue_next f → queue_next f'.
Proof.
  intros (E1 & E2 & E3 & E4 & _) [H1 H2 H3 H4].
  split; cbn in *; rewrite ?E1, ?E2, ?E3, ?E4; done.
Qed.

Lemma queue_consume f : (0 < ruu_ifq_size cf)%nat → queue_ok cf f → (0 < fetch_num f)%nat → queue_next f.
Proof.
  intros Hpos [H1 H2 H3 H4] Hn.
  assert (∀ i, slot (ruu_ifq_size cf) ((fetch_head f + 1) mod ruu_ifq_size cf) i = slot (ruu_ifq_size cf) (fetch_head f) (S i)) as Hsl
    by (intros i; rewrite <- slot_next; unfold next_slot; done).
  split; cbn.
  - by apply Nat.mod_upper_bound; lia.
  - lia.
  - rewrite Hsl, H3. f_equal. lia.
  - intros i r Hi Hr. rewrite Hsl in Hr. apply (H4 (S i)); [lia|done].
Qed.

Lemma queue_redirected f NPC : (0 < ruu_ifq_size cf)%nat →
  queue_next (set_fetchq (fetch_data f) (ruu_ifq_size cf - 1) 0 1 NPC).
Proof.
  intros Hpos. assert ((ruu_ifq_size cf - 1 + 1) mod ruu_ifq_size cf = 0)%nat as E
    by (replace (ruu_ifq_size cf - 1 + 1)%nat with (ruu_ifq_size cf) by lia; apply Nat.Div0.mod_same).
  split; cbn [consumed set_fetchq fetch_data fetch_head fetch_tail fetch_num]; rewrite ?E; [lia|lia|by rewrite slot_0|lia].
Qed.

Lemma consume_in L A c : core_in cf fu queue_next L A c → core_in cf fu (queue_ok cf) L A (consume_fetch cf c).
Proof. intros Hc. apply (core_requeue queue_next); [done|done|done|]. apply Hc. Qed.

(** Redirecting the fetch stage. *)
Lemma redirect_good L A c NPC (redir : bool) :
  core_in cf fu queue_next L A c → (0 < fetch_num (front c))%nat →
  ∃ A, let c' := if redir then redirect_fetch cf NPC c else c in
    core_in cf fu queue_next L A c' ∧ win c' = win c ∧ sim_cycle (mach c') = sim_cycle (mach c) ∧
    spec_mode (mach c') = spec_mode (mach c) ∧ pred (mach c') = pred (mach c) ∧ (fetch_num (front c') ≤ fetch_num (front c))%nat ∧
    (pred_PC (front c') = pred_PC (front c) ∨ redir = true).
Proof.
  intros Hc Hn. exists A. destruct redir; [|by split_and!; [..|left]]. cbv zeta.
  assert (0 < ruu_ifq_size cf)%nat as Hpos by (eapply fk_pos; apply Hc).
  unfold redirect_fetch. destruct (pred_perfect cf).
  - split; [|by split_and!; [..|right]].
    apply (core_requeue queue_next queue_next L A c); [done|done|done|]. by apply (queue_redirected (front c)).
  - split; [|by split_and!; [..|right]]. eapply same_mach; [|done..|apply (so_env _ _ _ _ (proj2 (proj2 Hc)))].
    apply (core_requeue queue_next queue_next L A c); [done|done|done|]. by apply (queue_redirected (front c)).
Qed.

Lemma inorder_stall_ok Q L A c : core_in cf fu Q L A c → ∃ b, inorder_stall cf c = Ok b.
Proof.
  intros (Hg & _ & Hso). unfold inorder_stall. destruct (ruu_inorder_issue cf); [|by eexists].
  destruct (last_op (front c)) as [[p tag]|] eqn:Hl; [|by eexists]. pose proof (so_last _ _ _ _ Hso p tag Hl) as Hr.
  pose proof (g_shape _ _ _ _ _ _ _ _ _ _ Hg) as Hs.
  assert (is_Some (station (win c) p)) as [rs Hp].
  { destruct p; apply lookup_lt_is_Some; [by rewrite (sh_ruu _ _ Hs)|by rewrite (sh_lsq _ _ Hs)]. }
  rewrite (get_rs_station _ _ _ Hp). by eexists.
Qed.

(** The choice between the two ways to dispatch. *)
Lemma enter_good L A c r x (nop : bool) :
  EnvOk fu → core_in cf fu queue_next L A c → (RUU_num (win c) < RUU_size cf)%nat → (LSQ_num (win c) < LSQ_size cf)%nat →
  fetched fu r x c →
  wp out_of_links (if nop then Ok c else if any_flag (x_op x) F_MEM then dispatch_mem cf r x c else dispatch_op cf r x c)
    (λ c', (∃ A', core_in cf fu queue_next L A' c') ∧ mach c' = mach c ∧ same_queue (front c) (front c') ∧
      (nop = false → newest cf c' (InRUU (RUU_tail (win c))))).
Proof.
  intros Henv Hc Hn Hln Hf. destruct nop; [by split; [exists A|]|].
  destruct (any_flag _ _).
  - eapply wp_mono; [by eapply (dispatch_mem_good cf fu queue_next queue_next_same)|done|].
    by intros c' (H1 & H2 & H3 & H4).
  - eapply wp_mono; [by eapply (dispatch_op_good cf fu queue_next queue_next_same)|done|].
    by intros c' (H1 & H2 & H3 & H4).
Qed.

(** From the execution of the instruction on. *)
Lemma run_good L A c r x redirected (redir nop : bool) :
  EnvOk fu → core_in cf fu queue_next L A c → (0 < fetch_num (front c))%nat →
  (RUU_num (win c) < RUU_size cf)%nat → (LSQ_num (win c) < LSQ_size cf)%nat →
  fetched fu r x c → nop = is_nop (x_op x) →
  (spec_mode (mach c) = false → nop = true → pred_PC (front c) = x_NPC x) →
  wp (core_fault MS)
    (let c := if redir then redirect_fetch cf (x_NPC x) c else c in
     let p := InRUU (RUU_tail (win c)) in
     c ← (if nop then Ok c else if any_flag (x_op x) F_MEM then dispatch_mem cf r x c else dispatch_op cf r x c);
     let c := bump (is_ctrl (x_op x)) sim_total_branches (bump true sim_total_insn c) in
     c ← resolve_path cf (if nop then None else Some p) r x (redir || redirected) c;
     Ok (Some (negb nop, redir || redirected), consume_fetch cf c))
    (λ '(o, c'), (∃ A', core_in cf fu (queue_ok cf) L A' c') ∧ sim_cycle (mach c') = sim_cycle (mach c) ∧
      (o = None ∨ (fetch_num (front c') < fetch_num (front c))%nat)).
Proof.
  intros Henv Hc Hf Hn Hln [F1 F2 F3 F4] Hnop Hpc.
  destruct (redirect_good L A c (x_NPC x) redir Hc Hf) as (A1 & Hc1 & Hw1 & Hcy1 & Hs1 & Hpr1 & Hle & Hpp). cbv zeta in *.
  set (c1 := if redir then _ else _) in *. set (p := InRUU _). apply wp_bind. rewrite <- Hw1 in Hn, Hln.
  eapply wp_mono; [eapply (enter_good L A1 c1 r x nop); try done|apply links_fault|].
  { split; [by rewrite Hpr1|by rewrite Hs1|done|done]. }
  intros c2 ((A2 & Hc2) & Hm2 & Hq2 & Hn2). fold p in Hn2.
  set (c3 := bump _ sim_total_branches _).
  assert (core_in cf fu queue_next L A2 c3) as Hc3 by (by do 2 apply (core_bump queue_next queue_next_same)).
  assert (mach c3 = mach c2 ∧ win c3 = win c2) as [Hm3 Hw3].
  { subst c3. rewrite (proj1 (bump_mach _ _ _)), (proj2 (bump_mach _ _ _)). done. }
  assert (same_queue (front c1) (front c3)) as Hq3 by (by do 2 (etransitivity; [|apply bump_queue])).
  destruct (resolve_path_good queue_next queue_next_same L A2 c3 (if nop then None else Some p) r x (redir || redirected) Hc3 F3)
    as (c4 & -> & (A4 & Hc4) & Hcy4 & Hq4).
  - destruct nop; [|by apply (newest_win c2), Hn2]. rewrite Hm3, Hm2, Hs1. intros Hsp.
    destruct (xo_nop _ _ _ _ _ F2 (eq_sym Hnop)) as [Hct _]. split; [done|].
    destruct Hq3 as (_ & _ & _ & _ & ->). destruct Hpp as [->| ->]; [left; by apply Hpc|by right].
  - cbn. split; [exists A4; by apply consume_in|]. split; [by rewrite Hcy4, Hm3, Hm2|].
    right. assert (same_queue (front c1) (front c4)) as (_ & _ & _ & -> & _) by (by etransitivity). lia.
Qed.

Lemma count_mem_good Q (HQ : ∀ f f', same_queue f f' → Q f → Q f') L A op c :
  core_in cf fu Q L A c → core_in cf fu Q L A (count_mem op c) ∧ mach (count_mem op c) = mach c ∧
  win (count_mem op c) = win c ∧ same_queue (front c) (front (count_mem op c)).
Proof.
  intros Hc. unfold count_mem. destruct (any_flag op F_MEM); [|done].
  assert (∀ b b' k k' c, core_in cf fu Q L A c → core_in cf fu Q L A (bump b k (bump b' k' c)) ∧ mach (bump b k (bump b' k' c)) = mach c ∧
    win (bump b k (bump b' k' c)) = win c ∧ same_queue (front c) (front (bump b k (bump b' k' c)))) as H.
  { intros b b' k k' c1 H1. split; [by do 2 apply (core_bump Q HQ)|]. by destruct b, b'. }
  set (c1 := bump _ _ _). assert (core_in cf fu Q L A c1 ∧ mach c1 = mach c ∧ win c1 = win c ∧ same_queue (front c) (front c1)) as (H1 & H2 & H3 & H4)
    by (by apply H).
  destruct (any_flag op F_STORE); [done|].
  destruct (H (negb (spec_mode (mach c))) true sim_num_loads sim_total_loads c1 H1) as (G1 & G2 & G3 & G4).
  split; [done|]. split; [by rewrite G2|]. split; [by rewrite G3|]. by etransitivity.
Qed.

Lemma head_fetched Q L A c : core_in cf fu Q L A c → queue_ok cf (front c) → (0 < fetch_num (front c))%nat →
  ∃ r, fetch_data (front c) !! fetch_head (front c) = Some r ∧
    rec_ok (pred (mach c)) (f_dir_update r) (f_stack_recover_idx r) ∧
    if is_ctrl (MD_SET_OPCODE (f_IR r)) then 0 < f_regs_PC r else f_pred_PC r = u32 (f_regs_PC r + inst_size).
Proof.
  intros (_ & _ & [_ _ _ _ _ [F1 F2 F3] _ _]) [H1 H2 H3 H4] Hn.
  destruct (lookup_lt_is_Some_2 (fetch_data (front c)) (fetch_head (front c))) as [r Hr]; [lia|].
  exists r. split; [done|]. split; [by eapply (Forall_lookup_1 _ _ _ _ F3)|].
  apply (H4 0%nat r); [done|]. by rewrite slot_0.
Qed.

Lemma dispatch_one_good L A c redirected :
  EnvOk fu → core_in cf fu (queue_ok cf) L A c → (0 < fetch_num (front c))%nat →
  (RUU_num (win c) < RUU_size cf)%nat → (LSQ_num (win c) < LSQ_size cf)%nat →
  wp (core_fault MS) (dispatch_one cf redirected c) (λ '(o, c'), (∃ A', core_in cf fu (queue_ok cf) L A' c') ∧
    sim_cycle (mach c') = sim_cycle (mach c) ∧ (o = None ∨ (fetch_num (front c') < fetch_num (front c))%nat)).
Proof.
  intros Henv Hc Hf Hn Hln. pose proof Hc as (_ & _ & Hso). unfold dispatch_one.
  destruct (inorder_stall_ok _ _ _ _ Hc) as (stall & ->). cbn [mbind result_bind].
  destruct stall; [cbn; split; [by exists A|auto]|].
  destruct (head_fetched _ _ _ _ Hc (so_queue _ _ _ _ Hso) Hf) as (r & Hr & Hrec & Hpc).
  rewrite (proj2 (vget_Ok _ _ _) Hr). cbn [mbind result_bind].
  set (c1 := upd_front (set_pred_PC _) _).
  assert (core_in cf fu (queue_ok cf) L A c1) as Hc1.
  { apply (core_requeue (queue_ok cf) (queue_ok cf) L A c); [done|done|done|]. by destruct Hso as [_ _ _ _ _ _ [] _]; split. }
  destruct (any_flag _ F_TRAP && negb _) eqn:Ht1; [cbn; split; [by exists A|auto]|].
  destruct (any_flag _ F_TRAP && spec_mode (mach c1)) eqn:Ht2.
  { exfalso. apply andb_true_iff in Ht2 as [Ht Hs]. rewrite Ht in Ht1. cbn in Ht1. apply negb_false_iff, bool_decide_eq_true in Ht1.
    pose proof (so_spec _ _ _ _ Hso) as Hsp. cbn in Hs. rewrite Hs in Hsp. destruct Hsp as (j & Hj & _). lia. }
  set (c2 := bump (negb _) sim_num_insn c1).
  assert (core_in cf fu queue_next L A c2 ∧ mach c2 = mach c ∧ win c2 = win c ∧ same_queue (front c1) (front c2)) as (Hc2 & Hm2 & Hw2 & Hq2).
  { split; [|split; [apply (bump_mach _ _ c1)|split; [apply (bump_mach _ _ c1)|apply bump_queue]]]. apply (core_bump queue_next queue_next_same).
    apply (core_requeue (queue_ok cf) queue_next L A c1); [done|done|done|]. apply (queue_consume (front c1)); [|apply Hc1|done].
    eapply fk_pos; apply Hc. }
  destruct (eo_exec (fu := fu) (spec_mode (mach c2)) (f_IR r) (f_regs_PC r) (ports (mach c2))) as (x & s & -> & Hinv & Hx); [apply (so_env _ _ _ _ (proj2 (proj2 Hc2)))|].
  cbn [mbind result_bind]. set (c3 := set_mach _ c2).
  assert (core_in cf fu queue_next L A c3) as Hc3 by (by apply same_mach).
  destruct (bool_decide (x_fault x ≠ md_fault_none)) eqn:Hflt; [cbn; right; left; by left|].
  apply bool_decide_eq_false, dec_stable in Hflt. set (c4 := count_mem (x_op x) c3).
  destruct (count_mem_good queue_next queue_next_same L A (x_op x) c3 Hc3) as (Hc4 & Hm4 & Hw4 & Hq4). fold c4 in Hc4, Hm4, Hw4, Hq4.
  assert (same_queue (front c1) (front c4)) as Hq14 by (by etransitivity).
  pose proof Hq14 as (_ & _ & _ & E4 & E5).
  eapply wp_mono; [eapply (run_good L A c4 r x redirected _ (is_nop (x_op x))); try done|done|].
  - by rewrite E4.
  - rewrite Hw4. change (win c3) with (win c2). by rewrite Hw2.
  - rewrite Hw4. change (win c3) with (win c2). by rewrite Hw2.
  - split; rewrite ?Hm4; cbn; rewrite ?Hm2; [done|by rewrite <- Hm2| |done].
    intros Hct. rewrite <- (xo_ctrl _ _ _ _ _ Hx Hct), Hct in Hpc. done.
  - rewrite Hm4. cbn. intros Hsp Hnop. rewrite E5. cbn. destruct (xo_nop _ _ _ _ _ Hx Hnop) as [Hct ->].
    rewrite <- (xo_op _ _ _ _ _ Hx Hsp Hflt), Hct in Hpc. done.
  - intros [o c'] (H1 & H2 & H3). split; [done|]. split; [by rewrite H2, Hm4; cbn; rewrite Hm2|]. by rewrite E4 in H3.
Qed.

(** ** The stage *)

Lemma dispatch_loop_good L : EnvOk fu → ∀ fuel n redirected c A,
  core_in cf fu (queue_ok cf) L A c → (fetch_num (front c) ≤ fuel)%nat →
  wp (core_fault MS) (dispatch_loop cf fuel n redirected c)
    (λ c', (∃ A', core_in cf fu (queue_ok cf) L A' c') ∧ sim_cycle (mach c') = sim_cycle (mach c)).
Proof.
  intros Henv. induction fuel as [|fuel IH]; intros n redirected c A Hc Hfu; cbn [dispatch_loop].
  all: destruct (_ && _ && _ && _ && _) eqn:Hb; [|cbn; split; [by exists A|done]].
  all: rewrite !andb_true_iff, !bool_decide_eq_true in Hb; destruct Hb as [[[[_ Hn] Hln] Hf] _].
  { lia. }
  apply wp_bind. eapply wp_mono; [eapply (dispatch_one_good L A c redirected); try done; lia|done|].
  intros [[[d redir]|] c1] ((A1 & Hc1) & Hcy & Hd); [|cbn; split; [by exists A1|done]].
  destruct Hd as [?|Hd]; [done|]. eapply wp_mono; [eapply (IH _ _ c1 A1 Hc1); lia|done|].
  intros c2 (H1 & H2). split; [done|]. by rewrite H2.
Qed.

Lemma ruu_dispatch_good M A c : EnvOk fu → core_at cf fu (queue_ok cf) M A c →
  wp (core_fault MS) (ruu_dispatch cf c)
    (λ c', ∃ A', core_at cf fu (queue_ok cf) (M + 1) A' c' ∧ sim_cycle (mach c') = sim_cycle (mach c)).
Proof.
  intros Henv [(L & Hg & HL) [HAw Hso]].
  eapply wp_mono; [eapply (dispatch_loop_good L Henv (fetch_num (front c)) 0 false c A); [by split|done]|done|].
  intros c' ((A' & Hg' & HA' & Hs') & Hcy). exists A'. split; [|done]. split; [|done]. exists L. split; [done|].
  destruct (spec_mode (mach c)), (spec_mode (mach c')); cbn in *; lia.
Qed.
End Resolve.
