(* ===== verification/RuuFetch.v ===== *)
(** * The fetch stage keeps the invariant *)

From S2P Require Import Prelude Misc Chains Memory Bpred BpredInv Resource ResourceSpec Ruu RuuStages RuuSched RuuFront.
From S2P Require Import Pool RuuPool RuuInv RuuSched1 RuuGood RuuWriteback RuuSquash RuuRecover RuuUnits RuuCore RuuComplete RuuCommit RuuIssue.
From S2P Require Import RuuWire RuuEnter RuuResolve.

Section Fetch.
Context {MS : Type} `{!Environment MS, !EnvSpec MS}.
Variable cf : config.
Variable fu : list res_desc.
Hypothesis env_ok : EnvOk fu.
Implicit Types c : core MS.

Abbreviation fetching := (core_in cf fu (queue_ok cf)).

(** A recovery index that fits the predictor. *)
Definition idx_ok (o : option bpred_t) (idx : Z) : Prop := rec_ok o no_update idx.

Lemma rec_ok_idx o u i : rec_ok o u i → idx_ok o i.
Proof. intros H p Hp. destruct (H p Hp). done. Qed.
Lemma rec_ok_change o u i j : rec_ok o u i → idx_ok o j → rec_ok o u j.
Proof. intros H1 H2 p Hp. split; [by apply H1|by apply H2]. Qed.

(** What follows an address: the next one, unless the instruction is a control
    instruction. *)
Definition fetched_pc (inst pc next : Z) : Prop :=
  if is_ctrl (MD_SET_OPCODE inst) then 0 < pc else next = u32 (pc + inst_size).

Lemma fetch_latency_ok Q L A c pc : core_in cf fu Q L A c → in_text pc = true →
  ∃ lat m, fetch_latency cf pc c = Ok (lat, set_mach m c) ∧ mach_le fu (mach c) m.
Proof.
  intros (_ & _ & Hso) Ht. unfold fetch_latency.
  destruct (access_ok cf fu Q il1_access Read (IACOMPRESS cf pc) (ISCOMPRESS cf inst_size) c) as (o1 & m1 & -> & Hm1);
    [intros t s Hs; by apply (eo_il1 (fu := fu))|done|]. cbn [mbind result_bind].
  destruct (access_ok cf fu Q itlb_access Read (IACOMPRESS cf pc) (ISCOMPRESS cf inst_size) (set_mach m1 c)) as (o2 & m2 & -> & Hm2);
    [intros t s Hs; by apply (eo_itlb (fu := fu))|by apply side_mach|]. cbn [mbind result_bind].
  eexists _, m2. split; [reflexivity|]. by eapply mach_le_trans.
Qed.

(** The instruction at an address, a no-op outside the text. *)
Lemma fetch_inst_ok Q L A c pc : core_in cf fu Q L A c → ∃ inst lat m,
  (if in_text pc then
     let inst := MD_FETCH_INST pc (ports (mach c)) in
     '(lat, c) ← fetch_latency cf pc c; Ok (inst, lat, c)
   else Ok (MD_NOP_INST, cache_il1_lat cf, c)) = Ok (inst, lat, set_mach m c) ∧ mach_le fu (mach c) m ∧
  (is_ctrl (MD_SET_OPCODE inst) = true → 0 < pc).
Proof.
  intros Hc. destruct (in_text pc) eqn:Ht.
  - destruct (fetch_latency_ok Q L A c pc Hc Ht) as (lat & m & -> & Hm). cbn [mbind result_bind].
    eexists _, _, m. split; [reflexivity|]. split; [done|]. intros _. unfold in_text in Ht.
    rewrite !andb_true_iff, !bool_decide_eq_true in Ht. pose proof eo_text. lia.
  - eexists _, _, (mach c). split; [by destruct c|]. split; [eapply side_mach_le; apply Hc|]. rewrite eo_nop. done.
Qed.

Lemma predict_ok Q L A c inst pc idx u : core_in cf fu Q L A c → (is_ctrl (MD_SET_OPCODE inst) = true → 0 < pc) →
  rec_ok (pred (mach c)) u idx → ∃ next taken u' idx' m, predict inst pc idx u c = Ok (next, taken, u', idx', set_mach m c) ∧
    mach_le fu (mach c) m ∧ rec_ok (pred m) u' idx' ∧ fetched_pc inst pc next.
Proof.
  intros (_ & _ & Hso) Hpc Hrec. pose proof (side_mach_le cf fu Q c Hso) as Hle. unfold predict, fetched_pc.
  assert (c = set_mach (mach c) c) as Hcc by (by destruct c).
  destruct (pred (mach c)) as [p|] eqn:Hp.
  2: { eexists _, _, _, _, (mach c). rewrite <- Hcc. split; [reflexivity|]. rewrite Hp. split; [done|]. split; [done|]. by destruct (is_ctrl _); [apply Hpc|]. }
  destruct (is_ctrl (MD_SET_OPCODE inst)) eqn:Hct.
  - pose proof (so_pred _ _ _ _ Hso) as Hpo. rewrite Hp in Hpo.
    destruct (lookup_pred_ok p pc (MD_SET_OPCODE inst) (MD_IS_CALL (MD_SET_OPCODE inst)) (MD_IS_RETURN (MD_SET_OPCODE inst) inst) u idx Hpo Hct (Hpc eq_refl))
      as (t & u' & idx' & p' & -> & Hp' & Hl & Hr). cbn [mbind result_bind].
    assert (mach_le fu (mach c) (set_pred (Some p') (mach c))) as Hm.
    { destruct Hle as (H1 & H2 & H3 & _ & _ & H6). do 3 (split; [done|]). cbn. rewrite Hp. by split_and!. }
    case_bool_decide; eexists _, _, u', idx', _; (split; [reflexivity|]); by auto.
  - eexists _, _, u, idx, (mach c). rewrite <- Hcc. split; [reflexivity|]. rewrite Hp. done.
Qed.

(** The instruction joins the queue. *)
Lemma queue_fetch f r l : queue_ok cf f → (0 < ruu_ifq_size cf)%nat → (fetch_num f < ruu_ifq_size cf)%nat → length (fetch_data f) = ruu_ifq_size cf →
  l = <[fetch_tail f := r]> (fetch_data f) → fetched_pc (f_IR r) (f_regs_PC r) (f_pred_PC r) →
  queue_ok cf (set_fetchq l (fetch_head f) ((fetch_tail f + 1) mod ruu_ifq_size cf) (fetch_num f + 1) f).
Proof.
  intros [H1 H2 H3 H4] Hpos Hn Hl -> Hr. split; cbn [set_fetchq fetch_data fetch_head fetch_tail fetch_num].
  - done.
  - lia.
  - rewrite H3. fold (next_slot (ruu_ifq_size cf) (slot (ruu_ifq_size cf) (fetch_head f) (fetch_num f))).
    rewrite next_slot_slot. f_equal. lia.
  - intros i r' Hi Hr'. rewrite H3 in Hr'. destruct (decide (i = fetch_num f)) as [->|Hne].
    + rewrite list_lookup_insert_eq in Hr' by (rewrite Hl; by apply slot_lt). by injection Hr' as <-.
    + rewrite list_lookup_insert_ne in Hr' by (intros He%slot_inj; lia). apply (H4 i); [lia|done].
Qed.

Lemma fetch_enter L A c r0 r next : fetching L A c → (fetch_num (front c) < ruu_ifq_size cf)%nat →
  fetch_data (front c) !! fetch_tail (front c) = Some r0 →
  rec_ok (pred (mach c)) (f_dir_update r) (f_stack_recover_idx r) → fetched_pc (f_IR r) (f_regs_PC r) (f_pred_PC r) →
  ∃ l, vset (fetch_data (front c)) (fetch_tail (front c)) r = Ok l ∧
    let c := upd_front (set_fetch_PCs (f_regs_PC r) next) c in
    fetching L A (upd_front (set_fetchq l (fetch_head (front c)) ((fetch_tail (front c) + 1) mod ruu_ifq_size cf) (fetch_num (front c) + 1)) c).
Proof.
  intros (Hg & HA & [S1 S2 S3 S4 S5 S6 S7 S8 S9]) Hn Hr0 Hrec Hpc. destruct S6 as [F1 F2 F3].
  exists (<[fetch_tail (front c) := r]> (fetch_data (front c))). unfold vset. rewrite Hr0. split; [done|].
  split; [by destruct Hg|]. split; [done|]. split; try done.
  - split; cbn; [done|by rewrite length_insert|by apply Forall_insert].
  - destruct (queue_fetch (front c) r _ S7 F1 Hn F2 eq_refl Hpc) as [H1 H2 H3 H4]. by split.
Qed.

Lemma fetch_loop_good L A n : ∀ branch_cnt idx c, fetching L A c → idx_ok (pred (mach c)) idx →
  ∃ c', fetch_loop cf n branch_cnt idx c = Ok c' ∧ fetching L A c' ∧
    sim_cycle (mach c') = sim_cycle (mach c) ∧ spec_mode (mach c') = spec_mode (mach c).
Proof.
  induction n as [|n IH]; intros branch_cnt idx c Hc Hidx; cbn [fetch_loop]; [by exists c|].
  case_bool_decide as Hfull; [by exists c|]. cbv zeta. set (pc := fetch_pred_PC (front c)).
  set (c1 := upd_front (set_fetch_PCs pc pc) c).
  assert (fetching L A c1) as Hc1.
  { apply (core_requeue cf fu (queue_ok cf) (queue_ok cf) L A c); [done|done|done|]. by destruct Hc as (_ & _ & [_ _ _ _ _ _ [] _ _]); split. }
  destruct (fetch_inst_ok (queue_ok cf) L A c1 pc Hc1) as (inst & lat & m & Hrun & Hm & Hpc). cbv zeta in Hrun. rewrite Hrun.
  cbn [mbind result_bind]. assert (fetching L A (set_mach m c1)) as Hc2 by (by apply core_mach).
  pose proof Hm as (Hcy & Hsp & _ & _ & Hle & Hinv).
  case_bool_decide; [eexists; split; [reflexivity|]; split; [by apply same_mach|done]|].
  pose proof Hc1 as (_ & _ & [_ _ _ _ _ [F1 F2 F3] [H1 H2 H3 H4] _ _]).
  destruct (lookup_lt_is_Some_2 (fetch_data (front c1)) (fetch_tail (front c1))) as [r Hr].
  { rewrite F2, H3. by apply slot_lt. }
  change (front (set_mach m c1)) with (front c1). rewrite (proj2 (vget_Ok _ _ _) Hr). cbn [mbind result_bind].
  assert (rec_ok (pred m) (f_dir_update r) (f_stack_recover_idx r)) as Hrr.
  { eapply rec_ok_le; [exact Hle|]. exact (Forall_lookup_1 _ _ _ _ F3 Hr). }
  destruct (predict_ok (queue_ok cf) L A (set_mach m c1) inst pc idx (f_dir_update r) Hc2 Hpc) as
    (next & taken & u' & idx' & m2 & -> & Hm2 & Hrec & Hnext).
  { eapply rec_ok_change; [exact Hrr|]. by eapply rec_ok_le. }
  cbn [mbind result_bind]. change (set_mach m2 (set_mach m c1)) with (set_mach m2 c1).
  assert (fetching L A (set_mach m2 c1)) as Hc3 by (by apply (core_mach cf fu (queue_ok cf) L A (set_mach m c1))).
  destruct (fetch_enter L A (set_mach m2 c1) r (mkFetch inst pc next u' idx') next Hc3) as (l & Hl & Hc4); [cbn; lia|done|done|done|].
  rewrite Hl. cbn [mbind result_bind]. cbv zeta in Hc4. cbn [f_regs_PC] in Hc4.
  destruct Hm2 as (Hcy2 & Hsp2 & _). cbn in Hcy2, Hsp2, Hcy, Hsp.
  assert (sim_cycle m2 = sim_cycle (mach c) ∧ spec_mode m2 = spec_mode (mach c)) as [E1 E2] by (split; congruence).
  match goal with |- ∃ c', (if _ then Ok ?x else _) = _ ∧ _ => set (c5 := x) in * end.
  destruct (taken && _); [by exists c5|].
  destruct (IH (if taken then S branch_cnt else branch_cnt) idx' c5) as (c6 & -> & Hc6 & Hcy6 & Hsp6); [exact Hc4|by eapply rec_ok_idx|].
  exists c6. split; [done|]. split; [done|]. rewrite Hcy6, Hsp6. done.
Qed.

Lemma idx_ok_0 o : pred_ok o → idx_ok o 0.
Proof.
  intros Hp p ->. split; [done|]. intros Hne. pose proof (pred_rs_size p Hp). lia.
Qed.

Lemma ruu_fetch_good M A c : core_at cf fu (queue_ok cf) M A c →
  ∃ c', ruu_fetch cf c = Ok c' ∧ core_at cf fu (queue_ok cf) M A c' ∧ sim_cycle (mach c') = sim_cycle (mach c).
Proof.
  intros [(L & Hg & HL) [HA Hso]].
  destruct (fetch_loop_good L A (ruu_decode_width cf * fetch_speed cf) 0 0 c) as (c' & Hrun & (Hg' & HA' & Hso') & Hcy & Hsp);
    [by split|by apply idx_ok_0, Hso|].
  exists c'. split; [done|]. split; [|done]. split; [|done]. exists L. by rewrite Hsp.
Qed.
End Fetch.
