(* ===== verification/RuuRun.v ===== *)
(** * The state that the core starts in satisfies the invariant *)

From S2P Require Import Prelude Chains Misc Memory Bpred BpredInv Resource ResourceSpec Ruu RuuStages RuuSched RuuFront Pool RuuPool.
From S2P Require Import RuuInv RuuSched1 RuuGood RuuWriteback RuuSquash RuuRecover RuuUnits RuuCore RuuComplete RuuCommit RuuIssue RuuWire RuuEnter.
From S2P Require Import RuuResolve RuuFetch.

(** A pool of new links. *)
Lemma rslink_init_pool n w (q := rslink_init n) :
  (∀ p rs, station w p = Some rs → Forall (λ o, o = None) (odep_list rs)) →
  pool_of q w None None (λ _, []).
Proof.
  intros Ho. exists (λ r, match r with RFree => reverse (seq 0 n) | _ => [] end).
  assert (∀ m, (m ≤ n)%nat →
    chain (lnx (links q)) (match m with O => None | S j => Some j end) (reverse (seq 0 m))) as Hch.
  { induction m as [|m IH]; intros Hm; [done|]. rewrite seq_S, reverse_app. cbn. split; [done|].
    unfold lnx, q, rslink_init. cbn [links]. rewrite list_lookup_fmap, lookup_seq_lt by lia. cbn. apply IH. lia. }
  split.
  - intros [| | | |p k]; cbn; try done; [by apply Hch|]. rewrite decide_False by done. unfold odep_head.
    destruct (station w p) as [rs|] eqn:Hp; [|done]. specialize (Ho _ _ Hp).
    destruct (odep_list rs !! k) as [o|] eqn:Hk; [|done]. cbn. by eapply (Forall_lookup_1 _ _ _ _ Ho).
  - intros []; try apply NoDup_nil_2. rewrite (reverse_Permutation (seq 0 n)). apply NoDup_seq.
  - intros [] [] b; try done; by rewrite ?elem_of_nil.
  - intros [] b; rewrite ?elem_of_nil, ?elem_of_reverse, ?elem_of_seq; try done. unfold q, rslink_init. cbn.
    rewrite length_fmap, length_seq. lia.
  - intros [] Hr; done || constructor.
Qed.


(** Units that were just created are free. *)
Lemma created_units fu p : config_ok fu → res_create_pool fu = Ok p → units_ok fu p.
Proof.
  intros Hok Hrun. destruct (res_create_pool_spec fu Hok) as (p' & Hrun' & Hr & Hn & Hl).
  rewrite Hrun in Hrun'. injection Hrun' as <-.
  exists p, (replicate (length (expand fu)) 0). split; [done|]. split; [apply length_replicate|].
  destruct p as [n l ns tb]. cbn in Hr. unfold set_busy. f_equal. cbn. subst l. apply list_eq. intros i.
  rewrite lookup_zip_with. unfold instances. rewrite list_lookup_imap.
  destruct (expand fu !! i) as [d|] eqn:Hd; [|done]. cbn.
  rewrite lookup_replicate_2 by (by eapply lookup_lt_Some). done.
Qed.

Section Start.
Context {MS : Type} `{!Environment MS, !EnvSpec MS}.
Variable cf : config.
Variable fu : list res_desc.
Hypothesis Hrpos : (0 < RUU_size cf)%nat.
Hypothesis Hlpos : (0 < LSQ_size cf)%nat.
Hypothesis Hipos : (0 < ruu_ifq_size cf)%nat.

Lemma init_station p rs : station (window_init cf) p = Some rs → rs = empty_station.
Proof. destruct p; cbn; by intros [-> _]%lookup_replicate. Qed.

Lemma init_not_live p : ¬ live cf (window_init cf) p.
Proof. destruct p; cbn; by intros ?%elem_of_nil. Qed.

Lemma init_shape : shape cf (window_init cf).
Proof.
  split; cbn; try (by rewrite ?length_replicate); try lia; try done.
  - unfold slot. rewrite Nat.Div0.mod_0_l. done.
  - unfold slot. rewrite Nat.Div0.mod_0_l. done.
  - by intros p rs ->%init_station.
  - intros p rs ->%init_station. by repeat constructor.
Qed.

Lemma init_sched : sched cf (window_init cf) (λ _, []) [] [] None.
Proof.
  assert (∀ r, consumers (λ _, []) [] r = []) as Hc by (by intros []).
  split; try (by intros; set_solver); try (by intros; apply NoDup_nil_2); try (by intros p rs Hl; by apply init_not_live in Hl).
  - intros r a rs. rewrite Hc. by intros ?%elem_of_nil.
  - intros r. rewrite Hc. apply NoDup_nil_2.
  - intros r r' x. rewrite Hc. by intros ?%elem_of_nil.
Qed.

Lemma init_creator spec n : creator cv_init spec n = None.
Proof.
  unfold creator. destruct spec; cbn [cv_init use_spec_cv create_vector].
  - destruct (replicate MD_TOTAL_REGS false !! n) as [b|] eqn:Hb; [|done]. by apply lookup_replicate in Hb as [-> _].
  - destruct (replicate MD_TOTAL_REGS CVLINK_NULL !! n) as [b|] eqn:Hb; [|done]. by apply lookup_replicate in Hb as [-> _].
Qed.

Lemma init_good pool bp s entry (c := sim_load_prog cf pool bp s entry : core MS) :
  good cf (cvs c) c (λ _, []) [] [] None None None (0, 0).
Proof.
  split; cbn [c sim_load_prog win qs cvs].
  - apply init_shape.
  - apply rslink_init_pool. intros p rs ->%init_station. by repeat constructor.
  - apply init_sched.
  - split; [by repeat split|]. intros spec n p k. by rewrite init_creator.
  - intros p rs ->%init_station. cbn. split; [lia|done].
Qed.

Lemma init_core pool bp s entry (c := sim_load_prog cf pool bp s entry : core MS) :
  config_ok fu → res_create_pool fu = Ok pool → pred_ok bp → env_inv s → core_at cf fu (queue_ok cf) 0 (λ _, []) c.
Proof.
  intros Hok Hpool Hbp Hinv. split; [exists 0; split; [apply init_good|done]|]. split; [done|].
  split; cbn [c sim_load_prog win mach front pred fu_pool spec_mode].
  - by intros s' rs Hs%elem_of_nil.
  - intros i rs Hi. cbn in Hi. lia.
  - intros p rs Hl. by apply init_not_live in Hl.
  - by eapply created_units.
  - done.
  - split; [done|apply length_replicate|]. apply Forall_replicate. by apply idx_ok_0.
  - split; cbn; [done|lia| |lia]. unfold slot. by rewrite Nat.Div0.mod_0_l.
  - done.
  - done.
Qed.
End Start.

(** ** Cycles *)

Section Run.
Context {MS : Type} `{!Environment MS, !EnvSpec MS}.
Variable cf : config.
Variable fu : list res_desc.
Hypothesis fu_ok : config_ok fu.
Hypothesis fu_lat : ∀ d t, d ∈ fu → t ∈ active (templates d) → 1 ≤ rt_oplat t < 2 ^ 31.
Hypothesis env_ok : EnvOk fu.
Implicit Types c : core MS.

Abbreviation at_ := (core_at cf fu (queue_ok cf)).

(** The buffers fit together: every load or store has its station in the other buffer. *)
Lemma shape_nums w : shape cf w → (LSQ_num w ≤ RUU_num w)%nat.
Proof.
  intros Hs. pose proof (f_equal length (sh_sync _ _ Hs)) as Hl. rewrite !length_fmap in Hl.
  unfold linsts, lsq_slots in Hl. rewrite (insts_at_length (LSQ w)) in Hl by (apply Hs).
  rewrite <- Hl. etransitivity; [apply length_filter|]. unfold rinsts, ruu_slots.
  by rewrite (insts_at_length (RUU w)) by (apply Hs).
Qed.

Lemma sanity_ok c : shape cf (win c) → sanity cf c = Ok tt.
Proof.
  intros Hs. unfold sanity. pose proof (shape_nums _ Hs) as Hn. rewrite bool_decide_false by lia.
  rewrite bool_decide_false by (intros He; apply He; symmetry; apply (sh_rtail _ _ Hs)).
  by rewrite bool_decide_false by (intros He; apply He; symmetry; apply (sh_ltail _ _ Hs)).
Qed.

Lemma queue_recovered f : queue_ok cf f → queue_ok cf (after_recovery_front f).
Proof.
  intros [H1 _ _ _]. split; cbn; [lia|lia| |lia]. rewrite slot_0; lia.
Qed.

Lemma refresh_issue_good M A c : at_ M A c → cycle_ok c →
  wp (core_fault MS) (refresh_and_issue cf c) (λ c', ∃ A', at_ M A' c' ∧ sim_cycle (mach c') = sim_cycle (mach c)).
Proof.
  intros Hc Hcy. unfold refresh_and_issue. apply wp_bind.
  eapply wp_mono; [by eapply lsq_refresh_good|done|]. intros c1 (A1 & Hc1 & _ & Hm & _).
  eapply wp_mono; [eapply (ruu_issue_good cf fu (queue_ok cf) fu_ok fu_lat env_ok M A1 c1 Hc1)|done|].
  - unfold cycle_ok. by rewrite Hm.
  - intros c2 (A2 & Hc2 & H2). exists A2. split; [done|]. by rewrite H2, Hm.
Qed.

(** The invariant at a time. *)
Definition holds M cy c : Prop := (∃ A, at_ M A c) ∧ sim_cycle (mach c) = cy.

Lemma wp_stage {X} M cy (m : result (core MS)) (K : core MS → result X) Φ :
  wp (core_fault MS) m (holds M cy) → (∀ c, holds M cy c → wp (core_fault MS) (K c) Φ) → wp (core_fault MS) (m ≫= K) Φ.
Proof. intros Hm HK. apply wp_bind. by eapply wp_mono. Qed.

Lemma holds_issue M cy c (b : bool) : holds M cy c → 0 ≤ cy < 2 ^ 62 →
  wp (core_fault MS) (if b then Ok c else refresh_and_issue cf c) (holds M cy).
Proof.
  intros [[A Hc] Hcy] Hb. destruct b; [by split; [exists A|]|].
  eapply wp_mono; [eapply (refresh_issue_good M A c Hc); unfold cycle_ok; lia|done|].
  intros c' (A' & ? & ?). split; [by exists A'|lia].
Qed.

Lemma holds_front M cy c : holds M cy c → wp (core_fault MS)
  (if bool_decide (ruu_fetch_issue_delay (mach c) = 0) then ruu_fetch cf c
   else Ok (set_mach (set_delay (ruu_fetch_issue_delay (mach c) - 1) (mach c)) c)) (holds M cy).
Proof.
  intros [[A Hc] Hcy]. case_bool_decide.
  - destruct (ruu_fetch_good cf fu env_ok M A c Hc) as (c' & -> & Hc' & H'). split; [by exists A|congruence].
  - split; [|done]. exists A. destruct Hc as [(L & Hg & HL) [HA Hso]].
    split; [exists L; split; [by apply good_mach|done]|]. split; [done|]. apply side_mach; [|done].
    destruct (side_mach_le cf fu _ c Hso) as (H1 & H2 & H3 & H4 & H5 & H6). by split_and!.
Qed.

(** The counters and the clock are not part of the invariant. *)
Lemma holds_tick M cy c : holds M cy c → 0 ≤ cy < 2 ^ 62 →
  let c := occupancy cf c in holds M (cy + 1) (set_mach (set_cycle (i64 (sim_cycle (mach c) + 1)) (mach c)) c).
Proof.
  intros [[A Hc] Hcy] Hb. split.
  - exists A. destruct Hc as [(L & Hg & HL) [HA [S1 S2 S3 S4 S5 [F1 F2 F3] [] S8 S9]]].
    split; [exists L; split; [by destruct Hg|done]|]. split; [done|]. split; try done; by split.
  - cbn. rewrite Hcy. apply i64_small. lia.
Qed.

(** A cycle costs at most two tags: one for commit, one for a wrong path that starts. *)
Lemma sim_cycle_step_good M cy c : holds M cy c → 0 ≤ cy < 2 ^ 62 → M + 2 < 2 ^ 32 →
  wp (core_fault MS) (sim_cycle_step cf c) (λ '(_, c'), holds (M + 2) (cy + 1) c').
Proof.
  intros [[A Hc] Hcy] Hb HM. pose proof Hc as [(L & Hg & _) _]. unfold sim_cycle_step.
  rewrite (sanity_ok c (g_shape _ _ _ _ _ _ _ _ _ _ Hg)). cbn [mbind result_bind].
  destruct (ruu_commit_good cf fu (queue_ok cf) fu_ok fu_lat env_ok M A c Hc) as (c1 & k & -> & Hc1 & Hcy1 & _); [lia|].
  cbn [mbind result_bind].
  destruct (ruu_release_fu_good cf fu (queue_ok cf) (M + 1) A c1 Hc1) as (c2 & -> & Hc2 & Hcy2).
  cbn [mbind result_bind]. apply (wp_stage (M + 1) cy).
  { eapply wp_mono; [apply (ruu_writeback_good cf fu (queue_ok cf) queue_recovered env_ok (M + 1) c2 A); [lia|done]|apply links_fault|].
    intros c3 (A3 & Hc3 & Hcy3). split; [by exists A3|lia]. }
  intros c3 Hc3. apply (wp_stage (M + 1) cy); [by apply holds_issue|]. intros c4 [[A4 Hc4] Hcy4].
  apply (wp_stage (M + 2) cy).
  { eapply wp_mono; [by apply (ruu_dispatch_good cf fu (M + 1) A4 c4)|done|].
    intros c5 (A5 & Hc5 & Hcy5). replace (M + 1 + 1) with (M + 2) in Hc5 by lia. split; [by exists A5|lia]. }
  intros c5 Hc5. apply (wp_stage (M + 2) cy).
  { pose proof (holds_issue (M + 2) cy c5 (negb (bugcompat_mode cf)) Hc5 Hb). by destruct (bugcompat_mode cf). }
  intros c6 Hc6. apply (wp_stage (M + 2) cy); [by apply holds_front|]. intros c7 Hc7.
  cbn. by apply holds_tick.
Qed.

(** ** Runs *)

(** [n] cycles, whether or not the simulation ends with one of them. *)
Fixpoint cycles (n : nat) c : result (core MS) :=
  match n with
  | O => Ok c
  | S n => '(_, c) ← sim_cycle_step cf c; cycles n c
  end.

Lemma cycles_good n : ∀ M cy c, holds M cy c → 0 ≤ cy → cy + Z.of_nat n ≤ 2 ^ 62 → M + 2 * Z.of_nat n < 2 ^ 32 →
  wp (core_fault MS) (cycles n c) (holds (M + 2 * Z.of_nat n) (cy + Z.of_nat n)).
Proof.
  induction n as [|n IH]; intros M cy c Hc H0 Hcy HM; cbn [cycles].
  - cbn [wp]. replace (M + 2 * Z.of_nat 0) with M by lia. by replace (cy + Z.of_nat 0) with cy by lia.
  - apply wp_bind. eapply wp_mono; [eapply (sim_cycle_step_good M cy c Hc); lia|done|]. intros [o c'] Hc'.
    replace (M + 2 * Z.of_nat (S n)) with (M + 2 + 2 * Z.of_nat n) by lia.
    replace (cy + Z.of_nat (S n)) with (cy + 1 + Z.of_nat n) by lia. apply IH; [done|lia..].
Qed.

(** [sim_main] stops after some number of the cycles. *)
Lemma sim_main_cycles n : ∀ c, (∃ k c', (0 < k ≤ n)%nat ∧ cycles k c = Ok c' ∧ sim_main cf n c = Ok c') ∨
  (∃ c', cycles n c = Ok c' ∧ sim_main cf n c = Fault OutOfFuel) ∨
  (∃ f, cycles n c = Fault f ∧ sim_main cf n c = Fault f).
Proof.
  induction n as [|n IH]; intros c; cbn [cycles sim_main]; [by right; left; exists c|].
  destruct (sim_cycle_step cf c) as [[b c1]|f] eqn:Hs; cbn [mbind result_bind]; [|by right; right; exists f].
  destruct b.
  - left. exists 1%nat, c1. split; [lia|]. cbn [cycles]. rewrite Hs. done.
  - destruct (IH c1) as [(k & c' & H1 & H2 & H3)|[(c' & H1 & H2)|(f & H1 & H2)]].
    + left. exists (S k), c'. split; [lia|]. cbn [cycles]. rewrite Hs. done.
    + right; left. by exists c'.
    + right; right. by exists f.
Qed.
End Run.

(** ** Reachable states *)

Section Reach.
Context {MS : Type} `{!Environment MS, !EnvSpec MS}.
Variable cf : config.
Variable fu : list res_desc.

(** What a simulation is set up with. *)
Record setup : Prop := {
  su_env : EnvOk fu;
  su_fu : config_ok fu;
  su_lat d t : d ∈ fu → t ∈ active (templates d) → 1 ≤ rt_oplat t < 2 ^ 31;
  su_ruu : (0 < RUU_size cf)%nat;
  su_lsq : (0 < LSQ_size cf)%nat;
  su_ifq : (0 < ruu_ifq_size cf)%nat
}.

(** The states that [sim_load_prog] makes, with no predictor or a well-formed one. *)
Definition starts (c : core MS) : Prop :=
  ∃ pool bp s entry, res_create_pool fu = Ok pool ∧ pred_ok bp ∧ env_inv s ∧ c = sim_load_prog cf pool bp s entry.

(** The state after [n] cycles. *)
Definition reached (n : nat) (c : core MS) : Prop :=
  setup ∧ Z.of_nat n < 2 ^ 31 - 1 ∧ ∃ c0, starts c0 ∧ cycles cf n c0 = Ok c.

Lemma start_runs n c : setup → starts c → Z.of_nat n < 2 ^ 31 →
  wp (core_fault MS) (cycles cf n c) (holds cf fu (2 * Z.of_nat n) (Z.of_nat n)).
Proof.
  intros [] (pool & bp & s & entry & Hpool & Hbp & Hinv & ->) Hn.
  apply (cycles_good cf fu su_fu0 su_lat0 su_env0 n 0 0); try lia. split; [|done]. eexists.
  by apply (init_core cf fu su_ruu0 su_lsq0 su_ifq0).
Qed.

Lemma reached_core n c : reached n c → setup ∧ ∃ A, core_at cf fu (queue_ok cf) (2 * Z.of_nat n) A c ∧
  2 * Z.of_nat n + 1 < 2 ^ 32.
Proof.
  intros (Hsu & Hn & c0 & Hst & Hrun). split; [done|]. pose proof (start_runs n c0 Hsu Hst ltac:(lia)) as H.
  rewrite Hrun in H. destruct H as [[A Hc] _]. exists A. split; [done|lia].
Qed.
End Reach.

(** ** Safety *)

(** What holds of the core between cycles: the buffers are well formed and in step, there is
    one unresolved misprediction on the wrong path and none otherwise, and the fetch
    queue is well formed. *)
Definition sound {MS} `{!Environment MS} (cf : config) (c : core MS) : Prop :=
  shape cf (win c) ∧ (LSQ_num (win c) ≤ RUU_num (win c))%nat ∧
  spec_ok cf (win c) (spec_mode (mach c)) ∧ queue_ok cf (front c).

(** A run ends with the program, or in one of the ways that the core allows. *)
Lemma run_safe {MS} `{!Environment MS, !EnvSpec MS} (cf : config) (fu : list res_desc) (c : core MS) n :
  setup cf fu → starts cf fu c → Z.of_nat n < 2 ^ 31 →
  match sim_main cf n c with
  | Ok c' => sound cf c' ∧ 0 < sim_cycle (mach c') ≤ Z.of_nat n
  | Fault OutOfFuel => ∃ c', cycles cf n c = Ok c' ∧ sound cf c' ∧ sim_cycle (mach c') = Z.of_nat n
  | Fault f => f = Panic "out of rs links" ∨ core_fatal f ∨
      (env_late MS ∧ f = Panic "event occurred in the past")
  end.
Proof.
  intros Hsu Hst Hn.
  assert (∀ k, (k ≤ n)%nat → wp (core_fault MS) (cycles cf k c) (λ c', sound cf c' ∧ sim_cycle (mach c') = Z.of_nat k)) as Hrun.
  { intros k Hk. eapply wp_mono; [apply (start_runs cf fu k c Hsu Hst); lia|done|].
    intros c' [[A [(L & Hg & _) [_ Hso]]] Hcy]. split; [|done]. pose proof (g_shape _ _ _ _ _ _ _ _ _ _ Hg) as Hs.
    split; [done|]. split; [exact (shape_nums cf _ Hs)|]. split; [apply Hso|]. apply (so_queue _ _ _ _ Hso). }
  destruct (sim_main_cycles cf n c) as [(k & c' & Hk & Hc & ->)|[(c' & Hc & ->)|(f & Hc & ->)]].
  - specialize (Hrun k). rewrite Hc in Hrun. destruct Hrun as [H1 H2]; [lia|]. split; [done|lia].
  - specialize (Hrun n). rewrite Hc in Hrun. destruct Hrun as [H1 H2]; [lia|]. by exists c'.
  - specialize (Hrun n). rewrite Hc in Hrun. specialize (Hrun ltac:(lia)). cbn in Hrun.
    destruct f; try exact Hrun. destruct Hrun as [?|[[?|?]|[_ ?]]]; congruence.
Qed.

(** ** Program order *)

Section Order.
Context {MS : Type} `{!Environment MS, !EnvSpec MS}.
Variable cf : config.
Implicit Types c : core MS.

(** ** Retirement *)

Lemma retired_nth c c' i : shape cf (win c) → (0 < RUU_num (win c))%nat → retired cf c c' → (i < RUU_num (win c'))%nat →
  ruu_nth cf (win c') i = ruu_nth cf (win c) (S i).
Proof.
  intros Hs Hn (rs & Hr & Hc & Hsp & Eh & En & Hq) Hi. pose proof (live_nth cf (win c') i Hi) as Hl.
  destruct (Hq _ Hl) as [_ He]. unfold ruu_nth. cbn in He. rewrite Eh, slot_next in He |- *. exact He.
Qed.

Lemma retired_insts c c' : shape cf (win c) → (0 < RUU_num (win c))%nat → retired cf c c' →
  ∃ rs, ruu_nth cf (win c) 0 = Some rs ∧ rinsts cf (win c) = rs_inst_of rs :: rinsts cf (win c').
Proof.
  intros Hs Hn Hre. pose proof Hre as (rs & Hr & Hc & Hsp & Eh & En & Hq). exists rs. split; [done|].
  unfold ruu_nth in Hr. rewrite slot_0 in Hr by apply (sh_rhead _ _ Hs).
  rewrite (first_rinst cf (win c) rs Hs Hn Hr). f_equal. unfold rinsts, ruu_slots. rewrite Eh, En.
  apply insts_at_in. intros s Hsl. symmetry. apply (f_equal (fmap rs_inst_of)).
  apply (Hq (InRUU s)). unfold live, ruu_slots. by rewrite Eh, En.
Qed.

(** The instances that retire are the oldest ones, in program order. *)
Lemma retires_spec k c c' : retires cf k c c' → shape cf (win c) →
  ∃ l, length l = k ∧ rinsts cf (win c) = (rs_inst_of <$> l) ++ rinsts cf (win c') ∧
    (∀ i rs, l !! i = Some rs → ruu_nth cf (win c) i = Some rs ∧ completed rs = true ∧ rs_spec_mode (rs_inst_of rs) = false) ∧
    RUU_num (win c) = (k + RUU_num (win c'))%nat ∧
    ∀ q, live cf (win c') q → live cf (win c) q ∧ station (win c') q = station (win c) q.
Proof.
  induction 1 as [c|k c1 c2 c3 Hn Hs2 Hre Hk IH]; intros Hs; [by exists []|].
  destruct (retired_insts c1 c2 Hs Hn Hre) as (rs & Hr & HR). pose proof Hre as (rs' & Hr' & Hc & Hsp & Eh & En & Hq).
  rewrite Hr in Hr'. injection Hr' as <-. destruct (IH Hs2) as (l & Hl & HR2 & Hall & Hnum & Hq2).
  exists (rs :: l). split; [cbn; by rewrite Hl|]. split; [by rewrite HR, HR2|]. split; [|split; [lia|]].
  - intros [|i] rs0; cbn; [by intros [= <-]|]. intros Hi. destruct (Hall i rs0 Hi) as [Hi2 ?]. split; [|done].
    rewrite <- (retired_nth c1 c2 i Hs Hn Hre); [done|]. apply lookup_lt_Some in Hi. lia.
  - intros q Hl3. destruct (Hq2 q Hl3) as [Hl2 ->]. by apply Hq.
Qed.

(** ** Recovery *)

Lemma slots_plus size h a b : slots size h (a + b) = slots size h a ++ (slot size h <$> seq a b).
Proof. unfold slots. by rewrite seq_app, fmap_app. Qed.

Lemma insts_prefix l l' size h n m : (m ≤ n)%nat → (∀ s, s ∈ slots size h m → l' !! s = l !! s) →
  insts_at l (slots size h n) = insts_at l' (slots size h m) ++ insts_at l (slot size h <$> seq m (n - m)).
Proof.
  intros Hm Hl. replace n with (m + (n - m))%nat at 1 by lia. rewrite slots_plus, insts_at_app. f_equal.
  apply insts_at_in. intros s Hs. by rewrite Hl.
Qed.

(** What is younger than the branch leaves both buffers, nothing else. *)
Lemma recovered_insts w w' j : shape cf w → shape cf w' → (j < RUU_num w)%nat →
  RUU_num w' = S j → RUU_head w' = RUU_head w → LSQ_head w' = LSQ_head w →
  (∀ q, live cf w' q → station w' q = station w q) →
  (∀ i rs, (i < RUU_num w)%nat → ruu_nth cf w i = Some rs → rs_spec_mode (rs_inst_of rs) = bool_decide (j < i)%nat) →
  ∃ l m, rinsts cf w = rinsts cf w' ++ l ∧ linsts cf w = linsts cf w' ++ m ∧
    Forall (λ i, rs_spec_mode i = true) l ∧ Forall (λ i, rs_spec_mode i = true) m ∧
    Forall (λ i, rs_spec_mode i = false) (rinsts cf w') ∧ Forall (λ i, rs_spec_mode i = false) (linsts cf w').
Proof.
  intros Hs Hs' Hj En Eh Elh Hq Hsp.
  assert (∃ l, rinsts cf w = rinsts cf w' ++ l ∧ Forall (λ i, rs_spec_mode i = true) l) as (l & Hl & Hls).
  { eexists. split.
    - unfold rinsts, ruu_slots. rewrite Eh, En. apply insts_prefix; [lia|]. intros s Hin. apply (Hq (InRUU s)).
      unfold live, ruu_slots. by rewrite Eh, En.
    - apply Forall_forall. intros i Hi. unfold insts_at in Hi. apply list_elem_of_omap in Hi as (s & (k & -> & Hk)%list_elem_of_fmap & Hi).
      apply elem_of_seq in Hk. destruct (RUU w !! _) as [rs|] eqn:Hrs; [|done]. injection Hi as <-.
      rewrite (Hsp k rs); [by apply bool_decide_eq_true_2; lia|lia|done]. }
  assert (Forall (λ i, rs_spec_mode i = false) (rinsts cf w')) as Hr'.
  { apply Forall_forall. intros i Hi. unfold rinsts, insts_at in Hi. apply list_elem_of_omap in Hi as (s & Hin & Hi).
    destruct (RUU w' !! s) as [rs|] eqn:Hrs; [|done]. injection Hi as <-. pose proof Hin as (k & Hk & ->)%elem_of_slots.
    rewrite (Hsp k rs); [apply bool_decide_eq_false_2; lia|lia|]. unfold ruu_nth. rewrite <- Eh, <- Hrs. symmetry.
    by apply (Hq (InRUU _)). }
  pose proof (sh_sync _ _ Hs) as Hy. pose proof (sh_sync _ _ Hs') as Hy'. rewrite Hl, filter_app, fmap_app, Hy' in Hy.
  assert (LSQ_num w' ≤ LSQ_num w)%nat as Hle.
  { pose proof (f_equal length Hy) as Hlen. rewrite length_app, !length_fmap in Hlen. unfold linsts, lsq_slots in Hlen.
    rewrite !insts_at_length in Hlen by (apply Hs || apply Hs'). lia. }
  assert (∃ m, linsts cf w = linsts cf w' ++ m) as [m Hm].
  { eexists. unfold linsts, lsq_slots. rewrite Elh. apply insts_prefix; [done|]. intros s Hin. apply (Hq (InLSQ s)).
    unfold live, lsq_slots. by rewrite Elh. }
  rewrite Hm, fmap_app in Hy. apply app_inv_head in Hy. exists l, m. do 3 (split; [done|]). split; [|split; [done|]].
  - change (Forall ((λ b, b = true) ∘ rs_spec_mode) m). rewrite <- Forall_fmap, <- Hy, Forall_fmap.
    apply Forall_forall. intros i [_ Hi]%list_elem_of_filter. rewrite Forall_forall in Hls. by apply Hls.
  - change (Forall ((λ b, b = false) ∘ rs_spec_mode) (linsts cf w')). rewrite <- Forall_fmap, <- Hy', Forall_fmap.
    apply Forall_forall. intros i [_ Hi]%list_elem_of_filter. rewrite Forall_forall in Hr'. by apply Hr'.
Qed.
End Order.
