(* ===== verification/RuuPath.v ===== *)
(** * The core and the functional simulation: what the stages leave alone

    The architected state is what the correct path has computed so far.  Commit, write-back
    without a recovery, issue and the tables of dispatch change neither that state nor the
    fetch queue. *)

From S2P Require Import Prelude Misc Memory Bpred Resource Ruu RuuStages RuuSched RuuFront RuuInv RuuPool.

(** States of the machine that agree on registers and memory of the program, the states
    that are well formed on and off a wrong path, and the instructions that are valid.  Accesses of the caches, recovery and the
    wrong path keep registers and memory; the correct path depends on nothing else. *)
Class EnvArch (MS : Type) `{!Environment MS} := {
  arch_eq : relation MS;
  arch_inv : bool → MS → Prop;
  ar_valid : Z → Prop;
  arch_equiv :: Equivalence arch_eq;
  ar_wrong s : arch_inv false s → arch_inv true s;
  ar_dl1 b cmd a n t s o s' : arch_inv b s → dl1_access cmd a n t s = Ok (o, s') → arch_eq s s' ∧ arch_inv b s';
  ar_dtlb b cmd a n t s o s' : arch_inv b s → dtlb_access cmd a n t s = Ok (o, s') → arch_eq s s' ∧ arch_inv b s';
  ar_il1 b cmd a n t s o s' : arch_inv b s → il1_access cmd a n t s = Ok (o, s') → arch_eq s s' ∧ arch_inv b s';
  ar_itlb b cmd a n t s o s' : arch_inv b s → itlb_access cmd a n t s = Ok (o, s') → arch_eq s s' ∧ arch_inv b s';
  ar_reset s s' : arch_inv true s → reset_spec_state s = Ok s' → arch_eq s s' ∧ arch_inv false s';
  ar_spec i pc s x s' : ar_valid i → arch_inv true s → md_exec true (MD_SET_OPCODE i) i pc s = Ok (x, s') →
    arch_eq s s' ∧ arch_inv true s';
  ar_exec i pc s1 s2 x s1' : ar_valid i → arch_inv false s1 → arch_inv false s2 → arch_eq s1 s2 →
    md_exec false (MD_SET_OPCODE i) i pc s1 = Ok (x, s1') →
    ∃ s2', md_exec false (MD_SET_OPCODE i) i pc s2 = Ok (x, s2') ∧ arch_eq s1' s2' ∧ arch_inv false s1' ∧ arch_inv false s2';
  ar_nop : ar_valid MD_NOP_INST;
  ar_fetch pc s1 s2 : arch_eq s1 s2 → in_text pc = true → MD_FETCH_INST pc s1 = MD_FETCH_INST pc s2
}.

(** Partial correctness: what holds if a computation returns. *)
Abbreviation returns := (wp (λ _, True)).

Lemma returns_any {X} (m : result X) (Φ : X → Prop) : (∀ x, Φ x) → returns m Φ.
Proof. intros H. destruct m; cbn; [apply H|done]. Qed.

Lemma returns_Ok {X} (x : X) (Φ : X → Prop) : Φ x → returns (Ok x) Φ.
Proof. done. Qed.

Lemma returns_bind {X Y} (m : result X) (k : X → result Y) Φ Ψ :
  returns m Ψ → (∀ x, Ψ x → returns (k x) Φ) → returns (m ≫= k) Φ.
Proof. intros Hm Hk. apply wp_bind. eapply wp_mono; [exact Hm|done|exact Hk]. Qed.

Lemma returns_elim {X} (m : result X) Φ x : returns m Φ → m = Ok x → Φ x.
Proof. by intros H ->. Qed.

Lemma returns_eq {X} (m : result X) (Φ : X → Prop) : (∀ x, m = Ok x → Φ x) → returns m Φ.
Proof. intros H. destruct m; cbn; [by apply H|done]. Qed.

Section Path.
Context {MS : Type} `{!Environment MS, !EnvArch MS}.
Variable cf : config.
Implicit Types c : core MS.

(** What the correct path is known by: the mode, the state of the program, the fetch queue and
    the addresses to go on from. *)
Definition fetch_state (f : front_end) :=
  (fetch_data f, fetch_head f, fetch_tail f, fetch_num f, fetch_pred_PC f, recover_PC f, pred_PC f,
   counters f sim_num_insn).

Definition kept c c' : Prop :=
  spec_mode (mach c') = spec_mode (mach c) ∧
  (arch_inv (spec_mode (mach c)) (ports (mach c)) →
     arch_eq (ports (mach c)) (ports (mach c')) ∧ arch_inv (spec_mode (mach c)) (ports (mach c'))) ∧
  fetch_state (front c') = fetch_state (front c).

#[global] Instance kept_preorder : PreOrder kept.
Proof.
  split; [by intros c; split|]. intros c1 c2 c3 (E1 & A1 & F1) (E2 & A2 & F2).
  split; [congruence|]. split; [|congruence]. intros H. destruct (A1 H) as [H1 H2]. rewrite E1 in A2.
  destruct (A2 H2). split; [by etrans|done].
Qed.

(** A core that a computation returns, alone or with something else. *)
Class CoreIn (X : Type) := core_in : core MS → X → Prop.
#[local] Instance core_in_core : CoreIn (core MS) := kept.
#[local] Instance core_in_pair {A X} `{!CoreIn X} : CoreIn (A * X) := λ c x, core_in c x.2.
#[local] Instance core_in_option {X} `{!CoreIn X} : CoreIn (option X) := λ c o,
  match o with Some x => core_in c x | None => True end.

(** [m] returns a core that agrees with [c0] on the correct path. *)
Abbreviation keeps c0 m := (returns m (core_in c0)).

Create HintDb kept.

Ltac kept_intro :=
  let x := fresh "x" in let H := fresh "K" in intros x H;
  repeat match type of x with
         | (_ * _)%type => let y := fresh "y" in destruct x as [y x]
         end;
  unfold core_in, core_in_core, core_in_pair, core_in_option in H; unfold core_in in H; cbn [snd] in H.
Ltac kept_step :=
  match goal with
  | |- wp _ (Fault _) _ => exact I
  | |- wp _ (Ok _) _ => apply returns_Ok; cbv beta
  | |- wp _ (_ ≫= _) _ => apply wp_bind
  | |- wp _ (if ?b then _ else _) _ => destruct b
  | |- wp _ (match ?x with _ => _ end) _ => destruct x
  | |- core_in _ _ => unfold core_in, core_in_core, core_in_pair, core_in_option; unfold core_in; cbn [snd]; first [assumption|done|solve [eauto 3 with kept]]
  | |- wp _ _ _ =>
      first [ solve [eauto 3 with kept]
            | eapply wp_mono; [solve [eauto 3 with kept]|done|kept_intro; cbv beta]
            | apply returns_any; intros; cbv beta ]
  end.
Ltac kept_auto := cbv zeta; repeat (kept_step; cbv zeta).

(** ** Stations and queues *)

Lemma upd_station_kept c0 c p f : kept c0 c → keeps c0 (upd_station c p f).
Proof. intros H. unfold upd_station. kept_auto. Qed.
#[local] Hint Resolve upd_station_kept : kept.

Lemma readyq_enqueue_kept c0 c p : kept c0 c → keeps c0 (readyq_enqueue c p).
Proof. intros H. unfold readyq_enqueue. kept_auto. Qed.
#[local] Hint Resolve readyq_enqueue_kept : kept.

Lemma queue_event_kept c0 c p t : kept c0 c → keeps c0 (eventq_queue_event c p t).
Proof. intros H. unfold eventq_queue_event. kept_auto. Qed.
#[local] Hint Resolve queue_event_kept : kept.

Lemma next_event_kept c0 c : kept c0 c → keeps c0 (eventq_next_event c).
Proof.
  unfold eventq_next_event. generalize (length (links (qs c))). intros fuel. revert c.
  induction fuel as [|fuel IH]; intros c H; cbn [eventq_next_loop]; kept_auto; by apply IH.
Qed.
#[local] Hint Resolve next_event_kept : kept.

(** ** The machine *)

Lemma access_with_kept c0 c f cmd a n :
  (∀ b t s o s', arch_inv b s → f cmd a n t s = Ok (o, s') → arch_eq s s' ∧ arch_inv b s') →
  kept c0 c → keeps c0 (access_with f cmd a n c).
Proof.
  intros Hf H. unfold access_with. destruct (f _ _ _ _ _) as [[o s']|] eqn:He; [|done].
  destruct H as (E & A & F). split; [done|]. split; [|done]. intros Hi. destruct (A Hi) as [H1 H2].
  destruct (Hf _ _ _ _ _ H2 He). split; [by etrans|done].
Qed.

Lemma dl1_kept c0 c cmd a n : kept c0 c → keeps c0 (access_with dl1_access cmd a n c).
Proof. apply access_with_kept. intros b t s o s'. apply ar_dl1. Qed.
Lemma dtlb_kept c0 c cmd a n : kept c0 c → keeps c0 (access_with dtlb_access cmd a n c).
Proof. apply access_with_kept. intros b t s o s'. apply ar_dtlb. Qed.
Lemma il1_kept c0 c cmd a n : kept c0 c → keeps c0 (access_with il1_access cmd a n c).
Proof. apply access_with_kept. intros b t s o s'. apply ar_il1. Qed.
Lemma itlb_kept c0 c cmd a n : kept c0 c → keeps c0 (access_with itlb_access cmd a n c).
Proof. apply access_with_kept. intros b t s o s'. apply ar_itlb. Qed.
#[local] Hint Resolve dl1_kept dtlb_kept il1_kept itlb_kept : kept.

Lemma reserve_unit_kept c0 c op : kept c0 c → keeps c0 (reserve_unit op c).
Proof. intros H. unfold reserve_unit. kept_auto. Qed.
#[local] Hint Resolve reserve_unit_kept : kept.

Lemma train_pred_kept c0 c w rs : kept c0 c → keeps c0 (train_pred cf w rs c).
Proof. intros H. unfold train_pred. kept_auto. Qed.
#[local] Hint Resolve train_pred_kept : kept.

Lemma release_fu_kept c0 c : kept c0 c → keeps c0 (ruu_release_fu c).
Proof. intros H. unfold ruu_release_fu. kept_auto. Qed.

(** ** Commit *)

Lemma commit_store_kept c0 c ls : kept c0 c → keeps c0 (commit_store ls c).
Proof. intros H. unfold commit_store. kept_auto. Qed.
#[local] Hint Resolve commit_store_kept : kept.

Lemma commit_LSQ_kept c0 c : kept c0 c → keeps c0 (commit_LSQ cf c).
Proof. intros H. unfold commit_LSQ. kept_auto. Qed.
#[local] Hint Resolve commit_LSQ_kept : kept.

Lemma commit_one_kept c0 c : kept c0 c → keeps c0 (commit_one cf c).
Proof. intros H. unfold commit_one. kept_auto. Qed.
#[local] Hint Resolve commit_one_kept : kept.

Lemma ruu_commit_kept c0 c : kept c0 c → keeps c0 (ruu_commit cf c).
Proof.
  unfold ruu_commit. generalize (ruu_commit_width cf). intros n. revert c.
  induction n as [|n IH]; intros c H; cbn [commit_loop]; kept_auto; by apply IH.
Qed.

(** ** Squashing *)

Lemma free_odeps_kept ks p : ∀ c0 c, kept c0 c → keeps c0 (free_odeps ks p c).
Proof. induction ks as [|k ks IH]; intros c0 c H; cbn [free_odeps]; kept_auto; by apply IH. Qed.
#[local] Hint Resolve free_odeps_kept : kept.

Lemma squash_kept c0 c p : kept c0 c → keeps c0 (squash p c).
Proof. intros H. unfold squash. kept_auto. Qed.
#[local] Hint Resolve squash_kept : kept.

Lemma recover_loop_kept b fuel : ∀ c0 c ri li rt lt, kept c0 c → keeps c0 (recover_loop cf fuel b ri li rt lt c).
Proof.
  induction fuel as [|fuel IH]; intros c0 c ri li rt lt H; cbn [recover_loop]; kept_auto; by apply IH.
Qed.
#[local] Hint Resolve recover_loop_kept : kept.

Lemma ruu_recover_kept c0 c b : kept c0 c → keeps c0 (ruu_recover cf b c).
Proof. intros H. unfold ruu_recover. kept_auto. Qed.
#[local] Hint Resolve ruu_recover_kept : kept.

(** ** Broadcast *)

Lemma wake_kept c0 c p n : kept c0 c → keeps c0 (wake p n c).
Proof. intros H. unfold wake. kept_auto. Qed.
#[local] Hint Resolve wake_kept : kept.

Lemma wake_links_kept fuel : ∀ c0 c o, kept c0 c → keeps c0 (wake_links fuel o c).
Proof. induction fuel as [|fuel IH]; intros c0 c o H; destruct o; cbn [wake_links]; kept_auto; by apply IH. Qed.
#[local] Hint Resolve wake_links_kept : kept.

Lemma broadcast_output_kept c0 c p i : kept c0 c → keeps c0 (broadcast_output p i c).
Proof. intros H. unfold broadcast_output. kept_auto. Qed.
#[local] Hint Resolve broadcast_output_kept : kept.

Lemma broadcast_kept l p : ∀ c0 c, kept c0 c → keeps c0 (broadcast l p c).
Proof. induction l as [|i l IH]; intros c0 c H; cbn [broadcast]; kept_auto; by apply IH. Qed.
#[local] Hint Resolve broadcast_kept : kept.

(** ** Issue *)

Lemma lsq_refresh_kept c0 c : kept c0 c → keeps c0 (lsq_refresh cf c).
Proof.
  unfold lsq_refresh. generalize (LSQ_num (win c)) (LSQ_head (win c)) (@nil Z). intros n. revert c.
  induction n as [|n IH]; intros c h l H; cbn [refresh_loop]; kept_auto; by apply IH.
Qed.
#[local] Hint Resolve lsq_refresh_kept : kept.

Lemma count_invalid_kept c0 c (b : bool) : kept c0 c → kept c0 (if b then set_mach (count_invalid_addr (mach c)) c else c).
Proof. by destruct b. Qed.
#[local] Hint Resolve count_invalid_kept : kept.

Lemma load_latency_kept c0 c i a l : kept c0 c → keeps c0 (load_latency cf i a l c).
Proof. intros H. unfold load_latency. kept_auto. Qed.
#[local] Hint Resolve load_latency_kept : kept.

Lemma issue_store_kept c0 c p rs : kept c0 c → keeps c0 (issue_store p rs c).
Proof. intros H. unfold issue_store. kept_auto. Qed.
#[local] Hint Resolve issue_store_kept : kept.

Lemma issue_to_unit_kept c0 c p rs l : kept c0 c → keeps c0 (issue_to_unit cf p rs l c).
Proof. intros H. unfold issue_to_unit. kept_auto. Qed.
#[local] Hint Resolve issue_to_unit_kept : kept.

Lemma issue_one_kept c0 c p : kept c0 c → keeps c0 (issue_one cf p c).
Proof. intros H. unfold issue_one. kept_auto. Qed.
#[local] Hint Resolve issue_one_kept : kept.

Lemma requeue_loop_kept fuel : ∀ c0 c o, kept c0 c → keeps c0 (requeue_loop fuel o c).
Proof. induction fuel as [|fuel IH]; intros c0 c o H; destruct o; cbn [requeue_loop]; kept_auto; by apply IH. Qed.
#[local] Hint Resolve requeue_loop_kept : kept.

Lemma issue_loop_kept fuel : ∀ c0 c n o, kept c0 c → keeps c0 (issue_loop cf fuel n o c).
Proof.
  induction fuel as [|fuel IH]; intros c0 c n o H; destruct o, n; cbn [issue_loop]; kept_auto; by apply IH.
Qed.
#[local] Hint Resolve issue_loop_kept : kept.

Lemma refresh_and_issue_kept c0 c : kept c0 c → keeps c0 (refresh_and_issue cf c).
Proof. intros H. unfold refresh_and_issue, ruu_issue. kept_auto. Qed.

(** ** Dependences *)

Lemma link_idep_kept c0 c p k n : kept c0 c → keeps c0 (ruu_link_idep p k n c).
Proof. intros H. unfold ruu_link_idep. kept_auto. Qed.
Lemma install_odep_kept c0 c p k n : kept c0 c → keeps c0 (ruu_install_odep p k n c).
Proof. intros H. unfold ruu_install_odep. kept_auto. Qed.
#[local] Hint Resolve link_idep_kept install_odep_kept : kept.

Lemma dispatch_mem_kept c0 c r x : kept c0 c → keeps c0 (dispatch_mem cf r x c).
Proof. intros H. unfold dispatch_mem. kept_auto. Qed.
Lemma dispatch_op_kept c0 c r x : kept c0 c → keeps c0 (dispatch_op cf r x c).
Proof. intros H. unfold dispatch_op. kept_auto. Qed.
End Path.
