(* ===== verification/RuuTransparent.v ===== *)
(** * The core and the functional simulation: the correct path

    The instructions that the core executes outside of wrong paths are those of the functional
    simulation, in its order, whatever is fetched, predicted and squashed in between. *)

From S2P Require Import Prelude Misc Memory Bpred Resource Ruu RuuStages RuuSched RuuFront RuuPool RuuInv RuuCore RuuRun RuuPath.

#[export] Instance md_opcode_eq_dec : EqDecision md_opcode.
Proof. solve_decision. Defined.

(** ** The functional simulation *)

Section Functional.
Context {MS : Type} `{!Environment MS, !EnvArch MS}.

(** [n] iterations of the fast forward loop of [sim_main]. *)
Fixpoint fast_forward (n : nat) (pc : Z) (s : MS) : result (Z * MS) :=
  match n with
  | O => Ok (pc, s)
  | S n =>
      let inst := MD_FETCH_INST pc s in
      let op := MD_SET_OPCODE inst in
      '(x, s) ← md_exec false op inst pc s;
      if bool_decide (x_op x ≠ op) then Fault (Panic "attempted to execute a bogus opcode") else
      if bool_decide (x_fault x ≠ md_fault_none) then Fault (Fatal "fault detected") else
      fast_forward n (x_NPC x) s
  end.

Lemma fast_forward_snoc n : ∀ pc s pc1 s1, fast_forward n pc s = Ok (pc1, s1) →
  fast_forward (S n) pc s = fast_forward 1 pc1 s1.
Proof.
  induction n as [|n IH]; intros pc s pc1 s1; [by intros [= <- <-]|]. intros H.
  change (fast_forward (S n) pc s) with ('(x, s') ← md_exec false (MD_SET_OPCODE (MD_FETCH_INST pc s)) (MD_FETCH_INST pc s) pc s;
    if bool_decide (x_op x ≠ MD_SET_OPCODE (MD_FETCH_INST pc s)) then Fault (Panic "attempted to execute a bogus opcode") else
    if bool_decide (x_fault x ≠ md_fault_none) then Fault (Fatal "fault detected") else fast_forward n (x_NPC x) s') in H.
  change (fast_forward (S (S n)) pc s) with ('(x, s') ← md_exec false (MD_SET_OPCODE (MD_FETCH_INST pc s)) (MD_FETCH_INST pc s) pc s;
    if bool_decide (x_op x ≠ MD_SET_OPCODE (MD_FETCH_INST pc s)) then Fault (Panic "attempted to execute a bogus opcode") else
    if bool_decide (x_fault x ≠ md_fault_none) then Fault (Fatal "fault detected") else fast_forward (S n) (x_NPC x) s').
  destruct (md_exec _ _ _ _ _) as [[x s']|]; [|done]. cbn [mbind result_bind] in *.
  destruct (bool_decide _); [done|]. destruct (bool_decide _); [done|]. by apply IH.
Qed.

(** The program stays in its text, does not write it, and has no bogus instruction; its text
    is made of valid instructions. *)
Definition proper_program (entry : Z) (s0 : MS) : Prop := ∀ j pc s, fast_forward j entry s0 = Ok (pc, s) →
  (in_text pc = true ∧ ∀ pc', in_text pc' = true → ar_valid (MD_FETCH_INST pc' s)) ∧
  ∀ x s', md_exec false (MD_SET_OPCODE (MD_FETCH_INST pc s)) (MD_FETCH_INST pc s) pc s = Ok (x, s') → x_fault x = md_fault_none →
    x_op x = MD_SET_OPCODE (MD_FETCH_INST pc s) ∧
    ∀ pc', in_text pc' = true → MD_FETCH_INST pc' s' = MD_FETCH_INST pc' s.
End Functional.

Section Transparent.
Context {MS : Type} `{!Environment MS, !EnvArch MS}.
Variable cf : config.
Hypothesis ifq_pos : (0 < ruu_ifq_size cf)%nat.
Variables (entry : Z) (s0 : MS).
Implicit Types c : core MS.

Hypothesis in_program : proper_program entry s0.

(** ** The fetch queue *)

(** What is in the queue, oldest first. *)
Record queued_as (f : front_end) (l : list fetch_rec) : Prop := {
  qa_num : length l = fetch_num f;
  qa_head : (fetch_head f < ruu_ifq_size cf)%nat;
  qa_size : (fetch_num f ≤ ruu_ifq_size cf)%nat;
  qa_tail : fetch_tail f = slot (ruu_ifq_size cf) (fetch_head f) (fetch_num f);
  qa_at i r : l !! i = Some r → fetch_data f !! slot (ruu_ifq_size cf) (fetch_head f) i = Some r
}.

(** Every entry was fetched where its predecessor was predicted to lead. *)
Fixpoint chain (s : MS) (pc : Z) (l : list fetch_rec) (last : Z) : Prop :=
  match l with
  | [] => last = pc
  | r :: l => f_regs_PC r = pc ∧ (in_text pc = true → f_IR r = MD_FETCH_INST pc s) ∧ chain s (f_pred_PC r) l last
  end.

Lemma chain_text s s' l : (∀ pc, in_text pc = true → MD_FETCH_INST pc s' = MD_FETCH_INST pc s) →
  ∀ pc last, chain s pc l last → chain s' pc l last.
Proof.
  intros He. induction l as [|r l IH]; intros pc last; [done|]. intros (H1 & H2 & H3). split; [done|].
  split; [intros Ht; rewrite He by done; by apply H2|by apply IH].
Qed.

Lemma chain_snoc s l r : ∀ pc last, chain s pc l last → f_regs_PC r = last →
  (in_text last = true → f_IR r = MD_FETCH_INST last s) → chain s pc (l ++ [r]) (f_pred_PC r).
Proof.
  induction l as [|q l IH]; intros pc last; cbn [chain app].
  - intros -> ? ?. by split_and!.
  - intros (H1 & H2 & H3) ? ?. split_and!; [done..|by eapply IH].
Qed.

(** Every entry is valid. *)
Definition valid_queue (l : list fetch_rec) : Prop := Forall (λ r, ar_valid (f_IR r)) l.

(** ** On the correct path *)

(** The functional simulation has executed as many instructions as the core outside of wrong
    paths, with the same effect, and its next address is where the core goes on: after
    recovery, or with the first entry of the queue. *)
Record path (k : nat) (pc : Z) (s : MS) c : Prop := {
  pa_ff : fast_forward k entry s0 = Ok (pc, s);
  pa_inv : arch_inv false s;
  pa_arch : arch_eq s (ports (mach c));
  pa_ports : arch_inv (spec_mode (mach c)) (ports (mach c));
  pa_num : counters (front c) sim_num_insn = i64 (Z.of_nat k);
  pa_next : ∃ l, queued_as (front c) l ∧ valid_queue l ∧
            if spec_mode (mach c) then recover_PC (front c) = pc else chain s pc l (fetch_pred_PC (front c))
}.

Definition on_path c : Prop := ∃ k pc s, path k pc s c.

Lemma path_kept k pc s c c' : kept c c' → path k pc s c → path k pc s c'.
Proof.
  intros (E & A & F) [H1 H0 H2 Hi H3 H4]. unfold fetch_state in F. injection F as F1 F2 F3 F4 F5 F6 F7 F8.
  destruct (A Hi) as [A1 A2]. split; [done|done|by etrans|by rewrite E|congruence|]. rewrite E, F5, F6.
  destruct H4 as (l & [Q1 Q2 Q3 Q4 Q5] & Hc). exists l. split; [|done]. split; rewrite ?F1, ?F2, ?F3, ?F4; done.
Qed.

Lemma on_path_kept c c' : kept c c' → on_path c → on_path c'.
Proof. intros Hk (k & pc & s & H). exists k, pc, s. by eapply path_kept. Qed.

Lemma kept_arch c c' : on_path c → kept c c' → arch_eq (ports (mach c)) (ports (mach c')).
Proof. intros (k & pc & s & H) (_ & A & _). apply A, H. Qed.

(** A stage that leaves the correct path alone. *)
Lemma stage_kept c m : (∀ c0, kept c0 c → returns m (kept c0)) → on_path c → returns m on_path.
Proof.
  intros Hm Hc. eapply wp_mono; [apply (Hm c); done|done|]. intros c' Hk. by eapply on_path_kept.
Qed.

(** ** Recovery *)

(** A recovery goes on where the correct path left off. *)
Lemma tracer_recover_path c : on_path c → returns (tracer_recover c) on_path.
Proof.
  intros (k & pc & s & [H1 H0 H2 Hi H3 H4]). unfold tracer_recover. destruct (spec_mode (mach c)); [|done]. cbn [negb].
  destruct (reset_spec_state _) as [s'|] eqn:Hr; [|done]. destruct (ar_reset _ _ Hi Hr) as [A1 A2]. cbn. exists k, pc, s.
  destruct H4 as (_ & _ & _ & H4).
  split; [done|done|cbn; by etrans|done|done|].
  - cbn. exists []. split; [|by split; [constructor|]]. split; cbn; [done|lia|lia|by rewrite slot_0|done].
Qed.

Lemma recover_branch_path c p rs : on_path c → returns (recover_branch cf p rs c) on_path.
Proof.
  intros Hc. unfold recover_branch. destruct p as [i|i]; [|done]. destruct (in_LSQ _); [done|].
  eapply returns_bind; [eapply stage_kept; [intros c0; apply ruu_recover_kept|exact Hc]|]. intros c1 H1.
  eapply returns_bind; [by apply tracer_recover_path|]. intros c2 H2. cbn. eapply on_path_kept; [|exact H2]. by split.
Qed.

Lemma writeback_one_path c p : on_path c → returns (writeback_one cf p c) on_path.
Proof.
  intros Hc. unfold writeback_one. apply wp_bind, returns_any. intros rs. destruct (_ || _ || _ || _); [done|].
  eapply returns_bind; [eapply stage_kept; [intros c0; apply upd_station_kept|exact Hc]|]. intros c1 H1.
  eapply returns_bind; [destruct (recover_inst rs); [by apply recover_branch_path|exact H1]|]. intros c2 H2.
  eapply returns_bind.
  { destruct (in_LSQ _); [exact H2|]. eapply stage_kept; [intros c0; apply train_pred_kept|exact H2]. }
  intros c3 H3. eapply stage_kept; [intros c0; apply broadcast_kept|exact H3].
Qed.

Lemma ruu_writeback_path c : on_path c → returns (ruu_writeback cf c) on_path.
Proof.
  unfold ruu_writeback. generalize (length (links (qs c))). intros fuel. revert c.
  induction fuel as [|fuel IH]; intros c Hc; cbn [writeback_loop].
  all: eapply returns_bind; [eapply (wp_mono _ _ _ _ (λ x, on_path x.2)); [apply next_event_kept; reflexivity|done|intros x Hx; by eapply on_path_kept]|].
  all: intros [[p|] c1] H1; cbn [snd] in H1; [|done]; try done.
  eapply returns_bind; [by apply writeback_one_path|]. intros c2 H2. by apply IH.
Qed.

(** ** Fetch *)

Lemma slot_last size h n : slot size h (n + 1) = ((h + n + 1) mod size)%nat.
Proof. unfold slot. f_equal. lia. Qed.

(** An entry goes to the end of the queue. *)
Lemma queued_push f l r d next : queued_as f l → (fetch_num f < ruu_ifq_size cf)%nat →
  is_Some (fetch_data f !! fetch_tail f) → d = <[fetch_tail f := r]> (fetch_data f) →
  queued_as (set_fetchq d (fetch_head f) ((fetch_tail f + 1) mod ruu_ifq_size cf) (fetch_num f + 1)
    (set_fetch_PCs (f_regs_PC r) next f)) (l ++ [r]).
Proof.
  intros [Q1 Q2 Q3 Q4 Q5] Hn Hs ->. split; cbn.
  - rewrite length_app. cbn. lia.
  - done.
  - lia.
  - rewrite Q4. unfold slot. rewrite Nat.Div0.add_mod_idemp_l. f_equal. lia.
  - intros i x Hx. apply lookup_app_Some in Hx as [Hx|[Hge Hx]].
    + rewrite list_lookup_insert_ne; [by apply Q5|]. apply lookup_lt_Some in Hx. rewrite Q4. intros He%slot_inj; lia.
    + destruct (i - length l)%nat eqn:Hi; [|done]. injection Hx as <-. replace i with (fetch_num f) by lia.
      rewrite <- Q4. apply list_lookup_insert_eq. by apply lookup_lt_is_Some_1.
Qed.

Lemma fetch_latency_kept c0 c pc : kept c0 c → returns (fetch_latency cf pc c) (λ x, kept c0 x.2).
Proof.
  intros H. unfold fetch_latency. eapply returns_bind; [by apply il1_kept|]. intros [o1 c1] H1. cbn in H1.
  eapply returns_bind; [by apply itlb_kept|]. intros [o2 c2] H2. exact H2.
Qed.

Lemma predict_kept c0 c inst pc idx u : kept c0 c → returns (predict inst pc idx u c) (λ x, kept c0 x.2).
Proof.
  intros H. unfold predict. destruct (pred (mach c)); [|done]. destruct (is_ctrl _); [|done].
  apply wp_bind, returns_any. intros [[[t u'] idx'] bp]. by case_bool_decide.
Qed.

(** A fetch that misses notes the address, and nothing else. *)
Lemma fetch_PCs_path c : on_path c → on_path (upd_front (set_fetch_PCs (fetch_pred_PC (front c)) (fetch_pred_PC (front c))) c).
Proof. apply on_path_kept. by split. Qed.

(** One instruction is fetched: from the text, or a no-operation. *)
Lemma fetch_push_path c d inst pc next u idx :
  on_path c → (fetch_num (front c) < ruu_ifq_size cf)%nat → pc = fetch_pred_PC (front c) →
  (in_text pc = true → ∀ s, arch_eq s (ports (mach c)) → inst = MD_FETCH_INST pc s) →
  (in_text pc = false → inst = MD_NOP_INST) →
  is_Some (fetch_data (front c) !! fetch_tail (front c)) →
  d = <[fetch_tail (front c) := mkFetch inst pc next u idx]> (fetch_data (front c)) →
  on_path (upd_front (set_fetchq d (fetch_head (front c)) ((fetch_tail (front c) + 1) mod ruu_ifq_size cf)
    (fetch_num (front c) + 1)) (upd_front (set_fetch_PCs pc next) c)).
Proof.
  intros (k & pc0 & s & [H1 H0 H2 Hv H3 H4]) Hn Hpc Hi Hnop Hs Hd. exists k, pc0, s. split; try done.
  cbn [upd_front set_front mach]. destruct H4 as (l & Hq & Hval & Hc).
  exists (l ++ [mkFetch inst pc next u idx]). split; [exact (queued_push (front c) l (mkFetch inst pc next u idx) d next Hq Hn Hs Hd)|].
  split; [|destruct (spec_mode (mach c)); [exact Hc|]].
  { apply Forall_app. split; [done|]. apply Forall_singleton. cbn [f_IR]. destruct (in_text pc) eqn:Ht.
    - rewrite (Hi eq_refl s H2). by apply (in_program k pc0 s H1).
    - rewrite Hnop by done. apply ar_nop. }
  subst pc.
  apply (chain_snoc s l (mkFetch inst (fetch_pred_PC (front c)) next u idx) pc0 (fetch_pred_PC (front c))); [done|done|].
  intros Ht. by apply Hi.
Qed.

Lemma fetch_loop_path n : ∀ b idx c, on_path c → returns (fetch_loop cf n b idx c) on_path.
Proof.
  induction n as [|n IH]; intros b idx c Hc; cbn [fetch_loop]; [done|].
  case_bool_decide as Hn; [done|]. apply fetch_PCs_path in Hc. revert Hc. cbv zeta.
  set (pc := fetch_pred_PC (front c)). set (c1 := upd_front (set_fetch_PCs pc pc) c). intros Hc.
  eapply (returns_bind _ _ _ (λ x, kept c1 x.2 ∧ (in_text pc = true → ∀ s, arch_eq s (ports (mach x.2)) → x.1.1 = MD_FETCH_INST pc s) ∧
    (in_text pc = false → x.1.1 = MD_NOP_INST))).
  { destruct (in_text pc) eqn:Ht; [|by cbn]. eapply returns_bind; [apply (fetch_latency_kept c1); done|].
    intros [lat c2] H2. cbn. split; [done|]. split; [|done]. intros _ s Hs. apply ar_fetch; [|done].
    etrans; [by apply (kept_arch c1 c2)|by symmetry]. }
  intros [[inst lat] c2] (Hk2 & Hi & Hnop). cbn [fst snd] in *. assert (on_path c2) as Hc2 by (by eapply on_path_kept).
  case_bool_decide; [cbn; eapply on_path_kept; [|exact Hc2]; by split|].
  apply wp_bind, returns_any. intros r.
  eapply returns_bind; [apply (predict_kept c2); done|]. intros [[[[next taken] u] idx'] c3] Hk3. cbn [snd] in Hk3.
  assert (on_path c3) as Hc3 by (by eapply on_path_kept).
  assert (kept c1 c3) as (E13 & A13 & F13) by (by etrans). unfold fetch_state in F13.
  injection F13 as F1 F2 F3 F4 F5 F6 F7 F8. apply wp_bind, returns_eq. intros d [Hs Hd]%vset_Ok.
  assert (on_path (upd_front (set_fetchq d (fetch_head (front c3)) ((fetch_tail (front c3) + 1) mod ruu_ifq_size cf)
    (fetch_num (front c3) + 1)) (upd_front (set_fetch_PCs pc next) c3))) as Hc4.
  { eapply fetch_push_path; try done.
    - rewrite F4. cbn. lia.
    - intros Ht s Hsa. apply Hi; [done|]. etrans; [exact Hsa|]. symmetry. by apply kept_arch. }
  destruct (taken && _); [exact Hc4|]. by apply IH.
Qed.

(** ** Dispatch *)

Lemma bump_kept b k c : k ≠ sim_num_insn → kept c (bump b k c).
Proof. intros Hk. destruct b; [|done]. split; [done|]. split; [done|]. cbn. unfold fetch_state. cbn. by rewrite decide_False. Qed.

Lemma count_mem_kept op c : kept c (count_mem op c).
Proof.
  unfold count_mem. destruct (any_flag op F_MEM); [|done]. cbv zeta.
  assert (kept c (bump (negb (spec_mode (mach c))) sim_num_refs (bump true sim_total_refs c))) as H by (etrans; by apply bump_kept).
  destruct (any_flag op F_STORE); [exact H|]. etrans; [exact H|]. etrans; by apply bump_kept.
Qed.

(** The instruction at the head of the queue has been executed and [npc] follows it: its
    entry is [r], or the queue was emptied to go on at [npc]. *)
Definition executed (o : option fetch_rec) (npc : Z) c : Prop := ∃ k s,
  arch_inv false s ∧ arch_eq s (ports (mach c)) ∧ arch_inv (spec_mode (mach c)) (ports (mach c)) ∧
  counters (front c) sim_num_insn = i64 (Z.of_nat k) ∧
  fast_forward k entry s0 = Ok (if spec_mode (mach c) then recover_PC (front c) else npc, s) ∧
  match o with
  | Some r => ∃ l, queued_as (front c) (r :: l) ∧ valid_queue l ∧
      (spec_mode (mach c) = false → chain s (f_pred_PC r) l (fetch_pred_PC (front c)) ∧ pred_PC (front c) = f_pred_PC r)
  | None => (fetch_head (front c) = (ruu_ifq_size cf - 1)%nat ∧ fetch_tail (front c) = 0%nat ∧ fetch_num (front c) = 1%nat) ∧
      (spec_mode (mach c) = false → fetch_pred_PC (front c) = npc)
  end.

Lemma executed_kept o npc c c' : kept c c' → executed o npc c → executed o npc c'.
Proof.
  intros (E & A & F) (k & s & H0 & H1 & Hi & H2 & H3 & H4). unfold fetch_state in F. injection F as F1 F2 F3 F4 F5 F6 F7 F8.
  destruct (A Hi) as [A1 A2].
  exists k, s. rewrite E, F2, F3, F4, F5, F6, F7, F8. split; [done|]. split; [by etrans|]. split; [done|]. split; [done|]. split; [done|].
  destruct o as [r|]; [|done]. destruct H4 as (l & [Q1 Q2 Q3 Q4 Q5] & Hc). exists l. split; [|done].
  split; rewrite ?F1, ?F2, ?F3, ?F4; done.
Qed.

(** The head leaves the queue. *)
Lemma queued_pop f r l : queued_as f (r :: l) →
  queued_as (set_fetchq (fetch_data f) ((fetch_head f + 1) mod ruu_ifq_size cf) (fetch_tail f) (fetch_num f - 1) f) l.
Proof.
  intros [Q1 Q2 Q3 Q4 Q5]. cbn in Q1. split; cbn.
  - lia.
  - apply Nat.mod_upper_bound. lia.
  - lia.
  - rewrite Q4. unfold slot. rewrite Nat.Div0.add_mod_idemp_l. f_equal. lia.
  - intros i x Hx. unfold slot. rewrite Nat.Div0.add_mod_idemp_l. specialize (Q5 (S i) x Hx). unfold slot in Q5.
    rewrite <- Q5. do 2 f_equal. lia.
Qed.

Lemma consume_redirected npc c : executed None npc c → on_path (consume_fetch cf c) ∧ fetch_num (front (consume_fetch cf c)) = 0%nat.
Proof.
  intros (k & s & H0 & H1 & Hi & H2 & H3 & (E1 & E2 & E3) & H4).
  split; [|by cbn; rewrite E3]. unfold consume_fetch. exists k, (if spec_mode (mach c) then recover_PC (front c) else npc), s.
  split; [done..|]. cbn [mach upd_front set_front]. exists []. split; [|split; [constructor|]].
  - cbn. rewrite E1, E2, E3.
    replace (ruu_ifq_size cf - 1 + 1)%nat with (ruu_ifq_size cf) by lia. rewrite Nat.Div0.mod_same.
    split; cbn; [done|lia|lia|by rewrite slot_0|done].
  - destruct (spec_mode (mach c)); [done|by apply H4].
Qed.

(** The head is consumed on a wrong path. *)
Lemma consume_wrong k s r l c : arch_inv false s → arch_eq s (ports (mach c)) → arch_inv true (ports (mach c)) →
  counters (front c) sim_num_insn = i64 (Z.of_nat k) → spec_mode (mach c) = true →
  queued_as (front c) (r :: l) → valid_queue l → fast_forward k entry s0 = Ok (recover_PC (front c), s) → on_path (consume_fetch cf c).
Proof.
  intros H0 H1 Hi H2 H3 Hq Hv H4. exists k, (recover_PC (front c)), s. unfold consume_fetch. split; [done..| |done|];
  cbn [mach upd_front set_front]; rewrite H3; [done|]. exists l. by split; [apply (queued_pop (front c) r)|].
Qed.

Lemma branch_stats_kept (b : bool) (u : bpred_t → core MS → result (core MS)) c :
  (∀ bp, kept c (bump true sim_num_branches c) → returns (u bp (bump true sim_num_branches c)) (kept c)) →
  returns (if b then
             let c := bump true sim_num_branches c in
             match pred (mach c) with
             | Some bp => if bool_decide (bpred_spec_update cf = spec_ID) then u bp c else Ok c
             | None => Ok c
             end
           else Ok c) (kept c).
Proof.
  intros Hu. destruct b; [|done]. cbv zeta. pose proof (bump_kept true sim_num_branches c ltac:(done)) as Hk.
  destruct (pred _) as [bp|]; [|exact Hk]. case_bool_decide; [by apply Hu|exact Hk].
Qed.

(** The check of the prediction: the correct path goes on in the queue, or a wrong path
    starts and its recovery address follows the instruction. *)
Lemma resolve_path_path p r x c : executed (Some r) (x_NPC x) c →
  returns (resolve_path cf p r x false c) (λ c', on_path (consume_fetch cf c')).
Proof.
  intros Hx. unfold resolve_path. destruct (spec_mode (mach c)) eqn:Hs.
  { destruct Hx as (k & s & H0 & H1 & Hi & H2 & H3 & l & Hq & Hv & _). rewrite Hs in H3, Hi. cbn. by eapply consume_wrong. }
  eapply (returns_bind _ _ _ (kept c)); [apply (branch_stats_kept _ (λ bp c, _)); intros bp Hk;
    apply wp_bind, returns_any; intros q; apply wp_bind, returns_any; intros rs; apply wp_bind, returns_any; intros bp'; exact Hk|].
  intros c1 Hk. pose proof (executed_kept _ _ _ _ Hk Hx) as (k & s & H0 & H1 & Hi & H2 & H4 & l & Hq & Hv & Hc).
  destruct Hk as (E & _). rewrite E, Hs in H4, Hi, Hc. destruct (Hc eq_refl) as [Hch Hp].
  case_bool_decide as Heq; cbn [negb andb].
  - cbn. exists k, (x_NPC x), s. unfold consume_fetch. split; [done..|cbn [mach upd_front set_front]; by rewrite E, Hs|done|].
    cbn [mach upd_front set_front]. rewrite E, Hs. exists l. split; [by apply (queued_pop (front c1) r)|]. cbn. by rewrite <- Heq, Hp in *.
  - apply wp_bind, returns_any. intros q. eapply returns_bind; [apply (upd_station_kept (set_mach (set_spec true (mach c1)) c1) _ q (set_recover true)); reflexivity|].
    intros c2 (E2 & A2 & F2). cbn in E2. unfold fetch_state in F2. injection F2 as F1 F3 F4 F5 F6 F7 F8 F9. cbn in *.
    destruct A2 as [A2 A3]; [by apply ar_wrong|].
    eapply (consume_wrong k s r l); cbn; try done; [by etrans|by rewrite F9|].
    destruct Hq as [Q1 Q2 Q3 Q4 Q5]. split; cbn; rewrite ?F1, ?F3, ?F4, ?F5; done.
Qed.

Lemma resolve_redirected p r x c npc : executed None npc c →
  returns (resolve_path cf p r x true c) (λ c', on_path (consume_fetch cf c') ∧ fetch_num (front (consume_fetch cf c')) = 0%nat).
Proof.
  intros Hx. unfold resolve_path. destruct (spec_mode (mach c)); [by apply (consume_redirected npc)|].
  eapply (returns_bind _ _ _ (kept c)); [apply (branch_stats_kept _ (λ bp c, _)); intros bp Hk;
    apply wp_bind, returns_any; intros q; apply wp_bind, returns_any; intros rs; apply wp_bind, returns_any; intros bp'; exact Hk|].
  intros c1 Hk. rewrite andb_false_r. cbn. apply (consume_redirected npc). by eapply executed_kept.
Qed.

(** The head of the queue is executed: on the correct path that is the next step of the
    functional simulation, on a wrong path it leaves no trace. *)
Lemma execute_head c c1 c2 r x s' :
  on_path c → fetch_num (front c) ≠ 0%nat → fetch_data (front c) !! fetch_head (front c) = Some r →
  c1 = bump (negb (spec_mode (mach c))) sim_num_insn (upd_front (set_pred_PC (f_pred_PC r)) (upd_front (set_regs_PC (f_regs_PC r)) c)) →
  md_exec (spec_mode (mach c1)) (MD_SET_OPCODE (f_IR r)) (f_IR r) (f_regs_PC r) (ports (mach c1)) = Ok (x, s') →
  c2 = set_mach (set_ports s' (mach c1)) c1 → x_fault x = md_fault_none →
  executed (Some r) (x_NPC x) c2.
Proof.
  intros (k & pc & s & [H1 H0 H2 Hv H3 H4]) Hn Hr Hc1 Hx Hc2 Hf.
  assert (mach c1 = mach c) as Hm by (subst c1; by destruct (negb (spec_mode (mach c)))). rewrite Hm in Hx, Hc2.
  subst c1 c2. unfold executed. cbn [mach set_mach set_ports spec_mode].
  destruct H4 as (l & Hq & Hval & Hc). destruct l as [|r' l]; [by destruct Hq as [Q1 _ _ _ _]; cbn in Q1; lia|].
  pose proof (qa_at _ _ Hq 0 r' eq_refl) as Hr0. rewrite slot_0 in Hr0 by apply Hq. rewrite Hr in Hr0. injection Hr0 as <-.
  apply Forall_cons in Hval as [Hvr Hval]. destruct (spec_mode (mach c)) eqn:Hs.
  - destruct (ar_spec _ _ _ _ _ Hvr Hv Hx) as [A1 A2].
    exists k, s. split; [done|]. split; [by etrans|]. split; [done|]. split; [exact H3|]. cbn in Hc. split; [cbn; by rewrite Hc|].
    exists l. split; [by destruct Hq; split|]. by split.
  - destruct Hc as (Hpc & Hi & Hc). destruct (in_program k pc s H1) as [[Ht _] Hop]. specialize (Hi Ht).
    rewrite Hi in Hvr. rewrite Hpc, Hi in Hx. destruct (ar_exec _ _ _ s _ _ Hvr Hv H0 (symmetry H2) Hx) as (s2 & Hx2 & Ha & Hv1 & Hv2).
    exists (S k), s2. split; [done|]. split; [by symmetry|]. split; [done|]. split.
    { cbn. rewrite decide_True by done. rewrite H3, i64_add_l. f_equal. lia. }
    split.
    + rewrite (fast_forward_snoc k entry s0 pc s H1). cbn [fast_forward]. rewrite Hx2. cbn [mbind result_bind].
      rewrite bool_decide_false by (intros Hne; apply Hne; by eapply Hop). by rewrite bool_decide_false by (rewrite Hf; tauto).
    + exists l. split; [destruct Hq; by split|]. split; [done|]. intros _. split; [|done]. eapply chain_text; [|exact Hc].
      intros pc' Ht'. by apply (proj2 (Hop _ _ Hx2 Hf)).
Qed.

Lemma redirect_executed r c npc : executed (Some r) npc c → executed None npc (redirect_fetch cf npc c).
Proof.
  intros (k & s & H0 & H1 & Hi & H2 & H3 & _). exists k, s. unfold redirect_fetch.
  destruct (pred_perfect cf); by split_and!.
Qed.

Lemma pred_PC_path pc pc' c : on_path c → on_path (upd_front (set_pred_PC pc) (upd_front (set_regs_PC pc') c)).
Proof.
  intros (k & pc0 & s & [H1 H0 H2 Hv H3 H4]). exists k, pc0, s. split; [done..|].
  destruct H4 as (l & [Q1 Q2 Q3 Q4 Q5] & Hc). exists l. by split.
Qed.

Lemma bumps_kept b c : kept c (bump b sim_total_branches (bump true sim_total_insn c)).
Proof. etrans; by apply bump_kept. Qed.

(** The tables of dispatch leave the correct path alone. *)
Lemma dispatch_any_executed o r x c : executed o (x_NPC x) c →
  returns (if is_nop (x_op x) then Ok c
           else if any_flag (x_op x) F_MEM then dispatch_mem cf r x c else dispatch_op cf r x c) (executed o (x_NPC x)).
Proof.
  intros Hc. destruct (is_nop _); [done|].
  destruct (any_flag _ _); eapply wp_mono; [by apply (dispatch_mem_kept cf c)|done| |by apply (dispatch_op_kept cf c)|done|];
    intros c' Hk; by eapply executed_kept.
Qed.

Lemma dispatch_one_path c : on_path c → fetch_num (front c) ≠ 0%nat →
  returns (dispatch_one cf false c) (λ x, on_path x.2 ∧
    match x.1 with Some (_, true) => fetch_num (front x.2) = 0%nat | _ => True end).
Proof.
  intros Hc Hn. unfold dispatch_one. apply wp_bind, returns_any. intros [|]; [done|].
  apply wp_bind, returns_eq. intros r Hr%vget_Ok. cbv zeta.
  destruct (any_flag _ _ && _).
  { cbn. split; [by apply pred_PC_path|done]. }
  destruct (any_flag _ _ && _); [done|].
  apply wp_bind, returns_eq. intros [x s'] Hx.
  case_bool_decide as Hf; [done|].
  match type of Hx with md_exec _ _ _ _ (ports (mach ?d)) = _ =>
    pose proof (execute_head c d _ r x s' Hc Hn Hr eq_refl Hx eq_refl Hf) as He; clear Hx; revert He; generalize d end.
  intros c1 He. pose proof (executed_kept _ _ _ _ (count_mem_kept (x_op x) _) He) as Hm.
  clear He. revert Hm. generalize (count_mem (x_op x) (set_mach (set_ports s' (mach c1)) c1)). intros c2 Hm.
  eapply (returns_bind _ _ _ (λ c3, executed (if (negb (bool_decide (f_pred_PC r = x_NPC x)) && pred_perfect cf)
    || (has_flags (x_op x) (Z.lor F_CTRL F_DIRJMP) && negb (bool_decide (x_target_PC x = f_pred_PC r)) &&
        negb (bool_decide (f_pred_PC r = u32 (f_regs_PC r + inst_size)))) then None else Some r) (x_NPC x) c3)).
  - destruct (_ || _); [apply redirect_executed in Hm|]; by apply dispatch_any_executed.
  - intros c3 H3. rewrite orb_false_r. pose proof (executed_kept _ _ _ _ (bumps_kept (is_ctrl (x_op x)) c3) H3) as H4.
    clear H3. destruct (_ || _).
    + eapply returns_bind; [by apply (resolve_redirected _ r x _ (x_NPC x))|]. intros c4 [H5 H6]. by cbn.
    + eapply returns_bind; [by apply resolve_path_path|]. intros c4 H5. by cbn.
Qed.

Lemma dispatch_loop_path fuel : ∀ n c, on_path c → returns (dispatch_loop cf fuel n false c) on_path.
Proof.
  induction fuel as [|fuel IH]; intros n c Hc; cbn [dispatch_loop]; destruct (_ && _) eqn:Hg; try done.
  apply andb_true_iff in Hg as [Hg _]. apply andb_true_iff in Hg as [_ Hn]. apply bool_decide_eq_true in Hn.
  eapply returns_bind; [by apply dispatch_one_path|]. intros [[[d [|]]|] c1] [H1 H2]; cbn [fst snd] in *; [|by apply IH|done].
  destruct fuel; cbn [dispatch_loop]; rewrite (bool_decide_false (fetch_num _ ≠ 0%nat)), andb_false_r; try done; tauto.
Qed.

(** ** The main loop *)

Lemma add_counter_kept c k n : k ≠ sim_num_insn → kept c (upd_front (add_counter k n) c).
Proof. intros Hk. split; [done|]. split; [done|]. unfold fetch_state. cbn. by rewrite decide_False. Qed.

Lemma occupancy_kept c : kept c (occupancy cf c).
Proof. split; [done|]. split; [done|]. reflexivity. Qed.

Lemma sim_cycle_path c : on_path c → returns (sim_cycle_step cf c) (λ x, on_path x.2).
Proof.
  intros Hc. unfold sim_cycle_step. apply wp_bind, returns_any. intros _.
  eapply returns_bind; [eapply stage_kept; [intros c0; apply ruu_commit_kept|exact Hc]|]. intros c1 H1.
  eapply returns_bind; [eapply stage_kept; [intros c0; apply release_fu_kept|exact H1]|]. intros c2 H2.
  eapply returns_bind; [by apply ruu_writeback_path|]. intros c3 H3.
  assert (∀ (b : bool) c, on_path c → returns (if b then Ok c else refresh_and_issue cf c) on_path) as Hissue.
  { intros [] c0 H0; [done|]. eapply stage_kept; [intros c'; apply refresh_and_issue_kept|exact H0]. }
  eapply returns_bind; [by apply Hissue|]. intros c4 H4.
  eapply returns_bind; [by apply dispatch_loop_path|]. intros c5 H5.
  eapply returns_bind; [instantiate (1 := on_path); by destruct (bugcompat_mode cf); [apply (Hissue false)|]|]. intros c6 H6.
  eapply (returns_bind _ _ _ on_path).
  { case_bool_decide; [by apply fetch_loop_path|]. cbn. eapply on_path_kept; [|exact H6]. by split. }
  intros c7 H7. cbn [returns wp snd]. eapply on_path_kept; [|exact H7].
  etrans; [apply occupancy_kept|]. by split.
Qed.

Lemma cycles_path n : ∀ c, on_path c → returns (cycles cf n c) on_path.
Proof.
  induction n as [|n IH]; intros c Hc; cbn [cycles]; [done|].
  eapply returns_bind; [by apply sim_cycle_path|]. intros [b c1] H1. by apply IH.
Qed.

Lemma start_path pool bp : arch_inv false s0 → on_path (sim_load_prog cf pool bp s0 entry).
Proof.
  intros H0. exists 0%nat, entry, s0. split; [done..|]. cbn. exists []. split; [|by split; [constructor|]].
  split; cbn; [done|lia|lia|by rewrite slot_0|done].
Qed.
End Transparent.

(** ** Functional transparency *)

(** C1: timing does not change what the program computes, for a program whose functional
    simulation stays in its text, executes no bogus instruction and never writes its text, which holds
    valid instructions.  After any number of cycles, whatever
    was fetched, predicted, squashed, forwarded and missed in between, the core has executed
    outside of wrong paths exactly the first [k] instructions of the functional simulation,
    in its order and with its registers and memory, where [k] is its instruction counter; on
    a wrong path the recovery address is the functional simulation's next address, and off
    it the address of the oldest instruction of the fetch queue is, or the address to fetch if there is none. *)
Theorem core_simulates_program {MS} `{!Environment MS, !EnvArch MS} (cf : config) n pool bp (s0 : MS) entry c :
  (0 < ruu_ifq_size cf)%nat → arch_inv false s0 → proper_program entry s0 →
  cycles cf n (sim_load_prog cf pool bp s0 entry) = Ok c →
  ∃ k pc s, fast_forward k entry s0 = Ok (pc, s) ∧ arch_eq s (ports (mach c)) ∧
    counters (front c) sim_num_insn = i64 (Z.of_nat k) ∧
    (if spec_mode (mach c) then recover_PC (front c)
     else if decide (fetch_num (front c) = 0%nat) then fetch_pred_PC (front c)
     else default 0 (f_regs_PC <$> fetch_data (front c) !! fetch_head (front c))) = pc.
Proof.
  intros Hifq H0 Hprog Hrun.
  pose proof (returns_elim _ _ _ (cycles_path cf Hifq entry s0 Hprog n _ (start_path cf Hifq entry s0 pool bp H0)) Hrun)
    as (k & pc & s & [H1 _ H3 _ H5 H6]).
  exists k, pc, s. split_and!; [done..|]. destruct H6 as (l & [Q1 Q2 Q3 Q4 Q5] & _ & Hc).
  destruct (spec_mode (mach c)); [done|]. case_decide as Hn.
  - destruct l; [done|]. cbn in Q1. lia.
  - destruct l as [|r l]; [cbn in Q1; lia|]. specialize (Q5 0%nat r eq_refl). rewrite slot_0 in Q5 by done.
    rewrite Q5. cbn. apply Hc.
Qed.

(** ** Another execution of instructions *)

(** The same machine with [ex] for machine.def. *)
Definition with_exec {MS} (E : Environment MS) (ex : bool → md_opcode → Z → Z → MS → result (exec_out * MS)) : Environment MS := {|
  dl1_access := dl1_access; dtlb_access := dtlb_access; il1_access := il1_access; itlb_access := itlb_access;
  reset_spec_state := reset_spec_state; md_exec := ex;
  MD_FETCH_INST := MD_FETCH_INST; MD_SET_OPCODE := MD_SET_OPCODE; MD_OP_FUCLASS := MD_OP_FUCLASS; MD_IS_RETURN := MD_IS_RETURN;
  MD_NOP_OP := MD_NOP_OP; MD_AGEN_OP := MD_AGEN_OP; MD_NOP_INST := MD_NOP_INST; MD_VALID_ADDR := MD_VALID_ADDR;
  ld_text_base := ld_text_base; ld_text_size := ld_text_size
|}.

Section Guard.
Context {MS : Type} {E : Environment MS} `{!EnvArch MS}.
Variable cf : config.
Hypothesis ifq_pos : (0 < ruu_ifq_size cf)%nat.
Variables (entry : Z) (s0 : MS).
Hypothesis in_program : proper_program entry s0.
Variable ex : bool → md_opcode → Z → Z → MS → result (exec_out * MS).
Implicit Types c : core MS.

Hypothesis ex_spec : ∀ i pc s, ar_valid i → ex true (MD_SET_OPCODE i) i pc s = md_exec true (MD_SET_OPCODE i) i pc s.
Hypothesis ex_prog : ∀ j pc s s', fast_forward j entry s0 = Ok (pc, s) → arch_inv false s → arch_inv false s' → arch_eq s s' →
  let i := MD_FETCH_INST pc s in ex false (MD_SET_OPCODE i) i pc s' = md_exec false (MD_SET_OPCODE i) i pc s'.

Abbreviation E' := (with_exec E ex).
Abbreviation on_path := (on_path cf entry s0).

(** What holds of the core does not depend on the execution. *)
Lemma sound_with c : @sound MS E' cf c → sound cf c.
Proof. intros (H1 & H2 & H3 & [Q1 Q2 Q3 Q4]). by split_and!. Qed.

(** The stages that do not execute. *)
Lemma commit_with c : @ruu_commit MS E' cf c = ruu_commit cf c.
Proof. reflexivity. Qed.
Lemma writeback_with c : @ruu_writeback MS E' cf c = ruu_writeback cf c.
Proof. reflexivity. Qed.
Lemma issue_with c : @refresh_and_issue MS E' cf c = refresh_and_issue cf c.
Proof. reflexivity. Qed.
Lemma fetch_with c : @ruu_fetch MS E' cf c = ruu_fetch cf c.
Proof. reflexivity. Qed.

(** The head of the queue is executed alike. *)
Lemma head_same c r b op : on_path c → fetch_num (front c) ≠ 0%nat → fetch_data (front c) !! fetch_head (front c) = Some r →
  b = spec_mode (mach c) → op = MD_SET_OPCODE (f_IR r) →
  ex b op (f_IR r) (f_regs_PC r) (ports (mach c)) = md_exec b op (f_IR r) (f_regs_PC r) (ports (mach c)).
Proof.
  intros (k & pc & s & [H1 H0 H2 Hv H3 H4]) Hn Hr -> ->.
  destruct H4 as (l & Hq & Hval & Hc). destruct l as [|r' l]; [by destruct Hq as [Q1 _ _ _ _]; cbn in Q1; lia|].
  pose proof (qa_at _ _ _ Hq 0 r' eq_refl) as Hr0. rewrite slot_0 in Hr0 by apply Hq. rewrite Hr in Hr0. injection Hr0 as <-.
  apply Forall_cons in Hval as [Hvr _]. destruct (spec_mode (mach c)); [by apply ex_spec|].
  destruct Hc as (Hpc & Hi & _). destruct (in_program k pc s H1) as [[Ht _] _]. rewrite Hpc, (Hi Ht).
  by apply (ex_prog k pc s).
Qed.

Lemma dispatch_one_with c b : on_path c → fetch_num (front c) ≠ 0%nat → @dispatch_one MS E' cf b c = dispatch_one cf b c.
Proof.
  intros Hc Hn. unfold dispatch_one. change (@inorder_stall MS cf c) with (@inorder_stall MS cf c).
  destruct (inorder_stall cf c) as [[|]|]; [done| |done]. cbn [mbind result_bind].
  destruct (vget (fetch_data (front c)) (fetch_head (front c))) as [r|] eqn:Hr; [|done]. cbn [mbind result_bind].
  apply vget_Ok in Hr. cbv zeta. change (@MD_SET_OPCODE MS E') with (@MD_SET_OPCODE MS E).
  set (c1 := upd_front _ _). destruct (_ && _); [done|]. destruct (_ && _); [done|].
  set (c2 := bump _ sim_num_insn c1). assert (mach c2 = mach c) as Hm by (subst c2; by destruct (negb _)).
  change (@md_exec MS E') with ex. rewrite Hm. rewrite (head_same c r _ _ Hc Hn Hr eq_refl eq_refl).
  destruct (md_exec _ _ _ _ _) as [[x s]|]; reflexivity.
Qed.

Lemma dispatch_loop_with fuel : ∀ n c, on_path c → @dispatch_loop MS E' cf fuel n false c = dispatch_loop cf fuel n false c.
Proof.
  induction fuel as [|fuel IH]; intros n c Hc; cbn [dispatch_loop]; [done|]. destruct (_ && _) eqn:Hg; [|done].
  apply andb_true_iff in Hg as [Hg _]. apply andb_true_iff in Hg as [_ Hn]. apply bool_decide_eq_true in Hn.
  rewrite dispatch_one_with by done.
  pose proof (dispatch_one_path cf ifq_pos entry s0 in_program c Hc Hn) as Hw.
  destruct (dispatch_one cf false c) as [[[[d [|]]|] c1]|]; [| |done|done]; cbn [mbind result_bind] in *; destruct Hw as [H1 H2]; cbn [fst snd] in *.
  - destruct fuel; cbn [dispatch_loop]; by rewrite (bool_decide_false (fetch_num _ ≠ 0%nat)), andb_false_r by tauto.
  - by apply IH.
Qed.

Lemma bind_same {X Y} (m : result X) (P : X → Prop) (k k' : X → result Y) :
  returns m P → (∀ x, P x → k x = k' x) → m ≫= k = m ≫= k'.
Proof. intros Hm Hk. destruct m; cbn in *; [by apply Hk|done]. Qed.

(** A cycle. *)
Lemma sim_cycle_with c : on_path c → @sim_cycle_step MS E' cf c = sim_cycle_step cf c.
Proof.
  intros Hc. unfold sim_cycle_step. destruct (sanity cf c) as [[]|]; [|done]. cbn [mbind result_bind].
  rewrite commit_with. eapply bind_same; [apply (stage_kept cf entry s0 c _ (λ c0, ruu_commit_kept cf c0 c) Hc)|].
  intros c1 H1. eapply bind_same; [apply (stage_kept cf entry s0 c1 _ (λ c0, release_fu_kept c0 c1) H1)|].
  intros c2 H2. rewrite writeback_with. eapply bind_same; [by apply ruu_writeback_path|].
  intros c3 H3. rewrite issue_with. eapply (bind_same _ on_path).
  { destruct (bugcompat_mode cf); [done|]. apply (stage_kept cf entry s0 c3 _ (λ c0, refresh_and_issue_kept cf c0 c3) H3). }
  intros c4 H4. unfold ruu_dispatch. rewrite dispatch_loop_with by done. eapply bind_same; [by apply dispatch_loop_path|].
  reflexivity.
Qed.

Lemma cycles_with n : ∀ c, on_path c → @cycles MS E' cf n c = cycles cf n c.
Proof.
  induction n as [|n IH]; intros c Hc; cbn [cycles]; [done|]. rewrite sim_cycle_with by done.
  eapply bind_same; [by apply sim_cycle_path|]. intros [b c1] H1. by apply IH.
Qed.

Lemma sim_main_with n : ∀ c, on_path c → @sim_main MS E' cf n c = sim_main cf n c.
Proof.
  induction n as [|n IH]; intros c Hc; cbn [sim_main]; [done|]. rewrite sim_cycle_with by done.
  eapply bind_same; [by apply sim_cycle_path|]. intros [[] c1] H1; [done|]. by apply IH.
Qed.
End Guard.
