(* ===== verification/OooMain.v ===== *)
(** * The core as a whole: properties and a small machine

    An instruction set of five instructions and a loop, to evaluate the core on, and the
    properties of a core in a state that a simulation reaches. *)

From S2P Require Import Prelude Chains Misc Memory Bpred BpredInv BpredMain Resource ResourceSpec Ruu RuuStages RuuSched RuuFront Pool.
From S2P Require Import RuuPool RuuInv RuuGood RuuSquash RuuRecover RuuUnits RuuCore RuuComplete RuuCommit RuuIssue RuuResolve RuuRun.

Module Toy.
Definition alu : md_opcode := mkOp 1 1 false.
Definition ld : md_opcode := mkOp 2 (F_MEM + F_LOAD) false.
Definition st : md_opcode := mkOp 3 (F_MEM + F_STORE) false.
Definition br : md_opcode := mkOp 4 (F_CTRL + 16) false.
Definition nop : md_opcode := mkOp 5 1 false.

Definition decode (i : Z) : md_opcode :=
  match i with 1 => alu | 2 => ld | 3 => st | 4 => br | _ => nop end.

(** A loop of six instructions, and two instructions behind its branch. *)
Definition text (pc : Z) : Z :=
  match pc with 4096 => 1 | 4104 => 3 | 4112 => 2 | 4120 => 5 | 4128 => 1 | 4136 => 4 | 4144 => 1 | 4152 => 2 | _ => 5 end.

Definition execute (i pc : Z) : exec_out :=
  match i with
  | 1 => mkExec alu 3 0 3 4 0 (u32 (pc + 8)) 0 0 md_fault_none
  | 2 => mkExec ld 3 0 0 4 0 (u32 (pc + 8)) 0 64 md_fault_none
  | 3 => mkExec st 0 0 3 4 0 (u32 (pc + 8)) 0 64 md_fault_none
  | 4 => mkExec br 0 0 3 4 0 4096 4096 0 md_fault_none
  | _ => mkExec nop 0 0 0 0 0 (u32 (pc + 8)) 0 0 md_fault_none
  end.

#[global] Instance env : Environment unit := {
  dl1_access _ _ _ _ s := Ok (Some 2, s);
  dtlb_access _ _ _ _ s := Ok (None, s);
  il1_access _ _ _ _ s := Ok (None, s);
  itlb_access _ _ _ _ s := Ok (None, s);
  reset_spec_state s := Ok s;
  md_exec _ _ i pc s := Ok (execute i pc, s);
  MD_FETCH_INST pc _ := text pc;
  MD_SET_OPCODE := decode;
  MD_OP_FUCLASS op := match op_num op with 2 => 10 | 3 => 11 | _ => 1 end;
  MD_IS_RETURN _ _ := false;
  MD_NOP_OP := nop; MD_AGEN_OP := alu; MD_NOP_INST := 5;
  MD_VALID_ADDR _ := true; ld_text_base := 4096; ld_text_size := 64
}.

Lemma has_class k : k ∈ [1; 10; 11] → has_unit fu_config k.
Proof.
  intros Hk. repeat (apply elem_of_cons in Hk as [->|Hk]; [split; [done|by vm_compute]|]). by apply elem_of_nil in Hk.
Qed.

#[global] Instance env_spec : EnvSpec unit := { env_inv _ := True; env_addr _ := True; env_late := False }.

#[global] Instance env_ok : EnvOk fu_config.
Proof.
  split; try done.
  - intros. eexists _, _. split; [reflexivity|]. split; [done|]. intros ? [= <-]. by left.
  - intros. by eexists _, _.
  - intros. by eexists _, _.
  - intros. by eexists _, _.
  - intros. by eexists _.
  - intros spec i pc s _. eexists _, _. split; [reflexivity|]. split; [done|].
    assert (exec_ok fu_config spec (decode i) pc (execute i pc)) as H; [|exact H].
    split; unfold decode, execute; repeat case_match; cbn; try done; try (by repeat constructor);
      try (by right; apply has_class; set_solver); try (by intros; split_and!; [..|apply has_class; set_solver]).
  - split; [done|]. right. apply has_class. set_solver.
Qed.

(** Six entries of the window, two loads or stores, four entries of the fetch queue. *)
Definition cf : config := mkConfig 6 2 4 3 1 4 4 4 false true false false spec_ID 1 false 20.

Definition units : res_pool :=
  match res_create_pool fu_config with Ok p => p | Fault _ => mkPool 0 [] [] [] end.
Definition predictor : option bpred_t :=
  match bpred_create BPredComb 16 4 16 16 2 1 4 2 8 with Ok p => Some p | Fault _ => None end.
Definition start : core unit := sim_load_prog cf units predictor tt 4096.

Lemma predictor_ok : pred_ok predictor.
Proof.
  destruct ex_bpred as (p & ords & Hrun & Hok & Hc & _). unfold predictor. rewrite Hrun. intros p' [= <-].
  left. rewrite Hc. split; [done|]. by exists ords.
Qed.
End Toy.

Section Order.
Context {MS : Type}.
Implicit Types c : core MS.

(** In order of time. *)
Definition in_time (l : list alink) : Prop := Sorted Z.le (a_x <$> l).

Lemma in_time_insert as1 as2 a :
  in_time (as1 ++ as2) → Forall (λ b, a_x b < a_x a) as1 → (∀ b, head as2 = Some b → ¬ a_x b < a_x a) →
  in_time (as1 ++ a :: as2).
Proof.
  unfold in_time. induction as1 as [|b as1 IH]; cbn; intros Hs H1 H2.
  - destruct as2 as [|b as2]; [by repeat constructor|]. constructor; [done|]. constructor.
    specialize (H2 b eq_refl). lia.
  - apply Forall_cons in H1 as [Hb H1]. inversion Hs as [|? ? Hs' Hhd]; subst. constructor; [by apply IH|].
    destruct as1 as [|b1 as1]; cbn in *; [constructor; lia|]. inversion Hhd. by constructor.
Qed.

Lemma in_time_suffix as1 as2 : in_time (as1 ++ as2) → in_time as2.
Proof. unfold in_time. induction as1 as [|b as1 IH]; cbn; [done|]. inversion 1; auto. Qed.

(** What [next_event] leaves is the list without its prefix of passed-over events. *)
Lemma next_event_spec w now l : in_time l →
  ∃ dropped, Forall (λ a, a_x a ≤ now ∧ ¬ valid w a) dropped ∧
    match next_event w now l with
    | (Some p, l') => ∃ a, l = dropped ++ a :: l' ∧ a_rs a = p ∧ valid w a ∧ a_x a ≤ now
    | (None, l') => l = dropped ++ l' ∧ Forall (λ a, now < a_x a) l'
    end.
Proof.
  induction l as [|a l IH]; cbn; intros Hs; [by exists []|].
  case_bool_decide as Hx; [case_bool_decide as Hv|].
  - exists []. split; [done|]. by exists a.
  - destruct IH as (d & Hd & Hm); [by apply (in_time_suffix [a])|]. exists (a :: d). split; [by constructor|].
    destruct (next_event w now l) as [[p|] l'].
    + destruct Hm as (b & -> & ?). by exists b.
    + by destruct Hm as [-> ?].
  - exists []. split; [done|]. split; [done|].
    unfold in_time in Hs. rewrite fmap_cons in Hs. apply Sorted_StronglySorted in Hs; [|intros ???; lia].
    inversion Hs as [|? ? _ Hall]; subst. constructor; [lia|].
    rewrite Forall_fmap in Hall. eapply Forall_impl; [exact Hall|]. cbn. lia.
Qed.

(** C30: the event queue of the core.  When the pool of links holds the event list [A
    REvent] in order of time, queueing a completion of a live instance either runs out of
    links or puts it in order of time, and changes nothing else; [eventq_next_event] then
    always returns, it drops due events of squashed instances only, and it yields the
    earliest event that is due and whose instance is still in its station; it yields
    nothing only when no event is due. *)
Theorem event_order c A p when rs :
  pool_of (qs c) (win c) None None A → targets_exist (win c) (A REvent) → in_time (A REvent) →
  station (win c) p = Some rs → completed rs = false → sim_cycle (mach c) < when →
  wp out_of_links (eventq_queue_event c p when) (λ c', ∃ l q, l ≡ₚ (p, rs_tag rs, when) :: A REvent ∧
    in_time l ∧ c' = set_qs q c ∧ pool_of q (win c) None None (upd A REvent l) ∧
    ∀ now, ∃ o l' q' dropped,
      eventq_next_event (set_mach (set_cycle now (mach c')) c')
        = Ok (o, set_qs q' (set_mach (set_cycle now (mach c')) c')) ∧
      pool_of q' (win c) None None (upd A REvent l') ∧
      Forall (λ a, a_x a ≤ now ∧ ¬ valid (win c) a) dropped ∧
      match o with
      | Some t => ∃ a, l = dropped ++ a :: l' ∧ a_rs a = t ∧ valid (win c) a ∧ a_x a ≤ now
      | None => l = dropped ++ l' ∧ Forall (λ a, now < a_x a) l'
      end).
Proof.
  intros Hpool Hte Ht Hp Hc Hw. eapply wp_mono; [by eapply eventq_queue_event_spec| done|].
  intros c' (q & as1 & as2 & -> & HA & H1 & H2 & Hp' & _). rewrite HA in Ht, Hte |- *.
  exists (as1 ++ (p, rs_tag rs, when) :: as2), q.
  assert (in_time (as1 ++ (p, rs_tag rs, when) :: as2)) as Hl by (by apply in_time_insert).
  split; [by rewrite Permutation_middle|]. do 3 (split; [done|]). intros now.
  set (c1 := set_mach _ _). pose proof (next_event_spec (win c) now _ Hl) as (d & Hd & Hm).
  destruct (eventq_next_event_spec c1 None None (upd A REvent (as1 ++ (p, rs_tag rs, when) :: as2)))
    as (q' & Hrun & Hp2); [exact Hp'| |].
  - rewrite upd_same. unfold targets_exist in Hte |- *. rewrite Forall_app, Forall_cons in *.
    destruct Hte. split; [done|]. split; [by exists rs|done].
  - rewrite upd_same in Hrun, Hp2. change (win c1) with (win c) in *. change (sim_cycle (mach c1)) with now in *.
    eexists _, (next_event (win c) now (as1 ++ (p, rs_tag rs, when) :: as2)).2, q', d.
    split; [exact Hrun|]. split; [|split; [exact Hd|]].
    + eapply pool_ext; [exact Hp2|done|]. intros r Hr. unfold upd. by case_decide.
    + destruct (next_event _ _ _) as [[t|] l']; exact Hm.
Qed.
End Order.

(** ** Safety *)

(** C4: the core never panics.  From the state that [sim_load_prog] makes, with the
    functional units of any well-formed configuration, no predictor or a well-formed one,
    and an environment with an invariant under which caches answer, recovery succeeds and
    instructions name existing registers and units, [n] < 2^31 cycles of [sim_main] end only with the program, with the
    message for an exhausted pool of links, one of the two fatal messages of the core (a
    fault of the simulated program, more than 64 stores of unknown data in front of a
    load), or the panic for a completion in the past, the latter only when the environment
    admits latencies that are not positive; no other panic or fatal message, no
    assertion fails, no sanity check panics, no loop of a stage runs out of its bound and
    no access is out of bounds.  Every state in which a run stops or is cut off is
    sound, and the clock counts the cycles. *)
Theorem core_never_panics {MS} `{!Environment MS, !EnvSpec MS} (cf : config) (fu : list res_desc) (c : core MS) n :
  setup cf fu → starts cf fu c → Z.of_nat n < 2 ^ 31 →
  match sim_main cf n c with
  | Ok c' => sound cf c' ∧ 0 < sim_cycle (mach c') ≤ Z.of_nat n
  | Fault OutOfFuel => ∃ c', cycles cf n c = Ok c' ∧ sound cf c' ∧ sim_cycle (mach c') = Z.of_nat n
  | Fault f => f = Panic "out of rs links" ∨ core_fatal f ∨
      (env_late MS ∧ f = Panic "event occurred in the past")
  end.
Proof. apply run_safe. Qed.

(** ** Program order *)

(** C5: retirement is in program order.  In every state reached at the start of a cycle,
    [ruu_commit] returns, the instances that leave are the oldest ones of the window,
    at most [ruu_commit_width] of them, all complete and none from a wrong path; it stops
    at the width, at an empty window, at an instance that is not complete, or at a load
    or store; the instances that stay keep their stations as they were. *)
Theorem commit_in_order {MS} `{!Environment MS, !EnvSpec MS} (cf : config) (fu : list res_desc) n (c : core MS) :
  reached cf fu n c → ∃ c' l, ruu_commit cf c = Ok c' ∧
    rinsts cf (win c) = (rs_inst_of <$> l) ++ rinsts cf (win c') ∧ (length l ≤ ruu_commit_width cf)%nat ∧
    (∀ i rs, l !! i = Some rs → ruu_nth cf (win c) i = Some rs ∧ completed rs = true ∧
       rs_spec_mode (rs_inst_of rs) = false) ∧
    (length l = ruu_commit_width cf ∨ RUU_num (win c') = 0%nat ∨ commit_waits cf c') ∧
    ∀ q, live cf (win c') q → live cf (win c) q ∧ station (win c') q = station (win c) q.
Proof.
  intros Hr. destruct (reached_core cf fu n c Hr) as ([Henv Hfu Hlat _ _ _] & A & Hc & Hn).
  destruct (ruu_commit_good cf fu (queue_ok cf) Hfu Hlat Henv _ A c Hc Hn) as (c' & k & Hrun & _ & _ & Hk & Hle & Hw).
  destruct Hc as [(L & Hg & _) _].
  destruct (retires_spec cf k c c' Hk (g_shape _ _ _ _ _ _ _ _ _ _ Hg)) as (l & Hl & HR & Hall & _ & Hq).
  exists c', l. rewrite Hl. by split_and!.
Qed.

(** C6: recovery is precise.  In every state reached on a wrong path there is exactly one
    mispredicted branch that is not complete, and [ruu_recover] at its position returns;
    it leaves the instances up to the branch and their loads and stores, none of which is
    on the wrong path, with their stations as they were; all that it removes is on the
    wrong path; and every register's creator is again the one of the correct path. *)
Theorem recovery_precise {MS} `{!Environment MS, !EnvSpec MS} (cf : config) (fu : list res_desc) n (c : core MS) :
  reached cf fu n c → spec_mode (mach c) = true →
  ∃ j rs c' l m, (j < RUU_num (win c))%nat ∧ ruu_nth cf (win c) j = Some rs ∧
    recover_inst rs = true ∧ completed rs = false ∧
    (∀ i rs', (i < RUU_num (win c))%nat → ruu_nth cf (win c) i = Some rs' → recover_inst rs' = true →
       completed rs' = true ∨ i = j) ∧
    ruu_recover cf (slot (RUU_size cf) (RUU_head (win c)) j) c = Ok c' ∧ RUU_num (win c') = S j ∧
    rinsts cf (win c) = rinsts cf (win c') ++ l ∧ linsts cf (win c) = linsts cf (win c') ++ m ∧
    Forall (λ i, rs_spec_mode i = true) (l ++ m) ∧
    Forall (λ i, rs_spec_mode i = false) (rinsts cf (win c') ++ linsts cf (win c')) ∧
    (∀ q, live cf (win c') q → live cf (win c) q ∧ station (win c') q = station (win c) q) ∧
    ∀ r, (r < MD_TOTAL_REGS)%nat → CREATE_VECTOR (cvs c') r = vget (create_vector (cvs c)) r.
Proof.
  intros Hr Hsp. destruct (reached_core cf fu n c Hr) as (_ & A & [(L & Hg & HL) [HA Hso]] & Hn).
  pose proof (so_spec _ _ _ _ Hso) as Hs. rewrite Hsp in Hs, HL. cbn [c_bool] in HL. destruct Hs as (j & Hj & Hall).
  pose proof (g_shape _ _ _ _ _ _ _ _ _ _ Hg) as Hsh.
  destruct (live_station cf (win c) _ Hsh (live_nth cf (win c) j Hj)) as [rs Hrs].
  destruct (Hall j rs Hj Hrs) as (_ & _ & Hjj). destruct (Hjj eq_refl) as [Hrec Hcp].
  destruct (ruu_recover_good cf c A None L j Hg HA) as (c' & A' & Hrun & Hg' & _ & _ & En & Eh & Elh & Hq & Hcv & _);
    [lia|done| |].
  { intros i rs' Hi Hr'. destruct (Hall i rs') as [-> _]; [lia|done|]. apply bool_decide_eq_true_2. lia. }
  destruct (recovered_insts cf (win c) (win c') j Hsh (g_shape _ _ _ _ _ _ _ _ _ _ Hg') Hj En Eh Elh) as
    (l & m & H1 & H2 & H3 & H4 & H5 & H6); [exact (λ q Hl, proj2 (Hq q Hl))|exact (λ i rs' Hi Hr', proj1 (Hall i rs' Hi Hr'))|].
  exists j, rs, c', l, m. rewrite !Forall_app. split_and!; try done.
  - intros i rs' Hi Hr'. by apply (Hall i rs').
  - intros r Hlt. rewrite Hcv. unfold CREATE_VECTOR, clear_spec_cv. cbn [use_spec_cv create_vector].
    rewrite (proj2 (vget_Ok _ _ _) (lookup_replicate_2 _ _ _ Hlt)). done.
Qed.

(** ** Witnesses *)

Definition small_config : config :=
  mkConfig 4 2 4 3 1 4 4 4 false true false false spec_CT 1 false 0.

Definition small_core : core unit :=
  mkCore unit (window_init small_config) (rslink_init 4) cv_init
    (mkMachine unit 0 false (mkPool 0 [] [] []) None tt 0 0 0)
    (mkFront [] 0 0 0 0 0 0 0 0 0 None (λ _, 0)).

Lemma small_pool : pool_of (qs small_core) (win small_core) None None (λ _, []).
Proof.
  apply rslink_init_pool. intros [i|i] rs Hi; cbn [station small_core win window_init RUU LSQ] in Hi;
    apply lookup_replicate in Hi as [-> _]; by repeat constructor.
Qed.

(** An event for time 5 comes out at time 7. *)
Lemma event_order_witness : ∃ c' q', eventq_queue_event small_core (InRUU 0) 5 = Ok c' ∧
  eventq_next_event (set_mach (set_cycle 7 (mach c')) c')
  = Ok (Some (InRUU 0), set_qs q' (set_mach (set_cycle 7 (mach c')) c')).
Proof.
  pose proof (event_order small_core (λ _, []) (InRUU 0) 5 empty_station small_pool) as H.
  destruct (eventq_queue_event small_core (InRUU 0) 5) as [c'|f] eqn:Hrun; [|discriminate Hrun].
  destruct H as (l & q & Hl & _ & _ & _ & Hnow); [constructor|constructor|reflexivity|reflexivity|reflexivity|].
  apply Permutation_singleton_r in Hl. destruct (Hnow 7) as (o & l' & q' & d & Hn & _ & Hd & Ho).
  exists c', q'. split; [reflexivity|]. rewrite Hn. f_equal. f_equal. destruct o as [t|].
  - destruct Ho as (a & Hla & Ht & _). rewrite Hl in Hla. destruct d as [|b d]; [|by destruct d].
    injection Hla as <- _. by subst t.
  - destruct Ho as [Hla Hall]. exfalso. rewrite Hl in Hla. destruct d as [|b d].
    + cbn in Hla. subst l'. apply Forall_cons in Hall as [Hall _]. discriminate Hall.
    + injection Hla as <- _. apply Forall_cons in Hd as [[_ Hv] _]. apply Hv. reflexivity.
Defined.

Lemma toy_lat d t : d ∈ fu_config → t ∈ active (templates d) → 1 ≤ rt_oplat t < 2 ^ 31.
Proof.
  intros Hd. repeat (apply elem_of_cons in Hd as [->|Hd];
    [intros Ht; vm_compute in Ht; repeat (apply elem_of_cons in Ht as [->|Ht]; [vm_compute; split; [discriminate|reflexivity]|]);
     by apply elem_of_nil in Ht|]). by apply elem_of_nil in Hd.
Qed.

Lemma toy_setup : setup Toy.cf fu_config.
Proof. split; [apply Toy.env_ok|apply fu_config_ok|apply toy_lat|cbn; lia|cbn; lia|cbn; lia]. Qed.

Lemma toy_starts : starts Toy.cf fu_config Toy.start.
Proof. exists Toy.units, Toy.predictor, tt, 4096. split; [reflexivity|]. split; [apply Toy.predictor_ok|by split]. Qed.

(** Twenty-one instructions, and the wrong paths behind three branches, take 26 cycles. *)
Lemma core_never_panics_witness :
  match sim_main Toy.cf 60 Toy.start with
  | Ok c => sound Toy.cf c ∧ sim_cycle (mach c) = 26 ∧ counters (front c) sim_num_insn = 21 ∧
      counters (front c) sim_total_insn = 39
  | Fault _ => False
  end.
Proof.
  pose proof (core_never_panics Toy.cf fu_config Toy.start 60 toy_setup toy_starts eq_refl) as H.
  assert (match sim_main Toy.cf 60 Toy.start with
    | Ok c => (sim_cycle (mach c), counters (front c) sim_num_insn, counters (front c) sim_total_insn) = (26, 21, 39)
    | Fault _ => False end) as Hv by (vm_compute; reflexivity).
  destruct (sim_main _ _ _) as [c|f]; [|exact Hv]. injection Hv as E1 E2 E3.
  split; [apply H|]. by split.
Defined.

(** The toy machine after [n] cycles. *)
Definition toy_at (n : nat) : core unit := match cycles Toy.cf n Toy.start with Ok c => c | Fault _ => Toy.start end.

Lemma toy_reached n : bool_decide (Z.of_nat n < 2 ^ 31 - 1) = true →
  match cycles Toy.cf n Toy.start with Ok _ => true | Fault _ => false end = true → reached Toy.cf fu_config n (toy_at n).
Proof.
  intros Hn%bool_decide_eq_true Hc. split; [apply toy_setup|]. split; [done|]. exists Toy.start. split; [apply toy_starts|].
  unfold toy_at. by destruct (cycles _ _ _).
Qed.

(** Two instances retire in cycle 15. *)
Lemma commit_in_order_witness : ∃ c' l, ruu_commit Toy.cf (toy_at 14) = Ok c' ∧
  rinsts Toy.cf (win (toy_at 14)) = (rs_inst_of <$> l) ++ rinsts Toy.cf (win c') ∧
  (length (rinsts Toy.cf (win (toy_at 14))), length (rinsts Toy.cf (win c'))) = (3, 1)%nat.
Proof.
  destruct (commit_in_order Toy.cf fu_config 14 (toy_at 14)) as (c' & l & Hrun & HR & _).
  { apply toy_reached; vm_compute; reflexivity. }
  exists c', l. split; [exact Hrun|]. split; [exact HR|].
  assert (match ruu_commit Toy.cf (toy_at 14) with
    | Ok c' => (length (rinsts Toy.cf (win (toy_at 14))), length (rinsts Toy.cf (win c'))) | Fault _ => (0, 0)%nat end
    = (3, 1)%nat) as Hv by (vm_compute; reflexivity).
  rewrite Hrun in Hv. exact Hv.
Defined.

Lemma toy_branch j : (j < 4)%nat → (recover_inst <$> ruu_nth Toy.cf (win (toy_at 16)) j) = Some true → j = 1%nat.
Proof.
  intros Hj Hr. assert (bool_decide (recover_inst <$> ruu_nth Toy.cf (win (toy_at 16)) j = Some true) = true) as Hb
    by exact (bool_decide_eq_true_2 _ Hr). clear Hr. revert j Hj Hb.
  assert (forallb (λ j, implb (bool_decide (recover_inst <$> ruu_nth Toy.cf (win (toy_at 16)) j = Some true)) (bool_decide (j = 1%nat)))
    (seq 0 4) = true) as Hall by (vm_compute; reflexivity).
  intros j Hj Hb. rewrite forallb_forall in Hall. specialize (Hall j). rewrite Hb in Hall.
  eapply bool_decide_eq_true_1. apply Hall, in_seq. lia.
Qed.

(** After 16 cycles a branch waits for its operands with two instances behind it. *)
Lemma recovery_precise_witness : ∃ c' l, ruu_recover Toy.cf 3 (toy_at 16) = Ok c' ∧
  rinsts Toy.cf (win (toy_at 16)) = rinsts Toy.cf (win c') ++ l ∧ length l = 2%nat.
Proof.
  destruct (recovery_precise Toy.cf fu_config 16 (toy_at 16)) as (j & rs & c' & l & m & Hj & Hrs & Hrec & Hcp & _ & Hrun & _ & HR & _).
  { apply toy_reached; vm_compute; reflexivity. }
  { vm_compute. reflexivity. }
  assert (j = 1%nat) as ->.
  { apply toy_branch; [|rewrite Hrs; cbn; by rewrite Hrec].
    assert (RUU_num (win (toy_at 16)) = 4%nat) as Hn by (vm_compute; reflexivity).
    rewrite Hn in Hj. exact Hj. }
  assert (slot (RUU_size Toy.cf) (RUU_head (win (toy_at 16))) 1 = 3%nat) as Hs by (vm_compute; reflexivity).
  rewrite Hs in Hrun.
  exists c', l. split; [exact Hrun|]. split; [exact HR|].
  assert (match ruu_recover Toy.cf 3 (toy_at 16) with
    | Ok c' => (length (rinsts Toy.cf (win (toy_at 16))), length (rinsts Toy.cf (win c'))) | Fault _ => (0, 0)%nat end
    = (4, 2)%nat) as Hv by (vm_compute; reflexivity).
  rewrite Hrun in Hv. revert Hv. apply (f_equal length) in HR. rewrite length_app in HR. revert HR.
  generalize (length (rinsts Toy.cf (win c'))) (length (rinsts Toy.cf (win (toy_at 16)))).
  intros a b Hab Hv. injection Hv as -> ->. clear -Hab. lia.
Defined.
