(* ===== verification/SpecState.v ===== *)
(** * sim-outorder.c: the state of the wrong path

    While it executes a wrong path the trace generator writes to copies: registers that
    bitmaps select, and a hash table of eight-byte entries over the memory.  Recovery
    clears both.  Entries of the table are positions in the list of all entries allocated
    so far.  The dump routines only print. *)

From S2P Require Import Prelude Misc Memory.

(** ** Bitmaps (bitmap.h) *)

Definition BITMAP_SIZE (bits : nat) : nat := (bits + 31) / 32.
Definition bit_mask (bit : nat) : Z := u32 (Z.shiftl 1 (Z.of_nat (bit mod 32))).

(** [BITMAP_CLEAR_MAP], [BITMAP_SET] and [BITMAP_SET_P]. *)
Definition BITMAP_CLEAR_MAP (sz : nat) : list Z := replicate sz 0.
Definition bitmap_set (bmap : list Z) (bit : nat) : result (list Z) :=
  vupd bmap (bit / 32) (λ w, Z.lor w (bit_mask bit)).
Definition BITMAP_SET_P (bmap : list Z) (bit : nat) : result bool :=
  w ← vget bmap (bit / 32); Ok (negb (bool_decide (Z.land w (bit_mask bit) = 0))).

(** ** Registers *)

Definition MD_NUM_IREGS : nat := 32.
Definition MD_NUM_FREGS : nat := 32.
Definition MD_NUM_CREGS : nat := 3.

(** A register file: integer registers, the words of the floating point registers (a
    union of words, singles and doubles), and HI, LO and FCC. *)
Record reg_file := mkRegs { regs_R : list Z; regs_F : list Z; regs_C : list Z }.

Record spec_regs := mkSpecRegs {
  use_spec_R : list Z;
  use_spec_F : list Z;
  use_spec_C : list Z;
  spec_R : reg_file
}.

(** The architected registers and their copies. *)
Record reg_state := mkRegState { arch : reg_file; spec : spec_regs }.

Inductive bank := BankR | BankF | BankC.

Definition bank_of (b : bank) (r : reg_file) : list Z :=
  match b with BankR => regs_R r | BankF => regs_F r | BankC => regs_C r end.
Definition set_bank (b : bank) (l : list Z) (r : reg_file) : reg_file :=
  match b with
  | BankR => mkRegs l (regs_F r) (regs_C r)
  | BankF => mkRegs (regs_R r) l (regs_C r)
  | BankC => mkRegs (regs_R r) (regs_F r) l
  end.
Definition use_of (b : bank) (s : spec_regs) : list Z :=
  match b with BankR => use_spec_R s | BankF => use_spec_F s | BankC => use_spec_C s end.
Definition set_use (b : bank) (w : list Z) (s : spec_regs) : spec_regs :=
  match b with
  | BankR => mkSpecRegs w (use_spec_F s) (use_spec_C s) (spec_R s)
  | BankF => mkSpecRegs (use_spec_R s) w (use_spec_C s) (spec_R s)
  | BankC => mkSpecRegs (use_spec_R s) (use_spec_F s) w (spec_R s)
  end.
Definition set_spec_R (r : reg_file) (s : spec_regs) : spec_regs :=
  mkSpecRegs (use_spec_R s) (use_spec_F s) (use_spec_C s) r.

(** The pattern of the accessors: the copy of cell [i] if bit [bit] of the bank's bitmap
    is set; in speculative mode a write goes to the copy and sets the bit. *)
Definition get_reg (b : bank) (bit i : nat) (r : reg_state) : result Z :=
  u ← BITMAP_SET_P (use_of b (spec r)) bit;
  if u : bool then vget (bank_of b (spec_R (spec r))) i else vget (bank_of b (arch r)) i.

Definition set_reg (spec_mode : bool) (b : bank) (bit i : nat) (v : Z) (r : reg_state) : result reg_state :=
  if spec_mode then
    l ← vset (bank_of b (spec_R (spec r))) i v;
    w ← bitmap_set (use_of b (spec r)) bit;
    Ok (mkRegState (arch r) (set_use b w (set_spec_R (set_bank b l (spec_R (spec r))) (spec r))))
  else
    l ← vset (bank_of b (arch r)) i v;
    Ok (mkRegState (set_bank b l (arch r)) (spec r)).

Definition GPR (n : nat) : reg_state → result Z := get_reg BankR n n.
Definition SET_GPR (m : bool) (n : nat) : Z → reg_state → result reg_state := set_reg m BankR n n.

(** [N & ~1]. *)
Definition pair_of (n : nat) : nat := n / 2 * 2.

(** The word view of the floating point registers, of the PISA target; the single view
    has the same cells. *)
Definition FPR_L (n : nat) : reg_state → result Z := get_reg BankF (pair_of n) n.
Definition SET_FPR_L (m : bool) (n : nat) : Z → reg_state → result reg_state := set_reg m BankF (pair_of n) n.

(** The double view: cell [N >> 1] is the pair of words. *)
Definition FPR_D (n : nat) (r : reg_state) : result (Z * Z) :=
  a ← get_reg BankF (pair_of n) (pair_of n) r;
  b ← get_reg BankF (pair_of n) (pair_of n + 1) r; Ok (a, b).
Definition SET_FPR_D (m : bool) (n : nat) (v : Z * Z) (r : reg_state) : result reg_state :=
  r ← set_reg m BankF (pair_of n) (pair_of n) v.1 r;
  set_reg m BankF (pair_of n) (pair_of n + 1) v.2 r.

(** HI, LO and FCC. *)
Definition HI : reg_state → result Z := get_reg BankC 0 0.
Definition SET_HI (m : bool) : Z → reg_state → result reg_state := set_reg m BankC 0 0.
Definition LO : reg_state → result Z := get_reg BankC 1 1.
Definition SET_LO (m : bool) : Z → reg_state → result reg_state := set_reg m BankC 1 1.
Definition FCC : reg_state → result Z := get_reg BankC 2 2.
Definition SET_FCC (m : bool) : Z → reg_state → result reg_state := set_reg m BankC 2 2.

(** The Alpha target: UNIQ has bit 1, and the bit that [FCC] tests is not the one that
    [SET_FCC] sets. *)
Definition UNIQ : reg_state → result Z := get_reg BankC 1 1.
Definition alpha_FCC : reg_state → result Z := get_reg BankC 2 2.
Definition alpha_SET_FCC (m : bool) : Z → reg_state → result reg_state := set_reg m BankC 1 2.

(** [tracer_init] and the part of [tracer_recover] for registers. *)
Definition clear_spec_regs (s : spec_regs) : spec_regs :=
  mkSpecRegs (BITMAP_CLEAR_MAP (BITMAP_SIZE MD_NUM_IREGS)) (BITMAP_CLEAR_MAP (BITMAP_SIZE MD_NUM_FREGS))
    (BITMAP_CLEAR_MAP (BITMAP_SIZE MD_NUM_CREGS)) (spec_R s).

(** ** Memory *)

Definition STORE_HASH_SIZE : nat := 32.

(** An entry of the table; [data] is eight bytes in the order of the host. *)
Record spec_mem_ent := mkEnt { e_next : option nat; e_addr : Z; e_data : list Z }.

Record spec_mem := mkSpecMem {
  entries : list spec_mem_ent;
  store_htable : list (option nat);
  bucket_free_list : option nat
}.

Definition set_entries (l : list spec_mem_ent) (s : spec_mem) : spec_mem :=
  mkSpecMem l (store_htable s) (bucket_free_list s).
Definition set_htable (l : list (option nat)) (s : spec_mem) : spec_mem :=
  mkSpecMem (entries s) l (bucket_free_list s).
Definition set_bucket_free (o : option nat) (s : spec_mem) : spec_mem :=
  mkSpecMem (entries s) (store_htable s) o.
Definition ent_next (o : option nat) (e : spec_mem_ent) : spec_mem_ent := mkEnt o (e_addr e) (e_data e).
Definition ent_data (d : list Z) (e : spec_mem_ent) : spec_mem_ent := mkEnt (e_next e) (e_addr e) d.

(** [ent->next = o]. *)
Definition set_ent_next (s : spec_mem) (e : nat) (o : option nat) : result spec_mem :=
  l ← vupd (entries s) e (ent_next o); Ok (set_entries l s).

Definition spec_mem_init : spec_mem := mkSpecMem [] (replicate STORE_HASH_SIZE None) None.

Definition HASH_ADDR (addr : Z) : nat :=
  Z.to_nat (Z.land (Z.lxor (Z.lxor (Z.lxor (Z.shiftr addr 24) (Z.shiftr addr 16)) (Z.shiftr addr 8)) addr)
    (Z.of_nat STORE_HASH_SIZE - 1)).

(** The search of a bucket: the entry and the one before it. *)
Fixpoint find_ent (fuel : nat) (l : list spec_mem_ent) (addr : Z) (prev node : option nat)
    : result (option nat * option nat) :=
  match node with
  | None => Ok (prev, None)
  | Some n =>
      e ← vget l n;
      if bool_decide (e_addr e = addr) then Ok (prev, Some n) else
      match fuel with
      | O => Fault OutOfFuel
      | S fuel => find_ent fuel l addr (Some n) (e_next e)
      end
  end.

(** The entry found is moved to the front of its bucket. *)
Definition to_front (s : spec_mem) (index : nat) (prev : option nat) (n : nat) : result spec_mem :=
  match prev with
  | None => Ok s
  | Some p =>
      e ← vget (entries s) n;
      s ← set_ent_next s p (e_next e);
      head ← vget (store_htable s) index;
      s ← set_ent_next s n head;
      l ← vset (store_htable s) index (Some n);
      Ok (set_htable l s)
  end.

Definition spec_lookup (s : spec_mem) (addr : Z) : result (option nat * spec_mem) :=
  head ← vget (store_htable s) (HASH_ADDR addr);
  '(prev, o) ← find_ent (length (entries s)) (entries s) addr None head;
  match o with
  | None => Ok (None, s)
  | Some n => s ← to_front s (HASH_ADDR addr) prev n; Ok (Some n, s)
  end.

(** [calloc] of an entry when the free list is empty. *)
Definition alloc_ent (s : spec_mem) : spec_mem :=
  match bucket_free_list s with
  | Some _ => s
  | None => set_bucket_free (Some (length (entries s)))
              (set_entries (entries s ++ [mkEnt None 0 (replicate 8 0)]) s)
  end.

(** The entry for a write; in [bugcompat_mode] it stays out of the table. *)
Definition new_ent (bugcompat : bool) (s : spec_mem) (addr : Z) : result (nat * spec_mem) :=
  let s := alloc_ent s in
  n ← deref (bucket_free_list s);
  e ← vget (entries s) n;
  let s := set_bucket_free (e_next e) s in
  if bugcompat then Ok (n, s) else
  head ← vget (store_htable s) (HASH_ADDR addr);
  l ← vset (entries s) n (mkEnt head addr (replicate 8 0));
  h ← vset (store_htable s) (HASH_ADDR addr) (Some n);
  Ok (n, set_htable h (set_entries l s)).

(** [n] bytes of [src] to the front of [dst]. *)
Definition copy_bytes (n : nat) (src dst : list Z) : result (list Z) :=
  if bool_decide (n ≤ length src)%nat && bool_decide (n ≤ length dst)%nat
  then Ok (take n src ++ drop n dst) else Fault OutOfBounds.

(** [MEM_READ] of a type of [n] bytes; [swap] is whether the byte order of target and host
    differ, and [MD_SWAPH] and [MD_SWAPW] swap. *)
Definition MEM_READ (swap : bool) (m : mem_t) (addr : Z) (n : nat) : result (list Z * mem_t) :=
  match MEM_PAGE m addr with
  | (None, m) => Ok (replicate n 0, m)
  | (Some _, m) =>
      let '(o, m) := MEM_PAGE m addr in
      pg ← deref o;
      page ← vget (pages m) pg;
      let off := Z.to_nat (MEM_OFFSET addr) in
      if bool_decide (off + n ≤ length page)%nat
      then let bs := take n (drop off page) in Ok (if swap then reverse bs else bs, m)
      else Fault OutOfBounds
  end.

Section Access.
Variable bugcompat_mode MD_CROSS_ENDIAN : bool.
Variables ld_text_base ld_text_size ld_data_base ld_stack_base : Z.

Definition MD_VALID_ADDR (addr : Z) : bool :=
  (bool_decide (ld_text_base ≤ addr) && bool_decide (addr < u32 (ld_text_base + ld_text_size)))
  || (bool_decide (ld_data_base ≤ addr) && bool_decide (addr < ld_stack_base)).

(** What is not in the table is read from memory, eight bytes as two words. *)
Definition read_nonspec (m : mem_t) (addr : Z) (n : nat) : result (list Z * mem_t) :=
  match n with
  | 8%nat =>
      '(a, m) ← MEM_READ MD_CROSS_ENDIAN m addr 4;
      '(b, m) ← MEM_READ MD_CROSS_ENDIAN m (u32 (addr + 4)) 4;
      Ok (a ++ b, m)
  | _ => MEM_READ (MD_CROSS_ENDIAN && bool_decide (n ≠ 1%nat)) m addr n
  end.

Definition zero_bytes (n : nat) (p : list Z) : result (list Z) := copy_bytes n (replicate n 0) p.

(** [spec_mem_access]: the fault, the buffer, the memory and the table. *)
Definition spec_mem_access (m : mem_t) (s : spec_mem) (cmd : mem_cmd) (addr : Z) (p : list Z) (nbytes : Z)
    : result (md_fault_type * list Z * mem_t * spec_mem) :=
  let n := Z.to_nat nbytes in
  if bool_decide (Z.land nbytes (nbytes - 1) ≠ 0 ∨ Z.land addr (u32 (nbytes - 1)) ≠ 0)
  then p ← zero_bytes n p; Ok (md_fault_none, p, m, s) else
  if negb ((bool_decide (ld_text_base ≤ addr) && bool_decide (addr < u32 (ld_text_base + ld_text_size))
            && bool_decide (cmd = Read)) || MD_VALID_ADDR addr)
  then p ← zero_bytes n p; Ok (md_fault_none, p, m, s) else
  '(o, s) ← spec_lookup s addr;
  '(o, s) ← (match o, cmd with
             | None, Write => '(n, s) ← new_ent bugcompat_mode s addr; Ok (Some n, s)
             | _, _ => Ok (o, s)
             end);
  if bool_decide (n ∈ [1; 2; 4; 8]%nat) then
    match cmd, o with
    | Read, Some e =>
        ent ← vget (entries s) e;
        p ← copy_bytes n (e_data ent) p;
        Ok (md_fault_none, p, m, s)
    | Read, None =>
        '(bs, m) ← read_nonspec m addr n;
        p ← copy_bytes n bs p;
        Ok (md_fault_none, p, m, s)
    | Write, _ =>
        e ← deref o;
        ent ← vget (entries s) e;
        d ← copy_bytes n p (e_data ent);
        l ← vset (entries s) e (ent_data d ent);
        Ok (md_fault_none, p, m, set_entries l s)
    end
  else Fault (Panic "access size not supported in mis-speculative mode").
End Access.

(** ** Recovery *)

(** The entries of a bucket go to the free list. *)
Fixpoint release_bucket (fuel : nat) (s : spec_mem) (node : option nat) : result spec_mem :=
  match node with
  | None => Ok s
  | Some n =>
      match fuel with
      | O => Fault OutOfFuel
      | S fuel =>
          e ← vget (entries s) n;
          s' ← set_ent_next s n (bucket_free_list s);
          release_bucket fuel (set_bucket_free (Some n) s') (e_next e)
      end
  end.

Fixpoint release_buckets (idxs : list nat) (s : spec_mem) : result spec_mem :=
  match idxs with
  | [] => Ok s
  | i :: idxs =>
      head ← vget (store_htable s) i;
      s ← release_bucket (length (entries s)) s head;
      h ← vset (store_htable s) i None;
      release_buckets idxs (set_htable h s)
  end.

(** The state of the trace generator, and the part of [tracer_recover] that resets it;
    the fetch queue is reset with the core. *)
Record tracer := mkTracer { t_regs : reg_state; t_mem : mem_t; t_spec : spec_mem }.

Definition tracer_reset (t : tracer) : result tracer :=
  s ← release_buckets (seq 0 STORE_HASH_SIZE) (t_spec t);
  Ok (mkTracer (mkRegState (arch (t_regs t)) (clear_spec_regs (spec (t_regs t)))) (t_mem t) s).

Definition tracer_init (t : tracer) : tracer :=
  mkTracer (mkRegState (arch (t_regs t)) (clear_spec_regs (spec (t_regs t)))) (t_mem t)
    (set_htable (replicate STORE_HASH_SIZE None) (t_spec t)).
