(* ===== verification/SpecInv.v ===== *)
(** * The speculative memory table: invariant

    The buckets and the free list are disjoint chains of entries, an address has at most
    one entry, in the bucket it hashes to; [spec_sim] relates a table to the finite map
    from addresses to bytes that it stands for. *)

From S2P Require Import Prelude Chains Misc Memory MemorySpec SpecState.

(** ** Entries *)

Definition nx (s : spec_mem) (n : nat) : option nat := entries s !! n ≫= e_next.

(** What an entry holds besides its link. *)
Definition content (s : spec_mem) (n : nat) : option (Z * list Z) :=
  (λ e, (e_addr e, e_data e)) <$> entries s !! n.

Definition same_content (s s' : spec_mem) : Prop := ∀ n, content s' n = content s n.

#[export] Instance same_content_equivalence : Equivalence same_content.
Proof.
  split; [done|intros s s' H n; by rewrite H|].
  intros s1 s2 s3 H H' n. by rewrite H', H.
Qed.

Lemma content_is_Some s n : is_Some (content s n) ↔ (n < length (entries s))%nat.
Proof. unfold content. rewrite fmap_is_Some. apply lookup_lt_is_Some. Qed.

Lemma same_content_length s s' : same_content s s' → length (entries s') = length (entries s).
Proof.
  intros H. assert (∀ n, (n < length (entries s'))%nat ↔ (n < length (entries s))%nat) as Hlt.
  { intros n. by rewrite <- !content_is_Some, H. }
  pose proof (proj1 (Hlt (length (entries s)))). pose proof (proj2 (Hlt (length (entries s')))). lia.
Qed.

Lemma set_ent_next_spec s n o :
  (n < length (entries s))%nat →
  ∃ s', set_ent_next s n o = Ok s' ∧ (∀ c, nx s' c = if decide (c = n) then o else nx s c) ∧
        same_content s s' ∧ store_htable s' = store_htable s ∧ bucket_free_list s' = bucket_free_list s.
Proof.
  intros [e He]%lookup_lt_is_Some_2. unfold set_ent_next, vupd, vget. rewrite He.
  eexists. split; [reflexivity|]. split; [|split; [|done]].
  - intros c. unfold nx. cbn [entries set_entries]. case_decide as Hc.
    + subst. by rewrite list_lookup_insert_eq by (by eapply lookup_lt_Some).
    + by rewrite list_lookup_insert_ne.
  - intros c. unfold content. cbn [entries set_entries]. destruct (decide (c = n)) as [->|Hc].
    + by rewrite list_lookup_insert_eq, He by (by eapply lookup_lt_Some).
    + by rewrite list_lookup_insert_ne.
Qed.

Lemma HASH_ADDR_lt addr : (HASH_ADDR addr < STORE_HASH_SIZE)%nat.
Proof.
  unfold HASH_ADDR, STORE_HASH_SIZE. change (Z.of_nat 32 - 1) with (Z.ones 5).
  rewrite Z.land_ones by lia.
  pose proof (Z.mod_pos_bound (Z.lxor (Z.lxor (Z.lxor (Z.shiftr addr 24) (Z.shiftr addr 16))
    (Z.shiftr addr 8)) addr) (2 ^ 5)). lia.
Qed.

(** ** Invariant *)

(** [b i] is bucket [i] and [fl] the free list. *)
Record spec_rep (s : spec_mem) (b : nat → list nat) (fl : list nat) : Prop := {
  sr_bucket : ∀ i, (i < STORE_HASH_SIZE)%nat → ∃ h, store_htable s !! i = Some h ∧ chain (nx s) h (b i);
  sr_free : chain (nx s) (bucket_free_list s) fl;
  sr_nodup : ∀ i, NoDup (b i ++ fl);
  sr_hash : ∀ i n, n ∈ b i → ∃ a d, content s n = Some (a, d) ∧ HASH_ADDR a = i;
  sr_addr : ∀ i n n' a d d', n ∈ b i → n' ∈ b i →
    content s n = Some (a, d) → content s n' = Some (a, d') → n = n';
  sr_lt : Forall (λ n, n < length (entries s))%nat fl;
  sr_data : ∀ n a d, content s n = Some (a, d) → length d = 8%nat
}.

(** The table stands for the map [o]. *)
Definition overlay_of (s : spec_mem) (b : nat → list nat) (o : gmap Z (list Z)) : Prop :=
  ∀ a d, o !! a = Some d ↔ ∃ n, n ∈ b (HASH_ADDR a) ∧ content s n = Some (a, d).

Definition spec_sim (s : spec_mem) (o : gmap Z (list Z)) : Prop :=
  ∃ b fl, spec_rep s b fl ∧ overlay_of s b o.

Lemma sr_in_bucket s b fl i n :
  spec_rep s b fl → n ∈ b i → (n < length (entries s))%nat.
Proof. intros Hr Hn. apply content_is_Some. by destruct (sr_hash _ _ _ Hr _ _ Hn) as (a & d & -> & _). Qed.

Lemma sr_disjoint s b fl i j n : spec_rep s b fl → n ∈ b i → n ∈ b j → i = j.
Proof.
  intros Hr Hi Hj. destruct (sr_hash _ _ _ Hr _ _ Hi) as (a & d & Hc & <-).
  destruct (sr_hash _ _ _ Hr _ _ Hj) as (a' & d' & Hc' & <-). by simplify_eq.
Qed.

Lemma sr_not_free s b fl i n : spec_rep s b fl → n ∈ b i → n ∉ fl.
Proof. intros Hr Hi Hf. pose proof (sr_nodup _ _ _ Hr i) as (_ & Hd & _)%NoDup_app. by apply (Hd n). Qed.

Lemma sr_bucket_length s b fl i : spec_rep s b fl → (length (b i) ≤ length (entries s))%nat.
Proof.
  intros Hr. apply nodup_lt_length; [by pose proof (sr_nodup _ _ _ Hr i) as (? & _)%NoDup_app|].
  apply Forall_forall. intros n Hn. by eapply sr_in_bucket.
Qed.

(** The map determines what the table answers for an address. *)
Lemma overlay_lookup s b fl o n a d :
  spec_rep s b fl → overlay_of s b o → n ∈ b (HASH_ADDR a) → content s n = Some (a, d) → o !! a = Some d.
Proof. intros Hr Ho Hn Hc. apply Ho. eauto. Qed.

(** An empty table. *)
Lemma spec_sim_init : spec_sim spec_mem_init ∅.
Proof.
  exists (λ _, []), []. split; [|intros a d; rewrite lookup_empty; set_solver].
  split; try done; try set_solver.
  - intros i Hi. exists None. split; [|done]. by apply lookup_replicate_2.
  - intros _. constructor.
Qed.

(** ** Search *)

Lemma find_ent_spec s a bs : ∀ fuel prev node,
  chain (nx s) node bs → Forall (λ n, n < length (entries s))%nat bs → (length bs ≤ fuel)%nat →
  (∃ bs1 n bs2 d, bs = bs1 ++ n :: bs2 ∧ content s n = Some (a, d) ∧
     find_ent fuel (entries s) a prev node = Ok (from_option Some prev (last bs1), Some n)) ∨
  ((∀ n d, n ∈ bs → content s n ≠ Some (a, d)) ∧
     ∃ p, find_ent fuel (entries s) a prev node = Ok (p, None)).
Proof.
  induction bs as [|n bs IH]; intros fuel prev node Hc Hl Hf; simpl in Hc.
  { subst. right. split; [set_solver|]. by destruct fuel; eexists. }
  destruct Hc as [-> Hc]. apply Forall_cons in Hl as [Hn Hl].
  apply lookup_lt_is_Some_2 in Hn as [e He]. unfold nx in Hc. rewrite He in Hc. simpl in Hc.
  destruct fuel as [|fuel]; [simpl in Hf; lia|].
  assert (find_ent (S fuel) (entries s) a prev (Some n)
    = if bool_decide (e_addr e = a) then Ok (prev, Some n)
      else find_ent fuel (entries s) a (Some n) (e_next e)) as Hfe.
  { cbn [find_ent]. unfold vget. by rewrite He. }
  case_bool_decide as Ha.
  - left. exists [], n, bs, (e_data e). split; [done|]. split; [|by rewrite Hfe].
    unfold content. rewrite He. simpl. by rewrite Ha.
  - specialize (IH fuel (Some n) _ Hc Hl ltac:(simpl in Hf; lia)) as [IH|[IH [p Hp]]].
    + left. destruct IH as (bs1 & n' & bs2 & d & -> & Hcn & HI).
      exists (n :: bs1), n', bs2, d. split; [done|]. split; [done|]. rewrite Hfe, HI.
      rewrite last_cons. by destruct (last bs1).
    + right. split; [|exists p; by rewrite Hfe].
      intros n' d [->|Hn']%elem_of_cons; [|by apply IH].
      unfold content. rewrite He. simpl. congruence.
Qed.

Lemma last_split (l : list nat) x : last l = Some x → ∃ l', l = l' ++ [x].
Proof.
  destruct l as [|y l' _] using rev_ind; [done|]. rewrite last_snoc. intros [= ->]. by exists l'.
Qed.

(** Only bucket [i] changes, by a permutation. *)
Definition with_bucket (b : nat → list nat) (i : nat) (l : list nat) (j : nat) : list nat :=
  if decide (j = i) then l else b j.

Lemma overlay_perm s s' b i l o :
  same_content s s' → l ≡ₚ b i → overlay_of s b o → overlay_of s' (with_bucket b i l) o.
Proof.
  intros Hs Hp Ho a d. rewrite (Ho a d). setoid_rewrite (λ n, Hs n). f_equiv. intros n.
  unfold with_bucket. case_decide as Hi; [|done]. by rewrite Hp, Hi.
Qed.

Lemma spec_rep_relink s s' b fl i l h :
  spec_rep s b fl → same_content s s' → bucket_free_list s' = bucket_free_list s →
  l ≡ₚ b i → (∀ c, c ∉ b i → nx s' c = nx s c) →
  (i < length (store_htable s))%nat →
  store_htable s' = <[i := h]> (store_htable s) → chain (nx s') h l →
  spec_rep s' (with_bucket b i l) fl.
Proof.
  intros Hr Hs Hfree Hp Hnx Hi Hh Hc.
  assert (∀ j n, n ∈ with_bucket b i l j → n ∈ b j) as Hin.
  { intros j n. unfold with_bucket. case_decide; [subst; by rewrite Hp|done]. }
  split.
  - intros j Hj. rewrite Hh. unfold with_bucket. case_decide as Hji.
    + subst. exists h. split; [|done]. by apply list_lookup_insert_eq.
    + destruct (sr_bucket _ _ _ Hr j Hj) as (h' & Hh' & Hc').
      exists h'. rewrite list_lookup_insert_ne by done. split; [done|].
      eapply chain_ext; [|exact Hc']. intros c Hcj. apply Hnx. intros Hci.
      by eapply Hji, (sr_disjoint s).
  - rewrite Hfree. eapply chain_ext; [|apply Hr]. intros c Hcf. apply Hnx. intros Hci.
    by eapply (sr_not_free s).
  - intros j. unfold with_bucket. case_decide; [|apply Hr]. rewrite Hp. apply Hr.
  - intros j n Hn. rewrite Hs. by apply (sr_hash _ _ _ Hr), Hin.
  - intros j n n' a d d' Hn Hn'. rewrite !(Hs _). apply (sr_addr _ _ _ Hr j); by apply Hin.
  - rewrite (same_content_length _ _ Hs). apply Hr.
  - intros n a d. rewrite Hs. apply Hr.
Qed.

Lemma to_front_spec s b fl i bs1 n bs2 :
  spec_rep s b fl → (i < STORE_HASH_SIZE)%nat → b i = bs1 ++ n :: bs2 →
  ∃ s', to_front s i (from_option Some None (last bs1)) n = Ok s' ∧ same_content s s' ∧
        spec_rep s' (with_bucket b i (n :: bs1 ++ bs2)) fl.
Proof.
  intros Hr Hi Hb. destruct (sr_bucket _ _ _ Hr i Hi) as (h & Hh & Hc).
  destruct (last bs1) as [q|] eqn:Hq; simpl.
  2: { apply last_None in Hq as ->. simpl in Hb |- *. exists s. split; [done|]. split; [done|].
       apply (spec_rep_relink s s b fl i _ h); try done; [by rewrite Hb|by apply lookup_lt_Some in Hh| |].
       - by rewrite list_insert_id.
       - by rewrite <- Hb. }
  apply last_split in Hq as [bs ->]. rewrite Hb in Hc. rewrite <- app_assoc in Hc. simpl in Hc.
  assert (NoDup (bs ++ q :: n :: bs2)) as Hnd.
  { pose proof (sr_nodup _ _ _ Hr i) as (H & _)%NoDup_app. rewrite Hb, <- app_assoc in H. done. }
  assert (∀ c, c ∈ b i → (c < length (entries s))%nat) as Hlt by (intros c; by apply (sr_in_bucket s b fl)).
  assert (Hn : (n < length (entries s))%nat) by (apply Hlt; rewrite Hb; set_solver).
  assert (Hqn : (q < length (entries s))%nat) by (apply Hlt; rewrite Hb; set_solver).
  destruct (lookup_lt_is_Some_2 _ _ Hn) as [e He].
  destruct (set_ent_next_spec s q (e_next e) Hqn) as (s1 & Hs1 & Hnx1 & Hc1 & Hh1 & Hf1).
  rewrite <- (same_content_length _ _ Hc1) in Hn.
  destruct (set_ent_next_spec s1 n h Hn) as (s2 & Hs2 & Hnx2 & Hc2 & Hh2 & Hf2).
  unfold to_front, vget, vset. rewrite He, bind_ret_l, Hs1, bind_ret_l, Hh1, Hh, bind_ret_l, Hs2, bind_ret_l.
  rewrite Hh2, Hh1, Hh, bind_ret_l. eexists. split; [reflexivity|].
  assert (same_content s s2) as Hs by (by etrans).
  split; [done|]. apply (spec_rep_relink s _ b fl i _ (Some n)); try done.
  - cbn [bucket_free_list set_htable]. congruence.
  - rewrite Hb. by rewrite Permutation_middle.
  - intros c Hcb. change (nx (set_htable ?l ?x) c) with (nx x c). rewrite Hnx2, Hnx1.
    rewrite Hb in Hcb. rewrite !decide_False; [done|set_solver..].
  - by apply lookup_lt_Some in Hh.
  - simpl. split; [done|]. change (nx (set_htable ?l ?x)) with (nx x).
    rewrite Hnx2, decide_True by done. rewrite <- app_assoc. simpl.
    pose proof (chain_remove _ _ _ _ _ _ Hc Hnd) as Hcr.
    eapply chain_ext; [|exact Hcr]. intros c Hcin. cbn beta. rewrite Hnx2, Hnx1.
    assert (Hcn : c ≠ n).
    { intros ->. apply NoDup_app in Hnd as (_ & Hd & Hnd). apply elem_of_app in Hcin as [Hcin|Hcin].
      - by eapply (Hd n); [done|set_solver].
      - apply NoDup_cons in Hnd as [Hq' Hnd]. apply NoDup_cons in Hnd as [Hn' _]. set_solver. }
    rewrite (decide_False (P := c = n)) by done. unfold nx at 2. by rewrite He.
Qed.

(** ** Lookup and allocation *)

#[local] Opaque HASH_ADDR.

(** ** Lookup *)

Lemma spec_lookup_spec s o a :
  spec_sim s o →
  (∃ n s' d b fl, spec_lookup s a = Ok (Some n, s') ∧ o !! a = Some d ∧ spec_rep s' b fl ∧
     overlay_of s' b o ∧ n ∈ b (HASH_ADDR a) ∧ content s' n = Some (a, d)) ∨
  (o !! a = None ∧ spec_lookup s a = Ok (None, s)).
Proof.
  intros (b & fl & Hr & Ho). pose proof (HASH_ADDR_lt a) as Hi.
  destruct (sr_bucket _ _ _ Hr _ Hi) as (h & Hh & Hc).
  assert (Forall (λ n, n < length (entries s))%nat (b (HASH_ADDR a))) as Hlt.
  { apply Forall_forall. intros n. by apply (sr_in_bucket s b fl). }
  assert (spec_lookup s a = '(prev, o) ← find_ent (length (entries s)) (entries s) a None h;
    match o with
    | None => Ok (None, s)
    | Some n => s ← to_front s (HASH_ADDR a) prev n; Ok (Some n, s)
    end) as ->.
  { unfold spec_lookup, vget. by rewrite Hh. }
  destruct (find_ent_spec s a _ _ None _ Hc Hlt (sr_bucket_length _ _ _ _ Hr))
    as [(bs1 & n & bs2 & d & Hb & Hcn & ->)|[Hno [p ->]]]; cbn [mbind result_bind].
  - destruct (to_front_spec s b fl _ bs1 n bs2 Hr Hi Hb) as (s' & -> & Hs & Hr').
    left. eexists n, s', d, _, fl. split; [reflexivity|]. split.
    { apply (overlay_lookup s b fl o n); [done..| |done].
      rewrite Hb. apply elem_of_app. right. apply list_elem_of_here. }
    split; [exact Hr'|]. split.
    { eapply overlay_perm; [done| |done]. by rewrite Hb, Permutation_middle. }
    split; [|by rewrite Hs]. unfold with_bucket. rewrite decide_True by done. apply list_elem_of_here.
  - right. split; [|done]. destruct (o !! a) as [d|] eqn:Hoa; [|done].
    apply Ho in Hoa as (n & Hn & Hcn). by destruct (Hno n d).
Qed.

(** ** Allocation *)


Lemma alloc_ent_spec s b fl o :
  spec_rep s b fl → overlay_of s b o →
  ∃ n fl', spec_rep (alloc_ent s) b (n :: fl') ∧ overlay_of (alloc_ent s) b o.
Proof.
  intros Hr Ho. unfold alloc_ent. pose proof (sr_free _ _ _ Hr) as Hfree.
  destruct fl as [|n fl]; simpl in Hfree.
  2: { destruct Hfree as [Hf _]. rewrite Hf. by exists n, fl. }
  rewrite Hfree. set (s' := set_bucket_free _ _). exists (length (entries s)), [].
  assert (∀ n, (n < length (entries s))%nat → content s' n = content s n ∧ nx s' n = nx s n) as Hold.
  { intros n Hn. unfold content, nx, s'. cbn [entries set_entries set_bucket_free].
    by rewrite lookup_app_l. }
  assert (content s' (length (entries s)) = Some (0, replicate 8 0)
    ∧ nx s' (length (entries s)) = None) as [Hcn Hnn].
  { unfold content, nx, s'. cbn [entries set_entries set_bucket_free].
    by rewrite lookup_app_r, Nat.sub_diag by lia. }
  assert (length (entries s') = S (length (entries s))) as Hlen.
  { unfold s'. cbn [entries set_entries set_bucket_free]. rewrite length_app. simpl. lia. }
  assert (∀ i n, n ∈ b i → (n < length (entries s))%nat) as Hb by (intros i n; by apply (sr_in_bucket s b [])).
  split; [|intros a d; rewrite (Ho a d); f_equiv; intros n; split; intros [Hn ?];
    (split; [done|]); [by rewrite (proj1 (Hold n (Hb _ _ Hn)))|by rewrite <- (proj1 (Hold n (Hb _ _ Hn)))]].
  split.
  - intros i Hi. destruct (sr_bucket _ _ _ Hr i Hi) as (h & Hh & Hc). exists h. split; [done|].
    eapply chain_ext; [|exact Hc]. intros n Hn. by apply Hold, (Hb i).
  - simpl. by rewrite Hnn.
  - intros i. pose proof (sr_nodup _ _ _ Hr i) as Hnd. rewrite app_nil_r in Hnd.
    apply NoDup_app. split; [done|]. split; [|apply NoDup_singleton].
    intros n Hn ->%list_elem_of_singleton. apply Hb in Hn. lia.
  - intros i n Hn. rewrite (proj1 (Hold n (Hb _ _ Hn))). by apply (sr_hash _ _ _ Hr).
  - intros i n n' a d d' Hn Hn'. rewrite (proj1 (Hold n (Hb _ _ Hn))), (proj1 (Hold n' (Hb _ _ Hn'))).
    by apply (sr_addr _ _ _ Hr i).
  - apply Forall_singleton. lia.
  - intros n a d Hc. destruct (decide (n < length (entries s))%nat) as [Hn|Hn].
    + rewrite (proj1 (Hold n Hn)) in Hc. by eapply sr_data.
    + assert (n = length (entries s)) as ->; [|by simplify_eq].
      assert (is_Some (content s' n)) as Hs by eauto. apply content_is_Some in Hs. lia.
Qed.

(** The entry at the head of the free list is taken. *)
Lemma spec_rep_pop s b n fl :
  spec_rep s b (n :: fl) → spec_rep (set_bucket_free (nx s n) s) b fl.
Proof.
  intros Hr. pose proof (sr_free _ _ _ Hr) as [_ Hf].
  split; [apply (sr_bucket _ _ _ Hr)|exact Hf| |apply (sr_hash _ _ _ Hr)|apply (sr_addr _ _ _ Hr)| |
    apply (sr_data _ _ _ Hr)].
  - intros i. pose proof (sr_nodup _ _ _ Hr i) as (H1 & H2 & H3)%NoDup_app.
    apply NoDup_cons in H3 as [H3 H4]. apply NoDup_app. split; [done|]. split; [set_solver|done].
  - pose proof (sr_lt _ _ _ Hr) as Hlt. by inv Hlt.
Qed.

Definition put_ent (s : spec_mem) (n : nat) (e : spec_mem_ent) : spec_mem :=
  set_entries (<[n := e]> (entries s)) s.

Lemma put_ent_content s n e m :
  (n < length (entries s))%nat →
  content (put_ent s n e) m = if decide (m = n) then Some (e_addr e, e_data e) else content s m.
Proof.
  intros Hn. unfold content, put_ent. cbn [entries set_entries]. case_decide as Hm.
  - subst. by rewrite list_lookup_insert_eq.
  - by rewrite list_lookup_insert_ne.
Qed.

Lemma put_ent_nx s n e m :
  (n < length (entries s))%nat → nx (put_ent s n e) m = if decide (m = n) then e_next e else nx s m.
Proof.
  intros Hn. unfold nx, put_ent. cbn [entries set_entries]. case_decide as Hm.
  - subst. by rewrite list_lookup_insert_eq.
  - by rewrite list_lookup_insert_ne.
Qed.

(** An entry outside the table enters it. *)
Lemma spec_rep_push s b fl o n a d h :
  spec_rep s b fl → overlay_of s b o → (n < length (entries s))%nat →
  (∀ i, n ∉ b i) → n ∉ fl → o !! a = None → length d = 8%nat →
  store_htable s !! HASH_ADDR a = Some h →
  let s' := set_htable (<[HASH_ADDR a := Some n]> (store_htable s)) (put_ent s n (mkEnt h a d)) in
  let b' := with_bucket b (HASH_ADDR a) (n :: b (HASH_ADDR a)) in
  spec_rep s' b' fl ∧ overlay_of s' b' (<[a := d]> o).
Proof.
  intros Hr Ho Hn Hnb Hnf Hoa Hd Hh s' b'.
  assert (∀ m, content s' m = if decide (m = n) then Some (a, d) else content s m) as Hc
    by (intros m; by apply (put_ent_content s n (mkEnt h a d))).
  assert (∀ m, nx s' m = if decide (m = n) then h else nx s m) as Hnx
    by (intros m; by apply (put_ent_nx s n (mkEnt h a d))).
  assert (∀ i m, m ∈ b i → m ≠ n) as Hbn by (intros i m Hm ->; by apply (Hnb i)).
  assert (∀ i m, m ∈ b' i ↔ m ∈ b i ∨ (i = HASH_ADDR a ∧ m = n)) as Hb'.
  { intros i m. unfold b', with_bucket. case_decide as Hi; [subst; set_solver|]. naive_solver. }
  assert (∀ m a' d', m ∈ b (HASH_ADDR a') → content s m = Some (a', d') → a' ≠ a) as Hna.
  { intros m a' d' Hm Hcm ->. by rewrite (overlay_lookup _ _ _ _ _ _ _ Hr Ho Hm Hcm) in Hoa. }
  split.
  - split.
    + intros i Hi. destruct (sr_bucket _ _ _ Hr i Hi) as (h' & Hh' & Hch).
      unfold b', with_bucket. case_decide as Hia.
      * subst i. rewrite Hh in Hh'. injection Hh' as <-. exists (Some n). split.
        { apply list_lookup_insert_eq. by apply lookup_lt_Some in Hh. }
        eapply chain_push; [apply Hnb|exact Hch|by rewrite Hnx, decide_True|].
        intros c Hcn. by rewrite Hnx, decide_False.
      * exists h'. split; [by apply list_lookup_insert_Some; right|].
        eapply chain_ext; [|exact Hch]. intros c Hcb. rewrite Hnx, decide_False by by eapply Hbn. done.
    + eapply chain_ext; [|apply Hr]. intros c Hcf. rewrite Hnx, decide_False; [done|by intros ->].
    + intros i. pose proof (sr_nodup _ _ _ Hr i) as Hnd. unfold b', with_bucket. case_decide as Hi; [|done].
      subst. simpl. apply NoDup_cons. split; [|done]. rewrite elem_of_app. intros [?|?]; [by eapply Hnb|done].
    + intros i m [Hm|[-> ->]]%Hb'.
      * rewrite Hc, decide_False by by eapply Hbn. by apply (sr_hash _ _ _ Hr).
      * rewrite Hc, decide_True by done. eauto.
    + intros i m m' a1 d1 d2. rewrite !Hb', !Hc.
      intros Hm Hm'. repeat case_decide; subst; try done.
      * intros [= <- <-] Hcm. destruct Hm' as [Hm'|[_ ?]]; [|done].
        destruct (sr_hash _ _ _ Hr _ _ Hm') as (a2 & d3 & Hc2 & <-). simplify_eq. by eapply Hna in Hm'.
      * intros Hcm [= <- <-]. destruct Hm as [Hm|[_ ?]]; [|done].
        destruct (sr_hash _ _ _ Hr _ _ Hm) as (a2 & d3 & Hc2 & <-). simplify_eq. by eapply Hna in Hm.
      * destruct Hm as [Hm|[_ ?]]; [|done]. destruct Hm' as [Hm'|[_ ?]]; [|done].
        by apply (sr_addr _ _ _ Hr i).
    + change (entries s') with (<[n := mkEnt h a d]> (entries s)). rewrite length_insert. apply Hr.
    + intros m a1 d1. rewrite Hc. case_decide; [congruence|apply Hr].
  - intros a1 d1. setoid_rewrite Hb'. setoid_rewrite Hc. destruct (decide (a1 = a)) as [->|Ha].
    + rewrite lookup_insert_eq. split.
      * intros [= <-]. exists n. rewrite decide_True by done. naive_solver.
      * intros (m & [Hm|[_ ->]] & Hcm); [|by rewrite decide_True in Hcm by done; simplify_eq].
        rewrite decide_False in Hcm by by eapply Hbn. by eapply Hna in Hm.
    + rewrite lookup_insert_ne, (Ho a1 d1) by done. f_equiv. intros m. split.
      * intros [Hm Hcm]. split; [by left|]. by rewrite decide_False by by eapply Hbn.
      * intros [[Hm|[_ ->]] Hcm].
        -- by rewrite decide_False in Hcm by by eapply Hbn.
        -- rewrite decide_True in Hcm by done. congruence.
Qed.

(** The entry of a write to an address that is not in the table. *)
Lemma new_ent_spec bugcompat s o a :
  spec_sim s o → o !! a = None →
  ∃ n s' b fl, new_ent bugcompat s a = Ok (n, s') ∧ spec_rep s' b fl ∧
    (n < length (entries s'))%nat ∧
    if bugcompat : bool then (∀ i, n ∉ b i) ∧ overlay_of s' b o
    else n ∈ b (HASH_ADDR a) ∧ content s' n = Some (a, replicate 8 0)
         ∧ overlay_of s' b (<[a := replicate 8 0]> o).
Proof.
  intros (b & fl0 & Hr0 & Ho0) Hoa. destruct (alloc_ent_spec _ _ _ _ Hr0 Ho0) as (n & fl & Hr & Ho).
  unfold new_ent. set (s1 := alloc_ent s) in *. pose proof (sr_free _ _ _ Hr) as [Hf _].
  rewrite Hf. cbn [deref mbind result_bind].
  assert (Hn : (n < length (entries s1))%nat) by (pose proof (sr_lt _ _ _ Hr) as Hlt; by inv Hlt).
  assert (∀ i, n ∉ b i) as Hnb.
  { intros i Hi. apply (sr_not_free _ _ _ _ _ Hr Hi), list_elem_of_here. }
  destruct (lookup_lt_is_Some_2 _ _ Hn) as [e He].
  rewrite (proj2 (vget_Ok _ _ _) He), bind_ret_l.
  pose proof (spec_rep_pop _ _ _ _ Hr) as Hr2. unfold nx in Hr2. rewrite He in Hr2. simpl in Hr2.
  set (s2 := set_bucket_free (e_next e) s1) in *.
  assert (overlay_of s2 b o) as Ho2 by exact Ho.
  destruct bugcompat; [by exists n, s2, b, fl|].
  destruct (sr_bucket _ _ _ Hr2 _ (HASH_ADDR_lt a)) as (h & Hh & _).
  rewrite (proj2 (vget_Ok _ _ _) Hh), bind_ret_l. unfold vset. change (entries s2) with (entries s1).
  rewrite He, bind_ret_l, Hh, bind_ret_l.
  assert (n ∉ fl) as Hnf.
  { pose proof (sr_nodup _ _ _ Hr (HASH_ADDR a)) as (_ & _ & Hnd)%NoDup_app. by apply NoDup_cons in Hnd as [? _]. }
  destruct (spec_rep_push s2 b fl o n a (replicate 8 0) h Hr2 Ho2 Hn Hnb Hnf Hoa eq_refl Hh) as [Hr3 Ho3].
  eexists n, _, _, fl. split; [reflexivity|]. split; [exact Hr3|].
  split; [by cbn [entries set_htable set_entries]; rewrite length_insert|]. split.
  { unfold with_bucket. rewrite decide_True by done. apply list_elem_of_here. }
  split; [|exact Ho3]. change (content (put_ent s2 n (mkEnt h a (replicate 8 0))) n = Some (a, replicate 8 0)).
  rewrite put_ent_content by exact Hn. by rewrite decide_True.
Qed.

(** Writing the data of an entry. *)
Lemma put_data_rep s b fl n e d :
  spec_rep s b fl → entries s !! n = Some e → length d = 8%nat →
  spec_rep (put_ent s n (ent_data d e)) b fl.
Proof.
  intros Hr He Hd. pose proof (lookup_lt_Some _ _ _ He) as Hn.
  pose proof (λ m, put_ent_content s n (ent_data d e) m Hn) as Hc.
  pose proof (λ m, put_ent_nx s n (ent_data d e) m Hn) as Hnx.
  set (s' := put_ent s n (ent_data d e)) in *. cbn [e_addr e_data ent_data] in Hc.
  assert (content s n = Some (e_addr e, e_data e)) as Hcn by (unfold content; by rewrite He).
  assert (∀ m, nx s' m = nx s m) as Hnx'.
  { intros m. rewrite Hnx. case_decide; [|done]. subst. unfold nx. by rewrite He. }
  assert (∀ m a d', content s' m = Some (a, d') → ∃ d0, content s m = Some (a, d0)) as Hback.
  { intros m a d'. rewrite Hc. case_decide; [|eauto]. subst. intros [= <- <-]. eauto. }
  assert (∀ m a d', content s m = Some (a, d') → ∃ d0, content s' m = Some (a, d0)) as Hforth.
  { intros m a d' Hm. rewrite Hc. case_decide; [|eauto]. subst. simplify_eq. eauto. }
  split.
  - intros i Hi. destruct (sr_bucket _ _ _ Hr i Hi) as (h & Hh & Hch). exists h. split; [done|].
    eapply chain_ext; [|exact Hch]. intros m _. apply Hnx'.
  - eapply chain_ext; [|apply (sr_free _ _ _ Hr)]. intros m _. apply Hnx'.
  - apply (sr_nodup _ _ _ Hr).
  - intros i m Hm. destruct (sr_hash _ _ _ Hr _ _ Hm) as (a & d' & Hcm & Ha).
    destruct (Hforth _ _ _ Hcm) as [d0 Hd0]. eauto.
  - intros i m m' a d1 d2 Hm Hm' [d3 H3]%Hback [d4 H4]%Hback. by eapply (sr_addr _ _ _ Hr i).
  - change (entries s') with (<[n := ent_data d e]> (entries s)). rewrite length_insert. apply (sr_lt _ _ _ Hr).
  - intros m a d'. rewrite Hc. case_decide; [congruence|apply (sr_data _ _ _ Hr)].
Qed.

Lemma put_data_sim s b fl o n e d a :
  spec_rep s b fl → overlay_of s b o → entries s !! n = Some e → length d = 8%nat →
  n ∈ b (HASH_ADDR a) → e_addr e = a →
  spec_sim (put_ent s n (ent_data d e)) (<[a := d]> o).
Proof.
  intros Hr Ho He Hd Hn Ha. exists b, fl. split; [by apply put_data_rep|].
  pose proof (λ m, put_ent_content s n (ent_data d e) m (lookup_lt_Some _ _ _ He)) as Hc.
  cbn [e_addr e_data ent_data] in Hc. rewrite Ha in Hc.
  assert (content s n = Some (a, e_data e)) as Hcn by (unfold content; by rewrite He, <- Ha).
  intros a1 d1. setoid_rewrite Hc. destruct (decide (a1 = a)) as [->|Hne].
  - rewrite lookup_insert_eq. split.
    + intros [= <-]. exists n. by rewrite decide_True.
    + intros (m & Hm & Hcm). case_decide; [congruence|]. by pose proof (sr_addr _ _ _ Hr _ _ _ _ _ _ Hm Hn Hcm Hcn).
  - rewrite lookup_insert_ne, (Ho a1 d1) by done. f_equiv. intros m. f_equiv. case_decide as Hm; [|done].
    subst m. rewrite Hcn. split; congruence.
Qed.

(** An entry outside the table does not matter. *)
Lemma put_data_lost s b fl o n e d :
  spec_rep s b fl → overlay_of s b o → entries s !! n = Some e → length d = 8%nat →
  (∀ i, n ∉ b i) → spec_sim (put_ent s n (ent_data d e)) o.
Proof.
  intros Hr Ho He Hd Hn. exists b, fl. split; [by apply put_data_rep|].
  pose proof (λ m, put_ent_content s n (ent_data d e) m (lookup_lt_Some _ _ _ He)) as Hc.
  intros a1 d1. rewrite (Ho a1 d1). f_equiv. intros m. rewrite Hc. case_decide as Hm; [|done].
  subst m. split; intros [Hin _]; by apply Hn in Hin.
Qed.
