(* ===== verification/SpecAccess.v ===== *)
(** * The speculative memory table: accesses and recovery

    The reads that miss the table, the refinement of [spec_mem_access], and the release
    of the table by recovery. *)

From S2P Require Import Prelude Misc Memory MemorySpec Chains SpecState SpecInv.

#[local] Opaque HASH_ADDR.

(** ** Reads of memory *)

(** Bytes of the page of an address. *)
Lemma page_span addr i :
  0 ≤ addr < 2 ^ 32 → 0 ≤ i → addr mod 2 ^ 12 + i < 2 ^ 12 →
  u32 (addr + i) = addr + i ∧ MEM_PTAB_SET (addr + i) = MEM_PTAB_SET addr ∧
  MEM_PTAB_TAG (addr + i) = MEM_PTAB_TAG addr ∧ MEM_OFFSET (addr + i) = MEM_OFFSET addr + i.
Proof.
  intros Ha Hi Hp. rewrite !mem_tag_eq, !mem_offset_eq, !mem_set_eq by lia.
  assert ((addr + i) / 2 ^ 12 = addr / 2 ^ 12 ∧ (addr + i) mod 2 ^ 12 = addr mod 2 ^ 12 + i) as [Hd Hm].
  { pose proof (Z.mod_pos_bound addr (2 ^ 12) eq_refl).
    assert (addr + i = 2 ^ 12 * (addr / 2 ^ 12) + (addr mod 2 ^ 12 + i)) as Heq
      by (rewrite (Z.div_mod addr (2 ^ 12)) at 1 by lia; lia).
    split; [symmetry; by eapply Z.div_unique_pos; [|exact Heq]; lia|
            symmetry; by eapply Z.mod_unique_pos; [|exact Heq]; lia]. }
  rewrite Hd, Hm. split; [|split; [done|split; [|done]]].
  - apply u32_small. pose proof (Z.mod_pos_bound addr (2 ^ 12) eq_refl).
    pose proof (Z.div_mod addr (2 ^ 12)). pose proof (Z.div_lt_upper_bound addr (2 ^ 12) (2 ^ 20)). lia.
  - change (2 ^ 27) with (2 ^ 12 * 2 ^ 15). rewrite <- !Z.div_div by lia. by rewrite Hd.
Qed.

Definition order (swap : bool) (bs : list Z) : list Z := if swap then reverse bs else bs.

Lemma MEM_READ_spec swap m addr n :
  mem_ok m → 0 ≤ addr < 2 ^ 32 → addr mod 2 ^ 12 + Z.of_nat n ≤ 2 ^ 12 →
  ∃ m', MEM_READ swap m addr n = Ok (order swap (region (mem_byte m) addr n), m') ∧ mem_equiv m m'.
Proof.
  intros Hm Ha Hp. unfold MEM_READ. destruct (MEM_PAGE_spec m addr) as (m1 & -> & He1).
  assert (∀ i, (i < n)%nat → mem_byte m (u32 (addr + Z.of_nat i))
    = match page_of (ptab_at m (MEM_PTAB_SET addr)) (MEM_PTAB_TAG addr) with
      | Some pg => default 0 (pages m !! pg ≫= λ page, page !! (Z.to_nat (MEM_OFFSET addr) + i)%nat)
      | None => 0 end) as Hb.
  { intros i Hi. destruct (page_span addr (Z.of_nat i)) as (-> & Hs & Ht & Ho); [lia..|].
    unfold mem_byte. rewrite Hs, Ht, Ho. destruct (page_of _ _); [|done].
    rewrite Z2Nat.inj_add, Nat2Z.id by (pose proof (mem_offset_range addr); lia). done. }
  destruct (page_of (ptab_at m (MEM_PTAB_SET addr)) (MEM_PTAB_TAG addr)) as [pg|] eqn:Hpg.
  - destruct (MEM_PAGE_spec m1 addr) as (m2 & -> & He2).
    rewrite (page_of_perm _ _ _ (proj2 He1 _) (mo_tags _ Hm _)), Hpg. cbn [deref mbind result_bind].
    assert (mem_equiv m m2) as He by (by etrans).
    destruct (page_lookup _ _ _ _ Hm Hpg) as (page & Hpage & Hlen).
    unfold vget. rewrite (proj1 He), Hpage, bind_ret_l. rewrite Hpage in Hb. simpl in Hb.
    assert (Z.to_nat (MEM_OFFSET addr) + n ≤ length page)%nat as Hl.
    { rewrite Hlen. pose proof (mem_offset_eq addr). pose proof (mem_offset_range addr).
      unfold MD_PAGE_SIZE. lia. }
    rewrite bool_decide_true by done. exists m2. split; [|done]. do 2 f_equal. unfold order.
    assert (take n (drop (Z.to_nat (MEM_OFFSET addr)) page) = region (mem_byte m) addr n) as ->; [|done].
    apply list_eq. intros i. destruct (decide (i < n)%nat) as [Hi|Hi].
    + rewrite lookup_take_lt, lookup_drop, region_lookup, Hb by done.
      destruct (lookup_lt_is_Some_2 page (Z.to_nat (MEM_OFFSET addr) + i)) as [x ->]; [lia|done].
    + rewrite lookup_take_ge, lookup_ge_None_2; [done|rewrite length_region; lia|lia].
  - exists m1. split; [|done]. do 2 f_equal.
    assert (region (mem_byte m) addr n = replicate n 0) as ->.
    { apply list_eq. intros i. destruct (decide (i < n)%nat) as [Hi|Hi].
      - by rewrite region_lookup, Hb, lookup_replicate_2 by done.
      - rewrite !lookup_ge_None_2; [done|rewrite length_replicate; lia|rewrite length_region; lia]. }
    unfold order. by destruct swap; [rewrite reverse_replicate|].
Qed.

(** The bytes of memory as a wrong-path load sees them. *)
Definition host_bytes (swap : bool) (f : Z → Z) (addr : Z) (n : nat) : list Z :=
  match n with
  | 8%nat => order swap (region f addr 4) ++ order swap (region f (u32 (addr + 4)) 4)
  | _ => order (swap && bool_decide (n ≠ 1%nat)) (region f addr n)
  end.

(** The sizes that the table supports; an aligned access stays in its page. *)
Lemma aligned_in_page (n : nat) addr :
  n ∈ [1; 2; 4; 8]%nat → 0 ≤ addr → Z.land addr (u32 (Z.of_nat n - 1)) = 0 →
  addr mod Z.of_nat n = 0 ∧ addr mod 2 ^ 12 + Z.of_nat n ≤ 2 ^ 12.
Proof.
  intros Hn Ha.
  assert (∃ k, 0 ≤ k ≤ 3 ∧ Z.of_nat n = 2 ^ k) as (k & Hk & Hnk).
  { repeat (apply elem_of_cons in Hn as [->|Hn]); [by exists 0|by exists 1|by exists 2|by exists 3|].
    by apply not_elem_of_nil in Hn. }
  rewrite Hnk, u32_small by (pose proof (pow2_fits k); lia).
  replace (2 ^ k - 1) with (Z.ones k) by (rewrite Z.ones_equiv; lia). rewrite Z.land_ones by lia.
  intros Hm. split; [done|].
  assert (k = 0 ∨ k = 1 ∨ k = 2 ∨ k = 3) as [->|[->|[->| ->]]] by lia;
    pose proof (Z.mod_pos_bound addr (2 ^ 12) eq_refl); revert Hm; clear -Ha;
    change (2 ^ 12) with 4096; intros Hm; Z.to_euclidean_division_equations; lia.
Qed.

Lemma read_nonspec_spec swap m addr n :
  mem_ok m → 0 ≤ addr < 2 ^ 32 → n ∈ [1; 2; 4; 8]%nat → Z.land addr (u32 (Z.of_nat n - 1)) = 0 →
  ∃ m', read_nonspec swap m addr n = Ok (host_bytes swap (mem_byte m) addr n, m') ∧ mem_equiv m m'.
Proof.
  intros Hm Ha Hn Hal. destruct (aligned_in_page n addr Hn (proj1 Ha) Hal) as [Hmod Hpage].
  destruct (decide (n = 8%nat)) as [->|Hn8].
  - unfold read_nonspec, host_bytes.
    destruct (MEM_READ_spec swap m addr 4) as (m1 & -> & He1); [done..|lia|]. rewrite bind_ret_l.
    destruct (page_span addr 4) as (Hu & _ & _ & Ho); [lia..|]. rewrite !mem_offset_eq in Ho.
    destruct (MEM_READ_spec swap m1 (u32 (addr + 4)) 4) as (m2 & -> & He2);
      [by eapply mem_ok_equiv|apply u32_range|rewrite Hu, Ho; lia|].
    rewrite bind_ret_l. exists m2. split; [|by etrans]. do 4 f_equal. apply region_ext.
    intros a _. by apply mem_byte_equiv.
  - assert (read_nonspec swap m addr n = MEM_READ (swap && bool_decide (n ≠ 1%nat)) m addr n
      ∧ host_bytes swap (mem_byte m) addr n
        = order (swap && bool_decide (n ≠ 1%nat)) (region (mem_byte m) addr n)) as [-> ->].
    { clear -Hn8. by do 9 (destruct n as [|n]; [done|]). }
    by apply MEM_READ_spec.
Qed.

(** ** Accesses *)

Section Access.
Context (bugcompat_mode MD_CROSS_ENDIAN : bool) (ld_text_base ld_text_size ld_data_base ld_stack_base : Z).

(** Aligned, and in a segment that the command may touch. *)
Definition spec_allowed (cmd : mem_cmd) (addr nbytes : Z) : bool :=
  negb (bool_decide (Z.land nbytes (nbytes - 1) ≠ 0 ∨ Z.land addr (u32 (nbytes - 1)) ≠ 0))
  && ((bool_decide (ld_text_base ≤ addr) && bool_decide (addr < u32 (ld_text_base + ld_text_size))
       && bool_decide (cmd = Read))
      || MD_VALID_ADDR ld_text_base ld_text_size ld_data_base ld_stack_base addr).

(** The access on a map [o] of buffers over the bytes [f]: the new buffer and map. *)
Definition overlay_access (f : Z → Z) (o : gmap Z (list Z)) (cmd : mem_cmd) (addr : Z) (p : list Z) (nbytes : Z)
    : result (list Z * gmap Z (list Z)) :=
  let n := Z.to_nat nbytes in
  if negb (spec_allowed cmd addr nbytes) then Ok (replicate n 0 ++ drop n p, o) else
  if bool_decide (n ∈ [1; 2; 4; 8]%nat) then
    match cmd, o !! addr with
    | Read, Some d => Ok (take n d ++ drop n p, o)
    | Read, None => Ok (host_bytes MD_CROSS_ENDIAN f addr n ++ drop n p, o)
    | Write, Some d => Ok (p, <[addr := take n p ++ drop n d]> o)
    | Write, None =>
        Ok (p, if bugcompat_mode then o else <[addr := take n p ++ drop n (replicate 8 0)]> o)
    end
  else Fault (Panic "access size not supported in mis-speculative mode").

Lemma buffer_copy_Ok n src dst :
  (n ≤ length src)%nat → (n ≤ length dst)%nat → copy_bytes n src dst = Ok (take n src ++ drop n dst).
Proof. intros. unfold copy_bytes. by rewrite !bool_decide_true. Qed.

Lemma zero_bytes_Ok n p : (n ≤ length p)%nat → zero_bytes n p = Ok (replicate n 0 ++ drop n p).
Proof.
  intros. unfold zero_bytes. rewrite buffer_copy_Ok; [|by rewrite length_replicate|done].
  by rewrite take_ge by by rewrite length_replicate.
Qed.

Lemma length_host_bytes swap f addr n : length (host_bytes swap f addr n) = n.
Proof.
  assert (∀ sw bs, length (order sw bs) = length bs) as Hl by (intros [|] bs; [apply length_reverse|done]).
  do 8 (destruct n as [|n]; [apply Hl|]).
  destruct n as [|n]; [|unfold host_bytes; by rewrite Hl, length_region].
  unfold host_bytes. by rewrite length_app, !Hl, !length_region.
Qed.

Local Abbreviation access :=
  (spec_mem_access bugcompat_mode MD_CROSS_ENDIAN ld_text_base ld_text_size ld_data_base ld_stack_base).

(** What follows the tests. *)
Lemma access_allowed m s cmd addr p nbytes :
  spec_allowed cmd addr nbytes = true →
  access m s cmd addr p nbytes
  = (let n := Z.to_nat nbytes in
     '(o, s) ← spec_lookup s addr;
     '(o, s) ← (match o, cmd with
                | None, Write => '(n, s) ← new_ent bugcompat_mode s addr; Ok (Some n, s)
                | _, _ => Ok (o, s)
                end);
     if bool_decide (n ∈ [1; 2; 4; 8]%nat) then
       match cmd, o with
       | Read, Some e =>
           ent ← vget (entries s) e;
           p ← copy_bytes n (e_data ent) p;
           Ok (md_fault_none, p, m, s)
       | Read, None =>
           '(bs, m) ← read_nonspec MD_CROSS_ENDIAN m addr n;
           p ← copy_bytes n bs p;
           Ok (md_fault_none, p, m, s)
       | Write, _ =>
           e ← deref o;
           ent ← vget (entries s) e;
           d ← copy_bytes n p (e_data ent);
           l ← vset (entries s) e (ent_data d ent);
           Ok (md_fault_none, p, m, set_entries l s)
       end
     else Fault (Panic "access size not supported in mis-speculative mode")).
Proof.
  unfold spec_allowed. intros [Ha Hp]%andb_true_iff. unfold spec_mem_access.
  apply negb_true_iff in Ha. rewrite Ha, Hp. done.
Qed.

(** The write of an entry that is at hand. *)
Lemma write_ent_Ok (m : mem_t) s n p e (a : Z) (d : list Z) :
  content s e = Some (a, d) → length d = 8%nat → (n ≤ 8)%nat → (n ≤ length p)%nat →
  ∃ ent, entries s !! e = Some ent ∧ e_addr ent = a ∧
    (e' ← deref (Some e); ent ← vget (entries s) e'; d ← copy_bytes n p (e_data ent);
     l ← vset (entries s) e' (ent_data d ent); Ok (md_fault_none, p, m, set_entries l s))
    = Ok (md_fault_none, p, m, put_ent s e (ent_data (take n p ++ drop n d) ent)).
Proof.
  intros Hc Hd Hn Hp. unfold content in Hc. apply fmap_Some in Hc as (ent & He & [= -> ->]).
  exists ent. split; [done|]. split; [done|]. cbn [deref mbind result_bind].
  rewrite (proj2 (vget_Ok _ _ _) He), bind_ret_l, buffer_copy_Ok by lia. rewrite bind_ret_l.
  unfold vset. by rewrite He.
Qed.

Lemma spec_mem_access_spec m s o cmd addr p nbytes :
  mem_ok m → spec_sim s o → 0 ≤ addr < 2 ^ 32 → 0 ≤ nbytes → (Z.to_nat nbytes ≤ length p)%nat →
  match overlay_access (mem_byte m) o cmd addr p nbytes with
  | Ok (p', o') => ∃ m' s', access m s cmd addr p nbytes = Ok (md_fault_none, p', m', s') ∧
                            mem_equiv m m' ∧ spec_sim s' o'
  | Fault f => access m s cmd addr p nbytes = Fault f
  end.
Proof.
  intros Hm Hs Ha Hnb Hp. unfold overlay_access.
  destruct (spec_allowed cmd addr nbytes) eqn:Hal; cbn [negb].
  2: { exists m, s. split; [|done]. unfold spec_allowed in Hal. unfold spec_mem_access.
       rewrite zero_bytes_Ok by done. destruct (bool_decide (_ ∨ _)); [done|]. simpl in Hal. by rewrite Hal. }
  rewrite access_allowed by done. cbv zeta. set (n := Z.to_nat nbytes) in *.
  assert (n ∈ [1; 2; 4; 8]%nat → (n ≤ 8)%nat ∧ Z.land addr (u32 (Z.of_nat n - 1)) = 0) as Hn.
  { intros Hn. split; [clear -Hn; set_solver by lia|]. unfold spec_allowed in Hal.
    apply andb_true_iff in Hal as [Hal _]. apply negb_true_iff, bool_decide_eq_false in Hal.
    unfold n. rewrite Z2Nat.id by done. apply dec_stable. tauto. }
  destruct (spec_lookup_spec s o addr Hs) as [(e & s1 & d & b & fl & -> & Ho & Hr & Hov & Hin & Hc)|[Ho ->]];
    rewrite Ho; rewrite bind_ret_l.
  - pose proof (sr_data _ _ _ Hr _ _ _ Hc) as Hd.
    destruct cmd; rewrite bind_ret_l; (case_bool_decide as Hsz; [|done]); apply Hn in Hsz as [Hn8 _].
    + exists m, s1. split; [|split; [done|by exists b, fl]]. apply fmap_Some in Hc as (ent & He & [= -> ->]).
      rewrite (proj2 (vget_Ok _ _ _) He), bind_ret_l. by rewrite buffer_copy_Ok by lia.
    + destruct (write_ent_Ok m s1 n p e addr d Hc Hd Hn8 Hp) as (ent & He & Hea & ->).
      eexists m, _. split; [reflexivity|]. split; [done|]. apply (put_data_sim s1 b fl); try done.
      rewrite length_app, length_take, length_drop. lia.
  - destruct cmd.
    + rewrite bind_ret_l. case_bool_decide as Hsz; [|done]. pose proof (Hn Hsz) as [_ Hz].
      destruct (read_nonspec_spec MD_CROSS_ENDIAN m addr n Hm Ha Hsz Hz) as (m' & -> & He).
      rewrite bind_ret_l, buffer_copy_Ok by (rewrite ?length_host_bytes; lia).
      exists m', s. split; [|done]. rewrite bind_ret_l, take_ge by (by rewrite length_host_bytes). done.
    + destruct (new_ent_spec bugcompat_mode s o addr Hs Ho) as (e & s1 & b & fl & -> & Hr & Hlt & Hb).
      rewrite !bind_ret_l. case_bool_decide as Hsz; [|done]. apply Hn in Hsz as [Hn8 _].
      destruct bugcompat_mode.
      * destruct Hb as [Hb Hov]. destruct (proj2 (content_is_Some _ _) Hlt) as [[a d] Hc].
        pose proof (sr_data _ _ _ Hr _ _ _ Hc) as Hd.
        destruct (write_ent_Ok m s1 n p e a d Hc Hd Hn8 Hp) as (ent & He & Hea & ->).
        eexists m, _. split; [reflexivity|]. split; [done|]. apply (put_data_lost s1 b fl); try done.
        rewrite length_app, length_take, length_drop. lia.
      * destruct Hb as (Hin & Hc & Hov). pose proof (sr_data _ _ _ Hr _ _ _ Hc) as Hd.
        destruct (write_ent_Ok m s1 n p e addr _ Hc Hd Hn8 Hp) as (ent & He & Hea & ->).
        eexists m, _. split; [reflexivity|]. split; [done|].
        rewrite <- (insert_insert_eq o addr _ (replicate 8 0)).
        apply (put_data_sim s1 b fl); try done. rewrite length_app, length_take, length_drop, length_replicate. lia.
Qed.
End Access.

(** ** Recovery *)

Lemma release_bucket_spec bs : ∀ fuel s node fl,
  chain (nx s) node bs → chain (nx s) (bucket_free_list s) fl → NoDup (bs ++ fl) →
  Forall (λ n, n < length (entries s))%nat bs → (length bs ≤ fuel)%nat →
  ∃ s', release_bucket fuel s node = Ok s' ∧ chain (nx s') (bucket_free_list s') (reverse bs ++ fl) ∧
    store_htable s' = store_htable s ∧ same_content s s' ∧ (∀ c, c ∉ bs → nx s' c = nx s c).
Proof.
  induction bs as [|n bs IH]; intros fuel s node fl Hc Hf Hnd Hlt Hfuel.
  { simpl in Hc. subst. exists s. by destruct fuel. }
  destruct Hc as [-> Hc]. destruct fuel as [|fuel]; [simpl in Hfuel; lia|].
  apply Forall_cons in Hlt as [Hn Hlt]. destruct (lookup_lt_is_Some_2 _ _ Hn) as [e He].
  simpl in Hnd. apply NoDup_cons in Hnd as [Hnn Hnd].
  destruct (set_ent_next_spec s n (bucket_free_list s) Hn) as (s1 & Hs1 & Hnx1 & Hc1 & Hh1 & Hf1).
  cbn [release_bucket]. rewrite (proj2 (vget_Ok _ _ _) He), bind_ret_l, Hs1, bind_ret_l.
  assert (∀ c, c ≠ n → nx s1 c = nx s c) as Hne by (intros c Hcn; by rewrite Hnx1, decide_False).
  assert (nx s n = e_next e) as Hnext by (unfold nx; by rewrite He). rewrite Hnext in Hc.
  destruct (IH fuel (set_bucket_free (Some n) s1) (e_next e) (n :: fl))
    as (s' & Hs' & Hf' & Hh' & Hc' & Hx').
  - eapply chain_ext; [|exact Hc]. intros c Hcin. apply Hne. intros ->. apply Hnn. set_solver.
  - simpl. split; [done|]. change (nx (set_bucket_free _ s1)) with (nx s1).
    rewrite Hnx1, decide_True by done. eapply chain_ext; [|exact Hf].
    intros c Hcin. apply Hne. intros ->. apply Hnn. set_solver.
  - rewrite <- Permutation_middle. by constructor.
  - change (entries (set_bucket_free _ s1)) with (entries s1). by rewrite (same_content_length _ _ Hc1).
  - simpl in Hfuel. lia.
  - exists s'. split; [done|]. rewrite reverse_cons, <- app_assoc. split; [done|].
    split; [by rewrite Hh'|]. split; [intros c; by rewrite Hc', <- Hc1|].
    intros c Hcb. rewrite Hx' by set_solver. apply Hne. set_solver.
Qed.

(** A bucket is emptied. *)
Lemma release_one_spec s b fl i :
  spec_rep s b fl → (i < STORE_HASH_SIZE)%nat →
  ∃ s' fl', (head ← vget (store_htable s) i; s ← release_bucket (length (entries s)) s head;
             h ← vset (store_htable s) i None; Ok (set_htable h s)) = Ok s' ∧
    spec_rep s' (with_bucket b i []) fl'.
Proof.
  intros Hr Hi. destruct (sr_bucket _ _ _ Hr i Hi) as (h & Hh & Hc).
  destruct (release_bucket_spec (b i) (length (entries s)) s h fl) as (s1 & Hs1 & Hf1 & Hh1 & Hc1 & Hx1);
    [done|apply Hr|apply Hr|apply Forall_forall; intros n; by apply (sr_in_bucket s b fl)|
     by apply (sr_bucket_length s b fl)|].
  unfold vget, vset. rewrite Hh, bind_ret_l, Hs1, bind_ret_l, Hh1, Hh, bind_ret_l.
  eexists _, (reverse (b i) ++ fl). split; [reflexivity|].
  assert (∀ j m, m ∈ with_bucket b i [] j → m ∈ b j ∧ j ≠ i) as Hin.
  { intros j m. unfold with_bucket. case_decide; [by intros ?%not_elem_of_nil|done]. }
  assert (∀ j m, m ∈ with_bucket b i [] j → m ∉ b i) as Hni.
  { intros j m [Hm Hj]%Hin Hmi. by eapply Hj, (sr_disjoint s). }
  split.
  - intros j Hj. unfold with_bucket. case_decide as Hji.
    + subst. exists None. split; [|done]. apply list_lookup_insert_eq. by apply lookup_lt_Some in Hh.
    + destruct (sr_bucket _ _ _ Hr j Hj) as (h' & Hh' & Hc'). exists h'.
      cbn [store_htable set_htable]. rewrite list_lookup_insert_ne by done. split; [done|].
      eapply chain_ext; [|exact Hc']. intros c Hcj. apply Hx1. intros Hci. by eapply Hji, (sr_disjoint s).
  - exact Hf1.
  - intros j. unfold with_bucket. rewrite reverse_Permutation. case_decide as Hji; [apply (sr_nodup _ _ _ Hr i)|].
    pose proof (sr_nodup _ _ _ Hr i) as (Hbi & Hd & Hfl)%NoDup_app.
    pose proof (sr_nodup _ _ _ Hr j) as (Hbj & Hd' & _)%NoDup_app.
    apply NoDup_app. split; [done|]. split; [|apply NoDup_app; done].
    intros m Hm [Hmi|Hmf]%elem_of_app; [by eapply Hji, (sr_disjoint s)|by eapply Hd'].
  - intros j m [Hm _]%Hin. change (content (set_htable _ ?x) m) with (content x m). rewrite Hc1.
    by apply (sr_hash _ _ _ Hr).
  - intros j m m' a d d' [Hm _]%Hin [Hm' _]%Hin. change (content (set_htable _ ?x)) with (content x).
    rewrite !(Hc1 _). by apply (sr_addr _ _ _ Hr j).
  - change (entries (set_htable _ ?x)) with (entries x). rewrite (same_content_length _ _ Hc1).
    apply Forall_app. split; [|apply Hr]. apply Forall_reverse, Forall_forall. intros n. by apply (sr_in_bucket s b fl).
  - intros n a d. change (content (set_htable _ ?x)) with (content x). rewrite Hc1. apply (sr_data _ _ _ Hr).
Qed.

Lemma release_buckets_spec idxs : ∀ s b fl,
  spec_rep s b fl → Forall (λ i, i < STORE_HASH_SIZE)%nat idxs →
  ∃ s' b' fl', release_buckets idxs s = Ok s' ∧ spec_rep s' b' fl' ∧
    ∀ i, b' i = if decide (i ∈ idxs) then [] else b i.
Proof.
  induction idxs as [|i idxs IH]; intros s b fl Hr Hl; [by exists s, b, fl|].
  apply Forall_cons in Hl as [Hi Hl].
  destruct (release_one_spec s b fl i Hr Hi) as (s1 & fl1 & Hs1 & Hr1).
  destruct (IH s1 _ fl1 Hr1 Hl) as (s' & b' & fl' & Hs' & Hr' & Hb').
  exists s', b', fl'. split; [|split; [done|]].
  - cbn [release_buckets]. apply bind_Ok in Hs1 as (h & -> & (s2 & Hs2 & (l & Hl2 & [= <-])%bind_Ok)%bind_Ok).
    by rewrite bind_ret_l, Hs2, bind_ret_l, Hl2, bind_ret_l.
  - intros j. rewrite Hb'. unfold with_bucket. repeat case_decide; set_solver.
Qed.

Lemma release_all s o :
  spec_sim s o → ∃ s', release_buckets (seq 0 STORE_HASH_SIZE) s = Ok s' ∧ spec_sim s' ∅.
Proof.
  intros (b & fl & Hr & _).
  destruct (release_buckets_spec (seq 0 STORE_HASH_SIZE) s b fl Hr) as (s' & b' & fl' & Hs' & Hr' & Hb').
  { apply Forall_forall. intros i ?%elem_of_seq. lia. }
  exists s'. split; [done|]. exists b', fl'. split; [done|]. intros a d. rewrite lookup_empty.
  split; [done|]. intros (n & Hn & _). rewrite Hb', decide_True in Hn; [by apply not_elem_of_nil in Hn|].
  apply elem_of_seq. pose proof (HASH_ADDR_lt a). lia.
Qed.

(** [tracer_init] only drops the table. *)
Lemma spec_sim_drop s o :
  spec_sim s o → spec_sim (set_htable (replicate STORE_HASH_SIZE None) s) ∅.
Proof.
  intros (b & fl & Hr & _). exists (λ _, []), fl. split; [|intros a d; rewrite lookup_empty; set_solver].
  split.
  - intros i Hi. exists None. split; [|done]. by apply lookup_replicate_2.
  - apply (sr_free _ _ _ Hr).
  - intros i. pose proof (sr_nodup _ _ _ Hr i) as (_ & _ & H)%NoDup_app. done.
  - intros i n ?%not_elem_of_nil. done.
  - intros i n n' a d d' ?%not_elem_of_nil. done.
  - apply (sr_lt _ _ _ Hr).
  - apply (sr_data _ _ _ Hr).
Qed.
