(* ===== verification/SpecRegs.v ===== *)
(** * Registers copied on a write of the wrong path

    The register an instruction of the wrong path sees is the copy if the bitmap has its
    bit and the architected one otherwise: reads return this view and writes update it. *)

From S2P Require Import Prelude Misc SpecState.

#[global] Instance bank_eq_dec : EqDecision bank.
Proof. solve_decision. Defined.

(** ** Bitmaps *)

Lemma bit_mask_pow bit : bit_mask bit = 2 ^ Z.of_nat (bit mod 32).
Proof.
  unfold bit_mask. rewrite Z.shiftl_1_l. apply u32_small.
  pose proof (Nat.mod_upper_bound bit 32). split; [lia|]. apply Z.pow_lt_mono_r; lia.
Qed.

Lemma land_pow2_eq0 w k : 0 ≤ k → bool_decide (Z.land w (2 ^ k) = 0) = negb (Z.testbit w k).
Proof.
  intros Hk. destruct (Z.testbit w k) eqn:Hb; simpl.
  - apply bool_decide_eq_false_2. intros H. apply (f_equal (λ z, Z.testbit z k)) in H.
    by rewrite Z.land_spec, Hb, Z.pow2_bits_true, Z.testbit_0_l in H by done.
  - apply bool_decide_eq_true_2, Z.bits_inj'. intros n Hn.
    rewrite Z.land_spec, Z.testbit_0_l, Z.pow2_bits_eqb by done.
    destruct (Z.eqb_spec k n) as [->|]; [by rewrite Hb|apply andb_false_r].
Qed.

(** The bit of a register in a bitmap of one word. *)
Definition bit_in (bmap : list Z) (bit : nat) : bool :=
  Z.testbit (default 0 (bmap !! (bit / 32)%nat)) (Z.of_nat (bit mod 32)).

Lemma BITMAP_SET_P_Ok bmap bit :
  (bit / 32 < length bmap)%nat → BITMAP_SET_P bmap bit = Ok (bit_in bmap bit).
Proof.
  intros [w Hw]%lookup_lt_is_Some_2. unfold BITMAP_SET_P, bit_in, vget. rewrite Hw, bit_mask_pow.
  cbn [mbind result_bind from_option id]. by rewrite land_pow2_eq0, negb_involutive by lia.
Qed.

Lemma bitmap_set_Ok bmap bit :
  (bit / 32 < length bmap)%nat →
  ∃ bmap', bitmap_set bmap bit = Ok bmap' ∧ length bmap' = length bmap ∧
    ∀ b, bit_in bmap' b = bit_in bmap b || bool_decide (b = bit).
Proof.
  intros Hlt. destruct (lookup_lt_is_Some_2 _ _ Hlt) as [w Hw]. unfold bitmap_set, vupd, vget. rewrite Hw.
  eexists. split; [reflexivity|]. split; [apply length_insert|]. intros b. unfold bit_in.
  destruct (decide (b / 32 = bit / 32)%nat) as [Hd|Hd].
  - rewrite Hd, list_lookup_insert_eq, Hw by done. cbn [from_option id]. rewrite Z.lor_spec, bit_mask_pow.
    f_equal. rewrite Z.pow2_bits_eqb by lia. pose proof (Nat.div_mod_eq b 32). pose proof (Nat.div_mod_eq bit 32).
    case_bool_decide as Hb; [subst; apply Z.eqb_refl|]. apply Z.eqb_neq. lia.
  - rewrite list_lookup_insert_ne by done. rewrite bool_decide_false by (intros ->; done). by rewrite orb_false_r.
Qed.

Lemma bit_in_clear sz bit : bit_in (BITMAP_CLEAR_MAP sz) bit = false.
Proof.
  unfold bit_in, BITMAP_CLEAR_MAP. destruct (replicate sz 0 !! _) eqn:H; [|apply Z.testbit_0_l].
  apply lookup_replicate in H as [-> _]. apply Z.testbit_0_l.
Qed.

(** ** Registers *)

Definition bank_size (b : bank) : nat :=
  match b with BankR => MD_NUM_IREGS | BankF => MD_NUM_FREGS | BankC => MD_NUM_CREGS end.

Record regs_ok (r : reg_state) : Prop := {
  ro_arch : ∀ b, length (bank_of b (arch r)) = bank_size b;
  ro_spec : ∀ b, length (bank_of b (spec_R (spec r))) = bank_size b;
  ro_use : ∀ b, length (use_of b (spec r)) = 1%nat
}.

(** Cell [i] of a bank whose bit is [bit]. *)
Definition cell (r : reg_state) (b : bank) (bit i : nat) : Z :=
  default 0 (bank_of b (if bit_in (use_of b (spec r)) bit then spec_R (spec r) else arch r) !! i).

Lemma bank_bit b bit : (bit < bank_size b)%nat → (bit / 32 < 1)%nat.
Proof.
  intros H. apply Nat.Div0.div_lt_upper_bound. destruct b; unfold bank_size, MD_NUM_IREGS, MD_NUM_FREGS, MD_NUM_CREGS in H; lia.
Qed.

Lemma get_reg_Ok r b bit i :
  regs_ok r → (bit < bank_size b)%nat → (i < bank_size b)%nat →
  get_reg b bit i r = Ok (cell r b bit i).
Proof.
  intros [Ha Hs Hu] Hbit Hi. unfold get_reg, cell.
  rewrite BITMAP_SET_P_Ok, bind_ret_l by (rewrite Hu; by eapply bank_bit).
  destruct (bit_in _ _); unfold vget.
  - rewrite <- (Hs b) in Hi. apply lookup_lt_is_Some_2 in Hi as [v ->]. done.
  - rewrite <- (Ha b) in Hi. apply lookup_lt_is_Some_2 in Hi as [v ->]. done.
Qed.

(** A write of the wrong path: the cell has the value, every other cell whose bit was not
    shared with it keeps what it showed, and the architected registers stay. *)
Lemma set_reg_spec r b bit i v :
  regs_ok r → (bit < bank_size b)%nat → (i < bank_size b)%nat →
  ∃ r', set_reg true b bit i v r = Ok r' ∧ regs_ok r' ∧ arch r' = arch r ∧
    cell r' b bit i = v ∧
    (∀ b' bit' i', (b' ≠ b ∨ (bit' ≠ bit ∧ i' ≠ i)) → cell r' b' bit' i' = cell r b' bit' i') ∧
    (∀ b' bit', bit_in (use_of b' (spec r')) bit'
                = bit_in (use_of b' (spec r)) bit' || bool_decide (b' = b ∧ bit' = bit)) ∧
    (∀ b' i', (b' ≠ b ∨ i' ≠ i) → bank_of b' (spec_R (spec r')) !! i' = bank_of b' (spec_R (spec r)) !! i') ∧
    bank_of b (spec_R (spec r')) !! i = Some v.
Proof.
  intros Hr Hbit Hi. destruct (bitmap_set_Ok (use_of b (spec r)) bit) as (w & Hw & Hlw & Hbw).
  { rewrite (ro_use _ Hr). by eapply bank_bit. }
  assert (is_Some (bank_of b (spec_R (spec r)) !! i)) as [v0 Hv0]
    by (apply lookup_lt_is_Some_2; by rewrite (ro_spec _ Hr)).
  unfold set_reg, vset. rewrite Hv0, bind_ret_l, Hw, bind_ret_l. eexists. split; [reflexivity|].
  set (l := <[i := v]> _). set (r' := mkRegState _ _).
  assert (∀ b', bank_of b' (spec_R (spec r')) = if decide (b' = b) then l else bank_of b' (spec_R (spec r))) as Hs
    by by destruct b, b'.
  assert (∀ b', use_of b' (spec r') = if decide (b' = b) then w else use_of b' (spec r)) as Hu
    by by destruct b, b'.
  assert (l !! i = Some v) as Hl by (apply list_lookup_insert_eq; by eapply lookup_lt_Some).
  assert (∀ i', i' ≠ i → l !! i' = bank_of b (spec_R (spec r)) !! i') as Hln
    by (intros i' Hi'; by apply list_lookup_insert_ne).
  assert (∀ b' bit', bit_in (use_of b' (spec r')) bit'
            = bit_in (use_of b' (spec r)) bit' || bool_decide (b' = b ∧ bit' = bit)) as Hbits.
  { intros b' bit'. rewrite Hu. case_decide as Hb.
    - subst. rewrite Hbw. f_equal. apply bool_decide_ext. tauto.
    - rewrite bool_decide_false by tauto. by rewrite orb_false_r. }
  repeat split; try done.
  - apply Hr.
  - intros b'. rewrite Hs. case_decide as Hb; [|apply Hr]. subst. unfold l. rewrite length_insert. apply Hr.
  - intros b'. rewrite Hu. case_decide as Hb; [|apply Hr]. subst. rewrite Hlw. apply Hr.
  - unfold cell. rewrite Hbits, bool_decide_true, orb_true_r, Hs, decide_True by done. by rewrite Hl.
  - intros b' bit' i' Hne. unfold cell. rewrite Hbits, bool_decide_false by tauto. rewrite orb_false_r.
    destruct (bit_in _ _); [|done]. rewrite Hs. case_decide as Hb; [|done]. subst.
    destruct Hne as [?|[_ Hne]]; [done|]. by rewrite Hln.
  - intros b' i' Hne. rewrite Hs. case_decide as Hb; [|done]. subst. apply Hln. tauto.
  - by rewrite Hs, decide_True.
Qed.

(** Cleared bitmaps show the architected registers. *)
Lemma clear_spec_regs_ok r :
  regs_ok r → regs_ok (mkRegState (arch r) (clear_spec_regs (spec r))).
Proof. intros Hr. split; [apply Hr|intros b; destruct b; apply (ro_spec _ Hr BankR) || apply (ro_spec _ Hr BankF) || apply (ro_spec _ Hr BankC)|by intros []]. Qed.

Lemma clear_spec_regs_cell r b bit i :
  cell (mkRegState (arch r) (clear_spec_regs (spec r))) b bit i = default 0 (bank_of b (arch r) !! i).
Proof. unfold cell. by destruct b; cbn [use_of spec clear_spec_regs use_spec_R use_spec_F use_spec_C]; rewrite bit_in_clear. Qed.

(** ** The view of a wrong path *)

(** Integer and control registers have a bit each, the words of the floating point
    registers one for a pair. *)
Definition bit_of (b : bank) (i : nat) : nat := match b with BankF => pair_of i | _ => i end.

Definition view (r : reg_state) (b : bank) (i : nat) : Z := cell r b (bit_of b i) i.

(** A file of values with one cell changed. *)
Definition upd_view (f : bank → nat → Z) (b : bank) (i : nat) (v : Z) (b' : bank) (i' : nat) : Z :=
  if decide (b' = b ∧ i' = i) then v else f b' i'.

Lemma bit_of_lt b i : (i < bank_size b)%nat → (bit_of b i < bank_size b)%nat.
Proof.
  destruct b; simpl; [done| |done]. unfold pair_of, MD_NUM_FREGS. pose proof (Nat.div_mod_eq i 2). lia.
Qed.

Lemma get_view r b i :
  regs_ok r → (i < bank_size b)%nat → get_reg b (bit_of b i) i r = Ok (view r b i).
Proof. intros Hr Hi. apply get_reg_Ok; [done|by apply bit_of_lt|done]. Qed.

Lemma set_view r b i v :
  regs_ok r → b ≠ BankF → (i < bank_size b)%nat →
  ∃ r', set_reg true b i i v r = Ok r' ∧ regs_ok r' ∧ arch r' = arch r ∧
    ∀ b' i', view r' b' i' = upd_view (view r) b i v b' i'.
Proof.
  intros Hr Hb Hi. destruct (set_reg_spec r b i i v Hr Hi Hi) as (r' & Hs & Hr' & Ha & Hv & Hne & _).
  exists r'. repeat (split; [done|]). intros b' i'. unfold upd_view, view. case_decide as Hd.
  - destruct Hd as [-> ->]. by destruct b.
  - apply Hne. destruct (decide (b' = b)) as [->|]; [|by left]. right. by destruct b; split; naive_solver.
Qed.

Lemma pair_even n : pair_of (pair_of n) = pair_of n ∧ pair_of (pair_of n + 1) = pair_of n.
Proof.
  unfold pair_of. rewrite Nat.div_mul by lia. split; [done|].
  rewrite Nat.add_comm, Nat.div_add by lia. done.
Qed.

Lemma pair_of_cases i n : pair_of i = pair_of n → i = pair_of n ∨ i = (pair_of n + 1)%nat.
Proof.
  unfold pair_of. intros H. pose proof (Nat.div_mod_eq i 2). pose proof (Nat.mod_upper_bound i 2). lia.
Qed.

(** A double is a pair of words, written and marked together. *)
Lemma set_pair_view r n v :
  regs_ok r → (n < MD_NUM_FREGS)%nat →
  ∃ r', SET_FPR_D true n v r = Ok r' ∧ regs_ok r' ∧ arch r' = arch r ∧
    ∀ b i, view r' b i = upd_view (upd_view (view r) BankF (pair_of n) v.1) BankF (pair_of n + 1) v.2 b i.
Proof.
  intros Hr Hn. unfold SET_FPR_D.
  assert (pair_of n + 1 < bank_size BankF)%nat as Hp.
  { unfold pair_of. unfold bank_size, MD_NUM_FREGS in *. pose proof (Nat.div_mod_eq n 2).
    assert (n / 2 < 16)%nat by (apply Nat.Div0.div_lt_upper_bound; lia). lia. }
  destruct (set_reg_spec r BankF (pair_of n) (pair_of n) v.1 Hr) as (r1 & -> & Hr1 & Ha1 & _ & Hne1 & Hb1 & Hs1 & Hv1);
    [lia..|].
  rewrite bind_ret_l.
  destruct (set_reg_spec r1 BankF (pair_of n) (pair_of n + 1) v.2 Hr1)
    as (r2 & -> & Hr2 & Ha2 & _ & Hne2 & Hb2 & Hs2 & Hv2); [lia..|].
  exists r2. split; [done|]. split; [done|]. split; [congruence|]. intros b i. unfold upd_view.
  assert (bit_in (use_of BankF (spec r2)) (pair_of n) = true) as Hbit.
  { rewrite Hb2, bool_decide_true by done. apply orb_true_r. }
  destruct (pair_even n) as [He Ho]. unfold view, bit_of.
  destruct (decide (b = BankF)) as [->|Hb].
  - case_decide as H2; [destruct H2 as [_ ->]|].
    { unfold cell. by rewrite Ho, Hbit, Hv2. }
    case_decide as H1; [destruct H1 as [_ ->]|].
    { unfold cell. rewrite He, Hbit, Hs2, Hv1 by (right; lia). done. }
    assert (pair_of i ≠ pair_of n) by (intros [->| ->]%pair_of_cases; naive_solver).
    rewrite Hne2 by naive_solver. apply Hne1. naive_solver.
  - rewrite !decide_False by naive_solver. rewrite Hne2, Hne1 by naive_solver. done.
Qed.

Lemma get_pair_view r n :
  regs_ok r → (n < MD_NUM_FREGS)%nat →
  FPR_D n r = Ok (view r BankF (pair_of n), view r BankF (pair_of n + 1)).
Proof.
  intros Hr Hn. unfold FPR_D. destruct (pair_even n) as [He Ho].
  assert (pair_of n + 1 < bank_size BankF)%nat as Hp.
  { unfold pair_of. unfold bank_size, MD_NUM_FREGS in *.
    assert (n / 2 < 16)%nat by (apply Nat.Div0.div_lt_upper_bound; lia). lia. }
  rewrite !get_reg_Ok, bind_ret_l by (done || lia). rewrite bind_ret_l. unfold view, bit_of. by rewrite He, Ho.
Qed.
