(* ===== verification/SpecMain.v ===== *)
(** * The wrong path: properties

    What a run of register and memory accesses on the wrong path computes, and that the
    recovery that ends it leaves nothing of it behind. *)

From S2P Require Import Prelude Misc Memory MemorySpec SpecState SpecInv SpecAccess SpecRegs.

#[local] Opaque HASH_ADDR.

(** ** Runs *)

(** The accesses of an instruction; a floating point register is used as a double. *)
Inductive spec_op :=
  | OpMem (cmd : mem_cmd) (addr : Z) (p : list Z) (nbytes : Z)
  | OpGet (b : bank) (i : nat)
  | OpSet (b : bank) (i : nat) (v : Z)
  | OpGetD (n : nat)
  | OpSetD (n : nat) (v : Z * Z).

Section Run.
Context (bugcompat_mode MD_CROSS_ENDIAN : bool) (ld_text_base ld_text_size ld_data_base ld_stack_base : Z).

(** What the access returns, and the state it leaves. *)
Definition spec_step (op : spec_op) (t : tracer) : result (list Z * tracer) :=
  match op with
  | OpMem cmd addr p nbytes =>
      '(_, p, m, s) ← spec_mem_access bugcompat_mode MD_CROSS_ENDIAN ld_text_base ld_text_size
                        ld_data_base ld_stack_base (t_mem t) (t_spec t) cmd addr p nbytes;
      Ok (p, mkTracer (t_regs t) m s)
  | OpGet b i => v ← get_reg b i i (t_regs t); Ok ([v], t)
  | OpSet b i v => r ← set_reg true b i i v (t_regs t); Ok ([], mkTracer r (t_mem t) (t_spec t))
  | OpGetD n => '(a, b) ← FPR_D n (t_regs t); Ok ([a; b], t)
  | OpSetD n v => r ← SET_FPR_D true n v (t_regs t); Ok ([], mkTracer r (t_mem t) (t_spec t))
  end.

Fixpoint spec_run (ops : list spec_op) (t : tracer) : result (list (list Z) * tracer) :=
  match ops with
  | [] => Ok ([], t)
  | op :: ops =>
      '(out, t) ← spec_step op t;
      '(outs, t) ← spec_run ops t;
      Ok (out :: outs, t)
  end.

(** Addresses of 32 bits, the sizes of the instruction set, registers that exist. *)
Definition op_ok (op : spec_op) : Prop :=
  match op with
  | OpMem _ addr p nbytes => 0 ≤ addr < 2 ^ 32 ∧ nbytes ∈ [1; 2; 4; 8] ∧ (Z.to_nat nbytes ≤ length p)%nat
  | OpGet b i | OpSet b i _ => b ≠ BankF ∧ (i < bank_size b)%nat
  | OpGetD n | OpSetD n _ => (n < MD_NUM_FREGS)%nat
  end.

#[global] Instance op_ok_dec op : Decision (op_ok op).
Proof. destruct op; apply _. Defined.

Record tracer_ok (t : tracer) : Prop := {
  to_regs : regs_ok (t_regs t);
  to_mem : mem_ok (t_mem t);
  to_spec : ∃ o, spec_sim (t_spec t) o
}.

(** ** The abstract run *)

(** The values of the registers and the buffers over the memory [f]. *)
Definition abs_step (f : Z → Z) (op : spec_op) (V : bank → nat → Z) (o : gmap Z (list Z))
    : result (list Z * (bank → nat → Z) * gmap Z (list Z)) :=
  match op with
  | OpMem cmd addr p nbytes =>
      '(p, o) ← overlay_access bugcompat_mode MD_CROSS_ENDIAN ld_text_base ld_text_size
                  ld_data_base ld_stack_base f o cmd addr p nbytes;
      Ok (p, V, o)
  | OpGet b i => Ok ([V b i], V, o)
  | OpSet b i v => Ok ([], upd_view V b i v, o)
  | OpGetD n => Ok ([V BankF (pair_of n); V BankF (pair_of n + 1)%nat], V, o)
  | OpSetD n v => Ok ([], upd_view (upd_view V BankF (pair_of n) v.1) BankF (pair_of n + 1) v.2, o)
  end.

Fixpoint abs_run (f : Z → Z) (ops : list spec_op) (V : bank → nat → Z) (o : gmap Z (list Z))
    : result (list (list Z)) :=
  match ops with
  | [] => Ok []
  | op :: ops =>
      '(out, V, o) ← abs_step f op V o;
      outs ← abs_run f ops V o;
      Ok (out :: outs)
  end.

Record tracer_sim (f : Z → Z) (t : tracer) (V : bank → nat → Z) (o : gmap Z (list Z)) : Prop := {
  ts_regs : regs_ok (t_regs t);
  ts_view : ∀ b i, view (t_regs t) b i = V b i;
  ts_mem : mem_ok (t_mem t);
  ts_byte : ∀ a, mem_byte (t_mem t) a = f a;
  ts_spec : spec_sim (t_spec t) o
}.

Lemma host_bytes_ext swap f g addr n : (∀ a, f a = g a) → host_bytes swap f addr n = host_bytes swap g addr n.
Proof.
  intros H. assert (∀ a k, region f a k = region g a k) as Hr by (intros; by apply region_ext).
  unfold host_bytes. repeat case_match; by rewrite !Hr.
Qed.

Lemma mem_step_sim f t V o cmd addr p nbytes :
  tracer_sim f t V o → op_ok (OpMem cmd addr p nbytes) →
  ∃ out t' o', spec_step (OpMem cmd addr p nbytes) t = Ok (out, t') ∧
    abs_step f (OpMem cmd addr p nbytes) V o = Ok (out, V, o') ∧
    tracer_sim f t' V o' ∧ t_regs t' = t_regs t.
Proof.
  intros [Hr Hv Hm Hb Hs] (Ha & Hn & Hp). unfold spec_step, abs_step.
  assert (0 ≤ nbytes ∧ Z.to_nat nbytes ∈ [1; 2; 4; 8]%nat) as [H0 Hsz].
  { repeat (apply elem_of_cons in Hn as [->|Hn]); [split; [lia|set_solver]..|by apply not_elem_of_nil in Hn]. }
  pose proof (spec_mem_access_spec bugcompat_mode MD_CROSS_ENDIAN ld_text_base ld_text_size ld_data_base
    ld_stack_base (t_mem t) (t_spec t) o cmd addr p nbytes Hm Hs Ha H0 Hp) as Hacc.
  assert (overlay_access bugcompat_mode MD_CROSS_ENDIAN ld_text_base ld_text_size ld_data_base ld_stack_base
    (mem_byte (t_mem t)) o cmd addr p nbytes = overlay_access bugcompat_mode MD_CROSS_ENDIAN ld_text_base
    ld_text_size ld_data_base ld_stack_base f o cmd addr p nbytes) as Hov.
  { unfold overlay_access. by rewrite (host_bytes_ext _ _ f) by done. }
  rewrite Hov in Hacc. destruct (overlay_access _ _ _ _ _ _ f o cmd addr p nbytes) as [[p' o']|flt] eqn:Ho.
  - destruct Hacc as (m' & s' & -> & He & Hs'). rewrite !bind_ret_l.
    eexists p', _, o'. split; [reflexivity|]. split; [done|]. split; [|done].
    split; try done; cbn [t_regs t_mem t_spec].
    + by eapply mem_ok_equiv.
    + intros a. rewrite <- Hb. by apply mem_byte_equiv.
  - exfalso. unfold overlay_access in Ho. rewrite (bool_decide_eq_true_2 _ Hsz) in Ho.
    destruct (negb _); [done|]. by destruct cmd, (o !! addr).
Qed.

Lemma set_regs_sim f t V o r V' :
  tracer_sim f t V o → regs_ok r → (∀ b i, view r b i = V' b i) →
  tracer_sim f (mkTracer r (t_mem t) (t_spec t)) V' o.
Proof. by intros [] Hr Hv. Qed.

Lemma upd_view_ext V W b i v b' i' :
  (∀ b i, V b i = W b i) → upd_view V b i v b' i' = upd_view W b i v b' i'.
Proof. intros H. unfold upd_view. by rewrite H. Qed.

(** A step of the trace generator is a step on the view. *)
Lemma spec_step_sim f t V o op :
  tracer_sim f t V o → op_ok op →
  ∃ out t' V' o', spec_step op t = Ok (out, t') ∧ abs_step f op V o = Ok (out, V', o') ∧
    tracer_sim f t' V' o' ∧ arch (t_regs t') = arch (t_regs t).
Proof.
  intros Ht Hop. destruct op as [cmd addr p nbytes|b i|b i v|n|n v].
  - destruct (mem_step_sim f t V o cmd addr p nbytes Ht Hop) as (out & t' & o' & H1 & H2 & H3 & H4).
    exists out, t', V, o'. by rewrite H4.
  - destruct Hop as [Hb Hi]. pose proof (get_view (t_regs t) b i (ts_regs _ _ _ _ Ht) Hi) as Hg.
    assert (bit_of b i = i) as Hbit by by destruct b. rewrite Hbit in Hg.
    eexists _, t, V, o. unfold spec_step. rewrite Hg, bind_ret_l. split; [reflexivity|].
    by rewrite (ts_view _ _ _ _ Ht).
  - destruct Hop as [Hb Hi].
    destruct (set_view (t_regs t) b i v (ts_regs _ _ _ _ Ht) Hb Hi) as (r & Hs & Hr & Ha & Hv).
    eexists _, _, _, o. unfold spec_step. rewrite Hs, bind_ret_l. split; [reflexivity|]. split; [reflexivity|].
    split; [|done]. apply (set_regs_sim f t V); [done..|]. intros b' i'. rewrite Hv.
    apply upd_view_ext, Ht.
  - eexists _, t, V, o. unfold spec_step. rewrite get_pair_view by (done || apply Ht).
    rewrite bind_ret_l. split; [reflexivity|]. by rewrite !(ts_view _ _ _ _ Ht).
  - destruct (set_pair_view (t_regs t) n v (ts_regs _ _ _ _ Ht) Hop) as (r & Hs & Hr & Ha & Hv).
    eexists _, _, _, o. unfold spec_step. rewrite Hs, bind_ret_l. split; [reflexivity|]. split; [reflexivity|].
    split; [|done]. apply (set_regs_sim f t V); [done..|]. intros b' i'. rewrite Hv.
    apply upd_view_ext. intros b2 i2. apply upd_view_ext, Ht.
Qed.

Lemma spec_run_sim f ops : ∀ t V o,
  tracer_sim f t V o → Forall op_ok ops →
  ∃ outs t' V' o', spec_run ops t = Ok (outs, t') ∧ abs_run f ops V o = Ok outs ∧
    tracer_sim f t' V' o' ∧ arch (t_regs t') = arch (t_regs t).
Proof.
  induction ops as [|op ops IH]; intros t V o Ht Hops; [by eexists _, t, V, o|].
  apply Forall_cons in Hops as [Hop Hops].
  destruct (spec_step_sim f t V o op Ht Hop) as (out & t1 & V1 & o1 & H1 & H2 & Ht1 & Ha1).
  destruct (IH t1 V1 o1 Ht1 Hops) as (outs & t' & V' & o' & H3 & H4 & Ht' & Ha').
  exists (out :: outs), t', V', o'. cbn [spec_run abs_run].
  rewrite H1, H2, !bind_ret_l, H3, H4, !bind_ret_l. by rewrite Ha'.
Qed.

(** After a reset the views are those of the architected state. *)
Definition arch_view (r : reg_file) (b : bank) (i : nat) : Z := default 0 (bank_of b r !! i).

Lemma tracer_ok_sim t :
  tracer_ok t → ∃ o, tracer_sim (mem_byte (t_mem t)) t (view (t_regs t)) o.
Proof. intros [Hr Hm [o Ho]]. by exists o. Qed.

Lemma tracer_reset_sim f t V o :
  tracer_sim f t V o →
  ∃ t', tracer_reset t = Ok t' ∧ tracer_sim f t' (arch_view (arch (t_regs t))) ∅ ∧
        arch (t_regs t') = arch (t_regs t) ∧ t_mem t' = t_mem t.
Proof.
  intros [Hr Hv Hm Hb Hs]. destruct (release_all _ _ Hs) as (s' & Hrel & Hs').
  unfold tracer_reset. rewrite Hrel, bind_ret_l. eexists. split; [reflexivity|]. split; [|done].
  split; try done; [by apply clear_spec_regs_ok|]. intros b i. apply clear_spec_regs_cell.
Qed.

Lemma tracer_init_sim t :
  tracer_ok t → tracer_sim (mem_byte (t_mem t)) (tracer_init t) (arch_view (arch (t_regs t))) ∅.
Proof.
  intros [Hr Hm [o Ho]]. split; try done; [by apply clear_spec_regs_ok| |by eapply spec_sim_drop].
  intros b i. apply clear_spec_regs_cell.
Qed.

(** C31: an access of the wrong path to the simulated memory is an access to a map of
    eight-byte buffers laid over it: what is misaligned or outside the segments reads as
    zero bytes, a read returns the buffer of its address or else the bytes of memory, a
    write changes the buffer alone (in the compatibility mode a first write is lost), a
    size other than one to eight bytes panics; memory keeps every byte. *)
Theorem spec_mem_access_refines m s o cmd addr p nbytes :
  mem_ok m → spec_sim s o → 0 ≤ addr < 2 ^ 32 → 0 ≤ nbytes → (Z.to_nat nbytes ≤ length p)%nat →
  match overlay_access bugcompat_mode MD_CROSS_ENDIAN ld_text_base ld_text_size ld_data_base ld_stack_base
          (mem_byte m) o cmd addr p nbytes with
  | Ok (p', o') =>
      ∃ m' s', spec_mem_access bugcompat_mode MD_CROSS_ENDIAN ld_text_base ld_text_size ld_data_base
                 ld_stack_base m s cmd addr p nbytes = Ok (md_fault_none, p', m', s') ∧
        mem_ok m' ∧ (∀ a, mem_byte m' a = mem_byte m a) ∧ spec_sim s' o'
  | Fault f =>
      spec_mem_access bugcompat_mode MD_CROSS_ENDIAN ld_text_base ld_text_size ld_data_base ld_stack_base
        m s cmd addr p nbytes = Fault f
  end.
Proof.
  intros Hm Hs Ha Hn Hp.
  pose proof (spec_mem_access_spec bugcompat_mode MD_CROSS_ENDIAN ld_text_base ld_text_size ld_data_base
    ld_stack_base m s o cmd addr p nbytes Hm Hs Ha Hn Hp) as H.
  destruct (overlay_access _ _ _ _ _ _ _ _ _ _ _ _) as [[p' o']|f]; [|done].
  destruct H as (m' & s' & He & Hmm & Hs'). exists m', s'. split; [done|].
  split; [by eapply mem_ok_equiv|]. split; [|done]. intros a. by apply mem_byte_equiv.
Qed.

(** C7: a wrong path leaves no trace.  Whatever integer and control registers, pairs of floating point
    registers and memory a wrong path reads and writes (single words of floating point registers are not
    among the operations, see [SET_FPR_L_stale]), it runs without a fault, the architected registers and every byte of
    memory stay, recovery succeeds, and a later wrong path returns what it would return
    from a trace generator that was just initialised. *)
Theorem wrong_path_no_trace t ops later :
  tracer_ok t → Forall op_ok ops → Forall op_ok later →
  ∃ outs t1 t2 outs' t3 t4,
    spec_run ops t = Ok (outs, t1) ∧ tracer_reset t1 = Ok t2 ∧
    arch (t_regs t2) = arch (t_regs t) ∧ (∀ a, mem_byte (t_mem t2) a = mem_byte (t_mem t) a) ∧
    spec_run later t2 = Ok (outs', t3) ∧ spec_run later (tracer_init t) = Ok (outs', t4).
Proof.
  intros Ht Hops Hlater. destruct (tracer_ok_sim t Ht) as [o Hsim].
  destruct (spec_run_sim _ ops t _ o Hsim Hops) as (outs & t1 & V1 & o1 & Hrun & _ & Hsim1 & Ha1).
  destruct (tracer_reset_sim _ _ _ _ Hsim1) as (t2 & Hreset & Hsim2 & Ha2 & _). rewrite Ha1 in Hsim2, Ha2.
  destruct (spec_run_sim _ later t2 _ _ Hsim2 Hlater) as (outs' & t3 & _ & _ & Hrun3 & Habs3 & _).
  destruct (spec_run_sim _ later _ _ _ (tracer_init_sim t Ht) Hlater)
    as (outs4 & t4 & _ & _ & Hrun4 & Habs4 & _).
  rewrite Habs3 in Habs4. injection Habs4 as <-.
  exists outs, t1, t2, outs', t3, t4. repeat (split; [done|]). split; [apply Hsim2|done].
Qed.
End Run.

(** ** An example *)

Definition regs0 : reg_file := mkRegs (Z.of_nat <$> seq 100 32) (Z.of_nat <$> seq 200 32) [1; 2; 3].
Definition copies0 : reg_file := mkRegs (replicate 32 0) (replicate 32 0) (replicate 3 0).
Definition tracer0 : tracer :=
  mkTracer (mkRegState regs0 (clear_spec_regs (mkSpecRegs [0] [0] [0] copies0))) mem_create spec_mem_init.

Lemma tracer0_ok : tracer_ok tracer0.
Proof.
  split; [|exact mem_create_good|exists ∅; exact spec_sim_init].
  split; by intros [].
Qed.

(** Two addresses that hash to one bucket, a register, a pair of words. *)
Definition path0 : list spec_op :=
  [OpMem Write 4096 [1; 2; 3; 4] 4; OpMem Write 8192 [9; 8] 2; OpSet BankR 5 77; OpSetD 3 (6, 7);
   OpMem Read 4096 [0; 0; 0; 0] 4; OpMem Read 8192 [0; 0] 2; OpGet BankR 5; OpGetD 2; OpGet BankC 1].
Definition path1 : list spec_op := [OpMem Read 4096 [7; 7] 2; OpGet BankR 5; OpGetD 2].

Local Abbreviation run := (spec_run false false 4096 8192 16384 2147483647).

Example path0_outputs :
  fst <$> (run path0 tracer0)
  = Ok [[1; 2; 3; 4]; [9; 8]; []; []; [1; 2; 3; 4]; [9; 8]; [77]; [6; 7]; [2]].
Proof. vm_compute. reflexivity. Qed.

Lemma spec_mem_access_refines_witness :
  ∃ m' s', spec_mem_access true false 4096 8192 16384 2147483647 mem_create spec_mem_init Write 20480 [5; 6] 2
           = Ok (md_fault_none, [5; 6], m', s') ∧ spec_sim s' ∅.
Proof.
  pose proof (spec_mem_access_refines true false 4096 8192 16384 2147483647 mem_create spec_mem_init ∅
    Write 20480 [5; 6] 2 mem_create_good spec_sim_init) as H.
  destruct H as (m' & s' & H1 & _ & _ & H2); [lia|lia|simpl; lia|]. by exists m', s'.
Defined.

Lemma wrong_path_no_trace_witness :
  ∃ t1 t2, run path0 tracer0 = Ok ([[1; 2; 3; 4]; [9; 8]; []; []; [1; 2; 3; 4]; [9; 8]; [77]; [6; 7]; [2]], t1) ∧
    tracer_reset t1 = Ok t2 ∧ fst <$> run path1 t2 = Ok [[0; 0]; [105]; [202; 203]].
Proof.
  destruct (wrong_path_no_trace false false 4096 8192 16384 2147483647 tracer0 path0 path1 tracer0_ok)
    as (outs & t1 & t2 & outs' & t3 & t4 & H1 & H2 & _ & _ & H3 & H4).
  - apply (bool_decide_unpack _). vm_compute. exact I.
  - apply (bool_decide_unpack _). vm_compute. exact I.
  - pose proof path0_outputs as Hp. rewrite H1 in Hp. injection Hp as ->.
    exists t1, t2. split; [done|]. split; [done|]. rewrite H3.
    assert (fst <$> run path1 (tracer_init tracer0) = Ok [[0; 0]; [105]; [202; 203]]) as Hi
      by (vm_compute; reflexivity).
    rewrite H4 in Hi. exact Hi.
Defined.

(** ** Accessors that share a bit wrongly *)

(** The word view of the floating point registers marks a pair but copies one word: the
    other word of the pair then reads as whatever its copy holds. *)
Lemma SET_FPR_L_stale r n v :
  regs_ok r → (n < MD_NUM_FREGS)%nat → n = pair_of n →
  ∃ r', SET_FPR_L true n v r = Ok r' ∧
    FPR_L (n + 1) r' = vget (bank_of BankF (spec_R (spec r))) (n + 1).
Proof.
  intros Hr Hn He. pose proof (pair_even n) as [Hp Ho]. rewrite <- He in Hp, Ho.
  assert (n + 1 < bank_size BankF)%nat as Hlt.
  { unfold pair_of in He. unfold bank_size, MD_NUM_FREGS in *.
    assert (n / 2 < 16)%nat by (apply Nat.Div0.div_lt_upper_bound; lia). lia. }
  destruct (set_reg_spec r BankF n n v Hr Hn Hn) as (r' & Hs & Hr' & _ & _ & _ & Hb & Hkeep & _).
  exists r'. unfold SET_FPR_L, FPR_L. rewrite Hp, Ho. split; [exact Hs|].
  rewrite get_reg_Ok by done. unfold cell, vget. rewrite Hb, bool_decide_true, orb_true_r by done.
  rewrite Hkeep by (right; lia). rewrite <- (ro_spec _ Hr BankF) in Hlt.
  by apply lookup_lt_is_Some_2 in Hlt as [w ->].
Qed.

(** On the Alpha, a wrong-path write of FCC is not seen by a read of it. *)
Lemma alpha_FCC_lost r v :
  regs_ok r → bit_in (use_spec_C (spec r)) 2 = false →
  ∃ r', alpha_SET_FCC true v r = Ok r' ∧ alpha_FCC r' = vget (regs_C (arch r)) 2.
Proof.
  intros Hr Hb. destruct (set_reg_spec r BankC 1 2 v Hr) as (r' & Hs & Hr' & Ha & _ & _ & Hbits & _ & _);
    [unfold bank_size, MD_NUM_CREGS; lia..|].
  exists r'. split; [done|]. unfold alpha_FCC. rewrite get_reg_Ok by (done || (unfold bank_size, MD_NUM_CREGS; lia)).
  unfold cell, vget. rewrite Hbits, bool_decide_false, orb_false_r by naive_solver.
  cbn [use_of]. rewrite Hb, Ha.
  pose proof (ro_arch _ Hr BankC) as Hl. cbn [bank_of] in *.
  destruct (lookup_lt_is_Some_2 (regs_C (arch r)) 2) as [w ->]; [rewrite Hl; unfold bank_size, MD_NUM_CREGS; lia|done].
Qed.
