(* ===== verification/Isa.v ===== *)
(** * Instructions as sequences of accesses

    An instruction of machine.def reads and writes registers and memory through the accessors
    of sim-outorder.c, which go to the copies on a wrong path.  What it computes from the
    values is a parameter. *)

From S2P Require Import Prelude Misc Memory MemorySpec Ruu RuuStages SpecState SpecInv SpecAccess SpecRegs SpecMain.

(** ** Accesses *)

(** [READ_x] and [WRITE_x] with the temporary that they pass, of the size of [p]; registers with their bit
    in the bitmap. *)
Inductive micro :=
  | MMem (cmd : mem_cmd) (addr : Z) (p : list Z)
  | MGet (b : bank) (bit i : nat)
  | MSet (b : bank) (bit i : nat) (v : Z).

(** The rest of an instruction depends on the fault and the values of an access. *)
Inductive inst_sem :=
  | Done (x : exec_out)
  | Step (m : micro) (k : md_fault_type → list Z → inst_sem).

Definition mask_fault (x : exec_out) : exec_out :=
  mkExec (x_op x) (x_out1 x) (x_out2 x) (x_in1 x) (x_in2 x) (x_in3 x) (x_NPC x) (x_target_PC x) (x_addr x) md_fault_none.

Section Isa.
Context (bugcompat_mode MD_CROSS_ENDIAN : bool) (ld_text_base ld_text_size ld_data_base ld_stack_base : Z).

Definition micro_step (spec : bool) (m : micro) (t : tracer) : result (md_fault_type * list Z * tracer) :=
  match m with
  | MMem cmd addr p =>
      if spec then
        '(fault, p, m, s) ← spec_mem_access bugcompat_mode MD_CROSS_ENDIAN ld_text_base ld_text_size ld_data_base ld_stack_base
                              (t_mem t) (t_spec t) cmd addr p (Z.of_nat (length p));
        Ok (fault, p, mkTracer (t_regs t) m s)
      else
        '(fault, p, m) ← mem_access (t_mem t) cmd addr p (Z.of_nat (length p));
        Ok (fault, p, mkTracer (t_regs t) m (t_spec t))
  | MGet b bit i => v ← get_reg b bit i (t_regs t); Ok (md_fault_none, [v], t)
  | MSet b bit i v => r ← set_reg spec b bit i v (t_regs t); Ok (md_fault_none, [], mkTracer r (t_mem t) (t_spec t))
  end.

(** [DECLARE_FAULT] is void on a wrong path. *)
Fixpoint run_sem (spec : bool) (p : inst_sem) (t : tracer) : result (exec_out * tracer) :=
  match p with
  | Done x => Ok (if spec then mask_fault x else x, t)
  | Step m k => '(fault, out, t) ← micro_step spec m t; run_sem spec (k fault out) t
  end.

(** Register 0 is cleared before every instruction, in both files. *)
Definition maintain_r0 (t : tracer) : result tracer :=
  let r := t_regs t in
  a ← vset (regs_R (arch r)) 0 0;
  s ← vset (regs_R (spec_R (spec r))) 0 0;
  Ok (mkTracer (mkRegState (set_bank BankR a (arch r)) (set_spec_R (set_bank BankR s (spec_R (spec r))) (spec r)))
        (t_mem t) (t_spec t)).

Definition exec_sem (spec : bool) (p : inst_sem) (t : tracer) : result (exec_out * tracer) :=
  t ← maintain_r0 t; run_sem spec p t.

(** ** What the accesses need *)

Definition micro_ok (m : micro) : Prop :=
  match m with
  | MMem _ addr p => 0 ≤ addr < 2 ^ 32 ∧ length p ∈ [1; 2; 4; 8]%nat
  | MGet b bit i | MSet b bit i _ => (bit < bank_size b)%nat ∧ (i < bank_size b)%nat
  end.

Inductive sem_ok (Q : exec_out → Prop) : inst_sem → Prop :=
  | sem_Done x : Q x → sem_ok Q (Done x)
  | sem_Step m k : micro_ok m → (∀ fault out, sem_ok Q (k fault out)) → sem_ok Q (Step m k).

(** ** The architected state *)

Definition zero_r0 (r : reg_file) : reg_file := set_bank BankR (<[0%nat := 0]> (regs_R r)) r.

Definition same_bytes (m m' : mem_t) : Prop := ∀ a, 0 ≤ a < 2 ^ 32 → mem_byte m a = mem_byte m' a.

(** Equal registers and bytes, register 0 aside. *)
Definition arch_same (t t' : tracer) : Prop :=
  zero_r0 (arch (t_regs t)) = zero_r0 (arch (t_regs t')) ∧ same_bytes (t_mem t) (t_mem t').

#[global] Instance arch_same_equiv : Equivalence arch_same.
Proof.
  split.
  - by intros t.
  - intros t t' [H1 H2]. split; [done|]. intros a Ha. by rewrite H2.
  - intros t1 t2 t3 [H1 H2] [H3 H4]. split; [congruence|]. intros a Ha. by rewrite H2, H4.
Qed.

(** Well formed, and off the wrong path no copy is in use. *)
Definition tracer_at (spec_mode : bool) (t : tracer) : Prop :=
  tracer_ok t ∧ (spec_mode = false → ∀ b bit, bit_in (use_of b (spec (t_regs t))) bit = false).

Lemma zero_r0_idem r : zero_r0 (zero_r0 r) = zero_r0 r.
Proof. unfold zero_r0. destruct r. cbn. by rewrite list_insert_insert_eq. Qed.

Lemma maintain_r0_Ok b t : tracer_at b t →
  ∃ t', maintain_r0 t = Ok t' ∧ tracer_at b t' ∧ arch (t_regs t') = zero_r0 (arch (t_regs t)) ∧ t_mem t' = t_mem t.
Proof.
  intros [[[Ha Hs Hu] Hm Ho] Hb]. unfold maintain_r0, vset.
  pose proof (Ha BankR) as HaR. pose proof (Hs BankR) as HsR. cbn [bank_of bank_size] in HaR, HsR. unfold MD_NUM_IREGS in *.
  destruct (lookup_lt_is_Some_2 (regs_R (arch (t_regs t))) 0) as [v ->]; [lia|].
  destruct (lookup_lt_is_Some_2 (regs_R (spec_R (spec (t_regs t)))) 0) as [w ->]; [lia|].
  cbn [mbind result_bind]. eexists. split; [reflexivity|]. split; [|done]. split; [split; [|done..]|].
  - split; intros []; cbn; rewrite ?length_insert; try done;
      first [apply (Ha BankF)|apply (Ha BankC)|apply (Hs BankF)|apply (Hs BankC)|apply (Hu BankR)|apply (Hu BankF)|apply (Hu BankC)].
  - intros Hf b'. specialize (Hb Hf b'). by destruct b'.
Qed.

(** ** A step of an instruction *)

(** On a wrong path an access succeeds and leaves the architected state alone. *)
Lemma micro_step_spec m t : tracer_at true t → micro_ok m →
  ∃ fault out t', micro_step true m t = Ok (fault, out, t') ∧ tracer_at true t' ∧
    arch (t_regs t') = arch (t_regs t) ∧ same_bytes (t_mem t) (t_mem t').
Proof.
  intros [[Hr Hm [o Ho]] _] Hok. destruct m as [cmd addr p|b bit i|b bit i v]; cbn [micro_step].
  - destruct Hok as [Ha Hp].
    pose proof (spec_mem_access_spec bugcompat_mode MD_CROSS_ENDIAN ld_text_base ld_text_size ld_data_base ld_stack_base
      (t_mem t) (t_spec t) o cmd addr p (Z.of_nat (length p)) Hm Ho Ha ltac:(lia) ltac:(by rewrite Nat2Z.id)) as H.
    destruct (overlay_access _ _ _ _ _ _ _ o cmd addr p _) as [[p' o']|flt] eqn:Hov.
    + destruct H as (m' & s' & -> & He & Hs'). cbn [mbind result_bind]. do 3 eexists. split; [reflexivity|].
      split; [split; [|done]; split; [done|by eapply mem_ok_equiv|by exists o']|].
      split; [done|]. intros a _. symmetry. by apply mem_byte_equiv.
    + exfalso. unfold overlay_access in Hov. rewrite Nat2Z.id in Hov. rewrite (bool_decide_eq_true_2 _ Hp) in Hov.
      destruct (negb _); [done|]. by destruct cmd, (o !! addr).
  - destruct Hok as [Hb Hi]. rewrite get_reg_Ok by done. cbn [mbind result_bind]. do 3 eexists.
    split; [reflexivity|]. split; [split; [split; [done..|by exists o]|done]|by split].
  - destruct Hok as [Hb Hi]. destruct (set_reg_spec (t_regs t) b bit i v Hr Hb Hi) as (r & -> & Hr' & Ha & _).
    cbn [mbind result_bind]. do 3 eexists. split; [reflexivity|]. split; [split; [split; [done..|by exists o]|done]|by split].
Qed.

Lemma access_spec_ext f g cmd addr p n : (∀ a, 0 ≤ a < 2 ^ 32 → f a = g a) →
  (access_spec f cmd addr p n).1 = (access_spec g cmd addr p n).1 ∧
  ∀ a, 0 ≤ a < 2 ^ 32 → (access_spec f cmd addr p n).2 a = (access_spec g cmd addr p n).2 a.
Proof.
  intros H. unfold access_spec. case_bool_decide; [by split|]. case_bool_decide; [by split|]. destruct cmd; cbn [fst snd].
  - split; [|done]. f_equal. f_equal. unfold region. apply map_ext. intros i. apply H. apply u32_range.
  - split; [done|]. intros a Ha. apply upd_bytes_ext. by apply H.
Qed.

(** Off a wrong path it succeeds too, and equal states stay equal. *)
Lemma micro_step_arch m t1 t2 : tracer_at false t1 → tracer_at false t2 →
  arch (t_regs t1) = arch (t_regs t2) → same_bytes (t_mem t1) (t_mem t2) → micro_ok m →
  ∃ fault out t1' t2', micro_step false m t1 = Ok (fault, out, t1') ∧ micro_step false m t2 = Ok (fault, out, t2') ∧
    tracer_at false t1' ∧ tracer_at false t2' ∧
    arch (t_regs t1') = arch (t_regs t2') ∧ same_bytes (t_mem t1') (t_mem t2').
Proof.
  intros [[Hr1 Hm1 Ho1] Hb1] [[Hr2 Hm2 Ho2] Hb2] Ha Hs Hok. destruct m as [cmd addr p|b bit i|b bit i v]; cbn [micro_step].
  - destruct Hok as [Hadr Hp].
    destruct (mem_access_spec (t_mem t1) cmd addr p (Z.of_nat (length p)) Hm1 Hadr ltac:(lia)) as (m1 & -> & Hm1' & He1).
    destruct (mem_access_spec (t_mem t2) cmd addr p (Z.of_nat (length p)) Hm2 Hadr ltac:(lia)) as (m2 & -> & Hm2' & He2).
    destruct (access_spec_ext _ _ cmd addr p (Z.of_nat (length p)) Hs) as [H1 H2]. rewrite <- H1.
    destruct (access_spec _ _ _ _ _).1 as [fault out]. cbn [mbind result_bind]. do 4 eexists.
    split; [reflexivity|]. split; [reflexivity|]. do 2 (split; [by split|]). split; [done|].
    intros a Hra. cbn [t_mem]. rewrite He1, He2 by done. by apply H2.
  - destruct Hok as [Hb Hi]. rewrite !get_reg_Ok by done. unfold cell. rewrite Hb1, Hb2, Ha by done.
    cbn [mbind result_bind]. do 4 eexists. do 2 (split; [reflexivity|]). by split_and!.
  - destruct Hok as [Hb Hi]. unfold set_reg, vset. rewrite <- Ha.
    destruct (lookup_lt_is_Some_2 (bank_of b (arch (t_regs t1))) i) as [w ->]; [by rewrite (ro_arch _ Hr1)|].
    cbn [mbind result_bind]. do 4 eexists. do 2 (split; [reflexivity|]).
    assert (∀ r, arch r = arch (t_regs t1) → regs_ok r → regs_ok (mkRegState (set_bank b (<[i := v]> (bank_of b (arch (t_regs t1)))) (arch (t_regs t1))) (spec r))) as Hreg.
    { intros r Hra [R1 R2 R3]. split; [|exact R2|exact R3]. rewrite Hra in R1.
      intros b'. pose proof (R1 b'). destruct b, b'; cbn in *; by rewrite ?length_insert. }
    split; [split; [split; [by apply Hreg|done..]|done]|]. split; [split; [split; [by apply Hreg|done..]|done]|]. by split.
Qed.

(** Whatever copies are in use, an access succeeds. *)
Lemma micro_step_total spec m t : tracer_ok t → micro_ok m →
  ∃ fault out t', micro_step spec m t = Ok (fault, out, t') ∧ tracer_ok t'.
Proof.
  intros Ht Hok. destruct spec.
  { destruct (micro_step_spec m t) as (fault & out & t' & H1 & [H2 _] & _); [by split|done|]. by exists fault, out, t'. }
  destruct Ht as [Hr Hm Ho]. destruct m as [cmd addr p|b bit i|b bit i v]; cbn [micro_step].
  - destruct Hok as [Hadr Hp].
    destruct (mem_access_spec (t_mem t) cmd addr p (Z.of_nat (length p)) Hm Hadr ltac:(lia)) as (m1 & -> & Hm1' & He1).
    destruct (access_spec _ _ _ _ _).1 as [fault out]. cbn [mbind result_bind]. do 3 eexists. split; [reflexivity|]. by split.
  - destruct Hok as [Hb Hi]. rewrite !get_reg_Ok by done. do 3 eexists. split; [reflexivity|]. by split.
  - destruct Hok as [Hb Hi]. unfold set_reg, vset. destruct Hr as [R1 R2 R3].
    destruct (lookup_lt_is_Some_2 (bank_of b (arch (t_regs t))) i) as [w ->]; [by rewrite R1|].
    cbn [mbind result_bind]. do 3 eexists. split; [reflexivity|]. split; [|done..]. split; [|done..].
    intros b'. pose proof (R1 b'). destruct b, b'; cbn in *; by rewrite ?length_insert.
Qed.

(** ** Instructions *)

Lemma exec_sem_total Q spec p t : sem_ok Q p → tracer_ok t →
  ∃ x t', exec_sem spec p t = Ok (if spec then mask_fault x else x, t') ∧ Q x ∧ tracer_ok t'.
Proof.
  intros Hp Ht. unfold exec_sem. destruct (maintain_r0_Ok true t) as (t0 & -> & [Ht0 _] & _); [by split|].
  cbn [mbind result_bind]. clear t Ht. revert t0 Ht0.
  induction Hp as [x Hx|m k Hm _ IH]; intros t Ht; cbn [run_sem]; [by exists x, t|].
  destruct (micro_step_total spec m t Ht Hm) as (fault & out & t1 & -> & Ht1). cbn [mbind result_bind]. by apply IH.
Qed.


Lemma run_sem_spec Q p : sem_ok Q p → ∀ t, tracer_at true t →
  ∃ x t', run_sem true p t = Ok (mask_fault x, t') ∧ Q x ∧ tracer_at true t' ∧
    arch (t_regs t') = arch (t_regs t) ∧ same_bytes (t_mem t) (t_mem t').
Proof.
  induction 1 as [x Hx|m k Hm _ IH]; intros t Ht; cbn [run_sem]; [by exists x, t|].
  destruct (micro_step_spec m t Ht Hm) as (fault & out & t1 & -> & Ht1 & Ha1 & Hb1). cbn [mbind result_bind].
  destruct (IH fault out t1 Ht1) as (x & t' & Hrun & HQ & Ht' & Ha' & Hb'). exists x, t'. split_and!; try done; [congruence|].
  intros a Ha. by rewrite Hb1, Hb'.
Qed.

Lemma run_sem_arch Q p : sem_ok Q p → ∀ t1 t2, tracer_at false t1 → tracer_at false t2 →
  arch (t_regs t1) = arch (t_regs t2) → same_bytes (t_mem t1) (t_mem t2) →
  ∃ x t1' t2', run_sem false p t1 = Ok (x, t1') ∧ run_sem false p t2 = Ok (x, t2') ∧ Q x ∧
    tracer_at false t1' ∧ tracer_at false t2' ∧
    arch (t_regs t1') = arch (t_regs t2') ∧ same_bytes (t_mem t1') (t_mem t2').
Proof.
  induction 1 as [x Hx|m k Hm _ IH]; intros t1 t2 H1 H2 Ha Hb; cbn [run_sem]; [by exists x, t1, t2|].
  destruct (micro_step_arch m t1 t2 H1 H2 Ha Hb Hm) as (fault & out & t1' & t2' & -> & -> & ? & ? & ? & ?).
  cbn [mbind result_bind]. by apply IH.
Qed.

Lemma exec_sem_spec Q p t : sem_ok Q p → tracer_at true t →
  ∃ x t', exec_sem true p t = Ok (mask_fault x, t') ∧ Q x ∧ tracer_at true t' ∧ arch_same t t'.
Proof.
  intros Hp Ht. destruct (maintain_r0_Ok true t Ht) as (t0 & H0 & Ht0 & Ha0 & Hm0). unfold exec_sem. rewrite H0.
  cbn [mbind result_bind]. destruct (run_sem_spec Q p Hp t0 Ht0) as (x & t' & Hrun & HQ & Ht' & Ha' & Hb').
  exists x, t'. split_and!; try done. split; [by rewrite Ha', Ha0, zero_r0_idem|]. by rewrite <- Hm0.
Qed.

Lemma exec_sem_arch Q p t1 t2 : sem_ok Q p → tracer_at false t1 → tracer_at false t2 → arch_same t1 t2 →
  ∃ x t1' t2', exec_sem false p t1 = Ok (x, t1') ∧ exec_sem false p t2 = Ok (x, t2') ∧ Q x ∧
    tracer_at false t1' ∧ tracer_at false t2' ∧ arch_same t1' t2'.
Proof.
  intros Hp H1 H2 [Ha Hb].
  destruct (maintain_r0_Ok false t1 H1) as (u1 & E1 & Hu1 & Ha1 & Hm1).
  destruct (maintain_r0_Ok false t2 H2) as (u2 & E2 & Hu2 & Ha2 & Hm2). unfold exec_sem. rewrite E1, E2. cbn [mbind result_bind].
  destruct (run_sem_arch Q p Hp u1 u2 Hu1 Hu2) as (x & t1' & t2' & R1 & R2 & HQ & ? & ? & Ha' & Hb'); [congruence|by rewrite Hm1, Hm2|].
  exists x, t1', t2'. split_and!; try done. split; [by rewrite Ha'|done].
Qed.

(** ** The instruction by itself

    Off a wrong path an instruction is a function of the registers and of memory as a map
    from addresses to bytes. *)

Record seq_state := mkSeq { sq_regs : reg_file; sq_mem : Z → Z }.

Definition seq_step (m : micro) (s : seq_state) : md_fault_type * list Z * seq_state :=
  match m with
  | MMem cmd addr p =>
      let r := access_spec (sq_mem s) cmd addr p (Z.of_nat (length p)) in (r.1, mkSeq (sq_regs s) r.2)
  | MGet b _ i => (md_fault_none, [default 0 (bank_of b (sq_regs s) !! i)], s)
  | MSet b _ i v => (md_fault_none, [], mkSeq (set_bank b (<[i := v]> (bank_of b (sq_regs s))) (sq_regs s)) (sq_mem s))
  end.

Fixpoint seq_sem (p : inst_sem) (s : seq_state) : exec_out * seq_state :=
  match p with
  | Done x => (x, s)
  | Step m k => let '(fault, out, s) := seq_step m s in seq_sem (k fault out) s
  end.

Definition seq_exec (p : inst_sem) (s : seq_state) : exec_out * seq_state :=
  seq_sem p (mkSeq (zero_r0 (sq_regs s)) (sq_mem s)).

Definition shows (t : tracer) (s : seq_state) : Prop :=
  arch (t_regs t) = sq_regs s ∧ ∀ a, 0 ≤ a < 2 ^ 32 → mem_byte (t_mem t) a = sq_mem s a.

Lemma seq_step_run m t s : tracer_at false t → micro_ok m → shows t s →
  ∃ t', micro_step false m t = Ok ((seq_step m s).1, t') ∧ tracer_at false t' ∧ shows t' (seq_step m s).2.
Proof.
  intros Ht Hok [Hr Hb]. destruct (micro_step_arch m t t Ht Ht eq_refl (λ a _, eq_refl) Hok)
    as (fault & out & t' & _ & Hs & _ & Ht' & _). exists t'.
  enough ((fault, out) = (seq_step m s).1 ∧ shows t' (seq_step m s).2) as [<- Hshow] by done.
  destruct Ht as [[Hro Hm _] Hbit]. destruct m as [cmd addr p|b bit i|b bit i v]; cbn [micro_step seq_step fst snd] in *.
  - destruct Hok as [Hadr Hp].
    destruct (mem_access_spec (t_mem t) cmd addr p (Z.of_nat (length p)) Hm Hadr ltac:(lia)) as (m1 & Hacc & _ & He).
    destruct (access_spec_ext _ _ cmd addr p (Z.of_nat (length p)) Hb) as [H1 H2]. rewrite Hacc in Hs. cbn [mbind result_bind] in Hs.
    rewrite H1 in Hs. destruct (access_spec (sq_mem s) _ _ _ _) as [[f1 o1] g]. cbn in Hs, H2 |- *. injection Hs as <- <- <-.
    split; [done|]. split; [done|]. intros a Ha. cbn [t_mem sq_mem]. rewrite He by done. by apply H2.
  - destruct Hok as [Hbt Hi]. rewrite get_reg_Ok in Hs by done. cbn [mbind result_bind] in Hs. injection Hs as <- <- <-.
    unfold cell. rewrite Hbit by done. split; [|by split]. by rewrite Hr.
  - inv_ok. split; [done|]. split; [|done]. cbn [t_regs sq_regs]. inv_ok. cbn [arch]. by rewrite Hr.
Qed.

Lemma exec_sem_seq Q p t s : sem_ok Q p → tracer_at false t → shows t s →
  ∃ t', exec_sem false p t = Ok ((seq_exec p s).1, t') ∧ Q (seq_exec p s).1 ∧ tracer_at false t' ∧ shows t' (seq_exec p s).2.
Proof.
  intros Hp Ht [Hr Hb]. destruct (maintain_r0_Ok false t Ht) as (t0 & H0 & Ht0 & Ha0 & Hm0). unfold exec_sem, seq_exec. rewrite H0.
  cbn [mbind result_bind]. set (s0 := mkSeq _ _). assert (shows t0 s0) as Hs0.
  { split; [by rewrite Ha0, Hr|]. intros a Ha. rewrite Hm0. by apply Hb. }
  clearbody s0. clear Hr Hb H0 Ha0 Hm0 Ht. revert t0 s0 Ht0 Hs0. induction Hp as [x Hx|m k Hm _ IH]; intros t0 s0 Ht0 Hs0; [by exists t0|].
  destruct (seq_step_run m t0 s0 Ht0 Hm Hs0) as (t1 & Hstep & Ht1 & Hs1). cbn [run_sem seq_sem]. rewrite Hstep.
  destruct (seq_step m s0) as [[fault out] s1]. cbn [fst snd mbind result_bind] in *. by apply IH.
Qed.
End Isa.
