(* ===== verification/Floats.v ===== *)
(** * float and double

    The floating point types of C on a host with IEEE 754 arithmetic that rounds to nearest:
    values are those of the standard library's [SpecFloat], which has one NaN. *)

From S2P Require Import Prelude.
From Stdlib Require Export SpecFloat.

(** Precision, and the exponent of the infinities: [emax] = 2^([ew] - 1). *)
Record float_fmt := mkFmt { f_prec : Z; f_ew : Z }.
Definition f_emax (f : float_fmt) : Z := 2 ^ (f_ew f - 1).

(** [sfloat_t] and [dfloat_t] of host.h. *)
Definition sfloat_t : float_fmt := mkFmt 24 8.
Definition dfloat_t : float_fmt := mkFmt 53 11.

Section Format.
Variable f : float_fmt.
Abbreviation prec := (f_prec f).
Abbreviation emax := (f_emax f).

(** ** Operators *)

Definition f_add : spec_float → spec_float → spec_float := SFadd prec emax.
Definition f_sub : spec_float → spec_float → spec_float := SFsub prec emax.
Definition f_mul : spec_float → spec_float → spec_float := SFmul prec emax.
Definition f_div : spec_float → spec_float → spec_float := SFdiv prec emax.
Definition f_sqrt : spec_float → spec_float := SFsqrt prec emax.

(** ** Conversions *)

Definition f_of_Z (z : Z) : spec_float := binary_normalize prec emax z 0 false.

Definition f_convert (x : spec_float) : spec_float :=
  match x with S754_finite s m e => binary_round prec emax s m e | x => x end.

(** ** Representation: sign, biased exponent, mantissa without its leading one *)

Definition f_low : Z := 2 ^ (prec - 1).
Definition f_bias : Z := SpecFloat.emin prec emax - 1.

Definition f_of_bits (z : Z) : spec_float :=
  let s := Z.testbit z (prec + f_ew f - 1) in
  let e := (z / f_low) mod 2 ^ f_ew f in
  let m := z mod f_low in
  if bool_decide (e = 0) then match m with Zpos p => S754_finite s p (f_bias + 1) | _ => S754_zero s end
  else if bool_decide (e = 2 ^ f_ew f - 1) then (if bool_decide (m = 0) then S754_infinity s else S754_nan)
  else S754_finite s (Z.to_pos (f_low + m)) (e + f_bias).

(** [nan] is the host's representation of NaN. *)
Definition f_to_bits (nan : Z) (x : spec_float) : Z :=
  let sign (s : bool) := if s then 2 ^ (prec + f_ew f - 1) else 0 in
  match x with
  | S754_zero s => sign s
  | S754_infinity s => sign s + (2 ^ f_ew f - 1) * f_low
  | S754_nan => nan
  | S754_finite s m e =>
      if bool_decide (Zpos m < f_low) then sign s + Zpos m else sign s + (e - f_bias) * f_low + (Zpos m - f_low)
  end.
End Format.

(** Conversion to an integer discards the fraction; infinities and NaN have no value. *)
Definition f_trunc (x : spec_float) : option Z :=
  match x with
  | S754_zero _ => Some 0
  | S754_finite s m e => Some (cond_Zopp s (Z.shiftl (Zpos m) e))
  | _ => None
  end.

(** ** Values and their representation *)

(** Precision and exponents as IEEE formats have them. *)
Record fmt_ok (f : float_fmt) : Prop := { fo_prec : 2 ≤ f_prec f; fo_ew : 2 ≤ f_ew f; fo_emax : f_prec f < f_emax f }.

Lemma single_ok : fmt_ok sfloat_t.
Proof. by split; vm_compute. Qed.
Lemma double_ok : fmt_ok dfloat_t.
Proof. by split; vm_compute. Qed.

Lemma digits2_log2 p : Zpos (digits2_pos p) = Z.log2 (Zpos p) + 1.
Proof. induction p as [p IH|p IH|]; cbn [digits2_pos]; [| |done]; rewrite Pos2Z.inj_succ, IH; destruct p; cbn; lia. Qed.

Lemma bounded_spec f m e : fmt_ok f → bounded (f_prec f) (f_emax f) m e = true →
  Zpos m < 2 ^ f_prec f ∧ (Zpos m < f_low f → e = f_bias f + 1) ∧ f_bias f < e ≤ f_emax f - f_prec f.
Proof.
  intros [H1 H2 H3]. unfold bounded, canonical_mantissa, fexp, f_bias, f_low. rewrite digits2_log2, andb_true_iff, Z.eqb_eq, Z.leb_le.
  intros [H4 H5]. pose proof (Z.log2_spec (Zpos m) ltac:(lia)) as [H6 H7]. pose proof (Z.log2_nonneg (Zpos m)).
  assert (Z.log2 (Zpos m) + 1 ≤ f_prec f) as H8 by lia. split_and!; try lia.
  - eapply Z.lt_le_trans; [exact H7|]. apply Z.pow_le_mono_r; lia.
  - intros Hm. assert (Z.log2 (Zpos m) < f_prec f - 1); [|lia]. apply (Z.pow_lt_mono_r_iff 2); lia.
Qed.

Lemma fmt_pows f : fmt_ok f → 0 < f_low f ∧ 2 ^ f_prec f = 2 * f_low f ∧ 4 ≤ 2 ^ f_ew f ∧
  2 ^ (f_prec f + f_ew f - 1) = 2 ^ f_ew f * f_low f ∧ f_emax f - f_prec f - f_bias f = 2 ^ f_ew f - 2.
Proof.
  intros [H1 H2 H3]. unfold f_low, f_bias, SpecFloat.emin, f_emax. split; [apply Z.pow_pos_nonneg; lia|].
  split; [rewrite <- Z.pow_succ_r by lia; f_equal; lia|]. split; [change 4 with (2 ^ 2); by apply Z.pow_le_mono_r; lia|].
  split; [rewrite <- Z.pow_add_r by lia; f_equal; lia|].
  replace (2 ^ f_ew f) with (2 * 2 ^ (f_ew f - 1)) by (rewrite <- Z.pow_succ_r by lia; f_equal; lia). lia.
Qed.

(** The fields of a word. *)
Lemma fields f s e m : fmt_ok f → 0 ≤ e < 2 ^ f_ew f → 0 ≤ m < f_low f →
  let z := (if s : bool then 2 ^ (f_prec f + f_ew f - 1) else 0) + e * f_low f + m in
  Z.testbit z (f_prec f + f_ew f - 1) = s ∧ (z / f_low f) mod 2 ^ f_ew f = e ∧ z mod f_low f = m.
Proof.
  intros Hf He Hm z. destruct (fmt_pows f Hf) as (L1 & L2 & L3 & L4 & _).
  assert (z = (Z.b2z s * 2 ^ f_ew f + e) * f_low f + m) as Hz.
  { subst z. destruct s; cbn [Z.b2z]; [rewrite L4|]; lia. }
  assert (z / f_low f = Z.b2z s * 2 ^ f_ew f + e) as Hd by (rewrite Hz, Z.div_add_l, Z.div_small by lia; lia).
  split_and!.
  - apply Z.b2z_inj. rewrite Z.testbit_spec' by (destruct Hf; lia). rewrite L4.
    rewrite Z.mul_comm, <- Z.div_div, Hd, Z.div_add_l, (Z.div_small e), Z.add_0_r by lia. by destruct s.
  - rewrite Hd, Z.add_comm, Z.mod_add by lia. by apply Z.mod_small.
  - rewrite Hz, Z.add_comm, Z.mod_add by lia. by apply Z.mod_small.
Qed.

(** What is stored is read back, but for a NaN. *)
Lemma f_bits_roundtrip f nan x : fmt_ok f → valid_binary (f_prec f) (f_emax f) x = true → x ≠ S754_nan →
  f_of_bits f (f_to_bits f nan x) = x.
Proof.
  intros Hf Hv Hn. destruct (fmt_pows f Hf) as (L1 & L2 & L3 & L4 & L5). unfold f_of_bits, f_to_bits.
  destruct x as [s|s| |s m e]; cbv zeta; [| |done|].
  - destruct (fields f s 0 0 Hf) as (F1 & F2 & F3); [lia..|]. rewrite Z.mul_0_l, !Z.add_0_r in F1, F2, F3.
    rewrite F1, F2, F3. by rewrite bool_decide_true.
  - destruct (fields f s (2 ^ f_ew f - 1) 0 Hf) as (F1 & F2 & F3); [lia..|]. rewrite !Z.add_0_r in F1, F2, F3.
    rewrite F1, F2, F3. rewrite bool_decide_false by lia. by rewrite !bool_decide_true.
  - destruct (bounded_spec f m e Hf Hv) as (B1 & B2 & B3). destruct (decide (Zpos m < f_low f)) as [Hm|Hm].
    + rewrite (bool_decide_true (Zpos m < f_low f)) by done.
      destruct (fields f s 0 (Zpos m) Hf) as (F1 & F2 & F3); [lia..|]. rewrite Z.mul_0_l, !Z.add_0_r in F1, F2, F3.
      rewrite F1, F2, F3. rewrite bool_decide_true by done. by rewrite B2.
    + rewrite (bool_decide_false (Zpos m < f_low f)) by done.
      destruct (fields f s (e - f_bias f) (Zpos m - f_low f) Hf) as (F1 & F2 & F3); [lia..|].
      rewrite F1, F2, F3. rewrite !bool_decide_false by lia. f_equal; [|lia].
      replace (f_low f + (Zpos m - f_low f)) with (Zpos m) by lia. done.
Qed.
