(* ===== verification/Pisa.v ===== *)
(** * machine.def and machine.h: the PISA instruction set

    Every instruction as the accesses that its macro makes, written in a monad over the
    accesses of [Isa] that carries the next address, the target and the address of the last
    access, and ends early on a fault.  Registers are signed words.  What the C language
    leaves to the host is the record [host]. *)

From S2P Require Import Prelude Misc Memory Bpred Ruu RuuStages SpecState Isa Floats.

(** ** Accesses *)

(** [regs.regs_NPC], [target_PC] and [addr]. *)
Record pst := mkPst { st_NPC : Z; st_TPC : Z; st_addr : Z }.

(** What an instruction yields when it ends, what it has set, and what follows. *)
Definition pm (A : Type) : Type := (pst → md_fault_type → exec_out) → pst → (A → pst → inst_sem) → inst_sem.

#[export] Instance pm_ret : MRet pm := λ A a fin st k, k a st.
#[export] Instance pm_bind : MBind pm := λ A B f m fin st k, m fin st (λ a st, f a fin st k).

Definition pm_run (m : pm unit) (fin : pst → md_fault_type → exec_out) (st : pst) : inst_sem :=
  m fin st (λ _ st, Done (fin st md_fault_none)).

Definition pm_get (b : bank) (bit i : nat) : pm Z := λ fin st k, Step (MGet b bit i) (λ _ v, k (hd 0 v) st).
Definition pm_set (b : bank) (bit i : nat) (v : Z) : pm unit := λ fin st k, Step (MSet b bit i v) (λ _ _, k tt st).

(** An assignment converts to the type of the register. *)
Definition GPR (n : Z) : pm Z := v ← pm_get BankR (Z.to_nat n) (Z.to_nat n); mret (i32 v).
Definition SET_GPR (n v : Z) : pm unit := pm_set BankR (Z.to_nat n) (Z.to_nat n) (i32 v).
Definition FPR_L (n : Z) : pm Z := v ← pm_get BankF (pair_of (Z.to_nat n)) (Z.to_nat n); mret (i32 v).
Definition SET_FPR_L (n v : Z) : pm unit := pm_set BankF (pair_of (Z.to_nat n)) (Z.to_nat n) (i32 v).
Definition HI : pm Z := v ← pm_get BankC 0 0; mret (i32 v).
Definition SET_HI (v : Z) : pm unit := pm_set BankC 0 0 (i32 v).
Definition LO : pm Z := v ← pm_get BankC 1 1; mret (i32 v).
Definition SET_LO (v : Z) : pm unit := pm_set BankC 1 1 (i32 v).
Definition FCC : pm Z := v ← pm_get BankC 2 2; mret (i32 v).
Definition SET_FCC (v : Z) : pm unit := pm_set BankC 2 2 (i32 v).
Definition SET_NPC (v : Z) : pm unit := λ fin st k, k tt (mkPst (u32 v) (st_TPC st) (st_addr st)).
Definition SET_TPC (v : Z) : pm unit := λ fin st k, k tt (mkPst (st_NPC st) (u32 v) (st_addr st)).

(** It leaves the instruction. *)
Definition DECLARE_FAULT {A} (f : md_fault_type) : pm A := λ fin st k, Done (fin st f).
Definition fault_if (b : bool) (f : md_fault_type) : pm unit := if b then DECLARE_FAULT f else mret tt.
(** [if (_fault != md_fault_none) DECLARE_FAULT(_fault)]. *)
Definition check_fault (f : md_fault_type) : pm unit := fault_if (negb (bool_decide (f = md_fault_none))) f.

(** ** The host *)

Record host := mkHost {
  BYTES_BIG_ENDIAN : bool;
  MD_CROSS_ENDIAN : bool;
  FAST_SRL : bool;
  FAST_SRA : bool;
  undef_shift : Z → Z → Z;    (* shifts by a negative count or by 32 and more *)
  undef_div : Z * Z;          (* quotient and remainder of the least integer by -1 *)
  undef_cvt : spec_float → Z; (* conversions to integers out of range *)
  nan_s : Z;                  (* representation of NaN results *)
  nan_d : Z;
  sys_syscall : Z → pm unit   (* the system call proxy *)
}.

Definition i8 (z : Z) : Z := (z + 2 ^ 7) mod 2 ^ 8 - 2 ^ 7.
Definition i16 (z : Z) : Z := (z + 2 ^ 15) mod 2 ^ 16 - 2 ^ 15.

(** [SWAP_HALF] and [SWAP_WORD] of endian.h. *)
Definition SWAP_HALF (x : Z) : Z :=
  let x := u16 x in Z.lor (Z.shiftl (Z.land x 255) 8) (Z.shiftr (Z.land x (255 * 2 ^ 8)) 8).
Definition SWAP_WORD (x : Z) : Z :=
  let x := u32 x in
  Z.lor (u32 (Z.shiftl x 24))
    (Z.lor (Z.land (u32 (Z.shiftl x 8)) (255 * 2 ^ 16))
       (Z.lor (Z.land (Z.shiftr x 8) (255 * 2 ^ 8)) (Z.land (Z.shiftr x 24) 255))).

(** The bytes of an object, lowest address first. *)
Fixpoint little_of (p : list Z) : Z := match p with [] => 0 | b :: p => u8 b + 2 ^ 8 * little_of p end.
Fixpoint little_to (n : nat) (v : Z) : list Z := match n with O => [] | S n => u8 v :: little_to n (v / 2 ^ 8) end.

(** [extractl] of misc.c. *)
Definition extractl (word pos num : Z) : Z :=
  Z.land (Z.shiftr (u32 word) (pos + 1 - num)) (u32 (Z.lnot (Z.shiftl (-1) num))).

Section Host.
Variable h : host.

Definition host_of (p : list Z) : Z := little_of (if BYTES_BIG_ENDIAN h then rev p else p).
Definition host_to (n : nat) (v : Z) : list Z := if BYTES_BIG_ENDIAN h then rev (little_to n v) else little_to n v.

Definition MD_SWAPH (x : Z) : Z := if MD_CROSS_ENDIAN h then SWAP_HALF x else x.
Definition MD_SWAPW (x : Z) : Z := if MD_CROSS_ENDIAN h then SWAP_WORD x else x.

(** [__READ_SPECMEM] and [__WRITE_SPECMEM] with a temporary of [n] bytes. *)
Definition pm_read (n : nat) (src : Z) : pm (Z * md_fault_type) := λ fin st k,
  Step (MMem Read (u32 src) (replicate n 0)) (λ f p, k (host_of p, f) (mkPst (st_NPC st) (st_TPC st) (u32 src))).
Definition pm_write (n : nat) (v dst : Z) : pm md_fault_type := λ fin st k,
  Step (MMem Write (u32 dst) (host_to n v)) (λ f _, k f (mkPst (st_NPC st) (st_TPC st) (u32 dst))).

Definition READ_BYTE (src : Z) : pm (Z * md_fault_type) := pm_read 1 src.
Definition READ_HALF (src : Z) : pm (Z * md_fault_type) := '(v, f) ← pm_read 2 src; mret (MD_SWAPH v, f).
Definition READ_WORD (src : Z) : pm (Z * md_fault_type) := '(v, f) ← pm_read 4 src; mret (MD_SWAPW v, f).
Definition WRITE_BYTE (v dst : Z) : pm md_fault_type := pm_write 1 v dst.
Definition WRITE_HALF (v dst : Z) : pm md_fault_type := pm_write 2 (MD_SWAPH v) dst.
Definition WRITE_WORD (v dst : Z) : pm md_fault_type := pm_write 4 (MD_SWAPW v) dst.

(** The single and the double view of the floating point registers; a double is two words. *)
Definition FPR_F_bits (n : Z) : pm Z := v ← FPR_L n; mret (u32 v).
Definition SET_FPR_F_bits (n v : Z) : pm unit := SET_FPR_L n v.
Definition FPR_D_bits (n : Z) : pm Z :=
  let c := Z.to_nat (n / 2) in
  a ← pm_get BankF (pair_of (Z.to_nat n)) (2 * c); b ← pm_get BankF (pair_of (Z.to_nat n)) (2 * c + 1);
  mret (if BYTES_BIG_ENDIAN h then u32 b + 2 ^ 32 * u32 a else u32 a + 2 ^ 32 * u32 b).
Definition SET_FPR_D_bits (n v : Z) : pm unit :=
  let c := Z.to_nat (n / 2) in
  let '(lo, hi) := (i32 v, i32 (v / 2 ^ 32)) in
  pm_set BankF (pair_of (Z.to_nat n)) (2 * c) (if BYTES_BIG_ENDIAN h then hi else lo);;
  pm_set BankF (pair_of (Z.to_nat n)) (2 * c + 1) (if BYTES_BIG_ENDIAN h then lo else hi).

Definition FPR_F (n : Z) : pm spec_float := v ← FPR_F_bits n; mret (f_of_bits sfloat_t v).
Definition SET_FPR_F (n : Z) (x : spec_float) : pm unit := SET_FPR_F_bits n (f_to_bits sfloat_t (nan_s h) x).
Definition FPR_D (n : Z) : pm spec_float := v ← FPR_D_bits n; mret (f_of_bits dfloat_t v).
Definition SET_FPR_D (n : Z) (x : spec_float) : pm unit := SET_FPR_D_bits n (f_to_bits dfloat_t (nan_d h) x).

(** [(sword_t)] of a float or double. *)
Definition to_sword (x : spec_float) : Z :=
  match f_trunc x with
  | Some z => if bool_decide (- 2 ^ 31 ≤ z < 2 ^ 31) then z else undef_cvt h x
  | None => undef_cvt h x
  end.

(** [x << n] and [x >> n] on words and signed words. *)
Definition shl (x n : Z) : Z := if bool_decide (0 ≤ n < 32) then Z.shiftl x n else undef_shift h x n.
Definition shr (x n : Z) : Z := if bool_decide (0 ≤ n < 32) then Z.shiftr x n else undef_shift h x n.

(** ** machine.h: LWL, LWR, SWL and SWR *)

Definition md_lr_masks (k : Z) : Z :=
  if BYTES_BIG_ENDIAN h then 2 ^ (8 * k) - 1 else 2 ^ (8 * (4 - k)) - 1.
Definition WL_SIZE (a : Z) : Z := if BYTES_BIG_ENDIAN h then Z.land a 3 else 4 - Z.land a 3.
Definition WL_BASE (a : Z) : Z := Z.land a (Z.lnot 3).
Definition WL_PROT_MASK1 (a : Z) : Z := md_lr_masks (WL_SIZE a).
Definition WL_PROT_MASK2 (a : Z) : Z := md_lr_masks (4 - WL_SIZE a).
Definition WR_SIZE (a : Z) : Z := Z.land a 3 + 1.
Definition WR_BASE (a : Z) : Z := Z.land a (Z.lnot 3).
Definition WR_PROT_MASK1 (a : Z) : Z := md_lr_masks (WR_SIZE a).
Definition WR_PROT_MASK2 (a : Z) : Z := md_lr_masks (4 - WR_SIZE a).

(** The target is big endian: the condition of the variants in machine.def. *)
Definition target_big : bool :=
  (negb (MD_CROSS_ENDIAN h) && BYTES_BIG_ENDIAN h) || (MD_CROSS_ENDIAN h && negb (BYTES_BIG_ENDIAN h)).
End Host.

(** ** machine.h: overflow *)

Definition MAXINT_VAL : Z := 2147483647.
Definition OVER (x y : Z) : bool :=
  (bool_decide (0 < x) && bool_decide (0 < y) && bool_decide (MAXINT_VAL - x < y)) ||
  (bool_decide (x < 0) && bool_decide (y < 0) && bool_decide (- MAXINT_VAL - x > y)).
Definition UNDER (x y : Z) : bool :=
  (bool_decide (0 < x) && bool_decide (y < 0) && bool_decide (MAXINT_VAL + y < x)) ||
  (bool_decide (x < 0) && bool_decide (0 < y) && bool_decide (- MAXINT_VAL + y > x)).

(** ** machine.h: fields of an instruction

    An instruction is the word [a] and, above it, the word [b]. *)

Definition inst_a (i : Z) : Z := u32 i.
Definition inst_b (i : Z) : Z := u32 (Z.shiftr i 32).
Definition RS (i : Z) : Z := Z.shiftr (inst_b i) 24.
Definition RT (i : Z) : Z := Z.land (Z.shiftr (inst_b i) 16) 255.
Definition RD (i : Z) : Z := Z.land (Z.shiftr (inst_b i) 8) 255.
Definition SHAMT (i : Z) : Z := Z.land (inst_b i) 255.
Definition FS : Z → Z := RS.
Definition FT : Z → Z := RT.
Definition FD : Z → Z := RD.
Definition IMM (i : Z) : Z := i16 (Z.land (inst_b i) (2 ^ 16 - 1)).
Definition UIMM (i : Z) : Z := Z.land (inst_b i) (2 ^ 16 - 1).
Definition TARG (i : Z) : Z := Z.land (inst_b i) (2 ^ 26 - 1).
Definition OFS : Z → Z := IMM.
Definition BS : Z → Z := RS.

(** [MD_FETCH_INST], on the bytes of memory. *)
Definition fetch_word (h : host) (f : Z → Z) (a : Z) : Z :=
  MD_SWAPW h (host_of h ((λ k, f (a + k)) <$> [0; 1; 2; 3])).
Definition fetch_inst (h : host) (pc : Z) (f : Z → Z) : Z :=
  fetch_word h f pc + 2 ^ 32 * fetch_word h f (pc + 4).

(** ** machine.def: the instructions *)

Section Insts.
Context (h : host) (i CPC : Z).
Abbreviation READ_BYTE := (READ_BYTE h).
Abbreviation READ_HALF := (READ_HALF h).
Abbreviation READ_WORD := (READ_WORD h).
Abbreviation WRITE_BYTE := (WRITE_BYTE h).
Abbreviation WRITE_HALF := (WRITE_HALF h).
Abbreviation WRITE_WORD := (WRITE_WORD h).

Definition NOP_IMPL : pm unit := mret tt.

(** *** Control *)

Definition JUMP_IMPL : pm unit :=
  SET_TPC (Z.lor (Z.land CPC 0xF0000000) (Z.shiftl (TARG i) 2));;
  SET_NPC (Z.lor (Z.land CPC 0xF0000000) (Z.shiftl (TARG i) 2)).

Definition JAL_IMPL : pm unit :=
  SET_TPC (Z.lor (Z.land CPC 0xF0000000) (Z.shiftl (TARG i) 2));;
  SET_NPC (Z.lor (Z.land CPC 0xF0000000) (Z.shiftl (TARG i) 2));;
  SET_GPR 31 (CPC + 8).

Definition JR_IMPL : pm unit :=
  rs ← GPR (RS i);
  fault_if (negb (bool_decide (Z.land rs 7 = 0))) md_fault_alignment;;
  SET_TPC rs;; SET_NPC rs.

(** The link register is written before the target is read a last time. *)
Definition JALR_IMPL : pm unit :=
  rs ← GPR (RS i);
  fault_if (negb (bool_decide (Z.land rs 7 = 0))) md_fault_alignment;;
  SET_GPR (RD i) (CPC + 8);;
  rs ← GPR (RS i); SET_TPC rs;; SET_NPC rs.

Definition branch_target : Z := CPC + 8 + Z.shiftl (OFS i) 2.
Definition branch_if (b : bool) : pm unit := if b then SET_NPC branch_target else mret tt.

Definition BEQ_IMPL : pm unit :=
  SET_TPC branch_target;; rs ← GPR (RS i); rt ← GPR (RT i); branch_if (bool_decide (rs = rt)).
Definition BNE_IMPL : pm unit :=
  SET_TPC branch_target;; rs ← GPR (RS i); rt ← GPR (RT i); branch_if (negb (bool_decide (rs = rt))).
Definition BLEZ_IMPL : pm unit := SET_TPC branch_target;; rs ← GPR (RS i); branch_if (bool_decide (rs ≤ 0)).
Definition BGTZ_IMPL : pm unit := SET_TPC branch_target;; rs ← GPR (RS i); branch_if (bool_decide (0 < rs)).
Definition BLTZ_IMPL : pm unit := SET_TPC branch_target;; rs ← GPR (RS i); branch_if (bool_decide (rs < 0)).
Definition BGEZ_IMPL : pm unit := SET_TPC branch_target;; rs ← GPR (RS i); branch_if (bool_decide (0 ≤ rs)).
Definition BC1F_IMPL : pm unit := SET_TPC branch_target;; c ← FCC; branch_if (bool_decide (c = 0)).
Definition BC1T_IMPL : pm unit := SET_TPC branch_target;; c ← FCC; branch_if (negb (bool_decide (c = 0))).

(** *** Loads

    The two addressing modes share their bodies: [ea] is the address expression. *)

Definition ea_disp : pm Z := bs ← GPR (BS i); mret (bs + OFS i).
Definition ea_rr : pm Z := bs ← GPR (BS i); rd ← GPR (RD i); mret (bs + rd).

Definition load_gpr (read : Z → pm (Z * md_fault_type)) (conv : Z → Z) (ea : pm Z) : pm unit :=
  a ← ea; '(result, fault) ← read a; check_fault fault;; SET_GPR (RT i) (conv result).
Definition load_dlw (ea : pm Z) : pm unit :=
  fault_if (Z.odd (RT i)) md_fault_alignment;;
  a ← ea; '(result_hi, fault) ← READ_WORD a; check_fault fault;;
  a ← ea; '(result_lo, fault) ← READ_WORD (a + 4); check_fault fault;;
  SET_GPR (RT i) result_hi;; SET_GPR (RT i + 1) result_lo.
Definition load_l_s (ea : pm Z) : pm unit :=
  a ← ea; '(result, fault) ← READ_WORD a; check_fault fault;; SET_FPR_L (FT i) result.
Definition load_l_d (ea : pm Z) : pm unit :=
  fault_if (Z.odd (FT i)) md_fault_alignment;;
  a ← ea; '(result_hi, fault) ← READ_WORD a; check_fault fault;;
  a ← ea; '(result_lo, fault) ← READ_WORD (a + 4); check_fault fault;;
  SET_FPR_L (FT i) result_hi;; SET_FPR_L (FT i + 1) result_lo.

Definition LB_IMPL : pm unit := load_gpr READ_BYTE i8 ea_disp.
Definition LBU_IMPL : pm unit := load_gpr READ_BYTE u8 ea_disp.
Definition LH_IMPL : pm unit := load_gpr READ_HALF i16 ea_disp.
Definition LHU_IMPL : pm unit := load_gpr READ_HALF u16 ea_disp.
Definition LW_IMPL : pm unit := load_gpr READ_WORD id ea_disp.
Definition DLW_IMPL : pm unit := load_dlw ea_disp.
Definition L_S_IMPL : pm unit := load_l_s ea_disp.
Definition L_D_IMPL : pm unit := load_l_d ea_disp.

(** The merge of the word in memory and the register, for each order of bytes of the target. *)
Definition lwl (a lr_temp rt : Z) : Z :=
  if target_big h then
    let m := WL_PROT_MASK1 h a in Z.lor (Z.land rt m) (Z.land (u32 (shl h lr_temp (8 * WL_SIZE h a))) (Z.lnot m))
  else
    let m := WR_PROT_MASK1 h a in Z.lor (Z.land rt m) (Z.land (u32 (shl h lr_temp (8 * (WL_SIZE h a - 1)))) (Z.lnot m)).
Definition lwr (a lr_temp rt : Z) : Z :=
  if target_big h then
    let m := WR_PROT_MASK1 h a in Z.lor (Z.land rt (Z.lnot m)) (Z.land (shr h lr_temp (8 * (4 - WR_SIZE a))) m)
  else
    let m := WL_PROT_MASK2 h a in Z.lor (Z.land rt (Z.lnot m)) (Z.land (shr h lr_temp (8 * (WR_SIZE a - 1))) m).

Definition LWL_IMPL : pm unit :=
  temp_bs ← GPR (BS i);
  let a := u32 (temp_bs + OFS i) in
  '(lr_temp, fault) ← READ_WORD (WL_BASE a); check_fault fault;;
  rt ← GPR (RT i); SET_GPR (RT i) (lwl a lr_temp rt).

Definition LWR_IMPL : pm unit :=
  temp_bs ← GPR (BS i);
  let a := u32 (temp_bs + OFS i) in
  '(lr_temp, fault) ← READ_WORD (WR_BASE a); check_fault fault;;
  rt ← GPR (RT i); SET_GPR (RT i) (lwr a lr_temp rt).

(** *** Stores *)

Definition store_gpr (write : Z → Z → pm md_fault_type) (conv : Z → Z) (ea : pm Z) : pm unit :=
  rt ← GPR (RT i); a ← ea; fault ← write (conv rt) a; check_fault fault.
Definition store_dsw (ea : pm Z) : pm unit :=
  fault_if (Z.odd (RT i)) md_fault_alignment;;
  rt ← GPR (RT i); a ← ea; fault ← WRITE_WORD rt a; check_fault fault;;
  rt ← GPR (RT i + 1); a ← ea; fault ← WRITE_WORD rt (a + 4); check_fault fault.
Definition store_dsz (ea : pm Z) : pm unit :=
  r0 ← GPR 0; a ← ea; fault ← WRITE_WORD r0 a; check_fault fault;;
  r0 ← GPR 0; a ← ea; fault ← WRITE_WORD r0 (a + 4); check_fault fault.
Definition store_s_s (ea : pm Z) : pm unit :=
  ft ← FPR_L (FT i); a ← ea; fault ← WRITE_WORD ft a; check_fault fault.
Definition store_s_d (ea : pm Z) : pm unit :=
  fault_if (Z.odd (FT i)) md_fault_alignment;;
  ft ← FPR_L (FT i); a ← ea; fault ← WRITE_WORD ft a; check_fault fault;;
  ft ← FPR_L (FT i + 1); a ← ea; fault ← WRITE_WORD ft (a + 4); check_fault fault.

Definition SB_IMPL : pm unit := store_gpr WRITE_BYTE u8 ea_disp.
Definition SH_IMPL : pm unit := store_gpr WRITE_HALF u16 ea_disp.
Definition SW_IMPL : pm unit := store_gpr WRITE_WORD u32 ea_disp.
Definition DSW_IMPL : pm unit := store_dsw ea_disp.
Definition DSZ_IMPL : pm unit := store_dsz ea_disp.
Definition S_S_IMPL : pm unit := store_s_s ea_disp.
Definition S_D_IMPL : pm unit := store_s_d ea_disp.

Definition swl (a lr_temp rt : Z) : Z :=
  let m := if target_big h then WL_PROT_MASK2 h a else WR_PROT_MASK2 h a in
  let v := if target_big h then shr h rt (8 * WL_SIZE h a) else shr h rt (8 * (4 - WR_SIZE a)) in
  Z.lor (Z.land v m) (Z.land lr_temp (Z.lnot m)).
Definition swr (a lr_temp rt : Z) : Z :=
  let m := if target_big h then WR_PROT_MASK2 h a else WL_PROT_MASK1 h a in
  let v := if target_big h then shl h rt (8 * (4 - WR_SIZE a)) else shl h rt (8 * (4 - WL_SIZE h a)) in
  Z.lor (Z.land v (Z.lnot m)) (Z.land lr_temp m).

Definition SWL_IMPL : pm unit :=
  a ← ea_disp; let a := u32 a in
  '(lr_temp, fault) ← READ_WORD (WL_BASE a); check_fault fault;;
  rt ← GPR (RT i); fault ← WRITE_WORD (u32 (swl a lr_temp rt)) (WL_BASE a); check_fault fault.

Definition SWR_IMPL : pm unit :=
  a ← ea_disp; let a := u32 a in
  '(lr_temp, fault) ← READ_WORD (WR_BASE a); check_fault fault;;
  rt ← GPR (RT i); fault ← WRITE_WORD (u32 (swr a lr_temp rt)) (WR_BASE a); check_fault fault.

(** *** Loads and stores of a sum of registers *)

Definition LB_RR_IMPL : pm unit := load_gpr READ_BYTE i8 ea_rr.
Definition LBU_RR_IMPL : pm unit := load_gpr READ_BYTE u8 ea_rr.
Definition LH_RR_IMPL : pm unit := load_gpr READ_HALF i16 ea_rr.
Definition LHU_RR_IMPL : pm unit := load_gpr READ_HALF u16 ea_rr.
Definition LW_RR_IMPL : pm unit := load_gpr READ_WORD id ea_rr.
Definition DLW_RR_IMPL : pm unit := load_dlw ea_rr.
Definition L_S_RR_IMPL : pm unit := load_l_s ea_rr.
Definition L_D_RR_IMPL : pm unit := load_l_d ea_rr.
Definition SB_RR_IMPL : pm unit := store_gpr WRITE_BYTE u8 ea_rr.
Definition SH_RR_IMPL : pm unit := store_gpr WRITE_HALF u16 ea_rr.
Definition SW_RR_IMPL : pm unit := store_gpr WRITE_WORD u32 ea_rr.
Definition DSW_RR_IMPL : pm unit := store_dsw ea_rr.
Definition DSZ_RR_IMPL : pm unit := store_dsz ea_rr.
Definition S_S_RR_IMPL : pm unit := store_s_s ea_rr.
Definition S_D_RR_IMPL : pm unit := store_s_d ea_rr.

Definition ea_rr4 : pm Z := a ← ea_rr; mret (a + 4).
Definition L_S_RR_R2_IMPL : pm unit := load_l_s ea_rr4.
Definition S_S_RR_R2_IMPL : pm unit := store_s_s ea_rr4.
Definition LW_RR_R2_IMPL : pm unit := load_gpr READ_WORD id ea_rr4.
Definition SW_RR_R2_IMPL : pm unit := store_gpr WRITE_WORD id ea_rr4.

(** *** Integers *)

Definition ADD_IMPL : pm unit :=
  rs ← GPR (RS i); rt ← GPR (RT i); fault_if (OVER rs rt) md_fault_overflow;; SET_GPR (RD i) (rs + rt).
Definition ADDI_IMPL : pm unit :=
  rs ← GPR (RS i); fault_if (OVER rs (IMM i)) md_fault_overflow;; SET_GPR (RT i) (rs + IMM i).
Definition ADDU_IMPL : pm unit := rs ← GPR (RS i); rt ← GPR (RT i); SET_GPR (RD i) (rs + rt).
Definition ADDIU_IMPL : pm unit := rs ← GPR (RS i); SET_GPR (RT i) (rs + IMM i).
Definition SUB_IMPL : pm unit :=
  rs ← GPR (RS i); rt ← GPR (RT i); fault_if (UNDER rs rt) md_fault_overflow;; SET_GPR (RD i) (rs - rt).
Definition SUBU_IMPL : pm unit := rs ← GPR (RS i); rt ← GPR (RT i); SET_GPR (RD i) (rs - rt).

(** [_op & 020000000000]. *)
Definition top_bit (x : Z) : bool := negb (bool_decide (Z.land (u32 x) (2 ^ 31) = 0)).

(** Bit [30 - _i] of the first operand for each of the rounds [_i] = 30 - [n] and on. *)
Fixpoint mult_loop (n : nat) (bit : Z → pm bool) (op2 : pm Z) : pm unit :=
  match n with
  | O => mret tt
  | S n =>
      hi ← HI; SET_HI (Z.shiftl hi 1);;
      hi ← HI; lo ← LO; SET_HI (hi + extractl lo 31 1);;
      lo ← LO; SET_LO (Z.shiftl lo 1);;
      b ← bit (Z.of_nat n);
      (if b : bool then
         lo ← LO; v ← op2;
         (if bool_decide (u32 (2 ^ 32 - 1 - u32 lo) < u32 v) then hi ← HI; SET_HI (hi + 1) else mret tt);;
         lo ← LO; v ← op2; SET_LO (lo + v)
       else mret tt);;
      mult_loop n bit op2
  end.

Definition MULT_IMPL : pm unit :=
  SET_HI 0;; SET_LO 0;;
  op1 ← GPR (RS i); op2 ← GPR (RT i);
  let sign1 := top_bit op1 in
  let op1 := if sign1 then i32 (Z.lnot op1 + 1) else op1 in
  let sign2 := top_bit op2 in
  let op2 := if sign2 then i32 (Z.lnot op2 + 1) else op2 in
  (if top_bit op1 then SET_LO op2 else mret tt);;
  mult_loop 31 (λ k, mret (bool_decide (extractl op1 k 1 = 1))) (mret op2);;
  if xorb sign1 sign2 then
    lo ← LO; SET_LO (Z.lnot lo);;
    hi ← HI; SET_HI (Z.lnot hi);;
    lo ← LO; (if bool_decide (u32 lo = 2 ^ 32 - 1) then hi ← HI; SET_HI (hi + 1) else mret tt);;
    lo ← LO; SET_LO (lo + 1)
  else mret tt.

Definition MULTU_IMPL : pm unit :=
  SET_HI 0;; SET_LO 0;;
  rs ← GPR (RS i);
  (if top_bit rs then rt ← GPR (RT i); SET_LO rt else mret tt);;
  mult_loop 31 (λ k, rs ← GPR (RS i); mret (bool_decide (extractl rs k 1 = 1))) (GPR (RT i)).

(** Division truncates; the host divides the least integer by -1. *)
Definition div_words (x y : Z) : Z * Z :=
  if bool_decide (x = - 2 ^ 31 ∧ y = -1) then undef_div h else (Z.quot x y, Z.rem x y).

Definition DIV_IMPL : pm unit :=
  rt ← GPR (RT i); fault_if (bool_decide (rt = 0)) md_fault_div0;;
  rs ← GPR (RS i); rt ← GPR (RT i); SET_LO (div_words rs rt).1;;
  rs ← GPR (RS i); rt ← GPR (RT i); SET_HI (div_words rs rt).2.
Definition DIVU_IMPL : pm unit :=
  rt ← GPR (RT i); fault_if (bool_decide (rt = 0)) md_fault_div0;;
  rs ← GPR (RS i); rt ← GPR (RT i); SET_LO (u32 rs / u32 rt);;
  rs ← GPR (RS i); rt ← GPR (RT i); SET_HI (u32 rs mod u32 rt).

Definition MFHI_IMPL : pm unit := hi ← HI; SET_GPR (RD i) hi.
Definition MTHI_IMPL : pm unit := rs ← GPR (RS i); SET_HI rs.
Definition MFLO_IMPL : pm unit := lo ← LO; SET_GPR (RD i) lo.
Definition MTLO_IMPL : pm unit := rs ← GPR (RS i); SET_LO rs.
Definition AND__IMPL : pm unit := rs ← GPR (RS i); rt ← GPR (RT i); SET_GPR (RD i) (Z.land rs rt).
Definition ANDI_IMPL : pm unit := rs ← GPR (RS i); SET_GPR (RT i) (Z.land rs (UIMM i)).
Definition OR_IMPL : pm unit := rs ← GPR (RS i); rt ← GPR (RT i); SET_GPR (RD i) (Z.lor rs rt).
Definition ORI_IMPL : pm unit := rs ← GPR (RS i); SET_GPR (RT i) (Z.lor rs (UIMM i)).
Definition XOR_IMPL : pm unit := rs ← GPR (RS i); rt ← GPR (RT i); SET_GPR (RD i) (Z.lxor rs rt).
Definition XORI_IMPL : pm unit := rs ← GPR (RS i); SET_GPR (RT i) (Z.lxor rs (UIMM i)).
Definition NOR_IMPL : pm unit := rs ← GPR (RS i); rt ← GPR (RT i); SET_GPR (RD i) (Z.lnot (Z.lor rs rt)).
Definition SLL_IMPL : pm unit := rt ← GPR (RT i); SET_GPR (RD i) (shl h rt (SHAMT i)).
Definition SLLV_IMPL : pm unit := rt ← GPR (RT i); rs ← GPR (RS i); SET_GPR (RD i) (shl h rt (Z.land rs 31)).

(** Without [FAST_SRL] and [FAST_SRA] the shifts go bit by bit: the first bit apart, or each. *)
Definition srl (rt n : Z) : Z :=
  if FAST_SRL h then shr h (u32 rt) n
  else if bool_decide (n ≠ 0) then shr h (Z.land (Z.shiftr (u32 rt) 1) (Z.lnot (2 ^ 31))) (n - 1) else rt.
Definition SRL_IMPL : pm unit := rt ← GPR (RT i); SET_GPR (RD i) (srl rt (SHAMT i)).
Definition SRLV_IMPL : pm unit := rs ← GPR (RS i); rt ← GPR (RT i); SET_GPR (RD i) (srl rt (Z.land rs 31)).

Fixpoint sra_loop (n : nat) : pm unit :=
  match n with
  | O => mret tt
  | S n => rd ← GPR (RD i); SET_GPR (RD i) (Z.lor (u32 (Z.shiftr rd 1)) (2 ^ 31));; sra_loop n
  end.
Definition sra (n : Z) : pm unit :=
  if FAST_SRA h then rt ← GPR (RT i); SET_GPR (RD i) (shr h rt n) else
  rt ← GPR (RT i);
  if top_bit rt then SET_GPR (RD i) rt;; sra_loop (Z.to_nat n)
  else SET_GPR (RD i) (shr h rt n).
Definition SRA_IMPL : pm unit := sra (SHAMT i).
Definition SRAV_IMPL : pm unit := rs ← GPR (RS i); sra (Z.land rs 31).

Definition SLT_IMPL : pm unit := rs ← GPR (RS i); rt ← GPR (RT i); SET_GPR (RD i) (c_bool (bool_decide (rs < rt))).
Definition SLTI_IMPL : pm unit := rs ← GPR (RS i); SET_GPR (RT i) (c_bool (bool_decide (rs < IMM i))).
Definition SLTU_IMPL : pm unit :=
  rs ← GPR (RS i); rt ← GPR (RT i); SET_GPR (RD i) (c_bool (bool_decide (u32 rs < u32 rt))).
Definition SLTIU_IMPL : pm unit :=
  rs ← GPR (RS i); SET_GPR (RT i) (c_bool (bool_decide (u32 rs < u32 (IMM i)))).

(** *** Floating point *)

Definition align3 : pm unit := fault_if (Z.odd (FD i) || Z.odd (FS i) || Z.odd (FT i)) md_fault_alignment.
Definition align2 : pm unit := fault_if (Z.odd (FD i) || Z.odd (FS i)) md_fault_alignment.
Definition align_cmp : pm unit := fault_if (Z.odd (FS i) || Z.odd (FT i)) md_fault_alignment.

Definition arith_s (op : spec_float → spec_float → spec_float) : pm unit :=
  align3;; x ← FPR_F (FS i); y ← FPR_F (FT i); SET_FPR_F h (FD i) (op x y).
Definition arith_d (op : spec_float → spec_float → spec_float) : pm unit :=
  align3;; x ← FPR_D h (FS i); y ← FPR_D h (FT i); SET_FPR_D h (FD i) (op x y).

Definition FADD_S_IMPL : pm unit := arith_s (f_add sfloat_t).
Definition FADD_D_IMPL : pm unit := arith_d (f_add dfloat_t).
Definition FSUB_S_IMPL : pm unit := arith_s (f_sub sfloat_t).
Definition FSUB_D_IMPL : pm unit := arith_d (f_sub dfloat_t).
Definition FMUL_S_IMPL : pm unit := arith_s (f_mul sfloat_t).
Definition FMUL_D_IMPL : pm unit := arith_d (f_mul dfloat_t).
Definition FDIV_S_IMPL : pm unit := arith_s (f_div sfloat_t).
Definition FDIV_D_IMPL : pm unit := arith_d (f_div dfloat_t).

Definition FABS_S_IMPL : pm unit := align2;; x ← FPR_F (FS i); SET_FPR_F h (FD i) (f_convert sfloat_t (SFabs (f_convert dfloat_t x))).
Definition FABS_D_IMPL : pm unit := align2;; x ← FPR_D h (FS i); SET_FPR_D h (FD i) (SFabs x).
(** A move copies, and a negation flips the sign, of NaN too. *)
Definition FMOV_S_IMPL : pm unit := align2;; x ← FPR_F_bits (FS i); SET_FPR_F_bits (FD i) x.
Definition FMOV_D_IMPL : pm unit := align2;; x ← FPR_D_bits h (FS i); SET_FPR_D_bits h (FD i) x.
Definition FNEG_S_IMPL : pm unit := align2;; x ← FPR_F_bits (FS i); SET_FPR_F_bits (FD i) (Z.lxor x (2 ^ 31)).
Definition FNEG_D_IMPL : pm unit := align2;; x ← FPR_D_bits h (FS i); SET_FPR_D_bits h (FD i) (Z.lxor x (2 ^ 63)).

Definition CVT_S_D_IMPL : pm unit := align2;; x ← FPR_D h (FS i); SET_FPR_F h (FD i) (f_convert sfloat_t x).
Definition CVT_S_W_IMPL : pm unit := align2;; x ← FPR_L (FS i); SET_FPR_F h (FD i) (f_of_Z sfloat_t x).
Definition CVT_D_S_IMPL : pm unit := align2;; x ← FPR_F (FS i); SET_FPR_D h (FD i) (f_convert dfloat_t x).
Definition CVT_D_W_IMPL : pm unit := align2;; x ← FPR_L (FS i); SET_FPR_D h (FD i) (f_of_Z dfloat_t x).
Definition CVT_W_S_IMPL : pm unit := align2;; x ← FPR_F (FS i); SET_FPR_L (FD i) (to_sword h x).
Definition CVT_W_D_IMPL : pm unit := align2;; x ← FPR_D h (FS i); SET_FPR_L (FD i) (to_sword h x).

Definition cmp_s (op : spec_float → spec_float → bool) : pm unit :=
  align_cmp;; x ← FPR_F (FS i); y ← FPR_F (FT i); SET_FCC (c_bool (op x y)).
Definition cmp_d (op : spec_float → spec_float → bool) : pm unit :=
  align_cmp;; x ← FPR_D h (FS i); y ← FPR_D h (FT i); SET_FCC (c_bool (op x y)).
Definition C_EQ_S_IMPL : pm unit := cmp_s SFeqb.
Definition C_EQ_D_IMPL : pm unit := cmp_d SFeqb.
Definition C_LT_S_IMPL : pm unit := cmp_s SFltb.
Definition C_LT_D_IMPL : pm unit := cmp_d SFltb.
Definition C_LE_S_IMPL : pm unit := cmp_s SFleb.
Definition C_LE_D_IMPL : pm unit := cmp_d SFleb.

Definition FSQRT_S_IMPL : pm unit :=
  align2;; x ← FPR_F (FS i); SET_FPR_F h (FD i) (f_convert sfloat_t (f_sqrt dfloat_t (f_convert dfloat_t x))).
Definition FSQRT_D_IMPL : pm unit := align2;; x ← FPR_D h (FS i); SET_FPR_D h (FD i) (f_sqrt dfloat_t x).

(** *** The rest *)

Definition SYSCALL_IMPL : pm unit := sys_syscall h i.
Definition BREAK_IMPL : pm unit := DECLARE_FAULT md_fault_break.
Definition LUI_IMPL : pm unit := SET_GPR (RT i) (Z.shiftl (UIMM i) 16).
Definition MFC1_IMPL : pm unit := x ← FPR_L (FS i); SET_GPR (RT i) x.
Definition DMFC1_IMPL : pm unit :=
  fault_if (Z.odd (RT i) || Z.odd (FS i)) md_fault_alignment;;
  x ← FPR_L (FS i); SET_GPR (RT i) x;; x ← FPR_L (FS i + 1); SET_GPR (RT i + 1) x.
Definition CFC1_IMPL : pm unit := mret tt.
Definition MTC1_IMPL : pm unit := x ← GPR (RT i); SET_FPR_L (FS i) x.
Definition DMTC1_IMPL : pm unit :=
  fault_if (Z.odd (FS i) || Z.odd (RT i)) md_fault_alignment;;
  x ← GPR (RT i); SET_FPR_L (FS i) x;; x ← GPR (RT i + 1); SET_FPR_L (FS i + 1) x.
Definition CTC1_IMPL : pm unit := mret tt.
End Insts.

(** ** The table of instructions *)

(** Flags and classes of functional units, in machine.h. *)
Definition F_ICOMP : Z := 0x1.
Definition F_FCOMP : Z := 0x2.
Definition F_DISP : Z := 0x100.
Definition F_RR : Z := 0x200.
Definition F_INDIRJMP : Z := 0x4000.
Definition F_CALL : Z := 0x8000.
Definition F_FPCOND : Z := 0x10000.
Definition F_IMM : Z := 0x20000.

Definition FUClass_NA : Z := 0.
Definition IntALU : Z := 1.
Definition IntMULT : Z := 2.
Definition IntDIV : Z := 3.
Definition FloatADD : Z := 4.
Definition FloatCMP : Z := 5.
Definition FloatCVT : Z := 6.
Definition FloatMULT : Z := 7.
Definition FloatDIV : Z := 8.
Definition FloatSQRT : Z := 9.
Definition RdPort : Z := 10.
Definition WrPort : Z := 11.

(** Names of dependences, in sim-outorder.c. *)
Definition DGPR (n : Z) : Z := n.
Definition DGPR_D (n : Z) : Z := Z.land n (Z.lnot 1).
Definition DFPR_L (n : Z) : Z := Z.land (n + 32) (Z.lnot 1).
Definition DFPR_F (n : Z) : Z := Z.land (n + 32) (Z.lnot 1).
Definition DFPR_D (n : Z) : Z := Z.land (n + 32) (Z.lnot 1).
Definition DHI : Z := 0 + 32 + 32.
Definition DLO : Z := 1 + 32 + 32.
Definition DFCC : Z := 2 + 32 + 32.

(** The arguments of [DEFINST]: mask, name, operand format, functional unit, flags, outputs,
    inputs, implementation. *)
Record definst := mkDef {
  d_msk : Z;
  d_name : string;
  d_format : string;
  d_res : Z;
  d_flags : Z;
  d_o1 : Z → Z;
  d_o2 : Z → Z;
  d_i1 : Z → Z;
  d_i2 : Z → Z;
  d_i3 : Z → Z;
  d_impl : host → Z → Z → pm unit
}.

#[local] Abbreviation no := (λ _ : Z, NA).

(** In the order of the file, which numbers the opcodes from 1. *)
Definition machine_def : list definst := [
  mkDef 0 "nop" "" IntALU F_ICOMP no no no no no (λ _ _ _, NOP_IMPL);
  mkDef 1 "j" "J" FUClass_NA (F_CTRL + F_UNCOND + F_DIRJMP) no no no no no (λ _ i pc, JUMP_IMPL i pc);
  mkDef 2 "jal" "J" IntALU (F_CTRL + F_UNCOND + F_DIRJMP + F_CALL) (λ _, DGPR 31) no no no no (λ _ i pc, JAL_IMPL i pc);
  mkDef 3 "jr" "s" FUClass_NA (F_CTRL + F_UNCOND + F_INDIRJMP) no no (λ i, DGPR (RS i)) no no (λ _ i _, JR_IMPL i);
  mkDef 4 "jalr" "d,s" IntALU (F_CTRL + F_UNCOND + F_INDIRJMP + F_CALL) (λ i, DGPR (RD i)) no (λ i, DGPR (RS i)) no no (λ _ i pc, JALR_IMPL i pc);
  mkDef 5 "beq" "s,t,j" IntALU (F_CTRL + F_COND + F_DIRJMP) no no (λ i, DGPR (RS i)) (λ i, DGPR (RT i)) no (λ _ i pc, BEQ_IMPL i pc);
  mkDef 6 "bne" "s,t,j" IntALU (F_CTRL + F_COND + F_DIRJMP) no no (λ i, DGPR (RS i)) (λ i, DGPR (RT i)) no (λ _ i pc, BNE_IMPL i pc);
  mkDef 7 "blez" "s,j" IntALU (F_CTRL + F_COND + F_DIRJMP) no no (λ i, DGPR (RS i)) no no (λ _ i pc, BLEZ_IMPL i pc);
  mkDef 8 "bgtz" "s,j" IntALU (F_CTRL + F_COND + F_DIRJMP) no no (λ i, DGPR (RS i)) no no (λ _ i pc, BGTZ_IMPL i pc);
  mkDef 9 "bltz" "s,j" IntALU (F_CTRL + F_COND + F_DIRJMP) no no (λ i, DGPR (RS i)) no no (λ _ i pc, BLTZ_IMPL i pc);
  mkDef 10 "bgez" "s,j" IntALU (F_CTRL + F_COND + F_DIRJMP) no no (λ i, DGPR (RS i)) no no (λ _ i pc, BGEZ_IMPL i pc);
  mkDef 11 "bc1f" "j" IntALU (F_CTRL + F_COND + F_DIRJMP + F_FPCOND) no no (λ _, DFCC) no no (λ _ i pc, BC1F_IMPL i pc);
  mkDef 12 "bc1t" "j" IntALU (F_CTRL + F_COND + F_DIRJMP + F_FPCOND) no no (λ _, DFCC) no no (λ _ i pc, BC1T_IMPL i pc);
  mkDef 32 "lb" "t,o(b)" RdPort (F_MEM + F_LOAD + F_DISP) (λ i, DGPR (RT i)) no no (λ i, DGPR (BS i)) no (λ h i _, LB_IMPL h i);
  mkDef 34 "lbu" "t,o(b)" RdPort (F_MEM + F_LOAD + F_DISP) (λ i, DGPR (RT i)) no no (λ i, DGPR (BS i)) no (λ h i _, LBU_IMPL h i);
  mkDef 36 "lh" "t,o(b)" RdPort (F_MEM + F_LOAD + F_DISP) (λ i, DGPR (RT i)) no no (λ i, DGPR (BS i)) no (λ h i _, LH_IMPL h i);
  mkDef 38 "lhu" "t,o(b)" RdPort (F_MEM + F_LOAD + F_DISP) (λ i, DGPR (RT i)) no no (λ i, DGPR (BS i)) no (λ h i _, LHU_IMPL h i);
  mkDef 40 "lw" "t,o(b)" RdPort (F_MEM + F_LOAD + F_DISP) (λ i, DGPR (RT i)) no no (λ i, DGPR (BS i)) no (λ h i _, LW_IMPL h i);
  mkDef 41 "dlw" "t,o(b)" RdPort (F_MEM + F_LOAD + F_DISP) (λ i, DGPR_D (RT i)) no no (λ i, DGPR (BS i)) no (λ h i _, DLW_IMPL h i);
  mkDef 42 "l.s" "T,o(b)" RdPort (F_MEM + F_LOAD + F_DISP) (λ i, DFPR_L (FT i)) no no (λ i, DGPR (BS i)) no (λ h i _, L_S_IMPL h i);
  mkDef 43 "l.d" "T,o(b)" RdPort (F_MEM + F_LOAD + F_DISP) (λ i, DFPR_D (FT i)) no no (λ i, DGPR (BS i)) no (λ h i _, L_D_IMPL h i);
  mkDef 44 "lwl" "t,o(b)" RdPort (F_MEM + F_LOAD + F_DISP) (λ i, DGPR (RT i)) no no (λ i, DGPR (BS i)) no (λ h i _, LWL_IMPL h i);
  mkDef 45 "lwr" "t,o(b)" RdPort (F_MEM + F_LOAD + F_DISP) (λ i, DGPR (RT i)) no no (λ i, DGPR (BS i)) no (λ h i _, LWR_IMPL h i);
  mkDef 48 "sb" "t,o(b)" WrPort (F_MEM + F_STORE + F_DISP) no no (λ i, DGPR (RT i)) (λ i, DGPR (BS i)) no (λ h i _, SB_IMPL h i);
  mkDef 50 "sh" "t,o(b)" WrPort (F_MEM + F_STORE + F_DISP) no no (λ i, DGPR (RT i)) (λ i, DGPR (BS i)) no (λ h i _, SH_IMPL h i);
  mkDef 52 "sw" "t,o(b)" WrPort (F_MEM + F_STORE + F_DISP) no no (λ i, DGPR (RT i)) (λ i, DGPR (BS i)) no (λ h i _, SW_IMPL h i);
  mkDef 53 "dsw" "t,o(b)" WrPort (F_MEM + F_STORE + F_DISP) no no (λ i, DGPR_D (RT i)) (λ i, DGPR (BS i)) no (λ h i _, DSW_IMPL h i);
  mkDef 56 "dsz" "o(b)" WrPort (F_MEM + F_STORE + F_DISP) no no no (λ i, DGPR (BS i)) no (λ h i _, DSZ_IMPL h i);
  mkDef 54 "s.s" "T,o(b)" WrPort (F_MEM + F_STORE + F_DISP) no no (λ i, DFPR_L (FT i)) (λ i, DGPR (BS i)) no (λ h i _, S_S_IMPL h i);
  mkDef 55 "s.d" "T,o(b)" WrPort (F_MEM + F_STORE + F_DISP) no no (λ i, DFPR_D (FT i)) (λ i, DGPR (BS i)) no (λ h i _, S_D_IMPL h i);
  mkDef 57 "swl" "t,o(b)" WrPort (F_MEM + F_STORE + F_DISP) no no (λ i, DGPR (RT i)) (λ i, DGPR (BS i)) no (λ h i _, SWL_IMPL h i);
  mkDef 58 "swr" "t,o(b)" WrPort (F_MEM + F_STORE + F_DISP) no no (λ i, DGPR (RT i)) (λ i, DGPR (BS i)) no (λ h i _, SWR_IMPL h i);
  mkDef 192 "lb" "t,(b+d)" RdPort (F_MEM + F_LOAD + F_RR) (λ i, DGPR (RT i)) no no (λ i, DGPR (BS i)) (λ i, DGPR (RD i)) (λ h i _, LB_RR_IMPL h i);
  mkDef 193 "lbu" "t,(b+d)" RdPort (F_MEM + F_LOAD + F_RR) (λ i, DGPR (RT i)) no no (λ i, DGPR (BS i)) (λ i, DGPR (RD i)) (λ h i _, LBU_RR_IMPL h i);
  mkDef 194 "lh" "t,(b+d)" RdPort (F_MEM + F_LOAD + F_RR) (λ i, DGPR (RT i)) no no (λ i, DGPR (BS i)) (λ i, DGPR (RD i)) (λ h i _, LH_RR_IMPL h i);
  mkDef 195 "lhu" "t,(b+d)" RdPort (F_MEM + F_LOAD + F_RR) (λ i, DGPR (RT i)) no no (λ i, DGPR (BS i)) (λ i, DGPR (RD i)) (λ h i _, LHU_RR_IMPL h i);
  mkDef 196 "lw" "t,(b+d)" RdPort (F_MEM + F_LOAD + F_RR) (λ i, DGPR (RT i)) no no (λ i, DGPR (BS i)) (λ i, DGPR (RD i)) (λ h i _, LW_RR_IMPL h i);
  mkDef 206 "dlw" "t,(b+d)" RdPort (F_MEM + F_LOAD + F_RR) (λ i, DGPR_D (RT i)) no no (λ i, DGPR (BS i)) (λ i, DGPR (RD i)) (λ h i _, DLW_RR_IMPL h i);
  mkDef 197 "l.s" "T,(b+d)" RdPort (F_MEM + F_LOAD + F_RR) (λ i, DFPR_L (FT i)) no no (λ i, DGPR (BS i)) (λ i, DGPR (RD i)) (λ h i _, L_S_RR_IMPL h i);
  mkDef 207 "l.d" "T,(b+d)" RdPort (F_MEM + F_LOAD + F_RR) (λ i, DFPR_D (FT i)) no no (λ i, DGPR (BS i)) (λ i, DGPR (RD i)) (λ h i _, L_D_RR_IMPL h i);
  mkDef 198 "sb" "t,(b+d)" WrPort (F_MEM + F_STORE + F_RR) no no (λ i, DGPR (RT i)) (λ i, DGPR (BS i)) (λ i, DGPR (RD i)) (λ h i _, SB_RR_IMPL h i);
  mkDef 199 "sh" "t,(b+d)" WrPort (F_MEM + F_STORE + F_RR) no no (λ i, DGPR (RT i)) (λ i, DGPR (BS i)) (λ i, DGPR (RD i)) (λ h i _, SH_RR_IMPL h i);
  mkDef 200 "sw" "t,(b+d)" WrPort (F_MEM + F_STORE + F_RR) no no (λ i, DGPR (RT i)) (λ i, DGPR (BS i)) (λ i, DGPR (RD i)) (λ h i _, SW_RR_IMPL h i);
  mkDef 208 "dsw" "t,(b+d)" WrPort (F_MEM + F_STORE + F_RR) no no (λ i, DGPR_D (RT i)) (λ i, DGPR (BS i)) (λ i, DGPR (RD i)) (λ h i _, DSW_RR_IMPL h i);
  mkDef 209 "dsz" "(b+d)" WrPort (F_MEM + F_STORE + F_RR) no no no (λ i, DGPR (BS i)) (λ i, DGPR (RD i)) (λ h i _, DSZ_RR_IMPL h i);
  mkDef 201 "s.s" "T,(b+d)" WrPort (F_MEM + F_STORE + F_RR) no no (λ i, DFPR_L (FT i)) (λ i, DGPR (BS i)) (λ i, DGPR (RD i)) (λ h i _, S_S_RR_IMPL h i);
  mkDef 210 "s.d" "T,(b+d)" WrPort (F_MEM + F_STORE + F_RR) no no (λ i, DFPR_D (FT i)) (λ i, DGPR (BS i)) (λ i, DGPR (RD i)) (λ h i _, S_D_RR_IMPL h i);
  mkDef 202 "l.s.r2" "T,(b+d)" RdPort (F_MEM + F_LOAD + F_RR) (λ i, DFPR_L (FT i)) no no (λ i, DGPR (BS i)) (λ i, DGPR (RD i)) (λ h i _, L_S_RR_R2_IMPL h i);
  mkDef 203 "s.s.r2" "T,(b+d)" WrPort (F_MEM + F_STORE + F_RR) no no (λ i, DFPR_L (FT i)) (λ i, DGPR (BS i)) (λ i, DGPR (RD i)) (λ h i _, S_S_RR_R2_IMPL h i);
  mkDef 204 "lw.r2" "t,(b+d)" RdPort (F_MEM + F_LOAD + F_RR) (λ i, DGPR (RT i)) no no (λ i, DGPR (BS i)) (λ i, DGPR (RD i)) (λ h i _, LW_RR_R2_IMPL h i);
  mkDef 205 "sw.r2" "t,(b+d)" WrPort (F_MEM + F_STORE + F_RR) no no (λ i, DGPR (RT i)) (λ i, DGPR (BS i)) (λ i, DGPR (RD i)) (λ h i _, SW_RR_R2_IMPL h i);
  mkDef 64 "add" "d,s,t" IntALU F_ICOMP (λ i, DGPR (RD i)) no (λ i, DGPR (RS i)) (λ i, DGPR (RT i)) no (λ _ i _, ADD_IMPL i);
  mkDef 65 "addi" "t,s,i" IntALU (F_ICOMP + F_IMM) (λ i, DGPR (RT i)) no (λ i, DGPR (RS i)) no no (λ _ i _, ADDI_IMPL i);
  mkDef 66 "addu" "d,s,t" IntALU F_ICOMP (λ i, DGPR (RD i)) no (λ i, DGPR (RS i)) (λ i, DGPR (RT i)) no (λ _ i _, ADDU_IMPL i);
  mkDef 67 "addiu" "t,s,i" IntALU (F_ICOMP + F_IMM) (λ i, DGPR (RT i)) no (λ i, DGPR (RS i)) no no (λ _ i _, ADDIU_IMPL i);
  mkDef 68 "sub" "d,s,t" IntALU F_ICOMP (λ i, DGPR (RD i)) no (λ i, DGPR (RS i)) (λ i, DGPR (RT i)) no (λ _ i _, SUB_IMPL i);
  mkDef 69 "subu" "d,s,t" IntALU F_ICOMP (λ i, DGPR (RD i)) no (λ i, DGPR (RS i)) (λ i, DGPR (RT i)) no (λ _ i _, SUBU_IMPL i);
  mkDef 70 "mult" "s,t" IntMULT (F_ICOMP + F_LONGLAT) (λ _, DHI) (λ _, DLO) (λ i, DGPR (RT i)) (λ i, DGPR (RS i)) no (λ _ i _, MULT_IMPL i);
  mkDef 71 "multu" "s,t" IntMULT (F_ICOMP + F_LONGLAT) (λ _, DHI) (λ _, DLO) (λ i, DGPR (RT i)) (λ i, DGPR (RS i)) no (λ _ i _, MULTU_IMPL i);
  mkDef 72 "div" "s,t" IntDIV (F_ICOMP + F_LONGLAT) (λ _, DHI) (λ _, DLO) (λ i, DGPR (RT i)) (λ i, DGPR (RS i)) no (λ h i _, DIV_IMPL h i);
  mkDef 73 "divu" "s,t" IntDIV (F_ICOMP + F_LONGLAT) (λ _, DHI) (λ _, DLO) (λ i, DGPR (RT i)) (λ i, DGPR (RS i)) no (λ _ i _, DIVU_IMPL i);
  mkDef 74 "mfhi" "d" IntALU F_ICOMP (λ i, DGPR (RD i)) no (λ _, DHI) no no (λ _ i _, MFHI_IMPL i);
  mkDef 75 "mthi" "s" IntALU F_ICOMP (λ _, DHI) no (λ i, DGPR (RS i)) no no (λ _ i _, MTHI_IMPL i);
  mkDef 76 "mflo" "d" IntALU F_ICOMP (λ i, DGPR (RD i)) no (λ _, DLO) no no (λ _ i _, MFLO_IMPL i);
  mkDef 77 "mtlo" "s" IntALU F_ICOMP (λ _, DLO) no (λ i, DGPR (RS i)) no no (λ _ i _, MTLO_IMPL i);
  mkDef 78 "and" "d,s,t" IntALU F_ICOMP (λ i, DGPR (RD i)) no (λ i, DGPR (RS i)) (λ i, DGPR (RT i)) no (λ _ i _, AND__IMPL i);
  mkDef 79 "andi" "t,s,u" IntALU (F_ICOMP + F_IMM) (λ i, DGPR (RT i)) no (λ i, DGPR (RS i)) no no (λ _ i _, ANDI_IMPL i);
  mkDef 80 "or" "d,s,t" IntALU F_ICOMP (λ i, DGPR (RD i)) no (λ i, DGPR (RS i)) (λ i, DGPR (RT i)) no (λ _ i _, OR_IMPL i);
  mkDef 81 "ori" "t,s,u" IntALU (F_ICOMP + F_IMM) (λ i, DGPR (RT i)) no (λ i, DGPR (RS i)) no no (λ _ i _, ORI_IMPL i);
  mkDef 82 "xor" "d,s,t" IntALU F_ICOMP (λ i, DGPR (RD i)) no (λ i, DGPR (RS i)) (λ i, DGPR (RT i)) no (λ _ i _, XOR_IMPL i);
  mkDef 83 "xori" "t,s,u" IntALU (F_ICOMP + F_IMM) (λ i, DGPR (RT i)) no (λ i, DGPR (RS i)) no no (λ _ i _, XORI_IMPL i);
  mkDef 84 "nor" "d,s,t" IntALU F_ICOMP (λ i, DGPR (RD i)) no (λ i, DGPR (RS i)) (λ i, DGPR (RT i)) no (λ _ i _, NOR_IMPL i);
  mkDef 85 "sll" "d,t,H" IntALU F_ICOMP (λ i, DGPR (RD i)) no (λ i, DGPR (RT i)) no no (λ h i _, SLL_IMPL h i);
  mkDef 86 "sllv" "d,t,s" IntALU F_ICOMP (λ i, DGPR (RD i)) no (λ i, DGPR (RT i)) (λ i, DGPR (RS i)) no (λ h i _, SLLV_IMPL h i);
  mkDef 87 "srl" "d,t,H" IntALU F_ICOMP (λ i, DGPR (RD i)) no (λ i, DGPR (RT i)) no no (λ h i _, SRL_IMPL h i);
  mkDef 88 "srlv" "d,t,s" IntALU F_ICOMP (λ i, DGPR (RD i)) no (λ i, DGPR (RT i)) (λ i, DGPR (RS i)) no (λ h i _, SRLV_IMPL h i);
  mkDef 89 "sra" "d,t,H" IntALU F_ICOMP (λ i, DGPR (RD i)) no (λ i, DGPR (RT i)) no no (λ h i _, SRA_IMPL h i);
  mkDef 90 "srav" "d,t,s" IntALU F_ICOMP (λ i, DGPR (RD i)) no (λ i, DGPR (RT i)) (λ i, DGPR (RS i)) no (λ h i _, SRAV_IMPL h i);
  mkDef 91 "slt" "d,s,t" IntALU F_ICOMP (λ i, DGPR (RD i)) no (λ i, DGPR (RS i)) (λ i, DGPR (RT i)) no (λ _ i _, SLT_IMPL i);
  mkDef 92 "slti" "t,s,i" IntALU (F_ICOMP + F_IMM) (λ i, DGPR (RT i)) no (λ i, DGPR (RS i)) no no (λ _ i _, SLTI_IMPL i);
  mkDef 93 "sltu" "d,s,t" IntALU F_ICOMP (λ i, DGPR (RD i)) no (λ i, DGPR (RS i)) (λ i, DGPR (RT i)) no (λ _ i _, SLTU_IMPL i);
  mkDef 94 "sltiu" "t,s,i" IntALU (F_ICOMP + F_IMM) (λ i, DGPR (RT i)) no (λ i, DGPR (RS i)) no no (λ _ i _, SLTIU_IMPL i);
  mkDef 112 "add.s" "D,S,T" FloatADD F_FCOMP (λ i, DFPR_F (FD i)) no (λ i, DFPR_F (FS i)) (λ i, DFPR_F (FT i)) no (λ h i _, FADD_S_IMPL h i);
  mkDef 113 "add.d" "D,S,T" FloatADD F_FCOMP (λ i, DFPR_D (FD i)) no (λ i, DFPR_D (FS i)) (λ i, DFPR_D (FT i)) no (λ h i _, FADD_D_IMPL h i);
  mkDef 114 "sub.s" "D,S,T" FloatADD F_FCOMP (λ i, DFPR_F (FD i)) no (λ i, DFPR_F (FS i)) (λ i, DFPR_F (FT i)) no (λ h i _, FSUB_S_IMPL h i);
  mkDef 115 "sub.d" "D,S,T" FloatADD F_FCOMP (λ i, DFPR_D (FD i)) no (λ i, DFPR_D (FS i)) (λ i, DFPR_D (FT i)) no (λ h i _, FSUB_D_IMPL h i);
  mkDef 116 "mul.s" "D,S,T" FloatMULT (F_FCOMP + F_LONGLAT) (λ i, DFPR_F (FD i)) no (λ i, DFPR_F (FS i)) (λ i, DFPR_F (FT i)) no (λ h i _, FMUL_S_IMPL h i);
  mkDef 117 "mul.d" "D,S,T" FloatMULT (F_FCOMP + F_LONGLAT) (λ i, DFPR_D (FD i)) no (λ i, DFPR_D (FS i)) (λ i, DFPR_D (FT i)) no (λ h i _, FMUL_D_IMPL h i);
  mkDef 118 "div.s" "D,S,T" FloatDIV (F_FCOMP + F_LONGLAT) (λ i, DFPR_F (FD i)) no (λ i, DFPR_F (FS i)) (λ i, DFPR_F (FT i)) no (λ h i _, FDIV_S_IMPL h i);
  mkDef 119 "div.d" "D,S,T" FloatDIV (F_FCOMP + F_LONGLAT) (λ i, DFPR_D (FD i)) no (λ i, DFPR_D (FS i)) (λ i, DFPR_D (FT i)) no (λ h i _, FDIV_D_IMPL h i);
  mkDef 120 "abs.s" "D,S" FloatADD F_FCOMP (λ i, DFPR_F (FD i)) no (λ i, DFPR_F (FS i)) no no (λ h i _, FABS_S_IMPL h i);
  mkDef 121 "abs.d" "D,S" FloatADD F_FCOMP (λ i, DFPR_D (FD i)) no (λ i, DFPR_D (FS i)) no no (λ h i _, FABS_D_IMPL h i);
  mkDef 122 "mov.s" "D,S" FloatADD F_FCOMP (λ i, DFPR_F (FD i)) no (λ i, DFPR_F (FS i)) no no (λ _ i _, FMOV_S_IMPL i);
  mkDef 123 "mov.d" "D,S" FloatADD F_FCOMP (λ i, DFPR_D (FD i)) no (λ i, DFPR_D (FS i)) no no (λ h i _, FMOV_D_IMPL h i);
  mkDef 124 "neg.s" "D,S" FloatADD F_FCOMP (λ i, DFPR_F (FD i)) no (λ i, DFPR_F (FS i)) no no (λ _ i _, FNEG_S_IMPL i);
  mkDef 125 "neg.d" "D,S" FloatADD F_FCOMP (λ i, DFPR_D (FD i)) no (λ i, DFPR_D (FS i)) no no (λ h i _, FNEG_D_IMPL h i);
  mkDef 128 "cvt.s.d" "D,S" FloatCVT F_FCOMP (λ i, DFPR_F (FD i)) no (λ i, DFPR_D (FS i)) no no (λ h i _, CVT_S_D_IMPL h i);
  mkDef 129 "cvt.s.w" "D,S" FloatCVT F_FCOMP (λ i, DFPR_F (FD i)) no (λ i, DFPR_L (FS i)) no no (λ h i _, CVT_S_W_IMPL h i);
  mkDef 130 "cvt.d.s" "D,S" FloatCVT F_FCOMP (λ i, DFPR_D (FD i)) no (λ i, DFPR_F (FS i)) no no (λ h i _, CVT_D_S_IMPL h i);
  mkDef 131 "cvt.d.w" "D,S" FloatCVT F_FCOMP (λ i, DFPR_D (FD i)) no (λ i, DFPR_L (FS i)) no no (λ h i _, CVT_D_W_IMPL h i);
  mkDef 132 "cvt.w.s" "D,S" FloatCVT F_FCOMP (λ i, DFPR_L (FD i)) no (λ i, DFPR_F (FS i)) no no (λ h i _, CVT_W_S_IMPL h i);
  mkDef 133 "cvt.w.d" "D,S" FloatCVT F_FCOMP (λ i, DFPR_L (FD i)) no (λ i, DFPR_D (FS i)) no no (λ h i _, CVT_W_D_IMPL h i);
  mkDef 144 "c.eq.s" "S,T" FloatCMP F_FCOMP (λ _, DFCC) no (λ i, DFPR_F (FS i)) (λ i, DFPR_F (FT i)) no (λ _ i _, C_EQ_S_IMPL i);
  mkDef 145 "c.eq.d" "S,T" FloatCMP F_FCOMP (λ _, DFCC) no (λ i, DFPR_D (FS i)) (λ i, DFPR_D (FT i)) no (λ h i _, C_EQ_D_IMPL h i);
  mkDef 146 "c.lt.s" "S,T" FloatCMP F_FCOMP (λ _, DFCC) no (λ i, DFPR_F (FS i)) (λ i, DFPR_F (FT i)) no (λ _ i _, C_LT_S_IMPL i);
  mkDef 147 "c.lt.d" "S,T" FloatCMP F_FCOMP (λ _, DFCC) no (λ i, DFPR_D (FS i)) (λ i, DFPR_D (FT i)) no (λ h i _, C_LT_D_IMPL h i);
  mkDef 148 "c.le.s" "S,T" FloatCMP F_FCOMP (λ _, DFCC) no (λ i, DFPR_F (FS i)) (λ i, DFPR_F (FT i)) no (λ _ i _, C_LE_S_IMPL i);
  mkDef 149 "c.le.d" "S,T" FloatCMP F_FCOMP (λ _, DFCC) no (λ i, DFPR_D (FS i)) (λ i, DFPR_D (FT i)) no (λ h i _, C_LE_D_IMPL h i);
  mkDef 150 "sqrt.s" "D,S" FloatSQRT (F_FCOMP + F_LONGLAT) (λ i, DFPR_F (FD i)) no (λ i, DFPR_F (FS i)) no no (λ h i _, FSQRT_S_IMPL h i);
  mkDef 151 "sqrt.d" "D,S" FloatSQRT (F_FCOMP + F_LONGLAT) (λ i, DFPR_D (FD i)) no (λ i, DFPR_D (FS i)) no no (λ h i _, FSQRT_D_IMPL h i);
  mkDef 160 "syscall" "" FUClass_NA F_TRAP no no no no no (λ h i _, SYSCALL_IMPL h i);
  mkDef 161 "break" "B" FUClass_NA F_TRAP no no no no no (λ _ _ _, BREAK_IMPL);
  mkDef 162 "lui" "t,U" IntALU F_ICOMP (λ i, DGPR (RT i)) no no no no (λ _ i _, LUI_IMPL i);
  mkDef 163 "mfc1" "t,S" IntALU F_ICOMP (λ i, DGPR (RT i)) no (λ i, DFPR_L (FS i)) no no (λ _ i _, MFC1_IMPL i);
  mkDef 167 "dmfc1" "t,S" IntALU F_ICOMP (λ i, DGPR_D (RT i)) no (λ i, DFPR_D (FS i)) no no (λ _ i _, DMFC1_IMPL i);
  mkDef 164 "cfc1" "t,S" IntALU F_ICOMP no no no no no (λ _ _ _, CFC1_IMPL);
  mkDef 165 "mtc1" "t,S" IntALU F_ICOMP (λ i, DFPR_L (FS i)) no (λ i, DGPR (RT i)) no no (λ _ i _, MTC1_IMPL i);
  mkDef 168 "dmtc1" "t,S" IntALU F_ICOMP (λ i, DFPR_D (FS i)) no (λ i, DGPR_D (RT i)) no no (λ _ i _, DMTC1_IMPL i);
  mkDef 166 "ctc1" "t,S" IntALU F_ICOMP no no no no no (λ _ _ _, CTC1_IMPL)
].

(** ** machine.h and machine.c: opcodes *)

Definition OP_NA : Z := 0.
Definition OP_MAX : Z := 1 + Z.of_nat (length machine_def).

Definition def_of (op : Z) : option definst :=
  if bool_decide (op ≤ 0) then None else machine_def !! Z.to_nat (op - 1).

Definition MD_OPFIELD (i : Z) : Z := Z.land (inst_a i) 255.

(** [md_op2flags] and [md_op2fu]; the text is predecoded, so the field is the opcode. *)
Definition md_op2flags (op : Z) : Z := match def_of op with Some d => d_flags d | None => NA end.
Definition md_op2fu (op : Z) : Z := match def_of op with Some d => d_res d | None => FUClass_NA end.
Definition JR : Z := 4.
Definition op_of (op : Z) : md_opcode := mkOp op (md_op2flags op) (bool_decide (op = JR)).
Definition MD_SET_OPCODE (i : Z) : md_opcode := op_of (Z.land (inst_a i) 255).
Definition MD_IS_RETURN (op : md_opcode) (i : Z) : bool := bool_decide (op_num op = JR) && bool_decide (RS i = 31).
Definition MD_NOP_OP : md_opcode := op_of 1.
Definition MD_NOP_INST : Z := 1.
(** [ADD]. *)
Definition MD_AGEN_OP : md_opcode := op_of 52.

(** [md_init_decoder]: the table from masks to opcodes. *)
Definition MD_MAX_MASK : Z := 255.
Fixpoint init_decoder_loop (l : list definst) (op : Z) (md_mask2op : list Z) : result (list Z) :=
  match l with
  | [] => Ok md_mask2op
  | d :: l =>
      old ← vget md_mask2op (Z.to_nat (d_msk d));
      if bool_decide (old ≠ 0) then Fault (Fatal "doubly defined mask value") else
      if bool_decide (MD_MAX_MASK ≤ d_msk d) then Fault (Fatal "mask value is too large") else
      t ← vset md_mask2op (Z.to_nat (d_msk d)) op; init_decoder_loop l (op + 1) t
  end.
Definition md_init_decoder : result (list Z) := init_decoder_loop machine_def 1 (replicate 256 OP_NA).

(** ** The execution of an instruction by sim-outorder.c *)

Definition finish (op : md_opcode) (d : definst) (i : Z) (st : pst) (f : md_fault_type) : exec_out :=
  mkExec op (d_o1 d i) (d_o2 d i) (d_i1 d i) (d_i2 d i) (d_i3 d i) (st_NPC st) (st_TPC st) (st_addr st) f.

(** A bogus opcode is executed as a no-operation. *)
Definition pisa_sem (h : host) (op : md_opcode) (i pc : Z) : inst_sem :=
  let st := mkPst (u32 (pc + 8)) 0 0 in
  match def_of (op_num op) with
  | Some d => pm_run (d_impl d h i pc) (finish op d i) st
  | None => Done (mkExec MD_NOP_OP NA NA NA NA NA (st_NPC st) (st_TPC st) (st_addr st) md_fault_none)
  end.
