(* ===== verification/Hier.v ===== *)
(** * sim-outorder.c: the memory hierarchy

    The six caches that [sim_check_options] may create, the pointers to them, which may
    alias, the functions that serve their misses and the accesses of the pipeline.  The
    caches are those of cache.c. *)

From S2P Require Import Prelude Memory Cache.

(** The objects that [cache_create] makes. *)
Inductive cache_id := DL1 | DL2 | IL1 | IL2 | ITLB | DTLB.

#[global] Instance cache_id_eq_dec : EqDecision cache_id.
Proof. solve_decision. Defined.

(** Latencies and pointers, fixed once the options are checked. *)
Record hier_conf := mkHierConf {
  mem_bus_width : Z;
  mem_lat : Z * Z;
  tlb_miss_lat : Z;
  cache_dl1 : option cache_id;
  cache_dl2 : option cache_id;
  cache_il1 : option cache_id;
  cache_il2 : option cache_id;
  itlb : option cache_id;
  dtlb : option cache_id
}.

Section Hier.
Context {R : Type}.
(** The C library's generator, which [myrand] calls. *)
Variable random : R → Z * R.
Variable hc : hier_conf.

Record hier := mkHier { cache_at : cache_id → option cache_t; rand_state : R }.

Definition put_cache (id : cache_id) (cp : cache_t) (h : hier) : hier :=
  mkHier (λ j, if decide (j = id) then Some cp else cache_at h j) (rand_state h).

(** The cache's view of the rest: a state, or what stopped the simulator. *)
Definition myrand (w : result hier) : Z * result hier :=
  match w with
  | Ok h => let '(r, s) := random (rand_state h) in (r, Ok (mkHier (cache_at h) s))
  | Fault f => (0, Fault f)
  end.

Definition access_fn : Type :=
  mem_cmd → Z → Z → cache_blk_t → Z → result hier → Z * (option (list Z) * list Z) * result hier.

(** A function that leaves the block alone. *)
Definition handler (k : mem_cmd → Z → Z → Z → hier → result (Z * hier)) : access_fn :=
  λ cmd baddr bsize blk now w,
    match (h ← w; k cmd baddr bsize now h) with
    | Ok (lat, h) => (lat, (user_data blk, data blk), Ok h)
    | Fault f => (0, (user_data blk, data blk), Fault f)
    end.

(** [cache_access] without a buffer; blocks hold no data. *)
Definition access_cache (fn : access_fn) (id : cache_id) (cmd : mem_cmd) (addr nbytes now : Z) (h : hier)
    : result (Z * hier) :=
  cp ← deref (cache_at h id);
  '(out, cp, w) ← cache_access fn myrand cp cmd addr [] nbytes now (Ok h);
  h ← w;
  Ok (out_lat out, put_cache id cp h).

(** ** Miss handlers *)

Definition mem_access_latency (blk_sz : Z) : result Z :=
  let chunks := Z.quot (i32 (blk_sz + i32 (mem_bus_width hc - 1))) (mem_bus_width hc) in
  if bool_decide (0 < chunks) then Ok (u32 (i32 ((mem_lat hc).1 + i32 ((mem_lat hc).2 * i32 (chunks - 1)))))
  else Fault AssertFail.

Definition main_memory (blk_sz : Z) (h : hier) : result (Z * hier) :=
  lat ← mem_access_latency blk_sz; Ok (lat, h).

Definition no_inst_write : result (Z * hier) :=
  Fault (Panic "writes to instruction memory not supported").

Definition dl2_access_fn (cmd : mem_cmd) (baddr bsize now : Z) (h : hier) : result (Z * hier) :=
  match cmd with Read => main_memory bsize h | Write => Ok (0, h) end.

Definition il2_access_fn (cmd : mem_cmd) (baddr bsize now : Z) (h : hier) : result (Z * hier) :=
  match cmd with Read => main_memory bsize h | Write => no_inst_write end.

(** The function of a cache of the second level. *)
Definition second_fn (id : cache_id) : access_fn :=
  match id with
  | DL2 => handler dl2_access_fn
  | IL2 => handler il2_access_fn
  | _ => handler (λ _ _ _ _ _, Fault Undefined)
  end.

Definition dl1_access_fn (cmd : mem_cmd) (baddr bsize now : Z) (h : hier) : result (Z * hier) :=
  match cache_dl2 hc with
  | Some id =>
      '(lat, h) ← access_cache (second_fn id) id cmd baddr bsize now h;
      Ok (match cmd with Read => lat | Write => 0 end, h)
  | None => match cmd with Read => main_memory bsize h | Write => Ok (0, h) end
  end.

Definition il1_access_fn (cmd : mem_cmd) (baddr bsize now : Z) (h : hier) : result (Z * hier) :=
  match cache_il2 hc with
  | Some id =>
      '(lat, h) ← access_cache (second_fn id) id cmd baddr bsize now h;
      match cmd with Read => Ok (lat, h) | Write => no_inst_write end
  | None => match cmd with Read => main_memory bsize h | Write => no_inst_write end
  end.

(** [itlb_access_fn] and [dtlb_access_fn]: the translation, address 0, is the user data. *)
Definition tlb_access_fn : access_fn := λ cmd baddr bsize blk now w,
  match user_data blk with
  | Some ud => (u32 (tlb_miss_lat hc), (Some (replicate 4 0 ++ drop 4 ud), data blk), w)
  | None => (0, (None, data blk), h ← w; Fault AssertFail)
  end.

Definition blk_access_fn (id : cache_id) : access_fn :=
  match id with
  | DL1 => handler dl1_access_fn
  | DL2 => handler dl2_access_fn
  | IL1 => handler il1_access_fn
  | IL2 => handler il2_access_fn
  | ITLB | DTLB => tlb_access_fn
  end.

(** ** The accesses of the pipeline *)

(** The latency through a pointer, nothing through a null one. *)
Definition port (p : option cache_id) (cmd : mem_cmd) (addr nbytes now : Z) (h : hier)
    : result (option Z * hier) :=
  match p with
  | Some id => '(lat, h) ← access_cache (blk_access_fn id) id cmd addr nbytes now h; Ok (Some lat, h)
  | None => Ok (None, h)
  end.
End Hier.
Arguments hier R : clear implicits.
Arguments cache_at {R} h id.
Arguments rand_state {R} h.
