(* ===== verification/HierSpec.v ===== *)
(** * The memory hierarchy: every access is answered

    The invariant of the six caches, kept by each access of the pipeline that lies in the
    range of the simulated program: no cache faults, blocks that are written back lie in the
    range, and no instruction cache or TLB of its own ever holds a dirty block. *)

From S2P Require Import Prelude Chains Misc Memory Cache CacheInv CacheSpec Hier.

(** ** Accesses without a buffer *)

Definition with_p (p : list Z) (o : access_out) : access_out :=
  mkOut (out_lat o) p (out_udata o) (out_repl o).

Lemma access_blk_nobuf cf cmd bofs p q nbytes blk :
  balloc cf = false →
  access_blk cf cmd bofs p nbytes blk = (λ r, (r.1, p)) <$> access_blk cf cmd bofs q nbytes blk.
Proof. intros Hb. unfold access_blk. by rewrite Hb. Qed.

Section Nobuf.
Context {W : Type}.
Variable fn : mem_cmd → Z → Z → cache_blk_t → Z → W → Z * (option (list Z) * list Z) * W.
Variable rnd : W → Z * W.

Lemma cache_hit_nobuf cp cmd addr p q nbytes now i b :
  balloc (conf cp) = false →
  cache_hit cp cmd addr p nbytes now i b
  = (λ r, (with_p p r.1, r.2)) <$> cache_hit cp cmd addr q nbytes now i b.
Proof.
  intros Hb. unfold cache_hit. destruct (vget (sets cp) i) as [s|]; [|done]. cbn [mbind result_bind].
  destruct (vget (blks s) b) as [blk|]; [|done]. cbn [mbind result_bind].
  rewrite (access_blk_nobuf _ _ _ p q) by done.
  destruct (access_blk _ _ _ q _ _) as [[blk1 p1]|]; [|done]. cbn [mbind result_bind fmap result_fmap fst].
  destruct (upd_blk _ _ _) as [s1|]; [|done]. cbn [mbind result_bind].
  destruct (if _ : bool then _ else _) as [s2|]; [|done]. cbn [mbind result_bind].
  by destruct (put_set _ _ _).
Qed.

Lemma cache_fast_hit_nobuf cp cmd addr p q nbytes now i b :
  balloc (conf cp) = false →
  cache_fast_hit cp cmd addr p nbytes now i b
  = (λ r, (with_p p r.1, r.2)) <$> cache_fast_hit cp cmd addr q nbytes now i b.
Proof.
  intros Hb. unfold cache_fast_hit. destruct (vget (sets cp) i) as [s|]; [|done]. cbn [mbind result_bind].
  destruct (vget (blks s) b) as [blk|]; [|done]. cbn [mbind result_bind].
  rewrite (access_blk_nobuf _ _ _ p q) by done.
  destruct (access_blk _ _ _ q _ _) as [[blk1 p1]|]; [|done]. cbn [mbind result_bind fmap result_fmap fst].
  destruct (upd_blk _ _ _) as [s1|]; [|done]. cbn [mbind result_bind].
  by destruct (put_set _ _ _).
Qed.

Lemma cache_miss_nobuf cp cmd addr p q nbytes now i w :
  balloc (conf cp) = false →
  cache_miss fn rnd cp cmd addr p nbytes now i w
  = (λ r, (with_p p r.1.1, r.1.2, r.2)) <$> cache_miss fn rnd cp cmd addr q nbytes now i w.
Proof.
  intros Hb. unfold cache_miss. destruct (vget (sets cp) i) as [s|]; [|done]. cbn [mbind result_bind].
  destruct (select_repl _ _ _ _) as [[[repl s1] w1]|]; [|done]. cbn [mbind result_bind].
  destruct (if _ : bool then _ else _) as [s2|]; [|done]. cbn [mbind result_bind].
  destruct (vget (blks s2) repl) as [blk|]; [|done]. cbn [mbind result_bind].
  destruct (evict _ _ _ _ _ _) as [[[[lat blk1] raddr] cp2] w2].
  destruct (fn _ _ _ _ _ _) as [[l c] w3].
  rewrite (access_blk_nobuf _ _ _ p q) by done.
  destruct (access_blk _ _ _ q _ _) as [[blk3 p1]|]; [|done]. cbn [mbind result_bind fmap result_fmap fst].
  destruct (upd_blk _ _ _) as [s3|]; [|done]. cbn [mbind result_bind].
  destruct (if _ : bool then _ else _) as [s4|]; [|done]. cbn [mbind result_bind].
  by destruct (put_set _ _ _).
Qed.

(** Without data the buffer plays no part. *)
Lemma cache_access_nobuf cp cmd addr p q nbytes now w :
  balloc (conf cp) = false →
  cache_access fn rnd cp cmd addr p nbytes now w
  = (λ r, (with_p p r.1.1, r.1.2, r.2)) <$> cache_access fn rnd cp cmd addr q nbytes now w.
Proof.
  intros Hb. unfold cache_access. destruct (bool_decide _); [done|]. destruct (bool_decide _); [done|].
  destruct (bool_decide _).
  - destruct (deref _) as [[i b]|]; [|done]. cbn [mbind result_bind].
    rewrite (cache_fast_hit_nobuf _ _ _ p q) by done. by destruct (cache_fast_hit _ _ _ q _ _ _ _) as [[??]|].
  - destruct (vget _ _) as [s|]; [|done]. cbn [mbind result_bind].
    destruct (find_blk _ _ _) as [[b|]|]; [| |done]; cbn [mbind result_bind].
    + rewrite (cache_hit_nobuf _ _ _ p q) by done. by destruct (cache_hit _ _ _ q _ _ _ _) as [[??]|].
    + by apply cache_miss_nobuf.
Qed.
End Nobuf.

(** ** Caches of the hierarchy *)

(** Addresses of the simulated program. *)
Definition low_addr : Z := 2 ^ 22.
Definition high_addr : Z := 2 ^ 31.
Definition in_range (a : Z) : Prop := low_addr ≤ a < high_addr.

(** The caches that are only read. *)
Definition read_only (id : cache_id) : bool :=
  match id with DL1 | DL2 => false | _ => true end.
Definition is_tlb (id : cache_id) : bool :=
  match id with ITLB | DTLB => true | _ => false end.

(** Translations are present; a valid block lies in the range and is clean in a cache that
    is only read. *)
Definition entry_fine (id : cache_id) (cf : cache_conf) (i : nat) (e : entry) : Prop :=
  (is_tlb id = true → e_udata e ≠ None) ∧
  (e_valid e = true →
     in_range (CACHE_MK_BADDR cf (e_tag e) (Z.of_nat i)) ∧ (read_only id = true → e_dirty e = false)).

Definition cache_fine (id : cache_id) (cp : cache_t) : Prop := ∃ ob ib ords,
  cache_ok ob ib cp ords ∧ ob ≤ 22 ∧ balloc (conf cp) = false ∧
  ∀ i e, e ∈ set_entries cp ords i → entry_fine id (conf cp) i e.

(** An access within a block and the range. *)
Definition request (cf : cache_conf) (addr nbytes : Z) : Prop :=
  in_range addr ∧ ∃ k, 2 ≤ k ∧ nbytes = 2 ^ k ∧ nbytes ≤ bsize cf ∧ addr mod nbytes = 0.

Lemma pow2_mult j k : 0 ≤ j ≤ k → 2 ^ k = 2 ^ (k - j) * 2 ^ j.
Proof. intros. rewrite <- Z.pow_add_r by lia. f_equal. lia. Qed.

Lemma block_base cf ob ib addr : conf_ok cf ob ib → ob ≤ 22 → in_range addr →
  in_range (CACHE_BADDR cf addr) ∧ CACHE_BADDR cf addr + bsize cf ≤ high_addr ∧ CACHE_BADDR cf addr mod bsize cf = 0.
Proof.
  intros Hcf Hob [Hlo Hhi]. unfold in_range, low_addr, high_addr in *. pose proof (cf_ob _ _ _ Hcf).
  rewrite (baddr_eq _ _ _ Hcf), (cf_bsize _ _ _ Hcf) by lia. rewrite Z.mod_mul by lia.
  pose proof (pow2_mult ob 22 ltac:(lia)) as H22. pose proof (pow2_mult ob 31 ltac:(lia)) as H31.
  assert (0 < 2 ^ ob) by lia. pose proof (Z.div_mod addr (2 ^ ob)). pose proof (Z.mod_pos_bound addr (2 ^ ob)).
  assert (2 ^ (22 - ob) ≤ addr / 2 ^ ob) by (apply Z.div_le_lower_bound; lia).
  assert (addr / 2 ^ ob < 2 ^ (31 - ob)) by (apply Z.div_lt_upper_bound; lia).
  nia.
Qed.

Lemma request_access cf ob ib addr nbytes : conf_ok cf ob ib → ob ≤ 22 → request cf addr nbytes →
  access_ok cf addr nbytes (replicate (Z.to_nat nbytes) 0) ∧ CACHE_TAGSET cf addr ≠ 0.
Proof.
  intros Hcf Hob [Hr (k & Hk & -> & Hle & Hal)]. destruct (block_base cf ob ib addr Hcf Hob Hr) as ([Hl Hh] & Htop & _).
  unfold in_range, low_addr, high_addr in *. pose proof (cf_ob _ _ _ Hcf). rewrite (cf_bsize _ _ _ Hcf) in Hle.
  assert (k ≤ ob) as Hko by (apply (Z.pow_le_mono_r_iff 2); lia).
  assert (2 ^ k ≤ 2 ^ 22) by (apply Z.pow_le_mono_r; lia).
  rewrite (tagset_eq _ _ _ Hcf). split; [|lia]. split; [lia|by apply land_pred_pow2; lia| | |lia].
  - rewrite u32_small by lia. replace (2 ^ k - 1) with (Z.ones k) by (rewrite Z.ones_equiv; lia).
    by rewrite Z.land_ones by lia.
  - rewrite (blk_eq _ _ _ Hcf) by lia. unfold buf_ok. rewrite length_replicate, (cf_bsize _ _ _ Hcf).
    pose proof (pow2_mult k ob ltac:(lia)) as Hm. pose proof (pow2_mult 2 k ltac:(lia)) as H4.
    split_and!; [|apply Z.mod_pos_bound; lia| |lia].
    + right. right. split; [lia|]. rewrite H4. by apply Z.mod_mul.
    + assert (addr mod 2 ^ ob mod 2 ^ k = 0) as Hmm.
      { rewrite Hm, Z.mul_comm, Z.rem_mul_r by lia. rewrite Hal, Z.add_0_l, Z.mul_comm. by apply Z.mod_mul; lia. }
      pose proof (Z.mod_pos_bound addr (2 ^ ob) ltac:(lia)).
      apply Z.div_exact in Hmm; [|lia]. set (x := addr mod 2 ^ ob) in *. set (q := x / 2 ^ k) in *.
      assert (q < 2 ^ (ob - k)) by (apply (Z.mul_lt_mono_pos_l (2 ^ k)); lia).
      assert (2 ^ k * (q + 1) ≤ 2 ^ k * 2 ^ (ob - k)) by (apply Z.mul_le_mono_nonneg_l; lia). lia.
Qed.

Lemma elem_of_hit pol k e es x : x ∈ hit_entries pol k e es → x = e ∨ x ∈ es.
Proof.
  unfold hit_entries. case_bool_decide; [|apply elem_of_insert].
  intros [->|Hx]%elem_of_cons; [by left|]. right. by eapply list_elem_of_delete_inv.
Qed.

Lemma elem_of_miss pol k e es x : x ∈ miss_entries pol k e es → x = e ∨ x ∈ es.
Proof.
  unfold miss_entries. case_bool_decide; [apply elem_of_insert|].
  intros [->|Hx]%elem_of_cons; [by left|]. right. by eapply list_elem_of_delete_inv.
Qed.

Lemma entry_tag ob ib cp ords i e : cache_ok ob ib cp ords → e ∈ set_entries cp ords i →
  0 ≤ e_tag e < 2 ^ (32 - (ob + ib)) ∧ (i < Z.to_nat (2 ^ ib))%nat.
Proof.
  intros Hc. unfold set_entries. destruct (sets cp !! i) as [s|] eqn:Hs; [|by intros ?%elem_of_nil].
  destruct (ords !! i) as [order|] eqn:Ho; [|by intros ?%elem_of_nil].
  intros (b & Hb & He)%list_elem_of_omap. apply fmap_Some in He as (blk & Hblk & ->).
  rewrite <- (ck_len _ _ _ _ Hc). split; [|by eapply lookup_lt_Some].
  rewrite <- (cf_tag_shift _ _ _ (ck_conf _ _ _ _ Hc)).
  exact (so_tags _ _ _ (ck_sets _ _ _ _ Hc i s order Hs Ho) b blk Hblk).
Qed.

(** What a cache asks of the function that serves its misses, with respect to a property of
    the next level. *)
Record serves {W : Type} (P : W → Prop) (id : cache_id) (bs : Z)
    (fn : mem_cmd → Z → Z → cache_blk_t → Z → W → Z * (option (list Z) * list Z) * W) : Prop := {
  sv_ok : handler_ok fn;
  sv_read a blk t w l c w' : P w → in_range a → a mod bs = 0 →
    (is_tlb id = true → user_data blk ≠ None) → fn Read a bs blk t w = (l, c, w') →
    P w' ∧ (is_tlb id = true → c.1 ≠ None);
  sv_write a blk t w l c w' : read_only id = false → P w → in_range a → a mod bs = 0 →
    fn Write a bs blk t w = (l, c, w') → P w'
}.

Section Fine.
Context {W : Type} (P : W → Prop).
Context (fn : mem_cmd → Z → Z → cache_blk_t → Z → W → Z * (option (list Z) * list Z) * W).
Context (rnd : W → Z * W) (rnd_P : ∀ w, P w → P (rnd w).2).

Lemma hit_entry_fine id cf i cmd addr nbytes p e :
  entry_fine id cf i e → (cmd = Write → read_only id = false) →
  entry_fine id cf i (hit_entry cf cmd addr nbytes p e).
Proof.
  intros [Hu Hv] Hw. split; [exact Hu|].
  unfold e_valid, e_dirty in *. cbn [e_tag e_status hit_entry]. destruct (decide (cmd = Write)) as [Hc|Hc].
  - rewrite (bool_decide_true (cmd = Write)), valid_dirty, (Hw Hc) by done. intros H. by split; [apply Hv|].
  - by rewrite (bool_decide_false (cmd = Write)) by done.
Qed.

Lemma miss_entry_fine id ob ib cf cmd addr nbytes r p c :
  conf_ok cf ob ib → ob ≤ 22 → in_range addr → (cmd = Write → read_only id = false) →
  (is_tlb id = true → c.1 ≠ None) →
  entry_fine id cf (Z.to_nat (CACHE_SET cf addr)) (miss_entry cf cmd addr nbytes r p c).
Proof.
  intros Hcf Hob Hr Hw Hu. assert (0 ≤ addr < 2 ^ 32) as Ha by (unfold in_range, low_addr, high_addr in Hr; lia).
  split; [exact Hu|]. intros _. pose proof (set_range _ _ _ Hcf addr (proj1 Ha)). rewrite Z2Nat.id by lia.
  cbn [miss_entry e_tag]. rewrite (mk_baddr_tag_set _ _ _ Hcf) by done.
  split; [by apply (block_base cf ob ib addr)|]. intros Hro. unfold e_dirty, miss_entry. cbn [e_status].
  destruct (decide (cmd = Write)) as [Hc|Hc]; [by rewrite (Hw Hc) in Hro|by rewrite (bool_decide_false (cmd = Write))].
Qed.

(** The write-back of a victim. *)
Lemma written_back_fine id cp ob ib ords addr victim w w2 ud :
  serves P id (bsize (conf cp)) fn → cache_ok ob ib cp ords → 0 ≤ addr →
  victim ∈ set_entries cp ords (Z.to_nat (CACHE_SET (conf cp) addr)) →
  entry_fine id (conf cp) (Z.to_nat (CACHE_SET (conf cp) addr)) victim →
  written_back fn (conf cp) (CACHE_SET (conf cp) addr) victim w w2 ud →
  P w → P w2 ∧ (is_tlb id = true → ud ≠ None).
Proof.
  intros Hsv Hc Ha Hin [Hu Hv] Hwb HP. unfold written_back in Hwb. pose proof (ck_conf _ _ _ _ Hc) as Hcf.
  destruct (e_valid victim) eqn:Hval; [|by destruct Hwb as [-> ->]].
  destruct (e_dirty victim) eqn:Hd; [|by destruct Hwb as [-> ->]]. destruct Hwb as (blk & t & l & c & _ & _ & Hf).
  destruct (Hv eq_refl) as [Hr Hro]. destruct (entry_tag _ _ _ _ _ _ Hc Hin) as [Ht _].
  pose proof (set_range _ _ _ Hcf addr Ha) as Hs. rewrite Z2Nat.id in Hr by lia.
  assert (read_only id = false) as Hro' by (destruct (read_only id); [by specialize (Hro eq_refl)|done]).
  split; [|destruct id; done]. eapply (sv_write _ _ _ _ Hsv); [done|done|exact Hr| |exact Hf].
  rewrite (mk_baddr_eq _ _ _ Hcf), (cf_bsize _ _ _ Hcf) by done. by apply Z.mod_mul; pose proof (cf_ob _ _ _ Hcf); lia.
Qed.

(** A request to a cache of the hierarchy is answered. *)
Lemma access_fine id cp cmd addr nbytes now w :
  cache_fine id cp → request (conf cp) addr nbytes → (cmd = Write → read_only id = false) →
  serves P id (bsize (conf cp)) fn → P w →
  ∃ out cp' w', cache_access fn rnd cp cmd addr [] nbytes now w = Ok (out, cp', w') ∧
    cache_fine id cp' ∧ conf cp' = conf cp ∧ P w'.
Proof.
  intros (ob & ib & ords & Hc & Hob & Hb & Hfine) Hrq Hw Hsv HP. pose proof (ck_conf _ _ _ _ Hc) as Hcf.
  pose proof Hrq as [Hr _]. assert (0 ≤ addr) as Ha by (unfold in_range, low_addr in Hr; lia).
  destruct (request_access _ _ _ _ _ Hcf Hob Hrq) as [Hac Hts].
  destruct (cache_access_spec ob ib fn rnd (sv_ok _ _ _ _ Hsv) cp ords cmd addr nbytes now _ w Hc Hac (or_intror Hts))
    as (out & cp' & w' & ords' & Hrun & Hres).
  rewrite (cache_access_nobuf _ _ _ _ _ _ (replicate (Z.to_nat nbytes) 0)), Hrun by done.
  cbn [fmap result_fmap fst snd]. eexists _, cp', w'. split; [reflexivity|].
  set (i := Z.to_nat (CACHE_SET (conf cp) addr)) in *.
  unfold access_result in Hres. fold i in Hres. destruct (e_find _ _) as [k|].
  - destruct Hres as (e & b & He & -> & Hc' & Hcf' & _ & _ & _ & Hi & Hrest).
    split; [|done]. exists ob, ib, ords'. rewrite Hcf'. split_and!; try done.
    intros j x Hx. destruct (decide (j = i)) as [->|Hne]; [|rewrite Hrest in Hx by done; by apply Hfine].
    rewrite Hi in Hx. apply elem_of_hit in Hx as [->|Hx]; [|by apply Hfine].
    apply hit_entry_fine; [|done]. apply Hfine. by eapply list_elem_of_lookup_2.
  - destruct Hres as (k & victim & Hk & _ & Hc' & Hcf' & _ & _ & _ & _ & Hfn & Hrest).
    destruct Hfn as (blk & t & w2 & l & c & r & Hwb & Hread & _ & _ & _ & _ & Hi).
    apply list_elem_of_lookup_2 in Hk. pose proof (Hfine i victim Hk) as Hvf.
    destruct (written_back_fine id cp ob ib ords addr victim _ w2 (user_data blk) Hsv Hc Ha Hk Hvf Hwb) as [HP2 Hud].
    { by case_bool_decide; [apply rnd_P|]. }
    destruct (block_base _ _ _ _ Hcf Hob Hr) as (Hbr & _ & Hbm).
    destruct (sv_read _ _ _ _ Hsv _ _ _ _ _ _ _ HP2 Hbr Hbm Hud Hread) as [HP' Hc1].
    split; [|done]. exists ob, ib, ords'. rewrite Hcf'. split_and!; try done.
    intros j x Hx. destruct (decide (j = i)) as [->|Hne]; [|rewrite Hrest in Hx by done; by apply Hfine].
    rewrite Hi in Hx. apply elem_of_miss in Hx as [->|Hx]; [|by apply Hfine].
    by eapply miss_entry_fine.
Qed.
End Fine.

(** ** The hierarchy *)

(** What [sim_check_options] establishes of the parameters and pointers. *)
Record conf_wf (hc : hier_conf) : Prop := {
  cw_bus : 1 ≤ mem_bus_width hc ≤ 2 ^ 30;
  cw_dl1 id : cache_dl1 hc = Some id → id = DL1;
  cw_dl2 id : cache_dl2 hc = Some id → id = DL2;
  cw_il1 id : cache_il1 hc = Some id → id = IL1 ∨ id = DL1 ∨ id = DL2;
  cw_il2 id : cache_il2 hc = Some id → id = IL2 ∨ id = DL2;
  cw_itlb id : itlb hc = Some id → id = ITLB;
  cw_dtlb id : dtlb hc = Some id → id = DTLB
}.

(** The pointers through which the program's accesses and the misses go. *)
Definition pointed (hc : hier_conf) (id : cache_id) : Prop :=
  Some id ∈ [cache_dl1 hc; cache_dl2 hc; cache_il1 hc; cache_il2 hc; itlb hc; dtlb hc].
Definition next_level (hc : hier_conf) (id : cache_id) : option cache_id :=
  match id with DL1 => cache_dl2 hc | IL1 => cache_il2 hc | _ => None end.

Section HierOk.
Context {R : Type} (random : R → Z * R) (hc : hier_conf) (Hwf : conf_wf hc).
Implicit Types h : hier R.

Record hier_ok h : Prop := {
  ho_fine id cp : cache_at h id = Some cp → cache_fine id cp;
  ho_here id : pointed hc id → is_Some (cache_at h id);
  (** a block of the first level fits in one of the second *)
  ho_fits id id2 cp cp2 : next_level hc id = Some id2 → cache_at h id = Some cp → cache_at h id2 = Some cp2 →
    bsize (conf cp) ≤ bsize (conf cp2)
}.

Definition same_confs h h' : Prop := ∀ id, conf <$> cache_at h' id = conf <$> cache_at h id.

#[local] Instance same_confs_equiv : Equivalence same_confs.
Proof.
  split; [done|by intros ?? H id|]. intros h1 h2 h3 H1 H2 id. by rewrite (H2 id), (H1 id).
Qed.

(** The worlds that a miss of a cache in [h] may reach. *)
Definition world h (w : result (hier R)) : Prop := ∃ h', w = Ok h' ∧ hier_ok h' ∧ same_confs h h'.

Lemma put_cache_at id cp h : cache_at (put_cache id cp h) id = Some cp.
Proof. unfold put_cache. cbn. by rewrite decide_True. Qed.

Lemma put_cache_ok id cp cp' h :
  hier_ok h → cache_at h id = Some cp → cache_fine id cp' → conf cp' = conf cp →
  hier_ok (put_cache id cp' h) ∧ same_confs h (put_cache id cp' h).
Proof.
  intros Hh Hid Hf Hcf.
  assert (same_confs h (put_cache id cp' h)) as Hsame.
  { intros j. cbn. case_decide as Hj; [subst; by rewrite Hid; cbn; rewrite Hcf|done]. }
  split; [|done]. split.
  - intros j x. cbn. case_decide as Hj; [intros [= <-]; by subst|apply (ho_fine _ Hh)].
  - intros j Hp. cbn. case_decide; [done|by apply (ho_here _ Hh)].
  - intros j j2 x x2 Hn Hx Hx2. pose proof (Hsame j) as Hj. pose proof (Hsame j2) as Hj2.
    rewrite Hx in Hj. rewrite Hx2 in Hj2. destruct (cache_at h j) as [y|] eqn:Hy; [|done].
    destruct (cache_at h j2) as [y2|] eqn:Hy2; [|done]. cbn in Hj, Hj2. injection Hj as ->. injection Hj2 as ->.
    by apply (ho_fits _ Hh j j2).
Qed.

Lemma world_random h w : world h w → world h (myrand random w).2.
Proof.
  intros (h' & -> & Hok & Hs). unfold myrand. destruct (random _) as [r s]. cbn.
  eexists. split; [reflexivity|]. split; [|exact Hs]. destruct Hok. by split.
Qed.

Lemma access_cache_ok fn id cp cmd addr nbytes now h :
  hier_ok h → cache_at h id = Some cp → request (conf cp) addr nbytes →
  (cmd = Write → read_only id = false) → serves (world h) id (bsize (conf cp)) fn →
  ∃ lat h', access_cache random fn id cmd addr nbytes now h = Ok (lat, h') ∧ hier_ok h' ∧ same_confs h h'.
Proof.
  intros Hh Hid Hrq Hw Hsv. unfold access_cache. rewrite Hid. cbn [deref mbind result_bind].
  destruct (access_fine (world h) fn (myrand random) (world_random h) id cp cmd addr nbytes now (Ok h))
    as (out & cp' & w' & Hrun & Hf & Hcf & h' & -> & Hh' & Hs); try done.
  - by apply (ho_fine _ Hh).
  - by exists h.
  - rewrite Hrun. cbn [mbind result_bind]. destruct (cache_at h' id) as [cp1|] eqn:Hid'; last first.
    { specialize (Hs id). by rewrite Hid, Hid' in Hs. }
    pose proof (Hs id) as Hs1. rewrite Hid, Hid' in Hs1. cbn in Hs1. injection Hs1 as Hs1.
    destruct (put_cache_ok id cp1 cp' h') as [H1 H2]; [done..|congruence|].
    eexists _, _. split; [reflexivity|]. split; [done|by etrans].
Qed.

(** ** Misses are served *)

Lemma handler_handler_ok (k : mem_cmd → Z → Z → Z → hier R → result (Z * hier R)) : handler_ok (handler k).
Proof.
  intros cmd a n blk now w l c w'. unfold handler. by destruct (_ ≫= _) as [[??]|]; intros [= <- <- <-].
Qed.

Lemma main_memory_ok bs h : 1 ≤ bs ≤ 2 ^ 30 → ∃ lat, main_memory hc bs h = Ok (lat, h).
Proof.
  intros Hb. pose proof (cw_bus _ Hwf). unfold main_memory, mem_access_latency.
  rewrite (i32_small (mem_bus_width hc - 1)), i32_small by lia.
  rewrite bool_decide_true; [by eexists|]. rewrite Z.quot_div_nonneg by lia. apply Z.div_str_pos. lia.
Qed.

Lemma fine_bsize id cp : cache_fine id cp → ∃ k, 3 ≤ k ≤ 22 ∧ bsize (conf cp) = 2 ^ k.
Proof.
  intros (ob & ib & ords & Hc & Hob & _). exists ob. pose proof (ck_conf _ _ _ _ Hc) as Hcf.
  pose proof (cf_ob _ _ _ Hcf). split; [lia|apply Hcf].
Qed.

(** A handler serves the misses of a cache without translations when it answers. *)
Lemma handler_serves h id bs k :
  is_tlb id = false →
  (∀ cmd a now h', hier_ok h' → same_confs h h' → in_range a → a mod bs = 0 → (cmd = Write → read_only id = false) →
     ∃ lat h'', k cmd a bs now h' = Ok (lat, h'') ∧ hier_ok h'' ∧ same_confs h' h'') →
  serves (world h) id bs (handler k).
Proof.
  intros Ht Hk. split; [apply handler_handler_ok| |].
  - intros a blk t w l c w' (h' & -> & Hok & Hs) Hr Ha _. unfold handler. cbn [mbind result_bind].
    destruct (Hk Read a t h') as (lat & h'' & -> & Hok' & Hs'); try done. intros [= <- <- <-].
    split; [|by rewrite Ht]. exists h''. split; [done|]. split; [done|by etrans].
  - intros a blk t w l c w' Hro (h' & -> & Hok & Hs) Hr Ha. unfold handler. cbn [mbind result_bind].
    destruct (Hk Write a t h') as (lat & h'' & -> & Hok' & Hs'); try done. intros [= <- <- <-].
    exists h''. split; [done|]. split; [done|by etrans].
Qed.

Lemma second_serves h id cp : hier_ok h → cache_at h id = Some cp → id = DL2 ∨ id = IL2 →
  serves (world h) id (bsize (conf cp)) (second_fn hc id).
Proof.
  intros Hh Hid Hl. destruct (fine_bsize id cp (ho_fine _ Hh id cp Hid)) as (k & Hk & Hb).
  assert (1 ≤ bsize (conf cp) ≤ 2 ^ 30) as Hbs.
  { rewrite Hb. split; [lia|]. by apply Z.pow_le_mono_r; lia. }
  destruct Hl as [-> | ->]; (apply handler_serves; [done|]); intros cmd a now h' Hok Hs _ _ Hw;
    destruct (main_memory_ok _ h' Hbs) as [lat Hlat]; destruct cmd; try by eexists _, h'.
  by specialize (Hw eq_refl).
Qed.

Lemma next_level_second id id2 : next_level hc id = Some id2 → id2 = DL2 ∨ id2 = IL2.
Proof.
  destruct id; try done; cbn; intros H; [left; by apply (cw_dl2 _ Hwf)|]. destruct (cw_il2 _ Hwf _ H); tauto.
Qed.

(** A miss of the first level goes to the second, if there is one. *)
Lemma through_second h h' id id2 cp cmd a now :
  hier_ok h → same_confs h h' → hier_ok h' → cache_at h id = Some cp → next_level hc id = Some id2 →
  (cmd = Write → read_only id2 = false) → in_range a → a mod bsize (conf cp) = 0 →
  ∃ lat h'', access_cache random (second_fn hc id2) id2 cmd a (bsize (conf cp)) now h' = Ok (lat, h'') ∧
    hier_ok h'' ∧ same_confs h' h''.
Proof.
  intros Hh Hs Hh' Hid Hn Hw Hr Ha.
  assert (pointed hc id2) as Hp by (unfold pointed; destruct id; try done; cbn in Hn; rewrite Hn; set_solver).
  destruct (ho_here _ Hh' id2 Hp) as [cp2 Hid2].
  pose proof (Hs id) as Hcp. rewrite Hid in Hcp. destruct (cache_at h' id) as [cp'|] eqn:Hid'; [|done].
  cbn in Hcp. injection Hcp as Hcp.
  destruct (fine_bsize id cp (ho_fine _ Hh id cp Hid)) as (k & Hk & Hb).
  pose proof (ho_fits _ Hh' id id2 cp' cp2 Hn Hid' Hid2) as Hfit. rewrite Hcp in Hfit.
  apply (access_cache_ok _ id2 cp2); try done.
  - split; [done|]. exists k. split_and!; [lia|done|done|done].
  - apply second_serves; [done|done|by eapply next_level_second].
Qed.

Lemma bsize_range h id cp : hier_ok h → cache_at h id = Some cp → 1 ≤ bsize (conf cp) ≤ 2 ^ 30.
Proof.
  intros Hh Hid. destruct (fine_bsize id cp (ho_fine _ Hh id cp Hid)) as (k & Hk & ->).
  split; [lia|]. apply Z.pow_le_mono_r; lia.
Qed.

Lemma dl1_serves h cp : hier_ok h → cache_at h DL1 = Some cp →
  serves (world h) DL1 (bsize (conf cp)) (handler (dl1_access_fn random hc)).
Proof.
  intros Hh Hid. apply handler_serves; [done|]. intros cmd a now h' Hok Hs Hr Ha Hw. unfold dl1_access_fn.
  destruct (cache_dl2 hc) as [id2|] eqn:H2.
  - pose proof (cw_dl2 _ Hwf _ H2) as ->.
    destruct (through_second h h' DL1 DL2 cp cmd a now) as (lat & h'' & Hrun & Hok' & Hs'); try done.
    rewrite Hrun. by eexists _, h''.
  - destruct (main_memory_ok _ h' (bsize_range h DL1 cp Hh Hid)) as [lat Hlat]. by destruct cmd; eexists _, h'.
Qed.

Lemma il1_serves h cp : hier_ok h → cache_at h IL1 = Some cp →
  serves (world h) IL1 (bsize (conf cp)) (handler (il1_access_fn random hc)).
Proof.
  intros Hh Hid. apply handler_serves; [done|]. intros [|] a now h' Hok Hs Hr Ha Hw; [|by specialize (Hw eq_refl)].
  unfold il1_access_fn. destruct (cache_il2 hc) as [id2|] eqn:H2.
  - destruct (through_second h h' IL1 id2 cp Read a now) as (lat & h'' & Hrun & Hok' & Hs'); try done.
    rewrite Hrun. by eexists _, h''.
  - destruct (main_memory_ok _ h' (bsize_range h IL1 cp Hh Hid)) as [lat Hlat]. by eexists _, h'.
Qed.

Lemma tlb_serves h id bs : serves (world h) id bs (tlb_access_fn hc) ∨ is_tlb id = false.
Proof.
  destruct (is_tlb id) eqn:Ht; [left|by right]. split.
  - intros cmd a n blk now w l c w'. unfold tlb_access_fn. by destruct (user_data blk); intros [= <- <- <-].
  - intros a blk t w l c w' Hw _ _ Hu. unfold tlb_access_fn. destruct (user_data blk); [|by destruct (Hu Ht)].
    intros [= <- <- <-]. by split.
  - intros a blk t w l c w' Hro. by destruct id.
Qed.

Lemma level_serves h id cp : hier_ok h → cache_at h id = Some cp →
  serves (world h) id (bsize (conf cp)) (blk_access_fn random hc id).
Proof.
  intros Hh Hid. destruct id; cbn [blk_access_fn].
  - by apply dl1_serves.
  - by apply (second_serves h DL2); [..|left].
  - by apply il1_serves.
  - by apply (second_serves h IL2); [..|right].
  - by destruct (tlb_serves h ITLB (bsize (conf cp))).
  - by destruct (tlb_serves h DTLB (bsize (conf cp))).
Qed.

(** ** The accesses of the pipeline *)

(** A request through a pointer: blocks are at least 8 bytes, so aligned words and
    instructions lie within one. *)
Lemma port_ok p cmd addr k now h :
  hier_ok h → (∀ id, p = Some id → pointed hc id ∧ (cmd = Write → read_only id = false)) →
  2 ≤ k ≤ 3 → in_range addr → addr mod 2 ^ k = 0 →
  ∃ o h', port random hc p cmd addr (2 ^ k) now h = Ok (o, h') ∧ hier_ok h' ∧ same_confs h h'.
Proof.
  intros Hh Hp Hk Hr Ha. unfold port. destruct p as [id|]; [|by exists None, h].
  destruct (Hp id eq_refl) as [Hpt Hw]. destruct (ho_here _ Hh id Hpt) as [cp Hid].
  destruct (fine_bsize id cp (ho_fine _ Hh id cp Hid)) as (b & Hb & Hbs).
  destruct (access_cache_ok (blk_access_fn random hc id) id cp cmd addr (2 ^ k) now h) as (lat & h' & -> & Hok & Hs); try done.
  - split; [done|]. exists k. rewrite Hbs. split_and!; [lia|done|apply Z.pow_le_mono_r; lia|done].
  - by apply level_serves.
  - by eexists _, h'.
Qed.
End HierOk.
