(* ===== verification/OooHier.v ===== *)
(** * The core with its caches and its wrong-path state

    The environment of the core made of the caches of the hierarchy and of the trace
    generator.  The instruction set is a parameter, which [PisaOk] supplies. *)

From S2P Require Import Prelude Misc Memory MemorySpec Bpred Resource ResourceSpec Ruu RuuStages RuuFront RuuUnits RuuPath RuuTransparent.
From S2P Require Import SpecState SpecInv SpecRegs SpecAccess SpecMain Isa Cache Hier HierSpec.

(** The instruction set: what an instruction does at its address, the instruction at an
    address given the bytes of memory, and the instructions that are valid. *)
Record isa := mkIsa {
  isa_sem : md_opcode → Z → Z → inst_sem;
  isa_fetch : Z → (Z → Z) → Z;
  isa_cross_endian : bool;
  isa_opcode : Z → md_opcode;
  isa_fuclass : md_opcode → Z;
  isa_is_return : md_opcode → Z → bool;
  isa_nop_op : md_opcode;
  isa_agen_op : md_opcode;
  isa_nop_inst : Z;
  isa_valid : Z → bool
}.

(** The segments that the loader sets up. *)
Record segments := mkSegments { text_base : Z; text_size : Z; data_base : Z; stack_base : Z }.

Record machine_state (R : Type) := mkState { caches : hier R; trace : tracer }.
Arguments mkState {R} _ _.
Arguments caches {R} _.
Arguments trace {R} _.

Section Machine.
Context {R : Type} (random : R → Z * R) (hc : hier_conf) (bugcompat : bool) (m : isa) (ld : segments).
Implicit Types s : machine_state R.

Definition access_port (p : option cache_id) (cmd : mem_cmd) (addr nbytes now : Z) s
    : result (option Z * machine_state R) :=
  '(o, h) ← port random hc p cmd addr nbytes now (caches s);
  Ok (o, mkState h (trace s)).

Definition reset_trace s : result (machine_state R) :=
  t ← tracer_reset (trace s); Ok (mkState (caches s) t).

Definition exec_inst (spec : bool) (op : md_opcode) (i pc : Z) s : result (exec_out * machine_state R) :=
  '(x, t) ← exec_sem bugcompat (isa_cross_endian m) (text_base ld) (text_size ld) (data_base ld) (stack_base ld)
              spec (isa_sem m op i pc) (trace s);
  Ok (x, mkState (caches s) t).

#[local] Instance machine_env : Environment (machine_state R) := {
  dl1_access := access_port (cache_dl1 hc);
  dtlb_access := access_port (dtlb hc);
  il1_access := access_port (cache_il1 hc);
  itlb_access := access_port (itlb hc);
  reset_spec_state := reset_trace;
  md_exec := exec_inst;
  MD_FETCH_INST pc s := isa_fetch m pc (mem_byte (t_mem (trace s)));
  MD_SET_OPCODE := isa_opcode m;
  RuuStages.MD_OP_FUCLASS := isa_fuclass m;
  MD_IS_RETURN := isa_is_return m;
  MD_NOP_OP := isa_nop_op m;
  MD_AGEN_OP := isa_agen_op m;
  MD_NOP_INST := isa_nop_inst m;
  RuuStages.MD_VALID_ADDR := MD_VALID_ADDR (text_base ld) (text_size ld) (data_base ld) (stack_base ld);
  ld_text_base := text_base ld;
  ld_text_size := text_size ld
}.

(** The caches are well formed, and so are registers, memory and the buffers of the wrong
    path; latencies may overflow. *)
#[local] Instance machine_spec : EnvSpec (machine_state R) := {
  env_inv s := hier_ok hc (caches s) ∧ tracer_ok (trace s);
  env_addr := HierSpec.in_range;
  env_late := True
}.

(** What a program may do: what was fetched, and stores in the range of the hierarchy. *)
Definition proper_out (op : md_opcode) (x : exec_out) : bool :=
  bool_decide (x_op x = op) &&
  (negb (is_store (x_op x)) || (bool_decide (low_addr ≤ x_addr x) && bool_decide (x_addr x < high_addr))).

(** What an invalid instruction would yield. *)
Definition invalid_out (pc : Z) : exec_out :=
  mkExec (isa_nop_op m) NA NA NA NA NA (u32 (pc + inst_size)) 0 0 md_fault_access.

(** The machine that stops a program that does anything else. *)
Definition exec_guarded (spec : bool) (op : md_opcode) (i pc : Z) s : result (exec_out * machine_state R) :=
  if negb (isa_valid m i) then Ok (invalid_out pc, s) else
  '(x, s) ← exec_inst spec op i pc s;
  Ok (if spec || bool_decide (x_fault x ≠ md_fault_none) || proper_out op x then x
      else mkExec (x_op x) (x_out1 x) (x_out2 x) (x_in1 x) (x_in2 x) (x_in3 x) (x_NPC x) (x_target_PC x) (x_addr x)
             md_fault_access, s).

Definition guarded_env : Environment (machine_state R) := with_exec machine_env exec_guarded.

(** The segments lie in the range of addresses of the hierarchy. *)
Record segments_ok : Prop := {
  sg_text : low_addr ≤ text_base ld;
  sg_align : text_base ld mod 8 = 0;
  sg_size : 0 ≤ text_size ld;
  sg_end : text_base ld + text_size ld ≤ high_addr;
  sg_data : low_addr ≤ data_base ld;
  sg_stack : stack_base ld ≤ high_addr
}.

(** Registers, next addresses and opcodes of an instruction. *)
Record out_ok (fu : list res_desc) (op : md_opcode) (pc : Z) (x : exec_out) : Prop := {
  oo_regs : Forall (λ n, 0 ≤ n < Z.of_nat MD_TOTAL_REGS) [x_out1 x; x_out2 x; x_in1 x; x_in2 x; x_in3 x];
  oo_ctrl : is_ctrl (x_op x) = true → x_op x = op;
  oo_nop : op_num (x_op x) = op_num (isa_nop_op m) → is_ctrl (x_op x) = false ∧ x_NPC x = u32 (pc + inst_size);
  oo_store : is_store (x_op x) = true →
    x_out1 x = NA ∧ x_out2 x = NA ∧ has_unit fu (isa_fuclass m (x_op x));
  oo_class : isa_fuclass m (x_op x) = NA ∨ has_unit fu (isa_fuclass m (x_op x))
}.

(** What the core relies on of the instruction set. *)
Record isa_ok (fu : list res_desc) : Prop := {
  is_sem i pc : isa_valid m i = true → sem_ok (out_ok fu (isa_opcode m i) pc) (isa_sem m (isa_opcode m i) i pc);
  is_fetch pc f g : (∀ a, pc ≤ a < pc + inst_size → f a = g a) → isa_fetch m pc f = isa_fetch m pc g;
  is_agen : is_ctrl (isa_agen_op m) = false ∧
    (isa_fuclass m (isa_agen_op m) = NA ∨ has_unit fu (isa_fuclass m (isa_agen_op m)));
  is_nop_inst : is_ctrl (isa_opcode m (isa_nop_inst m)) = false ∧ isa_valid m (isa_nop_inst m) = true;
  is_nop_op : is_ctrl (isa_nop_op m) = false ∧ is_store (isa_nop_op m) = false ∧
    (isa_fuclass m (isa_nop_op m) = NA ∨ has_unit fu (isa_fuclass m (isa_nop_op m)))
}.

Section Ok.
Context (fu : list res_desc) (Hwf : conf_wf hc) (Hld : segments_ok) (Hisa : isa_ok fu).

Lemma access_port_ok p cmd addr k now s :
  env_inv s → (∀ id, p = Some id → pointed hc id ∧ (cmd = Write → read_only id = false)) →
  2 ≤ k ≤ 3 → HierSpec.in_range addr → addr mod 2 ^ k = 0 →
  ∃ o s', access_port p cmd addr (2 ^ k) now s = Ok (o, s') ∧ env_inv s'.
Proof.
  intros [Hh Ht] Hp Hk Hr Ha. unfold access_port.
  destruct (port_ok random hc Hwf p cmd addr k now (caches s) Hh Hp Hk Hr Ha) as (o & h' & -> & Hh' & _).
  by eexists _, _.
Qed.

Lemma word_in_range a : HierSpec.in_range a → HierSpec.in_range (word_addr a) ∧ word_addr a mod 2 ^ 2 = 0.
Proof.
  unfold HierSpec.in_range, low_addr, high_addr. intros Ha. unfold word_addr.
  change (Z.lnot 3) with (Z.lnot (2 ^ 2 - 1)). rewrite land_u32_lnot by lia. rewrite Z.mod_mul by lia. change (2 ^ 2) with 4.
  change (2 ^ 22) with 4194304 in *. change (2 ^ 31) with 2147483648 in *. split; [|done]. Z.div_mod_to_equations. lia.
Qed.

Lemma valid_in_range a :
  MD_VALID_ADDR (text_base ld) (text_size ld) (data_base ld) (stack_base ld) a = true → HierSpec.in_range a.
Proof.
  destruct Hld. unfold MD_VALID_ADDR, HierSpec.in_range, low_addr, high_addr in *.
  rewrite u32_small by lia. rewrite orb_true_iff, !andb_true_iff, !bool_decide_eq_true. lia.
Qed.

(** The address and size that the instruction cache sees. *)
Lemma compressed_request cf pc : in_text pc = true →
  ∃ k, 2 ≤ k ≤ 3 ∧ ISCOMPRESS cf inst_size = 2 ^ k ∧
    HierSpec.in_range (IACOMPRESS cf pc) ∧ IACOMPRESS cf pc mod 2 ^ k = 0.
Proof.
  destruct Hld. unfold in_text, IACOMPRESS, ISCOMPRESS, HierSpec.in_range, low_addr, high_addr in *.
  cbn [ld_text_base ld_text_size machine_env]. rewrite u32_small by lia.
  rewrite !andb_true_iff, !bool_decide_eq_true. intros [[H1 H2] H3].
  change (inst_size - 1) with (Z.ones 3) in H3. rewrite Z.land_ones in H3 by lia.
  destruct (compress_icache_addrs cf); [exists 2|by exists 3; repeat split; try lia].
  rewrite !Z.shiftr_div_pow2 by lia. change (2 ^ 1) with 2. change (2 ^ 2) with 4. change (2 ^ 3) with 8 in H3.
  rewrite (u32_small (pc - _)) by lia. rewrite u32_small by (Z.div_mod_to_equations; lia). split; [lia|]. split; [done|]. Z.div_mod_to_equations. lia.
Qed.

#[local] Lemma data_pointer id : cache_dl1 hc = Some id → pointed hc id ∧ read_only id = false.
Proof. intros H. pose proof (cw_dl1 _ Hwf _ H) as ->. split; [|done]. unfold pointed. rewrite H. set_solver. Qed.

Lemma out_mask op pc x : out_ok fu op pc x → out_ok fu op pc (mask_fault x).
Proof. by intros []; split. Qed.

Lemma guarded_exec_ok spec i pc s : env_inv s → ∃ x s', exec_guarded spec (isa_opcode m i) i pc s = Ok (x, s') ∧
  env_inv s' ∧ exec_ok (Environment0 := guarded_env) fu spec (isa_opcode m i) pc x.
Proof.
  intros [Hh Ht]. unfold exec_guarded, exec_inst. destruct (isa_valid m i) eqn:Hval; cbn [negb].
  2: { do 2 eexists. split; [reflexivity|]. split; [done|]. destruct (is_nop_op _ Hisa) as (N1 & N2 & N3).
       split; cbn [invalid_out x_op x_out1 x_out2 x_in1 x_in2 x_in3 x_fault x_NPC x_addr];
         [repeat (constructor; [cbn; unfold MD_TOTAL_REGS, NA; lia|]); constructor|by intros|by rewrite N1|by intros|by rewrite N2|by intros|exact N3]. }
  destruct (exec_sem_total bugcompat (isa_cross_endian m) (text_base ld) (text_size ld) (data_base ld) (stack_base ld) _ spec _ _
    (is_sem _ Hisa i pc Hval) Ht) as (x0 & t' & -> & Hx0 & Ht'). cbn [mbind result_bind].
  assert (out_ok fu (isa_opcode m i) pc (if spec then mask_fault x0 else x0)) as [X1 X2 X3 X4 X5] by (destruct spec; [by apply out_mask|done]).
  set (x := if spec then _ else _) in *. do 2 eexists. split; [reflexivity|]. split; [done|].
  destruct (spec || _ || _) eqn:Hp; [|split; [exact X1|by intros|exact X2|by intros ?%bool_decide_eq_true; apply X3|exact X4|by intros|exact X5]].
  split; [exact X1| |exact X2|by intros ?%bool_decide_eq_true; apply X3|exact X4| |exact X5]; intros -> Hf; cbn [orb] in Hp;
    rewrite bool_decide_false in Hp by tauto; apply andb_true_iff in Hp as [Hop Hst]; apply bool_decide_eq_true in Hop; [done|].
  intros Hs. rewrite Hs in Hst. cbn in Hst. rewrite andb_true_iff, !bool_decide_eq_true in Hst. exact Hst.
Qed.

Lemma machine_env_ok : EnvOk (Environment0 := guarded_env) fu.
Proof.
  split.
  - intros cmd a t s Hs Ha. destruct (word_in_range a Ha) as [Hr Hm].
    destruct (access_port_ok (cache_dl1 hc) cmd (word_addr a) 2 t s Hs) as (o & s' & H1 & H2); try done.
    { intros id Hid. destruct (data_pointer id Hid). by split. }
    exists o, s'. split; [exact H1|]. split; [done|]. intros. by right.
  - intros a t s Hs Ha. destruct (word_in_range a Ha) as [Hr Hm].
    apply (access_port_ok (dtlb hc) Read (word_addr a) 2 t s Hs); try done.
    intros id Hid. split; [|done]. unfold pointed. rewrite Hid. set_solver.
  - intros cf pc t s Hs Hpc. destruct (compressed_request cf pc Hpc) as (k & Hk & Hsz & Hr & Hm). rewrite Hsz.
    apply (access_port_ok (cache_il1 hc) Read _ k t s Hs); try done.
    intros id Hid. split; [|done]. unfold pointed. rewrite Hid. set_solver.
  - intros cf pc t s Hs Hpc. destruct (compressed_request cf pc Hpc) as (k & Hk & Hsz & Hr & Hm). rewrite Hsz.
    apply (access_port_ok (itlb hc) Read _ k t s Hs); try done.
    intros id Hid. split; [|done]. unfold pointed. rewrite Hid. set_solver.
  - intros s [Hh Ht]. destruct (tracer_ok_sim _ Ht) as [o Ho].
    destruct (tracer_reset_sim _ _ _ _ Ho) as (t' & Hrun & Ho' & _). change (reset_spec_state s) with (reset_trace s). unfold reset_trace. rewrite Hrun.
    cbn [mbind result_bind]. eexists. split; [reflexivity|]. split; [done|]. destruct Ho'. split; [done..|by eexists].
  - exact guarded_exec_ok.
  - exact valid_in_range.
  - apply (is_agen _ Hisa).
  - apply (is_nop_inst _ Hisa).
  - cbn. destruct Hld. unfold low_addr in *. lia.
Qed.
End Ok.
End Machine.
