(* ===== verification/PisaOk.v ===== *)
(** * The PISA instruction set is well formed

    An instruction whose register fields, as its operand format names them, are below 32
    makes only accesses that exist, and yields what the core relies on. *)

From S2P Require Import Prelude Misc Memory MemorySpec Bpred Resource ResourceSpec Ruu RuuStages RuuFront RuuUnits SpecState SpecInv SpecRegs SpecMain.
From S2P Require Import Isa Cache Hier HierSpec OooHier Floats Pisa.
From Stdlib Require Import Ascii.

(** ** Valid instructions *)

(** The register fields that an operand format names. *)
Fixpoint format_ok (fmt : string) (i : Z) : bool :=
  match fmt with
  | EmptyString => true
  | String c fmt =>
      match c with
      | "d"%char | "D"%char => bool_decide (RD i < 32)
      | "s"%char | "b"%char | "S"%char => bool_decide (RS i < 32)
      | "t"%char | "T"%char => bool_decide (RT i < 32)
      | _ => true
      end && format_ok fmt i
  end.

Definition pisa_valid (i : Z) : bool :=
  match def_of (op_num (MD_SET_OPCODE i)) with Some d => format_ok (d_format d) i | None => true end.

(** The instruction set, as the core takes it. *)
Definition pisa (h : host) : isa := {|
  isa_sem := pisa_sem h;
  isa_fetch := fetch_inst h;
  isa_cross_endian := MD_CROSS_ENDIAN h;
  isa_opcode := MD_SET_OPCODE;
  isa_fuclass op := md_op2fu (op_num op);
  isa_is_return := MD_IS_RETURN;
  isa_nop_op := MD_NOP_OP;
  isa_agen_op := MD_AGEN_OP;
  isa_nop_inst := MD_NOP_INST;
  isa_valid := pisa_valid
|}.

(** ** Accesses that exist *)

Ltac bank_lia := unfold bank_size, MD_NUM_IREGS, MD_NUM_FREGS, MD_NUM_CREGS; lia.

Section Ok.
Context (Q : exec_out → Prop).

Definition pm_ok {A} (m : pm A) : Prop := ∀ fin st k,
  (∀ st f, Q (fin st f)) → (∀ a st, sem_ok Q (k a st)) → sem_ok Q (m fin st k).

Lemma pm_ok_ret {A} (a : A) : pm_ok (mret a).
Proof. intros fin st k H1 H2. apply H2. Qed.

Lemma pm_ok_bind {A B} (m : pm A) (f : A → pm B) : pm_ok m → (∀ a, pm_ok (f a)) → pm_ok (m ≫= f).
Proof. intros Hm Hf fin st k H1 H2. apply Hm; [done|]. intros a st'. by apply Hf. Qed.

Lemma pm_ok_fault {A} f : pm_ok (DECLARE_FAULT f : pm A).
Proof. intros fin st k H1 H2. constructor. apply H1. Qed.

Lemma pm_ok_fault_if b f (m : pm unit) : (b = false → pm_ok m) → pm_ok (fault_if b f;; m).
Proof.
  intros Hm fin st k H1 H2. unfold fault_if. destruct b; [constructor; apply H1|]. by apply Hm.
Qed.

Lemma pm_ok_check {A} f (m : pm A) : pm_ok m → pm_ok (check_fault f;; m).
Proof.
  intros Hm fin st k H1 H2. unfold check_fault, fault_if. destruct (negb _); [constructor; apply H1|]. by apply Hm.
Qed.

Lemma pm_ok_check_end f : pm_ok (check_fault f).
Proof. intros fin st k H1 H2. unfold check_fault, fault_if. destruct (negb _); [constructor; apply H1|]. by apply H2. Qed.

Lemma pm_ok_get b bit i : (bit < bank_size b)%nat → (i < bank_size b)%nat → pm_ok (pm_get b bit i).
Proof. intros H1 H2 fin st k H3 H4. constructor; [by split|]. intros. apply H4. Qed.

Lemma pm_ok_set b bit i v : (bit < bank_size b)%nat → (i < bank_size b)%nat → pm_ok (pm_set b bit i v).
Proof. intros H1 H2 fin st k H3 H4. constructor; [by split|]. intros. apply H4. Qed.

Lemma pm_ok_read h n a : n ∈ [1; 2; 4; 8]%nat → pm_ok (pm_read h n a).
Proof.
  intros Hn fin st k H1 H2. constructor; [|intros; apply H2]. split; [apply u32_range|]. by rewrite length_replicate.
Qed.

Lemma host_to_length h n v : length (host_to h n v) = n.
Proof.
  assert (∀ v, length (little_to n v) = n) as Hl by (induction n as [|n IH]; intros; cbn; [done|by rewrite IH]).
  unfold host_to. destruct (BYTES_BIG_ENDIAN h); [rewrite length_rev|]; apply Hl.
Qed.

Lemma pm_ok_write h n v a : n ∈ [1; 2; 4; 8]%nat → pm_ok (pm_write h n v a).
Proof.
  intros Hn fin st k H1 H2. constructor; [|intros; apply H2]. split; [apply u32_range|]. by rewrite host_to_length.
Qed.

Lemma pm_ok_npc v : pm_ok (SET_NPC v).
Proof. intros fin st k H1 H2. apply H2. Qed.
Lemma pm_ok_tpc v : pm_ok (SET_TPC v).
Proof. intros fin st k H1 H2. apply H2. Qed.

Definition is_reg (n : Z) : Prop := 0 ≤ n < 32.

Lemma pair_small n : (n < 32 → pair_of n < 32)%nat.
Proof. unfold pair_of. intros H. pose proof (Nat.Div0.mul_div_le n 2). lia. Qed.

Lemma pm_ok_GPR n : is_reg n → pm_ok (GPR n).
Proof. intros H. apply pm_ok_bind; [|intros; apply pm_ok_ret]. unfold is_reg in H. apply pm_ok_get; bank_lia. Qed.
Lemma pm_ok_SET_GPR n v : is_reg n → pm_ok (SET_GPR n v).
Proof. intros H. unfold is_reg in H. apply pm_ok_set; bank_lia. Qed.
Lemma pm_ok_FPR_L n : is_reg n → pm_ok (FPR_L n).
Proof.
  intros H. unfold is_reg in H. pose proof (pair_small (Z.to_nat n) ltac:(lia)).
  apply pm_ok_bind; [|intros; apply pm_ok_ret]. apply pm_ok_get; bank_lia.
Qed.
Lemma pm_ok_SET_FPR_L n v : is_reg n → pm_ok (SET_FPR_L n v).
Proof. intros H. unfold is_reg in H. pose proof (pair_small (Z.to_nat n) ltac:(lia)). apply pm_ok_set; bank_lia. Qed.

Lemma half_small n : is_reg n → (2 * Z.to_nat (n / 2) + 1 < 32)%nat ∧ (pair_of (Z.to_nat n) < 32)%nat.
Proof. intros H. unfold is_reg in H. assert (0 ≤ n / 2 < 16) by (Z.div_mod_to_equations; lia). split; [lia|apply pair_small; lia]. Qed.

Lemma pm_ok_FPR_D_bits h n : is_reg n → pm_ok (FPR_D_bits h n).
Proof.
  intros H. destruct (half_small n H). unfold FPR_D_bits. cbv zeta.
  repeat (apply pm_ok_bind; [apply pm_ok_get; bank_lia|intros]). apply pm_ok_ret.
Qed.
Lemma pm_ok_SET_FPR_D_bits h n v : is_reg n → pm_ok (SET_FPR_D_bits h n v).
Proof.
  intros H. destruct (half_small n H). unfold SET_FPR_D_bits. cbv zeta.
  apply pm_ok_bind; [|intros]; apply pm_ok_set; bank_lia.
Qed.

Lemma pm_ok_HI : pm_ok HI.
Proof. apply pm_ok_bind; [apply pm_ok_get; bank_lia|intros; apply pm_ok_ret]. Qed.
Lemma pm_ok_SET_HI v : pm_ok (SET_HI v).
Proof. apply pm_ok_set; bank_lia. Qed.
Lemma pm_ok_LO : pm_ok LO.
Proof. apply pm_ok_bind; [apply pm_ok_get; bank_lia|intros; apply pm_ok_ret]. Qed.
Lemma pm_ok_SET_LO v : pm_ok (SET_LO v).
Proof. apply pm_ok_set; bank_lia. Qed.
Lemma pm_ok_FCC : pm_ok FCC.
Proof. apply pm_ok_bind; [apply pm_ok_get; bank_lia|intros; apply pm_ok_ret]. Qed.
Lemma pm_ok_SET_FCC v : pm_ok (SET_FCC v).
Proof. apply pm_ok_set; bank_lia. Qed.
End Ok.

Create HintDb pm_ok.
#[export] Hint Resolve pm_ok_ret pm_ok_fault pm_ok_npc pm_ok_tpc pm_ok_GPR pm_ok_SET_GPR pm_ok_FPR_L pm_ok_SET_FPR_L
  pm_ok_FPR_D_bits pm_ok_SET_FPR_D_bits pm_ok_HI pm_ok_SET_HI pm_ok_LO pm_ok_SET_LO pm_ok_FCC pm_ok_SET_FCC pm_ok_check_end : pm_ok.

Ltac head_of t := match t with ?f _ => head_of f | _ => t end.

(** One step of an instruction's body. *)
Ltac pm_step :=
  match goal with
  | |- pm_ok _ (check_fault _ ≫= _) => apply pm_ok_check
  | |- pm_ok _ (fault_if _ _ ≫= _) => apply pm_ok_fault_if; let H := fresh in intros H; rewrite ?orb_false_iff in H; destruct_and? H
  | |- pm_ok _ (_ ≫= _) => apply pm_ok_bind; [|intros ?]
  | |- pm_ok _ (pm_read _ _ _) => apply pm_ok_read; by repeat constructor
  | |- pm_ok _ (pm_write _ _ _ _) => apply pm_ok_write; by repeat constructor
  | |- pm_ok _ (if ?b then _ else _) => destruct b eqn:?
  | |- pm_ok _ (let '(_, _) := ?p in _) => destruct p
  | |- pm_ok _ (match ?p with (_, _) => _ end) => destruct p
  | |- pm_ok _ _ => solve [eauto 3 with pm_ok]
  | |- pm_ok _ ?m => let f := head_of m in unfold f; cbv zeta
  end.

Section Insts.
Context (Q : exec_out → Prop) (h : host).
Hypothesis Hsys : ∀ i, pm_ok Q (sys_syscall h i).
Abbreviation pm_ok := (pm_ok Q).

Lemma mult_loop_ok n bit op2 : (∀ k, pm_ok (bit k)) → pm_ok op2 → pm_ok (mult_loop n bit op2).
Proof. intros Hb Ho. induction n as [|n IH]; cbn [mult_loop]; repeat pm_step; auto. Qed.

Lemma sra_loop_ok i n : is_reg (RD i) → pm_ok (sra_loop i n).
Proof. intros Hr. induction n as [|n IH]; cbn [sra_loop]; repeat pm_step; auto. Qed.

Lemma even_next n : is_reg n → Z.odd n = false → is_reg (n + 1).
Proof. unfold is_reg. intros H Ho. assert (n ≠ 31) by (intros ->; done). lia. Qed.
#[local] Hint Resolve even_next sra_loop_ok mult_loop_ok : pm_ok.

Lemma field_pos i : 0 ≤ RS i ∧ 0 ≤ RT i ∧ 0 ≤ RD i.
Proof.
  assert (0 ≤ inst_b i) as H by apply u32_range. unfold RS, RT, RD.
  split_and!; [by apply Z.shiftr_nonneg|apply Z.land_nonneg; right; lia..].
Qed.

(** The registers that exist, under their synonyms too. *)
Lemma reg_fields i : (RS i < 32 → is_reg (RS i) ∧ is_reg (FS i) ∧ is_reg (BS i)) ∧ (RT i < 32 → is_reg (RT i) ∧ is_reg (FT i)) ∧
  (RD i < 32 → is_reg (RD i) ∧ is_reg (FD i)).
Proof. destruct (field_pos i) as (? & ? & ?). by split_and!; intros; unfold FS, FT, FD, BS; split_and!; split. Qed.

(** Every instruction of the table. *)
Lemma insts_ok : Forall (λ d, ∀ i pc, format_ok (d_format d) i = true → pm_ok (d_impl d h i pc)) machine_def.
Proof.
  unfold machine_def. repeat first [apply List.Forall_nil|apply List.Forall_cons].
  all: intros i pc Hf; cbn [d_format d_impl format_ok] in *; rewrite ?andb_true_iff, ?bool_decide_eq_true in Hf;
    destruct (reg_fields i) as (Hrs & Hrt & Hrd); assert (is_reg 31 ∧ is_reg 0) as [? ?] by (by split);
    repeat match goal with H : _ ∧ _ |- _ => destruct H end;
    repeat match goal with H : ?a < 32 → _, H' : ?a < 32 |- _ => specialize (H H') end;
    repeat match goal with H : _ ∧ _ |- _ => destruct H end.
  all: repeat pm_step.
Qed.
End Insts.

(** ** Dependences, functional units, next addresses *)

Lemma even_range n m : 0 ≤ n < m → 0 ≤ Z.land n (Z.lnot 1) < m.
Proof.
  intros H. change (Z.lnot 1) with (Z.lnot (Z.ones 1)). rewrite <- Z.ldiff_land, Z.ldiff_ones_r, Z.shiftl_mul_pow2, Z.shiftr_div_pow2 by lia.
  change (2 ^ 1) with 2. Z.div_mod_to_equations. lia.
Qed.

(** Outputs and inputs are registers, stores have no outputs and use the write port, and every
    class of units exists. *)
Record entry_ok (d : definst) (i : Z) : Prop := {
  en_regs : Forall (λ n, 0 ≤ n < Z.of_nat MD_TOTAL_REGS) [d_o1 d i; d_o2 d i; d_i1 d i; d_i2 d i; d_i3 d i];
  en_store : Z.land (d_flags d) (Z.lor F_MEM F_STORE) = Z.lor F_MEM F_STORE → d_o1 d i = NA ∧ d_o2 d i = NA ∧ d_res d = WrPort;
  en_res : 0 ≤ d_res d < 12
}.

Lemma entries_ok : Forall (λ d, ∀ i, format_ok (d_format d) i = true → entry_ok d i) machine_def.
Proof.
  unfold machine_def. repeat first [apply List.Forall_nil|apply List.Forall_cons].
  all: intros i Hf; cbn [d_format format_ok] in *; rewrite ?andb_true_iff, ?bool_decide_eq_true in Hf;
    destruct (reg_fields i) as (Hrs & Hrt & Hrd);
    repeat match goal with H : _ ∧ _ |- _ => destruct H end;
    repeat match goal with H : ?a < 32 → _, H' : ?a < 32 |- _ => specialize (H H') end;
    repeat match goal with H : _ ∧ _ |- _ => destruct H end; unfold is_reg in *.
  all: split; cbn [d_o1 d_o2 d_i1 d_i2 d_i3 d_flags d_res]; [|intros E; vm_compute in E; first [discriminate E|by split_and!]|by vm_compute].
  all: repeat (apply List.Forall_cons; [unfold MD_TOTAL_REGS, DGPR, DGPR_D, DFPR_L, DFPR_F, DFPR_D, DHI, DLO, DFCC, NA;
    first [lia|apply even_range; lia]|]); apply List.Forall_nil.
Qed.

Section Isa_ok.
Context (h : host) (fu : list res_desc).
Hypothesis Hsys : ∀ Q i, pm_ok Q (sys_syscall h i).
Hypothesis Hfu : ∀ k, 0 < k < 12 → has_unit fu k.

Lemma def_of_Some n d : def_of n = Some d → 0 < n ∧ machine_def !! Z.to_nat (n - 1) = Some d.
Proof. unfold def_of. case_bool_decide; [done|]. split; [lia|done]. Qed.

Lemma res_ok d i : entry_ok d i → d_res d = NA ∨ has_unit fu (d_res d).
Proof. intros [_ _ H]. destruct (decide (d_res d = NA)) as [|Hn]; [by left|]. right. apply Hfu. unfold NA in Hn. lia. Qed.

Lemma op_num_of n : op_num (op_of n) = n.
Proof. done. Qed.

Lemma pisa_sem_ok i pc : pisa_valid i = true →
  sem_ok (out_ok (pisa h) fu (MD_SET_OPCODE i) pc) (pisa_sem h (MD_SET_OPCODE i) i pc).
Proof.
  unfold pisa_valid, pisa_sem, MD_SET_OPCODE. rewrite !op_num_of. set (n := Z.land _ 255). destruct (def_of n) as [d|] eqn:Hd; intros Hv.
  - pose proof Hd as [Hn Hl]%def_of_Some.
    pose proof (proj1 (Forall_lookup _ _) entries_ok _ _ Hl i Hv) as He. pose proof He as [E1 E2 E3].
    assert (∀ st f, (n = 1 → st_NPC st = u32 (pc + 8)) → out_ok (pisa h) fu (op_of n) pc (finish (op_of n) d i st f)) as Hq.
    { intros st f H1. split; cbn [finish x_op x_out1 x_out2 x_in1 x_in2 x_in3 x_NPC op_num op_of pisa isa_nop_op MD_NOP_OP isa_fuclass]; try done.
      - intros Hn1. change (n = 1) in Hn1. rewrite H1 by done. rewrite Hn1. by split.
      - unfold is_store, has_flags. cbn [op_of MD_OP_FLAGS]. unfold md_op2flags, md_op2fu. rewrite Hd, bool_decide_eq_true.
        intros (-> & -> & ->)%E2. split_and!; [done..|]. apply Hfu. unfold WrPort. lia.
      - unfold md_op2fu. rewrite Hd. by eapply res_ok. }
    destruct (decide (n = 1)) as [Hn1|Hn1].
    + rewrite Hn1 in Hl. injection Hl as <-. cbn [d_impl]. unfold pm_run, NOP_IMPL. constructor. by apply Hq.
    + apply (proj1 (Forall_lookup _ _) (insts_ok _ h (Hsys _)) _ _ Hl i pc Hv); [by intros; apply Hq|].
      intros _ st. constructor. by apply Hq.
  - constructor. split; cbn [x_op x_out1 x_out2 x_in1 x_in2 x_in3 x_NPC]; try done.
    + repeat (apply List.Forall_cons; [unfold MD_TOTAL_REGS, NA; lia|]). apply List.Forall_nil.
    + right. apply Hfu. by vm_compute.
Qed.

Lemma fetch_inst_local pc f g : (∀ a, pc ≤ a < pc + inst_size → f a = g a) → fetch_inst h pc f = fetch_inst h pc g.
Proof.
  intros H. unfold inst_size in H. assert (∀ a, pc ≤ a ≤ pc + 4 → fetch_word h f a = fetch_word h g a) as Hw.
  { intros a Ha. unfold fetch_word. cbn [fmap list_fmap]. rewrite !H by lia. done. }
  unfold fetch_inst. by rewrite !Hw by lia.
Qed.

(** What the core relies on holds of PISA, for any host and system call proxy. *)
Lemma pisa_ok : isa_ok (pisa h) fu.
Proof.
  split.
  - apply pisa_sem_ok.
  - apply fetch_inst_local.
  - split; [done|]. right. apply Hfu. by vm_compute.
  - done.
  - split; [done|]. split; [done|]. right. apply Hfu. by vm_compute.
Qed.
End Isa_ok.
