(* ===== verification/PisaMain.v ===== *)
(** * Properties of the PISA instructions

    Instructions by themselves, on registers and memory as a map of bytes: multiplication bit by
    bit is the product, shifts bit by bit are shifts, accesses of the two halves of an unaligned
    word compose, the overflow tests, the decoder's table, and the dependences that the table
    of instructions declares. *)

From S2P Require Import Prelude Misc Memory MemorySpec Bpred Resource Ruu RuuStages SpecState SpecRegs Isa OooHier Floats Pisa PisaOk.

(** ** Reading and writing registers *)

Definition bank_at (b : bank) (i : nat) (s : seq_state) : Z := default 0 (bank_of b (sq_regs s) !! i).
Definition set_at (b : bank) (i : nat) (v : Z) (s : seq_state) : seq_state :=
  mkSeq (set_bank b (<[i := v]> (bank_of b (sq_regs s))) (sq_regs s)) (sq_mem s).

Record seq_ok (s : seq_state) : Prop := { so_bank b : length (bank_of b (sq_regs s)) = bank_size b }.

Lemma set_at_ok b i v s : seq_ok s → seq_ok (set_at b i v s).
Proof. intros [H]. split. intros b'. pose proof (H b'). destruct b, b'; cbn in *; by rewrite ?length_insert. Qed.

Lemma bank_set_eq b i v s : seq_ok s → (i < bank_size b)%nat → bank_at b i (set_at b i v s) = v.
Proof.
  intros [H] Hi. unfold bank_at, set_at. cbn [sq_regs].
  replace (bank_of b (set_bank b _ (sq_regs s))) with (<[i := v]> (bank_of b (sq_regs s))) by (by destruct b).
  by rewrite list_lookup_insert_eq by (by rewrite H).
Qed.

Lemma bank_set_ne b b' i i' v s : b ≠ b' ∨ i ≠ i' → bank_at b i (set_at b' i' v s) = bank_at b i s.
Proof.
  intros Hne. unfold bank_at, set_at. cbn [sq_regs]. destruct (decide (b = b')) as [->|Hb]; [|by destruct b, b'].
  destruct Hne as [|Hi]; [done|].
  replace (bank_of b' (set_bank b' _ (sq_regs s))) with (<[i' := v]> (bank_of b' (sq_regs s))) by (by destruct b').
  by rewrite list_lookup_insert_ne by done.
Qed.

Lemma set_set_eq b i v w s : set_at b i w (set_at b i v s) = set_at b i w s.
Proof. unfold set_at. cbn [sq_regs sq_mem]. f_equal. destruct b; cbn; by rewrite list_insert_insert_eq. Qed.

Definition gpr (n : Z) (s : seq_state) : Z := i32 (bank_at BankR (Z.to_nat n) s).
Definition set_gpr (n v : Z) (s : seq_state) : seq_state := set_at BankR (Z.to_nat n) (i32 v) s.

Lemma i32_idem z : i32 (i32 z) = i32 z.
Proof. apply i32_small, i32_range. Qed.

Lemma gpr_set_eq n v s : seq_ok s → is_reg n → gpr n (set_gpr n v s) = i32 v.
Proof.
  intros Hs Hn. unfold is_reg in Hn. unfold gpr, set_gpr. rewrite bank_set_eq by (done || (cbn; unfold MD_NUM_IREGS; lia)). apply i32_idem.
Qed.

Lemma gpr_set_ne n n' v s : is_reg n → is_reg n' → n ≠ n' → gpr n (set_gpr n' v s) = gpr n s.
Proof. unfold is_reg. intros H1 H2 Hne. unfold gpr, set_gpr. rewrite bank_set_ne by (right; lia). done. Qed.

(** ** Running the accesses *)

Section Run.
Context (h : host) (fin : pst → md_fault_type → exec_out) (st : pst) (s : seq_state).

Lemma seq_ret {A} (a : A) k : seq_sem ((mret a : pm A) fin st k) s = seq_sem (k a st) s.
Proof. done. Qed.
Lemma seq_bind {A B} (m : pm A) (f : A → pm B) k :
  seq_sem ((m ≫= f) fin st k) s = seq_sem (m fin st (λ a st, f a fin st k)) s.
Proof. done. Qed.
Lemma seq_GPR n k : seq_sem (GPR n fin st k) s = seq_sem (k (gpr n s) st) s.
Proof. done. Qed.
Lemma seq_SET_GPR n v k : seq_sem (SET_GPR n v fin st k) s = seq_sem (k tt st) (set_gpr n v s).
Proof. done. Qed.
Lemma seq_NPC v k : seq_sem (SET_NPC v fin st k) s = seq_sem (k tt (mkPst (u32 v) (st_TPC st) (st_addr st))) s.
Proof. done. Qed.
Lemma seq_TPC v k : seq_sem (SET_TPC v fin st k) s = seq_sem (k tt (mkPst (st_NPC st) (u32 v) (st_addr st))) s.
Proof. done. Qed.
Lemma seq_HI k : seq_sem (HI fin st k) s = seq_sem (k (i32 (bank_at BankC 0 s)) st) s.
Proof. done. Qed.
Lemma seq_LO k : seq_sem (LO fin st k) s = seq_sem (k (i32 (bank_at BankC 1 s)) st) s.
Proof. done. Qed.
Lemma seq_SET_HI v k : seq_sem (SET_HI v fin st k) s = seq_sem (k tt st) (set_at BankC 0 (i32 v) s).
Proof. done. Qed.
Lemma seq_SET_LO v k : seq_sem (SET_LO v fin st k) s = seq_sem (k tt st) (set_at BankC 1 (i32 v) s).
Proof. done. Qed.
Lemma seq_fault_if (b : bool) f k :
  seq_sem (fault_if b f fin st k) s = if b then (fin st f, s) else seq_sem (k tt st) s.
Proof. by destruct b. Qed.

(** An aligned access. *)
Lemma seq_read n k a : (n = 1 ∨ n = 2 ∨ n = 4)%nat → u32 a mod Z.of_nat n = 0 →
  seq_sem (pm_read h n a fin st k) s =
  seq_sem (k (host_of h (region (sq_mem s) (u32 a) n), md_fault_none) (mkPst (st_NPC st) (st_TPC st) (u32 a))) s.
Proof.
  intros Hn Ha. unfold pm_read. cbn [seq_sem seq_step]. rewrite length_replicate. pose proof (u32_range a).
  assert (access_spec (sq_mem s) Read (u32 a) (replicate n 0) (Z.of_nat n) = (md_fault_none, region (sq_mem s) (u32 a) n, sq_mem s)) as ->.
  { destruct Hn as [->|[->| ->]]; [rewrite (access_spec_aligned _ _ _ _ 0)|rewrite (access_spec_aligned _ _ _ _ 1)|rewrite (access_spec_aligned _ _ _ _ 2)]; try done; try lia;
      rewrite drop_replicate; cbn [Nat.sub replicate]; change (Z.to_nat _) with 1%nat || change (Z.to_nat _) with 2%nat || change (Z.to_nat _) with 4%nat; by rewrite app_nil_r. }
  cbn. by destruct s.
Qed.

Lemma seq_write n v k a : (n = 1 ∨ n = 2 ∨ n = 4)%nat → u32 a mod Z.of_nat n = 0 →
  seq_sem (pm_write h n v a fin st k) s =
  seq_sem (k md_fault_none (mkPst (st_NPC st) (st_TPC st) (u32 a))) (mkSeq (sq_regs s) (upd_bytes (sq_mem s) (u32 a) (host_to h n v))).
Proof.
  intros Hn Ha. unfold pm_write. cbn [seq_sem seq_step]. rewrite host_to_length. pose proof (u32_range a).
  assert (access_spec (sq_mem s) Write (u32 a) (host_to h n v) (Z.of_nat n) = (md_fault_none, host_to h n v, upd_bytes (sq_mem s) (u32 a) (host_to h n v))) as ->.
  { pose proof (host_to_length h n v).
    destruct Hn as [->|[->| ->]]; [rewrite (access_spec_aligned _ _ _ _ 0)|rewrite (access_spec_aligned _ _ _ _ 1)|rewrite (access_spec_aligned _ _ _ _ 2)]; try done; try lia;
      rewrite take_ge by (change (Z.to_nat _) with 1%nat || change (Z.to_nat _) with 2%nat || change (Z.to_nat _) with 4%nat; lia); done. }
  done.
Qed.

Lemma seq_check k : seq_sem (check_fault md_fault_none fin st k) s = seq_sem (k tt st) s.
Proof. done. Qed.
End Run.

#[export] Hint Rewrite @seq_ret @seq_bind seq_GPR seq_SET_GPR seq_NPC seq_TPC seq_HI seq_LO seq_SET_HI seq_SET_LO seq_fault_if seq_check : seq.

(** ** Shifts *)

Lemma top_bit_spec x : - 2 ^ 31 ≤ x < 2 ^ 31 → top_bit x = bool_decide (x < 0).
Proof.
  intros Hx. unfold top_bit. rewrite land_pow2_eq0, negb_involutive by lia. unfold u32.
  apply Z.b2z_inj. rewrite Z.testbit_spec' by lia.
  case_bool_decide; cbn [Z.b2z]; Z.div_mod_to_equations; lia.
Qed.

Lemma or_top z : 2 ^ 31 ≤ z < 2 ^ 32 → Z.lor z (2 ^ 31) = z.
Proof.
  intros Hz. assert (z = Z.lor (1 * 2 ^ 31) (z - 2 ^ 31)) as E by (rewrite lor_add by lia; lia).
  rewrite E at 1. rewrite Z.mul_1_l, (Z.lor_comm (2 ^ 31)), <- Z.lor_assoc, Z.lor_diag, Z.lor_comm.
  rewrite <- (Z.mul_1_l (2 ^ 31)) at 1. by rewrite <- E.
Qed.

Lemma shiftr_half x : Z.shiftr x 1 = x / 2.
Proof. by rewrite Z.shiftr_div_pow2. Qed.

Lemma sra_step x : - 2 ^ 31 ≤ x < 0 → i32 (Z.lor (u32 (Z.shiftr x 1)) (2 ^ 31)) = Z.shiftr x 1.
Proof.
  intros Hx. rewrite shiftr_half. assert (u32 (x / 2) = x / 2 + 2 ^ 32) as -> by (unfold u32; Z.div_mod_to_equations; lia).
  rewrite or_top by (Z.div_mod_to_equations; lia). unfold i32. Z.div_mod_to_equations. lia.
Qed.

Lemma seq_sra_loop i n : is_reg (RD i) → ∀ fin st k s, seq_ok s → gpr (RD i) s < 0 →
  seq_sem (sra_loop i n fin st k) s =
  seq_sem (k tt st) (if decide (n = 0%nat) then s else set_gpr (RD i) (Z.shiftr (gpr (RD i) s) (Z.of_nat n)) s).
Proof.
  intros Hr. induction n as [|n IH]; intros fin st k s Hs Hneg; cbn [sra_loop]; [done|].
  autorewrite with seq. cbv beta. pose proof (i32_range (bank_at BankR (Z.to_nat (RD i)) s)) as Hx. fold (gpr (RD i) s) in Hx.
  set (x := gpr (RD i) s) in *. pose proof (sra_step x ltac:(lia)) as Hstep.
  assert (gpr (RD i) (set_gpr (RD i) (Z.lor (u32 (Z.shiftr x 1)) (2 ^ 31)) s) = Z.shiftr x 1) as Hg by (by rewrite gpr_set_eq by done).
  assert (Z.shiftr x 1 < 0) by (rewrite shiftr_half; Z.div_mod_to_equations; lia).
  rewrite IH; [|by apply set_at_ok|by rewrite Hg]. rewrite Hg. f_equal. rewrite (decide_False (P := S n = 0%nat)) by lia.
  rewrite Z.shiftr_shiftr by lia. case_decide as Hn.
  - subst n. unfold set_gpr. rewrite Hstep. change (Z.of_nat 1) with 1. rewrite <- Hstep at 2. by rewrite i32_idem, Hstep.
  - unfold set_gpr. rewrite set_set_eq. do 3 f_equal. lia.
Qed.

(** A host's variant of the arithmetic shift. *)
Lemma seq_sra h i n fin st k s : seq_ok s → is_reg (RD i) → 0 ≤ n < 32 →
  seq_sem (sra h i n fin st k) s = seq_sem (k tt st) (set_gpr (RD i) (Z.shiftr (gpr (RT i) s) n) s).
Proof.
  intros Hs Hr Hn. pose proof (i32_range (bank_at BankR (Z.to_nat (RT i)) s)) as Hx. fold (gpr (RT i) s) in Hx. unfold sra.
  assert (shr h (gpr (RT i) s) n = Z.shiftr (gpr (RT i) s) n) as Hshr by (unfold shr; by rewrite bool_decide_true).
  destruct (FAST_SRA h); autorewrite with seq; cbv beta; [by autorewrite with seq; rewrite Hshr|].
  rewrite top_bit_spec by done. case_bool_decide as Hneg; autorewrite with seq; cbv beta; [|by rewrite Hshr].
  assert (gpr (RD i) (set_gpr (RD i) (gpr (RT i) s) s) = gpr (RT i) s) as Hg by (rewrite gpr_set_eq by done; by apply i32_small).
  rewrite seq_sra_loop; [|done|by apply set_at_ok|by rewrite Hg]. rewrite Hg. f_equal. rewrite Z2Nat.id by lia. case_decide as Hn0.
  - replace n with 0 by lia. by rewrite Z.shiftr_0_r.
  - unfold set_gpr. by rewrite set_set_eq.
Qed.

Lemma srl_spec h x n : - 2 ^ 31 ≤ x < 2 ^ 31 → 0 ≤ n < 32 → i32 (srl h x n) = i32 (Z.shiftr (u32 x) n).
Proof.
  intros Hx Hn. unfold srl, shr. destruct (FAST_SRL h); [by rewrite bool_decide_true|].
  case_bool_decide as Hn0.
  - rewrite bool_decide_true by lia. f_equal. pose proof (u32_range x).
    assert (Z.land (Z.shiftr (u32 x) 1) (Z.lnot (2 ^ 31)) = Z.shiftr (u32 x) 1) as ->.
    { rewrite <- Z.ldiff_land. apply Z.bits_inj'. intros m Hm. rewrite Z.ldiff_spec, Z.pow2_bits_eqb by lia.
      destruct (Z.eqb_spec 31 m) as [<-|]; [|by rewrite andb_true_r]. rewrite andb_false_r. symmetry.
      rewrite Z.shiftr_spec by lia. rewrite <- (Z.mod_small (u32 x) (2 ^ 32)) by done. by apply Z.mod_pow2_bits_high. }
    rewrite Z.shiftr_shiftr by lia. f_equal. lia.
  - assert (n = 0) as -> by lia. rewrite Z.shiftr_0_r. unfold i32, u32. symmetry.
    rewrite Zplus_mod_idemp_l. done.
Qed.

(** ** Multiplication *)

Definition set_hilo (hi lo : Z) (s : seq_state) : seq_state := set_at BankC 0 hi (set_at BankC 1 lo s).
(** The product that HI and LO hold. *)
Definition hilo (hi lo : Z) : Z := 2 ^ 32 * u32 hi + u32 lo.

Lemma set_at_comm b i j v w s : i ≠ j → set_at b i v (set_at b j w s) = set_at b j w (set_at b i v s).
Proof. intros Hne. unfold set_at. cbn [sq_regs sq_mem]. f_equal. destruct b; cbn; by rewrite list_insert_insert_ne. Qed.

Section Hilo.
Context (s : seq_state) (Hs : seq_ok s).

Lemma hilo_HI hi lo : bank_at BankC 0 (set_hilo hi lo s) = hi.
Proof. apply bank_set_eq; [by apply set_at_ok|cbn; unfold MD_NUM_CREGS; lia]. Qed.
Lemma hilo_LO hi lo : bank_at BankC 1 (set_hilo hi lo s) = lo.
Proof. unfold set_hilo. rewrite bank_set_ne by (right; done). apply bank_set_eq; [done|cbn; unfold MD_NUM_CREGS; lia]. Qed.
Lemma hilo_SET_HI hi lo v : set_at BankC 0 v (set_hilo hi lo s) = set_hilo v lo s.
Proof. apply set_set_eq. Qed.
Lemma hilo_SET_LO hi lo v : set_at BankC 1 v (set_hilo hi lo s) = set_hilo hi v s.
Proof. unfold set_hilo. rewrite set_at_comm by done. by rewrite set_set_eq. Qed.
Lemma hilo_gpr hi lo n : gpr n (set_hilo hi lo s) = gpr n s.
Proof. unfold gpr, set_hilo. by rewrite !bank_set_ne by (by left). Qed.
End Hilo.

Lemma u32_i32 z : u32 (i32 z) = u32 z.
Proof. unfold u32, i32. Z.div_mod_to_equations. lia. Qed.

Lemma i32_u32 z : i32 (u32 z) = i32 z.
Proof. unfold i32, u32. by rewrite Zplus_mod_idemp_l. Qed.

Lemma extract_top x : extractl x 31 1 = u32 x / 2 ^ 31.
Proof.
  unfold extractl. change (31 + 1 - 1) with 31. replace (u32 (Z.lnot (Z.shiftl (-1) 1))) with (Z.ones 1) by done.
  rewrite Z.land_ones, Z.shiftr_div_pow2 by lia. pose proof (u32_range x). apply Z.mod_small. Z.div_mod_to_equations. lia.
Qed.

Lemma extract_bit x j : 0 ≤ j < 32 → bool_decide (extractl x j 1 = 1) = Z.testbit (u32 x) j.
Proof.
  intros Hj. unfold extractl. replace (j + 1 - 1) with j by lia. replace (u32 (Z.lnot (Z.shiftl (-1) 1))) with (Z.ones 1) by done.
  rewrite Z.land_ones by lia. change (2 ^ 1) with 2. rewrite <- Z.bit0_mod, Z.shiftr_spec by lia. rewrite Z.add_0_l. by destruct (Z.testbit _ j).
Qed.

(** One round doubles, and adds the second operand. *)
Lemma mult_round hi lo (b : bool) w : 0 ≤ w < 2 ^ 32 → 2 * hilo hi lo + Z.b2z b * w < 2 ^ 64 →
  let hi1 := i32 (i32 (Z.shiftl hi 1) + extractl lo 31 1) in
  let lo1 := i32 (Z.shiftl lo 1) in
  let hi2 := if b && bool_decide (u32 (2 ^ 32 - 1 - u32 lo1) < w) then i32 (hi1 + 1) else hi1 in
  let lo2 := if b then i32 (lo1 + w) else lo1 in
  hilo hi2 lo2 = 2 * hilo hi lo + Z.b2z b * w.
Proof.
  intros Hw Hb. cbv zeta. rewrite extract_top, !Z.shiftl_mul_pow2 by lia. change (2 ^ 1) with 2. unfold hilo in *.
  rewrite u32_i32. pose proof (u32_range hi). pose proof (u32_range lo).
  assert (u32 (lo * 2) = (2 * u32 lo) mod 2 ^ 32) as El by (unfold u32; rewrite Zmult_mod_idemp_r; f_equal; lia).
  assert (u32 (i32 (hi * 2) + u32 lo / 2 ^ 31) = (2 * u32 hi + u32 lo / 2 ^ 31) mod 2 ^ 32) as Eh.
  { change (u32 (i32 (hi * 2) + u32 lo / 2 ^ 31)) with ((i32 (hi * 2) + u32 lo / 2 ^ 31) mod 2 ^ 32).
    rewrite <- Zplus_mod_idemp_l. change (i32 (hi * 2) mod 2 ^ 32) with (u32 (i32 (hi * 2))). rewrite u32_i32.
    unfold u32 at 1. rewrite Zplus_mod_idemp_l. rewrite <- (Zplus_mod_idemp_l (2 * u32 hi)). unfold u32 at 2. rewrite Zmult_mod_idemp_r.
    rewrite Zplus_mod_idemp_l. f_equal. lia. }
  destruct b; cbn [andb Z.b2z] in *.
  - assert (∀ z, u32 (i32 (i32 z + 1)) = (u32 z + 1) mod 2 ^ 32) as E1.
    { intros z. rewrite u32_i32, i32_add_l || rewrite u32_i32. unfold u32 at 1. rewrite <- Zplus_mod_idemp_l. fold (u32 (i32 z)). by rewrite u32_i32. }
    assert (∀ z, u32 (i32 (i32 z + w)) = (u32 z + w) mod 2 ^ 32) as E2.
    { intros z. rewrite u32_i32. unfold u32 at 1. rewrite <- Zplus_mod_idemp_l. fold (u32 (i32 z)). by rewrite u32_i32. }
    rewrite E2, El. rewrite (u32_small (2 ^ 32 - 1 - _)) by (Z.div_mod_to_equations; lia).
    case_bool_decide; rewrite ?E1, ?u32_i32, Eh; Z.div_mod_to_equations; lia.
  - rewrite !u32_i32, El, Eh. Z.div_mod_to_equations. lia.
Qed.

Lemma div_pow_step a n : 0 ≤ a → a / 2 ^ Z.of_nat n = 2 * (a / 2 ^ Z.of_nat (S n)) + Z.b2z (Z.testbit a (Z.of_nat n)).
Proof.
  intros Ha. rewrite Z.testbit_spec' by lia. replace (2 ^ Z.of_nat (S n)) with (2 ^ Z.of_nat n * 2)
    by (rewrite Nat2Z.inj_succ, Z.pow_succ_r by lia; lia).
  rewrite <- Z.div_div by lia. apply Z.div_mod. lia.
Qed.

(** The loop, for operands that it reads. *)
Lemma seq_mult_loop s a w (bit : Z → pm bool) (op2 : pm Z) : seq_ok s → 0 ≤ a < 2 ^ 32 → 0 ≤ u32 w < 2 ^ 32 →
  (∀ j hi lo fin st k, 0 ≤ j < 31 → seq_sem (bit j fin st k) (set_hilo hi lo s) = seq_sem (k (Z.testbit a j) st) (set_hilo hi lo s)) →
  (∀ hi lo fin st k, seq_sem (op2 fin st k) (set_hilo hi lo s) = seq_sem (k w st) (set_hilo hi lo s)) →
  ∀ n hi lo fin st k, (n ≤ 31)%nat → i32 hi = hi → i32 lo = lo → hilo hi lo = a / 2 ^ Z.of_nat n * u32 w →
  ∃ hi' lo', i32 hi' = hi' ∧ i32 lo' = lo' ∧ hilo hi' lo' = a * u32 w ∧
    seq_sem (mult_loop n bit op2 fin st k) (set_hilo hi lo s) = seq_sem (k tt st) (set_hilo hi' lo' s).
Proof.
  intros Hs Ha Hw Hbit Hop n. induction n as [|n IH]; intros hi lo fin st k Hn Hhi Hlo Hv.
  { exists hi, lo. split_and!; [done..| |done]. rewrite Hv. cbn. by rewrite Z.div_1_r. }
  pose proof (div_pow_step a n ltac:(lia)) as Hd. set (b := Z.testbit a (Z.of_nat n)) in *.
  assert (a / 2 ^ Z.of_nat n ≤ a) as Hle by (apply Z.div_le_upper_bound; [lia|]; nia).
  assert (0 ≤ a / 2 ^ Z.of_nat n) as H0 by (apply Z.div_pos; lia).
  assert (2 * hilo hi lo + Z.b2z b * u32 w = a / 2 ^ Z.of_nat n * u32 w) as Hsum by (rewrite Hv, Hd; ring).
  pose proof (mult_round hi lo b (u32 w) Hw ltac:(rewrite Hsum; nia)) as Hround. cbv zeta in Hround. rewrite Hsum in Hround.
  assert (∀ x, i32 (x + u32 w) = i32 (x + w)) as Hwrap.
  { intros x. unfold i32, u32. f_equal. rewrite <- !Z.add_assoc, (Z.add_comm _ (2 ^ 31)), !Z.add_assoc.
    rewrite Zplus_mod_idemp_r. f_equal. lia. }
  cbn [mult_loop]. do 12 (autorewrite with seq; cbv beta; rewrite ?hilo_HI, ?hilo_LO, ?hilo_SET_HI, ?hilo_SET_LO by done).
  rewrite Hhi, Hlo, ?i32_idem, Hbit by lia. fold b. destruct b; cbn [andb] in Hround.
  - do 3 (autorewrite with seq; cbv beta; rewrite ?hilo_HI, ?hilo_LO, ?hilo_SET_HI, ?hilo_SET_LO, ?i32_idem by done).
    rewrite Hop. rewrite Hwrap in Hround. case_bool_decide;
      do 3 (autorewrite with seq; cbv beta; rewrite ?hilo_HI, ?hilo_LO, ?hilo_SET_HI, ?hilo_SET_LO, ?i32_idem by done);
      rewrite Hop; autorewrite with seq; cbv beta; rewrite ?hilo_SET_LO by done; (apply IH; [lia|apply i32_idem..|done]).
  - autorewrite with seq. cbv beta. apply IH; [lia|apply i32_idem..|done].
Qed.

(** The two's complement of the pair. *)
Lemma hilo_neg hi lo :
  let lo1 := i32 (Z.lnot lo) in let hi1 := i32 (Z.lnot hi) in
  let hi2 := if bool_decide (u32 lo1 = 2 ^ 32 - 1) then i32 (hi1 + 1) else hi1 in
  hilo hi2 (i32 (lo1 + 1)) = u64 (- hilo hi lo).
Proof.
  cbv zeta. unfold hilo. rewrite !u32_i32. unfold Z.lnot, u64.
  assert (∀ z, u32 (i32 (i32 (Z.pred (- z)) + 1)) = (- u32 z) mod 2 ^ 32) as E.
  { intros z. rewrite u32_i32. unfold u32 at 1. rewrite <- Zplus_mod_idemp_l. fold (u32 (i32 (Z.pred (- z)))). rewrite u32_i32.
    unfold u32. rewrite Zplus_mod_idemp_l. Z.div_mod_to_equations. lia. }
  assert (∀ z, u32 (Z.pred (- z)) = 2 ^ 32 - 1 - u32 z) as E2.
  { intros z. unfold u32. Z.div_mod_to_equations. lia. }
  assert (u32 (i32 (Z.pred (- lo)) + 1) = (- u32 lo) mod 2 ^ 32) as E3 by (rewrite <- E; by rewrite u32_i32).
  pose proof (u32_range hi). pose proof (u32_range lo).
  rewrite E3, E2. case_bool_decide; rewrite ?E, ?u32_i32, ?E2; Z.div_mod_to_equations; lia.
Qed.

(** The magnitude of an operand, as a word. *)
Lemma magnitude x : - 2 ^ 31 ≤ x < 2 ^ 31 →
  u32 (if top_bit x then i32 (Z.lnot x + 1) else x) = Z.abs x.
Proof.
  intros Hx. rewrite top_bit_spec by done. unfold Z.lnot. case_bool_decide; [rewrite u32_i32|]; unfold u32; Z.div_mod_to_equations; lia.
Qed.

Lemma operand_range x : - 2 ^ 31 ≤ x < 2 ^ 31 → i32 (if top_bit x then i32 (Z.lnot x + 1) else x) = (if top_bit x then i32 (Z.lnot x + 1) else x).
Proof. intros Hx. destruct (top_bit x); [apply i32_idem|by apply i32_small]. Qed.

Lemma top_start a w s : seq_ok s → i32 a = a → i32 w = w →
  hilo 0 (if top_bit a then w else 0) = u32 a / 2 ^ Z.of_nat 31 * u32 w.
Proof.
  intros Hs Ha Hw. assert (- 2 ^ 31 ≤ a < 2 ^ 31) as Hr by (rewrite <- Ha; apply i32_range).
  rewrite top_bit_spec by done. change (Z.of_nat 31) with 31. unfold hilo. case_bool_decide.
  - assert (u32 a / 2 ^ 31 = 1) as -> by (unfold u32; Z.div_mod_to_equations; lia). change (u32 0) with 0. lia.
  - assert (u32 a / 2 ^ 31 = 0) as -> by (unfold u32; Z.div_mod_to_equations; lia). done.
Qed.

Lemma zero_hilo s : set_at BankC 1 0 (set_at BankC 0 0 s) = set_hilo 0 0 s.
Proof. unfold set_hilo. by rewrite set_at_comm. Qed.

Lemma sign_product x y : - 2 ^ 31 ≤ x < 2 ^ 31 → - 2 ^ 31 ≤ y < 2 ^ 31 →
  if xorb (top_bit x) (top_bit y) then x * y ≤ 0 else 0 ≤ x * y < 2 ^ 64.
Proof. intros Hx Hy. rewrite !top_bit_spec by done. do 2 case_bool_decide; cbn; nia. Qed.

(** MULT and MULTU leave the product of the registers in HI and LO. *)
Lemma seq_MULT i fin st k s : seq_ok s → ∃ hi lo,
  seq_sem (MULT_IMPL i fin st k) s = seq_sem (k tt st) (set_hilo hi lo s) ∧
  hilo hi lo = u64 (gpr (RS i) s * gpr (RT i) s).
Proof.
  intros Hs. unfold MULT_IMPL. do 4 (autorewrite with seq; cbv beta). change (i32 0) with 0. rewrite zero_hilo, !hilo_gpr by done.
  set (x := gpr (RS i) s). set (y := gpr (RT i) s).
  assert (- 2 ^ 31 ≤ x < 2 ^ 31 ∧ - 2 ^ 31 ≤ y < 2 ^ 31) as [Hx Hy] by (split; apply i32_range). cbv zeta.
  pose proof (magnitude x Hx) as Hmx. pose proof (magnitude y Hy) as Hmy. pose proof (operand_range x Hx) as Hrx. pose proof (operand_range y Hy) as Hry.
  set (a := if top_bit x then _ else x) in *. set (w := if top_bit y then _ else y) in *. autorewrite with seq.
  assert (∀ k', seq_sem ((if top_bit a then SET_LO w else mret tt) fin st k') (set_hilo 0 0 s) =
    seq_sem (k' tt st) (set_hilo 0 (if top_bit a then w else 0) s)) as ->.
  { intros k'. destruct (top_bit a); autorewrite with seq; [|done]. by rewrite hilo_SET_LO, Hry. }
  cbv beta. autorewrite with seq.
  edestruct (seq_mult_loop s (u32 a) w (λ j, (mret (bool_decide (extractl a j 1 = 1)) : pm bool)) (mret w : pm Z) Hs (u32_range a) (u32_range w))
    as (hi & lo & Hhi & Hlo & Hv & Hrun); [..|rewrite Hrun].
  { intros j hi lo fin' st' k' Hj. by rewrite seq_ret, extract_bit by lia. }
  { done. }
  { reflexivity. }
  { done. }
  { by destruct (top_bit a). }
  { by apply (top_start a w s). }
  cbv beta. rewrite Hmx, Hmy in Hv. destruct (xorb (top_bit x) (top_bit y)) eqn:Hsign.
  - eexists _, _. split.
    { do 8 (autorewrite with seq; cbv beta; rewrite ?hilo_HI, ?hilo_LO, ?hilo_SET_HI, ?hilo_SET_LO, ?i32_idem, ?Hhi, ?Hlo by done).
      instantiate (1 := i32 (i32 (Z.lnot lo) + 1)).
      instantiate (1 := if bool_decide (u32 (i32 (Z.lnot lo)) = 2 ^ 32 - 1) then i32 (i32 (Z.lnot hi) + 1) else i32 (Z.lnot hi)).
      case_bool_decide; do 4 (autorewrite with seq; cbv beta; rewrite ?hilo_HI, ?hilo_LO, ?hilo_SET_HI, ?hilo_SET_LO, ?i32_idem by done); done. }
    pose proof (hilo_neg hi lo) as Hneg. cbv zeta in Hneg. rewrite Hneg, Hv, <- Z.abs_mul. f_equal.
    rewrite Z.abs_neq; [lia|]. pose proof (sign_product x y Hx Hy) as Hp. by rewrite Hsign in Hp.
  - exists hi, lo. split; [done|]. rewrite Hv, <- Z.abs_mul. pose proof (sign_product x y Hx Hy) as Hp. rewrite Hsign in Hp.
    rewrite Z.abs_eq by lia. symmetry. by apply u64_small.
Qed.

Lemma seq_MULTU i fin st k s : seq_ok s → ∃ hi lo,
  seq_sem (MULTU_IMPL i fin st k) s = seq_sem (k tt st) (set_hilo hi lo s) ∧
  hilo hi lo = u32 (gpr (RS i) s) * u32 (gpr (RT i) s).
Proof.
  intros Hs. unfold MULTU_IMPL. do 3 (autorewrite with seq; cbv beta). change (i32 0) with 0. rewrite zero_hilo, !hilo_gpr by done.
  set (x := gpr (RS i) s). set (y := gpr (RT i) s).
  assert (i32 x = x ∧ i32 y = y) as [Hx Hy] by (split; apply i32_idem). autorewrite with seq.
  match goal with |- context [seq_sem (?m fin st ?k') (set_hilo 0 0 s)] =>
    assert (seq_sem (m fin st k') (set_hilo 0 0 s) = seq_sem (k' tt st) (set_hilo 0 (if top_bit x then y else 0) s)) as -> end.
  { destruct (top_bit x); autorewrite with seq; [|done]. cbv beta. autorewrite with seq. rewrite hilo_gpr. fold y. by rewrite hilo_SET_LO, Hy by done. }
  cbv beta.
  edestruct (seq_mult_loop s (u32 x) y (λ j, rs ← GPR (RS i); mret (bool_decide (extractl rs j 1 = 1))) (GPR (RT i) : pm Z) Hs (u32_range x) (u32_range y))
    as (hi & lo & Hhi & Hlo & Hv & Hrun); [..|rewrite Hrun; by exists hi, lo].
  { intros j hi lo fin' st' k' Hj. autorewrite with seq. cbv beta. rewrite hilo_gpr. autorewrite with seq. by rewrite extract_bit by lia. }
  { intros. autorewrite with seq. by rewrite hilo_gpr. }
  { reflexivity. }
  { done. }
  { by destruct (top_bit x). }
  { by apply (top_start x y s). }
Qed.

(** ** Unaligned words *)

(** A mask of [k] bits selects from two words. *)
Lemma merge_bits x y k : 0 ≤ k → Z.lor (Z.land x (2 ^ k - 1)) (Z.land y (Z.lnot (2 ^ k - 1))) = y / 2 ^ k * 2 ^ k + x mod 2 ^ k.
Proof.
  intros Hk. replace (2 ^ k - 1) with (Z.ones k) by (rewrite Z.ones_equiv; lia).
  rewrite <- Z.ldiff_land, Z.land_ones, Z.ldiff_ones_r, Z.shiftl_mul_pow2, Z.shiftr_div_pow2, Z.lor_comm by done.
  apply lor_add; [done|]. apply Z.mod_pos_bound. lia.
Qed.

Section Unaligned.
Context (h : host) (Hcross : MD_CROSS_ENDIAN h = false).

Lemma native_target : target_big h = BYTES_BIG_ENDIAN h.
Proof. unfold target_big. rewrite Hcross. by destruct (BYTES_BIG_ENDIAN h). Qed.

(** Byte [j] of a word, in the order of the host. *)
Definition pos (j : Z) : Z := if BYTES_BIG_ENDIAN h then 3 - j else j.
Definition byte_of (w j : Z) : Z := u8 (w / 2 ^ (8 * pos j)).

Lemma byte_u32 w j : 0 ≤ j < 4 → byte_of (u32 w) j = byte_of w j.
Proof.
  intros Hj. unfold byte_of, pos, u8, u32.
  assert (j = 0 ∨ j = 1 ∨ j = 2 ∨ j = 3) as [->|[->|[->| ->]]] by lia; destruct (BYTES_BIG_ENDIAN h);
    match goal with |- context [2 ^ (8 * ?e)] => let v := eval vm_compute in (2 ^ (8 * e)) in change (2 ^ (8 * e)) with v end; Z.div_mod_to_equations; lia.
Qed.

Lemma word_ext w w' : 0 ≤ w < 2 ^ 32 → 0 ≤ w' < 2 ^ 32 → (∀ j, 0 ≤ j < 4 → byte_of w j = byte_of w' j) → w = w'.
Proof.
  intros Hw Hw' H. pose proof (H 0 ltac:(lia)) as H0. pose proof (H 1 ltac:(lia)) as H1. pose proof (H 2 ltac:(lia)) as H2. pose proof (H 3 ltac:(lia)) as H3.
  unfold byte_of, pos, u8 in *. destruct (BYTES_BIG_ENDIAN h); cbn [Z.sub Z.mul Z.pow] in *;
    repeat match goal with H : context [2 ^ (8 * ?e)] |- _ => let v := eval vm_compute in (2 ^ (8 * e)) in change (2 ^ (8 * e)) with v in H end;
    Z.div_mod_to_equations; lia.
Qed.

(** What the two accesses leave in the register: the first, at the address, the second three
    bytes above. *)
Definition load_first (a w rt : Z) : Z := if BYTES_BIG_ENDIAN h then lwl h a w rt else lwr h a w rt.
Definition load_second (a w rt : Z) : Z := if BYTES_BIG_ENDIAN h then lwr h a w rt else lwl h a w rt.
Definition store_first (a w rt : Z) : Z := if BYTES_BIG_ENDIAN h then swl h a w rt else swr h a w rt.
Definition store_second (a w rt : Z) : Z := if BYTES_BIG_ENDIAN h then swr h a w rt else swl h a w rt.

Ltac byte_cases Hr Hj :=
  unfold byte_of, pos, load_first, load_second, store_first, store_second, lwl, lwr, swl, swr,
    WL_PROT_MASK1, WL_PROT_MASK2, WR_PROT_MASK1, WR_PROT_MASK2, WL_SIZE, WR_SIZE, md_lr_masks, shl, shr;
  rewrite native_target, ?Hr; cbv zeta;
  destruct (BYTES_BIG_ENDIAN h);
  repeat match goal with |- context [bool_decide (0 ≤ ?n < 32)] => rewrite (bool_decide_true (0 ≤ n < 32)) by lia end;
  rewrite ?(Z.lor_comm (Z.land _ (Z.lnot _))), merge_bits by lia;
  rewrite ?Z.shiftl_mul_pow2, ?Z.shiftr_div_pow2 by lia;
  repeat match goal with |- context [bool_decide (?a < ?b)] =>
    first [rewrite (bool_decide_true (a < b)) by lia|rewrite (bool_decide_false (a < b)) by lia] end;
  repeat match goal with |- context [2 ^ ?e] => let v := eval vm_compute in (2 ^ e) in progress change (2 ^ e) with v end;
  unfold u8, u32; Z.div_mod_to_equations; lia.

Ltac small_cases :=
  let Ha := fresh in let Hr := fresh in let Hj := fresh in intros ? Ha Hr Hj;
  repeat (apply elem_of_cons in Hr as [->|Hr]; [|]); [..|by apply elem_of_nil in Hr];
  (repeat (apply elem_of_cons in Hj as [->|Hj]; [|]); [..|by apply elem_of_nil in Hj]); byte_cases Ha Hj.

Lemma load_first_byte a w rt r j : 0 ≤ w < 2 ^ 32 → Z.land a 3 = r → r ∈ [0; 1; 2; 3] → j ∈ [0; 1; 2; 3] →
  byte_of (load_first a w rt) j = if bool_decide (j < 4 - r) then byte_of w (j + r) else byte_of rt j.
Proof. small_cases. Qed.

Lemma load_second_byte a w rt r j : 0 ≤ w < 2 ^ 32 → Z.land a 3 = r → r ∈ [0; 1; 2; 3] → j ∈ [0; 1; 2; 3] →
  byte_of (load_second a w rt) j = if bool_decide (j < 3 - r) then byte_of rt j else byte_of w (j - (3 - r)).
Proof. small_cases. Qed.

Lemma store_first_byte a w rt r j : 0 ≤ w < 2 ^ 32 → Z.land a 3 = r → r ∈ [0; 1; 2; 3] → j ∈ [0; 1; 2; 3] →
  byte_of (store_first a w rt) j = if bool_decide (j < r) then byte_of w j else byte_of rt (j - r).
Proof. small_cases. Qed.

Lemma store_second_byte a w rt r j : 0 ≤ w < 2 ^ 32 → Z.land a 3 = r → r ∈ [0; 1; 2; 3] → j ∈ [0; 1; 2; 3] →
  byte_of (store_second a w rt) j = if bool_decide (r < j) then byte_of w j else byte_of rt (j + (3 - r)).
Proof. small_cases. Qed.
End Unaligned.

(** ** Instructions by their names *)

(** The opcode of the first instruction of that name. *)
Definition opcode (name : string) : Z :=
  match list_find (λ d, d_name d = name) machine_def with Some (n, _) => Z.of_nat n + 1 | None => OP_NA end.

Definition exec (h : host) (i pc : Z) (s : seq_state) : exec_out * seq_state :=
  seq_exec (pisa_sem h (MD_SET_OPCODE i) i pc) s.
Definition is_inst (name : string) (i : Z) : Prop := op_num (MD_SET_OPCODE i) = opcode name.

(** Register 0 is cleared before the instruction. *)
Definition zeroed (s : seq_state) : seq_state := set_at BankR 0 0 s.

(** What an instruction yields, of what it has set. *)
Record yields (op : md_opcode) (fin : pst → md_fault_type → exec_out) : Prop := {
  yi_op st f : x_op (fin st f) = op;
  yi_fault st f : x_fault (fin st f) = f;
  yi_NPC st f : x_NPC (fin st f) = st_NPC st;
  yi_target st f : x_target_PC (fin st f) = st_TPC st;
  yi_addr st f : x_addr (fin st f) = st_addr st
}.

Lemma exec_run name n (f : host → Z → Z → pm unit) h i pc s : is_inst name i → opcode name = 1 + Z.of_nat n →
  d_impl <$> machine_def !! n = Some f →
  ∃ fin, yields (MD_SET_OPCODE i) fin ∧ exec h i pc s = seq_sem (pm_run (f h i pc) fin (mkPst (u32 (pc + 8)) 0 0)) (zeroed s).
Proof.
  intros Hi Hn Hf. apply fmap_Some in Hf as (d & Hd & ->). exists (finish (MD_SET_OPCODE i) d i). split; [by split|].
  unfold exec, pisa_sem, def_of. rewrite Hi, Hn, bool_decide_false by lia.
  replace (Z.to_nat (1 + Z.of_nat n - 1)) with n by lia. by rewrite Hd.
Qed.

(** The instruction of a name: its place in the table is computed. *)
Ltac exec_named name f Hi :=
  let n := eval vm_compute in (Z.to_nat (opcode name - 1)) in
  let fin := fresh "fin" in let Hfin := fresh "Hfin" in
  match goal with |- context [exec ?h ?i ?pc ?s] =>
    destruct (exec_run name n f h i pc s Hi ltac:(vm_compute; reflexivity) ltac:(reflexivity)) as (fin & Hfin & ->) end; cbv beta.

Lemma zeroed_id s : seq_ok s → bank_at BankR 0 s = 0 → zeroed s = s.
Proof.
  intros [H] H0. pose proof (H BankR) as HR. unfold zeroed, set_at, bank_at in *. destruct s as [[R F C] m]. cbn in *.
  destruct R as [|r R]; [done|]. cbn in H0. by subst r.
Qed.

Section Words.
Context (h : host) (Hcross : MD_CROSS_ENDIAN h = false).

Definition word_at (f : Z → Z) (a : Z) : Z := host_of h (region f a 4).
Definition word_base (a : Z) : Z := a / 4 * 4.

Lemma word_at_spec f a : 0 ≤ word_at f a < 2 ^ 32 ∧ ∀ j, j ∈ [0; 1; 2; 3] → byte_of h (word_at f a) j = u8 (f (u32 (a + j))).
Proof.
  unfold word_at, host_of, region. cbn [seq fmap list_fmap rev app]. change (Z.of_nat 0) with 0. change (Z.of_nat 1) with 1. change (Z.of_nat 2) with 2. change (Z.of_nat 3) with 3.
  assert (∀ x, 0 ≤ u8 x < 256) as Hr by (intros; apply Z.mod_pos_bound; lia).
  pose proof (Hr (f (u32 (a + 0)))). pose proof (Hr (f (u32 (a + 1)))). pose proof (Hr (f (u32 (a + 2)))). pose proof (Hr (f (u32 (a + 3)))).
  unfold byte_of, pos. destruct (BYTES_BIG_ENDIAN h); cbn [little_of]; change (2 ^ 8) with 256 in *.
  all: split; [lia|]; intros j Hj; (repeat (apply elem_of_cons in Hj as [->|Hj]; [|]); [..|by apply elem_of_nil in Hj]);
    repeat match goal with |- context [2 ^ ?e] => let v := eval vm_compute in (2 ^ e) in progress change (2 ^ e) with v end;
    match goal with |- u8 ?x = ?y => change (x mod 2 ^ 8 = y); change (2 ^ 8) with 256 end; Z.div_mod_to_equations; lia.
Qed.

Lemma host_to_byte v j : j ∈ [0; 1; 2; 3] → host_to h 4 v !! Z.to_nat j = Some (byte_of h v j).
Proof.
  intros Hj. unfold host_to, byte_of, pos.
  (repeat (apply elem_of_cons in Hj as [->|Hj]; [|]); [..|by apply elem_of_nil in Hj]);
    destruct (BYTES_BIG_ENDIAN h); cbn [little_to rev app Z.to_nat lookup list_lookup]; try change (Pos.to_nat 1) with 1%nat; try change (Pos.to_nat 2) with 2%nat; try change (Pos.to_nat 3) with 3%nat;
    cbn [lookup list_lookup]; f_equal; unfold u8;
    repeat match goal with |- context [2 ^ ?e] => let v := eval vm_compute in (2 ^ e) in progress change (2 ^ e) with v end;
    rewrite ?Z.div_div, ?Z.div_1_r by lia; done.
Qed.

Lemma base_spec a : 0 ≤ a < 2 ^ 32 → WL_BASE a = word_base a ∧ WR_BASE a = word_base a ∧
  u32 (word_base a) = word_base a ∧ word_base a mod 4 = 0.
Proof.
  intros Ha. unfold WL_BASE, WR_BASE, word_base. change (Z.lnot 3) with (Z.lnot (Z.ones 2)).
  rewrite <- Z.ldiff_land, Z.ldiff_ones_r, Z.shiftl_mul_pow2, Z.shiftr_div_pow2 by lia. change (2 ^ 2) with 4.
  split_and!; [done..|apply u32_small; Z.div_mod_to_equations; lia|apply Z.mod_mul; lia].
Qed.


Lemma seq_READ_WORD fin st k s a : 0 ≤ a < 2 ^ 32 →
  seq_sem (READ_WORD h (word_base a) fin st k) s =
  seq_sem (k (word_at (sq_mem s) (word_base a), md_fault_none) (mkPst (st_NPC st) (st_TPC st) (word_base a))) s.
Proof.
  intros Ha. destruct (base_spec a Ha) as (_ & _ & H1 & H2). unfold READ_WORD. rewrite seq_bind, seq_read, H1 by (rewrite ?H1; auto).
  cbv beta iota. unfold MD_SWAPW. by rewrite Hcross, seq_ret.
Qed.

Lemma seq_WRITE_WORD fin st k s v a : 0 ≤ a < 2 ^ 32 →
  seq_sem (WRITE_WORD h v (word_base a) fin st k) s =
  seq_sem (k md_fault_none (mkPst (st_NPC st) (st_TPC st) (word_base a)))
    (mkSeq (sq_regs s) (upd_bytes (sq_mem s) (word_base a) (host_to h 4 v))).
Proof.
  intros Ha. destruct (base_spec a Ha) as (_ & _ & H1 & H2). unfold WRITE_WORD, MD_SWAPW. rewrite Hcross.
  by rewrite seq_write, H1 by (rewrite ?H1; auto).
Qed.

(** The address of a displaced access. *)
Definition disp_addr (i : Z) (s : seq_state) : Z := u32 (gpr (BS i) s + OFS i).

Lemma seq_LWx (base : Z → Z) (merge : Z → Z → Z → Z) i fin st k s : (∀ a, 0 ≤ a < 2 ^ 32 → base a = word_base a) →
  let a := disp_addr i s in
  seq_sem ((temp_bs ← GPR (BS i); let a := u32 (temp_bs + OFS i) in
            '(lr_temp, fault) ← READ_WORD h (base a); check_fault fault;;
            rt ← GPR (RT i); SET_GPR (RT i) (merge a lr_temp rt) : pm unit) fin st k) s =
  seq_sem (k tt (mkPst (st_NPC st) (st_TPC st) (word_base a)))
    (set_gpr (RT i) (merge a (word_at (sq_mem s) (word_base a)) (gpr (RT i) s)) s).
Proof.
  intros Hb a. autorewrite with seq. cbv beta zeta. fold (disp_addr i s). fold a. assert (0 ≤ a < 2 ^ 32) as Ha by apply u32_range.
  rewrite Hb by done. rewrite ?seq_bind, seq_READ_WORD by done. cbv beta iota. by autorewrite with seq.
Qed.

Lemma seq_SWx (base : Z → Z) (merge : Z → Z → Z → Z) i fin st k s : (∀ a, 0 ≤ a < 2 ^ 32 → base a = word_base a) →
  let a := disp_addr i s in
  seq_sem ((a ← ea_disp i; let a := u32 a in
            '(lr_temp, fault) ← READ_WORD h (base a); check_fault fault;;
            rt ← GPR (RT i); fault ← WRITE_WORD h (u32 (merge a lr_temp rt)) (base a); check_fault fault : pm unit) fin st k) s =
  seq_sem (k tt (mkPst (st_NPC st) (st_TPC st) (word_base a)))
    (mkSeq (sq_regs s) (upd_bytes (sq_mem s) (word_base a) (host_to h 4 (u32 (merge a (word_at (sq_mem s) (word_base a)) (gpr (RT i) s)))))).
Proof.
  intros Hb a. unfold ea_disp. autorewrite with seq. cbv beta zeta. autorewrite with seq. cbv beta. fold (disp_addr i s). fold a.
  assert (0 ≤ a < 2 ^ 32) as Ha by apply u32_range. rewrite Hb by done. rewrite ?seq_bind, seq_READ_WORD by done. cbv beta iota.
  autorewrite with seq. cbv beta. autorewrite with seq. cbv beta. rewrite seq_WRITE_WORD by done. cbv beta. by rewrite seq_check.
Qed.

(** The names of the two accesses of each kind, lower address first. *)
Definition first_load : string := if BYTES_BIG_ENDIAN h then "lwl" else "lwr".
Definition second_load : string := if BYTES_BIG_ENDIAN h then "lwr" else "lwl".
Definition first_store : string := if BYTES_BIG_ENDIAN h then "swl" else "swr".
Definition second_store : string := if BYTES_BIG_ENDIAN h then "swr" else "swl".

Lemma WL_range a : 0 ≤ a < 2 ^ 32 → WL_BASE a = word_base a.
Proof. intros Ha. by destruct (base_spec a Ha). Qed.
Lemma WR_range a : 0 ≤ a < 2 ^ 32 → WR_BASE a = word_base a.
Proof. intros Ha. by destruct (base_spec a Ha) as (_ & ? & _). Qed.

Lemma exec_load (second : bool) i pc s : zeroed s = s → is_inst (if second then second_load else first_load) i →
  let a := disp_addr i s in
  x_fault (exec h i pc s).1 = md_fault_none ∧ (exec h i pc s).2 =
    set_gpr (RT i) ((if second then load_second h else load_first h) a (word_at (sq_mem s) (word_base a)) (gpr (RT i) s)) s.
Proof.
  intros Hz Hi a. unfold second_load, first_load, load_second, load_first in *.
  assert (∀ b : bool, is_inst (if b then "lwl" else "lwr") i → x_fault (exec h i pc s).1 = md_fault_none ∧
    (exec h i pc s).2 = set_gpr (RT i) ((if b then lwl h else lwr h) a (word_at (sq_mem s) (word_base a)) (gpr (RT i) s)) s) as H.
  { intros [] Hn; [exec_named "lwl" (λ h i (_ : Z), LWL_IMPL h i) Hn|exec_named "lwr" (λ h i (_ : Z), LWR_IMPL h i) Hn]; rewrite Hz;
      unfold pm_run, LWL_IMPL, LWR_IMPL.
    - rewrite (seq_LWx WL_BASE (lwl h) i) by apply WL_range. cbn [seq_sem fst snd]. by rewrite (yi_fault _ _ Hfin).
    - rewrite (seq_LWx WR_BASE (lwr h) i) by apply WR_range. cbn [seq_sem fst snd]. by rewrite (yi_fault _ _ Hfin). }
  destruct (BYTES_BIG_ENDIAN h), second; [apply (H false Hi)|apply (H true Hi)|apply (H true Hi)|apply (H false Hi)].
Qed.
End Words.
(** ** Unaligned words: memory *)

Section Roundtrip.
Context (h : host) (Hcross : MD_CROSS_ENDIAN h = false).

Lemma land3 a : Z.land a 3 = a mod 4 ∧ a = word_base a + a mod 4.
Proof.
  change 3 with (Z.ones 2). rewrite Z.land_ones by lia. change (2 ^ 2) with 4. split; [done|].
  unfold word_base. pose proof (Z.div_mod a 4). lia.
Qed.

Lemma small4 j : 0 ≤ j < 4 → j ∈ [0; 1; 2; 3].
Proof. intros Hj. assert (j = 0 ∨ j = 1 ∨ j = 2 ∨ j = 3) as [->|[->|[->| ->]]] by lia; repeat constructor. Qed.

(** A word written at an aligned address. *)
Lemma upd_word f b w a : 0 ≤ a < 2 ^ 32 →
  u8 (upd_bytes f b (host_to h 4 w) a) = if bool_decide (u32 (a - b) < 4) then byte_of h w (u32 (a - b)) else u8 (f a).
Proof.
  intros Ha. unfold upd_bytes. pose proof (u32_range (a - b)). case_bool_decide as Hj.
  - rewrite host_to_byte by (apply small4; lia). cbn [default]. unfold byte_of, u8, id. by rewrite Z.mod_mod by done.
  - rewrite lookup_ge_None_2 by (rewrite host_to_length; lia). done.
Qed.

Lemma word_byte f b j : 0 ≤ j < 4 → byte_of h (word_at h f b) j = u8 (f (u32 (b + j))).
Proof. intros Hj. destruct (word_at_spec h f b) as [_ H]. apply H. by apply small4. Qed.

Lemma u32_back a b : 0 ≤ a < 2 ^ 32 → u32 (b + u32 (a - b)) = a.
Proof. intros Ha. unfold u32. rewrite Zplus_mod_idemp_r. replace (b + (a - b)) with a by lia. by apply Z.mod_small. Qed.

Lemma u32_from a p r : 0 ≤ r < 4 → u32 (a - (p - r)) = u32 (u32 (a - p) + r).
Proof. intros Hr. unfold u32. rewrite Zplus_mod_idemp_l. f_equal. lia. Qed.

Ltac byte_side := solve [done|apply word_at_spec|apply small4; lia|lia].

Definition after_first (f : Z → Z) (p v : Z) : Z → Z :=
  upd_bytes f (word_base p) (host_to h 4 (u32 (store_first h p (word_at h f (word_base p)) v))).
Definition after_second (f : Z → Z) (p v : Z) : Z → Z :=
  upd_bytes f (word_base p) (host_to h 4 (u32 (store_second h p (word_at h f (word_base p)) v))).

Lemma after_first_byte f p v a : 0 ≤ p < 2 ^ 32 → 0 ≤ a < 2 ^ 32 →
  u8 (after_first f p v a) = if bool_decide (u32 (a - p) < 4 - p mod 4) then byte_of h v (u32 (a - p)) else u8 (f a).
Proof.
  intros Hp Ha. destruct (land3 p) as [Hl Hb]. assert (0 ≤ p mod 4 < 4) as Hr by (apply Z.mod_pos_bound; lia).
  unfold after_first. rewrite upd_word by done.
  assert (u32 (a - word_base p) = u32 (u32 (a - p) + p mod 4)) as -> by (rewrite <- u32_from by done; f_equal; lia).
  pose proof (u32_range (a - p)) as Hk. set (k := u32 (a - p)) in *.
  destruct (decide (k + p mod 4 < 2 ^ 32)) as [Hsm|Hbig].
  - rewrite u32_small by lia. case_bool_decide as H4.
    + rewrite byte_u32, (store_first_byte h Hcross _ _ _ (p mod 4)) by byte_side.
      rewrite bool_decide_false, bool_decide_true by lia. f_equal. lia.
    + by rewrite bool_decide_false by lia.
  - assert (u32 (k + p mod 4) = k + p mod 4 - 2 ^ 32) as Hw by (unfold u32; symmetry; apply Zmod_unique with 1; lia).
    rewrite Hw, (bool_decide_false (k < _)) by lia. rewrite bool_decide_true by lia.
    rewrite byte_u32, (store_first_byte h Hcross _ _ _ (p mod 4)) by byte_side.
    rewrite bool_decide_true, word_byte by lia. f_equal. f_equal. transitivity (u32 (p + k)); [|by apply u32_back]. unfold u32. replace (word_base p + _) with (p + k + (-1) * 2 ^ 32) by lia. by rewrite Z.mod_add by lia.
Qed.

Lemma after_second_byte f p v a : 0 ≤ p < 2 ^ 32 → 0 ≤ a < 2 ^ 32 → let q := u32 (p + 3) in
  u8 (after_second f q v a) = if bool_decide (3 - q mod 4 ≤ u32 (a - p) < 4) then byte_of h v (u32 (a - p)) else u8 (f a).
Proof.
  intros Hp Ha q. destruct (land3 q) as [Hl Hb]. assert (0 ≤ q mod 4 < 4) as Hr by (apply Z.mod_pos_bound; lia).
  unfold after_second. rewrite upd_word by done. pose proof (u32_range (a - p)) as Hk. set (k := u32 (a - p)) in *.
  assert (0 ≤ q < 2 ^ 32) as Hq by apply u32_range. destruct (base_spec q Hq) as (_ & _ & Hu & _). pose proof (u32_range (word_base q)).
  assert (u32 (a - word_base q) = u32 (k - (3 - q mod 4))) as ->.
  { replace (word_base q) with (q - q mod 4) by lia. unfold k, q at 1, u32. rewrite Zminus_mod_idemp_l.
    replace (a - ((p + 3) mod 2 ^ 32 - q mod 4)) with (a + q mod 4 - (p + 3) mod 2 ^ 32) by lia. rewrite Zminus_mod_idemp_r. f_equal. lia. }
  destruct (decide (3 - q mod 4 ≤ k)) as [Hsm|Hlt].
  - rewrite u32_small by lia. case_bool_decide as H4.
    + rewrite byte_u32, (store_second_byte h Hcross _ _ _ (q mod 4)) by byte_side.
      destruct (decide (k < 4)) as [Hk4|Hk4].
      * rewrite bool_decide_false, bool_decide_true by lia. f_equal. lia.
      * rewrite bool_decide_true, bool_decide_false, word_byte by lia. f_equal. f_equal.
        transitivity (u32 (p + k)); [|by apply u32_back]. replace (word_base q) with (q - q mod 4) by lia. unfold q at 1, u32.
        replace (_ + _) with ((p + 3) mod 2 ^ 32 + (k - 3)) by lia. rewrite Zplus_mod_idemp_l. f_equal. lia.
    + by rewrite bool_decide_false by lia.
  - assert (u32 (k - (3 - q mod 4)) = k - (3 - q mod 4) + 2 ^ 32) as -> by (unfold u32; symmetry; apply Zmod_unique with (-1); lia).
    by rewrite (bool_decide_false (_ < 4)), bool_decide_false by lia.
Qed.

(** Both stores write the bytes of the register. *)
Lemma stores_bytes f p v a : 0 ≤ p < 2 ^ 32 → 0 ≤ a < 2 ^ 32 →
  u8 (after_second (after_first f p v) (u32 (p + 3)) v a) = u8 (upd_bytes f p (host_to h 4 v) a).
Proof.
  intros Hp Ha. rewrite after_second_byte, after_first_byte, upd_word by done. pose proof (u32_range (a - p)).
  assert (u32 (p + 3) mod 4 = (p + 3) mod 4) as -> by (unfold u32; Z.div_mod_to_equations; lia).
  assert (0 ≤ (p + 3) mod 4 < 4 ∧ (p mod 4 = 0 → (p + 3) mod 4 = 3) ∧ 0 ≤ p mod 4 ∧ (p mod 4 ≠ 0 → (p + 3) mod 4 = p mod 4 - 1))
    as (? & ? & ? & ?) by (Z.div_mod_to_equations; lia).
  repeat case_bool_decide; try done; destruct (decide (p mod 4 = 0)); lia.
Qed.

(** Both loads read the bytes of memory. *)
Definition loaded (f : Z → Z) (p rt : Z) : Z :=
  load_second h (u32 (p + 3)) (word_at h f (word_base (u32 (p + 3)))) (i32 (load_first h p (word_at h f (word_base p)) rt)).

Lemma byte_i32 w j : 0 ≤ j < 4 → byte_of h (i32 w) j = byte_of h w j.
Proof. intros Hj. rewrite <- (byte_u32 _ (i32 w)), u32_i32 by done. by apply byte_u32. Qed.

Lemma loads_bytes f p rt j : 0 ≤ p < 2 ^ 32 → 0 ≤ j < 4 → byte_of h (loaded f p rt) j = u8 (f (u32 (p + j))).
Proof.
  intros Hp Hj. unfold loaded. set (q := u32 (p + 3)). destruct (land3 q) as [Hl Hb], (land3 p) as [Hl' Hb'].
  assert (0 ≤ p mod 4 < 4) as Hr by (apply Z.mod_pos_bound; lia). assert (0 ≤ q mod 4 < 4) as Hr' by (apply Z.mod_pos_bound; lia).
  assert (q mod 4 = (p + 3) mod 4) as Hq by (unfold q, u32; Z.div_mod_to_equations; lia).
  assert ((p mod 4 = 0 → (p + 3) mod 4 = 3) ∧ (p mod 4 ≠ 0 → (p + 3) mod 4 = p mod 4 - 1)) as [? ?] by (Z.div_mod_to_equations; lia).
  rewrite (load_second_byte h Hcross _ _ _ (q mod 4)) by byte_side.
  case_bool_decide as H1.
  - rewrite byte_i32, (load_first_byte h Hcross _ _ _ (p mod 4)) by byte_side.
    rewrite bool_decide_true by (destruct (decide (p mod 4 = 0)); lia). rewrite word_byte by (destruct (decide (p mod 4 = 0)); lia). do 3 f_equal. lia.
  - rewrite word_byte by lia. do 2 f_equal. replace (word_base q) with (q - q mod 4) by lia. unfold q at 1, u32.
    replace (_ + _) with ((p + 3) mod 2 ^ 32 + (j - 3)) by lia. rewrite Zplus_mod_idemp_l. f_equal. lia.
Qed.

Lemma byte_ext w w' : (∀ j, 0 ≤ j < 4 → byte_of h w j = byte_of h w' j) → i32 w = i32 w'.
Proof.
  intros H. rewrite <- (i32_u32 w), <- (i32_u32 w'). f_equal. apply (word_ext h); try apply u32_range.
  intros j Hj. rewrite !byte_u32 by done. by apply H.
Qed.
End Roundtrip.

Lemma exec_store h (Hcross : MD_CROSS_ENDIAN h = false) (second : bool) i pc s :
  zeroed s = s → is_inst (if second then second_store h else first_store h) i →
  let a := disp_addr i s in
  x_fault (exec h i pc s).1 = md_fault_none ∧
  (exec h i pc s).2 = mkSeq (sq_regs s) ((if second then after_second h else after_first h) (sq_mem s) a (gpr (RT i) s)).
Proof.
  intros Hz Hi a. unfold after_first, after_second, second_store, first_store, store_second, store_first in *.
  assert (∀ b : bool, is_inst (if b then "swl" else "swr") i → x_fault (exec h i pc s).1 = md_fault_none ∧
    (exec h i pc s).2 = mkSeq (sq_regs s) (upd_bytes (sq_mem s) (word_base a)
      (host_to h 4 (u32 ((if b then swl h else swr h) a (word_at h (sq_mem s) (word_base a)) (gpr (RT i) s)))))) as H.
  { intros [] Hn; [exec_named "swl" (λ h i (_ : Z), SWL_IMPL h i) Hn|exec_named "swr" (λ h i (_ : Z), SWR_IMPL h i) Hn]; rewrite Hz;
      unfold pm_run, SWL_IMPL, SWR_IMPL.
    - rewrite (seq_SWx h Hcross WL_BASE (swl h) i) by apply WL_range. cbn [seq_sem fst snd]. by rewrite (yi_fault _ _ Hfin).
    - rewrite (seq_SWx h Hcross WR_BASE (swr h) i) by apply WR_range. cbn [seq_sem fst snd]. by rewrite (yi_fault _ _ Hfin). }
  destruct (BYTES_BIG_ENDIAN h), second; [apply (H false Hi)|apply (H true Hi)|apply (H true Hi)|apply (H false Hi)].
Qed.

(** Instructions in a row, with what each yields. *)
Fixpoint execs (h : host) (l : list Z) (pc : Z) (s : seq_state) : list md_fault_type * seq_state :=
  match l with
  | [] => ([], s)
  | i :: l => let '(x, s) := exec h i pc s in let '(fs, s) := execs h l (pc + 8) s in (x_fault x :: fs, s)
  end.

Lemma zeroed_gpr n v s : is_reg n → n ≠ 0 → zeroed s = s → zeroed (set_gpr n v s) = set_gpr n v s.
Proof.
  unfold is_reg. intros Hn H0 Hz. rewrite <- Hz at 2. unfold zeroed, set_gpr. apply set_at_comm. lia.
Qed.

Lemma zeroed_regs s s' : zeroed s = s → sq_regs s' = sq_regs s → zeroed s' = s'.
Proof.
  intros Hz Hr. apply (f_equal sq_regs) in Hz. unfold zeroed, set_at in *. cbn [sq_regs] in Hz.
  rewrite Hr, Hz, <- Hr. by destruct s'.
Qed.

(** C32: On a host whose byte order is the target's, either one, with a destination that is neither register 0 nor the base, a word stored at any address, aligned or not, by the two instructions that store its parts and
    loaded back by the two that load them is the word; its bytes go to the four addresses in the order of
    the host, and no other byte changes. *)
Theorem unaligned_roundtrip h i1 i2 i3 i4 pc s : MD_CROSS_ENDIAN h = false → seq_ok s → bank_at BankR 0 s = 0 →
  is_inst (first_store h) i1 → is_inst (second_store h) i2 → is_inst (first_load h) i3 → is_inst (second_load h) i4 →
  RT i2 = RT i1 → RT i4 = RT i3 → BS i2 = BS i1 → BS i3 = BS i1 → BS i4 = BS i1 →
  OFS i2 = OFS i1 + 3 → OFS i3 = OFS i1 → OFS i4 = OFS i1 + 3 →
  is_reg (RT i3) → is_reg (BS i1) → RT i3 ≠ 0 → RT i3 ≠ BS i1 →
  let '(faults, s') := execs h [i1; i2; i3; i4] pc s in
  let p := disp_addr i1 s in
  faults = replicate 4 md_fault_none ∧ gpr (RT i3) s' = gpr (RT i1) s ∧
  ∀ a, 0 ≤ a < 2 ^ 32 → u8 (sq_mem s' a) = u8 (upd_bytes (sq_mem s) p (host_to h 4 (gpr (RT i1) s)) a).
Proof.
  intros Hc Hs H0 I1 I2 I3 I4 T2 T4 B2 B3 B4 O2 O3 O4 Rt Rb Hne0 Hneb. pose proof (zeroed_id s Hs H0) as Hz.
  set (p := disp_addr i1 s). set (v := gpr (RT i1) s). assert (0 ≤ p < 2 ^ 32) as Hp by apply u32_range.
  assert (∀ i s', BS i = BS i1 → gpr (BS i1) s' = gpr (BS i1) s → (OFS i = OFS i1 → disp_addr i s' = p) ∧ (OFS i = OFS i1 + 3 → disp_addr i s' = u32 (p + 3))) as Haddr.
  { intros i s' Hb Hg. unfold p, disp_addr. rewrite Hb, Hg. split; intros ->; [done|]. unfold u32. rewrite Zplus_mod_idemp_l. f_equal. lia. }
  cbn [execs].
  destruct (exec h i1 pc s) as [x1 s1] eqn:E1. destruct (exec_store h Hc false i1 pc s Hz I1) as [F1 G1]. rewrite E1 in F1, G1. cbn [fst snd] in F1, G1.
  assert (sq_regs s1 = sq_regs s) as R1 by (by rewrite G1). assert (zeroed s1 = s1) as Hz1 by (by apply (zeroed_regs s)).
  destruct (exec h i2 (pc + 8) s1) as [x2 s2] eqn:E2. destruct (exec_store h Hc true i2 (pc + 8) s1 Hz1 I2) as [F2 G2]. rewrite E2 in F2, G2. cbn [fst snd] in F2, G2.
  assert (sq_regs s2 = sq_regs s) as R2 by (by rewrite G2). assert (zeroed s2 = s2) as Hz2 by (by apply (zeroed_regs s)).
  destruct (exec h i3 (pc + 8 + 8) s2) as [x3 s3] eqn:E3. destruct (exec_load h Hc false i3 (pc + 8 + 8) s2 Hz2 I3) as [F3 G3]. rewrite E3 in F3, G3. cbn [fst snd] in F3, G3.
  assert (zeroed s3 = s3) as Hz3 by (rewrite G3; apply zeroed_gpr; assumption).
  destruct (exec h i4 (pc + 8 + 8 + 8) s3) as [x4 s4] eqn:E4. destruct (exec_load h Hc true i4 (pc + 8 + 8 + 8) s3 Hz3 I4) as [F4 G4]. rewrite E4 in F4, G4. cbn [fst snd] in F4, G4.
  cbn [execs]. split; [by rewrite F1, F2, F3, F4|].
  assert (∀ n s', sq_regs s' = sq_regs s → gpr n s' = gpr n s) as Hg by (intros n s' Hr; unfold gpr, bank_at; by rewrite Hr).
  assert (sq_mem s2 = after_second h (after_first h (sq_mem s) p v) (u32 (p + 3)) v) as M2.
  { rewrite G2. cbn [sq_mem]. rewrite (proj2 (Haddr i2 s1 B2 (Hg _ _ R1)) O2), T2, (Hg _ _ R1), G1. cbn [sq_mem]. by rewrite (proj1 (Haddr i1 s eq_refl eq_refl) eq_refl). }
  assert (seq_ok s2) as Hs2 by (destruct Hs as [Hb]; split; intros b; by rewrite R2).
  assert (sq_mem s4 = sq_mem s2) as M4 by (rewrite G4; cbn; by rewrite G3).
  assert (∀ a, 0 ≤ a < 2 ^ 32 → u8 (sq_mem s2 a) = u8 (upd_bytes (sq_mem s) p (host_to h 4 v) a)) as Hmem.
  { intros a Ha. rewrite M2. by apply stores_bytes. }
  split; [|intros a Ha; rewrite M4; by apply Hmem].
  assert (gpr (BS i1) s3 = gpr (BS i1) s) as Hb3.
  { rewrite G3, gpr_set_ne by (done || congruence). by apply Hg. }
  assert (seq_ok s3) as Hs3 by (rewrite G3; by apply set_at_ok).
  rewrite G4, T4, gpr_set_eq by done. rewrite (proj2 (Haddr i4 s3 B4 Hb3) O4).
  assert (gpr (RT i3) s3 = i32 (load_first h p (word_at h (sq_mem s2) (word_base p)) (gpr (RT i3) s2))) as ->.
  { rewrite G3, gpr_set_eq by done. by rewrite (proj1 (Haddr i3 s2 B3 (Hg _ _ R2)) O3). }
  replace (sq_mem s3) with (sq_mem s2) by (by rewrite G3). fold (loaded h (sq_mem s2) p (gpr (RT i3) s2)).
  transitivity (i32 v); [|apply i32_idem]. apply (byte_ext h). intros j Hj. rewrite loads_bytes, Hmem, upd_word by (done || apply u32_range).
  assert (u32 (u32 (p + j) - p) = j) as ->.
  { unfold u32. rewrite Zminus_mod_idemp_l. replace (p + j - p) with j by lia. apply Z.mod_small. lia. }
  by rewrite bool_decide_true by lia.
Qed.

(** ** Multiplication and shifts, as instructions *)

Lemma zeroed_ok s : seq_ok s → seq_ok (zeroed s).
Proof. apply set_at_ok. Qed.

(** C33: The multiplications, which work bit by bit, leave the 64 bits of the product of the two registers
    in HI and LO, signed or unsigned, and change nothing else. *)
Theorem mult_product h (signed : bool) i pc s : seq_ok s → is_inst (if signed then "mult" else "multu") i →
  let '(x, s') := exec h i pc s in
  let value n := if signed then gpr n (zeroed s) else u32 (gpr n (zeroed s)) in
  x_fault x = md_fault_none ∧ ∃ hi lo, s' = set_hilo hi lo (zeroed s) ∧ hilo hi lo = (value (RS i) * value (RT i)) mod 2 ^ 64.
Proof.
  intros Hs Hi. pose proof (zeroed_ok s Hs) as Hz. cbv zeta. destruct signed.
  - exec_named "mult" (λ (_ : host) i (_ : Z), MULT_IMPL i) Hi. unfold pm_run.
    match goal with |- context [MULT_IMPL i fin ?st ?k] => destruct (seq_MULT i fin st k (zeroed s) Hz) as (hi & lo & -> & Hv) end.
    cbn [seq_sem]. rewrite (yi_fault _ _ Hfin). split; [done|]. exists hi, lo. by split.
  - exec_named "multu" (λ (_ : host) i (_ : Z), MULTU_IMPL i) Hi. unfold pm_run.
    match goal with |- context [MULTU_IMPL i fin ?st ?k] => destruct (seq_MULTU i fin st k (zeroed s) Hz) as (hi & lo & -> & Hv) end.
    cbn [seq_sem]. rewrite (yi_fault _ _ Hfin). split; [done|]. exists hi, lo. split; [done|]. rewrite Hv. symmetry. apply Z.mod_small.
    pose proof (u32_range (gpr (RS i) (zeroed s))). pose proof (u32_range (gpr (RT i) (zeroed s))). nia.
Qed.

Definition shift_name (arith variable : bool) : string :=
  match arith, variable with
  | false, false => "srl" | false, true => "srlv" | true, false => "sra" | true, true => "srav"
  end.

Lemma land31 x : Z.land x 31 = x mod 32 ∧ 0 ≤ x mod 32 < 32.
Proof. change 31 with (Z.ones 5). rewrite Z.land_ones by lia. split; [done|]. apply Z.mod_pos_bound. lia. Qed.

(** C34: On a host with fast shifts and on one that shifts bit by bit, right shifts divide the register by
    a power of two, rounding down: as an unsigned number, or as a signed one. *)
Theorem shift_variants h (arith variable : bool) i pc s :
  seq_ok s → is_reg (RD i) → is_inst (shift_name arith variable) i → (variable = false → SHAMT i < 32) →
  let n := if variable then gpr (RS i) (zeroed s) mod 32 else SHAMT i in
  let x := gpr (RT i) (zeroed s) in
  x_fault (exec h i pc s).1 = md_fault_none ∧
  (exec h i pc s).2 = set_gpr (RD i) ((if arith then x else u32 x) / 2 ^ n) (zeroed s).
Proof.
  intros Hs Hr Hi Hv. pose proof (zeroed_ok s Hs) as Hz. pose proof (i32_range (bank_at BankR (Z.to_nat (RT i)) (zeroed s))) as Hx.
  fold (gpr (RT i) (zeroed s)) in Hx. destruct (land31 (gpr (RS i) (zeroed s))) as [Hl Hlr].
  assert (0 ≤ SHAMT i) as H0 by (apply Z.land_nonneg; right; lia).
  destruct arith, variable; cbn [shift_name] in Hi; cbv zeta; rewrite <- Z.shiftr_div_pow2 by (done || lia).
  - exec_named "srav" (λ h i (_ : Z), SRAV_IMPL h i) Hi. unfold pm_run, SRAV_IMPL. autorewrite with seq. cbv beta.
    rewrite Hl, (seq_sra h i) by done. cbn [seq_sem fst snd]. by rewrite (yi_fault _ _ Hfin).
  - exec_named "sra" (λ h i (_ : Z), SRA_IMPL h i) Hi. unfold pm_run, SRA_IMPL.
    rewrite (seq_sra h i) by (done || split; auto). cbn [seq_sem fst snd]. by rewrite (yi_fault _ _ Hfin).
  - exec_named "srlv" (λ h i (_ : Z), SRLV_IMPL h i) Hi. unfold pm_run, SRLV_IMPL. do 3 (autorewrite with seq; cbv beta).
    cbn [seq_sem fst snd]. rewrite (yi_fault _ _ Hfin). split; [done|]. unfold set_gpr. by rewrite Hl, srl_spec by done.
  - exec_named "srl" (λ h i (_ : Z), SRL_IMPL h i) Hi. unfold pm_run, SRL_IMPL. do 2 (autorewrite with seq; cbv beta).
    cbn [seq_sem fst snd]. rewrite (yi_fault _ _ Hfin). split; [done|]. unfold set_gpr. by rewrite srl_spec by (done || split; auto).
Qed.

(** ** Overflow *)

Lemma OVER_spec x y : OVER x y = bool_decide (2 ^ 31 ≤ x + y ∧ 0 < x ∧ 0 < y ∨ x + y ≤ - 2 ^ 31 ∧ x < 0 ∧ y < 0).
Proof. unfold OVER, MAXINT_VAL. repeat (case_bool_decide; cbn [andb orb]); lia. Qed.

Lemma UNDER_spec x y : UNDER x y = bool_decide (2 ^ 31 ≤ x - y ∧ 0 < x ∧ y < 0 ∨ x - y ≤ - 2 ^ 31 ∧ x < 0 ∧ 0 < y).
Proof. unfold UNDER, MAXINT_VAL. repeat (case_bool_decide; cbn [andb orb]); lia. Qed.

(** C35: An addition or subtraction of words ends in an overflow fault, with nothing written, exactly if
    the result exceeds the words, or is at most the least word and both operands have its sign, or the first
    does and the second does not: the least word counts as an overflow although it fits, and without a fault
    the result is exact, but for the difference of 0 and the least word. *)
Theorem overflow_checks h (sub : bool) i pc s : is_reg (RD i) → is_inst (if sub then "sub" else "add") i →
  let x := gpr (RS i) (zeroed s) in
  let y := gpr (RT i) (zeroed s) in
  let result := if sub then x - y else x + y in
  let y' := if sub then - y else y in
  exec h i pc s = ((exec h i pc s).1,
    if decide (x_fault (exec h i pc s).1 = md_fault_overflow) then zeroed s else set_gpr (RD i) result (zeroed s)) ∧
  (x_fault (exec h i pc s).1 = md_fault_overflow ↔ 0 < x ∧ 0 < y' ∧ 2 ^ 31 ≤ result ∨ x < 0 ∧ y' < 0 ∧ result ≤ - 2 ^ 31) ∧
  (x_fault (exec h i pc s).1 ≠ md_fault_overflow →
     x_fault (exec h i pc s).1 = md_fault_none ∧ (- 2 ^ 31 ≤ result < 2 ^ 31 ∨ sub = true ∧ x = 0 ∧ y = - 2 ^ 31)).
Proof.
  intros Hr Hi. cbv zeta.
  pose proof (i32_range (bank_at BankR (Z.to_nat (RT i)) (zeroed s))) as Hy. fold (gpr (RT i) (zeroed s)) in Hy.
  pose proof (i32_range (bank_at BankR (Z.to_nat (RS i)) (zeroed s))) as Hx. fold (gpr (RS i) (zeroed s)) in Hx.
  set (x := gpr (RS i) (zeroed s)) in *. set (y := gpr (RT i) (zeroed s)) in *.
  destruct sub.
  - exec_named "sub" (λ (_ : host) i (_ : Z), SUB_IMPL i) Hi. unfold pm_run, SUB_IMPL. do 4 (autorewrite with seq; cbv beta). fold x y.
    rewrite UNDER_spec. case_bool_decide; cbn [seq_sem fst snd]; rewrite (yi_fault _ _ Hfin).
    + rewrite decide_True by done. split_and!; [done|split; [lia|done]|done].
    + rewrite decide_False by done. split_and!; [done|split; [done|lia]|intros _; split; [done|lia]].
  - exec_named "add" (λ (_ : host) i (_ : Z), ADD_IMPL i) Hi. unfold pm_run, ADD_IMPL. do 4 (autorewrite with seq; cbv beta). fold x y.
    rewrite OVER_spec. case_bool_decide; cbn [seq_sem fst snd]; rewrite (yi_fault _ _ Hfin).
    + rewrite decide_True by done. split_and!; [done|split; [lia|done]|done].
    + rewrite decide_False by done. split_and!; [done|split; [done|lia]|intros _; split; [done|lia]].
Qed.

(** ** Witnesses *)

(** An instruction, predecoded: its first two fields and the low half of the second word. *)
Definition encode (name : string) (rs rt low : Z) : Z := opcode name + 2 ^ 32 * (2 ^ 24 * rs + 2 ^ 16 * rt + low mod 2 ^ 16).

(** A big endian host that shifts bit by bit. *)
Definition demo_host : host := mkHost true false false false (λ _ _, 0) (0, 0) (λ _, 0) 0 0 (λ _, mret tt).
Definition demo_state : seq_state :=
  mkSeq (mkRegs (<[2%nat := 0x12345678]> (<[3%nat := 4096]> (<[4%nat := -5]> (replicate 32 0)))) (replicate 32 0) (replicate 3 0)) (λ a, u8 (7 * a)).

Lemma demo_regs_ok : seq_ok demo_state.
Proof. split. by intros []. Qed.

(** At address 4099. *)
Lemma unaligned_roundtrip_witness :
  let l := [encode "swl" 3 2 3; encode "swr" 3 2 6; encode "lwl" 3 5 3; encode "lwr" 3 5 6] in
  (execs demo_host l 0 demo_state).1 = replicate 4 md_fault_none ∧ gpr 5 (execs demo_host l 0 demo_state).2 = 0x12345678 ∧
  u8 (sq_mem (execs demo_host l 0 demo_state).2 4099) = 0x12.
Proof.
  cbv zeta. pose proof (unaligned_roundtrip demo_host (encode "swl" 3 2 3) (encode "swr" 3 2 6) (encode "lwl" 3 5 3) (encode "lwr" 3 5 6) 0 demo_state
    eq_refl demo_regs_ok eq_refl) as H.
  do 4 (specialize (H ltac:(vm_compute; reflexivity))). do 8 (specialize (H ltac:(vm_compute; reflexivity))).
  do 2 (specialize (H ltac:(split; [vm_compute; discriminate|vm_compute; reflexivity]))). do 2 (specialize (H ltac:(vm_compute; discriminate))).
  destruct (execs _ _ _ _) as [f s']. destruct H as (H1 & H2 & H3). split; [exact H1|]. split.
  - etrans; [exact H2|]. vm_compute. reflexivity.
  - cbn [snd]. etrans; [apply (H3 4099); lia|]. vm_compute. reflexivity.
Defined.

(** -5 times 0x12345678, as signed words. *)
Lemma mult_product_witness : ∃ hi lo, (exec demo_host (encode "mult" 4 2 0) 0 demo_state).2 = set_hilo hi lo (zeroed demo_state) ∧
  hilo hi lo = 2 ^ 64 - 5 * 0x12345678.
Proof.
  pose proof (mult_product demo_host true (encode "mult" 4 2 0) 0 demo_state demo_regs_ok ltac:(vm_compute; reflexivity)) as H.
  destruct (exec _ _ _ _) as [x s']. destruct H as (_ & hi & lo & H1 & H2). exists hi, lo. split; [exact H1|].
  etrans; [exact H2|]. vm_compute. reflexivity.
Defined.

(** -5 by one bit. *)
Lemma shift_variants_witness : (exec demo_host (encode "sra" 0 4 (6 * 2 ^ 8 + 1)) 0 demo_state).2 = set_gpr 6 (-3) (zeroed demo_state).
Proof.
  destruct (shift_variants demo_host true false (encode "sra" 0 4 (6 * 2 ^ 8 + 1)) 0 demo_state demo_regs_ok) as [_ H].
  - split; [vm_compute; discriminate|vm_compute; reflexivity].
  - vm_compute. reflexivity.
  - intros _. vm_compute. reflexivity.
  - etrans; [exact H|]. vm_compute. reflexivity.
Defined.

(** The least word is a sum of words that fits, and faults. *)
Lemma overflow_checks_witness :
  let s := mkSeq (mkRegs (<[2%nat := - 2 ^ 30]> (replicate 32 0)) (replicate 32 0) (replicate 3 0)) (λ _, 0) in
  x_fault (exec demo_host (encode "add" 2 2 (6 * 2 ^ 8)) 0 s).1 = md_fault_overflow.
Proof.
  intros s. destruct (overflow_checks demo_host false (encode "add" 2 2 (6 * 2 ^ 8)) 0 s) as (_ & H & _).
  - split; [vm_compute; discriminate|vm_compute; reflexivity].
  - vm_compute. reflexivity.
  - apply H. right. split_and!; vm_compute; first [reflexivity|discriminate].
Defined.
