(* ===== verification/PisaDeps.v ===== *)
(** * Dependences and decoding of the PISA instructions

    The registers that an instruction reads and writes against those that the table names, which
    is what orders instructions in the core, and the table of the decoder. *)

From S2P Require Import Prelude Misc Memory MemorySpec Bpred Resource Ruu RuuStages SpecState SpecRegs Isa OooHier Floats Pisa PisaOk.

(** ** Dependences *)

(** The name of a register, in sim-outorder.c; the halves of a double share theirs. *)
Definition dep_name (b : bank) (i : nat) : Z :=
  match b with BankR => Z.of_nat i | BankF => 32 + Z.of_nat (pair_of i) | BankC => 64 + Z.of_nat i end.

(** Reads are of inputs, of register 0, or of what the instruction itself wrote; writes are of outputs. *)
Fixpoint sem_deps (ins outs : list Z) (p : inst_sem) : Prop :=
  match p with
  | Done _ => True
  | Step (MGet b _ i) k => dep_name b i ∈ 0 :: ins ∧ ∀ f out, sem_deps ins outs (k f out)
  | Step (MSet b _ i _) k => dep_name b i ∈ outs ∧ ∀ f out, sem_deps (dep_name b i :: ins) outs (k f out)
  | Step (MMem _ _ _) k => ∀ f out, sem_deps ins outs (k f out)
  end.

Lemma sem_deps_mono outs p : ∀ ins ins', ins ⊆ ins' → sem_deps ins outs p → sem_deps ins' outs p.
Proof.
  induction p as [x|[cmd a p|b bit i|b bit i v] k IH]; intros ins ins' Hsub; cbn [sem_deps]; [done|..].
  - intros H f out. by eapply IH.
  - intros [H1 H2]. split; [|intros; by eapply IH]. rewrite !elem_of_cons in *. destruct H1; [by left|right; by apply Hsub].
  - intros [H1 H2]. split; [done|]. intros f out. eapply IH; [|done]. by apply list_subseteq_skip.
Qed.

Section Deps.
Context (outs : list Z).

Definition pm_deps {A} (ins : list Z) (m : pm A) : Prop := ∀ ins' fin st k, ins ⊆ ins' →
  (∀ a st ins'', ins' ⊆ ins'' → sem_deps ins'' outs (k a st)) → sem_deps ins' outs (m fin st k).

Lemma deps_ret {A} ins (a : A) : pm_deps ins (mret a).
Proof. intros ins' fin st k _ H. by apply H. Qed.
Lemma deps_bind {A B} ins (m : pm A) (f : A → pm B) : pm_deps ins m → (∀ a, pm_deps ins (f a)) → pm_deps ins (m ≫= f).
Proof.
  intros Hm Hf ins' fin st k Hi H. apply Hm; [done|]. intros a st' ins'' Hi'. apply Hf; [set_solver|].
  intros a' st'' ins3 Hi3. apply H. set_solver.
Qed.
Lemma deps_get ins b bit i : dep_name b i ∈ 0 :: ins → pm_deps ins (pm_get b bit i).
Proof.
  intros Hd ins' fin st k Hi H. cbn [pm_get sem_deps]. split; [|intros f out; by apply H].
  rewrite elem_of_cons in *. destruct Hd; [by left|right; by apply Hi].
Qed.
Lemma deps_set_then {A} ins b bit i v (f : unit → pm A) : dep_name b i ∈ outs → pm_deps (dep_name b i :: ins) (f tt) →
  pm_deps ins (pm_set b bit i v ≫= f).
Proof.
  intros Hd Hf ins' fin st k Hi H. cbn [mbind pm_bind pm_set sem_deps]. split; [done|]. intros _ _.
  apply Hf; [by apply list_subseteq_skip|]. intros a st' ins'' Hi'. apply H. set_solver.
Qed.
Lemma deps_set ins b bit i v : dep_name b i ∈ outs → pm_deps ins (pm_set b bit i v).
Proof. intros Hd ins' fin st k Hi H. cbn [pm_set sem_deps]. split; [done|]. intros _ _. apply H. intros z Hz. by right. Qed.
Lemma deps_fault {A} ins f : pm_deps ins (DECLARE_FAULT f : pm A).
Proof. by intros ins' fin st k _ _. Qed.
Lemma deps_fault_if {A} ins b f (m : pm A) : (b = false → pm_deps ins m) → pm_deps ins (fault_if b f;; m).
Proof. intros Hm. destruct b; [by intros ins' fin st k _ _|by apply Hm]. Qed.
Lemma deps_check ins f : pm_deps ins (check_fault f).
Proof. unfold check_fault, fault_if. destruct (negb _); [apply deps_fault|apply deps_ret]. Qed.
Lemma deps_npc ins v : pm_deps ins (SET_NPC v).
Proof. intros ins' fin st k _ H. by apply H. Qed.
Lemma deps_tpc ins v : pm_deps ins (SET_TPC v).
Proof. intros ins' fin st k _ H. by apply H. Qed.
Lemma deps_read ins h n a : pm_deps ins (pm_read h n a).
Proof. intros ins' fin st k _ H. cbn [pm_read sem_deps]. intros f out. by apply H. Qed.
Lemma deps_write ins h n v a : pm_deps ins (pm_write h n v a).
Proof. intros ins' fin st k _ H. cbn [pm_write sem_deps]. intros f out. by apply H. Qed.
End Deps.

Lemma name_R n : is_reg n → dep_name BankR (Z.to_nat n) = n.
Proof. unfold is_reg, dep_name. lia. Qed.

Lemma even_land n : 0 ≤ n → Z.land (n + 32) (Z.lnot 1) = 32 + 2 * (n / 2).
Proof.
  intros Hn. change (Z.lnot 1) with (Z.lnot (Z.ones 1)). rewrite <- Z.ldiff_land, Z.ldiff_ones_r, Z.shiftl_mul_pow2, Z.shiftr_div_pow2 by lia.
  change (2 ^ 1) with 2. Z.div_mod_to_equations. lia.
Qed.

Lemma pair_Z n : 0 ≤ n → Z.of_nat (pair_of (Z.to_nat n)) = 2 * (n / 2).
Proof. intros Hn. unfold pair_of. rewrite Nat2Z.inj_mul, Nat2Z.inj_div, Z2Nat.id by done. change (Z.of_nat 2) with 2. lia. Qed.

Lemma name_F n : is_reg n → dep_name BankF (Z.to_nat n) = Z.land (n + 32) (Z.lnot 1).
Proof. unfold is_reg. intros H. cbn [dep_name]. by rewrite pair_Z, even_land by lia. Qed.
Lemma name_F_next n : is_reg n → Z.odd n = false → dep_name BankF (Z.to_nat (n + 1)) = Z.land (n + 32) (Z.lnot 1).
Proof.
  unfold is_reg. intros H Ho. cbn [dep_name]. rewrite pair_Z, even_land by lia. rewrite Zodd_mod in Ho.
  assert (n mod 2 ≠ 1) by (intros E; by rewrite E in Ho). Z.div_mod_to_equations. lia.
Qed.
Lemma name_D n : is_reg n → dep_name BankF (2 * Z.to_nat (n / 2)) = Z.land (n + 32) (Z.lnot 1) ∧
  dep_name BankF (2 * Z.to_nat (n / 2) + 1) = Z.land (n + 32) (Z.lnot 1).
Proof.
  unfold is_reg. intros H. rewrite even_land by lia. cbn [dep_name]. unfold pair_of. rewrite !Nat2Z.inj_mul, !Nat2Z.inj_div.
  Z.div_mod_to_equations. lia.
Qed.

Ltac dep_in :=
  first [rewrite name_R by assumption|rewrite name_F by assumption|rewrite name_F_next by assumption
        |match goal with |- context [dep_name BankF (2 * Z.to_nat (?n / 2))] => rewrite (proj1 (name_D n ltac:(assumption))) end
        |match goal with |- context [dep_name BankF (2 * Z.to_nat (?n / 2) + 1)] => rewrite (proj2 (name_D n ltac:(assumption))) end
        |change (dep_name BankC 0) with 64|change (dep_name BankC 1) with 65|change (dep_name BankC 2) with 66|change (dep_name BankR (Z.to_nat 31)) with 31|idtac];
  unfold DGPR, DGPR_D, DFPR_L, DFPR_F, DFPR_D, DHI, DLO, DFCC;
  rewrite ?elem_of_cons; solve [tauto|repeat first [left; done|right]].

(** One step of an instruction's body. *)
Ltac deps_step :=
  match goal with
  | |- pm_deps _ _ (check_fault _) => apply deps_check
  | |- pm_deps _ _ (check_fault _ ≫= _) => apply deps_bind; [apply deps_check|intros ?]
  | |- pm_deps _ _ (fault_if _ _ ≫= _) => apply deps_fault_if; let H := fresh in intros H; rewrite ?orb_false_iff in H; destruct_and? H
  | |- pm_deps _ _ (pm_set _ _ _ _ ≫= _) => apply deps_set_then; [dep_in|]
  | |- pm_deps _ _ (SET_HI _ ≫= _) => unfold SET_HI at 1
  | |- pm_deps _ _ (SET_LO _ ≫= _) => unfold SET_LO at 1
  | |- pm_deps _ _ (SET_GPR _ _ ≫= _) => unfold SET_GPR at 1
  | |- pm_deps _ _ (_ ≫= _) => apply deps_bind; [|intros ?]
  | |- pm_deps _ _ (mret _) => apply deps_ret
  | |- pm_deps _ _ (pm_get _ _ _) => apply deps_get; dep_in
  | |- pm_deps _ _ (pm_set _ _ _ _) => apply deps_set; dep_in
  | |- pm_deps _ _ (pm_read _ _ _) => apply deps_read
  | |- pm_deps _ _ (pm_write _ _ _ _) => apply deps_write
  | |- pm_deps _ _ (SET_NPC _) => apply deps_npc
  | |- pm_deps _ _ (SET_TPC _) => apply deps_tpc
  | |- pm_deps _ _ (DECLARE_FAULT _) => apply deps_fault
  | |- pm_deps _ _ (if ?b then _ else _) => destruct b eqn:?
  | |- pm_deps _ _ (let '(_, _) := ?p in _) => destruct p
  | |- pm_deps _ _ (match ?p with (_, _) => _ end) => destruct p
  | |- pm_deps _ _ (mult_loop _ _ _) => fail 1
  | |- pm_deps _ _ (sra_loop _ _) => fail 1
  | |- pm_deps _ _ ?m => let f := head_of m in unfold f; cbv zeta
  end.

Lemma mult_deps outs ins n bit op2 : 64 ∈ outs → 65 ∈ outs → 64 ∈ ins → 65 ∈ ins → (∀ k, pm_deps outs ins (bit k)) →
  pm_deps outs ins op2 → pm_deps outs ins (mult_loop n bit op2).
Proof.
  intros H1 H2 H3 H4 Hb Ho. revert ins H3 H4 Hb Ho. induction n as [|n IH]; intros ins H3 H4 Hb Ho; cbn [mult_loop].
  { apply deps_ret. }
  assert (∀ v, pm_deps outs ins (SET_HI v)) as SH by (intros; by apply deps_set).
  assert (∀ v, pm_deps outs ins (SET_LO v)) as SL by (intros; by apply deps_set).
  assert (pm_deps outs ins HI) as GH by (apply deps_bind; [apply deps_get; by right|intros; apply deps_ret]).
  assert (pm_deps outs ins LO) as GL by (apply deps_bind; [apply deps_get; by right|intros; apply deps_ret]).
  repeat match goal with
    | |- pm_deps _ _ (if ?b then _ else _) => destruct b
    | |- pm_deps _ _ (mult_loop _ _ _) => by apply IH
    | |- pm_deps _ _ (mret _) => apply deps_ret
    | |- pm_deps _ _ (_ ≫= _) => apply deps_bind; [|intros ?]
    | |- pm_deps _ _ HI => exact GH
    | |- pm_deps _ _ LO => exact GL
    | |- pm_deps _ _ (SET_HI _) => apply SH
    | |- pm_deps _ _ (SET_LO _) => apply SL
    | |- pm_deps _ _ (bit _) => apply Hb
    | |- pm_deps _ _ op2 => exact Ho
    end.
Qed.

Lemma sra_deps outs ins i n : dep_name BankR (Z.to_nat (RD i)) ∈ outs → dep_name BankR (Z.to_nat (RD i)) ∈ ins → pm_deps outs ins (sra_loop i n).
Proof.
  intros H1 H2. induction n as [|n IH]; cbn [sra_loop]; [apply deps_ret|].
  apply deps_bind; [apply deps_bind; [apply deps_get; by right|intros; apply deps_ret]|intros v].
  apply deps_bind; [by apply deps_set|intros _; exact IH].
Qed.

(** The instructions whose dependences are not those that the table declares. *)
Definition missed : list string := ["dlw"; "dsw"; "lwl"; "lwr"; "dmfc1"; "dmtc1"].

Lemma table_deps h : Forall (λ d, d_name d ∉ "syscall" :: missed → ∀ i pc, format_ok (d_format d) i = true →
  pm_deps [d_o1 d i; d_o2 d i] [d_i1 d i; d_i2 d i; d_i3 d i] (d_impl d h i pc)) machine_def.
Proof.
  unfold machine_def. repeat first [apply List.Forall_nil|apply List.Forall_cons].
  all: intros Hn; cbn [d_name] in Hn; try (exfalso; apply Hn; unfold missed; rewrite !elem_of_cons; tauto); clear Hn;
    intros i pc Hf; cbn [d_format d_impl format_ok d_o1 d_o2 d_i1 d_i2 d_i3] in *; rewrite ?andb_true_iff, ?bool_decide_eq_true in Hf;
    destruct (reg_fields i) as (Hrs & Hrt & Hrd); assert (is_reg 31 ∧ is_reg 0) as [? ?] by (by split);
    repeat match goal with H : _ ∧ _ |- _ => destruct H end;
    repeat match goal with H : ?a < 32 → _, H' : ?a < 32 |- _ => specialize (H H') end;
    repeat match goal with H : _ ∧ _ |- _ => destruct H end.
  all: repeat deps_step.
  all: first [apply mult_deps|apply sra_deps]; try solve [repeat first [left; done|right]]; intros; repeat deps_step; dep_in.
Qed.

(** An instance of the six: registers 4, 2 and 6. *)
Definition missed_inst : Z := 2 ^ 32 * (4 * 2 ^ 24 + 2 * 2 ^ 16 + 6 * 2 ^ 8).

Lemma table_missed h : Forall (λ d, d_name d ∈ missed → format_ok (d_format d) missed_inst = true ∧
  ∀ pc fin st, ¬ sem_deps [d_i1 d missed_inst; d_i2 d missed_inst; d_i3 d missed_inst] [d_o1 d missed_inst; d_o2 d missed_inst]
    (pm_run (d_impl d h missed_inst pc) fin st)) machine_def.
Proof.
  unfold machine_def. repeat first [apply List.Forall_nil|apply List.Forall_cons].
  all: try (intros Hn; exfalso; revert Hn; apply (proj1 (bool_decide_eq_false _)); vm_compute; reflexivity).
  all: intros _; split; [by vm_compute|]; intros pc fin st H;
    repeat (hnf in H; first [let Hn := fresh in destruct H as [Hn H]; try (exfalso; revert Hn; apply (proj1 (bool_decide_eq_false _)); vm_compute; reflexivity)|specialize (H md_fault_none [])]).
  all: first [exact md_fault_none|exact []].
Qed.

(** C36: Every instruction but the system call and six others, with register fields in range, reads only the registers that the table names as its inputs, or
    register 0, or what it has itself written, and writes only those named as outputs, whatever the values
    and faults; each of the six has instances that do not. *)
Theorem dependences_named h d : d ∈ machine_def → d_name d ≠ "syscall" →
  (∀ i pc fin st, format_ok (d_format d) i = true →
     sem_deps [d_i1 d i; d_i2 d i; d_i3 d i] [d_o1 d i; d_o2 d i] (pm_run (d_impl d h i pc) fin st)) ↔ d_name d ∉ missed.
Proof.
  intros Hd Hs. split.
  - intros H Hm. destruct (proj1 (List.Forall_forall _ _) (table_missed h) d) as [Hf Hn]; [by apply list_elem_of_In|done|].
    apply (Hn 0 (finish MD_NOP_OP d 0) (mkPst 0 0 0)). by apply H.
  - intros Hm i pc fin st Hf.
    apply (proj1 (List.Forall_forall _ _) (table_deps h) d); [by apply list_elem_of_In| |done|done|done].
    rewrite not_elem_of_cons. by split.
Qed.

(** ** The decoder *)

Definition decoder_check (t : list Z) : bool :=
  bool_decide (length t = 256%nat) &&
  forallb (λ n, match machine_def !! n with
                | Some d => bool_decide (t !! Z.to_nat (d_msk d) = Some (1 + Z.of_nat n)) | None => false end) (seq 0 (length machine_def)) &&
  forallb (λ k, match t !! k with
                | Some op => bool_decide (op = OP_NA) || match def_of op with Some d => bool_decide (d_msk d = Z.of_nat k) | None => false end
                | None => false end) (seq 0 256).

Lemma decoder_checked : match md_init_decoder with Ok t => decoder_check t | Fault _ => false end = true.
Proof. vm_compute. reflexivity. Qed.

(** C37: The table that the initialisation of the decoder builds from the definitions of instructions, without
    a clash, gives each instruction's mask the instruction's number, and every other mask none. *)
Theorem decoder_inverse : ∃ t, md_init_decoder = Ok t ∧ length t = 256%nat ∧
  (∀ n d, machine_def !! n = Some d → t !! Z.to_nat (d_msk d) = Some (1 + Z.of_nat n) ∧ def_of (1 + Z.of_nat n) = Some d) ∧
  ∀ k op, t !! k = Some op → op ≠ OP_NA → ∃ d, def_of op = Some d ∧ d_msk d = Z.of_nat k.
Proof.
  pose proof decoder_checked as H. destruct md_init_decoder as [t|]; [|done]. exists t. split; [done|].
  unfold decoder_check in H. rewrite !andb_true_iff, bool_decide_eq_true, !List.forallb_forall in H. destruct H as [[Hl H1] H2].
  split; [done|]. split.
  - intros n d Hn. specialize (H1 n). rewrite Hn, bool_decide_eq_true in H1. split.
    + apply H1, List.in_seq. apply lookup_lt_Some in Hn. lia.
    + unfold def_of. rewrite bool_decide_false by lia. by replace (Z.to_nat (1 + Z.of_nat n - 1)) with n by lia.
  - intros k op Hk Hop. specialize (H2 k). rewrite Hk, bool_decide_false in H2 by done. cbn [orb] in H2.
    pose proof (lookup_lt_Some _ _ _ Hk) as Hlt. specialize (H2 ltac:(apply List.in_seq; lia)).
    destruct (def_of op) as [d|]; [|done]. exists d. split; [done|]. by apply bool_decide_eq_true in H2.
Qed.

(** ** Witness *)

Definition demo_proxy : host := mkHost false false true true (λ _ _, 0) (0, 0) (λ _, 0) 0 0 (λ _, mret tt).

(** The addition, and the load of the left part of a word. *)
Lemma dependences_named_witness : ∃ d d', machine_def !! 51%nat = Some d ∧ machine_def !! 21%nat = Some d' ∧
  (∀ i pc fin st, format_ok (d_format d) i = true →
     sem_deps [d_i1 d i; d_i2 d i; d_i3 d i] [d_o1 d i; d_o2 d i] (pm_run (d_impl d demo_proxy i pc) fin st)) ∧
  ¬ (∀ i pc fin st, format_ok (d_format d') i = true →
     sem_deps [d_i1 d' i; d_i2 d' i; d_i3 d' i] [d_o1 d' i; d_o2 d' i] (pm_run (d_impl d' demo_proxy i pc) fin st)).
Proof.
  eexists _, _. split; [reflexivity|]. split; [reflexivity|]. split.
  - apply (dependences_named demo_proxy).
    + apply (list_elem_of_lookup_2 _ 51). reflexivity.
    + discriminate.
    + apply (proj1 (bool_decide_eq_false _)). vm_compute. reflexivity.
  - intros H. apply (dependences_named demo_proxy) in H; [|apply (list_elem_of_lookup_2 _ 21); reflexivity|discriminate].
    revert H. apply (proj1 (bool_decide_eq_false _)). vm_compute. reflexivity.
Defined.
