(* ===== verification/Options.v ===== *)
(** * sim-outorder.c: checking the options

    [sim_check_options] turns the values of the command line into predictor, caches, TLBs and
    functional units, or stops with a message.  Cache descriptions are read as [sscanf]
    does. *)

From Stdlib Require Import Ascii.
From S2P Require Import Prelude Misc Memory Bpred Resource Cache Hier Ruu.

(** ** Strings *)

(** [tolower] in the C locale, on the code of a character. *)
Definition lower (c : ascii) : Z :=
  let n := Z.of_nat (nat_of_ascii c) in if bool_decide (65 ≤ n ≤ 90) then n + 32 else n.

(** [mystricmp]; the end of a string reads as 0. *)
Fixpoint mystricmp (s1 s2 : string) : Z :=
  match s1, s2 with
  | EmptyString, EmptyString => 0
  | EmptyString, String c _ => 0 - lower c
  | String c _, EmptyString => lower c - 0
  | String c1 s1, String c2 s2 =>
      if bool_decide (lower c1 ≠ lower c2) then lower c1 - lower c2 else mystricmp s1 s2
  end.
Definition stricmp_eq (s1 s2 : string) : bool := bool_decide (mystricmp s1 s2 = 0).

(** ** sscanf with "%[^:]:%d:%d:%d:%c" *)

(** The characters up to a colon: their number, and the rest. *)
Fixpoint scan_name (s : string) : nat * string :=
  match s with
  | String c s' =>
      if bool_decide (c = ":"%char) then (0%nat, s) else let '(n, r) := scan_name s' in (S n, r)
  | EmptyString => (0%nat, s)
  end.

Definition is_space (c : ascii) : bool :=
  let n := Z.of_nat (nat_of_ascii c) in bool_decide (n = 32 ∨ 9 ≤ n ≤ 13).
Fixpoint skip_space (s : string) : string :=
  match s with String c s' => if is_space c then skip_space s' else s | EmptyString => s end.

Definition digit (c : ascii) : option Z :=
  let n := Z.of_nat (nat_of_ascii c) in if bool_decide (48 ≤ n ≤ 57) then Some (n - 48) else None.

(** Decimal digits: the value, their number, and the rest. *)
Fixpoint scan_digits (s : string) (v : Z) (n : nat) : Z * nat * string :=
  match s with
  | String c s' => match digit c with Some d => scan_digits s' (v * 10 + d) (S n) | None => (v, n, s) end
  | EmptyString => (v, n, s)
  end.

(** A conversion that fails is [None]; what an [int] does not hold is undefined. *)
Definition scan_int (s : string) : result (option (Z * string)) :=
  let s := skip_space s in
  let '(neg, s) := match s with
                   | String "-"%char s' => (true, s')
                   | String "+"%char s' => (false, s')
                   | _ => (false, s)
                   end in
  let '(v, n, s) := scan_digits s 0 0 in
  if bool_decide (n = 0%nat) then Ok None else
  let v := if neg : bool then - v else v in
  if bool_decide (- 2 ^ 31 ≤ v < 2 ^ 31) then Ok (Some (v, s)) else Fault Undefined.

Definition scan_colon_int (s : string) : result (option (Z * string)) :=
  match s with String ":"%char s => scan_int s | _ => Ok None end.

(** Sets, block size, associativity and policy, when all five conversions succeed; [name] holds 128
    characters, the terminating one included. *)
Definition scan_cache (s : string) : result (option (Z * Z * Z * ascii)) :=
  let '(n, s) := scan_name s in
  if bool_decide (n = 0%nat) then Ok None else
  if bool_decide (128 ≤ n)%nat then Fault OutOfBounds else
  o ← scan_colon_int s;
  match o with None => Ok None | Some (nsets, s) =>
    o ← scan_colon_int s;
    match o with None => Ok None | Some (bsize, s) =>
      o ← scan_colon_int s;
      match o with None => Ok None | Some (assoc, s) =>
        match s with
        | String ":"%char (String c _) => Ok (Some (nsets, bsize, assoc, c))
        | _ => Ok None
        end
      end
    end
  end.

(** ** Options *)

Record sim_options := mkOptions {
  o_fastfwd_count : Z;
  o_ruu_ifq_size : Z;
  o_ruu_branch_penalty : Z;
  o_fetch_speed : Z;
  o_pred_type : string;
  o_bimod_nelt : Z; o_bimod_config : Z;
  o_twolev_nelt : Z; o_twolev_config : Z * Z * Z * Z;
  o_comb_nelt : Z; o_comb_config : Z;
  o_ras_size : Z;
  o_btb_nelt : Z; o_btb_config : Z * Z;
  o_bpred_spec_opt : option string;
  o_ruu_decode_width : Z;
  o_ruu_issue_width : Z;
  o_ruu_commit_width : Z;
  o_RUU_size : Z;
  o_LSQ_size : Z;
  o_cache_dl1_opt : string; o_cache_dl1_lat : Z;
  o_cache_dl2_opt : string; o_cache_dl2_lat : Z;
  o_cache_il1_opt : string; o_cache_il1_lat : Z;
  o_cache_il2_opt : string; o_cache_il2_lat : Z;
  o_itlb_opt : string; o_dtlb_opt : string;
  o_mem_nelt : Z; o_mem_lat : Z * Z;
  o_mem_bus_width : Z;
  o_tlb_miss_lat : Z;
  o_res_ialu : Z; o_res_imult : Z; o_res_memport : Z; o_res_fpalu : Z; o_res_fpmult : Z
}.

(** The defaults that [sim_reg_options] registers. *)
Definition default_options : sim_options :=
  mkOptions 0 4 3 1 "bimod" 1 2048 4 (1, 1024, 8, 0) 1 1024 8 2 (512, 4) None 4 4 4 16 8
    "dl1:128:32:4:l" 1 "ul2:1024:64:4:l" 6 "il1:512:32:1:l" 1 "dl2" 6 "itlb:16:4096:4:l" "dtlb:32:4096:4:l"
    2 (18, 2) 8 30 4 1 2 4 1.

(** What the check sets up. *)
Record checked := mkChecked {
  ck_pred : option bpred_t;
  ck_perfect : bool;
  ck_spec : spec_update;
  ck_hier : hier_conf;
  ck_caches : cache_id → option cache_t;
  ck_fu : list res_desc
}.

Definition fatal_if (b : bool) (msg : string) : result unit := if b then Fault (Fatal msg) else Ok tt.

(** [x < n || (x & (x - 1)) != 0]. *)
Definition not_pow2 (n x : Z) : bool := bool_decide (x < n ∨ Z.land x (x - 1) ≠ 0).

Section Check.
Variable o : sim_options.

(** ** The predictor *)

Definition check_bimod : result unit :=
  fatal_if (bool_decide (o_bimod_nelt o ≠ 1)) "bad bimod predictor config (<table_size>)".
Definition check_btb : result unit :=
  fatal_if (bool_decide (o_btb_nelt o ≠ 2)) "bad btb config (<num_sets> <associativity>)".
Definition check_twolev : result unit :=
  fatal_if (bool_decide (o_twolev_nelt o ≠ 4)) "bad 2-level pred config (<l1size> <l2size> <hist_size> <xor>)".

(** [bpred_create] takes unsigned sizes. *)
Definition create_pred (class : bpred_class) (bimod : Z) (two : Z * Z * Z * Z) (meta : Z) : result (option bpred_t) :=
  let '(l1, l2, hist, xor) := two in
  p ← bpred_create class (u32 bimod) (u32 l1) (u32 l2) (u32 meta) (u32 hist) (u32 xor)
        (u32 (o_btb_config o).1) (u32 (o_btb_config o).2) (u32 (o_ras_size o));
  Ok (Some p).

(** The predictor, and whether prediction is perfect. *)
Definition check_pred : result (option bpred_t * bool) :=
  let t := o_pred_type o in
  if stricmp_eq t "perfect" then Ok (None, true)
  else if stricmp_eq t "taken" then p ← bpred_create BPredTaken 0 0 0 0 0 0 0 0 0; Ok (Some p, false)
  else if stricmp_eq t "nottaken" then p ← bpred_create BPredNotTaken 0 0 0 0 0 0 0 0 0; Ok (Some p, false)
  else if stricmp_eq t "bimod" then
    _ ← check_bimod; _ ← check_btb;
    p ← create_pred BPred2bit (o_bimod_config o) (0, 0, 0, 0) 0; Ok (p, false)
  else if stricmp_eq t "2lev" then
    _ ← check_twolev; _ ← check_btb;
    p ← create_pred BPred2Level 0 (o_twolev_config o) 0; Ok (p, false)
  else if stricmp_eq t "comb" then
    _ ← check_twolev; _ ← check_bimod;
    _ ← fatal_if (bool_decide (o_comb_nelt o ≠ 1)) "bad combining predictor config (<meta_table_size>)";
    _ ← check_btb;
    p ← create_pred BPredComb (o_bimod_config o) (o_twolev_config o) (o_comb_config o); Ok (p, false)
  else Fault (Fatal "cannot parse predictor type").

Definition check_spec_update : result spec_update :=
  match o_bpred_spec_opt o with
  | None => Ok spec_CT
  | Some s =>
      if stricmp_eq s "ID" then Ok spec_ID
      else if stricmp_eq s "WB" then Ok spec_WB
      else Fault (Fatal "bad speculative update stage specifier, use {ID|WB}")
  end.

(** ** Caches and TLBs *)

Definition cache_from (opt : string) (usize lat : Z) (msg : string) : result cache_t :=
  d ← scan_cache opt;
  match d with
  | None => Fault (Fatal msg)
  | Some (nsets, bsize, assoc, c) =>
      policy ← cache_char2policy c;
      cache_create nsets bsize false usize assoc policy lat
  end.

Definition unless_none (opt : string) (m : result cache_t) : result (option cache_t) :=
  if stricmp_eq opt "none" then Ok None else cp ← m; Ok (Some cp).

Definition check_dcaches : result (option cache_t * option cache_t) :=
  if stricmp_eq (o_cache_dl1_opt o) "none" then
    _ ← fatal_if (bool_decide (o_cache_dl2_opt o ≠ "none"%string))
          "the l1 data cache must defined if the l2 cache is defined";
    Ok (None, None)
  else
    dl1 ← cache_from (o_cache_dl1_opt o) 0 (u32 (o_cache_dl1_lat o))
            "bad l1 D-cache parms: <name>:<nsets>:<bsize>:<assoc>:<repl>";
    dl2 ← unless_none (o_cache_dl2_opt o)
            (cache_from (o_cache_dl2_opt o) 0 (u32 (o_cache_dl2_lat o))
               "bad l2 D-cache parms: <name>:<nsets>:<bsize>:<assoc>:<repl>");
    Ok (Some dl1, dl2).

(** Without an instruction cache of its own there is no second level either. *)
Definition no_il2 : result unit :=
  fatal_if (bool_decide (o_cache_il2_opt o ≠ "none"%string))
    "the l1 inst cache must defined if the l2 cache is defined".

(** The two pointers, and the caches of their own. *)
Definition check_icaches (dl1 dl2 : option cache_t)
    : result (option cache_id * option cache_id * option cache_t * option cache_t) :=
  let opt := o_cache_il1_opt o in
  if stricmp_eq opt "none" then _ ← no_il2; Ok (None, None, None, None)
  else if stricmp_eq opt "dl1" then
    _ ← (match dl1 with None => Fault (Fatal "I-cache l1 cannot access D-cache l1 as it's undefined") | Some _ => Ok tt end);
    _ ← no_il2; Ok (Some DL1, None, None, None)
  else if stricmp_eq opt "dl2" then
    _ ← (match dl2 with None => Fault (Fatal "I-cache l1 cannot access D-cache l2 as it's undefined") | Some _ => Ok tt end);
    _ ← no_il2; Ok (Some DL2, None, None, None)
  else
    il1 ← cache_from opt 0 (u32 (o_cache_il1_lat o))
            "bad l1 I-cache parms: <name>:<nsets>:<bsize>:<assoc>:<repl>";
    let opt2 := o_cache_il2_opt o in
    if stricmp_eq opt2 "none" then Ok (Some IL1, None, Some il1, None)
    else if stricmp_eq opt2 "dl2" then
      _ ← (match dl2 with None => Fault (Fatal "I-cache l2 cannot access D-cache l2 as it's undefined") | Some _ => Ok tt end);
      Ok (Some IL1, Some DL2, Some il1, None)
    else
      il2 ← cache_from opt2 0 (u32 (o_cache_il2_lat o))
              "bad l2 I-cache parms: <name>:<nsets>:<bsize>:<assoc>:<repl>";
      Ok (Some IL1, Some IL2, Some il1, Some il2).

(** The user data of a TLB is an address. *)
Definition check_tlb (opt : string) : result (option cache_t) :=
  unless_none opt (cache_from opt 4 1 "bad TLB parms: <name>:<nsets>:<page_size>:<assoc>:<repl>").

Definition check_lat (lat : Z) (msg : string) : result unit := fatal_if (bool_decide (lat < 1)) msg.

(** ** Functional units *)

Definition set_quantity (n : Z) (d : res_desc) : res_desc := mkRes (res_name d) n (busy d) (templates d).

Definition check_units (n : Z) (msg msg' : string) : result unit :=
  _ ← fatal_if (bool_decide (n < 1)) msg; fatal_if (bool_decide (Z.of_nat MAX_INSTS_PER_CLASS < n)) msg'.

Definition check_fu : result (list res_desc) :=
  _ ← check_units (o_res_ialu o) "number of integer ALU's must be greater than zero"
        "number of integer ALU's must be <= MAX_INSTS_PER_CLASS";
  _ ← check_units (o_res_imult o) "number of integer multiplier/dividers must be greater than zero"
        "number of integer mult/div's must be <= MAX_INSTS_PER_CLASS";
  _ ← check_units (o_res_memport o) "number of memory system ports must be greater than zero"
        "number of memory system ports must be <= MAX_INSTS_PER_CLASS";
  _ ← check_units (o_res_fpalu o) "number of floating point ALU's must be greater than zero"
        "number of floating point ALU's must be <= MAX_INSTS_PER_CLASS";
  _ ← check_units (o_res_fpmult o) "number of floating point multiplier/dividers must be > zero"
        "number of FP mult/div's must be <= MAX_INSTS_PER_CLASS";
  Ok (zip_with set_quantity [o_res_ialu o; o_res_imult o; o_res_memport o; o_res_fpalu o; o_res_fpmult o] fu_config).

(** ** All of it *)

Definition ptr (id : cache_id) (c : option cache_t) : option cache_id := (λ _, id) <$> c.

Definition sim_check_options : result checked :=
  _ ← fatal_if (bool_decide (o_fastfwd_count o < 0 ∨ 2147483647 ≤ o_fastfwd_count o)) "bad fast forward count";
  _ ← fatal_if (not_pow2 1 (o_ruu_ifq_size o)) "inst fetch queue size must be positive > 0 and a power of two";
  _ ← fatal_if (bool_decide (o_ruu_branch_penalty o < 1)) "mis-prediction penalty must be at least 1 cycle";
  _ ← fatal_if (bool_decide (o_fetch_speed o < 1)) "front-end speed must be positive and non-zero";
  '(pred, perfect) ← check_pred;
  spec ← check_spec_update;
  _ ← fatal_if (not_pow2 1 (o_ruu_decode_width o)) "issue width must be positive non-zero and a power of two";
  _ ← fatal_if (not_pow2 1 (o_ruu_issue_width o)) "issue width must be positive non-zero and a power of two";
  _ ← fatal_if (bool_decide (o_ruu_commit_width o < 1)) "commit width must be positive non-zero";
  _ ← fatal_if (not_pow2 2 (o_RUU_size o)) "RUU size must be a positive number > 1 and a power of two";
  _ ← fatal_if (not_pow2 2 (o_LSQ_size o)) "LSQ size must be a positive number > 1 and a power of two";
  '(dl1, dl2) ← check_dcaches;
  '(il1p, il2p, il1, il2) ← check_icaches dl1 dl2;
  it ← check_tlb (o_itlb_opt o);
  dt ← check_tlb (o_dtlb_opt o);
  _ ← check_lat (o_cache_dl1_lat o) "l1 data cache latency must be greater than zero";
  _ ← check_lat (o_cache_dl2_lat o) "l2 data cache latency must be greater than zero";
  _ ← check_lat (o_cache_il1_lat o) "l1 instruction cache latency must be greater than zero";
  _ ← check_lat (o_cache_il2_lat o) "l2 instruction cache latency must be greater than zero";
  _ ← fatal_if (bool_decide (o_mem_nelt o ≠ 2)) "bad memory access latency (<first_chunk> <inter_chunk>)";
  _ ← fatal_if (bool_decide ((o_mem_lat o).1 < 1 ∨ (o_mem_lat o).2 < 1))
        "all memory access latencies must be greater than zero";
  _ ← fatal_if (not_pow2 1 (o_mem_bus_width o)) "memory bus width must be positive non-zero and a power of two";
  _ ← check_lat (o_tlb_miss_lat o) "TLB miss latency must be greater than zero";
  fu ← check_fu;
  Ok (mkChecked pred perfect spec
        (mkHierConf (o_mem_bus_width o) (o_mem_lat o) (o_tlb_miss_lat o)
           (ptr DL1 dl1) (ptr DL2 dl2) il1p il2p (ptr ITLB it) (ptr DTLB dt))
        (λ id, match id with DL1 => dl1 | DL2 => dl2 | IL1 => il1 | IL2 => il2 | ITLB => it | DTLB => dt end)
        fu).

(** The parameters of the core; the flags and the limit are options of their own. *)
Definition core_config (ck : checked) (inorder include_spec bugcompat compress : bool) (max_insts : Z) : config :=
  mkConfig (Z.to_nat (o_RUU_size o)) (Z.to_nat (o_LSQ_size o)) (Z.to_nat (o_ruu_ifq_size o))
    (o_ruu_branch_penalty o) (Z.to_nat (o_fetch_speed o)) (Z.to_nat (o_ruu_decode_width o))
    (Z.to_nat (o_ruu_issue_width o)) (Z.to_nat (o_ruu_commit_width o)) inorder include_spec bugcompat
    (ck_perfect ck) (ck_spec ck) (o_cache_il1_lat o) compress max_insts.
End Check.
