(* ===== verification/OptionsOk.v ===== *)
(** * Accepted options give well-formed parts

    What [sim_check_options] accepts has a predictor, caches and functional units that satisfy
    the invariants of their components. *)

From Stdlib Require Import Ascii.
From S2P Require Import Prelude Misc Memory Bpred BpredInv BpredMain Cache CacheInv CacheSpec CacheCreate.
From S2P Require Import Hier HierSpec Ruu RuuUnits Options Resource ResourceSpec.

(** ** Powers of two *)

Lemma pow2_exists x : 0 < x → Z.land x (x - 1) = 0 → ∃ k, 0 ≤ k ∧ x = 2 ^ k.
Proof. intros Hx H. exists (Z.log2 x). split; [apply Z.log2_nonneg|]. by apply pow2_of_land. Qed.

Lemma not_pow2_false n x : not_pow2 n x = false → 0 < n → ∃ k, 0 ≤ k ∧ x = 2 ^ k ∧ n ≤ x.
Proof.
  unfold not_pow2. rewrite bool_decide_eq_false. intros H Hn.
  destruct (pow2_exists x) as (k & Hk & Hx); [lia|destruct (decide (Z.land x (x - 1) = 0)); tauto|]. exists k. split_and!; [done..|lia].
Qed.

Lemma fatal_if_Ok b msg u : fatal_if b msg = Ok u → b = false.
Proof. by destruct b. Qed.

(** ** Caches *)

(** What the check leaves open: a description may ask for blocks that are larger than the
    program's first address, and for no room for tags. *)
Definition cache_small (cp : cache_t) : Prop := bsize (conf cp) ≤ low_addr ∧ tag_shift (conf cp) < 32.

Definition int_ok (n : Z) : Prop := - 2 ^ 31 ≤ n < 2 ^ 31.

Lemma cache_create_inv n b us a pol lat cp :
  cache_create n b false us a pol lat = Ok cp → int_ok n → int_ok b → int_ok a → 0 ≤ lat < 2 ^ 31 →
  tag_shift (conf cp) < 32 →
  ∃ ob ib ords, cache_ok ob ib cp ords ∧ bsize (conf cp) = 2 ^ ob ∧ balloc (conf cp) = false ∧
    usize (conf cp) = us ∧ ∀ i e, e ∈ set_entries cp ords i → e = empty_entry (conf cp).
Proof.
  intros Hrun Hn Hb Ha Hlat Ht. pose proof Hrun as Hinv. unfold int_ok in *. unfold cache_create in Hinv.
  do 7 (case_bool_decide; [discriminate Hinv|]).
  destruct (pow2_exists n) as (ib & Hib & ->); [lia|done|].
  destruct (pow2_exists b) as (ob & Hob & ->); [lia|done|].
  destruct (pow2_exists a) as (k & Hk & ->); [lia|done|].
  assert (ib < 31) by (apply (Z.pow_lt_mono_r_iff 2); lia).
  assert (ob < 31) by (apply (Z.pow_lt_mono_r_iff 2); lia).
  assert (k < 31) by (apply (Z.pow_lt_mono_r_iff 2); lia).
  assert (3 ≤ ob) by (apply (Z.pow_le_mono_r_iff 2); lia).
  rewrite !log_base2_pow2 in Hinv by lia. cbn [mbind result_bind] in Hinv.
  case_bool_decide; [discriminate Hinv|]. case_bool_decide; [discriminate Hinv|]. destruct (create_set _); [|discriminate Hinv].
  cbn [mbind result_bind] in Hinv. injection Hinv as Hcp.
  assert (tag_shift (conf cp) = ob + ib) as Hts by by rewrite <- Hcp.
  destruct (cache_create_spec ob ib false us k pol lat) as
    (cp' & ords & Hrun' & Hok & Hba & Hus & _ & _ & _ & _ & _ & _ & He); [lia..|apply (cache_create_blocks ob ib false us k pol lat cp); [lia..|exact Hrun]|lia|].
  rewrite Hrun in Hrun'. injection Hrun' as <-. exists ob, ib, ords. split_and!; try done.
  apply (ck_conf _ _ _ _ Hok).
Qed.

Lemma scan_int_range s v r : scan_int s = Ok (Some (v, r)) → int_ok v.
Proof.
  unfold scan_int. destruct (match skip_space s with String _ _ => _ | EmptyString => _ end) as [neg s1].
  destruct (scan_digits s1 0 0) as [[w n] s2]. case_bool_decide; [done|].
  destruct neg; case_bool_decide; try done; by intros [= <- <-].
Qed.

Lemma scan_colon_range s v r : scan_colon_int s = Ok (Some (v, r)) → int_ok v.
Proof.
  destruct s as [|[[] [] [] [] [] [] [] []] s]; cbn; try done. apply scan_int_range.
Qed.

Lemma scan_cache_range s n b a c : scan_cache s = Ok (Some (n, b, a, c)) → int_ok n ∧ int_ok b ∧ int_ok a.
Proof.
  unfold scan_cache. destruct (scan_name s) as [k s1]. case_bool_decide; [done|]. case_bool_decide; [done|].
  intros (o & Ho & H1)%bind_Ok. destruct o as [[v1 r1]|]; [|done].
  apply bind_Ok in H1 as (o & Ho2 & H2). destruct o as [[v2 r2]|]; [|done].
  apply bind_Ok in H2 as (o & Ho3 & H3). destruct o as [[v3 r3]|]; [|done].
  apply scan_colon_range in Ho, Ho2, Ho3.
  destruct r3 as [|[[] [] [] [] [] [] [] []] [|c' r4]]; try done. by injection H3 as <- <- <- _.
Qed.

(** Invalid blocks are in order, translations included. *)
Lemma cache_from_fine id opt us lat msg cp :
  cache_from opt us lat msg = Ok cp → 0 ≤ us → (is_tlb id = true → us ≠ 0) → 0 ≤ lat < 2 ^ 31 → cache_small cp →
  cache_fine id cp.
Proof.
  unfold cache_from. intros (d & Hd & H)%bind_Ok Hus Hu Hlat [Hbs Hts]. destruct d as [[[[n b] a] c]|]; [|done].
  apply bind_Ok in H as (pol & _ & Hcr). destruct (scan_cache_range _ _ _ _ _ Hd) as (Hn & Hb & Ha).
  destruct (cache_create_inv _ _ _ _ _ _ _ Hcr Hn Hb Ha Hlat Hts) as (ob & ib & ords & Hok & Hob & Hba & Husz & He).
  exists ob, ib, ords. split; [done|]. split.
  { rewrite Hob in Hbs. unfold low_addr in Hbs. apply (Z.pow_le_mono_r_iff 2) in Hbs; lia. }
  split; [done|]. intros i e Hin. rewrite (He i e Hin). split; [|done]. intros Ht. cbn. rewrite Husz.
  by rewrite bool_decide_true by auto.
Qed.

(** ** Functional units *)

Definition fu_with (n1 n2 n3 n4 n5 : Z) : list res_desc :=
  zip_with set_quantity [n1; n2; n3; n4; n5] fu_config.

(** How many entries a pool has in a row of the table. *)
Lemma entries_app c ds1 : ∀ i ds2, length (entries c i (ds1 ++ ds2)) = (length (entries c i ds1) + length (entries c (i + length ds1) ds2))%nat.
Proof.
  induction ds1 as [|d ds1 IH]; intros i ds2; [by rewrite Nat.add_0_r|]. cbn [app entries length].
  rewrite !length_app, IH, Nat.add_assoc. do 3 f_equal. lia.
Qed.

Lemma unit_entries_length c x : ∀ i j i' j', length (unit_entries c i j x) = length (unit_entries c i' j' x).
Proof.
  induction x as [|t x IH]; intros i j i' j'; [done|]. cbn [unit_entries].
  rewrite !length_app, (IH i (S j) i' (S j')). by case_bool_decide.
Qed.

Lemma entries_replicate c d n : ∀ i,
  length (entries c i (replicate n d)) = (n * length (unit_entries c 0 0 (active (templates d))))%nat.
Proof.
  induction n as [|n IH]; intros i; [done|]. cbn [replicate entries]. rewrite length_app, IH.
  rewrite (unit_entries_length c _ i 0 0 0). lia.
Qed.

Lemma length_expand d pool : length (expand (d :: pool)) = (Z.to_nat (quantity d) + length (expand pool))%nat.
Proof. by rewrite expand_cons, length_app, length_replicate. Qed.

Lemma entries_expand c d pool i :
  length (entries c i (expand (d :: pool)))
  = (Z.to_nat (quantity d) * length (unit_entries c 0 0 (active (templates d))) +
     length (entries c (i + Z.to_nat (quantity d)) (expand pool)))%nat.
Proof. by rewrite expand_cons, entries_app, entries_replicate, length_replicate. Qed.

Definition units_range (n : Z) : Prop := 1 ≤ n ≤ Z.of_nat MAX_INSTS_PER_CLASS.

Lemma fu_with_class n1 n2 n3 n4 n5 d t : d ∈ fu_with n1 n2 n3 n4 n5 → t ∈ active (templates d) →
  0 < rt_class t < 12 ∧ 1 ≤ rt_oplat t < 2 ^ 31.
Proof.
  intros Hd. repeat (apply elem_of_cons in Hd as [->|Hd];
    [intros Ht; vm_compute in Ht; repeat (apply elem_of_cons in Ht as [->|Ht]; [vm_compute; repeat split; discriminate|]);
     by apply elem_of_nil in Ht|]). by apply elem_of_nil in Hd.
Qed.

Lemma entries_none c n1 n2 n3 n4 n5 : ¬ 0 ≤ c < 12 → entries c 0 (expand (fu_with n1 n2 n3 n4 n5)) = [].
Proof.
  intros Hc. destruct (entries c 0 _) as [|e es] eqn:He; [done|exfalso].
  destruct (entries_elem c (expand (fu_with n1 n2 n3 n4 n5)) 0 e) as (d & t & Hd & _ & Ht & Htc); [rewrite He; set_solver|].
  apply list_elem_of_lookup_2 in Hd, Ht. unfold expand in Hd.
  apply list_elem_of_bind in Hd as (d' & Hd & Hin). apply elem_of_replicate in Hd as [-> _].
  destruct (fu_with_class _ _ _ _ _ d' t Hin Ht). lia.
Qed.

(** Every class is offered by one kind of unit. *)
Lemma fu_with_rows c n1 n2 n3 n4 n5 :
  units_range n1 → units_range n2 → units_range n3 → units_range n4 → units_range n5 → 0 ≤ c < 12 →
  (length (entries c 0 (expand (fu_with n1 n2 n3 n4 n5))) ≤ 8)%nat ∧
  (0 < c → entries c 0 (expand (fu_with n1 n2 n3 n4 n5)) ≠ []).
Proof.
  unfold units_range. change (Z.of_nat MAX_INSTS_PER_CLASS) with 8. intros H1 H2 H3 H4 H5 Hc.
  set (l := entries c 0 _). assert ((length l ≤ 8)%nat ∧ (0 < c → (1 ≤ length l)%nat)) as [? Hl].
  { unfold l, fu_with, fu_config. cbn [zip_with]. rewrite !entries_expand.
    cbn [expand mbind list_bind entries length quantity set_quantity].
    assert (1 ≤ Z.to_nat n1 ≤ 8 ∧ 1 ≤ Z.to_nat n2 ≤ 8 ∧ 1 ≤ Z.to_nat n3 ≤ 8 ∧ 1 ≤ Z.to_nat n4 ≤ 8 ∧ 1 ≤ Z.to_nat n5 ≤ 8)%nat as Hq by lia.
    revert Hq. generalize (Z.to_nat n1) (Z.to_nat n2) (Z.to_nat n3) (Z.to_nat n4) (Z.to_nat n5). clear -Hc.
    intros k1 k2 k3 k4 k5 Hq. assert (c ∈ [0; 1; 2; 3; 4; 5; 6; 7; 8; 9; 10; 11]) as Hin.
    { change ([0; 1; 2; 3; 4; 5; 6; 7; 8; 9; 10; 11]) with (Z.of_nat <$> seq 0 12).
      apply list_elem_of_fmap. exists (Z.to_nat c). rewrite elem_of_seq. lia. }
    repeat (apply elem_of_cons in Hin as [->|Hin]; [vm_compute (unit_entries _ _ _ _); cbn [length]; lia|]).
    by apply elem_of_nil in Hin. }
  split; [done|]. intros Hpos Hnil. rewrite Hnil in Hl. specialize (Hl Hpos). cbn in Hl. lia.
Qed.

Lemma fu_with_ok n1 n2 n3 n4 n5 :
  units_range n1 → units_range n2 → units_range n3 → units_range n4 → units_range n5 →
  config_ok (fu_with n1 n2 n3 n4 n5).
Proof.
  intros H1 H2 H3 H4 H5. split.
  - unfold units_range in *. intros d Hd.
    repeat (apply elem_of_cons in Hd as [->|Hd]; [cbn [quantity set_quantity]; lia|]). by apply elem_of_nil in Hd.
  - intros d t Hd Ht. pose proof (fu_with_class _ _ _ _ _ d t Hd Ht). unfold MAX_RES_CLASSES. lia.
  - intros c. destruct (decide (0 ≤ c < 12)) as [Hc|Hc].
    + apply (fu_with_rows c); done.
    + rewrite (entries_none c); cbn; lia.
  - unfold units_range in *. change (Z.of_nat MAX_INSTS_PER_CLASS) with 8 in *.
    unfold fu_with, fu_config. cbn [zip_with]. rewrite !length_expand. cbn [quantity set_quantity expand mbind list_bind length]. lia.
Qed.

(** ** Predictors *)

(** Sizes that the predictors and the BTB can index with an [int]. *)
Record pred_small (o : sim_options) : Prop := {
  ps_bimod : - 2 ^ 31 < o_bimod_config o < 2 ^ 31;
  ps_l1 : - 2 ^ 31 < (o_twolev_config o).1.1.1 < 2 ^ 31;
  ps_l2 : - 2 ^ 31 < (o_twolev_config o).1.1.2 < 2 ^ 31;
  ps_hist : int_ok (o_twolev_config o).1.2;
  ps_meta : - 2 ^ 31 < o_comb_config o < 2 ^ 31;
  ps_sets : - 2 ^ 31 < (o_btb_config o).1 < 2 ^ 31;
  ps_assoc : - 2 ^ 31 < (o_btb_config o).2 < 2 ^ 31;
  ps_btb : (o_btb_config o).1 * (o_btb_config o).2 < 2 ^ 31;
  ps_ras : - 2 ^ 31 < o_ras_size o < 2 ^ 31
}.

(** An [int] whose unsigned value passes the test of [bpred_create]. *)
Lemma pow2_u32 n : - 2 ^ 31 < n < 2 ^ 31 → u32 n ≠ 0 → Z.land (u32 n) (u32 (u32 n - 1)) = 0 →
  ∃ k, 0 ≤ k < 31 ∧ n = 2 ^ k ∧ u32 n = 2 ^ k.
Proof.
  intros Hn H0 Hl. pose proof (u32_range n) as Hr. rewrite (u32_small (u32 n - 1)) in Hl by lia.
  destruct (pow2_exists (u32 n)) as (k & Hk & He); [lia|done|].
  assert (k < 32) by (apply (Z.pow_lt_mono_r_iff 2); lia).
  assert (k ≠ 31) as Hk31.
  { intros ->. destruct (decide (0 ≤ n)); [rewrite u32_small in He by lia; lia|].
    assert (u32 n = n + 2 ^ 32) as E; [|lia]. unfold u32. rewrite <- (Z.mod_small (n + 2 ^ 32) (2 ^ 32)) by lia.
    by rewrite <- (Z.mod_add n 1 (2 ^ 32)), Z.mul_1_l by lia. }
  assert (2 ^ k ≤ 2 ^ 30) by (apply Z.pow_le_mono_r; lia).
  exists k. split; [lia|]. split; [|done]. destruct (decide (0 ≤ n)); [by rewrite u32_small in He by lia|].
  assert (u32 n = n + 2 ^ 32) as E; [|lia]. unfold u32. rewrite <- (Z.mod_small (n + 2 ^ 32) (2 ^ 32)) by lia.
  by rewrite <- (Z.mod_add n 1 (2 ^ 32)), Z.mul_1_l by lia.
Qed.

Lemma pow2_nonzero_inv n : - 2 ^ 31 < n < 2 ^ 31 → pow2_nonzero (u32 n) = true → ∃ k, 0 ≤ k < 31 ∧ n = 2 ^ k ∧ u32 n = 2 ^ k.
Proof.
  unfold pow2_nonzero. intros Hn [H0 Hl]%andb_true_iff. apply negb_true_iff, bool_decide_eq_false in H0.
  apply bool_decide_eq_true in Hl. by apply pow2_u32.
Qed.

Lemma create_2bit_inv n d : - 2 ^ 31 < n < 2 ^ 31 → bpred_dir_create BPred2bit (u32 n) 0 0 0 = Ok d →
  ∃ k, 0 ≤ k < 31 ∧ u32 n = 2 ^ k.
Proof.
  intros Hn. cbn [bpred_dir_create]. destruct (pow2_nonzero (u32 n)) eqn:Hp; [|done]. intros _.
  destruct (pow2_nonzero_inv n Hn Hp) as (k & ? & _ & ?). by exists k.
Qed.

Lemma create_two_inv l1 l2 w x d : - 2 ^ 31 < l1 < 2 ^ 31 → - 2 ^ 31 < l2 < 2 ^ 31 →
  bpred_dir_create BPred2Level (u32 l1) (u32 l2) (u32 w) x = Ok d →
  ∃ k1 k2, 0 ≤ k1 < 31 ∧ 0 ≤ k2 < 31 ∧ u32 l1 = 2 ^ k1 ∧ u32 l2 = 2 ^ k2 ∧ 1 ≤ u32 w ≤ 30.
Proof.
  intros H1 H2. cbn [bpred_dir_create]. destruct (pow2_nonzero (u32 l1)) eqn:Hp1; [|done].
  destruct (pow2_nonzero (u32 l2)) eqn:Hp2; [|done]. cbn [negb]. case_bool_decide as Hw; [done|]. intros _.
  destruct (pow2_nonzero_inv l1 H1 Hp1) as (k1 & ? & _ & ?). destruct (pow2_nonzero_inv l2 H2 Hp2) as (k2 & ? & _ & ?).
  pose proof (u32_range w). exists k1, k2. split_and!; done || lia.
Qed.

Lemma stateful_inv p0 o p : pred_small o →
  bpred_create_stateful p0 (u32 (o_btb_config o).1) (u32 (o_btb_config o).2) (u32 (o_ras_size o)) = Ok p →
  ∃ a c, 0 ≤ a ∧ 0 ≤ c ∧ a + c < 31 ∧ u32 (o_btb_config o).1 = 2 ^ a ∧ u32 (o_btb_config o).2 = 2 ^ c ∧
    (u32 (o_ras_size o) = 0 ∨ ∃ k, 0 ≤ k < 31 ∧ u32 (o_ras_size o) = 2 ^ k).
Proof.
  intros []. unfold bpred_create_stateful. destruct (pow2_nonzero (u32 (o_btb_config o).1)) eqn:Ha; [|done].
  destruct (pow2_nonzero (u32 (o_btb_config o).2)) eqn:Hc; [|done]. cbn [negb]. case_bool_decide as Hr; [done|]. intros _.
  destruct (pow2_nonzero_inv _ ps_sets0 Ha) as (a & ? & Ea & ?). destruct (pow2_nonzero_inv _ ps_assoc0 Hc) as (c & ? & Ec & ?).
  exists a, c. split_and!; [lia|lia| |done|done|].
  - rewrite Ea, Ec, <- Z.pow_add_r in ps_btb0 by lia. apply (Z.pow_lt_mono_r_iff 2); lia.
  - destruct (decide (u32 (o_ras_size o) = 0)) as [|Hne]; [by left|right].
    destruct (pow2_u32 _ ps_ras0 Hne Hr) as (k & ? & _ & ?). by exists k.
Qed.

(** What [create_pred] returns is well formed. *)
Lemma create_pred_ok o class b two m p :
  create_pred o class b two m = Ok p → stateful class → pred_small o → - 2 ^ 31 < b < 2 ^ 31 → - 2 ^ 31 < m < 2 ^ 31 →
  - 2 ^ 31 < two.1.1.1 < 2 ^ 31 → - 2 ^ 31 < two.1.1.2 < 2 ^ 31 → pred_ok p.
Proof.
  destruct two as [[[l1 l2] w] x]. cbn [fst snd]. unfold create_pred. intros (bp & Hcr & [= <-])%bind_Ok Hst Hsm Hb Hm H1 H2.
  intros ? [= <-]. left.
  assert (∃ kb k1 k2 km w' x', 0 ≤ kb < 31 ∧ 0 ≤ k1 < 31 ∧ 0 ≤ k2 < 31 ∧ 0 ≤ km < 31 ∧ 1 ≤ w' ≤ 30 ∧
    bpred_create class (2 ^ kb) (2 ^ k1) (2 ^ k2) (2 ^ km) w' x' (u32 (o_btb_config o).1) (u32 (o_btb_config o).2) (u32 (o_ras_size o)) = Ok bp ∧
    ∃ p0, bpred_create_stateful p0 (u32 (o_btb_config o).1) (u32 (o_btb_config o).2) (u32 (o_ras_size o)) = Ok bp) as
    (kb & k1 & k2 & km & w' & x' & ? & ? & ? & ? & ? & Hrun & p0 & Hs).
  { destruct class; [| | |by destruct Hst..]; pose proof Hcr as Hinv; cbn [bpred_create] in Hinv.
    - apply bind_Ok in Hinv as (db & Hdb & Hinv). apply bind_Ok in Hinv as (dt & Hdt & Hinv).
      apply bind_Ok in Hinv as (dm & Hdm & Hinv).
      destruct (create_2bit_inv _ _ Hb Hdb) as (kb & ? & Eb). destruct (create_2bit_inv _ _ Hm Hdm) as (km & ? & Em).
      destruct (create_two_inv _ _ _ _ _ H1 H2 Hdt) as (k1 & k2 & ? & ? & E1 & E2 & ?).
      exists kb, k1, k2, km, (u32 w), (u32 x). rewrite <- Eb, <- Em, <- E1, <- E2. split_and!; try lia; eauto.
    - apply bind_Ok in Hinv as (dt & Hdt & Hinv).
      destruct (create_two_inv _ _ _ _ _ H1 H2 Hdt) as (k1 & k2 & ? & ? & E1 & E2 & ?).
      exists 0, k1, k2, 0, (u32 w), (u32 x). rewrite <- E1, <- E2. split_and!; try lia; eauto.
    - apply bind_Ok in Hinv as (db & Hdb & Hinv). destruct (create_2bit_inv _ _ Hb Hdb) as (kb & ? & Eb).
      exists kb, 0, 0, 0, 1, 0. rewrite <- Eb. split_and!; try lia; eauto. }
  destruct (stateful_inv p0 o bp Hsm Hs) as (a & c & Ha & Hc & Hac & Ea & Ec & Hras). rewrite Ea, Ec in Hrun.
  destruct (create_classes_ok class kb k1 k2 km w' x' a c (u32 (o_ras_size o)) Hst) as (p' & ords & Hrun' & Hok & Hcl & _); try done.
  rewrite Hrun in Hrun'. injection Hrun' as <-. rewrite Hcl. split; [done|by exists ords].
Qed.

Lemma static_pred_ok class : ¬ stateful class → ∀ x, bpred_create class 0 0 0 0 0 0 0 0 0 = Ok x → pred_ok (Some x).
Proof.
  intros Hst x Hx ? [= <-]. right. destruct (stateless_class class Hst) as [-> | ->]; by injection Hx as <-.
Qed.

#[local] Arguments create_pred : simpl never.
#[local] Arguments bpred_create : simpl never.

Lemma check_pred_ok o p b : check_pred o = Ok (p, b) → pred_small o → pred_ok p.
Proof.
  intros Hrun Hsm. pose proof Hsm as []. unfold check_pred in Hrun.
  repeat match type of Hrun with (if ?c then _ else _) = _ => destruct c end; [..|discriminate Hrun]; inv_ok;
    try match goal with
    | H : create_pred _ _ _ _ _ = _ |- _ => apply create_pred_ok in H; [exact H|by split|exact Hsm|cbn [fst snd]; first [done|lia]..]
    | H : bpred_create _ _ _ _ _ _ _ _ _ _ = _ |- _ => apply static_pred_ok in H; [exact H|by intros []]
    end.
  intros ? [=].
Qed.

(** ** Hierarchy *)

#[local] Arguments cache_from : simpl never.

(** A cache of its own that the check made. *)
Definition made (us lat : Z) (c : option cache_t) : Prop :=
  ∀ cp, c = Some cp → ∃ opt msg, cache_from opt us lat msg = Ok cp.

Lemma made_fine id us lat c cp :
  made us lat c → c = Some cp → 0 ≤ us → (is_tlb id = true → us ≠ 0) → 0 ≤ lat < 2 ^ 31 → cache_small cp → cache_fine id cp.
Proof. intros Hm Hc. destruct (Hm cp Hc) as (opt & msg & Hrun). by eapply cache_from_fine. Qed.

Lemma made_None us lat : made us lat None.
Proof. by intros cp. Qed.

Lemma made_Some opt us lat msg cp : cache_from opt us lat msg = Ok cp → made us lat (Some cp).
Proof. intros H ? [= <-]. eauto. Qed.

Lemma unless_none_made opt us lat msg c s : unless_none s (cache_from opt us lat msg) = Ok c → made us lat c.
Proof.
  unfold unless_none. destruct (stricmp_eq s "none"); [intros [= <-]; apply made_None|].
  intros (cp & Hcp & [= <-])%bind_Ok. by eapply made_Some.
Qed.

#[local] Hint Resolve made_None made_Some unless_none_made : core.

Lemma check_dcaches_made o d1 d2 : check_dcaches o = Ok (d1, d2) →
  made 0 (u32 (o_cache_dl1_lat o)) d1 ∧ made 0 (u32 (o_cache_dl2_lat o)) d2.
Proof.
  unfold check_dcaches. destruct (stricmp_eq _ _).
  - intros (? & _ & [= <- <-])%bind_Ok. by split.
  - intros (cp & Hcp & H)%bind_Ok. apply bind_Ok in H as (c & Hc & H). injection H as <- <-. eauto.
Qed.

(** The instruction pointers point at caches that exist. *)
Lemma check_icaches_made o d1 d2 p1 p2 c1 c2 : check_icaches o d1 d2 = Ok (p1, p2, c1, c2) →
  made 0 (u32 (o_cache_il1_lat o)) c1 ∧ made 0 (u32 (o_cache_il2_lat o)) c2 ∧
  (∀ id, p1 = Some id → (id = IL1 ∧ is_Some c1) ∨ (id = DL1 ∧ is_Some d1) ∨ (id = DL2 ∧ is_Some d2)) ∧
  (∀ id, p2 = Some id → (id = IL2 ∧ is_Some c2) ∨ (id = DL2 ∧ is_Some d2)).
Proof.
  unfold check_icaches. destruct (stricmp_eq _ "none").
  { intros (? & _ & [= <- <- <- <-])%bind_Ok. split_and!; done. }
  destruct (stricmp_eq _ "dl1").
  { intros (? & Hd & H)%bind_Ok. destruct d1 as [d|]; [|discriminate Hd]. apply bind_Ok in H as (? & _ & H).
    injection H as <- <- <- <-. split_and!; [done..| |done]. intros id [= <-]. eauto. }
  destruct (stricmp_eq _ "dl2").
  { intros (? & Hd & H)%bind_Ok. destruct d2 as [d|]; [|discriminate Hd]. apply bind_Ok in H as (? & _ & H).
    injection H as <- <- <- <-. split_and!; [done..| |done]. intros id [= <-]. eauto. }
  intros (x1 & Hx1 & H)%bind_Ok. destruct (stricmp_eq _ "none").
  { injection H as <- <- <- <-. split_and!; [by eauto|done| |done]. intros id [= <-]. eauto. }
  destruct (stricmp_eq _ "dl2").
  - apply bind_Ok in H as (? & Hd & H). destruct d2 as [d|]; [|discriminate Hd]. injection H as <- <- <- <-.
    split_and!; [by eauto|done|intros id [= <-]; eauto..].
  - apply bind_Ok in H as (x2 & Hx2 & H). injection H as <- <- <- <-.
    split_and!; [by eauto|by eauto|intros id [= <-]; eauto..].
Qed.

(** The ints that the options hold, and the sizes that the check does not bound. *)
Record options_small (o : sim_options) (ck : checked) : Prop := {
  os_pred : pred_small o;
  os_dl1_lat : o_cache_dl1_lat o < 2 ^ 31;
  os_dl2_lat : o_cache_dl2_lat o < 2 ^ 31;
  os_il1_lat : o_cache_il1_lat o < 2 ^ 31;
  os_il2_lat : o_cache_il2_lat o < 2 ^ 31;
  os_bus : o_mem_bus_width o < 2 ^ 31;
  os_caches id cp : ck_caches ck id = Some cp → cache_small cp;
  os_fits id id2 cp cp2 : next_level (ck_hier ck) id = Some id2 → ck_caches ck id = Some cp → ck_caches ck id2 = Some cp2 →
    bsize (conf cp) ≤ bsize (conf cp2)
}.

Record parts_ok (o : sim_options) (ck : checked) : Prop := {
  pt_pred : pred_ok (ck_pred ck);
  pt_conf : conf_wf (ck_hier ck);
  pt_hier R (r : R) : hier_ok (ck_hier ck) (mkHier (ck_caches ck) r);
  pt_fu : config_ok (ck_fu ck);
  pt_lat d t : d ∈ ck_fu ck → t ∈ active (templates d) → 1 ≤ rt_oplat t < 2 ^ 31;
  pt_unit k : 0 < k < 12 → has_unit (ck_fu ck) k;
  pt_ruu : 2 ≤ o_RUU_size o;
  pt_lsq : 2 ≤ o_LSQ_size o;
  pt_ifq : 1 ≤ o_ruu_ifq_size o
}.

Lemma check_units_range n msg msg' u : check_units n msg msg' = Ok u → units_range n.
Proof.
  unfold check_units, units_range. intros (? & H1%fatal_if_Ok & H2%fatal_if_Ok)%bind_Ok.
  apply bool_decide_eq_false in H1, H2. lia.
Qed.

Lemma check_fu_ok o fu : check_fu o = Ok fu →
  config_ok fu ∧ (∀ d t, d ∈ fu → t ∈ active (templates d) → 1 ≤ rt_oplat t < 2 ^ 31) ∧ ∀ k, 0 < k < 12 → has_unit fu k.
Proof.
  unfold check_fu. intros (? & H1%check_units_range & H)%bind_Ok. apply bind_Ok in H as (? & H2%check_units_range & H).
  apply bind_Ok in H as (? & H3%check_units_range & H). apply bind_Ok in H as (? & H4%check_units_range & H).
  apply bind_Ok in H as (? & H5%check_units_range & H). injection H as <-.
  split; [by apply fu_with_ok|]. split.
  - intros d t Hd Ht. apply (fu_with_class _ _ _ _ _ d t Hd Ht).
  - intros k Hk. split; [lia|]. apply (fu_with_rows k); try done; lia.
Qed.

(** A guard that did not stop the check, and a part that it made. *)
Ltac passed H G := apply bind_Ok in H as (? & G%fatal_if_Ok & H).

Lemma tlb_made s c : check_tlb s = Ok c → made 4 1 c.
Proof. apply unless_none_made. Qed.

(** The parts that an accepted check made. *)
Lemma options_made o ck : sim_check_options o = Ok ck →
  (∃ b, check_pred o = Ok (ck_pred ck, b)) ∧ check_fu o = Ok (ck_fu ck) ∧
  made 0 (u32 (o_cache_dl1_lat o)) (ck_caches ck DL1) ∧ made 0 (u32 (o_cache_dl2_lat o)) (ck_caches ck DL2) ∧
  made 0 (u32 (o_cache_il1_lat o)) (ck_caches ck IL1) ∧ made 0 (u32 (o_cache_il2_lat o)) (ck_caches ck IL2) ∧
  made 4 1 (ck_caches ck ITLB) ∧ made 4 1 (ck_caches ck DTLB) ∧
  1 ≤ o_cache_dl1_lat o ∧ 1 ≤ o_cache_dl2_lat o ∧ 1 ≤ o_cache_il1_lat o ∧ 1 ≤ o_cache_il2_lat o ∧
  mem_bus_width (ck_hier ck) = o_mem_bus_width o ∧ not_pow2 1 (o_mem_bus_width o) = false ∧
  2 ≤ o_RUU_size o ∧ 2 ≤ o_LSQ_size o ∧ 1 ≤ o_ruu_ifq_size o ∧
  cache_dl1 (ck_hier ck) = ptr DL1 (ck_caches ck DL1) ∧ cache_dl2 (ck_hier ck) = ptr DL2 (ck_caches ck DL2) ∧
  itlb (ck_hier ck) = ptr ITLB (ck_caches ck ITLB) ∧ dtlb (ck_hier ck) = ptr DTLB (ck_caches ck DTLB) ∧
  (∀ id, cache_il1 (ck_hier ck) = Some id → id ∈ [IL1; DL1; DL2] ∧ is_Some (ck_caches ck id)) ∧
  (∀ id, cache_il2 (ck_hier ck) = Some id → id ∈ [IL2; DL2] ∧ is_Some (ck_caches ck id)).
Proof.
  unfold sim_check_options. intros H. passed H G1. passed H Gifq. passed H G2. passed H G3.
  apply bind_Ok in H as ([p b] & Hpred & H). cbv beta iota in H. apply bind_Ok in H as (sp & _ & H).
  passed H G4. passed H G5. passed H G6. passed H Gruu. passed H Glsq.
  apply bind_Ok in H as ([d1 d2] & Hd & H). cbv beta iota in H.
  apply bind_Ok in H as ([[[p1 p2] c1] c2] & Hi & H). cbv beta iota in H.
  apply bind_Ok in H as (t1 & Ht1 & H). apply bind_Ok in H as (t2 & Ht2 & H).
  passed H L1. passed H L2. passed H L3. passed H L4. passed H G7. passed H G8. passed H Gbus. passed H G9.
  apply bind_Ok in H as (fu & Hfu & H). injection H as <-.
  destruct (check_dcaches_made _ _ _ Hd) as [Hd1 Hd2].
  destruct (check_icaches_made _ _ _ _ _ _ _ Hi) as (Hc1 & Hc2 & Hp1 & Hp2).
  apply tlb_made in Ht1. apply tlb_made in Ht2.
  apply bool_decide_eq_false in L1, L2, L3, L4.
  destruct (not_pow2_false _ _ Gruu) as (? & _ & _ & ?); [lia|].
  destruct (not_pow2_false _ _ Glsq) as (? & _ & _ & ?); [lia|].
  destruct (not_pow2_false _ _ Gifq) as (? & _ & _ & ?); [lia|].
  cbn. split_and!; try done; try lia; [by exists b|..].
  - intros id Hid. destruct (Hp1 id Hid) as [[-> ?]|[[-> ?]|[-> ?]]]; split; set_solver.
  - intros id Hid. destruct (Hp2 id Hid) as [[-> ?]|[-> ?]]; split; set_solver.
Qed.

(** What the options accept fits together. *)
Lemma options_parts o ck : sim_check_options o = Ok ck → options_small o ck → parts_ok o ck.
Proof.
  intros Hrun [Hps S1 S2 S3 S4 Sbus Scaches Sfits].
  destruct (options_made o ck Hrun) as ([b Hpred] & Hfu & M1 & M2 & M3 & M4 & M5 & M6 & L1 & L2 & L3 & L4 & Ebus & Gbus & Hruu &
    Hlsq & Hifq & P1 & P2 & P3 & P4 & P5 & P6).
  destruct (check_fu_ok _ _ Hfu) as (F1 & F2 & F3).
  assert (∀ id id' d, ptr id d = Some id' → id' = id ∧ is_Some d) as Hptr' by (intros id id' [d|] [= <-]; by split; [|eexists]).
  split; try done.
  - by eapply check_pred_ok.
  - destruct (not_pow2_false _ _ Gbus) as (k & Hk & Ek & _); [lia|]. split.
    + rewrite Ebus, Ek in *. split; [lia|]. apply Z.pow_le_mono_r; [lia|].
      assert (k < 31); [|lia]. apply (Z.pow_lt_mono_r_iff 2); lia.
    + intros id. rewrite P1. intros H%Hptr'. apply H.
    + intros id. rewrite P2. intros H%Hptr'. apply H.
    + intros id Hid. destruct (P5 id Hid) as [Hin _]. set_solver.
    + intros id Hid. destruct (P6 id Hid) as [Hin _]. set_solver.
    + intros id. rewrite P3. intros H%Hptr'. apply H.
    + intros id. rewrite P4. intros H%Hptr'. apply H.
  - intros R r. split; cbn; [| |exact Sfits].
    + intros id cp Hid. assert (∀ z, 1 ≤ z → z < 2 ^ 31 → 0 ≤ u32 z < 2 ^ 31) as Hu by (intros; rewrite u32_small; lia).
      destruct id; (eapply made_fine; [|exact Hid|..]; [eassumption|lia|done| |by eapply Scaches]); first [by apply Hu|lia].
    + intros id Hid. unfold pointed in Hid. rewrite P1, P2, P3, P4 in Hid.
      repeat (apply elem_of_cons in Hid as [Hid|Hid]; [symmetry in Hid; first [by destruct (P5 id Hid)|by destruct (P6 id Hid)|by destruct (Hptr' _ _ _ Hid) as [-> ?]]|]).
      by apply elem_of_nil in Hid.
Qed.
