(* ===== verification/OooMachine.v ===== *)
(** * The whole machine

    A core with the caches, predictor and units that the options describe, over registers
    and memory with their wrong-path copies.  A simulation of a program that keeps to its
    text and data ends without a panic of its own, and computes what the functional
    simulation computes. *)

From S2P Require Import Prelude Misc Memory MemorySpec Bpred Resource ResourceSpec Ruu RuuStages RuuFront RuuUnits RuuCore RuuInv RuuRun.
From S2P Require Import RuuPath RuuTransparent SpecState SpecRegs SpecMain Isa Cache Hier HierSpec OooHier Options OptionsOk.

Section Arch.
Context {R : Type} (random : R → Z * R) (hc : hier_conf) (bugcompat : bool) (m : isa) (ld : segments).
Context (fu : list res_desc) (Hld : segments_ok ld) (Hisa : isa_ok m fu).
Implicit Types s : machine_state R.
#[local] Existing Instance machine_env.
Abbreviation E := (machine_env random hc bugcompat m ld).

Definition state_same s s' : Prop := arch_same (trace s) (trace s').

#[local] Instance state_same_equiv : Equivalence state_same.
Proof.
  split; [by intros s|by intros s s' H; unfold state_same; symmetry|].
  intros s1 s2 s3 H1 H2. unfold state_same. by etrans.
Qed.

Lemma access_same b p cmd addr k now s o s' : tracer_at b (trace s) →
  access_port random hc p cmd addr k now s = Ok (o, s') → state_same s s' ∧ tracer_at b (trace s').
Proof.
  intros Ht. unfold access_port. destruct (port _ _ _ _ _ _ _ _) as [[o' h]|]; [|done]. by intros [= <- <-].
Qed.

Lemma reset_same s s' : tracer_at true (trace s) → reset_trace s = Ok s' → state_same s s' ∧ tracer_at false (trace s').
Proof.
  intros [Ht _]. destruct (tracer_ok_sim _ Ht) as [o Ho].
  destruct (tracer_reset_sim _ _ _ _ Ho) as (t' & Hrun & Ho' & Ha & Hm). unfold reset_trace. rewrite Hrun. intros [= <-].
  cbn [trace]. split; [split; cbn [trace]; [by rewrite Ha|by rewrite Hm]|].
  split; [destruct Ho'; split; [done..|by eexists]|]. intros _ b bit. unfold tracer_reset in Hrun.
  destruct (release_buckets _ _); [|done]. injection Hrun as <-. destruct b; apply bit_in_clear.
Qed.

Lemma text_fetch pc (t t' : tracer) : same_bytes (t_mem t) (t_mem t') → in_text (Environment0 := E) pc = true →
  isa_fetch m pc (mem_byte (t_mem t)) = isa_fetch m pc (mem_byte (t_mem t')).
Proof.
  intros Hb Ht. apply (is_fetch _ _ Hisa). intros a Ha. apply Hb. destruct Hld.
  unfold in_text, low_addr, high_addr in *. cbn [ld_text_base ld_text_size machine_env] in Ht. rewrite u32_small in Ht by lia.
  rewrite !andb_true_iff, !bool_decide_eq_true in Ht. unfold inst_size in Ha. lia.
Qed.

(** The machine's registers and memory are those of the program. *)
Definition machine_arch : EnvArch (Environment0 := E) (machine_state R).
Proof.
  refine {| arch_eq := state_same; arch_inv b s := tracer_at b (trace s); ar_valid i := isa_valid m i = true |}.
  - intros s [H1 H2]. by split.
  - intros *. apply access_same.
  - intros *. apply access_same.
  - intros *. apply access_same.
  - intros *. apply access_same.
  - apply reset_same.
  - intros i pc s x s' Hval Ht. change (exec_inst bugcompat m ld true (isa_opcode m i) i pc s = Ok (x, s') → state_same s s' ∧ tracer_at true (trace s')).
    unfold exec_inst.
    destruct (exec_sem_spec bugcompat (isa_cross_endian m) (text_base ld) (text_size ld) (data_base ld) (stack_base ld) _ _ _
      (is_sem _ _ Hisa i pc Hval) Ht) as (x0 & t' & -> & _ & Ht' & Hs). by intros [= <- <-].
  - intros i pc s1 s2 x s1' Hval H1 H2 Hs. change (exec_inst bugcompat m ld false (isa_opcode m i) i pc s1 = Ok (x, s1') →
      ∃ s2', exec_inst bugcompat m ld false (isa_opcode m i) i pc s2 = Ok (x, s2') ∧ state_same s1' s2' ∧
        tracer_at false (trace s1') ∧ tracer_at false (trace s2')).
    unfold exec_inst.
    destruct (exec_sem_arch bugcompat (isa_cross_endian m) (text_base ld) (text_size ld) (data_base ld) (stack_base ld) _ _ _ _
      (is_sem _ _ Hisa i pc Hval) H1 H2 Hs) as (x0 & t1 & t2 & -> & -> & _ & Ht1 & Ht2 & Hss). intros [= <- <-].
    eexists. split; [reflexivity|]. by split_and!.
  - apply (is_nop_inst _ _ Hisa).
  - intros pc s1 s2 [_ Hb] Ht. by apply text_fetch.
Defined.
End Arch.

(** ** Simulations of a machine *)

Section Machine.
Context {R : Type} (random : R → Z * R) (m : isa) (ld : segments).
Context (o : sim_options) (ck : checked) (inorder include_spec bugcompat compress : bool) (max_insts : Z).

Definition sim_env : Environment (machine_state R) := machine_env random (ck_hier ck) bugcompat m ld.
#[local] Existing Instance sim_env.

Definition sim_config : config := core_config o ck inorder include_spec bugcompat compress max_insts.

(** Empty caches, and the trace generator as the loader leaves it. *)
Definition initial_state (r : R) (t : tracer) : machine_state R := mkState (mkHier (ck_caches ck) r) t.

(** The program stays in its text, does not write it, has no bogus instruction, and stores
    in the range of the hierarchy, until a fault stops it; the text is made of valid
    instructions. *)
Definition safe_program (entry : Z) (s0 : machine_state R) : Prop := ∀ j pc s, fast_forward j entry s0 = Ok (pc, s) →
  (in_text pc = true ∧ ∀ pc', in_text pc' = true → isa_valid m (MD_FETCH_INST pc' s) = true) ∧ let i := MD_FETCH_INST pc s in
  ∀ x s', md_exec false (MD_SET_OPCODE i) i pc s = Ok (x, s') → x_fault x = md_fault_none →
    proper_out (MD_SET_OPCODE i) x = true ∧ ∀ pc', in_text pc' = true → MD_FETCH_INST pc' s' = MD_FETCH_INST pc' s.

(** The core is sound and has computed what the functional simulation computes. *)
Definition agrees (entry : Z) (s0 : machine_state R) (c : core (machine_state R)) : Prop :=
  sound sim_config c ∧ ∃ k pc s, fast_forward k entry s0 = Ok (pc, s) ∧ arch_same (trace s) (trace (ports (mach c))) ∧
    counters (front c) sim_num_insn = i64 (Z.of_nat k).

Lemma safe_proper `{!EnvArch (machine_state R)} entry s0 : (∀ i, ar_valid i ↔ isa_valid m i = true) →
  safe_program entry s0 → proper_program entry s0.
Proof.
  intros Hv H j pc s Hj. destruct (H j pc s Hj) as [[Ht Hval] Hx]. split; [split; [done|]; intros; by apply Hv, Hval|]. intros x s' Hrun Hf.
  destruct (Hx x s' Hrun Hf) as [Hp Htext]. split; [|done]. unfold proper_out in Hp. apply andb_true_iff in Hp as [Hp _].
  by apply bool_decide_eq_true in Hp.
Qed.

Section Run.
Context (Hck : sim_check_options o = Ok ck) (Hsmall : options_small o ck).
Context (Hld : segments_ok ld) (Hisa : isa_ok m (ck_fu ck)).

Definition sim_arch : EnvArch (machine_state R) := machine_arch random (ck_hier ck) bugcompat m ld (ck_fu ck) Hld Hisa.
#[local] Existing Instance sim_arch.
Abbreviation guarded := (exec_guarded bugcompat m ld).

Lemma guarded_spec i pc (s : machine_state R) : ar_valid i →
  guarded true (MD_SET_OPCODE i) i pc s = md_exec true (MD_SET_OPCODE i) i pc s.
Proof. intros Hval. unfold exec_guarded. rewrite (Hval : isa_valid m i = true). cbn [negb]. generalize (MD_SET_OPCODE i). intros op. change (md_exec true op i pc s) with (exec_inst bugcompat m ld true op i pc s). by destruct (exec_inst _ _ _ _ _ _ _ _) as [[]|]. Qed.

Lemma guarded_prog entry s0 : safe_program entry s0 → ∀ j pc s s',
  fast_forward j entry s0 = Ok (pc, s) → arch_inv false s → arch_inv false s' → arch_eq s s' →
  let i := MD_FETCH_INST pc s in guarded false (MD_SET_OPCODE i) i pc s' = md_exec false (MD_SET_OPCODE i) i pc s'.
Proof.
  intros Hsafe j pc s s' Hj Hs Hs' He i. destruct (Hsafe j pc s Hj) as [[Ht Hval] Hp]. specialize (Hval pc Ht). fold i in Hval.
  unfold exec_guarded. rewrite Hval. cbn [negb].
  change (md_exec false (MD_SET_OPCODE i) i pc s') with (exec_inst bugcompat m ld false (MD_SET_OPCODE i) i pc s').
  destruct (exec_inst bugcompat m ld false (MD_SET_OPCODE i) i pc s') as [[x s1']|] eqn:Hx; [|done]. cbn [mbind result_bind].
  assert (ar_valid i) as Hvi by exact Hval.
  destruct (ar_exec i pc s' s x s1' Hvi Hs' Hs (symmetry He) Hx) as (s1 & Hx1 & _).
  destruct (decide (x_fault x = md_fault_none)) as [Hf|Hf].
  - assert (proper_out (MD_SET_OPCODE i) x = true) as Hpo by exact (proj1 (Hp x s1 Hx1 Hf)).
    unfold i in *. cbv beta. rewrite Hpo, orb_true_r. done.
  - by rewrite (bool_decide_true (x_fault x ≠ md_fault_none)), orb_true_r.
Qed.

#[local] Instance sim_spec : EnvSpec (machine_state R) := machine_spec (ck_hier ck).
Abbreviation G := (with_exec sim_env guarded).

Lemma sim_setup : setup (Environment0 := G) sim_config (ck_fu ck).
Proof.
  destruct (options_parts o ck Hck Hsmall). split; try done; cbn; try lia.
  by apply machine_env_ok.
Qed.

Lemma sim_starts pool r t entry : res_create_pool (ck_fu ck) = Ok pool → tracer_ok t →
  starts sim_config (ck_fu ck) (sim_load_prog sim_config pool (ck_pred ck) (initial_state r t) entry).
Proof.
  destruct (options_parts o ck Hck Hsmall). intros Hpool Ht. exists pool, (ck_pred ck), (initial_state r t), entry.
  split; [done|]. split; [done|]. split; [|done]. by split; [apply pt_hier|].
Qed.

(** The whole machine, for any instruction set.  With the predictor, caches, TLBs and units that options make
    which [sim_check_options] accepts, a well-formed instruction set, and a program that keeps to its text and data,
    [n] < 2^31 cycles end only with the program, with the message for an exhausted pool of
    links, with one of the two fatal messages of the core, or with the panic for
    a completion in the past; and in every state in which a run stops or is cut off the core
    is sound and has computed what the functional simulation computes. *)
Theorem machine_simulates r t entry n : tracer_at false t → safe_program entry (initial_state r t) → Z.of_nat n < 2 ^ 31 →
  ∃ pool, res_create_pool (ck_fu ck) = Ok pool ∧
    let c := sim_load_prog sim_config pool (ck_pred ck) (initial_state r t) entry in
    match sim_main sim_config n c with
    | Ok c' => agrees entry (initial_state r t) c' ∧ 0 < sim_cycle (mach c') ≤ Z.of_nat n
    | Fault OutOfFuel => ∃ c', cycles sim_config n c = Ok c' ∧ agrees entry (initial_state r t) c' ∧ sim_cycle (mach c') = Z.of_nat n
    | Fault f => f = Panic "out of rs links" ∨ core_fatal f ∨ f = Panic "event occurred in the past"
    end.
Proof.
  intros Ht Hsafe Hn. pose proof (options_parts o ck Hck Hsmall) as Hparts.
  destruct (res_create_pool_spec (ck_fu ck) (pt_fu _ _ Hparts)) as (pool & Hpool & _). exists pool. split; [done|]. intros c.
  set (s0 := initial_state r t) in *. pose proof (safe_proper entry s0 (λ _, iff_refl _) Hsafe) as Hprog.
  assert (0 < ruu_ifq_size sim_config)%nat as Hifq by (pose proof (pt_ifq _ _ Hparts); cbn; lia).
  pose proof (start_path sim_config Hifq entry s0 pool (ck_pred ck) Ht) as Hpath.
  pose proof (sim_main_with sim_config Hifq entry s0 Hprog guarded guarded_spec (guarded_prog entry s0 Hsafe) n c Hpath) as Em.
  assert (∀ k, @cycles _ G sim_config k c = cycles sim_config k c) as Ec.
  { intros k. apply (cycles_with sim_config Hifq entry s0 Hprog guarded guarded_spec (guarded_prog entry s0 Hsafe) k c Hpath). }
  assert (∀ k c', cycles sim_config k c = Ok c' → sound sim_config c' → agrees entry s0 c') as Hag.
  { intros k c' Hk Hs. split; [done|].
    destruct (returns_elim _ _ _ (cycles_path sim_config Hifq entry s0 Hprog k c Hpath) Hk) as (j & pc & s & [P1 _ P2 _ P3 _]).
    by exists j, pc, s. }
  pose proof (run_safe sim_config (ck_fu ck) c n sim_setup (sim_starts pool r t entry Hpool (proj1 Ht)) Hn) as Hrun.
  rewrite Em in Hrun. destruct (sim_main_cycles sim_config n c) as [(k & c' & Hk & Hc & H)|[(c' & Hc & H)|(f & Hc & H)]];
    rewrite H in Hrun |- *.
  - destruct Hrun as [H1 H2]. split; [exact (Hag k c' Hc (sound_with _ _ _ H1))|exact H2].
  - destruct Hrun as (c2 & H1 & H2 & H3). rewrite Ec in H1. exists c2. split; [exact H1|]. split; [exact (Hag n c2 H1 (sound_with _ _ _ H2))|exact H3].
  - destruct f; try (destruct Hrun as [?|[?|[_ ?]]]; tauto). destruct Hrun as (c2 & H1 & _). rewrite Ec, Hc in H1. done.
Qed.
End Run.
End Machine.
