(* ===== verification/PisaMachine.v ===== *)
(** * PISA programs on the whole machine

    The simulator with the PISA instruction set, on any host and with any system call proxy
    that accesses what exists; and a loop of eight instructions, with a load, a store and a branch
    that is mispredicted, on the machine of the default options. *)

From S2P Require Import Prelude Misc Memory MemorySpec Bpred Resource ResourceSpec Ruu RuuStages RuuFront RuuUnits RuuCore RuuRun RuuPath.
From S2P Require Import RuuTransparent SpecState SpecInv SpecRegs SpecMain Isa Cache CacheInv Hier HierSpec OooHier Options OptionsOk OooMachine.
From S2P Require Import Floats Pisa PisaOk PisaMain.

(** ** Any program *)

Section Machine.
Context {R : Type} (random : R → Z * R) (h : host) (ld : segments).
Context (o : sim_options) (ck : checked) (inorder include_spec bugcompat compress : bool) (max_insts : Z).
Context (Hck : sim_check_options o = Ok ck) (Hsmall : options_small o ck) (Hld : segments_ok ld).
Context (Hsys : ∀ Q i, pm_ok Q (sys_syscall h i)).

(** The machine that runs PISA programs. *)
Definition pisa_env : Environment (machine_state R) := sim_env random (pisa h) ld ck bugcompat.
#[local] Existing Instance pisa_env.

Lemma pisa_fits : isa_ok (pisa h) (ck_fu ck).
Proof. apply pisa_ok; [exact Hsys|]. apply (pt_unit _ _ (options_parts _ _ Hck Hsmall)). Qed.

(** C2: the whole machine, for PISA.  With the predictor, caches, TLBs and units that options make
    which [sim_check_options] accepts and that are in bounds (latencies and widths below 2^31, predictor tables as
    [pred_small] says, blocks of at most 2^22 bytes that leave room for a tag and are no larger than those of the next
    level), the instructions of machine.def, and a program that keeps to its valid text, never writes it, and keeps
    its data in range, [n] < 2^31 cycles end only with the program, with the message for an exhausted pool of
    links, with one of the two fatal messages of the core (a fault of the program, more than 64 stores of unknown
    data in front of a load), or with the panic for a completion in the past; and in every state in which a run stops or is cut off the core
    is sound and has computed what the functional simulation of those instructions computes. *)
Theorem pisa_simulates r t entry n : tracer_at false t →
  safe_program random (pisa h) ld ck bugcompat entry (initial_state ck r t) → Z.of_nat n < 2 ^ 31 →
  let cf := sim_config o ck inorder include_spec bugcompat compress max_insts in
  let good c := agrees random (pisa h) ld o ck inorder include_spec bugcompat compress max_insts entry (initial_state ck r t) c in
  ∃ pool, res_create_pool (ck_fu ck) = Ok pool ∧
    let c := sim_load_prog cf pool (ck_pred ck) (initial_state ck r t) entry in
    match sim_main cf n c with
    | Ok c' => good c' ∧ 0 < sim_cycle (mach c') ≤ Z.of_nat n
    | Fault OutOfFuel => ∃ c', cycles cf n c = Ok c' ∧ good c' ∧ sim_cycle (mach c') = Z.of_nat n
    | Fault f => f = Panic "out of rs links" ∨ core_fatal f ∨ f = Panic "event occurred in the past"
    end.
Proof. intros Ht Hsafe Hn. apply (machine_simulates _ _ _ _ _ _ _ _ _ _ Hck Hsmall Hld pisa_fits r t entry n Ht Hsafe Hn). Qed.
End Machine.

(** ** A loop *)

Module Loop.

(** A little endian host with fast shifts; the proxy does nothing. *)
Definition h0 : host := mkHost false false true true (λ _ _, 0) (0, 0) (λ _, 0) 0 0 (λ _, mret tt).

Definition base : Z := 2 ^ 22.
Definition data : Z := 2 ^ 24.
Definition segs : segments := mkSegments base 64 data (2 ^ 31 - 16384).

(** Register 2 counts; it is stored, loaded and shifted; the branch is taken while it is below 4,
    then the jump. *)
Definition insts : list Z := [
  encode "lui" 0 1 256; encode "addiu" 2 2 1; encode "sw" 1 2 0; encode "lw" 1 3 0; encode "sll" 0 3 (4 * 2 ^ 8 + 2);
  encode "slti" 2 5 4; encode "bne" 5 0 (-14); opcode "j" + 2 ^ 32 * (base / 4)].
Definition inst (k : nat) : Z := nth k insts 0.

Definition poke (m : mem_t) (av : Z * Z) : mem_t :=
  match mem_access m Write av.1 (little_to 8 av.2) 8 with Ok (_, _, m) => m | Fault _ => m end.
Definition program : list (Z * Z) := imap (λ k i, (base + 8 * Z.of_nat k, i)) insts.
Definition memory : mem_t := foldl poke mem_create program.
Definition tracer_start : tracer := mkTracer (mkRegState copies0 (spec (t_regs tracer0))) memory spec_mem_init.

Lemma poke_ok m av : mem_ok m → 0 ≤ av.1 < 2 ^ 32 → mem_ok (poke m av).
Proof.
  intros Hm Ha. unfold poke. destruct (mem_access_spec m Write av.1 (little_to 8 av.2) 8 Hm Ha) as (m' & -> & Hm' & _); [cbn; lia|].
  by destruct (access_spec _ _ _ _ _).1.
Qed.

Lemma memory_ok : mem_ok memory.
Proof.
  assert (Forall (λ av, 0 ≤ av.1 < 2 ^ 32) program) as H.
  { apply Forall_lookup. intros k [a v] Hk. unfold program in Hk. rewrite list_lookup_imap in Hk.
    apply fmap_Some in Hk as (i & Hi & [= -> ->]). apply lookup_lt_Some in Hi. change (length insts) with 8%nat in Hi. cbn [fst]. unfold base. lia. }
  unfold memory. generalize mem_create_good. generalize mem_create. revert H. generalize program. intros l H.
  induction H as [|av l Ha _ IH]; intros m Hm; cbn [foldl]; [done|]. apply IH. by apply poke_ok.
Qed.

Lemma tracer_start_at : tracer_at false tracer_start.
Proof.
  destruct tracer0_ok as [[_ R2 R3] _ H3]. split; [split; [by split; [by intros []| |]|apply memory_ok|exact H3]|]. intros _ [] bit; apply bit_in_clear.
Qed.

(** ** The instructions of the loop *)

Definition pc_at (k : nat) : Z := base + 8 * Z.of_nat k.

Lemma R1_kept n v q : is_reg n → n ≠ 1 → bank_at BankR 1 (set_gpr n v (zeroed q)) = bank_at BankR 1 q.
Proof.
  unfold is_reg. intros Hn H1. unfold set_gpr, zeroed. rewrite !bank_set_ne; [done|right; lia..].
Qed.

(** What one of the instructions does, with the data in register 1 after the first. *)
Record stepped (k : nat) (x : exec_out) (q q' : seq_state) : Prop := {
  se_op : x_op x = MD_SET_OPCODE (inst k);
  se_store : is_store (x_op x) = true → x_addr x = data;
  se_next : ∃ k', (k' < 8)%nat ∧ x_NPC x = pc_at k' ∧ (k' ≠ 0%nat → bank_at BankR 1 q' = data);
  se_text a : base ≤ a < base + 64 → sq_mem q' a = sq_mem q a
}.

(** The fields of a concrete instruction. *)
Ltac fields :=
  repeat match goal with
  | |- context [?f (inst ?k)] =>
      lazymatch f with RS => idtac | RT => idtac | RD => idtac | BS => idtac | IMM => idtac | OFS => idtac | UIMM => idtac | SHAMT => idtac | TARG => idtac end;
      let v := eval vm_compute in (f (inst k)) in change (f (inst k)) with v
  end.

Ltac loop_inst name f k :=
  let Hi := fresh in assert (is_inst name (inst k)) as Hi by (vm_compute; reflexivity);
  exec_named name f Hi; clear Hi; unfold pm_run.

Lemma next_slot k : (k < 7)%nat → u32 (pc_at k + 8) = pc_at (S k).
Proof. intros Hk. unfold pc_at, base. rewrite u32_small; lia. Qed.

(** An instruction that writes a register other than register 1. *)
Lemma stepped_set k n v fin st q : (k < 7)%nat → yields (MD_SET_OPCODE (inst k)) fin → is_store (MD_SET_OPCODE (inst k)) = false →
  st_NPC st = u32 (pc_at k + 8) → is_reg n → n ≠ 1 → (k ≠ 0%nat → bank_at BankR 1 q = data) → k ≠ 0%nat →
  let s' := seq_sem (Done (fin st md_fault_none)) (set_gpr n v (zeroed q)) in
  x_fault s'.1 = md_fault_none ∧ stepped k s'.1 q s'.2.
Proof.
  intros Hk Hf Hst HN Hn Hn1 HR H0. cbn [seq_sem fst snd]. split; [apply (yi_fault _ _ Hf)|]. split.
  - apply (yi_op _ _ Hf).
  - rewrite (yi_op _ _ Hf), Hst. done.
  - exists (S k). split; [lia|]. split; [rewrite (yi_NPC _ _ Hf), HN; by apply next_slot|]. intros _. rewrite R1_kept by done. by apply HR.
  - done.
Qed.

Ltac plain_step Hfin HR := apply stepped_set; first [exact Hfin|exact HR|lia|reflexivity|done|vm_compute; done].

Lemma gpr1 q : bank_at BankR 1 q = data → gpr 1 (zeroed q) = data.
Proof. intros H. unfold gpr, zeroed. rewrite bank_set_ne by (right; lia). change (Z.to_nat 1) with 1%nat. rewrite H. vm_compute. reflexivity. Qed.

Lemma loop_step k q : (k < 8)%nat → seq_ok q → (k ≠ 0%nat → bank_at BankR 1 q = data) →
  let s' := exec h0 (inst k) (pc_at k) q in x_fault s'.1 = md_fault_none ∧ stepped k s'.1 q s'.2.
Proof.
  intros Hk Hq HR. cbv zeta. pose proof (zeroed_ok q Hq) as Hz.
  assert (k = 0 ∨ k = 1 ∨ k = 2 ∨ k = 3 ∨ k = 4 ∨ k = 5 ∨ k = 6 ∨ k = 7)%nat as Hc by lia.
  destruct Hc as [->|[->|[->|[->|[->|[->|[->| ->]]]]]]].
  - loop_inst "lui" (λ (_ : host) i (_ : Z), LUI_IMPL i) 0%nat. unfold LUI_IMPL. fields. autorewrite with seq. cbn [seq_sem fst snd].
    split; [apply (yi_fault _ _ Hfin)|]. split.
    + apply (yi_op _ _ Hfin).
    + by rewrite (yi_op _ _ Hfin).
    + exists 1%nat. split; [lia|]. split; [by rewrite (yi_NPC _ _ Hfin)|]. intros _. unfold set_gpr.
      rewrite bank_set_eq by (done || (cbn; unfold MD_NUM_IREGS; lia)). by vm_compute.
    + done.
  - loop_inst "addiu" (λ (_ : host) i (_ : Z), ADDIU_IMPL i) 1%nat. unfold ADDIU_IMPL. fields. do 2 (autorewrite with seq; cbv beta).
    plain_step Hfin HR.
  - loop_inst "sw" (λ h i (_ : Z), SW_IMPL h i) 2%nat. unfold SW_IMPL, store_gpr, ea_disp. fields. do 4 (autorewrite with seq; cbv beta).
    rewrite gpr1 by (by apply HR). unfold WRITE_WORD. rewrite seq_write by (auto || by vm_compute). cbv beta. rewrite seq_check. cbn [seq_sem fst snd].
    split; [apply (yi_fault _ _ Hfin)|]. split.
    + apply (yi_op _ _ Hfin).
    + intros _. by rewrite (yi_addr _ _ Hfin).
    + exists 3%nat. split; [lia|]. split; [by rewrite (yi_NPC _ _ Hfin)|]. intros _. rewrite <- (HR ltac:(done)). unfold zeroed. by apply bank_set_ne; right.
    + intros a Ha. cbn [sq_mem]. unfold upd_bytes. rewrite lookup_ge_None_2; [done|]. rewrite host_to_length.
      change (u32 (data + 0)) with data. unfold u32, data, base in *. Z.div_mod_to_equations. lia.
  - loop_inst "lw" (λ h i (_ : Z), LW_IMPL h i) 3%nat. unfold LW_IMPL, load_gpr, ea_disp. fields. do 4 (autorewrite with seq; cbv beta).
    rewrite gpr1 by (by apply HR). unfold READ_WORD. rewrite seq_bind, seq_read by (auto || by vm_compute). cbv beta iota.
    do 2 (autorewrite with seq; cbv beta iota). plain_step Hfin HR.
  - loop_inst "sll" (λ h i (_ : Z), SLL_IMPL h i) 4%nat. unfold SLL_IMPL. fields. do 2 (autorewrite with seq; cbv beta). plain_step Hfin HR.
  - loop_inst "slti" (λ (_ : host) i (_ : Z), SLTI_IMPL i) 5%nat. unfold SLTI_IMPL. fields. do 2 (autorewrite with seq; cbv beta). plain_step Hfin HR.
  - loop_inst "bne" (λ (_ : host) i pc, BNE_IMPL i pc) 6%nat. unfold BNE_IMPL, branch_if, branch_target. fields. do 4 (autorewrite with seq; cbv beta).
    assert (∀ st, st_NPC st = pc_at 0 ∨ st_NPC st = pc_at 7 → let s' := seq_sem (Done (fin st md_fault_none)) (zeroed q) in
      x_fault s'.1 = md_fault_none ∧ stepped 6 s'.1 q s'.2) as Hj.
    { intros st HN. cbn [seq_sem fst snd]. split; [apply (yi_fault _ _ Hfin)|]. split.
      - apply (yi_op _ _ Hfin).
      - by rewrite (yi_op _ _ Hfin).
      - rewrite (yi_NPC _ _ Hfin). destruct HN as [-> | ->]; [by exists 0%nat; split; [lia|]|]. exists 7%nat. split; [lia|]. split; [done|].
        intros _. rewrite <- (HR ltac:(done)). unfold zeroed. by apply bank_set_ne; right.
      - done. }
    destruct (negb _); autorewrite with seq; apply Hj; [by left|by right].
  - loop_inst "j" (λ (_ : host) i pc, JUMP_IMPL i pc) 7%nat. unfold JUMP_IMPL. fields. do 2 (autorewrite with seq; cbv beta). cbn [seq_sem fst snd].
    split; [apply (yi_fault _ _ Hfin)|]. split.
    + apply (yi_op _ _ Hfin).
    + by rewrite (yi_op _ _ Hfin).
    + exists 0%nat. split; [lia|]. split; [by rewrite (yi_NPC _ _ Hfin)|done].
    + done.
Qed.

(** ** The loop is safe *)

Lemma slots (P : nat → Prop) k : (k < 8)%nat → P 0%nat → P 1%nat → P 2%nat → P 3%nat → P 4%nat → P 5%nat → P 6%nat → P 7%nat → P k.
Proof. intros Hk H0 H1 H2 H3 H4 H5 H6 H7. do 8 (destruct k as [|k]; [assumption|]). lia. Qed.

Lemma fetch_slot k f : (k < 8)%nat → (∀ a, base ≤ a < base + 64 → f a = mem_byte memory a) → fetch_inst h0 (pc_at k) f = inst k.
Proof.
  intros Hk Hf. rewrite (fetch_inst_local h0 _ f (mem_byte memory)).
  - apply (slots (λ k, fetch_inst h0 (pc_at k) (mem_byte memory) = inst k)); [done|vm_compute; reflexivity..].
  - intros a Ha. apply Hf. unfold pc_at, inst_size in Ha. lia.
Qed.

Lemma valid_slot k : (k < 8)%nat → pisa_valid (inst k) = true.
Proof. intros Hk. apply (slots (λ k, pisa_valid (inst k) = true)); [done|vm_compute; reflexivity..]. Qed.

Lemma proxy_ok Q i : pm_ok Q (sys_syscall h0 i).
Proof. apply pm_ok_ret. Qed.

Section Safe.
Context {R : Type} (random : R → Z * R) (ck : checked) (bugcompat : bool) (fu : list res_desc).
Hypothesis Hfu : ∀ k, 0 < k < 12 → has_unit fu k.
Abbreviation E := (sim_env random (pisa h0) segs ck bugcompat).
#[local] Existing Instance sim_env.

Lemma text_slot pc : in_text (Environment0 := E) pc = true → ∃ k, (k < 8)%nat ∧ pc = pc_at k.
Proof.
  unfold in_text. cbn [ld_text_base ld_text_size sim_env machine_env segs text_base text_size].
  rewrite !andb_true_iff, !bool_decide_eq_true. change (inst_size - 1) with (Z.ones 3). rewrite Z.land_ones by lia. change (2 ^ 3) with 8.
  unfold base, pc_at. rewrite u32_small by lia. intros [[H1 H2] H3].
  exists (Z.to_nat ((pc - 2 ^ 22) / 8)). unfold base. Z.div_mod_to_equations. lia.
Qed.

Lemma slot_text k : (k < 8)%nat → in_text (Environment0 := E) (pc_at k) = true.
Proof. intros Hk. apply (slots (λ k, in_text (Environment0 := E) (pc_at k) = true)); [done|vm_compute; reflexivity..]. Qed.

(** The eight instructions stay as they are; register 1 holds the address after the first. *)
Record looping (pc : Z) (s : machine_state R) : Prop := {
  lo_pc : ∃ k, (k < 8)%nat ∧ pc = pc_at k ∧ (k ≠ 0%nat → nth 1 (regs_R (arch (t_regs (trace s)))) 0 = data);
  lo_tracer : tracer_at false (trace s);
  lo_text a : base ≤ a < base + 64 → mem_byte (t_mem (trace s)) a = mem_byte memory a
}.

Lemma looping_step pc s x s' : looping pc s →
  let i := MD_FETCH_INST (Environment := E) pc s in
  md_exec (Environment := E) false (MD_SET_OPCODE i) i pc s = Ok (x, s') →
  proper_out (MD_SET_OPCODE i) x = true ∧ looping (x_NPC x) s'.
Proof.
  intros [(k & Hk & -> & HR) Ht Htext]. cbv zeta.
  change (MD_FETCH_INST (pc_at k) s) with (fetch_inst h0 (pc_at k) (mem_byte (t_mem (trace s)))).
  rewrite fetch_slot by done.
  change (md_exec false ?op ?i ?pc ?s) with (exec_inst bugcompat (pisa h0) segs false op i pc s). unfold exec_inst.
  set (q := mkSeq (arch (t_regs (trace s))) (mem_byte (t_mem (trace s)))).
  assert (seq_ok q) as Hq by (destruct Ht as [[[Ha _ _] _ _] _]; split; exact Ha).
  assert (k ≠ 0%nat → bank_at BankR 1 q = data) as HR1.
  { intros H0. unfold bank_at. cbn [q sq_regs bank_of]. rewrite <- nth_lookup. by apply HR. }
  destruct (loop_step k q Hk Hq HR1) as [Hfault [Hop Hst (k' & Hk' & HN & HR') Htx]].
  pose proof (is_sem _ _ (pisa_ok h0 fu proxy_ok Hfu) (inst k) (pc_at k) (valid_slot k Hk)) as Hsem.
  destruct (exec_sem_seq bugcompat false base 64 data (2 ^ 31 - 16384) _ _ (trace s) q Hsem Ht ltac:(by split)) as (t' & H1 & _ & Ht' & Hr' & Hm').
  cbn [pisa isa_sem isa_cross_endian isa_opcode segs text_base text_size data_base stack_base] in H1 |- *.
  change (MD_CROSS_ENDIAN h0) with false. rewrite H1. cbn [mbind result_bind]. intros [= <- <-].
  change (seq_exec (pisa_sem h0 (MD_SET_OPCODE (inst k)) (inst k) (pc_at k)) q) with (exec h0 (inst k) (pc_at k) q) in *.
  split.
  - unfold proper_out. rewrite bool_decide_true by done. cbn [andb]. destruct (is_store _) eqn:Hs; [|done]. by rewrite (Hst eq_refl).
  - split; [exists k'; split; [done|]; split; [done|]|exact Ht'|].
    + intros H0. cbn [trace]. rewrite Hr'. rewrite nth_lookup. by apply HR'.
    + intros a Ha. cbn [trace]. rewrite Hm' by (unfold base in Ha; lia). rewrite Htx by done. by apply Htext.
Qed.

Lemma loop_safe (r : R) : safe_program random (pisa h0) segs ck bugcompat base (initial_state ck r tracer_start).
Proof.
  assert (∀ j pc0 s0, looping pc0 s0 → ∀ pc s, fast_forward (Environment0 := E) j pc0 s0 = Ok (pc, s) → looping pc s) as Hrun.
  { induction j as [|j IH]; intros pc0 s0 H0 pc s; cbn [fast_forward]; [by intros [= <- <-]|].
    destruct (md_exec _ _ _ _ _) as [[x s1]|] eqn:Hx; [|done]. cbn [mbind result_bind].
    destruct (bool_decide _); [done|]. destruct (bool_decide _); [done|]. apply IH. by eapply looping_step. }
  intros j pc s Hj. assert (looping pc s) as Hl.
  { eapply Hrun; [|exact Hj]. split; [by exists 0%nat; split; [lia|]|apply tracer_start_at|done]. }
  split.
  - destruct (lo_pc _ _ Hl) as (k & Hk & -> & _). split; [by apply slot_text|]. intros pc' (k' & Hk' & ->)%text_slot.
    change (pisa_valid (fetch_inst h0 (pc_at k') (mem_byte (t_mem (trace s)))) = true). rewrite fetch_slot by (done || apply Hl). by apply valid_slot.
  - cbv zeta. intros x s' Hx Hf. destruct (looping_step pc s x s' Hl Hx) as [H1 H2]. split; [exact H1|].
    intros pc' (k & Hk & ->)%text_slot.
    change (fetch_inst h0 (pc_at k) (mem_byte (t_mem (trace s'))) = fetch_inst h0 (pc_at k) (mem_byte (t_mem (trace s)))).
    by rewrite !fetch_slot by (done || apply Hl || apply H2).
Qed.
End Safe.
End Loop.

(** ** The default options *)

Definition default_ck : checked :=
  match sim_check_options default_options with
  | Ok ck => ck
  | Fault _ => mkChecked None false spec_CT (mkHierConf 0 (0, 0) 0 None None None None None None) (λ _, None) []
  end.

Lemma default_checked : sim_check_options default_options = Ok default_ck.
Proof.
  unfold default_ck. assert (match sim_check_options default_options with Ok _ => true | Fault _ => false end = true) as H
    by (vm_compute; reflexivity). by destruct (sim_check_options default_options).
Qed.

(** Sizes of the caches that the defaults describe. *)
Definition geometry (id : cache_id) : option (Z * Z) := (λ cp, (bsize (conf cp), tag_shift (conf cp))) <$> ck_caches default_ck id.

Lemma default_geometry id cp : ck_caches default_ck id = Some cp →
  (bsize (conf cp), tag_shift (conf cp)) = match id with DL1 => (32, 12) | DL2 => (64, 16) | IL1 => (32, 14) | IL2 => (0, 0) | ITLB => (4096, 16) | DTLB => (4096, 17) end.
Proof.
  intros H. assert (geometry id = Some (bsize (conf cp), tag_shift (conf cp))) as Hg by (unfold geometry; by rewrite H).
  assert (match geometry id with Some g => g = match id with DL1 => (32, 12) | DL2 => (64, 16) | IL1 => (32, 14) | IL2 => (0, 0) | ITLB => (4096, 16) | DTLB => (4096, 17) end | None => True end) as Hv.
  { destruct id; vm_compute; done. }
  rewrite Hg in Hv. exact Hv.
Qed.

Lemma default_hier : ck_hier default_ck = mkHierConf 8 (18, 2) 30 (Some DL1) (Some DL2) (Some IL1) (Some DL2) (Some ITLB) (Some DTLB).
Proof. vm_compute. reflexivity. Qed.

Lemma default_small : options_small default_options default_ck.
Proof.
  split; try (cbn; lia).
  - split; cbn; unfold int_ok; lia.
  - intros id cp H. apply default_geometry in H. unfold cache_small, low_addr. destruct id; injection H as -> ->; lia.
  - intros id id2 cp cp2 Hn H1 H2. apply default_geometry in H1, H2.
    rewrite default_hier in Hn. destruct id; cbn in Hn; try discriminate Hn; injection Hn as <-;
      injection H1 as -> _; injection H2 as -> _; lia.
Qed.

(** ** Witnesses *)

Section Witness.
#[local] Instance loop_env : Environment (machine_state Z) := pisa_env (λ r, (r, r)) Loop.h0 Loop.segs default_ck false.

Definition loop_config (max_insts : Z) : config := sim_config default_options default_ck false true false false max_insts.
Definition loop_start : machine_state Z := initial_state default_ck 0 Loop.tracer_start.
Definition loop_pool : res_pool := match res_create_pool (ck_fu default_ck) with Ok p => p | Fault _ => mkPool 0 [] [] [] end.
Definition loop_core (max_insts : Z) : core (machine_state Z) :=
  sim_load_prog (loop_config max_insts) loop_pool (ck_pred default_ck) loop_start Loop.base.

Lemma loop_isa : isa_ok (pisa Loop.h0) (ck_fu default_ck).
Proof. exact (pisa_fits Loop.h0 default_options default_ck default_checked default_small Loop.proxy_ok). Qed.

Lemma loop_segs : segments_ok Loop.segs.
Proof. split; cbn; unfold Loop.base, Loop.data, low_addr, high_addr; try lia. reflexivity. Qed.

Lemma loop_runs : safe_program (λ r, (r, r)) (pisa Loop.h0) Loop.segs default_ck false Loop.base loop_start.
Proof. apply (Loop.loop_safe _ default_ck false (ck_fu default_ck)). apply (pt_unit _ _ (options_parts _ _ default_checked default_small)). Qed.

(** Cycles, instructions, those of wrong paths included, and the first registers. *)
Definition observe (c : core (machine_state Z)) : Z * Z * Z * list Z :=
  (sim_cycle (mach c), counters (front c) sim_num_insn, counters (front c) sim_total_insn,
   take 6 (regs_R (arch (t_regs (trace (ports (mach c))))))).

(** Three iterations, the jump and the fourth, and wrong paths behind the branches. *)
Lemma pisa_simulates_witness : ∃ c, sim_main (loop_config 26) 400 (loop_core 26) = Ok c ∧
  observe c = (76, 28, 31, [0; 16777216; 4; 4; 16; 0]) ∧
  agrees (λ r, (r, r)) (pisa Loop.h0) Loop.segs default_options default_ck false true false false 26 Loop.base loop_start c.
Proof.
  destruct (pisa_simulates (λ r, (r, r)) Loop.h0 Loop.segs default_options default_ck false true false false 26
    default_checked default_small loop_segs Loop.proxy_ok 0 Loop.tracer_start Loop.base 400 Loop.tracer_start_at loop_runs eq_refl)
    as (pool & Hpool & Hrun).
  assert (match sim_main (loop_config 26) 400 (loop_core 26) with Ok c => bool_decide (observe c = (76, 28, 31, [0; 16777216; 4; 4; 16; 0])) | Fault _ => false end
    = true) as Hv by (vm_compute; reflexivity).
  assert (pool = loop_pool) as -> by (unfold loop_pool; by rewrite Hpool).
  change (sim_main _ _ _) with (sim_main (loop_config 26) 400 (loop_core 26)) in Hrun. cbv zeta in Hrun.
  destruct (sim_main (loop_config 26) 400 (loop_core 26)) as [c|f]; [|discriminate Hv].
  exists c. split; [reflexivity|]. split; [exact (bool_decide_eq_true_1 _ Hv)|apply Hrun].
Defined.

#[local] Instance loop_arch : EnvArch (machine_state Z) :=
  sim_arch (λ r, (r, r)) (pisa Loop.h0) Loop.segs default_ck false loop_segs loop_isa.

(** In the middle of a wrong path. *)
Lemma core_simulates_program_witness : ∃ c k pc s, cycles (loop_config 0) 50 (loop_core 0) = Ok c ∧
  spec_mode (mach c) = true ∧ fast_forward k Loop.base loop_start = Ok (pc, s) ∧ arch_eq s (ports (mach c)) ∧ recover_PC (front c) = pc.
Proof.
  assert (match cycles (loop_config 0) 50 (loop_core 0) with Ok c => spec_mode (mach c) | Fault _ => false end = true) as Hv
    by (vm_compute; reflexivity).
  destruct (cycles (loop_config 0) 50 (loop_core 0)) as [c|f] eqn:Hrun; [|discriminate Hv].
  destruct (core_simulates_program (loop_config 0) 50 loop_pool (ck_pred default_ck) loop_start Loop.base c)
    as (k & pc & s & H1 & H2 & H3 & H4).
  - cbn. lia.
  - exact Loop.tracer_start_at.
  - exact (safe_proper _ _ _ _ _ _ _ (λ _, iff_refl _) loop_runs).
  - exact Hrun.
  - rewrite Hv in H4. exists c, k, pc, s. by split_and!.
Defined.
End Witness.
