(* ===== verification/Eval.v ===== *)
(** * eval.c: the expression evaluator

    Tokens with one token of look-ahead, the recursive descent over sums, products and factors,
    typed values with C's conversions, and the conversions of constants, with those of misc.c
    for 64 bits.  A string is the characters before its terminating zero. *)

From Stdlib Require Import Ascii.
From S2P Require Import Prelude Floats Options.

(** ** eval.h *)

Inductive eval_token_t :=
  | tok_ident | tok_const | tok_plus | tok_minus | tok_mult | tok_div | tok_oparen | tok_cparen
  | tok_eof | tok_whitespace | tok_invalid.
#[export] Instance eval_token_dec : EqDecision eval_token_t.
Proof. solve_decision. Defined.

Inductive eval_err_t :=
  | ERR_NOERR | ERR_UPAREN | ERR_NOTERM | ERR_DIV0 | ERR_BADCONST | ERR_BADEXPR | ERR_UNDEFVAR | ERR_EXTRA.
#[export] Instance eval_err_dec : EqDecision eval_err_t.
Proof. solve_decision. Defined.

Inductive eval_type_t :=
  | et_int | et_uint | et_addr | et_qword | et_sqword | et_float | et_double | et_symbol.
#[export] Instance eval_type_dec : EqDecision eval_type_t.
Proof. solve_decision. Defined.

(** The type, with the member of the union that goes with it. *)
Inductive eval_value_t :=
  | as_int (z : Z) | as_uint (z : Z) | as_addr (z : Z) | as_qword (z : Z) | as_sqword (z : Z)
  | as_float (x : spec_float) | as_double (x : spec_float) | as_symbol (s : string).

Definition v_type (v : eval_value_t) : eval_type_t :=
  match v with
  | as_int _ => et_int | as_uint _ => et_uint | as_addr _ => et_addr | as_qword _ => et_qword
  | as_sqword _ => et_sqword | as_float _ => et_float | as_double _ => et_double | as_symbol _ => et_symbol
  end.

(** [p], [lastp], [tok_buf] and [peek_tok], and the global [eval_error]. *)
Record eval_state_t := mkEval {
  es_p : string;
  es_lastp : string;
  tok_buf : string;
  peek_tok : eval_token_t;
  eval_error : eval_err_t
}.

Definition set_error (e : eval_err_t) (es : eval_state_t) : eval_state_t :=
  mkEval (es_p es) (es_lastp es) (tok_buf es) (peek_tok es) e.
Definition set_peek (t : eval_token_t) (es : eval_state_t) : eval_state_t :=
  mkEval (es_p es) (es_lastp es) (tok_buf es) t (eval_error es).

(** ** Tokens *)

Definition chr (c : ascii) : Z := Z.of_nat (nat_of_ascii c).

(** [init_tok_map]: by the code of the first character. *)
Definition tok_map (i : Z) : eval_token_t :=
  if bool_decide (97 ≤ i ≤ 122 ∨ 65 ≤ i ≤ 90 ∨ i = 95 ∨ i = 36) then tok_ident else
  if bool_decide (48 ≤ i ≤ 57 ∨ i = 46) then tok_const else
  if bool_decide (i = 43) then tok_plus else
  if bool_decide (i = 45) then tok_minus else
  if bool_decide (i = 42) then tok_mult else
  if bool_decide (i = 47) then tok_div else
  if bool_decide (i = 40) then tok_oparen else
  if bool_decide (i = 41) then tok_cparen else
  if bool_decide (i = 32 ∨ i = 9) then tok_whitespace else tok_invalid.

(** The host: whether [char] is signed, the width of [long], and when [strtod] reports underflow. *)
Record eval_host := mkEvalHost { CHAR_SIGNED : bool; LONG_BITS : Z; underflow_erange : spec_float → bool }.

Section Eval.
Context (h : eval_host).

(** [tok_map[( int)*p]]. *)
Definition tok_at (c : ascii) : result eval_token_t :=
  if CHAR_SIGNED h && bool_decide (128 ≤ chr c) then Fault OutOfBounds else Ok (tok_map (chr c)).

Fixpoint skip_white (s : string) : result string :=
  match s with
  | EmptyString => Ok EmptyString
  | String c s' => t ← tok_at c; if bool_decide (t = tok_whitespace) then skip_white s' else Ok s
  end.

(** The rest of an identifier, and what follows. *)
Fixpoint scan_ident (s : string) : result (string * string) :=
  match s with
  | EmptyString => Ok (EmptyString, EmptyString)
  | String c s' =>
      t ← tok_at c;
      if bool_decide (t = tok_ident ∨ t = tok_const)
      then '(a, r) ← scan_ident s'; Ok (String c a, r) else Ok (EmptyString, s)
  end.

(** The rest of a numeric literal: [last_char] and [allow_hex]. *)
Fixpoint scan_const (last : Z) (hex : bool) (s : string) : result (string * string) :=
  match s with
  | EmptyString => Ok (EmptyString, EmptyString)
  | String c s' =>
      t ← tok_at c;
      let l := lower c in
      if bool_decide (t = tok_const) || (bool_decide (chr c = 45) && bool_decide (last = 101)) ||
         (bool_decide (chr c = 43) && bool_decide (last = 101)) || bool_decide (l = 101) || bool_decide (l = 120) ||
         (hex && bool_decide (97 ≤ l ≤ 102))
      then '(a, r) ← scan_const l (hex || bool_decide (l = 120)) s'; Ok (String c a, r) else Ok (EmptyString, s)
  end.

(** The buffer of a token holds 512 characters, the terminating one included. *)
Definition fits (buf : string) : result string :=
  if bool_decide (512 ≤ String.length buf)%nat then Fault OutOfBounds else Ok buf.

Definition get_next_token (es : eval_state_t) : result (eval_token_t * eval_state_t) :=
  if bool_decide (peek_tok es ≠ tok_invalid) then Ok (peek_tok es, set_peek tok_invalid es) else
  p ← skip_white (es_p es);
  match p with
  | EmptyString => Ok (tok_eof, mkEval EmptyString (es_lastp es) EmptyString tok_invalid (eval_error es))
  | String c p =>
      tok ← tok_at c;
      '(buf, p) ← match tok with
                  | tok_ident => scan_ident p
                  | tok_const => scan_const 0 false p
                  | _ => Ok (EmptyString, p)
                  end;
      buf ← fits (String c buf);
      Ok (match tok with tok_whitespace | tok_eof => tok_invalid | tok => tok end,
          mkEval p (es_lastp es) buf tok_invalid (eval_error es))
  end.

(** An invalid token is no token to peek at. *)
Definition peek_next_token (es : eval_state_t) : result (eval_token_t * eval_state_t) :=
  if bool_decide (peek_tok es = tok_invalid) then
    '(t, es) ← get_next_token (mkEval (es_p es) (es_p es) (tok_buf es) (peek_tok es) (eval_error es));
    Ok (t, set_peek t es)
  else Ok (peek_tok es, es).

(** ** Values *)

Definition err_value : eval_value_t := as_int 0.

Definition result_type (t1 t2 : eval_type_t) : result eval_type_t :=
  if bool_decide (t1 = et_symbol ∨ t2 = et_symbol) then Fault (Panic "symbol used in expression") else
  Ok (if bool_decide (t1 = et_double ∨ t2 = et_double) then et_double
      else if bool_decide (t1 = et_float ∨ t2 = et_float) then et_float
      else if bool_decide (t1 = et_qword ∨ t2 = et_qword) then et_qword
      else if bool_decide (t1 = et_sqword ∨ t2 = et_sqword) then et_sqword
      else if bool_decide (t1 = et_addr ∨ t2 = et_addr) then et_addr
      else if bool_decide (t1 = et_uint ∨ t2 = et_uint) then et_uint
      else et_int).

Definition no_symbol {A} : result A := Fault (Panic "symbol used in expression").

Definition eval_as_double (v : eval_value_t) : result spec_float :=
  match v with
  | as_double x => Ok x
  | as_float x => Ok (f_convert dfloat_t x)
  | as_qword z | as_sqword z | as_addr z | as_uint z | as_int z => Ok (f_of_Z dfloat_t z)
  | as_symbol _ => no_symbol
  end.

Definition eval_as_float (v : eval_value_t) : result spec_float :=
  match v with
  | as_double x => Ok (f_convert sfloat_t x)
  | as_float x => Ok x
  | as_qword z | as_sqword z | as_addr z | as_uint z | as_int z => Ok (f_of_Z sfloat_t z)
  | as_symbol _ => no_symbol
  end.

(** From floating point, C defines the values that fit. *)
Definition from_float (lo hi : Z) (x : spec_float) : result Z :=
  match f_trunc x with
  | Some z => if bool_decide (lo ≤ z < hi) then Ok z else Fault Undefined
  | None => Fault Undefined
  end.

Definition eval_as_qword (v : eval_value_t) : result Z :=
  match v with
  | as_double x | as_float x => from_float 0 (2 ^ 64) x
  | as_qword z | as_sqword z | as_addr z | as_uint z | as_int z => Ok (u64 z)
  | as_symbol _ => no_symbol
  end.
Definition eval_as_sqword (v : eval_value_t) : result Z :=
  match v with
  | as_double x | as_float x => from_float (- 2 ^ 63) (2 ^ 63) x
  | as_qword z | as_sqword z | as_addr z | as_uint z | as_int z => Ok (i64 z)
  | as_symbol _ => no_symbol
  end.
Definition eval_as_addr (v : eval_value_t) : result Z :=
  match v with
  | as_double x | as_float x => from_float 0 (2 ^ 32) x
  | as_qword z | as_sqword z | as_addr z | as_uint z | as_int z => Ok (u32 z)
  | as_symbol _ => no_symbol
  end.
Definition eval_as_uint (v : eval_value_t) : result Z :=
  match v with
  | as_double x | as_float x => from_float 0 (2 ^ 32) x
  | as_qword z | as_sqword z | as_addr z | as_uint z | as_int z => Ok (u32 z)
  | as_symbol _ => no_symbol
  end.
Definition eval_as_int (v : eval_value_t) : result Z :=
  match v with
  | as_double x | as_float x => from_float (- 2 ^ 31) (2 ^ 31) x
  | as_qword z | as_sqword z | as_addr z | as_uint z | as_int z => Ok (i32 z)
  | as_symbol _ => no_symbol
  end.

Definition is_symbol (v : eval_value_t) : bool := bool_decide (v_type v = et_symbol).

(** A result, and whether [eval_error] becomes [ERR_BADEXPR]. *)
Abbreviation outcome := (eval_value_t * bool)%type.

(** The switch over the type of the result that the four operators share: the operator on floating
    point numbers of a format, on unsigned integers, and on signed integers from the least on. *)
Definition arith (opf : float_fmt → spec_float → spec_float → spec_float) (opu : Z → Z → result Z) (ops : Z → Z → Z → result Z)
    (val1 val2 : eval_value_t) : result outcome :=
  if is_symbol val1 || is_symbol val2 then Ok (err_value, true) else
  et ← result_type (v_type val1) (v_type val2);
  v ← match et with
      | et_double => x ← eval_as_double val1; y ← eval_as_double val2; Ok (as_double (opf dfloat_t x y))
      | et_float => x ← eval_as_float val1; y ← eval_as_float val2; Ok (as_float (opf sfloat_t x y))
      | et_qword => x ← eval_as_qword val1; y ← eval_as_qword val2; z ← opu x y; Ok (as_qword (u64 z))
      | et_sqword => x ← eval_as_sqword val1; y ← eval_as_sqword val2; z ← ops (- 2 ^ 63) x y; Ok (as_sqword (i64 z))
      | et_addr => x ← eval_as_addr val1; y ← eval_as_addr val2; z ← opu x y; Ok (as_addr (u32 z))
      | et_uint => x ← eval_as_uint val1; y ← eval_as_uint val2; z ← opu x y; Ok (as_uint (u32 z))
      | et_int => x ← eval_as_int val1; y ← eval_as_int val2; z ← ops (- 2 ^ 31) x y; Ok (as_int (i32 z))
      | et_symbol => Fault (Panic "bogus expression type")
      end;
  Ok (v, false).

Definition f_add : eval_value_t → eval_value_t → result outcome :=
  arith Floats.f_add (λ x y, Ok (x + y)) (λ _ x y, Ok (x + y)).
Definition f_sub : eval_value_t → eval_value_t → result outcome :=
  arith Floats.f_sub (λ x y, Ok (x - y)) (λ _ x y, Ok (x - y)).
Definition f_mult : eval_value_t → eval_value_t → result outcome :=
  arith Floats.f_mul (λ x y, Ok (x * y)) (λ _ x y, Ok (x * y)).

(** Integers do not divide by zero; the least one has no quotient by -1 of its type. *)
Definition div_unsigned (x y : Z) : result Z := if bool_decide (y = 0) then Fault DivByZero else Ok (x / y).
Definition div_signed (lo x y : Z) : result Z :=
  if bool_decide (y = 0) then Fault DivByZero else
  if bool_decide (y = -1 ∧ x = lo) then Fault Undefined else Ok (Z.quot x y).
Definition f_div : eval_value_t → eval_value_t → result outcome := arith Floats.f_div div_unsigned div_signed.

Definition f_neg (val1 : eval_value_t) : outcome :=
  match val1 with
  | as_symbol _ => (err_value, true)
  | as_double x => (as_double (SFopp x), false)
  | as_float x => (as_float (SFopp x), false)
  | as_qword z => (as_sqword (i64 (- i64 z)), false)
  | as_sqword z => (as_sqword (i64 (- z)), false)
  | as_addr z => (as_addr (u32 (- z)), false)
  | as_uint z => (if bool_decide (2147483648 < z) then as_sqword (i64 (- z)) else as_int (i32 (- i32 z)), false)
  | as_int z => (if bool_decide (u32 z = 0x80000000) then as_uint 2147483648 else as_int (i32 (- z)), false)
  end.

Definition f_eq_zero (val1 : eval_value_t) : bool * bool :=
  match val1 with
  | as_symbol _ => (false, true)
  | as_double x | as_float x => (SFeqb x (S754_zero false), false)
  | as_qword z | as_sqword z | as_addr z | as_uint z | as_int z => (bool_decide (z = 0), false)
  end.

(** ** Constants *)

(** The value of a character as a digit, in any base. *)
Definition digit_val (c : ascii) : option Z :=
  let n := chr c in
  if bool_decide (48 ≤ n ≤ 57) then Some (n - 48)
  else if bool_decide (97 ≤ n ≤ 122) then Some (n - 97 + 10)
  else if bool_decide (65 ≤ n ≤ 90) then Some (n - 65 + 10) else None.
Definition based_digit (base : Z) (c : ascii) : option Z :=
  d ← digit_val c; if bool_decide (d < base) then Some d else None.

(** Digits: the value, their number, and the rest. *)
Fixpoint digits (base : Z) (s : string) (v : Z) (n : nat) : Z * nat * string :=
  match s with
  | String c s' => match based_digit base c with Some d => digits base s' (v * base + d) (S n) | None => (v, n, s) end
  | EmptyString => (v, n, s)
  end.

(** "0x", which [toupper] recognises in both cases. *)
Definition hex_prefix (s : string) : option string :=
  match s with String "0"%char (String c s) => if bool_decide (lower c = 120) then Some s else None | _ => None end.

(** [strtol] and [strtoul] in base 0 on a text without sign: the value, if there is one, and the rest. *)
Definition strto_base0 (s : string) : option (Z * string) :=
  let '(v, n, r) :=
    match hex_prefix s with
    | Some s' => let '(v, n, r) := digits 16 s' 0 0 in
                 if bool_decide (n = 0)%nat then digits 8 s 0 0 else (v, n, r)
    | None => match s with String "0"%char _ => digits 8 s 0 0 | _ => digits 10 s 0 0 end
    end in
  if bool_decide (n = 0)%nat then None else Some (v, r).

(** The value, clamped, the rest, and whether [errno] is set. *)
Definition clamp (hi : Z) (s : string) : Z * string * bool :=
  match strto_base0 s with
  | None => (0, s, false)
  | Some (v, r) => if bool_decide (v ≤ hi) then (v, r, false) else (hi, r, true)
  end.
Definition strtol (s : string) : Z * string * bool := clamp (2 ^ (LONG_BITS h - 1) - 1) s.
Definition strtoul (s : string) : Z * string * bool := clamp (2 ^ LONG_BITS h - 1) s.

(** The digits of [myatosq] and [myatoq]: the value, the rest, and whether it overflowed. *)
Fixpoint atoq_loop (base cutoff cutlim : Z) (s : string) (i : Z) (overflow : bool) : Z * string * bool :=
  match s with
  | EmptyString => (i, s, overflow)
  | String c s' =>
      match based_digit base c with
      | None => (i, s, overflow)
      | Some c =>
          if bool_decide (cutoff < i) || (bool_decide (i = cutoff) && bool_decide (cutlim < c))
          then atoq_loop base cutoff cutlim s' i true
          else atoq_loop base cutoff cutlim s' (i * base + c) overflow
      end
  end.

Definition atoq_base (s : string) (base : Z) : result Z :=
  let base := if bool_decide (base = 0) then match hex_prefix s with Some _ => 16 | None => 10 end else base in
  if bool_decide (base ≤ 1 ∨ 36 < base) then Fault (Panic "bogus base: %d") else Ok base.

(** After the sign: the prefix, the digits, and what the value is clamped to. *)
Definition atoq_digits (base max : Z) (s : string) : option (Z * string * bool) :=
  let s := match (if bool_decide (base = 16) then hex_prefix s else None) with Some s' => s' | None => s end in
  let '(i, r, overflow) := atoq_loop base (max / base) (max mod base) s 0 false in
  if bool_decide (String.length r = String.length s) then None else Some (i, r, overflow).

Definition LL_MAX : Z := 9223372036854775807.
Definition LL_MIN : Z := - LL_MAX - 1.
Definition ULL_MAX : Z := LL_MAX * 2 + 1.

(** Value, rest, and whether [errno] is [ERANGE]. *)
Definition myatosq (nptr : string) (base : Z) : result (Z * string * bool) :=
  match nptr with
  | EmptyString => Fault (Panic "strtoll() passed a NULL string")
  | _ =>
      let s := skip_space nptr in
      match s with
      | EmptyString => Ok (0, nptr, false)
      | String c s' =>
          base ← atoq_base s base;
          let negative := bool_decide (c = "-"%char) in
          let s := if bool_decide (c = "-"%char ∨ c = "+"%char) then s' else s in
          match atoq_digits base LL_MAX s with
          | None => Ok (0, nptr, false)
          | Some (i, r, true) => Ok (if negative then LL_MIN else LL_MAX, r, true)
          | Some (i, r, false) => Ok (if negative then - i else i, r, false)
          end
      end
  end.

Definition myatoq (nptr : string) (base : Z) : result (Z * string * bool) :=
  match nptr with
  | EmptyString => Fault (Panic "strtoll() passed a NULL string")
  | _ =>
      let s := skip_space nptr in
      match s with
      | EmptyString => Ok (0, nptr, false)
      | _ =>
          base ← atoq_base s base;
          match atoq_digits base ULL_MAX s with
          | None => Ok (0, nptr, false)
          | Some (i, r, true) => Ok (ULL_MAX, r, true)
          | Some (i, r, false) => Ok (i, r, false)
          end
      end
  end.

(** *** strtod, on a text without sign *)

(** [m] over [n], rounded to nearest. *)
Definition f_ratio (f : float_fmt) (m n : Z) : spec_float :=
  let '(q, e, l) := SFdiv_core_binary (f_prec f) (f_emax f) m 0 n 0 in
  binary_round_aux (f_prec f) (f_emax f) false q e l.

(** [m] times a power of the base. *)
Definition f_scaled (m base e : Z) : spec_float :=
  if bool_decide (m = 0) then S754_zero false
  else if bool_decide (0 ≤ e) then f_of_Z dfloat_t (m * base ^ e) else f_ratio dfloat_t m (base ^ (- e)).

(** Digits with a point: the digits as one number, how many come after the point, how many in all. *)
Definition mantissa (base : Z) (s : string) : Z * nat * nat * string :=
  let '(v, n, r) := digits base s 0 0 in
  match r with
  | String "."%char r' => let '(v', n', r'') := digits base r' v 0 in
                          if bool_decide (n + n' = 0)%nat then (0, 0%nat, 0%nat, s) else (v', n', (n + n')%nat, r'')
  | _ => (v, 0%nat, n, r)
  end.

(** A decimal exponent, if a digit follows. *)
Definition exponent (s : string) : Z * string :=
  match s with
  | String c s' =>
      if bool_decide (lower c = 101) then
        let '(neg, t) := match s' with
                         | String "-"%char t => (true, t) | String "+"%char t => (false, t) | _ => (false, s') end in
        let '(v, n, r) := digits 10 t 0 0 in
        if bool_decide (n = 0)%nat then (0, s) else (if neg : bool then - v else v, r)
      else (0, s)
  | EmptyString => (0, s)
  end.

(** Too large, or below the normal numbers. *)
Definition range_error (m : Z) (x : spec_float) : bool :=
  match x with
  | S754_infinity _ => true
  | S754_zero _ => bool_decide (m ≠ 0) && underflow_erange h x
  | S754_finite _ p _ => bool_decide (Zpos p < 2 ^ 52) && underflow_erange h x
  | S754_nan => false
  end.

Definition strtod (s : string) : spec_float * string * bool :=
  let '(m, frac, n, r, base) :=
    match hex_prefix s with
    | Some s' => let '(m, frac, n, r) := mantissa 16 s' in
                 if bool_decide (n = 0)%nat then (mantissa 10 s, 10) else (m, frac, n, r, 16)
    | None => (mantissa 10 s, 10)
    end in
  if bool_decide (n = 0)%nat then (S754_zero false, s, false) else
  let '(e, r) := if bool_decide (base = 10) then exponent r else (0, r) in
  let x := f_scaled m base (e - Z.of_nat frac) in (x, r, range_error m x).

(** Good when all of the text was converted without an error. *)
Definition good {A} (p : A * string * bool) : option A :=
  let '(v, r, errno) := p in if negb errno && bool_decide (r = EmptyString) then Some v else None.

Definition constant (buf : string) : result (option eval_value_t) :=
  match good (strtol buf) with Some v => Ok (Some (as_int (i32 v))) | None =>
  match good (strtoul buf) with Some v => Ok (Some (as_uint (u32 v))) | None =>
  q ← myatosq buf 0; match good q with Some v => Ok (Some (as_sqword v)) | None =>
  q ← myatoq buf 0; match good q with Some v => Ok (Some (as_qword v)) | None =>
  match good (strtod buf) with Some v => Ok (Some (as_double v)) | None => Ok None
  end end end end end.

(** ** The recursive descent *)

(** The evaluator of identifiers finds the identifier in [tok_buf]; it returns a value, and what
    [eval_error] is then. *)
Context (f_eval_ident : string → result (eval_value_t * eval_err_t)).

Definition failed (es : eval_state_t) : bool := negb (bool_decide (eval_error es = ERR_NOERR)).
Definition raise_if (b : bool) (es : eval_state_t) : eval_state_t := if b then set_error ERR_BADEXPR es else es.

(** [if (eval_error) return err_value]. *)
Definition checked_value (v : eval_value_t) (es : eval_state_t) : eval_value_t := if failed es then err_value else v.

Fixpoint expr (n : nat) (es : eval_state_t) {struct n} : result (eval_value_t * eval_state_t) :=
  match n with
  | O => Fault OutOfFuel
  | S n =>
      '(val, es) ← term n es;
      if failed es then Ok (err_value, es) else
      '(tok, es) ← peek_next_token es;
      match tok with
      | tok_plus =>
          '(_, es) ← get_next_token es;
          '(val1, es) ← expr n es;
          '(val, bad) ← f_add val val1;
          let es := raise_if bad es in Ok (checked_value val es, es)
      | tok_minus =>
          '(_, es) ← get_next_token es;
          '(val1, es) ← expr n es;
          '(val, bad) ← f_sub val val1;
          let es := raise_if bad es in Ok (checked_value val es, es)
      | _ => Ok (val, es)
      end
  end
with term (n : nat) (es : eval_state_t) {struct n} : result (eval_value_t * eval_state_t) :=
  match n with
  | O => Fault OutOfFuel
  | S n =>
      '(val, es) ← factor n es;
      if failed es then Ok (err_value, es) else
      '(tok, es) ← peek_next_token es;
      match tok with
      | tok_mult =>
          '(_, es) ← get_next_token es;
          '(val1, es) ← term n es;
          '(val, bad) ← f_mult val val1;
          let es := raise_if bad es in Ok (checked_value val es, es)
      | tok_div =>
          '(_, es) ← get_next_token es;
          '(val1, es) ← term n es;
          if failed es then Ok (err_value, es) else
          let '(zero, bad) := f_eq_zero val1 in
          let es := raise_if bad es in
          if zero : bool then Ok (err_value, set_error ERR_DIV0 es) else
          '(val, bad) ← f_div val val1; Ok (val, raise_if bad es)
      | _ => Ok (val, es)
      end
  end
with factor (n : nat) (es : eval_state_t) {struct n} : result (eval_value_t * eval_state_t) :=
  match n with
  | O => Fault OutOfFuel
  | S n =>
      '(tok, es) ← peek_next_token es;
      match tok with
      | tok_oparen =>
          '(_, es) ← get_next_token es;
          '(val, es) ← expr n es;
          if failed es then Ok (err_value, es) else
          '(tok, es) ← peek_next_token es;
          if bool_decide (tok ≠ tok_cparen) then Ok (err_value, set_error ERR_UPAREN es) else
          '(_, es) ← get_next_token es; Ok (val, es)
      | tok_minus =>
          '(_, es) ← get_next_token es;
          '(val, es) ← factor n es;
          if failed es then Ok (err_value, es) else
          let '(val, bad) := f_neg val in Ok (val, raise_if bad es)
      | tok_ident =>
          '(_, es) ← get_next_token es;
          '(val, err) ← f_eval_ident (tok_buf es);
          let es := set_error err es in Ok (checked_value val es, es)
      | tok_const =>
          '(_, es) ← get_next_token es;
          o ← constant (tok_buf es);
          match o with Some val => Ok (val, es) | None => Ok (err_value, set_error ERR_BADCONST es) end
      | _ => Ok (err_value, set_error ERR_NOTERM es)
      end
  end.

(** Value, [eval_error], and the characters that were not used. *)
Definition eval_expr (n : nat) (p : string) : result (eval_value_t * eval_err_t * string) :=
  '(val, es) ← expr n (mkEval p EmptyString EmptyString tok_invalid ERR_NOERR);
  Ok (val, eval_error es, if bool_decide (peek_tok es ≠ tok_invalid) then es_lastp es else es_p es).
End Eval.
