(* ===== verification/EvalMain.v ===== *)
(** * Properties of the expression evaluator

    Evaluation ends, with a value of its type or an error, and without a fault but a quotient that
    overflows; and it computes the values of the expressions of a reference grammar, whose sums and
    products associate to the right. *)

From Stdlib Require Import Ascii.
From S2P Require Import Prelude Floats Options Eval.

(** ** Strings *)

Lemma str_app_assoc s1 s2 s3 : s1 +:+ (s2 +:+ s3) = (s1 +:+ s2) +:+ s3.
Proof. induction s1 as [|c s1 IH]; [done|]. change (String c (s1 +:+ (s2 +:+ s3)) = String c ((s1 +:+ s2) +:+ s3)). by rewrite IH. Qed.

Lemma str_app_nil s : s +:+ EmptyString = s.
Proof. induction s as [|c s IH]; [done|]. change (String c (s +:+ EmptyString) = String c s). by rewrite IH. Qed.

Lemma str_length_app s1 s2 : String.length (s1 +:+ s2) = (String.length s1 + String.length s2)%nat.
Proof. induction s1 as [|c s1 IH]; [done|]. change (S (String.length (s1 +:+ s2)) = S (String.length s1) + String.length s2)%nat. rewrite IH. lia. Qed.

Definition tail_of (s s0 : string) : Prop := ∃ a, s0 = a +:+ s.

#[export] Instance tail_of_preorder : PreOrder tail_of.
Proof.
  split; [by exists EmptyString|]. intros s1 s2 s3 [a ->] [b ->]. exists (b +:+ a). by rewrite str_app_assoc.
Qed.

Lemma tail_cons c s : tail_of s (String c s).
Proof. by exists (String c EmptyString). Qed.

Lemma tail_length s s0 : tail_of s s0 → (String.length s ≤ String.length s0)%nat.
Proof. intros [a ->]. rewrite str_length_app. lia. Qed.

(** The type of the result of an operator on values of known types. *)
Local Ltac eval_result_type :=
  cbn [v_type];
  lazymatch goal with
  | |- context [result_type ?a ?b] => let r := eval vm_compute in (result_type a b) in change (result_type a b) with r
  end; cbn [mbind result_bind eval_as_int eval_as_uint eval_as_addr eval_as_qword eval_as_sqword eval_as_float eval_as_double].

(** ** Characters and buffers *)

Section Safe.
Context (h : eval_host).

(** Characters that index the token map. *)
Fixpoint readable (s : string) : Prop :=
  match s with EmptyString => True | String c s => (CHAR_SIGNED h = true → chr c < 128) ∧ readable s end.

Lemma readable_tail s s0 : tail_of s s0 → readable s0 → readable s.
Proof. intros [a ->]. induction a as [|c a IH]; cbn; [done|]. intros [_ H]. by apply IH. Qed.

Lemma tok_at_Ok c : (CHAR_SIGNED h = true → chr c < 128) → tok_at h c = Ok (tok_map (chr c)).
Proof.
  intros H. unfold tok_at. destruct (CHAR_SIGNED h); [|done]. by rewrite bool_decide_false by (specialize (H eq_refl); lia).
Qed.

Lemma skip_white_Ok s : readable s → ∃ r, skip_white h s = Ok r ∧ tail_of r s.
Proof.
  induction s as [|c s IH]; cbn [readable skip_white]; [by exists EmptyString|]. intros [Hc Hs]. rewrite tok_at_Ok by done.
  cbn [mbind result_bind]. case_bool_decide; [|by eexists]. destruct (IH Hs) as (r & -> & Hr). exists r. split; [done|].
  etrans; [exact Hr|apply tail_cons].
Qed.

Lemma scan_ident_Ok s : readable s → ∃ a r, scan_ident h s = Ok (a, r) ∧ s = a +:+ r.
Proof.
  induction s as [|c s IH]; cbn [readable scan_ident]; [by exists EmptyString, EmptyString|]. intros [Hc Hs]. rewrite tok_at_Ok by done.
  cbn [mbind result_bind]. case_bool_decide; [|by exists EmptyString, (String c s)]. destruct (IH Hs) as (a & r & -> & ->).
  by exists (String c a), r.
Qed.

Lemma scan_const_Ok s : readable s → ∀ last hex, ∃ a r, scan_const h last hex s = Ok (a, r) ∧ s = a +:+ r.
Proof.
  induction s as [|c s IH]; cbn [readable scan_const]; [by exists EmptyString, EmptyString|]. intros [Hc Hs] last hex. rewrite tok_at_Ok by done.
  cbn [mbind result_bind]. destruct (_ || _); [|by exists EmptyString, (String c s)].
  destruct (IH Hs (lower c) (hex || bool_decide (lower c = 120))) as (a & r & -> & ->). by exists (String c a), r.
Qed.

(** ** The state of a parse of [p0] *)

Context (p0 : string) (Hread : readable p0) (Hlen : (String.length p0 < 512)%nat).

(** What is left to parse, the token that was peeked at included. *)
Definition left (es : eval_state_t) : string := if bool_decide (peek_tok es = tok_invalid) then es_p es else es_lastp es.
Definition size (es : eval_state_t) : nat := String.length (left es).

(** The only character that makes a token of division. *)
Definition has_div : Prop := ∃ a b, p0 = a +:+ String "/" b.
Definition token_ok (t : eval_token_t) (buf : string) : Prop :=
  (t = tok_const → buf ≠ EmptyString) ∧ (t = tok_div → has_div).

Lemma token_ok_div c r : tail_of (String c r) p0 → tok_map (chr c) = tok_div → has_div.
Proof.
  intros [a Ha]. unfold tok_map. repeat (case_bool_decide; [done|]). case_bool_decide as Hc; [intros _|by repeat case_bool_decide].
  exists a, r. rewrite Ha. rewrite <- (ascii_nat_embedding c). unfold chr in Hc. by replace (nat_of_ascii c) with 47%nat by lia.
Qed.

Record es_ok (es : eval_state_t) : Prop := {
  eo_left : tail_of (left es) p0;
  eo_p : tail_of (es_p es) (left es);
  eo_peek : peek_tok es ≠ tok_invalid → peek_tok es = tok_eof ∨ (String.length (es_p es) < size es)%nat;
  eo_tok : token_ok (peek_tok es) (tok_buf es)
}.

Lemma token_ok_invalid buf : token_ok tok_invalid buf.
Proof. by split. Qed.

Lemma get_token_spec es : es_ok es → ∃ t es', get_next_token h es = Ok (t, es') ∧ es_ok es' ∧ peek_tok es' = tok_invalid ∧
  eval_error es' = eval_error es ∧ es_lastp es' = es_lastp es ∧ (size es' ≤ size es)%nat ∧ (t ≠ tok_eof → (size es' < size es)%nat) ∧
  tail_of (es_p es') (left es) ∧ token_ok t (tok_buf es').
Proof.
  intros [H1 H2 H3 H4]. unfold get_next_token. case_bool_decide as Hp.
  { exists (peek_tok es), (set_peek tok_invalid es). split; [done|].
    assert (left (set_peek tok_invalid es) = es_p es) as Hl by done.
    split_and!; try done; unfold size in *; rewrite ?Hl.
    - split; rewrite ?Hl; [by etrans|done|by intros []|apply token_ok_invalid].
    - by apply tail_length.
    - intros Ht. by destruct (H3 Hp). }
  unfold left, size in *. rewrite (bool_decide_true (peek_tok es = _)) in * by done.
  destruct (skip_white_Ok (es_p es)) as (p & -> & Htl). { exact (readable_tail _ _ H1 Hread). } cbn [mbind result_bind].
  assert (tail_of p p0) as Hp0 by (by etrans). destruct p as [|c p].
  { do 2 eexists. split; [reflexivity|]. unfold left. cbn. split_and!; try done.
    rewrite !bool_decide_true by done. cbn. lia. }
  pose proof (readable_tail _ _ Hp0 Hread) as [Hc Hr]. rewrite tok_at_Ok by done. cbn [mbind result_bind].
  assert (∃ a r, (match tok_map (chr c) with tok_ident => scan_ident h p | tok_const => scan_const h 0 false p | _ => Ok (EmptyString, p) end)
    = Ok (a, r) ∧ p = a +:+ r) as (a & r & -> & Hpr).
  { destruct (tok_map (chr c)); try (by exists EmptyString, p); [by apply scan_ident_Ok|by apply scan_const_Ok]. }
  cbn [mbind result_bind]. assert (tail_of r (String c p)) as Hrt by (exists (String c a); by rewrite Hpr).
  pose proof (tail_length _ _ Hp0) as Hl0. pose proof (tail_length _ _ Htl) as Hl1.
  assert ((String.length (String c a) + String.length r = String.length (String c p))%nat) as Hsum by (rewrite Hpr; cbn; rewrite str_length_app; lia).
  assert ((String.length (String c a) < 512)%nat) as Hfit by lia.
  unfold fits. rewrite bool_decide_false by lia. cbn [mbind result_bind].
  set (t' := match tok_map (chr c) with tok_whitespace | tok_eof => tok_invalid | tok => tok end).
  exists t', (mkEval r (es_lastp es) (String c a) tok_invalid (eval_error es)). split; [by unfold t'; destruct (tok_map (chr c))|].
  assert (left (mkEval r (es_lastp es) (String c a) tok_invalid (eval_error es)) = r) as Hlr by done.
  change (String.length (String c a)) with (S (String.length a)) in Hsum.
  assert (left es = es_p es) as Hle by (unfold left; by rewrite bool_decide_true).
  rewrite ?Hlr, ?Hle. split_and!; try done; cbn [es_p]; try lia.
  - split; rewrite ?Hlr; [by etrans|done|by intros []|apply token_ok_invalid].
  - by etrans.
  - split; [done|]. unfold t'. intros Ht. apply (token_ok_div c p Hp0). by destruct (tok_map (chr c)).
Qed.

Lemma peek_token_spec es : es_ok es → ∃ t es', peek_next_token h es = Ok (t, es') ∧ es_ok es' ∧ peek_tok es' = t ∧
  eval_error es' = eval_error es ∧ (size es' ≤ size es)%nat.
Proof.
  intros Hes. unfold peek_next_token. case_bool_decide as Hp; [|by exists (peek_tok es), es].
  set (es1 := mkEval _ _ _ _ _). assert (left es = es_p es) as Hle by (unfold left; by rewrite bool_decide_true).
  assert (left es1 = es_p es) as Hl by (unfold left, es1; cbn [es_p peek_tok]; by rewrite bool_decide_true).
  assert (es_ok es1) as Hes1.
  { destruct Hes as [H1 H2 _ H4]. rewrite Hle in *. split; rewrite ?Hl; [done..| |done]. by intros []. }
  destruct (get_token_spec es1 Hes1) as (t & es' & -> & H1 & H2 & H3 & H4 & H5 & H6 & H7 & H8). cbn [mbind result_bind].
  exists t, (set_peek t es'). split; [done|]. change (es_lastp es1) with (es_p es) in H4. rewrite Hl in H7.
  assert (left (set_peek t es') = if bool_decide (t = tok_invalid) then es_p es' else es_p es) as Hleft.
  { unfold left, set_peek. cbn. by rewrite H4. }
  assert (size es = String.length (es_p es)) as Hsz1 by (unfold size; by rewrite Hle).
  assert (size es1 = String.length (es_p es)) as Hsz by (unfold size; by rewrite Hl).
  assert (left es' = es_p es') as Hle' by (unfold left; by rewrite bool_decide_true).
  assert (size es' = String.length (es_p es')) as Hsz2 by (unfold size; by rewrite Hle').
  assert (tail_of (es_p es) p0) as Htl by (destruct Hes as [E _ _]; by rewrite Hle in E).
  split_and!; try done.
  - split; rewrite ?Hleft; unfold size; rewrite ?Hleft; cbn [set_peek es_p peek_tok].
    + case_bool_decide; [|done]. by etrans.
    + by case_bool_decide.
    + intros Ht. rewrite bool_decide_false by done. destruct (decide (t = tok_eof)) as [|Hne]; [by left|]. right. specialize (H6 Hne). lia.
    + done.
  - rewrite Hsz1. unfold size. rewrite Hleft. case_bool_decide; lia.
Qed.

(** Peeking, and taking what was seen. *)
Lemma peek_take es : es_ok es → ∃ t es1, peek_next_token h es = Ok (t, es1) ∧ es_ok es1 ∧ eval_error es1 = eval_error es ∧
  (size es1 ≤ size es)%nat ∧ token_ok t (tok_buf es1) ∧
  (t ≠ tok_invalid → t ≠ tok_eof → ∃ es2, get_next_token h es1 = Ok (t, es2) ∧ es_ok es2 ∧ eval_error es2 = eval_error es ∧
    (size es2 < size es)%nat ∧ tok_buf es2 = tok_buf es1).
Proof.
  intros Hes. destruct (peek_token_spec es Hes) as (t & es1 & H1 & H2 & H3 & H4 & H5). exists t, es1.
  split_and!; try done; [by rewrite <- H3; apply H2|]. intros Hi He. exists (set_peek tok_invalid es1).
  unfold get_next_token. rewrite bool_decide_true by congruence. rewrite H3. split; [done|].
  destruct H2 as [E1 E2 E3 _]. assert (left (set_peek tok_invalid es1) = es_p es1) as Hl by done.
  rewrite H3 in E3. split_and!; try done.
  - split; rewrite ?Hl; [by etrans|done|by intros []|apply token_ok_invalid].
  - destruct (E3 Hi) as [|Hlt]; [done|]. unfold size at 1. rewrite Hl. lia.
Qed.

(** ** Values *)

(** The integers of a type. *)
Definition value_ok (v : eval_value_t) : Prop :=
  match v with
  | as_int z => - 2 ^ 31 ≤ z < 2 ^ 31
  | as_uint z | as_addr z => 0 ≤ z < 2 ^ 32
  | as_qword z => 0 ≤ z < 2 ^ 64
  | as_sqword z => - 2 ^ 63 ≤ z < 2 ^ 63
  | as_float _ | as_double _ | as_symbol _ => True
  end.

Definition holds {A} (Q : fault → Prop) (P : A → Prop) (r : result A) : Prop :=
  match r with Ok a => P a | Fault f => Q f end.

Lemma holds_bind {A B} Q (P : B → Prop) (r : result A) k : holds Q (λ a, holds Q P (k a)) r → holds Q P (r ≫= k).
Proof. by destruct r. Qed.

Lemma holds_mono {A} Q (P P' : A → Prop) r : holds Q P r → (∀ a, P a → P' a) → holds Q P' r.
Proof. destruct r; cbn; auto. Qed.

(** A value, and whether it is an error. *)
Definition outcome_ok (o : eval_value_t * bool) : Prop := value_ok o.1 ∧ (o.2 = true → o.1 = err_value).

Lemma err_value_ok : value_ok err_value.
Proof. done. Qed.

Lemma value_ok_bounds z : value_ok (as_int (i32 z)) ∧ value_ok (as_uint (u32 z)) ∧ value_ok (as_addr (u32 z)) ∧
  value_ok (as_qword (u64 z)) ∧ value_ok (as_sqword (i64 z)).
Proof. cbn [value_ok]. auto using i32_range, u32_range, u64_range, i64_range. Qed.

Lemma mod_nonzero z k : - k < z < k → z ≠ 0 → z mod k ≠ 0.
Proof. intros H1 H2 H3. apply Z.mod_divide in H3 as [q ->]; [|lia]. destruct (Z.lt_trichotomy q 0) as [|[->|]]; [nia|lia|nia]. Qed.

Lemma f_neg_ok v : outcome_ok (f_neg v).
Proof.
  destruct v as [z|z|z|z|z|x|x|x]; cbn [f_neg]; repeat case_bool_decide; split; try done; apply value_ok_bounds.
Qed.

(** The operators fault as theirs on integers do; a second operand that is not zero stays so. *)
Lemma arith_ok opf opu ops (Q : fault → Prop) (nz : bool) v1 v2 : value_ok v1 → value_ok v2 → (nz = true → (f_eq_zero v2).1 = false) →
  (∀ x y, (nz = true → y ≠ 0) → holds Q (λ _, True) (opu x y)) → (∀ lo x y, (nz = true → y ≠ 0) → holds Q (λ _, True) (ops lo x y)) →
  holds Q outcome_ok (arith opf opu ops v1 v2).
Proof.
  intros H1 H2 Hz Hu Hs. unfold arith. destruct (is_symbol v1 || is_symbol v2) eqn:Hsym; [by split|].
  unfold f_eq_zero in Hz.
  destruct v1 as [a|a|a|a|a|a|a|a]; try done; destruct v2 as [b|b|b|b|b|b|b|b]; try done; cbn in Hz;
    rewrite ?bool_decide_eq_false in Hz; eval_result_type; try (by split; [|done]); apply holds_bind, holds_bind;
    (eapply holds_mono; [(apply Hu || apply Hs); intros Hnz; specialize (Hz Hnz); cbn [value_ok] in H1, H2;
       unfold u32, u64, i64, i32; rewrite ?Z.mod_small by lia; try lia; apply mod_nonzero; lia
     |intros z _; split; [apply value_ok_bounds|done]]).
Qed.

(** ** Constants *)

Lemma based_digit_range base c d : based_digit base c = Some d → 0 ≤ d < base.
Proof.
  unfold based_digit. intros (n & Hd & H)%bind_Some. case_bool_decide; [|done]. injection H as <-. split; [|done].
  unfold digit_val in Hd. repeat case_bool_decide; simplify_eq; lia.
Qed.

Lemma atoq_loop_range base max s i ov : 1 < base → 0 ≤ i ≤ max →
  0 ≤ (atoq_loop base (max / base) (max mod base) s i ov).1.1 ≤ max.
Proof.
  intros Hb. revert i ov. induction s as [|c s IH]; intros i ov Hi; cbn; [done|].
  destruct (based_digit base c) as [d|] eqn:Hd; [|done]. apply based_digit_range in Hd.
  destruct (_ || _) eqn:Ho; [by apply IH|]. apply IH. apply orb_false_iff in Ho as [H1 H2]. apply bool_decide_eq_false in H1.
  pose proof (Z.div_mod max base ltac:(lia)) as Hm. assert (i < max / base ∨ (i = max / base ∧ d ≤ max mod base)) as [Hlt|[-> Hle]].
  { apply andb_false_iff in H2 as [H2|H2]; apply bool_decide_eq_false in H2; [left; lia|].
    destruct (decide (i = max / base)); [right; lia|left; lia]. }
  - pose proof (Z.mod_pos_bound max base ltac:(lia)). nia.
  - nia.
Qed.

Lemma atoq_digits_range base max s i r ov : 1 < base → 0 ≤ max → atoq_digits base max s = Some (i, r, ov) → 0 ≤ i ≤ max.
Proof.
  intros Hb Hm. unfold atoq_digits. set (s' := match _ with Some s' => s' | None => s end).
  pose proof (atoq_loop_range base max s' 0 false Hb ltac:(lia)) as Hr. destruct (atoq_loop _ _ _ _ _ _) as [[i' r'] ov'].
  case_bool_decide; [done|]. by intros [= <- <- <-].
Qed.

Lemma atoq_base_Ok s : ∃ base, atoq_base s 0 = Ok base ∧ 1 < base.
Proof. unfold atoq_base. destruct (hex_prefix s); by eexists. Qed.

Lemma constant_ok (Q : fault → Prop) buf : buf ≠ EmptyString → holds Q (λ o, ∀ v, o = Some v → value_ok v) (constant h buf).
Proof.
  intros Hbuf. unfold constant. destruct (good (strtol h buf)). { intros v [= <-]. apply i32_range. }
  destruct (good (strtoul h buf)). { intros v [= <-]. apply u32_range. }
  destruct (atoq_base_Ok (skip_space buf)) as (base & Hbase & Hb).
  assert (∃ q, myatosq buf 0 = Ok q ∧ - 2 ^ 63 ≤ q.1.1 < 2 ^ 63) as ([[v r] e] & -> & Hv).
  { unfold myatosq. destruct buf as [|c buf]; [done|]. destruct (skip_space (String c buf)) as [|c' s] eqn:Hs; [by eexists|].
    rewrite Hbase. cbn [mbind result_bind]. destruct (atoq_digits _ _ _) as [[[i r] []]|] eqn:Hd; [| |by eexists]; eexists; (split; [done|]);
      [cbn [fst snd]; repeat case_bool_decide; unfold LL_MIN, LL_MAX; lia|]. apply atoq_digits_range in Hd; [|done..]. unfold LL_MAX in Hd. cbn [fst snd]; repeat case_bool_decide; lia. }
  cbn [mbind result_bind]. destruct (good (v, r, e)) as [z|] eqn:Hg.
  { intros x [= <-]. unfold good in Hg. destruct (_ && _); [|done]. by injection Hg as <-. }
  assert (∃ q, myatoq buf 0 = Ok q ∧ 0 ≤ q.1.1 < 2 ^ 64) as ([[v' r'] e'] & -> & Hv').
  { unfold myatoq. destruct buf as [|c buf]; [done|]. destruct (skip_space (String c buf)) as [|c' s] eqn:Hs; [by eexists|].
    rewrite Hbase. cbn [mbind result_bind]. destruct (atoq_digits _ _ _) as [[[i r''] []]|] eqn:Hd; [| |by eexists]; eexists; (split; [done|]);
      [done|]. apply atoq_digits_range in Hd; [|done..]. unfold ULL_MAX, LL_MAX in Hd. cbn [fst snd]. lia. }
  cbn [mbind result_bind]. destruct (good (v', r', e')) as [z|] eqn:Hg'.
  { intros x [= <-]. unfold good in Hg'. destruct (_ && _); [|done]. by injection Hg' as <-. }
  destruct (good (strtod h buf)); [by intros x [= <-]|done].
Qed.

(** ** The descent *)

Context (f_eval_ident : string → result (eval_value_t * eval_err_t)).
Context (Hident : ∀ s, ∃ v e, f_eval_ident s = Ok (v, e) ∧ value_ok v).

(** From [es]: a value of its type and, without an error, something was used; or a quotient that overflows. *)
Definition undefined (f : fault) : Prop := f = Undefined ∧ has_div.
Definition post (es : eval_state_t) : result (eval_value_t * eval_state_t) → Prop :=
  holds undefined (λ '(v, es'), es_ok es' ∧ value_ok v ∧ (size es' ≤ size es)%nat ∧
    (eval_error es' = ERR_NOERR → (size es' < size es)%nat) ∧ (eval_error es' ≠ ERR_NOERR → v = err_value)).

Lemma set_error_ok e es : es_ok es → es_ok (set_error e es).
Proof. intros []. by split. Qed.

Lemma raise_if_ok b es : es_ok es → es_ok (raise_if b es).
Proof. destruct b; [apply set_error_ok|done]. Qed.

Lemma size_raise b es : size (raise_if b es) = size es.
Proof. by destruct b. Qed.

Lemma failed_spec es : failed es = false ↔ eval_error es = ERR_NOERR.
Proof. unfold failed. by rewrite negb_false_iff, bool_decide_eq_true. Qed.

Lemma failed_true es : failed es = true → eval_error es ≠ ERR_NOERR.
Proof. unfold failed. by rewrite negb_true_iff, bool_decide_eq_false. Qed.

Lemma checked_ok v es : value_ok v → value_ok (checked_value v es) ∧ (eval_error es ≠ ERR_NOERR → checked_value v es = err_value).
Proof. intros Hv. unfold checked_value. destruct (failed es) eqn:Hf; [done|]. apply failed_spec in Hf. by split. Qed.

(** Stopping with an error, and with the value so far. *)
Lemma post_err es es' e : es_ok es' → (size es' ≤ size es)%nat → e ≠ ERR_NOERR → post es (Ok (err_value, set_error e es')).
Proof. intros. split_and!; [by apply set_error_ok|done..]. Qed.

Lemma post_failed es es' : es_ok es' → (size es' ≤ size es)%nat → failed es' = true → post es (Ok (err_value, es')).
Proof. intros ? ? Hf%failed_true. by split_and!. Qed.

Lemma post_value es es' v : es_ok es' → (size es' < size es)%nat → eval_error es' = ERR_NOERR → value_ok v → post es (Ok (v, es')).
Proof. intros. split_and!; [done..|lia|done|congruence]. Qed.

(** What the operators that check afterwards do with their outcome. *)
Lemma post_outcome es es' r : es_ok es' → (size es' < size es)%nat → holds undefined outcome_ok r →
  post es ('(val, bad) ← r; let es' := raise_if bad es' in Ok (checked_value val es', es')).
Proof.
  intros Hes Hs Hr. apply holds_bind. eapply holds_mono; [exact Hr|]. intros [v b] [Hv _]. cbn in Hv.
  destruct (checked_ok v (raise_if b es') Hv). split_and!; try done; [by apply raise_if_ok|rewrite size_raise; lia|by rewrite size_raise].
Qed.

(** And those that do not. *)
Lemma post_unchecked es es' o : es_ok es' → (size es' < size es)%nat → eval_error es' = ERR_NOERR → outcome_ok o →
  post es (let '(val, bad) := o in Ok (val, raise_if bad es')).
Proof.
  intros Hes Hs He [Hv Hb]. destruct o as [v b]. split_and!; [by apply raise_if_ok|done|rewrite size_raise; lia|by rewrite size_raise|].
  destruct b; [by intros _; apply Hb|]. by intros [].
Qed.

Abbreviation expr := (expr h f_eval_ident).
Abbreviation term := (term h f_eval_ident).
Abbreviation factor := (factor h f_eval_ident).

Lemma post_bind es es' r k : post es' r → (size es' ≤ size es)%nat →
  (∀ v es'', es_ok es'' → value_ok v → (size es'' ≤ size es')%nat → (eval_error es'' = ERR_NOERR → (size es'' < size es')%nat) → post es (k (v, es''))) →
  post es (r ≫= k).
Proof. intros Hr Hs Hk. apply holds_bind. eapply holds_mono; [exact Hr|]. intros [v es''] (? & ? & ? & ? & _). by apply Hk. Qed.

(** With this fuel, from a state without error. *)
Definition handled (n : nat) : Prop := ∀ es, es_ok es → eval_error es = ERR_NOERR →
  ((3 * size es + 3 ≤ n)%nat → post es (expr n es)) ∧ ((3 * size es + 2 ≤ n)%nat → post es (term n es)) ∧
  ((3 * size es + 1 ≤ n)%nat → post es (factor n es)).

Lemma factor_step n es : handled n → es_ok es → eval_error es = ERR_NOERR → (3 * size es ≤ n)%nat → post es (factor (S n) es).
Proof.
  intros IH Hes He Hn. cbn. destruct (peek_take es Hes) as (t & es1 & -> & Hes1 & He1 & Hs1 & [Hc _] & Ht). cbn [mbind result_bind].
  destruct t; try (by apply post_err); destruct (Ht ltac:(done) ltac:(done)) as (es2 & -> & Hes2 & He2 & Hs2 & Hb2); cbn [mbind result_bind].
  - destruct (Hident (tok_buf es2)) as (v & e & -> & Hv). cbn [mbind result_bind]. destruct (checked_ok v (set_error e es2) Hv).
    split_and!; try done; [by apply set_error_ok|change (size (set_error e es2)) with (size es2); lia].
  - apply holds_bind. eapply holds_mono; [apply constant_ok; rewrite Hb2; by apply Hc|]. intros [v|] Hv; [|apply post_err; [done|lia|done]].
    apply post_value; [done|done|congruence|by apply Hv].
  - apply (post_bind es es2); [apply IH; [done|congruence|lia]|lia|]. intros v es3 Hes3 Hv Hs3 _. destruct (failed es3) eqn:Hf; [apply post_failed; [done|lia|done]|].
    apply failed_spec in Hf. apply (post_unchecked es es3 (f_neg v)); [done|lia|done|]. by apply f_neg_ok.
  - apply (post_bind es es2); [apply IH; [done|congruence|lia]|lia|]. intros v es3 Hes3 Hv Hs3 _. destruct (failed es3) eqn:Hf; [apply post_failed; [done|lia|done]|].
    apply failed_spec in Hf. destruct (peek_take es3 Hes3) as (t & es4 & -> & Hes4 & He4 & Hs4 & _ & Ht4). cbn [mbind result_bind].
    case_bool_decide as Hp; [apply post_err; [done|lia|done]|]. subst t.
    destruct (Ht4 ltac:(done) ltac:(done)) as (es5 & -> & Hes5 & He5 & Hs5 & _). cbn [mbind result_bind]. apply post_value; [done|lia|congruence|done].
Qed.

Lemma f_div_ok v1 v2 : has_div → value_ok v1 → value_ok v2 → (f_eq_zero v2).1 = false → holds undefined outcome_ok (f_div v1 v2).
Proof.
  intros Hd H1 H2 Hz. apply (arith_ok _ _ _ _ true); [done..| |]; intros; [unfold div_unsigned|unfold div_signed];
    rewrite bool_decide_false by auto; [done|]. by case_bool_decide.
Qed.

(** The operand that follows a token, and what is done with it. *)
Lemma post_right (f : eval_state_t → result (eval_value_t * eval_state_t)) t es es1 es2 k :
  (∃ es', get_next_token h es2 = Ok (t, es') ∧ es_ok es' ∧ eval_error es' = eval_error es1 ∧ (size es' < size es1)%nat ∧ tok_buf es' = tok_buf es2) →
  eval_error es1 = ERR_NOERR → (size es1 < size es)%nat →
  (∀ es', es_ok es' → eval_error es' = ERR_NOERR → (size es' < size es1)%nat → post es' (f es')) →
  (∀ v es', es_ok es' → value_ok v → (size es' < size es)%nat → post es (k (v, es'))) →
  post es (get_next_token h es2 ≫= λ '(_, es'), f es' ≫= k).
Proof.
  intros (es' & -> & Hes' & He' & Hs' & _) He Hs Hf Hk. cbn [mbind result_bind]. apply (post_bind es es'); [apply Hf; [done|congruence|done]|lia|].
  intros v es3 Hes3 Hv Hs3 _. apply Hk; [done|done|lia].
Qed.

(** The first operand, then the token that may be an operator. *)
Lemma post_left es r k : post es r →
  (∀ v es1 t es2, es_ok es1 → value_ok v → (size es1 < size es)%nat → eval_error es1 = ERR_NOERR → es_ok es2 → eval_error es2 = ERR_NOERR →
    (size es2 ≤ size es1)%nat → token_ok t (tok_buf es2) →
    (t ≠ tok_invalid → t ≠ tok_eof → ∃ es', get_next_token h es2 = Ok (t, es') ∧ es_ok es' ∧ eval_error es' = eval_error es1 ∧
      (size es' < size es1)%nat ∧ tok_buf es' = tok_buf es2) → post es (k v t es2)) →
  post es ('(val, es1) ← r; if failed es1 then Ok (err_value, es1) else '(tok, es2) ← peek_next_token h es1; k val tok es2).
Proof.
  intros Hr Hk. apply (post_bind es es); [done|done|]. intros v es1 Hes1 Hv Hs1 Hs1'.
  destruct (failed es1) eqn:Hf; [by apply post_failed|]. apply failed_spec in Hf. specialize (Hs1' Hf).
  destruct (peek_take es1 Hes1) as (t & es2 & -> & Hes2 & He2 & Hs2 & Hd & Ht). cbn [mbind result_bind].
  apply (Hk v es1); try done. congruence.
Qed.

Lemma expr_step n es : handled n → es_ok es → eval_error es = ERR_NOERR → (3 * size es + 2 ≤ n)%nat → post es (expr (S n) es).
Proof.
  intros IH Hes He Hn. apply post_left; [by apply IH|]. intros v es1 t es2 Hes1 Hv Hs1 He1 Hes2 He2 Hs2 _ Ht.
  destruct t; try (apply post_value; [done|lia|done|done]); (eapply (post_right (expr n)); [by apply Ht|done|done|intros; apply IH; [done..|lia]|]);
    intros v' es' Hes' Hv' Hs'; (apply post_outcome; [done|done|]); apply (arith_ok _ _ _ _ false); done.
Qed.

Lemma term_step n es : handled n → es_ok es → eval_error es = ERR_NOERR → (3 * size es + 1 ≤ n)%nat → post es (term (S n) es).
Proof.
  intros IH Hes He Hn. apply post_left; [by apply IH|]. intros v es1 t es2 Hes1 Hv Hs1 He1 Hes2 He2 Hs2 [_ Hd] Ht.
  destruct t; try (apply post_value; [done|lia|done|done]); (eapply (post_right (term n)); [by apply Ht|done|done|intros; apply IH; [done..|lia]|]);
    intros v' es' Hes' Hv' Hs'; [apply post_outcome; [done|done|]; by apply (arith_ok _ _ _ _ false)|].
  destruct (failed es') eqn:Hf; [apply post_failed; [done|lia|done]|]. apply failed_spec in Hf.
  destruct (f_eq_zero v') as [[] bad] eqn:Hz; [apply post_err; [by apply raise_if_ok|rewrite size_raise; lia|done]|].
  destruct bad.
  - destruct v'; try done. unfold f_div, arith. rewrite orb_true_r. cbn.
    apply (post_err es (set_error ERR_BADEXPR es')); [by apply set_error_ok|change (size es' ≤ size es)%nat; lia|done].
  - apply holds_bind. eapply holds_mono; [apply f_div_ok; [by apply Hd|done|done|by rewrite Hz]|]. intros o Ho. by apply post_unchecked.
Qed.

Lemma handled_all n : handled n.
Proof.
  induction n as [|n IH]; intros es Hes He; (split_and!; intros Hn; [try lia..]).
  - apply expr_step; [done..|lia].
  - apply term_step; [done..|lia].
  - apply factor_step; [done..|lia].
Qed.

Lemma eval_safe : holds undefined (λ '(v, err, rest), value_ok v ∧ tail_of rest p0 ∧ (err = ERR_NOERR → (String.length rest < String.length p0)%nat) ∧
  (err ≠ ERR_NOERR → v = err_value)) (eval_expr h f_eval_ident (3 * String.length p0 + 3) p0).
Proof.
  set (es := mkEval p0 EmptyString EmptyString tok_invalid ERR_NOERR). assert (es_ok es) as Hes.
  { split; [by exists EmptyString..|by intros []|apply token_ok_invalid]. }
  unfold eval_expr. fold es. apply holds_bind. eapply holds_mono; [by apply handled_all|]. intros [v es'] (Hes' & Hv & _ & Hs & He).
  cbn [mret result_ret holds]. assert ((if bool_decide (peek_tok es' ≠ tok_invalid) then es_lastp es' else es_p es') = left es') as ->.
  { unfold left. by do 2 case_bool_decide. }
  split_and!; [done|by destruct Hes'|exact Hs|done].
Qed.
End Safe.

(** ** The grammar *)

(** A decimal numeral of at most ten digits, in front of [acc]. *)
Definition numeral_digit (d : Z) : ascii := ascii_of_nat (48 + Z.to_nat d).
Fixpoint dec (k : nat) (n : Z) (acc : string) : string :=
  match k with
  | O => acc
  | S k => let acc := String (numeral_digit (n mod 10)) acc in if bool_decide (n < 10) then acc else dec k (n / 10) acc
  end.
Definition decimal (n : Z) : string := dec 10 n EmptyString.

Inductive fac := FNum (n : Z) | FVar (x : string) | FNeg (f : fac) | FParen (e : exp)
with trm := TFac (f : fac) | TMul (f : fac) (t : trm) | TDiv (f : fac) (t : trm)
with exp := ETrm (t : trm) | EAdd (t : trm) (e : exp) | ESub (t : trm) (e : exp).

Scheme fac_mut := Induction for fac Sort Prop
  with trm_mut := Induction for trm Sort Prop
  with exp_mut := Induction for exp Sort Prop.
Combined Scheme grammar_ind from fac_mut, trm_mut, exp_mut.

(** Tokens: their kind and their text. *)
Inductive tk := KNum (n : Z) | KVar (x : string) | KOp (t : eval_token_t).

Definition op_text (t : eval_token_t) : string :=
  match t with
  | tok_plus => "+" | tok_minus => "-" | tok_mult => "*" | tok_div => "/" | tok_oparen => "(" | tok_cparen => ")" | _ => EmptyString
  end.
Definition tk_kind (k : tk) : eval_token_t := match k with KNum _ => tok_const | KVar _ => tok_ident | KOp t => t end.
Definition tk_text (k : tk) : string := match k with KNum n => decimal n | KVar x => x | KOp t => op_text t end.

Fixpoint fac_tokens (f : fac) : list tk :=
  match f with
  | FNum n => [KNum n] | FVar x => [KVar x] | FNeg f => KOp tok_minus :: fac_tokens f
  | FParen e => KOp tok_oparen :: exp_tokens e ++ [KOp tok_cparen]
  end
with trm_tokens (t : trm) : list tk :=
  match t with
  | TFac f => fac_tokens f | TMul f t => fac_tokens f ++ KOp tok_mult :: trm_tokens t
  | TDiv f t => fac_tokens f ++ KOp tok_div :: trm_tokens t
  end
with exp_tokens (e : exp) : list tk :=
  match e with
  | ETrm t => trm_tokens t | EAdd t e => trm_tokens t ++ KOp tok_plus :: exp_tokens e
  | ESub t e => trm_tokens t ++ KOp tok_minus :: exp_tokens e
  end.

(** A space in front of every token. *)
Fixpoint flat (l : list tk) : string := match l with [] => EmptyString | k :: l => String " " (tk_text k +:+ flat l) end.
Definition print (e : exp) : string := flat (exp_tokens e).

(** Numbers are of type [int]; names are identifiers that fit the buffer of a token. *)
Fixpoint ident_rest (s : string) : bool :=
  match s with
  | EmptyString => true
  | String c s => bool_decide (tok_map (chr c) = tok_ident ∨ tok_map (chr c) = tok_const) && ident_rest s
  end.
Definition tk_ok (k : tk) : Prop :=
  match k with
  | KNum n => 0 ≤ n < 2 ^ 31
  | KVar (String c s) => tok_map (chr c) = tok_ident ∧ ident_rest s = true ∧ (String.length s < 511)%nat
  | KVar EmptyString => False
  | KOp t => t ∈ [tok_plus; tok_minus; tok_mult; tok_div; tok_oparen; tok_cparen]
  end.
Definition exp_ok (e : exp) : Prop := Forall tk_ok (exp_tokens e).

(** *** What an expression denotes: a value and an error *)

Section Denote.
Context (f_eval_ident : string → result (eval_value_t * eval_err_t)).

Definition and_then {A} (d : result (A * eval_err_t)) (k : A → result (eval_value_t * eval_err_t)) : result (eval_value_t * eval_err_t) :=
  '(v, er) ← d; if bool_decide (er = ERR_NOERR) then k v else Ok (err_value, er).

(** The outcome of an operator whose right operand had [er]. *)
Definition or_bad (o : eval_value_t * bool) (er : eval_err_t) : eval_value_t * eval_err_t :=
  let er := if o.2 then ERR_BADEXPR else er in (if bool_decide (er = ERR_NOERR) then o.1 else err_value, er).

Fixpoint d_fac (f : fac) : result (eval_value_t * eval_err_t) :=
  match f with
  | FNum n => Ok (as_int n, ERR_NOERR)
  | FVar x => and_then (f_eval_ident x) (λ v, Ok (v, ERR_NOERR))
  | FNeg f => and_then (d_fac f) (λ v, Ok (or_bad (f_neg v) ERR_NOERR))
  | FParen e => d_exp e
  end
with d_trm (t : trm) : result (eval_value_t * eval_err_t) :=
  match t with
  | TFac f => d_fac f
  | TMul f t => and_then (d_fac f) (λ v, '(v1, er) ← d_trm t; o ← f_mult v v1; Ok (or_bad o er))
  | TDiv f t => and_then (d_fac f) (λ v, and_then (d_trm t) (λ v1,
      if (f_eq_zero v1).1 then Ok (err_value, ERR_DIV0) else o ← f_div v v1; Ok (or_bad o ERR_NOERR)))
  end
with d_exp (e : exp) : result (eval_value_t * eval_err_t) :=
  match e with
  | ETrm t => d_trm t
  | EAdd t e => and_then (d_trm t) (λ v, '(v1, er) ← d_exp e; o ← f_add v v1; Ok (or_bad o er))
  | ESub t e => and_then (d_trm t) (λ v, '(v1, er) ← d_exp e; o ← f_sub v v1; Ok (or_bad o er))
  end.
End Denote.

(** *** Numerals *)

Lemma chr_digit d : 0 ≤ d < 10 → chr (numeral_digit d) = 48 + d.
Proof. intros H. unfold chr, numeral_digit. rewrite nat_ascii_embedding by lia. lia. Qed.

Lemma based_digit_digit base d : 0 ≤ d < 10 → d < base → based_digit base (numeral_digit d) = Some d.
Proof.
  intros H Hb. unfold based_digit, digit_val. rewrite chr_digit by done. rewrite bool_decide_true by lia. cbn.
  replace (48 + d - 48) with d by lia. by rewrite bool_decide_true.
Qed.

Lemma digits_dec k : ∀ n acc v i, 0 ≤ n < 10 ^ Z.of_nat k → (0 < k)%nat →
  ∃ m, digits 10 (dec k n acc) v i = digits 10 acc (v * 10 ^ Z.of_nat (S m) + n) (i + S m).
Proof.
  induction k as [|k IH]; intros n acc v i Hn Hk; [lia|]. cbn [dec]. pose proof (Z.mod_pos_bound n 10 ltac:(lia)) as Hm.
  pose proof (Z.div_mod n 10 ltac:(lia)) as Hd. case_bool_decide as Hlt.
  - exists 0%nat. cbn [digits]. rewrite based_digit_digit by lia. rewrite (Z.mod_small n 10) by lia. f_equal; lia.
  - rewrite Nat2Z.inj_succ, Z.pow_succ_r in Hn by lia.
    destruct (IH (n / 10) (String (numeral_digit (n mod 10)) acc) v i) as [m ->]; [split; [lia|apply Z.div_lt_upper_bound; lia]|destruct k; cbn in *; lia|].
    exists (S m). cbn [digits]. rewrite based_digit_digit by lia. f_equal; [|lia].
    rewrite (Nat2Z.inj_succ (S m)), (Z.pow_succ_r 10 (Z.of_nat (S m))) by lia. nia.
Qed.

(** A numeral: a digit, not zero unless it is all there is, and further digits. *)
Fixpoint all_digits (s : string) : bool :=
  match s with EmptyString => true | String c s => bool_decide (48 ≤ chr c ≤ 57) && all_digits s end.

Lemma all_digits_app s1 s2 : all_digits (s1 +:+ s2) = all_digits s1 && all_digits s2.
Proof. induction s1 as [|c s1 IH]; [done|]. change (bool_decide (48 ≤ chr c ≤ 57) && all_digits (s1 +:+ s2) = bool_decide (48 ≤ chr c ≤ 57) && all_digits s1 && all_digits s2). rewrite IH. by rewrite andb_assoc. Qed.

Lemma dec_shape k : ∀ n acc, 0 ≤ n < 10 ^ Z.of_nat k → (0 < k)%nat →
  ∃ c s, dec k n acc = String c (s +:+ acc) ∧ all_digits (String c s) = true ∧ (n ≠ 0 → 49 ≤ chr c) ∧ (String.length s < k)%nat.
Proof.
  induction k as [|k IH]; intros n acc Hn Hk; [lia|]. cbn [dec]. pose proof (Z.mod_pos_bound n 10 ltac:(lia)) as Hm.
  pose proof (Z.div_mod n 10 ltac:(lia)) as Hd. case_bool_decide as Hlt.
  - exists (numeral_digit (n mod 10)), EmptyString. cbn [all_digits]. rewrite chr_digit by done. rewrite bool_decide_true by lia.
    split_and!; [done|done| |cbn; lia]. intros. rewrite Z.mod_small by lia. lia.
  - rewrite Nat2Z.inj_succ, Z.pow_succ_r in Hn by lia. set (d := numeral_digit (n mod 10)).
    destruct (IH (n / 10) (String d acc)) as (c & s & -> & Hs & Hc & Hl); [split; [lia|apply Z.div_lt_upper_bound; lia]|destruct k; cbn in *; lia|].
    exists c, (s +:+ String d EmptyString). rewrite <- str_app_assoc. split_and!; [done| |intros; apply Hc; pose proof (Z.div_le_lower_bound n 10 1); lia|].
    + cbn [all_digits] in *. apply andb_true_iff in Hs as [-> Hs]. rewrite all_digits_app, Hs. cbn [all_digits]. unfold d.
      rewrite chr_digit by done. by rewrite bool_decide_true by lia.
    + rewrite str_length_app. cbn. lia.
Qed.

(** The value that [constant] gives to a numeral. *)
Lemma constant_decimal h n : 32 ≤ LONG_BITS h → 0 ≤ n < 2 ^ 31 → constant h (decimal n) = Ok (Some (as_int n)).
Proof.
  intros Hw Hn. assert (strto_base0 (decimal n) = Some (n, EmptyString)) as Hs.
  { destruct (decide (n = 0)) as [->|Hne]; [done|]. unfold strto_base0.
    destruct (dec_shape 10 n EmptyString) as (c & s & Heq & _ & Hc & _); [cbn; lia|lia|]. unfold decimal. specialize (Hc Hne).
    assert (c ≠ "0"%char) as Hc0 by (intros ->; by cbn in Hc).
    assert (hex_prefix (dec 10 n EmptyString) = None) as ->.
    { rewrite Heq. unfold hex_prefix. destruct c as [[] [] [] [] [] [] [] []]; done. }
    assert (∀ A (x y : A), match dec 10 n EmptyString with String "0" _ => x | _ => y end = y) as ->.
    { intros. rewrite Heq. destruct c as [[] [] [] [] [] [] [] []]; done. }
    destruct (digits_dec 10 n EmptyString 0 0) as [m ->]; [cbn; lia|lia|]. cbn [digits]. rewrite bool_decide_false by lia. done. }
  unfold constant, strtol, clamp. rewrite Hs.
  assert (2 ^ 31 ≤ 2 ^ (LONG_BITS h - 1)) as Hp by (apply Z.pow_le_mono_r; lia).
  rewrite bool_decide_true by lia. change (Ok (Some (as_int (i32 n))) = Ok (Some (as_int n))). by rewrite i32_small by lia.
Qed.

(** *** Tokens read back *)

Section Parse.
Context (h : eval_host) (Hw : 32 ≤ LONG_BITS h).
Context (f_eval_ident : string → result (eval_value_t * eval_err_t)).

Definition kind_of (l : list tk) : eval_token_t := match l with [] => tok_eof | k :: _ => tk_kind k end.

Lemma tok_map_low z : 128 ≤ z → tok_map z = tok_invalid.
Proof. intros H. unfold tok_map. by repeat (rewrite bool_decide_false by lia). Qed.

Lemma tok_at_known c : tok_map (chr c) ≠ tok_invalid → tok_at h c = Ok (tok_map (chr c)).
Proof. intros H. apply tok_at_Ok. intros _. destruct (decide (chr c < 128)); [done|]. by rewrite tok_map_low in H by lia. Qed.

Lemma tok_at_space : tok_at h " " = Ok tok_whitespace.
Proof. by rewrite tok_at_known. Qed.

Lemma scan_ident_flat s l : ident_rest s = true → scan_ident h (s +:+ flat l) = Ok (s, flat l).
Proof.
  induction s as [|c s IH].
  - intros _. change (EmptyString +:+ flat l) with (flat l). destruct l as [|k l]; [done|]. cbn [flat scan_ident]. by rewrite tok_at_space.
  - cbn [ident_rest]. intros [Hc%bool_decide_eq_true Hs]%andb_true_iff. change (String c s +:+ flat l) with (String c (s +:+ flat l)). cbn [scan_ident].
    rewrite tok_at_known by (destruct Hc as [-> | ->]; done). cbn [mbind result_bind]. rewrite bool_decide_true by done. by rewrite IH.
Qed.

Lemma digit_tok c : 48 ≤ chr c ≤ 57 → tok_map (chr c) = tok_const.
Proof. intros H. unfold tok_map. rewrite bool_decide_false by lia. by rewrite bool_decide_true by lia. Qed.

Lemma lower_digit c : 48 ≤ chr c ≤ 57 → lower c = chr c.
Proof. unfold lower, chr. intros H. by rewrite bool_decide_false by lia. Qed.

Lemma scan_const_flat s l last : all_digits s = true → last ≠ 101 → scan_const h last false (s +:+ flat l) = Ok (s, flat l).
Proof.
  revert last. induction s as [|c s IH]; intros last.
  - intros _ Hl. change (EmptyString +:+ flat l) with (flat l). destruct l as [|k l]; [done|]. cbn [flat scan_const]. rewrite tok_at_space.
    cbn [mbind result_bind]. by rewrite (bool_decide_false (last = 101)).
  - cbn [all_digits]. intros [Hc%bool_decide_eq_true Hs]%andb_true_iff Hl. change (String c s +:+ flat l) with (String c (s +:+ flat l)). cbn [scan_const].
    rewrite tok_at_known by (by rewrite digit_tok). cbn [mbind result_bind]. rewrite digit_tok, lower_digit by done.
    rewrite (bool_decide_false (chr c = 120)) by lia. rewrite (bool_decide_true (tok_const = tok_const)) by done. cbn [orb]. rewrite IH by (done || lia). done.
Qed.

Lemma get_token_flat k l es : tk_ok k → peek_tok es = tok_invalid → es_p es = flat (k :: l) →
  get_next_token h es = Ok (tk_kind k, mkEval (flat l) (es_lastp es) (tk_text k) tok_invalid (eval_error es)).
Proof.
  intros Hk Hp Hes. unfold get_next_token. rewrite bool_decide_false by (intros []; done). rewrite Hes. cbn [flat skip_white].
  rewrite tok_at_space. cbn [mbind result_bind]. rewrite (bool_decide_true (tok_whitespace = tok_whitespace)) by done.
  destruct k as [n|x|t]; cbn [tk_text tk_kind].
  - destruct (dec_shape 10 n EmptyString) as (c & s & Heq & Hs & _ & Hlen); [cbn in *; lia|lia|]. rewrite str_app_nil in Heq. unfold decimal. rewrite Heq.
    cbn [all_digits] in Hs. apply andb_true_iff in Hs as [Hc%bool_decide_eq_true Hs].
    change (String c s +:+ flat l) with (String c (s +:+ flat l)). cbn [skip_white].
    rewrite tok_at_known by (by rewrite digit_tok). cbn [mbind result_bind]. rewrite digit_tok by done. cbn [mbind result_bind].
    rewrite (bool_decide_false (tok_const = tok_whitespace)) by done. cbn [mbind result_bind]. rewrite tok_at_known by (by rewrite digit_tok). cbn [mbind result_bind]. rewrite digit_tok by done.
    rewrite scan_const_flat by done. cbn [mbind result_bind]. unfold fits. rewrite bool_decide_false by (cbn; lia). done.
  - destruct x as [|c s]; [done|]. destruct Hk as (Hc & Hs & Hlen). change (String c s +:+ flat l) with (String c (s +:+ flat l)). cbn [skip_white].
    rewrite tok_at_known by (by rewrite Hc). cbn [mbind result_bind]. rewrite Hc. cbn [mbind result_bind].
    rewrite (bool_decide_false (tok_ident = tok_whitespace)) by done. cbn [mbind result_bind]. rewrite tok_at_known by (by rewrite Hc). cbn [mbind result_bind]. rewrite Hc.
    rewrite scan_ident_flat by done. cbn [mbind result_bind]. unfold fits. rewrite bool_decide_false by (cbn; lia). done.
  - assert (∃ c, op_text t = String c EmptyString ∧ tok_map (chr c) = t ∧ t ≠ tok_whitespace ∧ t ≠ tok_eof ∧ t ≠ tok_invalid ∧ t ≠ tok_ident ∧ t ≠ tok_const)
      as (c & -> & Hc & Ht1 & Ht2 & Ht3 & Ht4 & Ht5).
    { cbn in Hk. rewrite !elem_of_cons, elem_of_nil in Hk. destruct_or! Hk; subst; try done; by eexists. }
    change (String c EmptyString +:+ flat l) with (String c (flat l)). cbn [skip_white].
    rewrite tok_at_known by congruence. cbn [mbind result_bind]. rewrite Hc. cbn [mbind result_bind].
    rewrite (bool_decide_false (t = tok_whitespace)) by done. cbn [mbind result_bind]. rewrite tok_at_known by congruence.
    cbn [mbind result_bind]. rewrite Hc. by destruct t.
Qed.

(** *** The parser at the tokens [l] *)

Record at_tokens (es : eval_state_t) (l : list tk) : Prop := {
  at_err : eval_error es = ERR_NOERR;
  at_p : peek_tok es = tok_invalid → es_p es = flat l;
  at_peek : peek_tok es ≠ tok_invalid → es_lastp es = flat l ∧ peek_tok es = kind_of l ∧
    match l with [] => True | k :: l => es_p es = flat l ∧ tok_buf es = tk_text k end
}.

Lemma kind_valid k : tk_ok k → tk_kind k ≠ tok_invalid.
Proof. destruct k as [n|x|t]; [done..|]. cbn. intros Ht ->. by rewrite !elem_of_cons, elem_of_nil in Ht; destruct_or! Ht. Qed.

Lemma peek_at l es : Forall tk_ok l → at_tokens es l →
  ∃ es1, peek_next_token h es = Ok (kind_of l, es1) ∧ at_tokens es1 l ∧ peek_tok es1 = kind_of l.
Proof.
  intros Hl [He Hp Hk]. unfold peek_next_token. case_bool_decide as Ht.
  - specialize (Hp Ht). rewrite Hp, Ht. destruct l as [|k l].
    + eexists. split; [done|]. by split; [split|].
    + apply Forall_cons in Hl as [Hk0 _]. rewrite (get_token_flat k l) by done. cbn [mbind result_bind kind_of]. eexists. split; [done|].
      split; [split; [done| |done]|done]. intros Hi. by destruct (kind_valid k).
  - destruct (Hk Ht) as (H1 & H2 & H3). exists es. rewrite H2. split_and!; [done|by split|done].
Qed.

Lemma take_at k l es : tk_ok k → at_tokens es (k :: l) → peek_tok es = tk_kind k →
  ∃ es1, get_next_token h es = Ok (tk_kind k, es1) ∧ at_tokens es1 l ∧ tok_buf es1 = tk_text k.
Proof.
  intros Hk [He _ Hp] Ht. pose proof (kind_valid k Hk) as Hv. destruct (Hp ltac:(congruence)) as (_ & _ & H1 & H2).
  unfold get_next_token. rewrite bool_decide_true by congruence. rewrite Ht. eexists. split; [done|]. split; [by split|done].
Qed.

(** A result of the parser, and what is denoted, [l] being left. *)
Definition reads_as (l : list tk) (d : result (eval_value_t * eval_err_t)) (r : result (eval_value_t * eval_state_t)) : Prop :=
  match d with
  | Ok (v, er) => ∃ es, r = Ok (v, es) ∧ eval_error es = er ∧ (er = ERR_NOERR → at_tokens es l) ∧ (er ≠ ERR_NOERR → v = err_value)
  | Fault f => r = Fault f
  end.

Lemma agrees_bind l l' d r k k' : reads_as l' d r →
  (∀ v es, at_tokens es l' → reads_as l (k v) (k' (v, es))) →
  (∀ es, failed es = true → k' (err_value, es) = Ok (err_value, es)) → reads_as l (and_then d k) (r ≫= k').
Proof.
  destruct d as [[v er]|f]; cbn [reads_as]; [|by intros ->]. intros (es & -> & <- & Ha & Hv) Hk Hf. unfold and_then. cbn [mbind result_bind].
  case_bool_decide as He; [by apply Hk, Ha|]. rewrite (Hv He), Hf; [|unfold failed; by rewrite bool_decide_false]. cbn. by exists es.
Qed.

Lemma agrees_value l v es : at_tokens es l → reads_as l (Ok (v, ERR_NOERR)) (Ok (v, es)).
Proof. intros Ha. exists es. by destruct Ha. Qed.

Lemma agrees_error l er es : er ≠ ERR_NOERR → reads_as l (Ok (err_value, er)) (Ok (err_value, set_error er es)).
Proof. intros. by exists (set_error er es). Qed.

Lemma agrees_id l l' d r r' : reads_as l (and_then d (λ v, Ok (v, ERR_NOERR))) r' → reads_as l' d r → reads_as l d r'.
Proof.
  destruct d as [[v er]|f]; cbn; [|done]. case_bool_decide as He; [by rewrite He|]. intros H (es & _ & _ & _ & Hv). by rewrite Hv.
Qed.

(** The outcome of an operator, as the code records it. *)
Lemma agrees_outcome l d r (op : eval_value_t → result (eval_value_t * bool)) : reads_as l d r →
  reads_as l ('(v1, er) ← d; o ← op v1; Ok (or_bad o er))
    ('(v1, es) ← r; '(val, bad) ← op v1; let es := raise_if bad es in Ok (checked_value val es, es)).
Proof.
  destruct d as [[v1 er]|f]; cbn [reads_as mbind result_bind]; [|by intros ->]. intros (es & -> & <- & Ha & _). cbn [mbind result_bind].
  destruct (op v1) as [[v bad]|f]; [|done]. cbn [mbind result_bind mret result_ret or_bad fst snd]. exists (raise_if bad es).
  unfold checked_value, failed. destruct bad; cbn [fst snd raise_if set_error eval_error]; [done|].
  split_and!; [by case_bool_decide|done|done|intros; by case_bool_decide].
Qed.

Lemma agrees_unchecked l (o : eval_value_t * bool) es : at_tokens es l → (o.2 = true → o.1 = err_value) →
  reads_as l (Ok (or_bad o ERR_NOERR)) (let '(val, bad) := o in Ok (val, raise_if bad es)).
Proof.
  destruct o as [v []]; intros Ha Ho; [|by apply agrees_value]. cbn [snd fst] in Ho. rewrite (Ho eq_refl).
  by apply (agrees_error l ERR_BADEXPR es).
Qed.

Lemma arith_bad opf opu ops v1 v2 v : arith opf opu ops v1 v2 = Ok (v, true) → v = err_value.
Proof.
  unfold arith. destruct (_ || _); [by intros [= <-]|]. destruct (result_type _ _); [|done]. cbn. by destruct (match _ with et_int => _ | _ => _ end).
Qed.

Lemma f_neg_bad v : (f_neg v).2 = true → (f_neg v).1 = err_value.
Proof. destruct v; cbn; try done; by case_bool_decide. Qed.

Abbreviation expr := (expr h f_eval_ident).
Abbreviation term := (term h f_eval_ident).
Abbreviation factor := (factor h f_eval_ident).
Abbreviation d_fac := (d_fac f_eval_ident).
Abbreviation d_trm := (d_trm f_eval_ident).
Abbreviation d_exp := (d_exp f_eval_ident).
Abbreviation len := (length (A := tk)).

Definition fac_agrees (f : fac) : Prop := ∀ l n es, Forall tk_ok (fac_tokens f ++ l) → (3 * len (fac_tokens f) + 1 ≤ n)%nat →
  at_tokens es (fac_tokens f ++ l) → reads_as l (d_fac f) (factor n es).
Definition trm_agrees (t : trm) : Prop := ∀ l n es, Forall tk_ok (trm_tokens t ++ l) → (3 * len (trm_tokens t) + 2 ≤ n)%nat →
  kind_of l ≠ tok_mult → kind_of l ≠ tok_div →
  at_tokens es (trm_tokens t ++ l) → reads_as l (d_trm t) (term n es).
Definition exp_agrees (e : exp) : Prop := ∀ l n es, Forall tk_ok (exp_tokens e ++ l) → (3 * len (exp_tokens e) + 3 ≤ n)%nat →
  kind_of l ≠ tok_mult → kind_of l ≠ tok_div → kind_of l ≠ tok_plus → kind_of l ≠ tok_minus →
  at_tokens es (exp_tokens e ++ l) → reads_as l (d_exp e) (expr n es).

Lemma op_tk_ok t : t ∈ [tok_plus; tok_minus; tok_mult; tok_div; tok_oparen; tok_cparen] → tk_ok (KOp t).
Proof. done. Qed.

Local Ltac peek Hl Ha :=
  let es1 := fresh "es1" in let Ha1 := fresh "Ha1" in let Ht1 := fresh "Ht1" in
  destruct (peek_at _ _ Hl Ha) as (es1 & -> & Ha1 & Ht1); cbn [mbind result_bind kind_of tk_kind].
Local Ltac take Hl Ha1 Ht1 :=
  let es2 := fresh "es2" in let Ha2 := fresh "Ha2" in let Hb2 := fresh "Hb2" in
  destruct (take_at _ _ _ (Forall_inv Hl) Ha1 Ht1) as (es2 & -> & Ha2 & Hb2); cbn [mbind result_bind tk_kind].

Lemma fac_num n : fac_agrees (FNum n).
Proof.
  intros l [|m] es Hl Hm Ha; [cbn in Hm; lia|]. cbn [fac_tokens app] in *. cbn [Eval.factor].
  peek Hl Ha. take Hl Ha1 Ht1. rewrite Hb2. cbn [tk_text]. rewrite constant_decimal; [|done|by apply Forall_inv in Hl]. by apply agrees_value.
Qed.

Lemma fac_var x : fac_agrees (FVar x).
Proof.
  intros l [|m] es Hl Hm Ha; [cbn in Hm; lia|]. cbn [fac_tokens app] in *. cbn [Eval.factor].
  peek Hl Ha. take Hl Ha1 Ht1. rewrite Hb2. cbn [tk_text]. change (d_fac (FVar x)) with (and_then (f_eval_ident x) (λ v, Ok (v, ERR_NOERR))).
  destruct (f_eval_ident x) as [[v er]|f]; [|done]. cbn. unfold checked_value, failed. cbn [set_error eval_error].
  case_bool_decide as He; [subst|by eexists]. apply agrees_value. destruct Ha2 as [_ H1 H2]. by split.
Qed.

Lemma fac_neg f : fac_agrees f → fac_agrees (FNeg f).
Proof.
  intros IH l [|m] es Hl Hm Ha; [cbn in Hm; lia|]. cbn [fac_tokens app length] in *. cbn [Eval.factor].
  peek Hl Ha. take Hl Ha1 Ht1. apply (agrees_bind _ l); [apply IH; [by apply Forall_inv_tail in Hl|lia|done]| |by intros es' ->].
  intros v es' Ha'. destruct (failed es') eqn:Hf; [destruct Ha' as [Ha' _ _]; by apply failed_true in Hf|].
  apply (agrees_unchecked l (f_neg v)); [done|apply f_neg_bad].
Qed.

Lemma not_failed es l : at_tokens es l → failed es = false.
Proof. intros [H _ _]. by apply failed_spec. Qed.

Lemma fac_paren e : exp_agrees e → fac_agrees (FParen e).
Proof.
  intros IH l [|m] es Hl Hm Ha; [cbn in Hm; lia|]. cbn [fac_tokens app length] in *. cbn [Eval.factor]. rewrite length_app in Hm. cbn in Hm.
  rewrite <- app_assoc in *. cbn [app] in *. peek Hl Ha. take Hl Ha1 Ht1. apply Forall_inv_tail in Hl.
  assert (reads_as (KOp tok_cparen :: l) (d_exp e) (expr m es2)) as Hr by (apply IH; [done|lia|done..]).
  eapply agrees_id; [|exact Hr]. eapply agrees_bind; [exact Hr| |by intros es' ->]. intros v es' Ha'. rewrite (not_failed _ _ Ha').
  apply Forall_app in Hl as [_ Hl]. peek Hl Ha'. rewrite bool_decide_false by (intros []; done). take Hl Ha0 Ht0. by apply agrees_value.
Qed.

(** An operand that no operator follows. *)
Lemma agrees_through l d r (k : eval_token_t → eval_value_t → eval_state_t → result (eval_value_t * eval_state_t)) : Forall tk_ok l →
  reads_as l d r → (∀ v es, k (kind_of l) v es = Ok (v, es)) →
  reads_as l d ('(val, es) ← r; if failed es then Ok (err_value, es) else '(tok, es) ← peek_next_token h es; k tok val es).
Proof.
  intros Hl Hr Hk. eapply agrees_id; [|exact Hr]. eapply agrees_bind; [exact Hr| |by intros es' ->]. intros v es' Ha'. rewrite (not_failed _ _ Ha').
  peek Hl Ha'. rewrite Hk. by apply agrees_value.
Qed.

(** An operand that an operator and its second operand follow. *)
Lemma agrees_operator k l l' d r f (body : eval_token_t → eval_value_t → eval_state_t → result (eval_value_t * eval_state_t)) kd : Forall tk_ok (k :: l) →
  reads_as (k :: l) d r →
  (∀ v es, body (tk_kind k) v es = '(_, es) ← get_next_token h es; f v es) → (∀ v es, at_tokens es l → reads_as l' (kd v) (f v es)) →
  reads_as l' (and_then d kd) ('(val, es) ← r; if failed es then Ok (err_value, es) else '(tok, es) ← peek_next_token h es; body tok val es).
Proof.
  intros Hl Hr Hb Hf. eapply agrees_bind; [exact Hr| |by intros es' ->]. intros v es' Ha'. rewrite (not_failed _ _ Ha').
  peek Hl Ha'. rewrite Hb. take Hl Ha1 Ht1. by apply Hf.
Qed.

Lemma trm_fac f : fac_agrees f → trm_agrees (TFac f).
Proof.
  intros IH l [|m] es Hl Hm H1 H2 Ha; [lia|]. cbn [trm_tokens Eval.term] in *. apply (agrees_through l).
  - by apply Forall_app in Hl as [_ Hl].
  - apply IH; [done|lia|done].
  - intros v es'. by destruct (kind_of l).
Qed.

Lemma trm_mul f t : fac_agrees f → trm_agrees t → trm_agrees (TMul f t).
Proof.
  intros IHf IHt l [|m] es Hl Hm H1 H2 Ha; [lia|]. cbn [trm_tokens Eval.term] in *. rewrite length_app in Hm. cbn [length] in Hm.
  rewrite <- app_assoc in *. cbn [app] in *. pose proof Hl as [_ Hl']%Forall_app.
  eapply (agrees_operator _ _ l (d_fac f) (factor m es)); [exact Hl'|apply IHf; [done|lia|done]|done|].
  intros v es' Ha'. cbn beta. apply (agrees_outcome l (d_trm t) (term m es') (f_mult v)). apply Forall_inv_tail in Hl'. apply IHt; [done|lia|done..].
Qed.

Lemma trm_div f t : fac_agrees f → trm_agrees t → trm_agrees (TDiv f t).
Proof.
  intros IHf IHt l [|m] es Hl Hm H1 H2 Ha; [lia|]. cbn [trm_tokens Eval.term] in *. rewrite length_app in Hm. cbn [length] in Hm.
  rewrite <- app_assoc in *. cbn [app] in *. pose proof Hl as [_ Hl']%Forall_app.
  eapply (agrees_operator _ _ l (d_fac f) (factor m es)); [exact Hl'|apply IHf; [done|lia|done]|done|].
  intros v es' Ha'. cbn beta. apply Forall_inv_tail in Hl'. apply (agrees_bind _ l); [apply IHt; [done|lia|done..]| |by intros es1 ->].
  intros v1 es1 Ha1. rewrite (not_failed _ _ Ha1). destruct (f_eq_zero v1) as [[] bad] eqn:Hz; cbn [fst].
  - assert (bad = false) as -> by (by destruct v1; simplify_eq/=). by apply agrees_error.
  - destruct bad.
    + destruct v1; try done. unfold f_div, arith. rewrite orb_true_r. cbn [mbind result_bind mret result_ret].
      exact (agrees_error l ERR_BADEXPR (set_error ERR_BADEXPR es1) ltac:(done)).
    + destruct (f_div v v1) as [o|fl] eqn:Ho; [|done]. cbn [mbind result_bind mret result_ret]. apply agrees_unchecked; [done|].
      destruct o as [v' []]; [|done]. intros _. cbn. by apply arith_bad in Ho.
Qed.

Lemma exp_trm t : trm_agrees t → exp_agrees (ETrm t).
Proof.
  intros IH l [|m] es Hl Hm H1 H2 H3 H4 Ha; [lia|]. cbn [exp_tokens Eval.expr] in *. apply (agrees_through l).
  - by apply Forall_app in Hl as [_ Hl].
  - apply IH; [done|lia|done..].
  - intros v es'. by destruct (kind_of l).
Qed.

Lemma exp_op t e k op : trm_agrees t → exp_agrees e → (k, op) ∈ [(tok_plus, f_add); (tok_minus, f_sub)] → ∀ l m es,
  Forall tk_ok (trm_tokens t ++ KOp k :: exp_tokens e ++ l) → (3 * (len (trm_tokens t) + S (len (exp_tokens e))) + 2 ≤ m)%nat →
  kind_of l ≠ tok_mult → kind_of l ≠ tok_div → kind_of l ≠ tok_plus → kind_of l ≠ tok_minus →
  at_tokens es (trm_tokens t ++ KOp k :: exp_tokens e ++ l) →
  reads_as l (and_then (d_trm t) (λ v, '(v1, er) ← d_exp e; o ← op v v1; Ok (or_bad o er))) (expr (S m) es).
Proof.
  intros IHt IHe Hop l m es Hl Hm H1 H2 H3 H4 Ha. cbn [Eval.expr]. pose proof Hl as [_ Hl']%Forall_app.
  assert (k ≠ tok_mult ∧ k ≠ tok_div) as [Hk1 Hk2] by (rewrite !elem_of_cons, elem_of_nil in Hop; destruct_or! Hop; by simplify_eq).
  eapply (agrees_operator _ _ l (d_trm t) (term m es) (λ v es, '(v1, es) ← expr m es; '(val, bad) ← op v v1; let es := raise_if bad es in Ok (checked_value val es, es)));
    [exact Hl'|apply IHt; [done|lia|done..]| |].
  - intros v es'. cbn [tk_kind]. rewrite !elem_of_cons, elem_of_nil in Hop. destruct_or! Hop; by simplify_eq.
  - intros v es' Ha'. apply (agrees_outcome l (d_exp e) (expr m es') (op v)). apply Forall_inv_tail in Hl'. apply IHe; [done|lia|done..].
Qed.

Lemma exp_add_sub t e : trm_agrees t → exp_agrees e → exp_agrees (EAdd t e) ∧ exp_agrees (ESub t e).
Proof.
  intros IHt IHe. split; intros l [|m] es Hl Hm H1 H2 H3 H4 Ha; try lia; cbn [exp_tokens] in *; rewrite length_app in Hm; cbn [length] in Hm;
    rewrite <- app_assoc in *; cbn [app] in *.
  - apply (exp_op t e tok_plus f_add); [done|done|rewrite elem_of_cons; by left|done|lia|done..].
  - apply (exp_op t e tok_minus f_sub); [done|done|rewrite !elem_of_cons; by right; left|done|lia|done..].
Qed.

Lemma grammar_agrees : (∀ f, fac_agrees f) ∧ (∀ t, trm_agrees t) ∧ (∀ e, exp_agrees e).
Proof.
  apply grammar_ind; auto using fac_num, fac_var, fac_neg, fac_paren, trm_fac, trm_mul, trm_div, exp_trm; intros; by apply exp_add_sub.
Qed.
End Parse.

(** ** The type of a result *)

(** The order of the conversions of C, and the bits of the integers. *)
Definition rank (t : eval_type_t) : Z :=
  match t with
  | et_int => 0 | et_uint => 1 | et_addr => 2 | et_sqword => 3 | et_qword => 4 | et_float => 5 | et_double => 6 | et_symbol => 7
  end.
Definition type_bits (t : eval_type_t) : Z :=
  match t with et_int | et_uint | et_addr => 32 | _ => 64 end.
Definition int_of (v : eval_value_t) : option Z :=
  match v with
  | as_int z | as_uint z | as_addr z | as_qword z | as_sqword z => Some z
  | as_float _ | as_double _ | as_symbol _ => None
  end.

Definition ring_ops : list ((eval_value_t → eval_value_t → result (eval_value_t * bool)) * (Z → Z → Z)) :=
  [(f_add, Z.add); (f_sub, Z.sub); (f_mult, Z.mul)].

Lemma wraps z : (i32 z) mod 2 ^ 32 = z mod 2 ^ 32 ∧ (u32 z) mod 2 ^ 32 = z mod 2 ^ 32 ∧
  (i64 z) mod 2 ^ 64 = z mod 2 ^ 64 ∧ (u64 z) mod 2 ^ 64 = z mod 2 ^ 64.
Proof.
  unfold i32, i64, u32, u64. rewrite !Z.mod_mod by lia. rewrite !Zminus_mod_idemp_l. split_and!; try done; f_equal; lia.
Qed.

Lemma ring_congruent op zop a b a' b' M : (op, zop) ∈ ring_ops → a mod M = a' mod M → b mod M = b' mod M → zop a b mod M = zop a' b' mod M.
Proof.
  unfold ring_ops. rewrite !elem_of_cons, elem_of_nil. intros Hop Ha Hb. destruct_or! Hop; simplify_eq.
  - rewrite Zplus_mod, Ha, Hb. symmetry. apply Zplus_mod.
  - rewrite Zminus_mod, Ha, Hb. symmetry. apply Zminus_mod.
  - rewrite Zmult_mod, Ha, Hb. symmetry. apply Zmult_mod.
Qed.

Lemma arith_typed_aux op zop opf v1 v2 : (op, zop) ∈ ring_ops → is_symbol v1 = false → is_symbol v2 = false → ∃ v,
  arith opf (λ x y, Ok (zop x y)) (λ _ x y, Ok (zop x y)) v1 v2 = Ok (v, false) ∧ value_ok v ∧
  rank (v_type v) = Z.max (rank (v_type v1)) (rank (v_type v2)) ∧
  ∀ z1 z2, int_of v1 = Some z1 → int_of v2 = Some z2 → ∃ z, int_of v = Some z ∧
    z mod 2 ^ type_bits (v_type v) = zop z1 z2 mod 2 ^ type_bits (v_type v).
Proof.
  intros Hop H1 H2. unfold arith. rewrite H1, H2. cbn [orb].
  destruct v1 as [a|a|a|a|a|a|a|a]; try done; destruct v2 as [b|b|b|b|b|b|b|b]; try done; eval_result_type;
    (eexists; split; [reflexivity|]; split; [first [apply value_ok_bounds|exact I]|]; split; [reflexivity|]);
    intros z1 z2 Hz1 Hz2; simplify_eq/=; (eexists; split; [reflexivity|]);
    rewrite ?(proj1 (wraps _)), ?(proj1 (proj2 (wraps _))), ?(proj1 (proj2 (proj2 (wraps _)))), ?(proj2 (proj2 (proj2 (wraps _))));
    apply (ring_congruent op zop); first [done|apply wraps].
Qed.

(** ** The properties *)

(** A host with signed characters and [long]s of 64 bits, and variables. *)
Definition lp64 : eval_host := mkEvalHost true 64 (λ _, true).
Definition variables (x : string) : result (eval_value_t * eval_err_t) :=
  if bool_decide (x = "x") then Ok (as_uint 7, ERR_NOERR) else
  if bool_decide (x = "s") then Ok (as_symbol "q", ERR_NOERR) else Ok (err_value, ERR_UNDEFVAR).

(** C39: Evaluation of a string of fewer than 512 characters that index the token map, with an evaluator of identifiers
    that returns values of their types, always ends, and never leaves a buffer or panics: it returns a value in the range of its type, the unused end of the string, which is shorter than the string
    unless there is an error, and the error value with an error; the only behaviour that C leaves undefined is a quotient
    that overflows, of a string with a division. *)
Theorem eval_returns h f_eval_ident p : readable h p → (String.length p < 512)%nat →
  (∀ s, ∃ v e, f_eval_ident s = Ok (v, e) ∧ value_ok v) →
  match eval_expr h f_eval_ident (3 * String.length p + 3) p with
  | Ok (v, err, rest) => value_ok v ∧ tail_of rest p ∧ (err = ERR_NOERR → (String.length rest < String.length p)%nat) ∧
      (err ≠ ERR_NOERR → v = err_value)
  | Fault f => f = Undefined ∧ ∃ a b, p = a +:+ String "/" b
  end.
Proof.
  intros Hr Hl Hi. pose proof (eval_safe h p Hr Hl f_eval_ident Hi) as H. by destruct (eval_expr _ _ _ p) as [[[v err] rest]|f].
Qed.

Lemma variables_ok s : ∃ v e, variables s = Ok (v, e) ∧ value_ok v.
Proof. unfold variables. repeat case_bool_decide; by do 2 eexists. Qed.

Lemma eval_returns_witness :
  eval_expr lp64 variables 48 "(-x) / 0x10 - s" = Ok (err_value, ERR_BADEXPR, EmptyString) ∧
  eval_expr lp64 variables 48 "(-2147483647 - 1) / -1" = Fault Undefined ∧
  (value_ok err_value ∧ tail_of EmptyString "(-x) / 0x10 - s").
Proof.
  split; [by vm_compute|]. split; [by vm_compute|].
  pose proof (eval_returns lp64 variables "(-x) / 0x10 - s") as H.
  assert (readable lp64 "(-x) / 0x10 - s") as Hr by (cbn; repeat split; intros _; by vm_compute).
  specialize (H Hr ltac:(cbn; lia) variables_ok).
  assert (eval_expr lp64 variables (3 * String.length "(-x) / 0x10 - s" + 3) "(-x) / 0x10 - s" = Ok (err_value, ERR_BADEXPR, EmptyString)) as He
    by (by vm_compute).
  rewrite He in H. destruct H as (H1 & H2 & _). by split.
Defined.

Lemma flat_length l : (length l ≤ String.length (flat l))%nat.
Proof. induction l as [|k l IH]; [done|]. cbn [flat length String.length]. rewrite str_length_app. lia. Qed.

(** C38: Tokens, look-ahead and descent implement the grammar of expressions whose sums and products associate to the
    right: the printed form of any expression, over numerals of type [int] and identifiers that fit the buffer of a token,
    evaluates to what the expression denotes, value and error, and is used up when there is no error. *)
Theorem eval_refines h f_eval_ident e : 32 ≤ LONG_BITS h → exp_ok e →
  match d_exp f_eval_ident e with
  | Ok (v, err) => ∃ rest, eval_expr h f_eval_ident (3 * String.length (print e) + 3) (print e) = Ok (v, err, rest) ∧
      (err = ERR_NOERR → rest = EmptyString)
  | Fault f => eval_expr h f_eval_ident (3 * String.length (print e) + 3) (print e) = Fault f
  end.
Proof.
  intros Hw He. destruct (grammar_agrees h Hw f_eval_ident) as (_ & _ & H).
  set (es := mkEval (print e) EmptyString EmptyString tok_invalid ERR_NOERR).
  assert (at_tokens es (exp_tokens e ++ [])) as Ha by (rewrite app_nil_r; by split).
  specialize (H e [] (3 * String.length (print e) + 3)%nat es ltac:(by rewrite app_nil_r)
    ltac:(pose proof (flat_length (exp_tokens e)); unfold print; lia) ltac:(done) ltac:(done) ltac:(done) ltac:(done) Ha).
  unfold eval_expr. fold es. destruct (d_exp _ e) as [[v err]|f]; cbn [reads_as] in H; [|by rewrite H].
  destruct H as (es' & -> & <- & Hes & _). cbn [mbind result_bind mret result_ret]. eexists. split; [done|]. intros Hn.
  destruct (Hes Hn) as [_ H1 H2]. case_bool_decide as Hp; [by apply H2|]. by apply H1.
Qed.

(** [10 - 3 - 2], and a symbol among the operands of a sum that fails. *)
Definition ten_three_two : exp :=
  ESub (TFac (FNum 10)) (ESub (TFac (FNum 3)) (ETrm (TFac (FNum 2)))).
Definition symbol_sum : exp :=
  EAdd (TFac (FVar "s")) (ETrm (TDiv (FNeg (FParen (ETrm (TFac (FVar "x"))))) (TFac (FVar "y")))).

Lemma eval_refines_witness :
  d_exp variables ten_three_two = Ok (as_int 9, ERR_NOERR) ∧ d_exp variables symbol_sum = Ok (err_value, ERR_BADEXPR) ∧
  ∃ rest, eval_expr lp64 variables (3 * String.length (print ten_three_two) + 3) (print ten_three_two) = Ok (as_int 9, ERR_NOERR, rest) ∧
    (ERR_NOERR = ERR_NOERR → rest = EmptyString).
Proof.
  split; [by vm_compute|]. split; [by vm_compute|].
  assert (exp_ok ten_three_two) as He by (unfold exp_ok; cbn; repeat constructor; cbn; lia || set_solver).
  pose proof (eval_refines lp64 variables ten_three_two ltac:(cbn; lia) He) as H.
  assert (d_exp variables ten_three_two = Ok (as_int 9, ERR_NOERR)) as Hd by (by vm_compute). rewrite Hd in H. exact H.
Defined.

(** C40: Sums, differences and products of numbers have the greater of the two types in the order of C's conversions, in
    which 64 bits unsigned are above signed and any address above any 32 bits; the value is one of that type, and for
    integers it is congruent to the exact result modulo the width of the type. *)
Theorem arith_typed op zop v1 v2 : (op, zop) ∈ ring_ops → is_symbol v1 = false → is_symbol v2 = false → ∃ v,
  op v1 v2 = Ok (v, false) ∧ value_ok v ∧ rank (v_type v) = Z.max (rank (v_type v1)) (rank (v_type v2)) ∧
  ∀ z1 z2, int_of v1 = Some z1 → int_of v2 = Some z2 → ∃ z, int_of v = Some z ∧
    z mod 2 ^ type_bits (v_type v) = zop z1 z2 mod 2 ^ type_bits (v_type v).
Proof.
  intros Hop H1 H2. pose proof Hop as Hop'. unfold ring_ops in Hop. rewrite !elem_of_cons, elem_of_nil in Hop.
  destruct_or! Hop; simplify_eq; (eapply arith_typed_aux; [exact Hop'|done|done]).
Qed.

Lemma arith_typed_witness : f_sub (as_uint 3) (as_sqword (-5)) = Ok (as_sqword 8, false) ∧
  ∃ v, f_add (as_int (-1)) (as_uint 0) = Ok (v, false) ∧ rank (v_type v) = 1.
Proof.
  split; [by vm_compute|].
  destruct (arith_typed f_add Z.add (as_int (-1)) (as_uint 0) ltac:(unfold ring_ops; rewrite elem_of_cons; by left) eq_refl eq_refl)
    as (v & H1 & _ & H2 & _). exists v. by split.
Defined.

(** *** Behaviours *)

(** Sums and products associate to the right; the second peek passes over a character that starts no token; a [long] is
    cut to an [int]; a leading zero makes the digits octal, or else a wider decimal; an exponent is read in hexadecimal. *)
Lemma eval_quirks :
  eval_expr lp64 variables 24 "10-3-2" = Ok (as_int 9, ERR_NOERR, EmptyString) ∧
  eval_expr lp64 variables 27 "100/10/2" = Ok (as_int 20, ERR_NOERR, EmptyString) ∧
  eval_expr lp64 variables 24 "1 # + 2" = Ok (as_int 3, ERR_NOERR, EmptyString) ∧
  eval_expr lp64 variables 24 "4294967297" = Ok (as_int 1, ERR_NOERR, EmptyString) ∧
  eval_expr lp64 variables 24 "010" = Ok (as_int 8, ERR_NOERR, EmptyString) ∧
  eval_expr lp64 variables 24 "09" = Ok (as_sqword 9, ERR_NOERR, EmptyString) ∧
  eval_expr lp64 variables 24 "0x1e-1" = Ok (err_value, ERR_BADCONST, EmptyString).
Proof. by vm_compute. Qed.
